(* ===== verification/_CoqProject ===== *)
-Q . S2P
Prelude.v
Compress.v
MulLong.v
Utf.v
Opcodes.v
Cvm.v
CvmArith.v
CvmConv.v
CvmCompare.v
CvmStack.v
CvmVar.v
CvmBranch.v
Interp.v
JumpMask.v
Scan.v
Coder.v
CoderBranch.v
Types.v
Metadata.v
MetadataProps.v
Signature.v
SignatureRun.v
SignatureTotal.v
SignatureTree.v
SignatureWrite.v
SignatureRead.v
SignatureIdentical.v
SignatureParse.v
SignatureMethod.v
SignatureRoundtrip.v
Pools.v
PoolsProps.v
MetaHeader.v
MetaHeaderProps.v
SignatureWitness.v
CoderVar.v
CoderSetup.v
Verify.v
VerifyVar.v
VerifyBranch.v
ILSpec.v
CvmProps.v
CvmOps.v
CvmConvOps.v
CoderProps.v
CoderConv.v
VerifyProps.v
Refine.v
RefineBlock.v
ILVars.v
WalkTargets.v
BranchLayout.v
CoderLabels.v
CoderHeight.v
Verdict.v
BranchRun.v
Frame.v
FrameVars.v
VarSound.v
SetupFrame.v
MethodFlow.v
MethodLoop.v
Method.v
MethodTotal.v
MetadataLibrary.v
Layout.v
LayoutSpec.v
LayoutRun.v
LayoutRefine.v
LayoutEnds.v
LayoutVtable.v
LayoutTables.v
LayoutTheorems.v
ImageMethods.v
CoderTheorems.v
BranchLimits.v
Theorems.v
Bignum.v
BignumProps.v
BignumDiv.v
