(* ===== verification/Prelude.v ===== *)
(** * Verification of the Portable.NET execution engine

    A development about the C sources of pnet (src/): the verifier of the
    engine, the coder that turns verified IL into bytecode of the Converted
    Virtual Machine (CVM), the CVM interpreter that runs it, the layout of
    classes, the types, signatures and pools of the metadata image, and
    routines of the support library.

    ** The program

    A method's IL body is checked by [_ILVerify] (engine/verify.c).  Its first
    pass walks the instructions by the opcode tables (image/opcodes.c) and
    marks instruction starts and jump targets; its main loop keeps a stack of
    engine types and a list of labels with their stacks and, as it accepts
    instruction after instruction, calls a coder through a method table
    (include/il_coder.h).  ilverify passes a coder that does nothing
    (engine/null_coder.c), the engine one that outputs CVM bytecode and tracks
    the height of the CVM stack (engine/cvmc*.c).  [Interpreter] (engine/cvm.c
    with engine/cvm_*.c) runs the bytecode on a stack of words whose size
    depends on the build.  Verifier and coder ask the metadata image (image/)
    for types and classes and the layout (engine/layout.c) for their sizes.  An
    image is built in memory: strings, blobs and signatures go to its pools
    (image/create.c, sig_writer.c), the pools to a metadata section (writer.c);
    when it is loaded the section is searched (meta_header.c, meta_index.c) and
    the signatures are parsed to types (sig_parse.c).

    ** Files: models, in the order of the layers of the source

    - Prelude: integers of the C types and the little-endian reads of
      il_values.h; arithmetic and list lemmas, tactics.
    - Compress: image/compress.c, uncompress.c.  MulLong: support/mul_long.c.
      Utf: support/utf8.c, utf16.c.  Bignum: support/bignum.c.
    - Opcodes: the opcode numbers of engine/cvm.h and include/il_opcodes.h and
      the tables of image/opcodes.c.
    - Cvm: the machine state, words and instruction formats (engine/cvm.h,
      cvm_format.h, cvm.c); CvmArith, CvmConv, CvmCompare, CvmStack, CvmVar and
      CvmBranch: one definition [exec_X] for each [VMCASE(COP_X)] of the files
      of the same names; Interp: the instruction loop.
    - JumpMask, Scan: the jump mask and the first pass of engine/verify.c.
    - Coder, CoderBranch, CoderVar, CoderSetup: the coder interface as the type
      classes [ILCoder], [ILBranchCoder] and [ILVarCoder], with the null coder
      and the CVM coder (cvmc_const.c, cvmc_arith.c, cvmc_conv.c,
      cvmc_branch.c, cvmc_stack.c, cvmc_var.c, cvmc_setup.c, the return of
      cvmc_call.c) as instances.
    - Types: type pointers and what the verifier does with them, over a class
      [TypeLibrary] of questions about types and classes.  Metadata: the
      functions of the image library that answer them (meta_types.c, class.c,
      member.c, item.c) over a heap of type and class objects; MetadataLibrary
      is the instance.
    - Verify, VerifyVar, VerifyBranch: the main loop of engine/verify.c over any
      coder ([method_loop] of VerifyBranch; Verify has its cases for
      straight-line code and a loop of them alone), with verify_const.c,
      verify_arith.c, verify_conv.c, verify_stack.c, verify_var.c,
      verify_branch.c and the return of verify_call.c.
    - Layout: engine/layout.c, with the records of the engine as state.
    - Signature: image/sig_parse.c and sig_writer.c, as a parser monad over the
      reader and the heap, and as a writer of bytes.
    - Pools: the pools of an image, image/create.c and the access functions of
      image/image.c.  MetaHeader: image/meta_header.c, and what writer.c and
      meta_index.c do with the metadata section and its pools.

    ** Files: specifications and proofs

    - ILSpec, ILVars: reference semantics of the integer instructions,
      variables and branches of IL, independent of the CVM, with unbounded
      integers and ranges.
    - CvmProps, CvmOps, CvmConvOps: the judgement [performs bs pre r], what a
      sequence of bytecode does to typed cells at the top of the stack, its
      rules, and one result for each instruction (hint database [performs]);
      BranchRun: branches; Frame, FrameVars: variables in the words of a frame.
    - CoderProps, CoderConv: [compiles]: the output of a coder operation
      refines the reference semantics; CoderLabels, BranchLayout: the labels,
      references and patches of the coder as a layout of chunks; CoderHeight:
      the tracked height against ComputeStackSize; CoderTheorems, BranchLimits:
      single operations, and where they do not do what they mean to.
    - VerifyProps, Verdict: stack effects, advance and end of the steps of the
      verifier, the stack area of a run; WalkTargets, VarSound: jump targets,
      label stacks and variables in accepted code.
    - Refine, RefineBlock: one accepted instruction, then a block of them: a
      simulation between the verifier's types, the reference execution and the
      run of the interpreter.  MethodFlow, MethodLoop, Method: the same for a
      whole method with branches and variables and, with SetupFrame, its
      entry code; MethodTotal: over any coder the verification ends, and the
      loop of Verify.v is the main loop on straight-line code.
    - MetadataProps: identity, inheritance and assignability of types.
    - LayoutSpec: the reference layout, a function of the metadata; LayoutRun: a
      weakest precondition for the functions of Layout; LayoutRefine,
      LayoutEnds, LayoutVtable, LayoutTables: refinement, termination and the
      invariant of virtual tables; LayoutTheorems: the theorems.
    - SignatureRun, SignatureTotal: rules for runs of the parser, and that it
      ends and reads safely; SignatureTree: trees that types stand for, and
      their encoding; SignatureWrite: the writer outputs the encoding;
      SignatureRead, SignatureParse, SignatureMethod: the parser on an encoding;
      SignatureIdentical, SignatureRoundtrip: the types that come back are
      identical; SignatureWitness: the theorems at a small image.
    - PoolsProps: invariant of the pools and the hash table, what additions keep;
      MetaHeaderProps: the section that is written, found again and loaded.
    - ImageMethods: methods of an image, with nothing left to a parameter but
      the platform.  Theorems: blocks, single instructions, limits.
    - BignumProps, BignumDiv: values of big numbers; sums, products, bytes;
      division, inverses and powers.

    ** What the theorems show

    A method of integer code, with branches, arguments and local variables but
    no switch (the source compiles backward ones wrongly), that the verifier
    accepts is compiled correctly: its bytecode, run on the arguments of the
    caller, follows the reference semantics to the return or the exception, or
    fails the height check at its entry (image_method_correct,
    verified_method_correct, verified_method_ends), and no run of the reference
    semantics gets stuck (verified_method_safe).  Exceptions have the class of
    [cvm_exn]: the documented one, but ArithmeticException for a zero divisor of
    the 32-bit divisions.  A run of the reference semantics stops ([Mixed]) in
    front of an unsigned branch, bne.un among them, on an int32 and a native int
    of 64 bits, where the coder is known to be wrong; nothing is said of such a
    branch.  The verification ends, or stands at an instruction of a category
    that is left out (verify_method_total).  Under this: the patching of branches
    gives the code of an assembler with two passes (branches_assembled), frames,
    variables, conversions and operators are right one by one, and the scan
    lets branches go to instructions only.

    Layouts compute the reference layout whatever their order and failures
    (LayoutClass_refines), fields are aligned and disjoint while sizes stay
    below 2^32 (laid_out_fields_placed), virtual slots keep their methods
    (virtual_slots_match), layouts end and loops are refused.  Type identity is
    equality of trees, inheritance and implementation are closures,
    assignability of classes and interfaces is a preorder.

    A signature that is written, added to the blob pool among other additions,
    written with the image, loaded and parsed gives an identical type
    (method_signature_survives, locals_signature_roundtrip); the pools keep
    everything under the offsets that were given out
    (image_written_and_loaded); the parsers of signatures and the search for
    metadata entries read no byte outside on any input
    (signatures_read_safely, metadata_entry_in_bounds).

    The arithmetic of big numbers is that of the integers: sums, differences,
    products, quotients, remainders and modular powers and inverses have the
    values they should, within the words that are allocated
    (arithmetic_exact, DivRem_correct, ILBigNumPow_correct), and bytes and
    numbers go back and forth (bignum_bytes_roundtrip).

    Limits of the source that came up are proved on the model too: signed
    integers that do not round trip, a scan that does not end, a switch that
    leaves the code, label types that are generalised too late, missing words
    and cases of the coder, layouts whose size wraps around, blobs that are
    never shared, truncated arrays that are accepted, sums of big numbers that a
    modulus does not reduce.

    ** Conventions, bounds and fuel

    A C integer is a [Z] in the range of its type, with the wrap-around of
    each operation written out ([u32], [i32], ...).  Memory is a list of bytes
    and an index; a read outside it is [None], or [Wild] in the verifier.  The
    build is a parameter ([Platform]: the width of native ints, the size of a
    stack word and of a native float) and every theorem holds for all of them
    unless it names one.  Allocation succeeds.

    Loops take fuel: one step for each byte in the passes of the verifier
    ([scan_total], [verify_method_total]), two units for each class without a
    record in the layout ([LayoutClass_ends]), a bound [depth] on chains of
    modifiers, parents and references in the image, which is enough where the
    pointers have no cycles, the constant IL_TYPE_RECURSION_DEPTH of the source
    for nested signatures, the number of entries for the directory, the number
    of bytes for strings, three tests of the estimate of a digit
    ([correct_fuel]) and two steps for each bit of the modulus ([inv_fuel]) for
    big numbers.  A run of the interpreter that ends is stated as the
    existence of a number of steps.  The pools stay below 2^30 bytes, where the
    lengths in the hash table are free of the bits for the kind of a string,
    and a metadata section below 2^32.

    ** What is not modelled

    In engine/: prefixes and debug marks; the verifier and coder categories of
    pointers, objects, calls and exceptions, which need method tokens, the
    garbage collected heap and native calls; floating point (the coder outputs
    it and its heights are covered, but there is no semantics of the
    instructions); the unroller, the direct threaded and JIT forms; a full code
    cache, which restarts the conversion; processes, threads, the native halves
    of library classes, the debugger.  In image/: PE/COFF files, the metadata
    tables and the objects built from them, linking, resources, attributes,
    debug information.  In support/: files, sockets, threads, hash tables,
    decimals, cryptography, regular expressions.  The compilers (cscc/, codegen/), the
    assembler, the linker and the other tools, and the vendored collector and
    foreign call library (libgc/, libffi/) are left out as a whole. *)
From Stdlib Require Import ZArith Lia.
From stdpp Require Import base list option numbers list_numbers.

Local Open Scope Z_scope.

(** ** Fixed-width integers

    [ILUInt8] .. [ILUInt64] are the residues in [0, 2^w); [ILInt8] ..
    [ILInt64] the two's-complement representatives.  A C cast to one of these
    types is an application of the function of the same width. *)

Definition u8 (z : Z) : Z := z mod 0x100.
Definition u16 (z : Z) : Z := z mod 0x10000.
Definition u32 (z : Z) : Z := z mod 0x100000000.
Definition u64 (z : Z) : Z := z mod 0x10000000000000000.
Definition i8 (z : Z) : Z := (z + 0x80) mod 0x100 - 0x80.
Definition i16 (z : Z) : Z := (z + 0x8000) mod 0x10000 - 0x8000.
Definition i32 (z : Z) : Z := (z + 0x80000000) mod 0x100000000 - 0x80000000.
Definition i64 (z : Z) : Z :=
  (z + 0x8000000000000000) mod 0x10000000000000000 - 0x8000000000000000.

(** The bounds macros of il_values.h. *)
Definition IL_MIN_INT32 : Z := -0x80000000.
Definition IL_MAX_INT32 : Z := 0x7FFFFFFF.
Definition IL_MAX_UINT32 : Z := 0xFFFFFFFF.
Definition IL_MIN_INT64 : Z := -0x8000000000000000.
Definition IL_MAX_INT64 : Z := 0x7FFFFFFFFFFFFFFF.
Definition IL_MAX_UINT64 : Z := 0xFFFFFFFFFFFFFFFF.

Definition b2z (b : bool) : Z := if b then 1 else 0.

(** Bytes are integers in [0, 256). *)
Definition is_byte (b : Z) : Prop := 0 <= b < 256.

(** ** Little-endian reads (IL_READ_UINT16 / IL_READ_UINT32 / IL_READ_INT64) *)

Definition IL_READ_UINT16 (b0 b1 : Z) : Z :=
  u16 (Z.lor (u8 b0) (Z.shiftl (u8 b1) 8)).

Definition IL_READ_UINT32 (b0 b1 b2 b3 : Z) : Z :=
  u32 (Z.lor (Z.lor (Z.lor (u8 b0) (Z.shiftl (u8 b1) 8))
                    (Z.shiftl (u8 b2) 16))
             (Z.shiftl (u8 b3) 24)).

Definition IL_READ_INT64 (b0 b1 b2 b3 b4 b5 b6 b7 : Z) : Z :=
  i64 (Z.lor (IL_READ_UINT32 b0 b1 b2 b3)
             (Z.shiftl (i32 (IL_READ_UINT32 b4 b5 b6 b7)) 32)).

(** ** Tactics *)

Ltac unfold_widths :=
  unfold IL_MIN_INT32, IL_MAX_INT32, IL_MAX_UINT32, IL_MIN_INT64, IL_MAX_INT64,
    IL_MAX_UINT64, i8, i16, i32, i64, u8, u16, u32, u64, is_byte in *.

(** Linear arithmetic over the fixed-width types. *)
Ltac width_lia := intros; unfold_widths; Z.div_mod_to_equations; lia.

(** Case analysis on a boolean comparison of integers. *)
Ltac case_cmp :=
  match goal with
  | |- context [?a =? ?b] => destruct (Z.eqb_spec a b)
  | |- context [?a <? ?b] => destruct (Z.ltb_spec a b)
  | |- context [?a <=? ?b] => destruct (Z.leb_spec a b)
  end.

(** Turn boolean comparisons in the context into propositions. *)
Ltac bool_to_prop :=
  repeat match goal with
  | H : andb _ _ = true |- _ => apply andb_true_iff in H as [? ?]
  | H : andb _ _ = false |- _ => apply andb_false_iff in H
  | H : orb _ _ = false |- _ => apply orb_false_iff in H as [? ?]
  | H : orb _ _ = true |- _ => apply orb_true_iff in H
  | H : negb _ = true |- _ => apply negb_true_iff in H
  | H : negb _ = false |- _ => apply negb_false_iff in H
  | H : (_ =? _) = true |- _ => apply Z.eqb_eq in H
  | H : (_ =? _) = false |- _ => apply Z.eqb_neq in H
  | H : (_ <? _) = true |- _ => apply Z.ltb_lt in H
  | H : (_ <? _) = false |- _ => apply Z.ltb_ge in H
  | H : (_ <=? _) = true |- _ => apply Z.leb_le in H
  | H : (_ <=? _) = false |- _ => apply Z.leb_gt in H
  end.

(** ** Lemmas on the widths *)

Create HintDb width.
Create Rewrite HintDb width.
Create Rewrite HintDb bits.

Lemma u8_range z : 0 <= u8 z < 256.
Proof. width_lia. Qed.

Lemma u16_range z : 0 <= u16 z < 65536.
Proof. width_lia. Qed.

Lemma u32_range z : 0 <= u32 z <= IL_MAX_UINT32.
Proof. width_lia. Qed.

Lemma u64_range z : 0 <= u64 z <= IL_MAX_UINT64.
Proof. width_lia. Qed.

Lemma i32_range z : IL_MIN_INT32 <= i32 z <= IL_MAX_INT32.
Proof. width_lia. Qed.

Lemma i64_range z : IL_MIN_INT64 <= i64 z <= IL_MAX_INT64.
Proof. width_lia. Qed.

Lemma u8_id z : 0 <= z < 256 -> u8 z = z.
Proof. width_lia. Qed.

Lemma u16_id z : 0 <= z < 65536 -> u16 z = z.
Proof. width_lia. Qed.

Lemma u32_id z : 0 <= z <= IL_MAX_UINT32 -> u32 z = z.
Proof. width_lia. Qed.

Lemma u64_id z : 0 <= z <= IL_MAX_UINT64 -> u64 z = z.
Proof. width_lia. Qed.

Lemma i32_id z : IL_MIN_INT32 <= z <= IL_MAX_INT32 -> i32 z = z.
Proof. width_lia. Qed.

Lemma i64_id z : IL_MIN_INT64 <= z <= IL_MAX_INT64 -> i64 z = z.
Proof. width_lia. Qed.

Lemma i32_u32 z : i32 (u32 z) = i32 z.
Proof. width_lia. Qed.

Lemma u32_i32 z : u32 (i32 z) = u32 z.
Proof. width_lia. Qed.

Lemma i64_u64 z : i64 (u64 z) = i64 z.
Proof. width_lia. Qed.

Lemma u64_i64 z : u64 (i64 z) = u64 z.
Proof. width_lia. Qed.

Lemma i32_i64 z : i32 (i64 z) = i32 z.
Proof. width_lia. Qed.

#[export] Hint Rewrite i32_u32 u32_i32 i64_u64 u64_i64 i32_i64 : width.
#[export] Hint Resolve u8_range u16_range u32_range u64_range i32_range i64_range : width.

(** ** Shifts and masks as arithmetic *)

Lemma lor_add a b n :
  0 <= n -> a mod 2 ^ n = 0 -> 0 <= b < 2 ^ n -> Z.lor a b = a + b.
Proof.
  intros Hn Ha Hb. rewrite <-Z.lxor_lor, <-Z.add_nocarry_lxor; try easy.
  all: apply Z.bits_inj'; intros i Hi; rewrite Z.bits_0, Z.land_spec.
  all: destruct (Z.ltb_spec i n).
  all: try (rewrite <-(Z.mod_pow2_bits_low a n i), Ha, Z.bits_0 by lia; easy).
  all: rewrite <-(Z.mod_small b (2 ^ n)) by lia;
    rewrite Z.mod_pow2_bits_high by lia; apply andb_false_r.
Qed.

Lemma lor_shiftl_add a b n :
  0 <= n -> 0 <= b < 2 ^ n -> Z.lor (Z.shiftl a n) b = a * 2 ^ n + b.
Proof.
  intros Hn Hb. rewrite Z.shiftl_mul_pow2 by lia. apply (lor_add _ _ n); try lia.
  apply Z.mod_mul. lia.
Qed.

Lemma land_low z k : 0 <= k -> Z.land z (2 ^ k - 1) = z mod 2 ^ k.
Proof.
  intros Hk. rewrite <-Z.land_ones by lia. f_equal. rewrite Z.ones_equiv. lia.
Qed.

Lemma shiftr_div z k : 0 <= k -> Z.shiftr z k = z / 2 ^ k.
Proof. apply Z.shiftr_div_pow2. Qed.

Lemma shiftl_mul z k : 0 <= k -> Z.shiftl z k = z * 2 ^ k.
Proof. apply Z.shiftl_mul_pow2. Qed.

Lemma land_1 z : Z.land z 0x1 = z mod 2.
Proof. exact (land_low z 1 ltac:(lia)). Qed.

Lemma land_3 z : Z.land z 0x3 = z mod 4.
Proof. exact (land_low z 2 ltac:(lia)). Qed.

Lemma land_7 z : Z.land z 0x7 = z mod 8.
Proof. exact (land_low z 3 ltac:(lia)). Qed.

Lemma land_F z : Z.land z 0xF = z mod 16.
Proof. exact (land_low z 4 ltac:(lia)). Qed.

Lemma land_1F z : Z.land z 0x1F = z mod 32.
Proof. exact (land_low z 5 ltac:(lia)). Qed.

Lemma land_3F z : Z.land z 0x3F = z mod 64.
Proof. exact (land_low z 6 ltac:(lia)). Qed.

Lemma land_FF z : Z.land z 0xFF = z mod 256.
Proof. exact (land_low z 8 ltac:(lia)). Qed.

Lemma land_3FF z : Z.land z 0x3FF = z mod 1024.
Proof. exact (land_low z 10 ltac:(lia)). Qed.

#[export] Hint Rewrite land_1 land_3 land_7 land_F land_1F land_3F land_FF land_3FF : bits.
#[export] Hint Rewrite shiftr_div shiftl_mul using lia : bits.

(** ** Bytes of words *)

Lemma read_uint16_bytes b0 b1 : is_byte b0 -> is_byte b1 -> IL_READ_UINT16 b0 b1 = b0 + 2 ^ 8 * b1.
Proof.
  unfold is_byte. intros. unfold IL_READ_UINT16. rewrite !u8_id, !shiftl_mul by lia.
  rewrite Z.lor_comm, (lor_add _ b0 8) by (lia || apply Z.mod_mul; lia). unfold u16. width_lia.
Qed.

Lemma read_uint32_bytes b0 b1 b2 b3 :
  is_byte b0 -> is_byte b1 -> is_byte b2 -> is_byte b3 ->
  IL_READ_UINT32 b0 b1 b2 b3 = b0 + 2 ^ 8 * b1 + 2 ^ 16 * b2 + 2 ^ 24 * b3.
Proof.
  unfold is_byte. intros. unfold IL_READ_UINT32. rewrite !u8_id, !shiftl_mul by lia.
  rewrite (Z.lor_comm b0), (lor_add _ b0 8) by (lia || apply Z.mod_mul; lia).
  rewrite (Z.lor_comm (_ + b0)), (lor_add _ (_ + b0) 16) by (lia || apply Z.mod_mul; lia).
  rewrite Z.lor_comm, (lor_add _ _ 24) by (lia || apply Z.mod_mul; lia).
  rewrite u32_id by (unfold IL_MAX_UINT32; lia). lia.
Qed.

Lemma word_bytes v :
  0 <= v <= IL_MAX_UINT32 ->
  IL_READ_UINT32 (u8 v) (u8 (Z.shiftr v 8)) (u8 (Z.shiftr v 16)) (u8 (Z.shiftr v 24)) = v.
Proof.
  intros Hv. rewrite read_uint32_bytes by apply u8_range.
  rewrite !shiftr_div by lia. revert Hv. change (2 ^ 8) with 0x100. change (2 ^ 16) with 0x10000.
  change (2 ^ 24) with 0x1000000. width_lia.
Qed.

(** A decidable property of bytes holds when it holds of the 256 values. *)
Lemma byte_enum (P : Z -> bool) :
  forallb P (seqZ 0 256) = true -> forall b, 0 <= b < 256 -> P b = true.
Proof.
  intros HP b Hb. rewrite forallb_forall in HP. apply HP.
  apply list_elem_of_In, elem_of_seqZ. lia.
Qed.

Lemma byte_land_high b k :
  (k = 1 \/ k = 2 \/ k = 3 \/ k = 4 \/ k = 5 \/ k = 6 \/ k = 7) -> 0 <= b < 256 ->
  Z.land b (256 - 2 ^ k) = b - b mod 2 ^ k.
Proof.
  intros Hk Hb. apply Z.eqb_eq.
  destruct Hk as [->|[->|[->|[->|[->|[->| ->]]]]]].
  all: revert b Hb; apply (byte_enum (fun b => Z.land b _ =? b - b mod _)); vm_compute; reflexivity.
Qed.

Lemma land_80 b : 0 <= b < 256 -> Z.land b 0x80 = b - b mod 128.
Proof. apply (byte_land_high b 7). tauto. Qed.

Lemma land_C0 b : 0 <= b < 256 -> Z.land b 0xC0 = b - b mod 64.
Proof. apply (byte_land_high b 6). tauto. Qed.

Lemma land_E0 b : 0 <= b < 256 -> Z.land b 0xE0 = b - b mod 32.
Proof. apply (byte_land_high b 5). tauto. Qed.

Lemma land_F0 b : 0 <= b < 256 -> Z.land b 0xF0 = b - b mod 16.
Proof. apply (byte_land_high b 4). tauto. Qed.

Lemma land_F8 b : 0 <= b < 256 -> Z.land b 0xF8 = b - b mod 8.
Proof. apply (byte_land_high b 3). tauto. Qed.

Lemma land_FC b : 0 <= b < 256 -> Z.land b 0xFC = b - b mod 4.
Proof. apply (byte_land_high b 2). tauto. Qed.

(** Joining the digits of a big- or little-endian number. *)
Lemma lor_digits_8 a b : 0 <= b < 256 -> Z.lor (a * 256) b = a * 256 + b.
Proof. intros. apply (lor_add _ _ 8); lia || apply Z.mod_mul; lia. Qed.

(** The leading byte of a multi-byte form: a payload below a tag. *)
Lemma lor_tag v k t : 0 <= k -> 0 <= v < 2 ^ k -> t mod 2 ^ k = 0 -> Z.lor v t = t + v.
Proof. intros. rewrite Z.lor_comm. by apply (lor_add _ _ k). Qed.

(** Decide the innermost boolean comparison of a conditional in the goal. *)
Ltac cond_tac tac :=
  match goal with
  | |- context [if ?a <? ?b then _ else _] =>
      first [ rewrite (proj2 (Z.ltb_lt a b)) by tac | rewrite (proj2 (Z.ltb_ge a b)) by tac ]
  | |- context [if ?a <=? ?b then _ else _] =>
      first [ rewrite (proj2 (Z.leb_le a b)) by tac | rewrite (proj2 (Z.leb_gt a b)) by tac ]
  | |- context [if ?a =? ?b then _ else _] =>
      first [ rewrite (proj2 (Z.eqb_eq a b)) by tac | rewrite (proj2 (Z.eqb_neq a b)) by tac ]
  end.
