(* ===== verification/Compress.v ===== *)
(** * Compressed metadata integers and tokens (image/compress.c, image/uncompress.c)

    The writers return the bytes they store in [buf]; the C return value is
    the length of that list.  The readers thread the [ILMetaDataRead] block;
    [None] stands for a read past the bytes the pointer addresses, which
    [*_no_overread] excludes for a block whose [len] is backed by data. *)
From Stdlib Require Import ZArith Lia.
From stdpp Require Import base list option numbers.
From S2P Require Import Prelude.

Local Open Scope Z_scope.

Definition IL_META_TOKEN_MASK : Z := 0xFF000000.
Definition IL_META_TOKEN_TYPE_REF : Z := 0x01000000.
Definition IL_META_TOKEN_TYPE_DEF : Z := 0x02000000.
Definition IL_META_TOKEN_TYPE_SPEC : Z := 0x1B000000.
Definition IL_META_TOKEN_BASE_TYPE : Z := 0x72000000.

(** ** Writers *)

Definition ILMetaCompressData (data : Z) : list Z :=
  if data <? 0x80 then
    [u8 data]
  else if data <? Z.shiftl 1 14 then
    [u8 (Z.lor (Z.shiftr data 8) 0x80); u8 data]
  else if data <? Z.shiftl 1 29 then
    [u8 (Z.lor (Z.shiftr data 24) 0xC0);
     u8 (Z.shiftr data 16); u8 (Z.shiftr data 8); u8 data]
  else
    [u8 0xE0;
     u8 (Z.shiftr data 24); u8 (Z.shiftr data 16); u8 (Z.shiftr data 8); u8 data].

(** Returns no bytes (the C code returns 0) for an unsupported token class. *)
Definition ILMetaCompressToken (token : Z) : list Z :=
  let tokenId := Z.land token (u32 (Z.lnot IL_META_TOKEN_MASK)) in
  let tokenClass := Z.land token IL_META_TOKEN_MASK in
  if tokenClass =? IL_META_TOKEN_TYPE_DEF then
    ILMetaCompressData (Z.lor (u32 (Z.shiftl tokenId 2)) 0x00)
  else if tokenClass =? IL_META_TOKEN_TYPE_REF then
    ILMetaCompressData (Z.lor (u32 (Z.shiftl tokenId 2)) 0x01)
  else if tokenClass =? IL_META_TOKEN_TYPE_SPEC then
    ILMetaCompressData (Z.lor (u32 (Z.shiftl tokenId 2)) 0x02)
  else if tokenClass =? IL_META_TOKEN_BASE_TYPE then
    ILMetaCompressData (Z.lor (u32 (Z.shiftl tokenId 2)) 0x03)
  else [].

Definition ILMetaCompressInt (data : Z) : list Z :=
  if 0 <=? data then
    if data <? 0x40 then
      [u8 (Z.shiftl data 1)]
    else if data <? Z.shiftl 1 13 then
      [u8 (Z.lor (Z.land (Z.shiftr data 7) 0x3F) 0x80); u8 (Z.shiftl data 1)]
    else if data <? Z.shiftl 1 28 then
      [u8 (Z.lor (Z.shiftr data 23) 0xC0);
       u8 (Z.shiftr data 15); u8 (Z.shiftr data 7); u8 (Z.shiftl data 1)]
    else
      [u8 0xE0;
       u8 (Z.shiftr data 23); u8 (Z.shiftr data 15); u8 (Z.shiftr data 7);
       u8 (Z.shiftl data 1)]
  else
    if -0x40 <=? data then
      [u8 (Z.lor (Z.land (u8 (Z.shiftl data 1)) 0x7E) 0x01)]
    else if -(Z.shiftl 1 13) <=? data then
      [u8 (Z.lor (Z.land (Z.shiftr data 7) 0x3F) 0x80);
       u8 (Z.lor (Z.shiftl data 1) 0x01)]
    else if -(Z.shiftl 1 29) <=? data then
      [u8 (Z.lor (Z.land (Z.shiftr data 23) 0x1F) 0xC0);
       u8 (Z.shiftr data 15); u8 (Z.shiftr data 7);
       u8 (Z.lor (Z.shiftl data 1) 0x01)]
    else
      [u8 0xE1;
       u8 (Z.shiftr data 23); u8 (Z.shiftr data 15); u8 (Z.shiftr data 7);
       u8 (Z.lor (Z.shiftl data 1) 0x01)].

(** ** Readers *)

Record ILMetaDataRead := mk_read {
  data : list Z;      (* the bytes from the current position on *)
  len : Z;            (* length remaining to read *)
  error : bool;
}.

(** [meta->error = 1] on its own, and with [meta->len = 0]. *)
Definition set_error (m : ILMetaDataRead) : ILMetaDataRead :=
  mk_read (data m) (len m) true.
Definition set_len0_error (m : ILMetaDataRead) : ILMetaDataRead :=
  mk_read (data m) 0 true.

(** [*((meta->data)++)] together with [--(meta->len)]. *)
Definition next_byte (m : ILMetaDataRead) : option (Z * ILMetaDataRead) :=
  match data m with
  | b :: rest => Some (b, mk_read rest (u32 (len m - 1)) (error m))
  | [] => None
  end.

(** Reads of [meta->data[0..2]] or [[0..3]] with the advance that follows. *)
Definition next_bytes3 (m : ILMetaDataRead) : option (Z * Z * Z * ILMetaDataRead) :=
  match data m with
  | b2 :: b3 :: b4 :: rest => Some (b2, b3, b4, mk_read rest (u32 (len m - 3)) (error m))
  | _ => None
  end.
Definition next_bytes4 (m : ILMetaDataRead) :
    option (Z * Z * Z * Z * ILMetaDataRead) :=
  match data m with
  | b1 :: b2 :: b3 :: b4 :: rest =>
      Some (b1, b2, b3, b4, mk_read rest (u32 (len m - 4)) (error m))
  | _ => None
  end.

(** The big-endian combination of four bytes the readers share. *)
Definition combine4 (b1 b2 b3 b4 : Z) : Z :=
  u32 (Z.lor (Z.lor (Z.lor (Z.shiftl b1 24) (Z.shiftl b2 16)) (Z.shiftl b3 8)) b4).

Definition ILMetaUncompressData (meta : ILMetaDataRead) : option (Z * ILMetaDataRead) :=
  if 0 <? len meta then
    '(ch, m) ← next_byte meta;
    if ch <? 0x80 then
      Some (ch, m)
    else if Z.land ch 0xC0 =? 0x80 then
      if 0 <? len m then
        '(ch2, m) ← next_byte m;
        Some (u32 (Z.lor (Z.shiftl (Z.land ch 0x3F) 8) ch2), m)
      else Some (0, set_error m)
    else if Z.land ch 0xE0 =? 0xC0 then
      if 3 <=? len m then
        '(ch2, ch3, ch4, m) ← next_bytes3 m;
        Some (combine4 (Z.land ch 0x1F) ch2 ch3 ch4, m)
      else Some (0, set_len0_error m)
    else if Z.land ch 0xF0 =? 0xE0 then
      if 4 <=? len m then
        '(ch, ch2, ch3, ch4, m) ← next_bytes4 m;
        Some (combine4 ch ch2 ch3 ch4, m)
      else Some (0, set_len0_error m)
    else Some (0, set_len0_error m)
  else Some (0, set_error meta).

Definition ILMetaUncompressToken (meta : ILMetaDataRead) : option (Z * ILMetaDataRead) :=
  '(item, m) ← ILMetaUncompressData meta;
  if error m then Some (0, m)
  else
    let type := Z.land item 0x03 in
    if type =? 0x00 then Some (Z.lor (Z.shiftr item 2) IL_META_TOKEN_TYPE_DEF, m)
    else if type =? 0x01 then Some (Z.lor (Z.shiftr item 2) IL_META_TOKEN_TYPE_REF, m)
    else if type =? 0x02 then Some (Z.lor (Z.shiftr item 2) IL_META_TOKEN_TYPE_SPEC, m)
    else Some (Z.lor (Z.shiftr item 2) IL_META_TOKEN_BASE_TYPE, m).

Definition ILMetaUncompressInt (meta : ILMetaDataRead) : option (Z * ILMetaDataRead) :=
  if 0 <? len meta then
    '(ch, m) ← next_byte meta;
    if Z.land ch 0x80 =? 0x00 then
      if Z.land ch 0x01 =? 0x00 then Some (Z.shiftr ch 1, m)
      else Some (i32 (i8 (Z.lor (Z.shiftr ch 1) 0xC0)), m)
    else if Z.land ch 0xC0 =? 0x80 then
      if 0 <? len m then
        '(ch2, m) ← next_byte m;
        let value := u32 (Z.lor (Z.shiftl (Z.land ch 0x3F) 8) ch2) in
        if Z.land value 0x01 =? 0x00 then Some (i32 (Z.shiftr value 1), m)
        else Some (i32 (Z.lor (Z.shiftr value 1) 0xFFFFE000), m)
      else Some (0, set_error m)
    else if Z.land ch 0xE0 =? 0xC0 then
      if 3 <=? len m then
        '(ch2, ch3, ch4, m) ← next_bytes3 m;
        let value := combine4 (Z.land ch 0x1F) ch2 ch3 ch4 in
        if Z.land value 0x01 =? 0x00 then Some (i32 (Z.shiftr value 1), m)
        else Some (i32 (Z.lor (Z.shiftr value 1) 0xF0000000), m)
      else Some (0, set_len0_error m)
    else
      if 4 <=? len m then
        '(ch, ch2, ch3, ch4, m) ← next_bytes4 m;
        Some (i32 (combine4 ch ch2 ch3 ch4), m)
      else Some (0, set_len0_error m)
  else Some (0, set_error meta).

(** A read block whose remaining length is backed by bytes. *)
Definition read_ok (m : ILMetaDataRead) : Prop :=
  0 <= len m <= IL_MAX_UINT32 /\ len m <= Z.of_nat (length (data m)) /\
  Forall is_byte (data m).

(** The block that has exactly the bytes [bs] to read. *)
Definition read_of (bs : list Z) : ILMetaDataRead :=
  mk_read bs (Z.of_nat (length bs)) false.

(** ** Lemmas *)

Lemma combine4_digits b1 b2 b3 b4 :
  is_byte b1 -> is_byte b2 -> is_byte b3 -> is_byte b4 ->
  combine4 b1 b2 b3 b4 = b1 * 0x1000000 + b2 * 0x10000 + b3 * 0x100 + b4.
Proof.
  unfold is_byte, combine4. intros. autorewrite with bits.
  rewrite (lor_add (b1 * 2 ^ 24) _ 24), (lor_add _ (b3 * 2 ^ 8) 16), (lor_add _ b4 8).
  all: width_lia.
Qed.

Lemma combine2_digits b1 b2 :
  is_byte b1 -> is_byte b2 -> u32 (Z.lor (Z.shiftl b1 8) b2) = b1 * 0x100 + b2.
Proof.
  unfold is_byte. intros. rewrite lor_shiftl_add by lia. width_lia.
Qed.

(** Evaluate the reader's tests on a leading byte of known value. *)
Ltac read_step := repeat (cbn -[Z.land Z.lor Z.shiftr Z.shiftl u8 u32 i8 i32 combine4];
  cond_tac ltac:(idtac; rewrite ?land_80, ?land_C0, ?land_E0, ?land_F0, ?land_1 by width_lia;
                 width_lia)).

Lemma uncompress_form1 b rest n :
  0 <= b < 128 -> 0 <= n < IL_MAX_UINT32 ->
  ILMetaUncompressData (mk_read (b :: rest) (n + 1) false) =
    Some (b, mk_read rest n false).
Proof.
  intros. unfold ILMetaUncompressData. read_step. repeat f_equal; width_lia.
Qed.

Lemma uncompress_form2 b b2 rest n :
  128 <= b < 192 -> is_byte b2 -> 0 <= n < IL_MAX_UINT32 - 1 ->
  ILMetaUncompressData (mk_read (b :: b2 :: rest) (n + 2) false) =
    Some ((b - 128) * 0x100 + b2, mk_read rest n false).
Proof.
  intros. unfold ILMetaUncompressData. read_step.
  rewrite land_3F, combine2_digits by width_lia.
  repeat f_equal; width_lia.
Qed.

Lemma uncompress_form4 b b2 b3 b4 rest n :
  192 <= b < 224 -> is_byte b2 -> is_byte b3 -> is_byte b4 ->
  0 <= n < IL_MAX_UINT32 - 3 ->
  ILMetaUncompressData (mk_read (b :: b2 :: b3 :: b4 :: rest) (n + 4) false) =
    Some ((b - 192) * 0x1000000 + b2 * 0x10000 + b3 * 0x100 + b4, mk_read rest n false).
Proof.
  intros. unfold ILMetaUncompressData. read_step. cbn.
  rewrite land_1F, combine4_digits by width_lia.
  repeat f_equal; width_lia.
Qed.

Lemma uncompress_form5 b b1 b2 b3 b4 rest n :
  224 <= b < 240 -> is_byte b1 -> is_byte b2 -> is_byte b3 -> is_byte b4 ->
  0 <= n < IL_MAX_UINT32 - 4 ->
  ILMetaUncompressData (mk_read (b :: b1 :: b2 :: b3 :: b4 :: rest) (n + 5) false) =
    Some (b1 * 0x1000000 + b2 * 0x10000 + b3 * 0x100 + b4, mk_read rest n false).
Proof.
  intros. unfold ILMetaUncompressData. read_step. cbn.
  rewrite combine4_digits by width_lia.
  repeat f_equal; width_lia.
Qed.

(** The bytes the unsigned writer stores, as digits. *)
Lemma compress_data_digits d :
  0 <= d <= IL_MAX_UINT32 ->
  ILMetaCompressData d =
    if d <? 0x80 then [d]
    else if d <? 0x4000 then [128 + d / 0x100; d mod 0x100]
    else if d <? 0x20000000 then
      [192 + d / 0x1000000; (d / 0x10000) mod 0x100; (d / 0x100) mod 0x100; d mod 0x100]
    else
      [224; d / 0x1000000; (d / 0x10000) mod 0x100; (d / 0x100) mod 0x100; d mod 0x100].
Proof.
  intros Hd. unfold ILMetaCompressData. autorewrite with bits.
  change (1 * 2 ^ 14) with 0x4000. change (1 * 2 ^ 29) with 0x20000000.
  repeat case_cmp; try lia.
  - rewrite u8_id by lia. done.
  - rewrite (lor_tag _ 7) by width_lia. repeat f_equal; width_lia.
  - rewrite (lor_tag _ 5) by width_lia. repeat f_equal; width_lia.
  - repeat f_equal; width_lia.
Qed.

(** The writers store bytes. *)

Lemma compress_data_bytes d : Forall is_byte (ILMetaCompressData d).
Proof. unfold ILMetaCompressData. repeat case_match; repeat constructor; apply u8_range || width_lia. Qed.

Lemma compress_int_bytes d : Forall is_byte (ILMetaCompressInt d).
Proof. unfold ILMetaCompressInt. repeat case_match; repeat constructor; apply u8_range || width_lia. Qed.

Lemma compress_token_bytes token : Forall is_byte (ILMetaCompressToken token).
Proof. unfold ILMetaCompressToken. repeat case_match; apply compress_data_bytes || constructor. Qed.

Section roundtrip.
  Context (rest : list Z) (n : Z).
  Context (Hn : 0 <= n <= IL_MAX_UINT32 - 5).

Lemma uncompress_compress d :
    0 <= d <= IL_MAX_UINT32 ->
    ILMetaUncompressData
      (mk_read (ILMetaCompressData d ++ rest)
               (n + Z.of_nat (length (ILMetaCompressData d))) false) =
      Some (d, mk_read rest n false).
  Proof using Hn.
    intros Hd. rewrite compress_data_digits by done.
    repeat case_cmp; cbn [length app]; simpl (Z.of_nat _).
    - rewrite uncompress_form1 by width_lia. done.
    - rewrite uncompress_form2 by width_lia. repeat f_equal; width_lia.
    - rewrite uncompress_form4 by width_lia. repeat f_equal; width_lia.
    - rewrite uncompress_form5 by width_lia. repeat f_equal; width_lia.
  Qed.
End roundtrip.

(** ** Signed integers *)

Ltac int_step := unfold ILMetaUncompressInt; read_step.

Lemma uncompress_int_form1 b rest n :
  0 <= b < 128 -> 0 <= n < IL_MAX_UINT32 ->
  ILMetaUncompressInt (mk_read (b :: rest) (n + 1) false) =
    Some (if b mod 2 =? 0 then b / 2 else b / 2 - 64, mk_read rest n false).
Proof.
  intros. case_cmp; int_step; autorewrite with bits.
  - repeat f_equal; width_lia.
  - rewrite (lor_tag _ 6) by width_lia. repeat f_equal; width_lia.
Qed.

Lemma uncompress_int_form2 b b2 rest n :
  128 <= b < 192 -> is_byte b2 -> 0 <= n < IL_MAX_UINT32 - 1 ->
  let v := (b - 128) * 0x100 + b2 in
  ILMetaUncompressInt (mk_read (b :: b2 :: rest) (n + 2) false) =
    Some (if v mod 2 =? 0 then v / 2 else v / 2 - 0x2000, mk_read rest n false).
Proof.
  intros Hb Hb2 Hn v. unfold ILMetaUncompressInt. read_step. cbn.
  rewrite land_3F, combine2_digits, land_1 by width_lia.
  replace (b mod 64 * 0x100 + b2) with v by (subst v; width_lia).
  assert (0 <= v < 0x4000) by (subst v; width_lia).
  case_cmp; autorewrite with bits.
  - repeat f_equal; width_lia.
  - rewrite (lor_tag _ 13) by width_lia. repeat f_equal; width_lia.
Qed.

Lemma uncompress_int_form4 b b2 b3 b4 rest n :
  192 <= b < 224 -> is_byte b2 -> is_byte b3 -> is_byte b4 ->
  0 <= n < IL_MAX_UINT32 - 3 ->
  let v := (b - 192) * 0x1000000 + b2 * 0x10000 + b3 * 0x100 + b4 in
  ILMetaUncompressInt (mk_read (b :: b2 :: b3 :: b4 :: rest) (n + 4) false) =
    Some (if v mod 2 =? 0 then v / 2 else v / 2 - 0x10000000, mk_read rest n false).
Proof.
  intros Hb Hb2 Hb3 Hb4 Hn v. unfold ILMetaUncompressInt. read_step. cbn.
  rewrite land_1F, combine4_digits, land_1 by width_lia.
  replace (b mod 32 * 0x1000000 + b2 * 0x10000 + b3 * 0x100 + b4) with v
    by (subst v; width_lia).
  assert (0 <= v < 0x20000000) by (subst v; width_lia).
  case_cmp; autorewrite with bits.
  - repeat f_equal; width_lia.
  - rewrite (lor_tag _ 28) by width_lia. repeat f_equal; width_lia.
Qed.

Lemma uncompress_int_form5 b b1 b2 b3 b4 rest n :
  224 <= b < 256 -> is_byte b1 -> is_byte b2 -> is_byte b3 -> is_byte b4 ->
  0 <= n < IL_MAX_UINT32 - 4 ->
  ILMetaUncompressInt (mk_read (b :: b1 :: b2 :: b3 :: b4 :: rest) (n + 5) false) =
    Some (i32 (b1 * 0x1000000 + b2 * 0x10000 + b3 * 0x100 + b4), mk_read rest n false).
Proof.
  intros. unfold ILMetaUncompressInt. read_step. cbn.
  rewrite combine4_digits by width_lia. repeat f_equal; width_lia.
Qed.

(** The bytes the signed writer stores, as digits of [2 * d + sign]. *)
Lemma compress_int_digits d :
  IL_MIN_INT32 <= d <= IL_MAX_INT32 ->
  let e := 2 * d + b2z (d <? 0) in
  ILMetaCompressInt d =
    if (-0x40 <=? d) && (d <? 0x40) then [e mod 0x80]
    else if (-0x2000 <=? d) && (d <? 0x2000) then
      [128 + (e / 0x100) mod 0x40; e mod 0x100]
    else if (-0x20000000 <=? d) && (d <? 0x10000000) then
      [192 + (e / 0x1000000) mod 0x20; (e / 0x10000) mod 0x100; (e / 0x100) mod 0x100;
       e mod 0x100]
    else
      [224 + b2z (d <? 0); (e / 0x1000000) mod 0x100; (e / 0x10000) mod 0x100;
       (e / 0x100) mod 0x100; e mod 0x100].
Proof.
  intros Hd e. unfold ILMetaCompressInt. autorewrite with bits.
  change (1 * 2 ^ 13) with 0x2000. change (1 * 2 ^ 28) with 0x10000000.
  change (1 * 2 ^ 29) with 0x20000000. change (2 ^ 1) with 2.
  assert (Hodd : forall z, Z.lor (z * 2) 0x1 = z * 2 + 1)
    by (intros z; apply (lor_add _ _ 1); width_lia).
  assert (H7E : forall z, 0 <= z < 256 -> Z.lor (Z.land z 0x7E) 1 =
                          z mod 128 - z mod 2 + 1).
  { intros z Hz. apply Z.eqb_eq. revert z Hz. apply byte_enum. vm_compute. done. }
  rewrite ?Hodd, ?H7E by width_lia.
  subst e. unfold b2z. destruct (Z.leb_spec 0 d), (Z.ltb_spec d 0); try lia.
  all: repeat (case_cmp; try lia); cbn [andb].
  all: rewrite ?(lor_tag _ 6), ?(lor_tag _ 5) by width_lia.
  all: repeat f_equal; width_lia.
Qed.

(** What the signed reader makes of the signed writer's output, for every
    32-bit integer. *)
Lemma uncompress_int_compress d rest n :
  IL_MIN_INT32 <= d <= IL_MAX_INT32 -> 0 <= n <= IL_MAX_UINT32 - 5 ->
  ILMetaUncompressInt
    (mk_read (ILMetaCompressInt d ++ rest)
             (n + Z.of_nat (length (ILMetaCompressInt d))) false) =
  Some (if (-0x10000000 <=? d) && (d <? 0x10000000) then d
        else if (-0x20000000 <=? d) && (d <? 0) then d + 0x10000000
        else i32 (2 * d + b2z (d <? 0)),
        mk_read rest n false).
Proof.
  intros Hd Hn. rewrite compress_int_digits by done. cbv zeta.
  set (e := 2 * d + b2z (d <? 0)).
  assert (He : (0 <= d /\ e = 2 * d) \/ (d < 0 /\ e = 2 * d + 1))
    by (subst e; unfold b2z; case_cmp; lia).
  assert (Hs : b2z (d <? 0) = 0 \/ b2z (d <? 0) = 1) by (unfold b2z; case_cmp; lia).
  clearbody e. generalize dependent (b2z (d <? 0)). intros s Hs.
  destruct ((-0x40 <=? d) && (d <? 0x40)) eqn:E1;
    [|destruct ((-0x2000 <=? d) && (d <? 0x2000)) eqn:E2;
      [|destruct ((-0x20000000 <=? d) && (d <? 0x10000000)) eqn:E3]];
    cbn [length app]; simpl (Z.of_nat _).
  - rewrite uncompress_int_form1 by width_lia. bool_to_prop.
    repeat f_equal. repeat case_cmp; cbn [andb]; width_lia.
  - rewrite uncompress_int_form2 by width_lia. cbv zeta. bool_to_prop.
    repeat f_equal. repeat case_cmp; cbn [andb]; width_lia.
  - rewrite uncompress_int_form4 by width_lia. cbv zeta. bool_to_prop.
    repeat f_equal. repeat case_cmp; cbn [andb]; width_lia.
  - rewrite uncompress_int_form5 by width_lia. bool_to_prop.
    repeat f_equal. repeat case_cmp; cbn [andb]; try width_lia.
Qed.

(** ** Reads stay inside the block *)

Lemma read_ok_cons b rest n e :
  read_ok (mk_read (b :: rest) n e) -> 0 < n -> read_ok (mk_read rest (u32 (n - 1)) e).
Proof.
  unfold read_ok. cbn. intros (Hn & Hl & Hf) Hp. inversion Hf; subst.
  repeat split; try done; width_lia.
Qed.

Lemma next_byte_ok m :
  read_ok m -> 0 < len m ->
  exists b m', next_byte m = Some (b, m') /\ is_byte b /\ read_ok m' /\
    len m' = len m - 1 /\ error m' = error m.
Proof.
  destruct m as [[|b bs] n e]; cbn; intros H Hp.
  - destruct H as (? & H & _). cbn in H. lia.
  - exists b, (mk_read bs (u32 (n - 1)) e). split; [done|].
    pose proof (read_ok_cons _ _ _ _ H Hp). destruct H as (? & ? & Hf). cbn in *.
    inversion Hf; subst. split_and!; try done; width_lia.
Qed.

Lemma next_bytes3_ok m :
  read_ok m -> 3 <= len m ->
  exists b2 b3 b4 m', next_bytes3 m = Some (b2, b3, b4, m') /\ read_ok m' /\
    is_byte b2 /\ is_byte b3 /\ is_byte b4.
Proof.
  destruct m as [[|b2 [|b3 [|b4 bs]]] n e]; cbn; intros (Hn & Hl & Hf) Hp;
    cbn in *; try lia.
  exists b2, b3, b4, (mk_read bs (u32 (n - 3)) e). split; [done|].
  repeat match goal with H : Forall _ (_ :: _) |- _ => inversion H; clear H; subst end.
  split_and!; try done; split_and!; cbn; try done; width_lia.
Qed.

Lemma next_bytes4_ok m :
  read_ok m -> 4 <= len m ->
  exists b1 b2 b3 b4 m', next_bytes4 m = Some (b1, b2, b3, b4, m') /\ read_ok m' /\
    is_byte b1 /\ is_byte b2 /\ is_byte b3 /\ is_byte b4.
Proof.
  destruct m as [[|b1 [|b2 [|b3 [|b4 bs]]]] n e]; cbn; intros (Hn & Hl & Hf) Hp;
    cbn in *; try lia.
  exists b1, b2, b3, b4, (mk_read bs (u32 (n - 4)) e). split; [done|].
  repeat match goal with H : Forall _ (_ :: _) |- _ => inversion H; clear H; subst end.
  split_and!; try done; split_and!; cbn; try done; width_lia.
Qed.

Lemma read_ok_set_error m : read_ok m -> read_ok (set_error m).
Proof. done. Qed.

Lemma read_ok_set_len0_error m : read_ok m -> read_ok (set_len0_error m).
Proof. unfold read_ok. cbn. intuition (unfold IL_MAX_UINT32 in *; lia). Qed.

Create HintDb read.
#[export] Hint Resolve read_ok_set_error read_ok_set_len0_error : read.

(** Walk through a reader on a well-formed block. *)
Ltac read_walk :=
  repeat match goal with
  | H : read_ok ?m |- context [next_byte ?m] =>
      let b := fresh "b" in let m' := fresh "m" in let E := fresh "E" in
      destruct (next_byte_ok m H) as (b & m' & E & ? & ? & ? & ?);
        [lia | rewrite E; cbn [mbind option_bind]]
  | H : read_ok ?m |- context [next_bytes3 ?m] =>
      let E := fresh "E" in
      destruct (next_bytes3_ok m H) as (? & ? & ? & ? & E & ? & ? & ? & ?);
        [lia | rewrite E; cbn [mbind option_bind]]
  | H : read_ok ?m |- context [next_bytes4 ?m] =>
      let E := fresh "E" in
      destruct (next_bytes4_ok m H) as (? & ? & ? & ? & ? & E & ? & ? & ? & ? & ?);
        [lia | rewrite E; cbn [mbind option_bind]]
  | |- context [if ?c then _ else _] => destruct c eqn:?; bool_to_prop
  end.

Lemma uncompress_data_total m :
  read_ok m -> exists v m', ILMetaUncompressData m = Some (v, m') /\ read_ok m' /\
    0 <= v <= IL_MAX_UINT32.
Proof.
  intros H. unfold ILMetaUncompressData. read_walk.
  all: eexists _, _; split; [reflexivity|]; split; [eauto with read|].
  all: unfold combine4; try apply u32_range; width_lia.
Qed.

Lemma uncompress_int_total m :
  read_ok m -> exists v m', ILMetaUncompressInt m = Some (v, m') /\ read_ok m' /\
    IL_MIN_INT32 <= v <= IL_MAX_INT32.
Proof.
  intros H. unfold ILMetaUncompressInt. read_walk.
  all: eexists _, _; split; [reflexivity|]; split; [eauto with read|].
  all: autorewrite with bits; try apply i32_range; width_lia.
Qed.

Lemma uncompress_token_total m :
  read_ok m -> exists v m', ILMetaUncompressToken m = Some (v, m') /\ read_ok m'.
Proof.
  intros H. unfold ILMetaUncompressToken.
  destruct (uncompress_data_total m H) as (v & m' & -> & Hm & _). cbn.
  repeat (case_match; eauto).
Qed.

(** ** Tokens *)

(** The token classes the compressed form supports. *)
Definition compressible (cls : Z) : Prop :=
  cls = IL_META_TOKEN_TYPE_DEF \/ cls = IL_META_TOKEN_TYPE_REF \/
  cls = IL_META_TOKEN_TYPE_SPEC \/ cls = IL_META_TOKEN_BASE_TYPE.

Ltac token_lia :=
  unfold IL_META_TOKEN_TYPE_DEF, IL_META_TOKEN_TYPE_REF, IL_META_TOKEN_TYPE_SPEC,
    IL_META_TOKEN_BASE_TYPE in *; width_lia.

Lemma token_id cls id :
  compressible cls -> 0 <= id < 0x1000000 ->
  Z.land (cls + id) (u32 (Z.lnot IL_META_TOKEN_MASK)) = id.
Proof.
  intros Hc Hid. change (u32 (Z.lnot IL_META_TOKEN_MASK)) with (2 ^ 24 - 1).
  rewrite land_low by lia. destruct Hc as [->|[->|[->| ->]]]; token_lia.
Qed.

Lemma token_class cls id :
  compressible cls -> 0 <= id < 0x1000000 -> Z.land (cls + id) IL_META_TOKEN_MASK = cls.
Proof.
  intros Hc Hid. rewrite <-(lor_tag id 24 cls) by (destruct Hc as [->|[->|[->| ->]]]; token_lia).
  rewrite Z.land_lor_distr_l.
  assert (Z.land id IL_META_TOKEN_MASK = 0) as ->.
  { rewrite <-(Z.mod_small id (2 ^ 24)), <-Z.land_ones, <-Z.land_assoc by lia.
    apply Z.land_0_r. }
  destruct Hc as [->|[->|[->| ->]]]; reflexivity.
Qed.

Lemma uncompress_token_compress cls id rest n :
  compressible cls -> 0 <= id < 0x1000000 -> 0 <= n <= IL_MAX_UINT32 - 5 ->
  ILMetaUncompressToken
    (mk_read (ILMetaCompressToken (cls + id) ++ rest)
             (n + Z.of_nat (length (ILMetaCompressToken (cls + id)))) false) =
  Some (cls + id, mk_read rest n false).
Proof.
  intros Hc Hid Hn. unfold ILMetaCompressToken, ILMetaUncompressToken.
  rewrite token_id, token_class by done. cbv zeta.
  assert (Htag : forall t, t = 0 \/ t = 1 \/ t = 2 \/ t = 3 ->
            Z.lor (u32 (Z.shiftl id 2)) t = 4 * id + t).
  { intros t Ht. rewrite (lor_add _ _ 2); autorewrite with bits; token_lia. }
  destruct Hc as [->|[->|[->| ->]]]; cbn [Z.eqb Pos.eqb IL_META_TOKEN_TYPE_DEF
    IL_META_TOKEN_TYPE_REF IL_META_TOKEN_TYPE_SPEC IL_META_TOKEN_BASE_TYPE].
  all: rewrite Htag by lia; rewrite uncompress_compress by token_lia;
    cbn [mbind option_bind error]; autorewrite with bits.
  all: repeat cond_tac ltac:(token_lia).
  all: rewrite (lor_tag _ 24) by token_lia; repeat f_equal; token_lia.
Qed.

(** ** Properties *)

(** Every 32-bit unsigned value is read back from its compressed form, and
    exactly the bytes that form occupies are consumed. *)
Theorem ILMetaCompressData_roundtrip (d : Z) (rest : list Z) (n : Z)
    (Hd : 0 <= d <= IL_MAX_UINT32) (Hn : 0 <= n <= IL_MAX_UINT32 - 5) :
  ILMetaUncompressData
    (mk_read (ILMetaCompressData d ++ rest)
             (n + Z.of_nat (length (ILMetaCompressData d))) false) =
  Some (d, mk_read rest n false).
Proof. by apply uncompress_compress. Qed.

Lemma ILMetaCompressData_roundtrip_witness :
  ILMetaUncompressData (mk_read [0xC0; 0x00; 0x40; 0x00; 0x07] (1 + 4) false) =
  Some (0x4000, mk_read [0x07] 1 false).
Proof.
  apply (ILMetaCompressData_roundtrip 0x4000 [0x07] 1); vm_compute; split; discriminate.
Defined.

(** A token of a compressible class (TypeDef, TypeRef, TypeSpec, BaseType) is
    read back from its compressed form, whatever its 24-bit index. *)
Theorem ILMetaCompressToken_roundtrip (cls id : Z) (rest : list Z) (n : Z)
    (Hcls : compressible cls) (Hid : 0 <= id < 0x1000000)
    (Hn : 0 <= n <= IL_MAX_UINT32 - 5) :
  ILMetaUncompressToken
    (mk_read (ILMetaCompressToken (cls + id) ++ rest)
             (n + Z.of_nat (length (ILMetaCompressToken (cls + id)))) false) =
  Some (cls + id, mk_read rest n false).
Proof. by apply uncompress_token_compress. Qed.

Lemma ILMetaCompressToken_roundtrip_witness :
  ILMetaUncompressToken (mk_read [0x49] 1 false) = Some (0x01000012, mk_read [] 0 false).
Proof.
  apply (ILMetaCompressToken_roundtrip IL_META_TOKEN_TYPE_REF 0x12 [] 0).
  - right; left; reflexivity.
  - vm_compute; split; [discriminate | reflexivity].
  - vm_compute; split; discriminate.
Defined.

(** C38: The signed reader always accepts what the signed writer stores, and
    returns the value that was written exactly when it lies in
    [-2^28, 2^28): the 4-byte branch for negative values and both 5-byte
    branches store something else. *)
Theorem ILMetaCompressInt_roundtrip_iff (d : Z) (rest : list Z) (n : Z)
    (Hd : IL_MIN_INT32 <= d <= IL_MAX_INT32) (Hn : 0 <= n <= IL_MAX_UINT32 - 5) :
  exists r,
    ILMetaUncompressInt
      (mk_read (ILMetaCompressInt d ++ rest)
               (n + Z.of_nat (length (ILMetaCompressInt d))) false) =
      Some (r, mk_read rest n false) /\
    (r = d <-> -0x10000000 <= d < 0x10000000).
Proof.
  eexists. split; [by apply uncompress_int_compress|].
  unfold b2z. repeat case_cmp; cbn [andb]; width_lia.
Qed.

Lemma ILMetaCompressInt_roundtrip_iff_witness :
  exists r,
    ILMetaUncompressInt (mk_read (ILMetaCompressInt (-0x10000001)) 4 false) =
      Some (r, mk_read [] 0 false) /\
    (r = -0x10000001 <-> -0x10000000 <= -0x10000001 < 0x10000000).
Proof.
  apply (ILMetaCompressInt_roundtrip_iff (-0x10000001) [] 0); vm_compute; split; discriminate.
Defined.

(** On a block whose [len] is backed by that many bytes, none of the three
    readers reads past the data, and each leaves a block of the same kind, so
    readers can be chained. *)
Theorem ILMetaUncompress_no_overread (m : ILMetaDataRead) (Hm : read_ok m) :
  (exists v m', ILMetaUncompressData m = Some (v, m') /\ read_ok m') /\
  (exists v m', ILMetaUncompressToken m = Some (v, m') /\ read_ok m') /\
  (exists v m', ILMetaUncompressInt m = Some (v, m') /\ read_ok m').
Proof.
  split_and!.
  - destruct (uncompress_data_total m Hm) as (v & m' & ? & ? & _). eauto.
  - by apply uncompress_token_total.
  - destruct (uncompress_int_total m Hm) as (v & m' & ? & ? & _). eauto.
Qed.

Lemma ILMetaUncompress_no_overread_witness :
  exists v m', ILMetaUncompressData (mk_read [0xC1; 0x02] 2 false) = Some (v, m') /\ read_ok m'.
Proof.
  assert (Hm : read_ok (mk_read [0xC1; 0x02] 2 false)).
  { unfold read_ok, is_byte, IL_MAX_UINT32; cbn; split_and!; try lia.
    repeat (apply Forall_cons_2; [lia|]); apply Forall_nil_2. }
  exact (proj1 (ILMetaUncompress_no_overread _ Hm)).
Defined.
