(* ===== verification/MulLong.v ===== *)
(** * 64-bit multiplication with overflow detection (support/mul_long.c)

    The C functions return zero on overflow and otherwise store the product;
    here [None] is the zero return and [Some p] the stored product. *)
From Stdlib Require Import ZArith Lia.
From stdpp Require Import base option numbers.
From S2P Require Import Prelude.

Local Open Scope Z_scope.

(** The carry word of [result += x] on 32-bit words: [1] when it wrapped. *)
Definition wrapped (result orig : Z) : bool := result <? orig.

Definition ILUInt64MulOvf (value1 value2 : Z) : option Z :=
  let high1 := u32 (Z.shiftr value1 32) in
  let low1 := u32 value1 in
  let high2 := u32 (Z.shiftr value2 32) in
  let low2 := u32 value2 in
  let temp := u64 (low1 * low2) in
  let result1 := u32 temp in
  let result2 := u32 (Z.shiftr temp 32) in
  let temp := u64 (low1 * high2) in
  let orig := result2 in
  let result2 := u32 (result2 + u32 temp) in
  let result3 := if wrapped result2 orig then u32 (u32 (Z.shiftr temp 32) + 1)
                 else u32 (Z.shiftr temp 32) in
  let temp := u64 (high1 * low2) in
  let orig := result2 in
  let result2 := u32 (result2 + u32 temp) in
  let carry := wrapped result2 orig in
  let orig := result3 in
  let result3 := if carry then u32 (result3 + u32 (u32 (Z.shiftr temp 32) + 1))
                 else u32 (result3 + u32 (Z.shiftr temp 32)) in
  let result4 := if wrapped result3 orig then 1 else 0 in
  let temp := u64 (high1 * high2) in
  let orig := result3 in
  let result3 := u32 (result3 + u32 temp) in
  let result4 := if wrapped result3 orig
                 then u32 (result4 + u32 (u32 (Z.shiftr temp 32) + 1))
                 else u32 (result4 + u32 (Z.shiftr temp 32)) in
  if negb (result3 =? 0) || negb (result4 =? 0) then None
  else Some (Z.lor (u64 (Z.shiftl result2 32)) result1).

Definition ILInt64MulOvf (value1 value2 : Z) : option Z :=
  if (0 <=? value1) && (0 <=? value2) then
    temp ← ILUInt64MulOvf (u64 value1) (u64 value2);
    if u64 IL_MAX_INT64 <? temp then None else Some (i64 temp)
  else if 0 <=? value1 then
    temp ← ILUInt64MulOvf (u64 value1) (u64 (i64 (- value2)));
    if u64 (u64 IL_MAX_INT64 + 1) <? temp then None else Some (i64 (- i64 temp))
  else if 0 <=? value2 then
    temp ← ILUInt64MulOvf (u64 (i64 (- value1))) (u64 value2);
    if u64 (u64 IL_MAX_INT64 + 1) <? temp then None else Some (i64 (- i64 temp))
  else
    temp ← ILUInt64MulOvf (u64 (i64 (- value1))) (u64 (i64 (- value2)));
    if u64 IL_MAX_INT64 <? temp then None else Some (i64 temp).

(** ** The schoolbook product *)

(** One column: adding a 64-bit partial product [p] to word [w] yields the low
    word and, in [hi], the carry word. *)
Lemma column w p :
  0 <= w < 0x100000000 -> 0 <= p <= 0xFFFFFFFE00000001 ->
  let w' := u32 (w + u32 p) in
  let hi := if wrapped w' w then u32 (u32 (p / 0x100000000) + 1)
            else u32 (p / 0x100000000) in
  0 <= w' < 0x100000000 /\ 0 <= hi < 0x100000000 /\ w' + 0x100000000 * hi = w + p.
Proof.
  intros Hw Hp. cbv zeta. unfold wrapped. case_cmp; width_lia.
Qed.

Lemma partial_bound a b :
  0 <= a < 0x100000000 -> 0 <= b < 0x100000000 -> 0 <= a * b <= 0xFFFFFFFE00000001.
Proof. nia. Qed.

(** A plain 32-bit addition with its carry. *)
Lemma add_word w x :
  0 <= w < 0x100000000 -> 0 <= x < 0x100000000 ->
  let w' := u32 (w + x) in
  0 <= w' < 0x100000000 /\
  w' + 0x100000000 * (if wrapped w' w then 1 else 0) = w + x.
Proof. intros Hw Hx. cbv zeta. unfold wrapped. case_cmp; width_lia. Qed.

Lemma if_arg {A B} (f : A -> B) (c : bool) x y :
  (if c then f x else f y) = f (if c then x else y).
Proof. by destruct c. Qed.

(** Reading a 64-bit value as two 32-bit digits. *)
Lemma split64 v :
  0 <= v <= IL_MAX_UINT64 ->
  exists h l, u32 (v / 0x100000000) = h /\ u32 v = l /\ v = h * 0x100000000 + l /\
    0 <= h < 0x100000000 /\ 0 <= l < 0x100000000.
Proof. intros. eexists _, _. split_and!; [done|done|..]; width_lia. Qed.

Lemma mul_ovf_unsigned a b :
  0 <= a <= IL_MAX_UINT64 -> 0 <= b <= IL_MAX_UINT64 ->
  ILUInt64MulOvf a b = if a * b <=? IL_MAX_UINT64 then Some (a * b) else None.
Proof.
  intros Ha Hb. unfold ILUInt64MulOvf. autorewrite with bits.
  change (2 ^ 32) with 0x100000000.
  destruct (split64 a Ha) as (h1 & l1 & -> & -> & Ea & Hh1 & Hl1).
  destruct (split64 b Hb) as (h2 & l2 & -> & -> & Eb & Hh2 & Hl2).
  pose proof (partial_bound l1 l2 Hl1 Hl2) as B1.
  pose proof (partial_bound l1 h2 Hl1 Hh2) as B2.
  pose proof (partial_bound h1 l2 Hh1 Hl2) as B3.
  pose proof (partial_bound h1 h2 Hh1 Hh2) as B4.
  assert (Eab : a * b = h1 * h2 * 0x10000000000000000 +
                        (h1 * l2 + l1 * h2) * 0x100000000 + l1 * l2) by (subst; ring).
  rewrite !(u64_id (_ * _)) by (unfold IL_MAX_UINT64; lia).
  rewrite Eab. clear Eab Ea Eb Ha Hb.
  generalize dependent (h1 * h2). intros p4. generalize dependent (h1 * l2). intros p3.
  generalize dependent (l1 * h2). intros p2. generalize dependent (l1 * l2). intros p1.
  intros. cbv zeta. clear dependent h1 h2 l1 l2.
  set (w1 := u32 (p1 / 0x100000000)).
  assert (Hw1 : 0 <= w1 < 0x100000000 /\ u32 p1 + 0x100000000 * w1 = p1 /\
                0 <= u32 p1 < 0x100000000) by (subst w1; width_lia).
  destruct Hw1 as (Hw1 & E1 & Hlo). clearbody w1.
  destruct (column w1 p2 Hw1 B2) as (Hw2 & Hr3 & E2).
  set (w2 := u32 (w1 + u32 p2)) in *. set (r3 := if wrapped w2 w1 then _ else _) in *.
  clearbody w2 r3.
  rewrite (if_arg (fun x => u32 (r3 + x)) (wrapped (u32 (w2 + u32 p3)) w2)).
  destruct (column w2 p3 Hw2 B3) as (Hw3 & Hh3 & E3).
  set (w3 := u32 (w2 + u32 p3)) in *. set (h3 := if wrapped w3 w2 then _ else _) in *.
  clearbody w3 h3.
  destruct (add_word r3 h3 Hr3 Hh3) as (Hr3' & E4).
  set (r3' := u32 (r3 + h3)) in *. set (c := if wrapped r3' r3 then 1 else 0) in *.
  assert (Hc : 0 <= c <= 1) by (subst c; case_match; lia). clearbody r3' c.
  rewrite (if_arg (fun x => u32 (c + x)) (wrapped (u32 (r3' + u32 p4)) r3')).
  destruct (column r3' p4 Hr3' B4) as (Hr3'' & Hh4 & E5).
  set (r3'' := u32 (r3' + u32 p4)) in *. set (h4 := if wrapped r3'' r3' then _ else _) in *.
  clearbody r3'' h4.
  rewrite (u32_id (c + h4)) by (unfold IL_MAX_UINT32; lia).
  rewrite u64_id by (unfold IL_MAX_UINT64; lia). rewrite (lor_add _ _ 32) by width_lia.
  repeat case_cmp; cbn [negb orb]; try done; unfold IL_MAX_UINT64 in *; try lia.
  f_equal. lia.
Qed.

Lemma mul_ovf_signed a b :
  IL_MIN_INT64 <= a <= IL_MAX_INT64 -> IL_MIN_INT64 <= b <= IL_MAX_INT64 ->
  ILInt64MulOvf a b =
    if (IL_MIN_INT64 <=? a * b) && (a * b <=? IL_MAX_INT64) then Some (a * b) else None.
Proof.
  intros Ha Hb. unfold ILInt64MulOvf.
  assert (Habs : forall x, IL_MIN_INT64 <= x < 0 -> u64 (i64 (- x)) = - x) by width_lia.
  assert (Hpos : forall x, 0 <= x <= IL_MAX_INT64 -> u64 x = x) by width_lia.
  change (u64 IL_MAX_INT64) with IL_MAX_INT64.
  change (u64 (IL_MAX_INT64 + 1)) with (- IL_MIN_INT64).
  destruct (Z.leb_spec 0 a), (Z.leb_spec 0 b); cbn [andb];
    rewrite ?Habs, ?Hpos, mul_ovf_unsigned by (unfold_widths; lia).
  - clear Habs Hpos. assert (0 <= a * b) by nia. generalize dependent (a * b). intros p ?.
    repeat (case_cmp; cbn [andb mbind option_bind]; try (unfold_widths; lia); try done).
    rewrite i64_id; unfold_widths; done || lia.
  - rewrite Z.mul_opp_r. assert (a * b <= 0) by nia. generalize dependent (a * b). intros p ?.
    repeat (case_cmp; cbn [andb mbind option_bind]; try (unfold_widths; lia); try done).
    f_equal. clear Habs Hpos. width_lia.
  - rewrite Z.mul_opp_l. assert (a * b <= 0) by nia. generalize dependent (a * b). intros p ?.
    repeat (case_cmp; cbn [andb mbind option_bind]; try (unfold_widths; lia); try done).
    f_equal. clear Habs Hpos. width_lia.
  - rewrite Z.mul_opp_opp. assert (0 <= a * b) by nia. generalize dependent (a * b). intros p ?.
    repeat (case_cmp; cbn [andb mbind option_bind]; try (unfold_widths; lia); try done).
    rewrite i64_id; unfold_widths; done || lia.
Qed.

(** ** Properties *)

(** C36: the 64-bit multiplications detect overflow exactly when the mathematical
    product leaves the range of the type, and otherwise store that product:
    the four partial products and their carries lose nothing. *)
Theorem ILInt64MulOvf_exact (a b : Z) :
  (0 <= a <= IL_MAX_UINT64 -> 0 <= b <= IL_MAX_UINT64 ->
   ILUInt64MulOvf a b = if a * b <=? IL_MAX_UINT64 then Some (a * b) else None) /\
  (IL_MIN_INT64 <= a <= IL_MAX_INT64 -> IL_MIN_INT64 <= b <= IL_MAX_INT64 ->
   ILInt64MulOvf a b =
     if (IL_MIN_INT64 <=? a * b) && (a * b <=? IL_MAX_INT64) then Some (a * b) else None).
Proof. split; [apply mul_ovf_unsigned | apply mul_ovf_signed]. Qed.

Lemma ILInt64MulOvf_exact_witness :
  ILUInt64MulOvf 0x100000001 0xFFFFFFFF = Some 0xFFFFFFFFFFFFFFFF /\
  ILInt64MulOvf IL_MIN_INT64 (-1) = None.
Proof.
  split.
  - apply (ILInt64MulOvf_exact 0x100000001 0xFFFFFFFF); vm_compute; split; discriminate.
  - apply (ILInt64MulOvf_exact IL_MIN_INT64 (-1)); vm_compute; split; discriminate.
Defined.
