(* ===== verification/Utf.v ===== *)
(** * UTF-8 and UTF-16 characters (support/utf8.c, support/utf16.c)

    Readers take the buffer, its length and the position held in [*posn], and
    return the character with the new position; [None] is a read outside the
    buffer.  Characters are [unsigned long] values.  A plain [char] is modelled
    by its byte: the mask tests and the conversions of utf8.c give the same
    result whether [char] is signed or not.  Writers take [buf <> NULL] as a
    boolean and return the units stored with the count the C code returns. *)
From Stdlib Require Import ZArith Lia.
From stdpp Require Import base list option numbers.
From S2P Require Import Prelude.

Local Open Scope Z_scope.

(** [str[i]]. *)
Definition at_ (str : list Z) (i : Z) : option Z :=
  if 0 <=? i then str !! Z.to_nat i else None.

(** ** UTF-8 *)

Definition ILUTF8ReadChar (str : list Z) (len posn : Z) : option (Z * Z) :=
  ch ← at_ str posn;
  if Z.land ch 0x80 =? 0 then
    Some (ch, posn + 1)
  else if (Z.land ch 0xE0 =? 0xC0) && (posn + 2 <=? len) then
    c1 ← at_ str (posn + 1);
    Some (Z.lor (Z.shiftl (Z.land ch 0x1F) 6) (Z.land c1 0x3F), posn + 2)
  else if (Z.land ch 0xF0 =? 0xE0) && (posn + 3 <=? len) then
    c1 ← at_ str (posn + 1);
    c2 ← at_ str (posn + 2);
    Some (Z.lor (Z.lor (Z.shiftl (Z.land ch 0x0F) 12)
                       (Z.shiftl (Z.land c1 0x3F) 6))
                (Z.land c2 0x3F), posn + 3)
  else if (Z.land ch 0xF8 =? 0xF0) && (posn + 4 <=? len) then
    c1 ← at_ str (posn + 1);
    c2 ← at_ str (posn + 2);
    c3 ← at_ str (posn + 3);
    Some (Z.lor (Z.lor (Z.lor (Z.shiftl (Z.land ch 0x07) 18)
                              (Z.shiftl (Z.land c1 0x3F) 12))
                       (Z.shiftl (Z.land c2 0x3F) 6))
                (Z.land c3 0x3F), posn + 4)
  else if (Z.land ch 0xFC =? 0xF8) && (posn + 5 <=? len) then
    c1 ← at_ str (posn + 1);
    c2 ← at_ str (posn + 2);
    c3 ← at_ str (posn + 3);
    c4 ← at_ str (posn + 4);
    Some (Z.lor (Z.lor (Z.lor (Z.lor (Z.shiftl (Z.land ch 0x03) 24)
                                     (Z.shiftl (Z.land c1 0x3F) 18))
                              (Z.shiftl (Z.land c2 0x3F) 12))
                       (Z.shiftl (Z.land c3 0x3F) 6))
                (Z.land c4 0x3F), posn + 5)
  else if (Z.land ch 0xFC =? 0xFC) && (posn + 6 <=? len) then
    c1 ← at_ str (posn + 1);
    c2 ← at_ str (posn + 2);
    c3 ← at_ str (posn + 3);
    c4 ← at_ str (posn + 4);
    c5 ← at_ str (posn + 5);
    Some (Z.lor (Z.lor (Z.lor (Z.lor (Z.lor (Z.shiftl (Z.land ch 0x03) 30)
                                            (Z.shiftl (Z.land c1 0x3F) 24))
                                     (Z.shiftl (Z.land c2 0x3F) 18))
                              (Z.shiftl (Z.land c3 0x3F) 12))
                       (Z.shiftl (Z.land c4 0x3F) 6))
                (Z.land c5 0x3F), posn + 6)
  else
    Some (Z.land ch 0xFF, posn + 1).

Definition ILUTF8WriteChar (str : bool) (ch : Z) : list Z * Z :=
  if str then
    if ch =? 0 then ([0xC0; 0x80], 2)
    else if ch <? 0x80 then ([u8 ch], 1)
    else if ch <? Z.shiftl 1 11 then
      ([u8 (Z.lor 0xC0 (Z.shiftr ch 6));
        u8 (Z.lor 0x80 (Z.land ch 0x3F))], 2)
    else if ch <? Z.shiftl 1 16 then
      ([u8 (Z.lor 0xE0 (Z.shiftr ch 12));
        u8 (Z.lor 0x80 (Z.land (Z.shiftr ch 6) 0x3F));
        u8 (Z.lor 0x80 (Z.land ch 0x3F))], 3)
    else if ch <? Z.shiftl 1 21 then
      ([u8 (Z.lor 0xF0 (Z.shiftr ch 18));
        u8 (Z.lor 0x80 (Z.land (Z.shiftr ch 12) 0x3F));
        u8 (Z.lor 0x80 (Z.land (Z.shiftr ch 6) 0x3F));
        u8 (Z.lor 0x80 (Z.land ch 0x3F))], 4)
    else if ch <? Z.shiftl 1 26 then
      ([u8 (Z.lor 0xF8 (Z.shiftr ch 24));
        u8 (Z.lor 0x80 (Z.land (Z.shiftr ch 18) 0x3F));
        u8 (Z.lor 0x80 (Z.land (Z.shiftr ch 12) 0x3F));
        u8 (Z.lor 0x80 (Z.land (Z.shiftr ch 6) 0x3F));
        u8 (Z.lor 0x80 (Z.land ch 0x3F))], 5)
    else
      ([u8 (Z.lor 0xFC (Z.shiftr ch 30));
        u8 (Z.lor 0x80 (Z.land (Z.shiftr ch 24) 0x3F));
        u8 (Z.lor 0x80 (Z.land (Z.shiftr ch 18) 0x3F));
        u8 (Z.lor 0x80 (Z.land (Z.shiftr ch 12) 0x3F));
        u8 (Z.lor 0x80 (Z.land (Z.shiftr ch 6) 0x3F));
        u8 (Z.lor 0x80 (Z.land ch 0x3F))], 6)
  else
    ([], if ch =? 0 then 2
         else if ch <? 0x80 then 1
         else if ch <? Z.shiftl 1 11 then 2
         else if ch <? Z.shiftl 1 16 then 3
         else if ch <? Z.shiftl 1 21 then 4
         else if ch <? Z.shiftl 1 26 then 5
         else 6).

(** ** UTF-16, as 16-bit units and as little-endian bytes *)

Definition ILUTF16ReadChar (str : list Z) (len posn : Z) : option (Z * Z) :=
  ch ← at_ str posn;
  if (ch <? 0xD800) || (0xDBFF <? ch) then Some (ch, posn + 1)
  else if posn + 2 <=? len then
    low ← at_ str (posn + 1);
    if (0xDC00 <=? low) && (low <=? 0xDFFF) then
      Some (Z.shiftl (ch - 0xD800) 10 + Z.land low 0x03FF + 0x10000, posn + 2)
    else Some (ch, posn + 1)
  else Some (ch, posn + 1).

Definition ILUTF16ReadCharAsBytes (str : list Z) (len posn : Z) : option (Z * Z) :=
  if len <? posn + 2 then
    ch ← at_ str posn; Some (ch, posn + 1)
  else
    b0 ← at_ str posn;
    b1 ← at_ str (posn + 1);
    let ch := IL_READ_UINT16 b0 b1 in
    let posn := posn + 2 in
    if (ch <? 0xD800) || (0xDBFF <? ch) then Some (ch, posn)
    else if len <? posn + 2 then Some (ch, posn)
    else
      b2 ← at_ str posn;
      b3 ← at_ str (posn + 1);
      let low := IL_READ_UINT16 b2 b3 in
      if (low <? 0xDC00) || (0xDFFF <? low) then Some (ch, posn)
      else Some (Z.shiftl (ch - 0xD800) 10 + Z.land low 0x03FF + 0x10000, posn + 2).

Definition ILUTF16WriteChar (buf : bool) (ch : Z) : list Z * Z :=
  if buf then
    if ch <? 0x10000 then ([u16 ch], 1)
    else if ch <? 0x110000 then
      let ch := ch - 0x10000 in
      ([u16 (Z.shiftr ch 10 + 0xD800); u16 (Z.land ch 0x03FF + 0xDC00)], 2)
    else ([], 0)
  else
    ([], if ch <? 0x10000 then 1 else if ch <? 0x110000 then 2 else 0).

Definition ILUTF16WriteCharAsBytes (buf : bool) (ch : Z) : list Z * Z :=
  if buf then
    if ch <? 0x10000 then ([u8 ch; u8 (Z.shiftr ch 8)], 2)
    else if ch <? 0x110000 then
      let ch := ch - 0x10000 in
      let tempch := u32 (Z.shiftr ch 10 + 0xD800) in
      let tempch' := u32 (Z.land ch 0x03FF + 0xDC00) in
      ([u8 tempch; u8 (Z.shiftr tempch 8); u8 tempch'; u8 (Z.shiftr tempch' 8)], 4)
    else ([], 0)
  else
    ([], if ch <? 0x10000 then 2 else if ch <? 0x110000 then 4 else 0).

(** The little-endian bytes of a buffer of 16-bit units. *)
Definition unit_bytes (us : list Z) : list Z :=
  us ≫= λ u, [u mod 0x100; u / 0x100].

(** ** Lemmas *)

Lemma at_lookup str i k :
  0 <= i -> 0 <= k -> at_ str (i + k) = drop (Z.to_nat i) str !! Z.to_nat k.
Proof.
  intros. unfold at_. rewrite (proj2 (Z.leb_le 0 (i + k))) by lia.
  rewrite lookup_drop. f_equal. lia.
Qed.

Lemma at_lookup0 str i : 0 <= i -> at_ str i = drop (Z.to_nat i) str !! 0%nat.
Proof. intros. rewrite <-(Z.add_0_r i) at 1. by rewrite at_lookup by lia. Qed.

Lemma at_is_Some str i : 0 <= i < Z.of_nat (length str) -> is_Some (at_ str i).
Proof.
  intros. unfold at_. rewrite (proj2 (Z.leb_le 0 i)) by lia. apply lookup_lt_is_Some. lia.
Qed.

(** The continuation bytes and the tagged leading byte the writer stores. *)
Lemma continuation z : u8 (Z.lor 0x80 (Z.land z 0x3F)) = 0x80 + z mod 64.
Proof. rewrite land_3F, (lor_add _ _ 6); width_lia. Qed.

Lemma continuation_payload z : Z.land (0x80 + z mod 64) 0x3F = z mod 64.
Proof. rewrite land_3F. width_lia. Qed.

Lemma at_app pre bs k :
  0 <= k -> at_ (pre ++ bs) (Z.of_nat (length pre) + k) = bs !! Z.to_nat k.
Proof.
  intros. rewrite at_lookup by lia. by rewrite Nat2Z.id, drop_app_length.
Qed.

Lemma at_app0 pre bs : at_ (pre ++ bs) (Z.of_nat (length pre)) = bs !! 0%nat.
Proof. rewrite <-(Z.add_0_r (Z.of_nat _)). by rewrite at_app. Qed.

(** Join the 6-bit groups of a multi-byte form, the highest first. *)
Ltac join_groups :=
  autorewrite with bits;
  try rewrite (lor_add _ (_ * 2 ^ 24) 30) by width_lia;
  try rewrite (lor_add _ (_ * 2 ^ 18) 24) by width_lia;
  try rewrite (lor_add _ (_ * 2 ^ 12) 18) by width_lia;
  try rewrite (lor_add _ (_ * 2 ^ 6) 12) by width_lia;
  try rewrite (lor_add _ (_ mod 64) 6) by width_lia.

(** Decide a test of the reader on a leading byte known by its range. *)
Ltac lead_step :=
  match goal with
  | |- context [(Z.land ?b ?m =? ?t) && (?x <=? ?l)] =>
      first [ rewrite (proj2 (Z.eqb_eq (Z.land b m) t))
                by (rewrite ?land_E0, ?land_F0, ?land_F8, ?land_FC by width_lia; width_lia);
              rewrite (proj2 (Z.leb_le x l)) by width_lia
            | rewrite (proj2 (Z.eqb_neq (Z.land b m) t))
                by (rewrite ?land_E0, ?land_F0, ?land_F8, ?land_FC by width_lia; width_lia) ];
      cbn [andb]
  | |- context [Z.land ?b 0x80 =? 0] =>
      first [ rewrite (proj2 (Z.eqb_eq (Z.land b 0x80) 0)) by (rewrite land_80; width_lia)
            | rewrite (proj2 (Z.eqb_neq (Z.land b 0x80) 0)) by (rewrite land_80; width_lia) ]
  end.

(** The writer, by the number of bytes of the form. *)
Lemma write_utf8 ch :
  0 <= ch <= IL_MAX_UINT32 ->
  fst (ILUTF8WriteChar true ch) =
    if ch =? 0 then [0xC0; 0x80]
    else if ch <? 0x80 then [ch]
    else if ch <? 0x800 then [0xC0 + ch / 2 ^ 6; 0x80 + ch mod 64]
    else if ch <? 0x10000 then
      [0xE0 + ch / 2 ^ 12; 0x80 + (ch / 2 ^ 6) mod 64; 0x80 + ch mod 64]
    else if ch <? 0x200000 then
      [0xF0 + ch / 2 ^ 18; 0x80 + (ch / 2 ^ 12) mod 64; 0x80 + (ch / 2 ^ 6) mod 64;
       0x80 + ch mod 64]
    else if ch <? 0x4000000 then
      [0xF8 + ch / 2 ^ 24; 0x80 + (ch / 2 ^ 18) mod 64; 0x80 + (ch / 2 ^ 12) mod 64;
       0x80 + (ch / 2 ^ 6) mod 64; 0x80 + ch mod 64]
    else
      [0xFC + ch / 2 ^ 30; 0x80 + (ch / 2 ^ 24) mod 64; 0x80 + (ch / 2 ^ 18) mod 64;
       0x80 + (ch / 2 ^ 12) mod 64; 0x80 + (ch / 2 ^ 6) mod 64; 0x80 + ch mod 64].
Proof.
  intros Hch. unfold ILUTF8WriteChar. rewrite !continuation, !shiftl_mul, !shiftr_div by lia.
  change (1 * 2 ^ 11) with 0x800. change (1 * 2 ^ 16) with 0x10000.
  change (1 * 2 ^ 21) with 0x200000. change (1 * 2 ^ 26) with 0x4000000.
  repeat case_cmp; cbn [fst]; repeat f_equal; try width_lia.
  all: first [ rewrite (lor_add _ _ 5) by width_lia | rewrite (lor_add _ _ 4) by width_lia
             | rewrite (lor_add _ _ 3) by width_lia | rewrite (lor_add _ _ 2) by width_lia ].
  all: width_lia.
Qed.

(** One multi-byte form read back from the bytes of [write_utf8]. *)
Ltac utf8_form :=
  repeat lead_step; rewrite !at_app by lia;
  change (Z.to_nat 1) with 1%nat; try change (Z.to_nat 2) with 2%nat;
  try change (Z.to_nat 3) with 3%nat; try change (Z.to_nat 4) with 4%nat;
  try change (Z.to_nat 5) with 5%nat; cbn [lookup list_lookup app mbind option_bind];
  rewrite !continuation_payload; join_groups; do 2 f_equal; cbn [length]; width_lia.

(** ** Properties *)

(** C39: A character of up to 32 bits written by [ILUTF8WriteChar] at any place
    of a buffer is read back by [ILUTF8ReadChar], which leaves the position
    just past the bytes written. *)
Theorem ILUTF8_roundtrip ch pre post len :
  0 <= ch <= IL_MAX_UINT32 ->
  let bs := fst (ILUTF8WriteChar true ch) in
  Z.of_nat (length pre) + Z.of_nat (length bs) <= len ->
  ILUTF8ReadChar (pre ++ bs ++ post) len (Z.of_nat (length pre)) =
    Some (ch, Z.of_nat (length pre) + Z.of_nat (length bs)).
Proof.
  intros Hch bs. subst bs. rewrite write_utf8 by done. set (p := Z.of_nat (length pre)).
  repeat case_cmp; intros Hlen; cbn [length] in Hlen; unfold ILUTF8ReadChar; subst p;
    rewrite at_app0; cbn [lookup list_lookup app mbind option_bind].
  - subst. repeat lead_step. rewrite !at_app by lia. done.
  - repeat lead_step. do 2 f_equal; cbn; lia.
  - utf8_form.
  - utf8_form.
  - utf8_form.
  - utf8_form.
  - utf8_form.
Qed.

Lemma ILUTF8_roundtrip_witness :
  ILUTF8ReadChar ([0x41] ++ [0xE2; 0x82; 0xAC] ++ [0x42]) 5 1 = Some (0x20AC, 4).
Proof. apply (ILUTF8_roundtrip 0x20AC [0x41] [0x42] 5); [split; vm_compute; discriminate|vm_compute; discriminate]. Defined.

(** Read the bytes of a form that the length test admits. *)
Ltac fetch_bytes :=
  repeat match goal with
  | |- context [at_ ?s ?i ≫= _] =>
      let c := fresh "c" in let E := fresh "E" in
      destruct (at_is_Some s i ltac:(lia)) as [c E]; rewrite E; cbn [mbind option_bind]
  end.

Lemma read_utf8_in_bounds str len posn :
  0 <= posn < len -> len <= Z.of_nat (length str) ->
  exists ch posn', ILUTF8ReadChar str len posn = Some (ch, posn') /\ posn < posn' <= len.
Proof.
  intros H Hl. unfold ILUTF8ReadChar. destruct (at_is_Some str posn ltac:(lia)) as [ch ->].
  cbn [mbind option_bind].
  destruct (Z.land ch 0x80 =? 0); [eexists _, _; split; [done|lia]|].
  repeat match goal with
  | |- context [if _ && (?a <=? ?b) then _ else _] =>
      destruct (Z.leb_spec a b); [|rewrite andb_false_r];
      [match goal with |- context [if ?c && true then _ else _] =>
         destruct c; cbn [andb]; [fetch_bytes; eexists _, _; split; [done|lia]|] end|]
  end.
  all: eexists _, _; split; [done|lia].
Qed.

(** C40: On a non-empty rest of a buffer, [ILUTF8ReadChar] never reads outside
    the buffer, whatever its bytes, and moves the position forward to a place
    inside the buffer: a loop over the string terminates at its end. *)
Theorem ILUTF8ReadChar_in_bounds str posn :
  0 <= posn < Z.of_nat (length str) ->
  exists ch posn',
    ILUTF8ReadChar str (Z.of_nat (length str)) posn = Some (ch, posn') /\
    posn < posn' <= Z.of_nat (length str).
Proof. intros H. by apply read_utf8_in_bounds. Qed.

Lemma ILUTF8ReadChar_in_bounds_witness :
  exists ch posn', ILUTF8ReadChar [0x41; 0xE2; 0x82] 3 1 = Some (ch, posn') /\ 1 < posn' <= 3.
Proof. apply (ILUTF8ReadChar_in_bounds [0x41; 0xE2; 0x82] 1). cbn; lia. Defined.

(** The size every character writer returns is the number of units it
    stores, and the call with a NULL buffer returns that same size. *)
Theorem UTF_writers_size ch :
  snd (ILUTF8WriteChar true ch) = Z.of_nat (length (fst (ILUTF8WriteChar true ch))) /\
  ILUTF8WriteChar false ch = ([], snd (ILUTF8WriteChar true ch)) /\
  snd (ILUTF16WriteChar true ch) = Z.of_nat (length (fst (ILUTF16WriteChar true ch))) /\
  ILUTF16WriteChar false ch = ([], snd (ILUTF16WriteChar true ch)) /\
  snd (ILUTF16WriteCharAsBytes true ch) =
    Z.of_nat (length (fst (ILUTF16WriteCharAsBytes true ch))) /\
  ILUTF16WriteCharAsBytes false ch = ([], snd (ILUTF16WriteCharAsBytes true ch)).
Proof.
  unfold ILUTF8WriteChar, ILUTF16WriteChar, ILUTF16WriteCharAsBytes.
  rewrite !shiftl_mul by lia.
  repeat match goal with |- context [if ?c then _ else _] => destruct c end; done.
Qed.

Lemma surrogate_pair ch :
  0x10000 <= ch < 0x110000 ->
  u16 (Z.shiftr (ch - 0x10000) 10 + 0xD800) = 0xD800 + (ch - 0x10000) / 1024 /\
  u16 (Z.land (ch - 0x10000) 0x03FF + 0xDC00) = 0xDC00 + (ch - 0x10000) mod 1024.
Proof.
  intros. rewrite land_3FF, shiftr_div by lia. change (2 ^ 10) with 1024. split; width_lia.
Qed.

(** A Unicode character that is not a lone high surrogate, written by
    [ILUTF16WriteChar], is read back by [ILUTF16ReadChar]. *)
Theorem ILUTF16_roundtrip ch pre post len :
  0 <= ch < 0x110000 -> ~ 0xD800 <= ch <= 0xDBFF ->
  let us := fst (ILUTF16WriteChar true ch) in
  Z.of_nat (length pre) + Z.of_nat (length us) <= len ->
  ILUTF16ReadChar (pre ++ us ++ post) len (Z.of_nat (length pre)) =
    Some (ch, Z.of_nat (length pre) + Z.of_nat (length us)).
Proof.
  intros Hch Hns us. subst us. unfold ILUTF16WriteChar.
  destruct (Z.ltb_spec ch 0x10000); [|rewrite (proj2 (Z.ltb_lt ch 0x110000)) by lia];
    intros Hlen; cbn [fst length] in *; unfold ILUTF16ReadChar; rewrite at_app0;
    cbn [lookup list_lookup app mbind option_bind].
  - rewrite u16_id by lia. destruct (Z.ltb_spec ch 0xD800); cbn [orb]; [done|].
    by rewrite (proj2 (Z.ltb_lt 0xDBFF ch)) by lia.
  - destruct (surrogate_pair ch ltac:(lia)) as [-> ->].
    rewrite (proj2 (Z.ltb_ge _ 0xD800)) by (Z.div_mod_to_equations; lia).
    rewrite (proj2 (Z.ltb_ge 0xDBFF _)) by (Z.div_mod_to_equations; lia).
    cbn [orb]. rewrite (proj2 (Z.leb_le _ len)) by lia.
    rewrite at_app by lia. change (Z.to_nat 1) with 1%nat.
    cbn [lookup list_lookup mbind option_bind].
    rewrite (proj2 (Z.leb_le 0xDC00 _)), (proj2 (Z.leb_le _ 0xDFFF))
      by (Z.div_mod_to_equations; lia).
    cbn [andb]. rewrite land_3FF, shiftl_mul by lia. change (2 ^ 10) with 1024.
    f_equal. apply (f_equal2 pair); [Z.div_mod_to_equations; lia|lia].
Qed.

Lemma ILUTF16_roundtrip_witness :
  ILUTF16ReadChar ([] ++ [0xD83D; 0xDE00] ++ [0x21]) 3 0 = Some (0x1F600, 2).
Proof. apply (ILUTF16_roundtrip 0x1F600 [] [0x21] 3); [lia|lia|vm_compute; discriminate]. Defined.

Lemma length_unit_bytes us : length (unit_bytes us) = (2 * length us)%nat.
Proof. induction us as [|u us IH]; [done|]. unfold unit_bytes in *. cbn. rewrite IH. lia. Qed.

Lemma unit_bytes_lookup us k u :
  us !! k = Some u ->
  unit_bytes us !! (2 * k)%nat = Some (u mod 0x100) /\
  unit_bytes us !! (2 * k + 1)%nat = Some (u / 0x100).
Proof.
  revert k. induction us as [|v us IH]; intros [|k] Hk; try done.
  - cbn in Hk. by simplify_eq.
  - replace (2 * S k)%nat with (S (S (2 * k))) by lia. exact (IH k Hk).
Qed.

Lemma unit_bytes_at us i u :
  0 <= i -> at_ us i = Some u ->
  at_ (unit_bytes us) (2 * i) = Some (u mod 0x100) /\
  at_ (unit_bytes us) (2 * i + 1) = Some (u / 0x100).
Proof.
  unfold at_. intros Hi. rewrite !(proj2 (Z.leb_le 0 _)) by lia.
  intros [H0 H1]%unit_bytes_lookup. rewrite <-H0, <-H1. split; f_equal; lia.
Qed.

Lemma read_unit u : 0 <= u < 0x10000 -> IL_READ_UINT16 (u mod 0x100) (u / 0x100) = u.
Proof.
  intros. unfold IL_READ_UINT16. rewrite !u8_id by (Z.div_mod_to_equations; lia).
  rewrite Z.lor_comm, lor_shiftl_add by (Z.div_mod_to_equations; lia).
  change (2 ^ 8) with 256. width_lia.
Qed.

Lemma at_Forall (P : Z -> Prop) us i u : Forall P us -> at_ us i = Some u -> P u.
Proof. unfold at_. case_match; [|done]. apply Forall_lookup_1. Qed.

(** On the little-endian bytes of a buffer of 16-bit units,
    [ILUTF16ReadCharAsBytes] reads the character that [ILUTF16ReadChar] reads
    from the units, at the byte position of the same unit. *)
Theorem ILUTF16ReadCharAsBytes_equiv us posn :
  Forall (λ u, 0 <= u < 0x10000) us -> 0 <= posn < Z.of_nat (length us) ->
  ILUTF16ReadCharAsBytes (unit_bytes us) (2 * Z.of_nat (length us)) (2 * posn) =
    (λ '(ch, p), (ch, 2 * p)) <$> ILUTF16ReadChar us (Z.of_nat (length us)) posn.
Proof.
  intros Hus Hp. unfold ILUTF16ReadCharAsBytes, ILUTF16ReadChar.
  rewrite (proj2 (Z.ltb_ge _ _)) by lia.
  destruct (at_is_Some us posn Hp) as [u Hu]. rewrite Hu.
  destruct (unit_bytes_at us posn u) as [-> ->]; [lia|done|].
  cbn [mbind option_bind]. rewrite read_unit by exact (at_Forall _ _ _ _ Hus Hu).
  replace (2 * posn + 2) with (2 * (posn + 1)) by lia.
  destruct ((u <? 0xD800) || (0xDBFF <? u)); [done|].
  destruct (Z.leb_spec (posn + 2) (Z.of_nat (length us))) as [Hl|Hl].
  2:{ by rewrite (proj2 (Z.ltb_lt _ _)) by lia. }
  rewrite (proj2 (Z.ltb_ge _ _)) by lia.
  destruct (at_is_Some us (posn + 1) ltac:(lia)) as [v Hv]. rewrite Hv.
  destruct (unit_bytes_at us (posn + 1) v) as [-> ->]; [lia|done|].
  cbn [mbind option_bind]. rewrite read_unit by exact (at_Forall _ _ _ _ Hus Hv).
  rewrite Z.ltb_antisym, (Z.ltb_antisym v 0xDFFF), <-negb_andb.
  destruct ((0xDC00 <=? v) && (v <=? 0xDFFF)); cbn [negb fmap option_fmap option_map];
    do 2 f_equal; lia.
Qed.

Lemma ILUTF16ReadCharAsBytes_equiv_witness :
  ILUTF16ReadCharAsBytes (unit_bytes [0x41; 0xD83D; 0xDE00]) 6 2 = Some (0x1F600, 6).
Proof.
  apply (ILUTF16ReadCharAsBytes_equiv [0x41; 0xD83D; 0xDE00] 1); [|cbn; lia].
  repeat (apply Forall_cons_2; [lia|]); apply Forall_nil_2.
Defined.

(** The byte writer of utf16.c stores the little-endian bytes of the
    units the unit writer stores. *)
Theorem ILUTF16WriteCharAsBytes_equiv buf ch :
  0 <= ch ->
  ILUTF16WriteCharAsBytes buf ch =
    (unit_bytes (fst (ILUTF16WriteChar buf ch)), 2 * snd (ILUTF16WriteChar buf ch)).
Proof.
  intros Hch. unfold ILUTF16WriteCharAsBytes, ILUTF16WriteChar.
  destruct buf; repeat case_cmp; try done; cbn [fst snd unit_bytes mbind list_bind app].
  - rewrite shiftr_div by lia. change (2 ^ 8) with 256. do 2 f_equal; [|f_equal]; width_lia.
  - destruct (surrogate_pair ch ltac:(lia)) as [-> ->].
    rewrite !(shiftr_div _ 10), land_3FF, !(shiftr_div _ 8) by lia.
    change (2 ^ 8) with 256. change (2 ^ 10) with 1024.
    apply (f_equal2 pair); [|done].
    rewrite !u32_id by width_lia. rewrite !(Z.add_comm _ 0xD800), !(Z.add_comm _ 0xDC00).
    unfold u8. rewrite (Z.mod_small (_ / 256)) by (Z.div_mod_to_equations; lia).
    by rewrite (Z.mod_small (_ / 256)) by (Z.div_mod_to_equations; lia).
Qed.

Lemma ILUTF16WriteCharAsBytes_equiv_witness :
  ILUTF16WriteCharAsBytes true 0x1F600 = ([0x3D; 0xD8; 0x00; 0xDE], 4).
Proof. apply (ILUTF16WriteCharAsBytes_equiv true 0x1F600). lia. Defined.
