(* ===== verification/Opcodes.v ===== *)
(** * Opcode numbers and tables

    The numbers of the Converted Virtual Machine's opcodes (engine/cvm.h,
    [COP_*] and [COP_PREFIX_*]), the numbers of the IL opcodes
    (include/il_opcodes.h) and the two opcode tables of image/opdef.c that
    give, for every IL opcode, the number of stack items it pops and pushes,
    the kind of its argument and its size in bytes. *)
From Stdlib Require Import ZArith String.
From stdpp Require Import base list.
From S2P Require Import Prelude.

Local Open Scope Z_scope.

(** ** CVM opcodes *)

Definition COP_NOP : Z := 0x00.
Definition COP_ILOAD_0 : Z := 0x01.
Definition COP_ILOAD_1 : Z := 0x02.
Definition COP_ILOAD_2 : Z := 0x03.
Definition COP_ILOAD_3 : Z := 0x04.
Definition COP_ILOAD : Z := 0x05.
Definition COP_PLOAD_0 : Z := 0x06.
Definition COP_PLOAD_1 : Z := 0x07.
Definition COP_PLOAD_2 : Z := 0x08.
Definition COP_PLOAD_3 : Z := 0x09.
Definition COP_PLOAD : Z := 0x0A.
Definition COP_ISTORE_0 : Z := 0x0B.
Definition COP_ISTORE_1 : Z := 0x0C.
Definition COP_ISTORE_2 : Z := 0x0D.
Definition COP_ISTORE_3 : Z := 0x0E.
Definition COP_ISTORE : Z := 0x0F.
Definition COP_PSTORE_0 : Z := 0x10.
Definition COP_PSTORE_1 : Z := 0x11.
Definition COP_PSTORE_2 : Z := 0x12.
Definition COP_PSTORE_3 : Z := 0x13.
Definition COP_PSTORE : Z := 0x14.
Definition COP_MLOAD : Z := 0x15.
Definition COP_MSTORE : Z := 0x16.
Definition COP_WADDR : Z := 0x17.
Definition COP_MADDR : Z := 0x18.
Definition COP_BFIXUP : Z := 0x19.
Definition COP_SFIXUP : Z := 0x1A.
Definition COP_MK_LOCAL_1 : Z := 0x1D.
Definition COP_MK_LOCAL_2 : Z := 0x1E.
Definition COP_MK_LOCAL_3 : Z := 0x1F.
Definition COP_MK_LOCAL_N : Z := 0x20.
Definition COP_DUP : Z := 0x38.
Definition COP_DUP2 : Z := 0x39.
Definition COP_DUP_N : Z := 0x3A.
Definition COP_DUP_WORD_N : Z := 0x3B.
Definition COP_POP : Z := 0x3C.
Definition COP_POP2 : Z := 0x3D.
Definition COP_POP_N : Z := 0x3E.
Definition COP_SQUASH : Z := 0x3F.
Definition COP_CKHEIGHT : Z := 0x40.
Definition COP_CKHEIGHT_N : Z := 0x41.
Definition COP_SET_NUM_ARGS : Z := 0x42.
Definition COP_IADD : Z := 0x43.
Definition COP_IADD_OVF : Z := 0x44.
Definition COP_IADD_OVF_UN : Z := 0x45.
Definition COP_ISUB : Z := 0x46.
Definition COP_ISUB_OVF : Z := 0x47.
Definition COP_ISUB_OVF_UN : Z := 0x48.
Definition COP_IMUL : Z := 0x49.
Definition COP_IMUL_OVF : Z := 0x4A.
Definition COP_IMUL_OVF_UN : Z := 0x4B.
Definition COP_IDIV : Z := 0x4C.
Definition COP_IDIV_UN : Z := 0x4D.
Definition COP_IREM : Z := 0x4E.
Definition COP_IREM_UN : Z := 0x4F.
Definition COP_INEG : Z := 0x50.
Definition COP_LADD : Z := 0x51.
Definition COP_LADD_OVF : Z := 0x52.
Definition COP_LADD_OVF_UN : Z := 0x53.
Definition COP_LSUB : Z := 0x54.
Definition COP_LSUB_OVF : Z := 0x55.
Definition COP_LSUB_OVF_UN : Z := 0x56.
Definition COP_LMUL : Z := 0x57.
Definition COP_LMUL_OVF : Z := 0x58.
Definition COP_LMUL_OVF_UN : Z := 0x59.
Definition COP_LDIV : Z := 0x5A.
Definition COP_LDIV_UN : Z := 0x5B.
Definition COP_LREM : Z := 0x5C.
Definition COP_LREM_UN : Z := 0x5D.
Definition COP_LNEG : Z := 0x5E.
Definition COP_FADD : Z := 0x5F.
Definition COP_FSUB : Z := 0x60.
Definition COP_FMUL : Z := 0x61.
Definition COP_FDIV : Z := 0x62.
Definition COP_FREM : Z := 0x63.
Definition COP_FNEG : Z := 0x64.
Definition COP_IAND : Z := 0x65.
Definition COP_IOR : Z := 0x66.
Definition COP_IXOR : Z := 0x67.
Definition COP_INOT : Z := 0x68.
Definition COP_ISHL : Z := 0x69.
Definition COP_ISHR : Z := 0x6A.
Definition COP_ISHR_UN : Z := 0x6B.
Definition COP_LAND : Z := 0x6C.
Definition COP_LOR : Z := 0x6D.
Definition COP_LXOR : Z := 0x6E.
Definition COP_LNOT : Z := 0x6F.
Definition COP_LSHL : Z := 0x70.
Definition COP_LSHR : Z := 0x71.
Definition COP_LSHR_UN : Z := 0x72.
Definition COP_I2B : Z := 0x73.
Definition COP_I2UB : Z := 0x74.
Definition COP_I2S : Z := 0x75.
Definition COP_I2US : Z := 0x76.
Definition COP_I2L : Z := 0x77.
Definition COP_IU2L : Z := 0x78.
Definition COP_I2F : Z := 0x79.
Definition COP_IU2F : Z := 0x7A.
Definition COP_L2I : Z := 0x7B.
Definition COP_L2F : Z := 0x7C.
Definition COP_LU2F : Z := 0x7D.
Definition COP_F2I : Z := 0x7E.
Definition COP_F2IU : Z := 0x7F.
Definition COP_F2L : Z := 0x80.
Definition COP_F2LU : Z := 0x81.
Definition COP_F2F : Z := 0x82.
Definition COP_F2D : Z := 0x83.
Definition COP_I2P_LOWER : Z := 0x84.
Definition COP_PADD_I4 : Z := 0x87.
Definition COP_PADD_I4_R : Z := 0x88.
Definition COP_PADD_I8 : Z := 0x89.
Definition COP_PADD_I8_R : Z := 0x8A.
Definition COP_PSUB : Z := 0x8B.
Definition COP_PSUB_I4 : Z := 0x8C.
Definition COP_PSUB_I8 : Z := 0x8D.
Definition COP_LDNULL : Z := 0x91.
Definition COP_LDC_I4_M1 : Z := 0x92.
Definition COP_LDC_I4_0 : Z := 0x93.
Definition COP_LDC_I4_1 : Z := 0x94.
Definition COP_LDC_I4_2 : Z := 0x95.
Definition COP_LDC_I4_3 : Z := 0x96.
Definition COP_LDC_I4_4 : Z := 0x97.
Definition COP_LDC_I4_5 : Z := 0x98.
Definition COP_LDC_I4_6 : Z := 0x99.
Definition COP_LDC_I4_7 : Z := 0x9A.
Definition COP_LDC_I4_8 : Z := 0x9B.
Definition COP_LDC_I4_S : Z := 0x9C.
Definition COP_LDC_I4 : Z := 0x9D.
Definition COP_LDC_I8 : Z := 0x9E.
Definition COP_LDC_R4 : Z := 0x9F.
Definition COP_LDC_R8 : Z := 0xA0.
Definition COP_BR : Z := 0xA1.
Definition COP_BEQ : Z := 0xA2.
Definition COP_BNE : Z := 0xA3.
Definition COP_BLT : Z := 0xA4.
Definition COP_BLT_UN : Z := 0xA5.
Definition COP_BLE : Z := 0xA6.
Definition COP_BLE_UN : Z := 0xA7.
Definition COP_BGT : Z := 0xA8.
Definition COP_BGT_UN : Z := 0xA9.
Definition COP_BGE : Z := 0xAA.
Definition COP_BGE_UN : Z := 0xAB.
Definition COP_BRTRUE : Z := 0xAC.
Definition COP_BRFALSE : Z := 0xAD.
Definition COP_BRNULL : Z := 0xAE.
Definition COP_BRNONNULL : Z := 0xAF.
Definition COP_BR_PEQ : Z := 0xB0.
Definition COP_BR_PNE : Z := 0xB1.
Definition COP_BR_LONG : Z := 0xB2.
Definition COP_SWITCH : Z := 0xB3.
Definition COP_JSR : Z := 0xDB.
Definition COP_BLOAD : Z := 0xFA.
Definition COP_BSTORE : Z := 0xFB.
Definition COP_WIDE : Z := 0xFD.
Definition COP_BREAK : Z := 0xFE.
Definition COP_PREFIX : Z := 0xFF.

(** Those of the coder for variables and returns. *)
Definition COP_BREAD : Z := 0x21.
Definition COP_UBREAD : Z := 0x22.
Definition COP_SREAD : Z := 0x23.
Definition COP_USREAD : Z := 0x24.
Definition COP_FREAD : Z := 0x26.
Definition COP_DREAD : Z := 0x27.
Definition COP_BWRITE_R : Z := 0x31.
Definition COP_SWRITE_R : Z := 0x32.
Definition COP_FWRITE_R : Z := 0x34.
Definition COP_DWRITE_R : Z := 0x35.
Definition COP_RETURN : Z := 0xD7.
Definition COP_RETURN_1 : Z := 0xD8.
Definition COP_RETURN_2 : Z := 0xD9.
Definition COP_RETURN_N : Z := 0xDA.

(** The instructions that are not modelled. *)
Definition COP_FFIXUP : Z := 0x1B.
Definition COP_DFIXUP : Z := 0x1C.
Definition COP_IREAD : Z := 0x25.
Definition COP_PREAD : Z := 0x28.
Definition COP_MREAD : Z := 0x29.
Definition COP_BWRITE : Z := 0x2A.
Definition COP_SWRITE : Z := 0x2B.
Definition COP_IWRITE : Z := 0x2C.
Definition COP_FWRITE : Z := 0x2D.
Definition COP_DWRITE : Z := 0x2E.
Definition COP_PWRITE : Z := 0x2F.
Definition COP_MWRITE : Z := 0x30.
Definition COP_IWRITE_R : Z := 0x33.
Definition COP_PWRITE_R : Z := 0x36.
Definition COP_MWRITE_R : Z := 0x37.
Definition COP_PADD_OFFSET : Z := 0x85.
Definition COP_PADD_OFFSET_N : Z := 0x86.
Definition COP_CKNULL : Z := 0x8E.
Definition COP_CKNULL_N : Z := 0x8F.
Definition COP_LDRVA : Z := 0x90.
Definition COP_BREAD_ELEM : Z := 0xB4.
Definition COP_UBREAD_ELEM : Z := 0xB5.
Definition COP_SREAD_ELEM : Z := 0xB6.
Definition COP_USREAD_ELEM : Z := 0xB7.
Definition COP_IREAD_ELEM : Z := 0xB8.
Definition COP_PREAD_ELEM : Z := 0xB9.
Definition COP_BWRITE_ELEM : Z := 0xBA.
Definition COP_SWRITE_ELEM : Z := 0xBB.
Definition COP_IWRITE_ELEM : Z := 0xBC.
Definition COP_PWRITE_ELEM : Z := 0xBD.
Definition COP_ELEM_ADDR_SHIFT_I4 : Z := 0xBE.
Definition COP_ELEM_ADDR_MUL_I4 : Z := 0xBF.
Definition COP_CKARRAY_LOAD_I8 : Z := 0xC0.
Definition COP_CKARRAY_STORE_I8 : Z := 0xC1.
Definition COP_ARRAY_LEN : Z := 0xC2.
Definition COP_BREAD_FIELD : Z := 0xC3.
Definition COP_UBREAD_FIELD : Z := 0xC4.
Definition COP_SREAD_FIELD : Z := 0xC5.
Definition COP_USREAD_FIELD : Z := 0xC6.
Definition COP_IREAD_FIELD : Z := 0xC7.
Definition COP_PREAD_FIELD : Z := 0xC8.
Definition COP_BWRITE_FIELD : Z := 0xC9.
Definition COP_SWRITE_FIELD : Z := 0xCA.
Definition COP_IWRITE_FIELD : Z := 0xCB.
Definition COP_PWRITE_FIELD : Z := 0xCC.
Definition COP_PREAD_THIS : Z := 0xCD.
Definition COP_IREAD_THIS : Z := 0xCE.
Definition COP_CALL : Z := 0xCF.
Definition COP_CALL_CTOR : Z := 0xD0.
Definition COP_CALL_NATIVE : Z := 0xD1.
Definition COP_CALL_NATIVE_VOID : Z := 0xD2.
Definition COP_CALL_NATIVE_RAW : Z := 0xD3.
Definition COP_CALL_NATIVE_VOID_RAW : Z := 0xD4.
Definition COP_CALL_VIRTUAL : Z := 0xD5.
Definition COP_CALL_INTERFACE : Z := 0xD6.
Definition COP_RET_JSR : Z := 0xDC.
Definition COP_PUSH_THREAD : Z := 0xDD.
Definition COP_PUSH_THREAD_RAW : Z := 0xDE.
Definition COP_PUSHDOWN : Z := 0xDF.
Definition COP_CALLI : Z := 0xE0.
Definition COP_JMPI : Z := 0xE1.
Definition COP_CASTCLASS : Z := 0xE2.
Definition COP_ISINST : Z := 0xE3.
Definition COP_CASTINTERFACE : Z := 0xE4.
Definition COP_ISINTERFACE : Z := 0xE5.
Definition COP_GET_STATIC : Z := 0xE6.
Definition COP_NEW : Z := 0xE7.
Definition COP_NEW_VALUE : Z := 0xE8.
Definition COP_LDSTR : Z := 0xE9.
Definition COP_LDTOKEN : Z := 0xEA.
Definition COP_BOX : Z := 0xEB.
Definition COP_BOX_PTR : Z := 0xEC.
Definition COP_MEMCPY : Z := 0xED.
Definition COP_MEMMOVE : Z := 0xEE.
Definition COP_MEMZERO : Z := 0xEF.
Definition COP_MEMSET : Z := 0xF0.
Definition COP_WADDR_NATIVE_M1 : Z := 0xF1.
Definition COP_WADDR_NATIVE_0 : Z := 0xF2.
Definition COP_WADDR_NATIVE_1 : Z := 0xF3.
Definition COP_WADDR_NATIVE_2 : Z := 0xF4.
Definition COP_WADDR_NATIVE_3 : Z := 0xF5.
Definition COP_WADDR_NATIVE_4 : Z := 0xF6.
Definition COP_WADDR_NATIVE_5 : Z := 0xF7.
Definition COP_WADDR_NATIVE_6 : Z := 0xF8.
Definition COP_WADDR_NATIVE_7 : Z := 0xF9.

(** ** Prefixed CVM opcodes *)

Definition COP_PREFIX_ICMP : Z := 0x01.
Definition COP_PREFIX_ICMP_UN : Z := 0x02.
Definition COP_PREFIX_LCMP : Z := 0x03.
Definition COP_PREFIX_LCMP_UN : Z := 0x04.
Definition COP_PREFIX_FCMPL : Z := 0x05.
Definition COP_PREFIX_FCMPG : Z := 0x06.
Definition COP_PREFIX_PCMP : Z := 0x07.
Definition COP_PREFIX_SETEQ : Z := 0x08.
Definition COP_PREFIX_SETNE : Z := 0x09.
Definition COP_PREFIX_SETLT : Z := 0x0A.
Definition COP_PREFIX_SETLE : Z := 0x0B.
Definition COP_PREFIX_SETGT : Z := 0x0C.
Definition COP_PREFIX_SETGE : Z := 0x0D.
Definition COP_PREFIX_I2B_OVF : Z := 0x25.
Definition COP_PREFIX_I2UB_OVF : Z := 0x26.
Definition COP_PREFIX_IU2B_OVF : Z := 0x27.
Definition COP_PREFIX_IU2UB_OVF : Z := 0x28.
Definition COP_PREFIX_I2S_OVF : Z := 0x29.
Definition COP_PREFIX_I2US_OVF : Z := 0x2A.
Definition COP_PREFIX_IU2S_OVF : Z := 0x2B.
Definition COP_PREFIX_IU2US_OVF : Z := 0x2C.
Definition COP_PREFIX_I2IU_OVF : Z := 0x2D.
Definition COP_PREFIX_IU2I_OVF : Z := 0x2E.
Definition COP_PREFIX_I2UL_OVF : Z := 0x2F.
Definition COP_PREFIX_L2I_OVF : Z := 0x30.
Definition COP_PREFIX_L2UI_OVF : Z := 0x31.
Definition COP_PREFIX_LU2I_OVF : Z := 0x32.
Definition COP_PREFIX_LU2IU_OVF : Z := 0x33.
Definition COP_PREFIX_L2UL_OVF : Z := 0x34.
Definition COP_PREFIX_LU2L_OVF : Z := 0x35.
Definition COP_PREFIX_F2I_OVF : Z := 0x36.
Definition COP_PREFIX_F2IU_OVF : Z := 0x37.
Definition COP_PREFIX_F2L_OVF : Z := 0x38.
Definition COP_PREFIX_F2LU_OVF : Z := 0x39.
Definition COP_PREFIX_I2B_ALIGNED : Z := 0x3A.
Definition COP_PREFIX_I2S_ALIGNED : Z := 0x3B.
Definition COP_PREFIX_CKFINITE : Z := 0x3E.
Definition COP_PREFIX_FIX_I4_I : Z := 0x59.
Definition COP_PREFIX_FIX_I4_U : Z := 0x5A.
Definition COP_PREFIX_REPL_WORD_N : Z := 0x8D.

(** The prefixed instructions that are not modelled. *)
Definition COP_PREFIX_LREAD_ELEM : Z := 0x0E.
Definition COP_PREFIX_FREAD_ELEM : Z := 0x0F.
Definition COP_PREFIX_DREAD_ELEM : Z := 0x10.
Definition COP_PREFIX_LWRITE_ELEM : Z := 0x11.
Definition COP_PREFIX_FWRITE_ELEM : Z := 0x12.
Definition COP_PREFIX_DWRITE_ELEM : Z := 0x13.
Definition COP_PREFIX_GET2D : Z := 0x14.
Definition COP_PREFIX_SET2D : Z := 0x15.
Definition COP_PREFIX_TAIL_CALL : Z := 0x16.
Definition COP_PREFIX_TAIL_CALLI : Z := 0x17.
Definition COP_PREFIX_TAIL_CALLVIRT : Z := 0x18.
Definition COP_PREFIX_TAIL_CALLINTF : Z := 0x19.
Definition COP_PREFIX_LDFTN : Z := 0x1A.
Definition COP_PREFIX_LDVIRTFTN : Z := 0x1B.
Definition COP_PREFIX_LDINTERFFTN : Z := 0x1C.
Definition COP_PREFIX_PACK_VARARGS : Z := 0x1D.
Definition COP_PREFIX_THROW : Z := 0x1F.
Definition COP_PREFIX_SET_STACK_TRACE : Z := 0x21.
Definition COP_PREFIX_MKREFANY : Z := 0x22.
Definition COP_PREFIX_REFANYVAL : Z := 0x23.
Definition COP_PREFIX_REFANYTYPE : Z := 0x24.
Definition COP_PREFIX_F2F_ALIGNED : Z := 0x3C.
Definition COP_PREFIX_F2D_ALIGNED : Z := 0x3D.
Definition COP_PREFIX_STR2ANSI : Z := 0x3F.
Definition COP_PREFIX_STR2UTF8 : Z := 0x40.
Definition COP_PREFIX_ANSI2STR : Z := 0x41.
Definition COP_PREFIX_UTF82STR : Z := 0x42.
Definition COP_PREFIX_STR2UTF16 : Z := 0x43.
Definition COP_PREFIX_UTF162STR : Z := 0x44.
Definition COP_PREFIX_DELEGATE2FNPTR : Z := 0x45.
Definition COP_PREFIX_ARRAY2PTR : Z := 0x46.
Definition COP_PREFIX_REFARRAY2ANSI : Z := 0x47.
Definition COP_PREFIX_REFARRAY2UTF8 : Z := 0x48.
Definition COP_PREFIX_TOCUSTOM : Z := 0x49.
Definition COP_PREFIX_FROMCUSTOM : Z := 0x4A.
Definition COP_PREFIX_ARRAY2ANSI : Z := 0x4B.
Definition COP_PREFIX_ARRAY2UTF8 : Z := 0x4C.
Definition COP_PREFIX_STRUCT2NATIVE : Z := 0x4D.
Definition COP_PREFIX_STRING_CONCAT_2 : Z := 0x4E.
Definition COP_PREFIX_STRING_CONCAT_3 : Z := 0x4F.
Definition COP_PREFIX_STRING_CONCAT_4 : Z := 0x50.
Definition COP_PREFIX_STRING_EQ : Z := 0x51.
Definition COP_PREFIX_STRING_NE : Z := 0x52.
Definition COP_PREFIX_STRING_GET_CHAR : Z := 0x53.
Definition COP_PREFIX_TYPE_FROM_HANDLE : Z := 0x54.
Definition COP_PREFIX_MONITOR_ENTER : Z := 0x55.
Definition COP_PREFIX_MONITOR_EXIT : Z := 0x56.
Definition COP_PREFIX_APPEND_CHAR : Z := 0x57.
Definition COP_PREFIX_IS_WHITE_SPACE : Z := 0x58.
Definition COP_PREFIX_UNROLL_METHOD : Z := 0x5B.
Definition COP_PREFIX_LOCAL_ALLOC : Z := 0x5C.
Definition COP_PREFIX_PROFILE_COUNT : Z := 0x5D.
Definition COP_PREFIX_THREAD_STATIC : Z := 0x5E.
Definition COP_PREFIX_WADDR_NATIVE_N : Z := 0x5F.
Definition COP_PREFIX_TRACE_IN : Z := 0x60.
Definition COP_PREFIX_TRACE_OUT : Z := 0x61.
Definition COP_PREFIX_LEAVE_CATCH : Z := 0x62.
Definition COP_PREFIX_RET_FROM_FILTER : Z := 0x63.
Definition COP_PREFIX_ABS_I4 : Z := 0x6D.
Definition COP_PREFIX_ABS_R4 : Z := 0x6E.
Definition COP_PREFIX_ABS_R8 : Z := 0x6F.
Definition COP_PREFIX_ASIN : Z := 0x70.
Definition COP_PREFIX_ATAN : Z := 0x71.
Definition COP_PREFIX_ATAN2 : Z := 0x72.
Definition COP_PREFIX_CEILING : Z := 0x73.
Definition COP_PREFIX_COS : Z := 0x74.
Definition COP_PREFIX_COSH : Z := 0x75.
Definition COP_PREFIX_EXP : Z := 0x76.
Definition COP_PREFIX_FLOOR : Z := 0x77.
Definition COP_PREFIX_IEEEREMAINDER : Z := 0x78.
Definition COP_PREFIX_LOG : Z := 0x79.
Definition COP_PREFIX_LOG10 : Z := 0x7A.
Definition COP_PREFIX_MIN_I4 : Z := 0x7B.
Definition COP_PREFIX_MAX_I4 : Z := 0x7C.
Definition COP_PREFIX_MIN_R4 : Z := 0x7D.
Definition COP_PREFIX_MAX_R4 : Z := 0x7E.
Definition COP_PREFIX_MIN_R8 : Z := 0x7F.
Definition COP_PREFIX_MAX_R8 : Z := 0x80.
Definition COP_PREFIX_POW : Z := 0x81.
Definition COP_PREFIX_ROUND : Z := 0x82.
Definition COP_PREFIX_SIGN_I4 : Z := 0x83.
Definition COP_PREFIX_SIGN_R4 : Z := 0x84.
Definition COP_PREFIX_SIGN_R8 : Z := 0x85.
Definition COP_PREFIX_SIN : Z := 0x86.
Definition COP_PREFIX_SINH : Z := 0x87.
Definition COP_PREFIX_SQRT : Z := 0x88.
Definition COP_PREFIX_TAN : Z := 0x89.
Definition COP_PREFIX_TANH : Z := 0x8A.
Definition COP_PREFIX_UNROLL_STACK : Z := 0x8B.
Definition COP_PREFIX_UNROLL_STACK_RETURN : Z := 0x8C.
Definition COP_PREFIX_CALL_VIRTGEN : Z := 0x8E.
Definition COP_PREFIX_SARRAY_COPY_AAI4 : Z := 0x8F.
Definition COP_PREFIX_SARRAY_COPY_AI4AI4I4 : Z := 0x90.
Definition COP_PREFIX_SARRAY_CLEAR_AI4I4 : Z := 0x91.
Definition COP_PREFIX_PROFILE_START : Z := 0x92.
Definition COP_PREFIX_PROFILE_END : Z := 0x93.

(** ** Kinds of IL opcode arguments *)

Definition IL_OPCODE_ARGS_INVALID : Z := 0.
Definition IL_OPCODE_ARGS_NONE : Z := 1.
Definition IL_OPCODE_ARGS_INT8 : Z := 2.
Definition IL_OPCODE_ARGS_UINT8 : Z := 3.
Definition IL_OPCODE_ARGS_INT16 : Z := 4.
Definition IL_OPCODE_ARGS_UINT16 : Z := 5.
Definition IL_OPCODE_ARGS_INT32 : Z := 6.
Definition IL_OPCODE_ARGS_INT64 : Z := 7.
Definition IL_OPCODE_ARGS_FLOAT32 : Z := 8.
Definition IL_OPCODE_ARGS_FLOAT64 : Z := 9.
Definition IL_OPCODE_ARGS_TOKEN : Z := 10.
Definition IL_OPCODE_ARGS_SHORT_VAR : Z := 11.
Definition IL_OPCODE_ARGS_LONG_VAR : Z := 12.
Definition IL_OPCODE_ARGS_SHORT_ARG : Z := 13.
Definition IL_OPCODE_ARGS_LONG_ARG : Z := 14.
Definition IL_OPCODE_ARGS_SHORT_JUMP : Z := 15.
Definition IL_OPCODE_ARGS_LONG_JUMP : Z := 16.
Definition IL_OPCODE_ARGS_CALL : Z := 17.
Definition IL_OPCODE_ARGS_CALLI : Z := 18.
Definition IL_OPCODE_ARGS_CALLVIRT : Z := 19.
Definition IL_OPCODE_ARGS_SWITCH : Z := 20.
Definition IL_OPCODE_ARGS_STRING : Z := 21.
Definition IL_OPCODE_ARGS_NEW : Z := 22.
Definition IL_OPCODE_ARGS_ANN_DATA : Z := 23.
Definition IL_OPCODE_ARGS_ANN_DEAD : Z := 24.
Definition IL_OPCODE_ARGS_ANN_REF : Z := 25.
Definition IL_OPCODE_ARGS_ANN_PHI : Z := 26.
Definition IL_OPCODE_ARGS_ANN_LIVE : Z := 27.
Definition IL_OPCODE_ARGS_ANN_ARG : Z := 28.
Definition IL_OPCODE_ARGS_LDTOKEN : Z := 29.

(** ** IL opcodes *)

Definition IL_OP_NOP : Z := 0x00.
Definition IL_OP_BREAK : Z := 0x01.
Definition IL_OP_LDARG_0 : Z := 0x02.
Definition IL_OP_LDARG_1 : Z := 0x03.
Definition IL_OP_LDARG_2 : Z := 0x04.
Definition IL_OP_LDARG_3 : Z := 0x05.
Definition IL_OP_LDLOC_0 : Z := 0x06.
Definition IL_OP_LDLOC_1 : Z := 0x07.
Definition IL_OP_LDLOC_2 : Z := 0x08.
Definition IL_OP_LDLOC_3 : Z := 0x09.
Definition IL_OP_STLOC_0 : Z := 0x0A.
Definition IL_OP_STLOC_1 : Z := 0x0B.
Definition IL_OP_STLOC_2 : Z := 0x0C.
Definition IL_OP_STLOC_3 : Z := 0x0D.
Definition IL_OP_LDARG_S : Z := 0x0E.
Definition IL_OP_LDARGA_S : Z := 0x0F.
Definition IL_OP_STARG_S : Z := 0x10.
Definition IL_OP_LDLOC_S : Z := 0x11.
Definition IL_OP_LDLOCA_S : Z := 0x12.
Definition IL_OP_STLOC_S : Z := 0x13.
Definition IL_OP_LDNULL : Z := 0x14.
Definition IL_OP_LDC_I4_M1 : Z := 0x15.
Definition IL_OP_LDC_I4_0 : Z := 0x16.
Definition IL_OP_LDC_I4_1 : Z := 0x17.
Definition IL_OP_LDC_I4_2 : Z := 0x18.
Definition IL_OP_LDC_I4_3 : Z := 0x19.
Definition IL_OP_LDC_I4_4 : Z := 0x1A.
Definition IL_OP_LDC_I4_5 : Z := 0x1B.
Definition IL_OP_LDC_I4_6 : Z := 0x1C.
Definition IL_OP_LDC_I4_7 : Z := 0x1D.
Definition IL_OP_LDC_I4_8 : Z := 0x1E.
Definition IL_OP_LDC_I4_S : Z := 0x1F.
Definition IL_OP_LDC_I4 : Z := 0x20.
Definition IL_OP_LDC_I8 : Z := 0x21.
Definition IL_OP_LDC_R4 : Z := 0x22.
Definition IL_OP_LDC_R8 : Z := 0x23.
Definition IL_OP_LDPTR : Z := 0x24.
Definition IL_OP_DUP : Z := 0x25.
Definition IL_OP_POP : Z := 0x26.
Definition IL_OP_JMP : Z := 0x27.
Definition IL_OP_CALL : Z := 0x28.
Definition IL_OP_CALLI : Z := 0x29.
Definition IL_OP_RET : Z := 0x2A.
Definition IL_OP_BR_S : Z := 0x2B.
Definition IL_OP_BRFALSE_S : Z := 0x2C.
Definition IL_OP_BRTRUE_S : Z := 0x2D.
Definition IL_OP_BEQ_S : Z := 0x2E.
Definition IL_OP_BGE_S : Z := 0x2F.
Definition IL_OP_BGT_S : Z := 0x30.
Definition IL_OP_BLE_S : Z := 0x31.
Definition IL_OP_BLT_S : Z := 0x32.
Definition IL_OP_BNE_UN_S : Z := 0x33.
Definition IL_OP_BGE_UN_S : Z := 0x34.
Definition IL_OP_BGT_UN_S : Z := 0x35.
Definition IL_OP_BLE_UN_S : Z := 0x36.
Definition IL_OP_BLT_UN_S : Z := 0x37.
Definition IL_OP_BR : Z := 0x38.
Definition IL_OP_BRFALSE : Z := 0x39.
Definition IL_OP_BRTRUE : Z := 0x3A.
Definition IL_OP_BEQ : Z := 0x3B.
Definition IL_OP_BGE : Z := 0x3C.
Definition IL_OP_BGT : Z := 0x3D.
Definition IL_OP_BLE : Z := 0x3E.
Definition IL_OP_BLT : Z := 0x3F.
Definition IL_OP_BNE_UN : Z := 0x40.
Definition IL_OP_BGE_UN : Z := 0x41.
Definition IL_OP_BGT_UN : Z := 0x42.
Definition IL_OP_BLE_UN : Z := 0x43.
Definition IL_OP_BLT_UN : Z := 0x44.
Definition IL_OP_SWITCH : Z := 0x45.
Definition IL_OP_LDIND_I1 : Z := 0x46.
Definition IL_OP_LDIND_U1 : Z := 0x47.
Definition IL_OP_LDIND_I2 : Z := 0x48.
Definition IL_OP_LDIND_U2 : Z := 0x49.
Definition IL_OP_LDIND_I4 : Z := 0x4A.
Definition IL_OP_LDIND_U4 : Z := 0x4B.
Definition IL_OP_LDIND_I8 : Z := 0x4C.
Definition IL_OP_LDIND_I : Z := 0x4D.
Definition IL_OP_LDIND_R4 : Z := 0x4E.
Definition IL_OP_LDIND_R8 : Z := 0x4F.
Definition IL_OP_LDIND_REF : Z := 0x50.
Definition IL_OP_STIND_REF : Z := 0x51.
Definition IL_OP_STIND_I1 : Z := 0x52.
Definition IL_OP_STIND_I2 : Z := 0x53.
Definition IL_OP_STIND_I4 : Z := 0x54.
Definition IL_OP_STIND_I8 : Z := 0x55.
Definition IL_OP_STIND_R4 : Z := 0x56.
Definition IL_OP_STIND_R8 : Z := 0x57.
Definition IL_OP_ADD : Z := 0x58.
Definition IL_OP_SUB : Z := 0x59.
Definition IL_OP_MUL : Z := 0x5A.
Definition IL_OP_DIV : Z := 0x5B.
Definition IL_OP_DIV_UN : Z := 0x5C.
Definition IL_OP_REM : Z := 0x5D.
Definition IL_OP_REM_UN : Z := 0x5E.
Definition IL_OP_AND : Z := 0x5F.
Definition IL_OP_OR : Z := 0x60.
Definition IL_OP_XOR : Z := 0x61.
Definition IL_OP_SHL : Z := 0x62.
Definition IL_OP_SHR : Z := 0x63.
Definition IL_OP_SHR_UN : Z := 0x64.
Definition IL_OP_NEG : Z := 0x65.
Definition IL_OP_NOT : Z := 0x66.
Definition IL_OP_CONV_I1 : Z := 0x67.
Definition IL_OP_CONV_I2 : Z := 0x68.
Definition IL_OP_CONV_I4 : Z := 0x69.
Definition IL_OP_CONV_I8 : Z := 0x6A.
Definition IL_OP_CONV_R4 : Z := 0x6B.
Definition IL_OP_CONV_R8 : Z := 0x6C.
Definition IL_OP_CONV_U4 : Z := 0x6D.
Definition IL_OP_CONV_U8 : Z := 0x6E.
Definition IL_OP_CALLVIRT : Z := 0x6F.
Definition IL_OP_CPOBJ : Z := 0x70.
Definition IL_OP_LDOBJ : Z := 0x71.
Definition IL_OP_LDSTR : Z := 0x72.
Definition IL_OP_NEWOBJ : Z := 0x73.
Definition IL_OP_CASTCLASS : Z := 0x74.
Definition IL_OP_ISINST : Z := 0x75.
Definition IL_OP_CONV_R_UN : Z := 0x76.
Definition IL_OP_ANN_DATA_S : Z := 0x77.
Definition IL_OP_UNBOX : Z := 0x79.
Definition IL_OP_THROW : Z := 0x7A.
Definition IL_OP_LDFLD : Z := 0x7B.
Definition IL_OP_LDFLDA : Z := 0x7C.
Definition IL_OP_STFLD : Z := 0x7D.
Definition IL_OP_LDSFLD : Z := 0x7E.
Definition IL_OP_LDSFLDA : Z := 0x7F.
Definition IL_OP_STSFLD : Z := 0x80.
Definition IL_OP_STOBJ : Z := 0x81.
Definition IL_OP_CONV_OVF_I1_UN : Z := 0x82.
Definition IL_OP_CONV_OVF_I2_UN : Z := 0x83.
Definition IL_OP_CONV_OVF_I4_UN : Z := 0x84.
Definition IL_OP_CONV_OVF_I8_UN : Z := 0x85.
Definition IL_OP_CONV_OVF_U1_UN : Z := 0x86.
Definition IL_OP_CONV_OVF_U2_UN : Z := 0x87.
Definition IL_OP_CONV_OVF_U4_UN : Z := 0x88.
Definition IL_OP_CONV_OVF_U8_UN : Z := 0x89.
Definition IL_OP_CONV_OVF_I_UN : Z := 0x8A.
Definition IL_OP_CONV_OVF_U_UN : Z := 0x8B.
Definition IL_OP_BOX : Z := 0x8C.
Definition IL_OP_NEWARR : Z := 0x8D.
Definition IL_OP_LDLEN : Z := 0x8E.
Definition IL_OP_LDELEMA : Z := 0x8F.
Definition IL_OP_LDELEM_I1 : Z := 0x90.
Definition IL_OP_LDELEM_U1 : Z := 0x91.
Definition IL_OP_LDELEM_I2 : Z := 0x92.
Definition IL_OP_LDELEM_U2 : Z := 0x93.
Definition IL_OP_LDELEM_I4 : Z := 0x94.
Definition IL_OP_LDELEM_U4 : Z := 0x95.
Definition IL_OP_LDELEM_I8 : Z := 0x96.
Definition IL_OP_LDELEM_I : Z := 0x97.
Definition IL_OP_LDELEM_R4 : Z := 0x98.
Definition IL_OP_LDELEM_R8 : Z := 0x99.
Definition IL_OP_LDELEM_REF : Z := 0x9A.
Definition IL_OP_STELEM_I : Z := 0x9B.
Definition IL_OP_STELEM_I1 : Z := 0x9C.
Definition IL_OP_STELEM_I2 : Z := 0x9D.
Definition IL_OP_STELEM_I4 : Z := 0x9E.
Definition IL_OP_STELEM_I8 : Z := 0x9F.
Definition IL_OP_STELEM_R4 : Z := 0xA0.
Definition IL_OP_STELEM_R8 : Z := 0xA1.
Definition IL_OP_STELEM_REF : Z := 0xA2.
Definition IL_OP_LDELEM : Z := 0xA3.
Definition IL_OP_STELEM : Z := 0xA4.
Definition IL_OP_UNBOX_ANY : Z := 0xA5.
Definition IL_OP_CONV_OVF_I1 : Z := 0xB3.
Definition IL_OP_CONV_OVF_U1 : Z := 0xB4.
Definition IL_OP_CONV_OVF_I2 : Z := 0xB5.
Definition IL_OP_CONV_OVF_U2 : Z := 0xB6.
Definition IL_OP_CONV_OVF_I4 : Z := 0xB7.
Definition IL_OP_CONV_OVF_U4 : Z := 0xB8.
Definition IL_OP_CONV_OVF_I8 : Z := 0xB9.
Definition IL_OP_CONV_OVF_U8 : Z := 0xBA.
Definition IL_OP_REFANYVAL : Z := 0xC2.
Definition IL_OP_CKFINITE : Z := 0xC3.
Definition IL_OP_MKREFANY : Z := 0xC6.
Definition IL_OP_ANN_CALL : Z := 0xC7.
Definition IL_OP_ANN_CATCH : Z := 0xC8.
Definition IL_OP_ANN_DEAD : Z := 0xC9.
Definition IL_OP_ANN_HOISTED : Z := 0xCA.
Definition IL_OP_ANN_HOISTED_CALL : Z := 0xCB.
Definition IL_OP_ANN_LAB : Z := 0xCC.
Definition IL_OP_ANN_DEF : Z := 0xCD.
Definition IL_OP_ANN_REF_S : Z := 0xCE.
Definition IL_OP_ANN_PHI : Z := 0xCF.
Definition IL_OP_LDTOKEN : Z := 0xD0.
Definition IL_OP_CONV_U2 : Z := 0xD1.
Definition IL_OP_CONV_U1 : Z := 0xD2.
Definition IL_OP_CONV_I : Z := 0xD3.
Definition IL_OP_CONV_OVF_I : Z := 0xD4.
Definition IL_OP_CONV_OVF_U : Z := 0xD5.
Definition IL_OP_ADD_OVF : Z := 0xD6.
Definition IL_OP_ADD_OVF_UN : Z := 0xD7.
Definition IL_OP_MUL_OVF : Z := 0xD8.
Definition IL_OP_MUL_OVF_UN : Z := 0xD9.
Definition IL_OP_SUB_OVF : Z := 0xDA.
Definition IL_OP_SUB_OVF_UN : Z := 0xDB.
Definition IL_OP_ENDFINALLY : Z := 0xDC.
Definition IL_OP_LEAVE : Z := 0xDD.
Definition IL_OP_LEAVE_S : Z := 0xDE.
Definition IL_OP_STIND_I : Z := 0xDF.
Definition IL_OP_CONV_U : Z := 0xE0.
Definition IL_OP_PREFIX : Z := 0xFE.

(** ** Prefixed IL opcodes *)

Definition IL_PREFIX_OP_ARGLIST : Z := 0x00.
Definition IL_PREFIX_OP_CEQ : Z := 0x01.
Definition IL_PREFIX_OP_CGT : Z := 0x02.
Definition IL_PREFIX_OP_CGT_UN : Z := 0x03.
Definition IL_PREFIX_OP_CLT : Z := 0x04.
Definition IL_PREFIX_OP_CLT_UN : Z := 0x05.
Definition IL_PREFIX_OP_LDFTN : Z := 0x06.
Definition IL_PREFIX_OP_LDVIRTFTN : Z := 0x07.
Definition IL_PREFIX_OP_JMPI : Z := 0x08.
Definition IL_PREFIX_OP_LDARG : Z := 0x09.
Definition IL_PREFIX_OP_LDARGA : Z := 0x0A.
Definition IL_PREFIX_OP_STARG : Z := 0x0B.
Definition IL_PREFIX_OP_LDLOC : Z := 0x0C.
Definition IL_PREFIX_OP_LDLOCA : Z := 0x0D.
Definition IL_PREFIX_OP_STLOC : Z := 0x0E.
Definition IL_PREFIX_OP_LOCALLOC : Z := 0x0F.
Definition IL_PREFIX_OP_ENDFILTER : Z := 0x11.
Definition IL_PREFIX_OP_UNALIGNED : Z := 0x12.
Definition IL_PREFIX_OP_VOLATILE : Z := 0x13.
Definition IL_PREFIX_OP_TAIL : Z := 0x14.
Definition IL_PREFIX_OP_INITOBJ : Z := 0x15.
Definition IL_PREFIX_OP_CONSTRAINED : Z := 0x16.
Definition IL_PREFIX_OP_CPBLK : Z := 0x17.
Definition IL_PREFIX_OP_INITBLK : Z := 0x18.
Definition IL_PREFIX_OP_NO : Z := 0x19.
Definition IL_PREFIX_OP_RETHROW : Z := 0x1A.
Definition IL_PREFIX_OP_SIZEOF : Z := 0x1C.
Definition IL_PREFIX_OP_REFANYTYPE : Z := 0x1D.
Definition IL_PREFIX_OP_READONLY : Z := 0x1E.
Definition IL_PREFIX_OP_ANN_DATA : Z := 0x22.
Definition IL_PREFIX_OP_ANN_ARG : Z := 0x23.

(** ** The opcode tables *)

Module OpTable.

(** [ILOpcodeInfo]. *)
Record ILOpcodeInfo := OPDEF
  { name : string; popped : Z; pushed : Z; args : Z; size : Z }.

Definition ILMainOpcodeTable_0 : list ILOpcodeInfo :=
  [OPDEF "nop" 0 0 IL_OPCODE_ARGS_NONE 1;
   OPDEF "break" 0 0 IL_OPCODE_ARGS_NONE 1;
   OPDEF "ldarg.0" 0 1 IL_OPCODE_ARGS_NONE 1;
   OPDEF "ldarg.1" 0 1 IL_OPCODE_ARGS_NONE 1;
   OPDEF "ldarg.2" 0 1 IL_OPCODE_ARGS_NONE 1;
   OPDEF "ldarg.3" 0 1 IL_OPCODE_ARGS_NONE 1;
   OPDEF "ldloc.0" 0 1 IL_OPCODE_ARGS_NONE 1;
   OPDEF "ldloc.1" 0 1 IL_OPCODE_ARGS_NONE 1;
   OPDEF "ldloc.2" 0 1 IL_OPCODE_ARGS_NONE 1;
   OPDEF "ldloc.3" 0 1 IL_OPCODE_ARGS_NONE 1;
   OPDEF "stloc.0" 1 0 IL_OPCODE_ARGS_NONE 1;
   OPDEF "stloc.1" 1 0 IL_OPCODE_ARGS_NONE 1;
   OPDEF "stloc.2" 1 0 IL_OPCODE_ARGS_NONE 1;
   OPDEF "stloc.3" 1 0 IL_OPCODE_ARGS_NONE 1;
   OPDEF "ldarg.s" 0 1 IL_OPCODE_ARGS_SHORT_ARG 2;
   OPDEF "ldarga.s" 0 1 IL_OPCODE_ARGS_SHORT_ARG 2;
   OPDEF "starg.s" 1 0 IL_OPCODE_ARGS_SHORT_ARG 2;
   OPDEF "ldloc.s" 0 1 IL_OPCODE_ARGS_SHORT_VAR 2;
   OPDEF "ldloca.s" 0 1 IL_OPCODE_ARGS_SHORT_VAR 2;
   OPDEF "stloc.s" 1 0 IL_OPCODE_ARGS_SHORT_VAR 2;
   OPDEF "ldnull" 0 1 IL_OPCODE_ARGS_NONE 1;
   OPDEF "ldc.i4.m1" 0 1 IL_OPCODE_ARGS_NONE 1;
   OPDEF "ldc.i4.0" 0 1 IL_OPCODE_ARGS_NONE 1;
   OPDEF "ldc.i4.1" 0 1 IL_OPCODE_ARGS_NONE 1;
   OPDEF "ldc.i4.2" 0 1 IL_OPCODE_ARGS_NONE 1;
   OPDEF "ldc.i4.3" 0 1 IL_OPCODE_ARGS_NONE 1;
   OPDEF "ldc.i4.4" 0 1 IL_OPCODE_ARGS_NONE 1;
   OPDEF "ldc.i4.5" 0 1 IL_OPCODE_ARGS_NONE 1;
   OPDEF "ldc.i4.6" 0 1 IL_OPCODE_ARGS_NONE 1;
   OPDEF "ldc.i4.7" 0 1 IL_OPCODE_ARGS_NONE 1;
   OPDEF "ldc.i4.8" 0 1 IL_OPCODE_ARGS_NONE 1;
   OPDEF "ldc.i4.s" 0 1 IL_OPCODE_ARGS_INT8 2;
   OPDEF "ldc.i4" 0 1 IL_OPCODE_ARGS_INT32 5;
   OPDEF "ldc.i8" 0 1 IL_OPCODE_ARGS_INT64 9;
   OPDEF "ldc.r4" 0 1 IL_OPCODE_ARGS_FLOAT32 5;
   OPDEF "ldc.r8" 0 1 IL_OPCODE_ARGS_FLOAT64 9;
   OPDEF "ldptr" 0 1 IL_OPCODE_ARGS_INT32 5;
   OPDEF "dup" 1 2 IL_OPCODE_ARGS_NONE 1;
   OPDEF "pop" 1 0 IL_OPCODE_ARGS_NONE 1;
   OPDEF "jmp" 0 0 IL_OPCODE_ARGS_CALL 5;
   OPDEF "call" 0 0 IL_OPCODE_ARGS_CALL 5;
   OPDEF "calli" 0 0 IL_OPCODE_ARGS_CALLI 5;
   OPDEF "ret" 0 0 IL_OPCODE_ARGS_NONE 1;
   OPDEF "br.s" 0 0 IL_OPCODE_ARGS_SHORT_JUMP 2;
   OPDEF "brfalse.s" 1 0 IL_OPCODE_ARGS_SHORT_JUMP 2;
   OPDEF "brtrue.s" 1 0 IL_OPCODE_ARGS_SHORT_JUMP 2;
   OPDEF "beq.s" 2 0 IL_OPCODE_ARGS_SHORT_JUMP 2;
   OPDEF "bge.s" 2 0 IL_OPCODE_ARGS_SHORT_JUMP 2;
   OPDEF "bgt.s" 2 0 IL_OPCODE_ARGS_SHORT_JUMP 2;
   OPDEF "ble.s" 2 0 IL_OPCODE_ARGS_SHORT_JUMP 2;
   OPDEF "blt.s" 2 0 IL_OPCODE_ARGS_SHORT_JUMP 2;
   OPDEF "bne.un.s" 2 0 IL_OPCODE_ARGS_SHORT_JUMP 2;
   OPDEF "bge.un.s" 2 0 IL_OPCODE_ARGS_SHORT_JUMP 2;
   OPDEF "bgt.un.s" 2 0 IL_OPCODE_ARGS_SHORT_JUMP 2;
   OPDEF "ble.un.s" 2 0 IL_OPCODE_ARGS_SHORT_JUMP 2;
   OPDEF "blt.un.s" 2 0 IL_OPCODE_ARGS_SHORT_JUMP 2;
   OPDEF "br" 0 0 IL_OPCODE_ARGS_LONG_JUMP 5;
   OPDEF "brfalse" 1 0 IL_OPCODE_ARGS_LONG_JUMP 5;
   OPDEF "brtrue" 1 0 IL_OPCODE_ARGS_LONG_JUMP 5;
   OPDEF "beq" 2 0 IL_OPCODE_ARGS_LONG_JUMP 5;
   OPDEF "bge" 2 0 IL_OPCODE_ARGS_LONG_JUMP 5;
   OPDEF "bgt" 2 0 IL_OPCODE_ARGS_LONG_JUMP 5;
   OPDEF "ble" 2 0 IL_OPCODE_ARGS_LONG_JUMP 5;
   OPDEF "blt" 2 0 IL_OPCODE_ARGS_LONG_JUMP 5;
   OPDEF "bne.un" 2 0 IL_OPCODE_ARGS_LONG_JUMP 5;
   OPDEF "bge.un" 2 0 IL_OPCODE_ARGS_LONG_JUMP 5;
   OPDEF "bgt.un" 2 0 IL_OPCODE_ARGS_LONG_JUMP 5;
   OPDEF "ble.un" 2 0 IL_OPCODE_ARGS_LONG_JUMP 5;
   OPDEF "blt.un" 2 0 IL_OPCODE_ARGS_LONG_JUMP 5;
   OPDEF "switch" 1 0 IL_OPCODE_ARGS_SWITCH 0;
   OPDEF "ldind.i1" 1 1 IL_OPCODE_ARGS_NONE 1;
   OPDEF "ldind.u1" 1 1 IL_OPCODE_ARGS_NONE 1;
   OPDEF "ldind.i2" 1 1 IL_OPCODE_ARGS_NONE 1;
   OPDEF "ldind.u2" 1 1 IL_OPCODE_ARGS_NONE 1;
   OPDEF "ldind.i4" 1 1 IL_OPCODE_ARGS_NONE 1;
   OPDEF "ldind.u4" 1 1 IL_OPCODE_ARGS_NONE 1;
   OPDEF "ldind.i8" 1 1 IL_OPCODE_ARGS_NONE 1;
   OPDEF "ldind.i" 1 1 IL_OPCODE_ARGS_NONE 1;
   OPDEF "ldind.r4" 1 1 IL_OPCODE_ARGS_NONE 1;
   OPDEF "ldind.r8" 1 1 IL_OPCODE_ARGS_NONE 1;
   OPDEF "ldind.ref" 1 1 IL_OPCODE_ARGS_NONE 1;
   OPDEF "stind.ref" 2 0 IL_OPCODE_ARGS_NONE 1;
   OPDEF "stind.i1" 2 0 IL_OPCODE_ARGS_NONE 1;
   OPDEF "stind.i2" 2 0 IL_OPCODE_ARGS_NONE 1;
   OPDEF "stind.i4" 2 0 IL_OPCODE_ARGS_NONE 1;
   OPDEF "stind.i8" 2 0 IL_OPCODE_ARGS_NONE 1;
   OPDEF "stind.r4" 2 0 IL_OPCODE_ARGS_NONE 1;
   OPDEF "stind.r8" 2 0 IL_OPCODE_ARGS_NONE 1;
   OPDEF "add" 2 1 IL_OPCODE_ARGS_NONE 1;
   OPDEF "sub" 2 1 IL_OPCODE_ARGS_NONE 1;
   OPDEF "mul" 2 1 IL_OPCODE_ARGS_NONE 1;
   OPDEF "div" 2 1 IL_OPCODE_ARGS_NONE 1;
   OPDEF "div.un" 2 1 IL_OPCODE_ARGS_NONE 1;
   OPDEF "rem" 2 1 IL_OPCODE_ARGS_NONE 1;
   OPDEF "rem.un" 2 1 IL_OPCODE_ARGS_NONE 1;
   OPDEF "and" 2 1 IL_OPCODE_ARGS_NONE 1;
   OPDEF "or" 2 1 IL_OPCODE_ARGS_NONE 1;
   OPDEF "xor" 2 1 IL_OPCODE_ARGS_NONE 1;
   OPDEF "shl" 2 1 IL_OPCODE_ARGS_NONE 1;
   OPDEF "shr" 2 1 IL_OPCODE_ARGS_NONE 1;
   OPDEF "shr.un" 2 1 IL_OPCODE_ARGS_NONE 1;
   OPDEF "neg" 1 1 IL_OPCODE_ARGS_NONE 1;
   OPDEF "not" 1 1 IL_OPCODE_ARGS_NONE 1;
   OPDEF "conv.i1" 1 1 IL_OPCODE_ARGS_NONE 1;
   OPDEF "conv.i2" 1 1 IL_OPCODE_ARGS_NONE 1;
   OPDEF "conv.i4" 1 1 IL_OPCODE_ARGS_NONE 1;
   OPDEF "conv.i8" 1 1 IL_OPCODE_ARGS_NONE 1;
   OPDEF "conv.r4" 1 1 IL_OPCODE_ARGS_NONE 1;
   OPDEF "conv.r8" 1 1 IL_OPCODE_ARGS_NONE 1;
   OPDEF "conv.u4" 1 1 IL_OPCODE_ARGS_NONE 1;
   OPDEF "conv.u8" 1 1 IL_OPCODE_ARGS_NONE 1;
   OPDEF "callvirt" 0 0 IL_OPCODE_ARGS_CALLVIRT 5;
   OPDEF "cpobj" 2 0 IL_OPCODE_ARGS_TOKEN 5;
   OPDEF "ldobj" 1 1 IL_OPCODE_ARGS_TOKEN 5;
   OPDEF "ldstr" 0 1 IL_OPCODE_ARGS_STRING 5;
   OPDEF "newobj" 0 0 IL_OPCODE_ARGS_NEW 5;
   OPDEF "castclass" 1 1 IL_OPCODE_ARGS_TOKEN 5;
   OPDEF "isinst" 1 1 IL_OPCODE_ARGS_TOKEN 5;
   OPDEF "conv.r.un" 1 1 IL_OPCODE_ARGS_NONE 1;
   OPDEF "ann.data.s" 0 0 IL_OPCODE_ARGS_ANN_DATA 0;
   OPDEF "unused_78" 0 0 IL_OPCODE_ARGS_INVALID 1;
   OPDEF "unbox" 1 1 IL_OPCODE_ARGS_TOKEN 5;
   OPDEF "throw" 1 0 IL_OPCODE_ARGS_NONE 1].

Definition ILMainOpcodeTable_1 : list ILOpcodeInfo :=
  [OPDEF "ldfld" 1 1 IL_OPCODE_ARGS_TOKEN 5;
   OPDEF "ldflda" 1 1 IL_OPCODE_ARGS_TOKEN 5;
   OPDEF "stfld" 2 0 IL_OPCODE_ARGS_TOKEN 5;
   OPDEF "ldsfld" 0 1 IL_OPCODE_ARGS_TOKEN 5;
   OPDEF "ldsflda" 0 1 IL_OPCODE_ARGS_TOKEN 5;
   OPDEF "stsfld" 1 0 IL_OPCODE_ARGS_TOKEN 5;
   OPDEF "stobj" 2 0 IL_OPCODE_ARGS_TOKEN 5;
   OPDEF "conv.ovf.i1.un" 1 1 IL_OPCODE_ARGS_NONE 1;
   OPDEF "conv.ovf.i2.un" 1 1 IL_OPCODE_ARGS_NONE 1;
   OPDEF "conv.ovf.i4.un" 1 1 IL_OPCODE_ARGS_NONE 1;
   OPDEF "conv.ovf.i8.un" 1 1 IL_OPCODE_ARGS_NONE 1;
   OPDEF "conv.ovf.u1.un" 1 1 IL_OPCODE_ARGS_NONE 1;
   OPDEF "conv.ovf.u2.un" 1 1 IL_OPCODE_ARGS_NONE 1;
   OPDEF "conv.ovf.u4.un" 1 1 IL_OPCODE_ARGS_NONE 1;
   OPDEF "conv.ovf.u8.un" 1 1 IL_OPCODE_ARGS_NONE 1;
   OPDEF "conv.ovf.i.un" 1 1 IL_OPCODE_ARGS_NONE 1;
   OPDEF "conv.ovf.u.un" 1 1 IL_OPCODE_ARGS_NONE 1;
   OPDEF "box" 1 1 IL_OPCODE_ARGS_TOKEN 5;
   OPDEF "newarr" 1 1 IL_OPCODE_ARGS_TOKEN 5;
   OPDEF "ldlen" 1 1 IL_OPCODE_ARGS_NONE 1;
   OPDEF "ldelema" 2 1 IL_OPCODE_ARGS_TOKEN 5;
   OPDEF "ldelem.i1" 2 1 IL_OPCODE_ARGS_NONE 1;
   OPDEF "ldelem.u1" 2 1 IL_OPCODE_ARGS_NONE 1;
   OPDEF "ldelem.i2" 2 1 IL_OPCODE_ARGS_NONE 1;
   OPDEF "ldelem.u2" 2 1 IL_OPCODE_ARGS_NONE 1;
   OPDEF "ldelem.i4" 2 1 IL_OPCODE_ARGS_NONE 1;
   OPDEF "ldelem.u4" 2 1 IL_OPCODE_ARGS_NONE 1;
   OPDEF "ldelem.i8" 2 1 IL_OPCODE_ARGS_NONE 1;
   OPDEF "ldelem.i" 2 1 IL_OPCODE_ARGS_NONE 1;
   OPDEF "ldelem.r4" 2 1 IL_OPCODE_ARGS_NONE 1;
   OPDEF "ldelem.r8" 2 1 IL_OPCODE_ARGS_NONE 1;
   OPDEF "ldelem.ref" 2 1 IL_OPCODE_ARGS_NONE 1;
   OPDEF "stelem.i" 3 0 IL_OPCODE_ARGS_NONE 1;
   OPDEF "stelem.i1" 3 0 IL_OPCODE_ARGS_NONE 1;
   OPDEF "stelem.i2" 3 0 IL_OPCODE_ARGS_NONE 1;
   OPDEF "stelem.i4" 3 0 IL_OPCODE_ARGS_NONE 1;
   OPDEF "stelem.i8" 3 0 IL_OPCODE_ARGS_NONE 1;
   OPDEF "stelem.r4" 3 0 IL_OPCODE_ARGS_NONE 1;
   OPDEF "stelem.r8" 3 0 IL_OPCODE_ARGS_NONE 1;
   OPDEF "stelem.ref" 3 0 IL_OPCODE_ARGS_NONE 1;
   OPDEF "ldelem" 2 1 IL_OPCODE_ARGS_TOKEN 5;
   OPDEF "stelem" 3 0 IL_OPCODE_ARGS_TOKEN 5;
   OPDEF "unbox.any" 1 1 IL_OPCODE_ARGS_TOKEN 5;
   OPDEF "unused_A6" 0 0 IL_OPCODE_ARGS_INVALID 1;
   OPDEF "unused_A7" 0 0 IL_OPCODE_ARGS_INVALID 1;
   OPDEF "unused_A8" 0 0 IL_OPCODE_ARGS_INVALID 1;
   OPDEF "unused_A9" 0 0 IL_OPCODE_ARGS_INVALID 1;
   OPDEF "unused_AA" 0 0 IL_OPCODE_ARGS_INVALID 1;
   OPDEF "unused_AB" 0 0 IL_OPCODE_ARGS_INVALID 1;
   OPDEF "unused_AC" 0 0 IL_OPCODE_ARGS_INVALID 1;
   OPDEF "unused_AD" 0 0 IL_OPCODE_ARGS_INVALID 1;
   OPDEF "unused_AE" 0 0 IL_OPCODE_ARGS_INVALID 1;
   OPDEF "unused_AF" 0 0 IL_OPCODE_ARGS_INVALID 1;
   OPDEF "unused_B0" 0 0 IL_OPCODE_ARGS_INVALID 1;
   OPDEF "unused_B1" 0 0 IL_OPCODE_ARGS_INVALID 1;
   OPDEF "unused_B2" 0 0 IL_OPCODE_ARGS_INVALID 1;
   OPDEF "conv.ovf.i1" 1 1 IL_OPCODE_ARGS_NONE 1;
   OPDEF "conv.ovf.u1" 1 1 IL_OPCODE_ARGS_NONE 1;
   OPDEF "conv.ovf.i2" 1 1 IL_OPCODE_ARGS_NONE 1;
   OPDEF "conv.ovf.u2" 1 1 IL_OPCODE_ARGS_NONE 1;
   OPDEF "conv.ovf.i4" 1 1 IL_OPCODE_ARGS_NONE 1;
   OPDEF "conv.ovf.u4" 1 1 IL_OPCODE_ARGS_NONE 1;
   OPDEF "conv.ovf.i8" 1 1 IL_OPCODE_ARGS_NONE 1;
   OPDEF "conv.ovf.u8" 1 1 IL_OPCODE_ARGS_NONE 1;
   OPDEF "unused_BB" 0 0 IL_OPCODE_ARGS_INVALID 1;
   OPDEF "unused_BC" 0 0 IL_OPCODE_ARGS_INVALID 1;
   OPDEF "unused_BD" 0 0 IL_OPCODE_ARGS_INVALID 1;
   OPDEF "unused_BE" 0 0 IL_OPCODE_ARGS_INVALID 1;
   OPDEF "unused_BF" 0 0 IL_OPCODE_ARGS_INVALID 1;
   OPDEF "unused_C0" 0 0 IL_OPCODE_ARGS_INVALID 1;
   OPDEF "unused_C1" 0 0 IL_OPCODE_ARGS_INVALID 1;
   OPDEF "refanyval" 1 1 IL_OPCODE_ARGS_TOKEN 5;
   OPDEF "ckfinite" 1 1 IL_OPCODE_ARGS_NONE 1;
   OPDEF "unused_C4" 0 0 IL_OPCODE_ARGS_INVALID 1;
   OPDEF "unused_C5" 0 0 IL_OPCODE_ARGS_INVALID 1;
   OPDEF "mkrefany" 1 1 IL_OPCODE_ARGS_TOKEN 5;
   OPDEF "ann.call" 0 0 IL_OPCODE_ARGS_TOKEN 5;
   OPDEF "ann.catch" 0 0 IL_OPCODE_ARGS_NONE 1;
   OPDEF "ann.dead" 0 0 IL_OPCODE_ARGS_ANN_DEAD 3;
   OPDEF "ann.hoisted" 0 0 IL_OPCODE_ARGS_NONE 1;
   OPDEF "ann.hoisted_call" 0 0 IL_OPCODE_ARGS_TOKEN 5;
   OPDEF "ann.lab" 0 0 IL_OPCODE_ARGS_NONE 1;
   OPDEF "ann.def" 0 0 IL_OPCODE_ARGS_NONE 1;
   OPDEF "ann.ref.s" 0 0 IL_OPCODE_ARGS_ANN_REF 2;
   OPDEF "ann.phi" 0 0 IL_OPCODE_ARGS_ANN_PHI 0;
   OPDEF "ldtoken" 0 1 IL_OPCODE_ARGS_LDTOKEN 5;
   OPDEF "conv.u2" 1 1 IL_OPCODE_ARGS_NONE 1;
   OPDEF "conv.u1" 1 1 IL_OPCODE_ARGS_NONE 1;
   OPDEF "conv.i" 1 1 IL_OPCODE_ARGS_NONE 1;
   OPDEF "conv.ovf.i" 1 1 IL_OPCODE_ARGS_NONE 1;
   OPDEF "conv.ovf.u" 1 1 IL_OPCODE_ARGS_NONE 1;
   OPDEF "add.ovf" 2 1 IL_OPCODE_ARGS_NONE 1;
   OPDEF "add.ovf.un" 2 1 IL_OPCODE_ARGS_NONE 1;
   OPDEF "mul.ovf" 2 1 IL_OPCODE_ARGS_NONE 1;
   OPDEF "mul.ovf.un" 2 1 IL_OPCODE_ARGS_NONE 1;
   OPDEF "sub.ovf" 2 1 IL_OPCODE_ARGS_NONE 1;
   OPDEF "sub.ovf.un" 2 1 IL_OPCODE_ARGS_NONE 1;
   OPDEF "endfinally" 0 0 IL_OPCODE_ARGS_NONE 1;
   OPDEF "leave" 0 0 IL_OPCODE_ARGS_LONG_JUMP 5;
   OPDEF "leave.s" 0 0 IL_OPCODE_ARGS_SHORT_JUMP 2;
   OPDEF "stind.i" 2 0 IL_OPCODE_ARGS_NONE 1;
   OPDEF "conv.u" 1 1 IL_OPCODE_ARGS_NONE 1;
   OPDEF "unused_E1" 0 0 IL_OPCODE_ARGS_INVALID 1;
   OPDEF "unused_E2" 0 0 IL_OPCODE_ARGS_INVALID 1;
   OPDEF "unused_E3" 0 0 IL_OPCODE_ARGS_INVALID 1;
   OPDEF "unused_E4" 0 0 IL_OPCODE_ARGS_INVALID 1;
   OPDEF "unused_E5" 0 0 IL_OPCODE_ARGS_INVALID 1;
   OPDEF "unused_E6" 0 0 IL_OPCODE_ARGS_INVALID 1;
   OPDEF "unused_E7" 0 0 IL_OPCODE_ARGS_INVALID 1;
   OPDEF "unused_E8" 0 0 IL_OPCODE_ARGS_INVALID 1;
   OPDEF "unused_E9" 0 0 IL_OPCODE_ARGS_INVALID 1;
   OPDEF "unused_EA" 0 0 IL_OPCODE_ARGS_INVALID 1;
   OPDEF "unused_EB" 0 0 IL_OPCODE_ARGS_INVALID 1;
   OPDEF "unused_EC" 0 0 IL_OPCODE_ARGS_INVALID 1;
   OPDEF "unused_ED" 0 0 IL_OPCODE_ARGS_INVALID 1;
   OPDEF "unused_EE" 0 0 IL_OPCODE_ARGS_INVALID 1;
   OPDEF "unused_EF" 0 0 IL_OPCODE_ARGS_INVALID 1;
   OPDEF "unused_F0" 0 0 IL_OPCODE_ARGS_INVALID 1;
   OPDEF "unused_F1" 0 0 IL_OPCODE_ARGS_INVALID 1;
   OPDEF "unused_F2" 0 0 IL_OPCODE_ARGS_INVALID 1].

Definition ILMainOpcodeTable_2 : list ILOpcodeInfo :=
  [OPDEF "unused_F3" 0 0 IL_OPCODE_ARGS_INVALID 1;
   OPDEF "unused_F4" 0 0 IL_OPCODE_ARGS_INVALID 1;
   OPDEF "unused_F5" 0 0 IL_OPCODE_ARGS_INVALID 1;
   OPDEF "unused_F6" 0 0 IL_OPCODE_ARGS_INVALID 1;
   OPDEF "unused_F7" 0 0 IL_OPCODE_ARGS_INVALID 1;
   OPDEF "unused_F8" 0 0 IL_OPCODE_ARGS_INVALID 1;
   OPDEF "unused_F9" 0 0 IL_OPCODE_ARGS_INVALID 1;
   OPDEF "unused_FA" 0 0 IL_OPCODE_ARGS_INVALID 1;
   OPDEF "unused_FB" 0 0 IL_OPCODE_ARGS_INVALID 1;
   OPDEF "unused_FC" 0 0 IL_OPCODE_ARGS_INVALID 1;
   OPDEF "unused_FD" 0 0 IL_OPCODE_ARGS_INVALID 1;
   OPDEF "prefix" 0 0 IL_OPCODE_ARGS_INVALID 0;
   OPDEF "unused_FF" 0 0 IL_OPCODE_ARGS_INVALID 1].

Definition ILMainOpcodeTable : list ILOpcodeInfo :=
  ILMainOpcodeTable_0 ++ ILMainOpcodeTable_1 ++ ILMainOpcodeTable_2.

Definition ILPrefixOpcodeTable_0 : list ILOpcodeInfo :=
  [OPDEF "arglist" 0 1 IL_OPCODE_ARGS_NONE 2;
   OPDEF "ceq" 2 1 IL_OPCODE_ARGS_NONE 2;
   OPDEF "cgt" 2 1 IL_OPCODE_ARGS_NONE 2;
   OPDEF "cgt.un" 2 1 IL_OPCODE_ARGS_NONE 2;
   OPDEF "clt" 2 1 IL_OPCODE_ARGS_NONE 2;
   OPDEF "clt.un" 2 1 IL_OPCODE_ARGS_NONE 2;
   OPDEF "ldftn" 0 1 IL_OPCODE_ARGS_TOKEN 6;
   OPDEF "ldvirtftn" 1 1 IL_OPCODE_ARGS_TOKEN 6;
   OPDEF "jmpi" 1 0 IL_OPCODE_ARGS_CALLI 6;
   OPDEF "ldarg" 0 1 IL_OPCODE_ARGS_LONG_VAR 4;
   OPDEF "ldarga" 0 1 IL_OPCODE_ARGS_LONG_VAR 4;
   OPDEF "starg" 1 0 IL_OPCODE_ARGS_LONG_VAR 4;
   OPDEF "ldloc" 0 1 IL_OPCODE_ARGS_LONG_VAR 4;
   OPDEF "ldloca" 0 1 IL_OPCODE_ARGS_LONG_VAR 4;
   OPDEF "stloc" 1 0 IL_OPCODE_ARGS_LONG_VAR 4;
   OPDEF "localloc" 1 1 IL_OPCODE_ARGS_NONE 2;
   OPDEF "unused_prefix_10" 0 0 IL_OPCODE_ARGS_INVALID 2;
   OPDEF "endfilter" 1 0 IL_OPCODE_ARGS_NONE 2;
   OPDEF "unaligned." 0 0 IL_OPCODE_ARGS_UINT8 3;
   OPDEF "volatile." 0 0 IL_OPCODE_ARGS_NONE 2;
   OPDEF "tail." 0 0 IL_OPCODE_ARGS_NONE 2;
   OPDEF "initobj" 1 0 IL_OPCODE_ARGS_TOKEN 6;
   OPDEF "constrained." 0 0 IL_OPCODE_ARGS_TOKEN 6;
   OPDEF "cpblk" 3 0 IL_OPCODE_ARGS_NONE 2;
   OPDEF "initblk" 3 0 IL_OPCODE_ARGS_NONE 2;
   OPDEF "no." 0 0 IL_OPCODE_ARGS_UINT8 3;
   OPDEF "rethrow" 0 0 IL_OPCODE_ARGS_NONE 2;
   OPDEF "unused_prefix_1B" 0 0 IL_OPCODE_ARGS_INVALID 2;
   OPDEF "sizeof" 0 1 IL_OPCODE_ARGS_TOKEN 6;
   OPDEF "refanytype" 1 1 IL_OPCODE_ARGS_NONE 2;
   OPDEF "readonly." 0 0 IL_OPCODE_ARGS_NONE 2;
   OPDEF "unused_prefix_1F" 0 0 IL_OPCODE_ARGS_INVALID 2;
   OPDEF "unused_prefix_20" 0 0 IL_OPCODE_ARGS_INVALID 2;
   OPDEF "unused_prefix_21" 0 0 IL_OPCODE_ARGS_INVALID 2;
   OPDEF "ann.data" 0 0 IL_OPCODE_ARGS_ANN_DATA 0;
   OPDEF "ann.arg" 0 0 IL_OPCODE_ARGS_ANN_ARG 4;
   OPDEF "unused_prefix_24" 0 0 IL_OPCODE_ARGS_INVALID 2;
   OPDEF "unused_prefix_25" 0 0 IL_OPCODE_ARGS_INVALID 2;
   OPDEF "unused_prefix_26" 0 0 IL_OPCODE_ARGS_INVALID 2;
   OPDEF "unused_prefix_27" 0 0 IL_OPCODE_ARGS_INVALID 2;
   OPDEF "unused_prefix_28" 0 0 IL_OPCODE_ARGS_INVALID 2;
   OPDEF "unused_prefix_29" 0 0 IL_OPCODE_ARGS_INVALID 2;
   OPDEF "unused_prefix_2A" 0 0 IL_OPCODE_ARGS_INVALID 2;
   OPDEF "unused_prefix_2B" 0 0 IL_OPCODE_ARGS_INVALID 2;
   OPDEF "unused_prefix_2C" 0 0 IL_OPCODE_ARGS_INVALID 2;
   OPDEF "unused_prefix_2D" 0 0 IL_OPCODE_ARGS_INVALID 2;
   OPDEF "unused_prefix_2E" 0 0 IL_OPCODE_ARGS_INVALID 2;
   OPDEF "unused_prefix_2F" 0 0 IL_OPCODE_ARGS_INVALID 2;
   OPDEF "unused_prefix_30" 0 0 IL_OPCODE_ARGS_INVALID 2;
   OPDEF "unused_prefix_31" 0 0 IL_OPCODE_ARGS_INVALID 2;
   OPDEF "unused_prefix_32" 0 0 IL_OPCODE_ARGS_INVALID 2;
   OPDEF "unused_prefix_33" 0 0 IL_OPCODE_ARGS_INVALID 2;
   OPDEF "unused_prefix_34" 0 0 IL_OPCODE_ARGS_INVALID 2;
   OPDEF "unused_prefix_35" 0 0 IL_OPCODE_ARGS_INVALID 2;
   OPDEF "unused_prefix_36" 0 0 IL_OPCODE_ARGS_INVALID 2;
   OPDEF "unused_prefix_37" 0 0 IL_OPCODE_ARGS_INVALID 2;
   OPDEF "unused_prefix_38" 0 0 IL_OPCODE_ARGS_INVALID 2;
   OPDEF "unused_prefix_39" 0 0 IL_OPCODE_ARGS_INVALID 2;
   OPDEF "unused_prefix_3A" 0 0 IL_OPCODE_ARGS_INVALID 2;
   OPDEF "unused_prefix_3B" 0 0 IL_OPCODE_ARGS_INVALID 2;
   OPDEF "unused_prefix_3C" 0 0 IL_OPCODE_ARGS_INVALID 2;
   OPDEF "unused_prefix_3D" 0 0 IL_OPCODE_ARGS_INVALID 2;
   OPDEF "unused_prefix_3E" 0 0 IL_OPCODE_ARGS_INVALID 2;
   OPDEF "unused_prefix_3F" 0 0 IL_OPCODE_ARGS_INVALID 2;
   OPDEF "unused_prefix_40" 0 0 IL_OPCODE_ARGS_INVALID 2;
   OPDEF "unused_prefix_41" 0 0 IL_OPCODE_ARGS_INVALID 2;
   OPDEF "unused_prefix_42" 0 0 IL_OPCODE_ARGS_INVALID 2;
   OPDEF "unused_prefix_43" 0 0 IL_OPCODE_ARGS_INVALID 2;
   OPDEF "unused_prefix_44" 0 0 IL_OPCODE_ARGS_INVALID 2;
   OPDEF "unused_prefix_45" 0 0 IL_OPCODE_ARGS_INVALID 2;
   OPDEF "unused_prefix_46" 0 0 IL_OPCODE_ARGS_INVALID 2;
   OPDEF "unused_prefix_47" 0 0 IL_OPCODE_ARGS_INVALID 2;
   OPDEF "unused_prefix_48" 0 0 IL_OPCODE_ARGS_INVALID 2;
   OPDEF "unused_prefix_49" 0 0 IL_OPCODE_ARGS_INVALID 2;
   OPDEF "unused_prefix_4A" 0 0 IL_OPCODE_ARGS_INVALID 2;
   OPDEF "unused_prefix_4B" 0 0 IL_OPCODE_ARGS_INVALID 2;
   OPDEF "unused_prefix_4C" 0 0 IL_OPCODE_ARGS_INVALID 2;
   OPDEF "unused_prefix_4D" 0 0 IL_OPCODE_ARGS_INVALID 2;
   OPDEF "unused_prefix_4E" 0 0 IL_OPCODE_ARGS_INVALID 2;
   OPDEF "unused_prefix_4F" 0 0 IL_OPCODE_ARGS_INVALID 2;
   OPDEF "unused_prefix_50" 0 0 IL_OPCODE_ARGS_INVALID 2;
   OPDEF "unused_prefix_51" 0 0 IL_OPCODE_ARGS_INVALID 2;
   OPDEF "unused_prefix_52" 0 0 IL_OPCODE_ARGS_INVALID 2;
   OPDEF "unused_prefix_53" 0 0 IL_OPCODE_ARGS_INVALID 2;
   OPDEF "unused_prefix_54" 0 0 IL_OPCODE_ARGS_INVALID 2;
   OPDEF "unused_prefix_55" 0 0 IL_OPCODE_ARGS_INVALID 2;
   OPDEF "unused_prefix_56" 0 0 IL_OPCODE_ARGS_INVALID 2;
   OPDEF "unused_prefix_57" 0 0 IL_OPCODE_ARGS_INVALID 2;
   OPDEF "unused_prefix_58" 0 0 IL_OPCODE_ARGS_INVALID 2;
   OPDEF "unused_prefix_59" 0 0 IL_OPCODE_ARGS_INVALID 2;
   OPDEF "unused_prefix_5A" 0 0 IL_OPCODE_ARGS_INVALID 2;
   OPDEF "unused_prefix_5B" 0 0 IL_OPCODE_ARGS_INVALID 2;
   OPDEF "unused_prefix_5C" 0 0 IL_OPCODE_ARGS_INVALID 2;
   OPDEF "unused_prefix_5D" 0 0 IL_OPCODE_ARGS_INVALID 2;
   OPDEF "unused_prefix_5E" 0 0 IL_OPCODE_ARGS_INVALID 2;
   OPDEF "unused_prefix_5F" 0 0 IL_OPCODE_ARGS_INVALID 2;
   OPDEF "unused_prefix_60" 0 0 IL_OPCODE_ARGS_INVALID 2;
   OPDEF "unused_prefix_61" 0 0 IL_OPCODE_ARGS_INVALID 2;
   OPDEF "unused_prefix_62" 0 0 IL_OPCODE_ARGS_INVALID 2;
   OPDEF "unused_prefix_63" 0 0 IL_OPCODE_ARGS_INVALID 2;
   OPDEF "unused_prefix_64" 0 0 IL_OPCODE_ARGS_INVALID 2;
   OPDEF "unused_prefix_65" 0 0 IL_OPCODE_ARGS_INVALID 2;
   OPDEF "unused_prefix_66" 0 0 IL_OPCODE_ARGS_INVALID 2;
   OPDEF "unused_prefix_67" 0 0 IL_OPCODE_ARGS_INVALID 2;
   OPDEF "unused_prefix_68" 0 0 IL_OPCODE_ARGS_INVALID 2;
   OPDEF "unused_prefix_69" 0 0 IL_OPCODE_ARGS_INVALID 2;
   OPDEF "unused_prefix_6A" 0 0 IL_OPCODE_ARGS_INVALID 2;
   OPDEF "unused_prefix_6B" 0 0 IL_OPCODE_ARGS_INVALID 2;
   OPDEF "unused_prefix_6C" 0 0 IL_OPCODE_ARGS_INVALID 2;
   OPDEF "unused_prefix_6D" 0 0 IL_OPCODE_ARGS_INVALID 2;
   OPDEF "unused_prefix_6E" 0 0 IL_OPCODE_ARGS_INVALID 2;
   OPDEF "unused_prefix_6F" 0 0 IL_OPCODE_ARGS_INVALID 2;
   OPDEF "unused_prefix_70" 0 0 IL_OPCODE_ARGS_INVALID 2;
   OPDEF "unused_prefix_71" 0 0 IL_OPCODE_ARGS_INVALID 2;
   OPDEF "unused_prefix_72" 0 0 IL_OPCODE_ARGS_INVALID 2;
   OPDEF "unused_prefix_73" 0 0 IL_OPCODE_ARGS_INVALID 2;
   OPDEF "unused_prefix_74" 0 0 IL_OPCODE_ARGS_INVALID 2;
   OPDEF "unused_prefix_75" 0 0 IL_OPCODE_ARGS_INVALID 2;
   OPDEF "unused_prefix_76" 0 0 IL_OPCODE_ARGS_INVALID 2;
   OPDEF "unused_prefix_77" 0 0 IL_OPCODE_ARGS_INVALID 2;
   OPDEF "unused_prefix_78" 0 0 IL_OPCODE_ARGS_INVALID 2;
   OPDEF "unused_prefix_79" 0 0 IL_OPCODE_ARGS_INVALID 2;
   OPDEF "unused_prefix_7A" 0 0 IL_OPCODE_ARGS_INVALID 2].

Definition ILPrefixOpcodeTable_1 : list ILOpcodeInfo :=
  [OPDEF "unused_prefix_7B" 0 0 IL_OPCODE_ARGS_INVALID 2;
   OPDEF "unused_prefix_7C" 0 0 IL_OPCODE_ARGS_INVALID 2;
   OPDEF "unused_prefix_7D" 0 0 IL_OPCODE_ARGS_INVALID 2;
   OPDEF "unused_prefix_7E" 0 0 IL_OPCODE_ARGS_INVALID 2;
   OPDEF "unused_prefix_7F" 0 0 IL_OPCODE_ARGS_INVALID 2;
   OPDEF "unused_prefix_80" 0 0 IL_OPCODE_ARGS_INVALID 2;
   OPDEF "unused_prefix_81" 0 0 IL_OPCODE_ARGS_INVALID 2;
   OPDEF "unused_prefix_82" 0 0 IL_OPCODE_ARGS_INVALID 2;
   OPDEF "unused_prefix_83" 0 0 IL_OPCODE_ARGS_INVALID 2;
   OPDEF "unused_prefix_84" 0 0 IL_OPCODE_ARGS_INVALID 2;
   OPDEF "unused_prefix_85" 0 0 IL_OPCODE_ARGS_INVALID 2;
   OPDEF "unused_prefix_86" 0 0 IL_OPCODE_ARGS_INVALID 2;
   OPDEF "unused_prefix_87" 0 0 IL_OPCODE_ARGS_INVALID 2;
   OPDEF "unused_prefix_88" 0 0 IL_OPCODE_ARGS_INVALID 2;
   OPDEF "unused_prefix_89" 0 0 IL_OPCODE_ARGS_INVALID 2;
   OPDEF "unused_prefix_8A" 0 0 IL_OPCODE_ARGS_INVALID 2;
   OPDEF "unused_prefix_8B" 0 0 IL_OPCODE_ARGS_INVALID 2;
   OPDEF "unused_prefix_8C" 0 0 IL_OPCODE_ARGS_INVALID 2;
   OPDEF "unused_prefix_8D" 0 0 IL_OPCODE_ARGS_INVALID 2;
   OPDEF "unused_prefix_8E" 0 0 IL_OPCODE_ARGS_INVALID 2;
   OPDEF "unused_prefix_8F" 0 0 IL_OPCODE_ARGS_INVALID 2;
   OPDEF "unused_prefix_90" 0 0 IL_OPCODE_ARGS_INVALID 2;
   OPDEF "unused_prefix_91" 0 0 IL_OPCODE_ARGS_INVALID 2;
   OPDEF "unused_prefix_92" 0 0 IL_OPCODE_ARGS_INVALID 2;
   OPDEF "unused_prefix_93" 0 0 IL_OPCODE_ARGS_INVALID 2;
   OPDEF "unused_prefix_94" 0 0 IL_OPCODE_ARGS_INVALID 2;
   OPDEF "unused_prefix_95" 0 0 IL_OPCODE_ARGS_INVALID 2;
   OPDEF "unused_prefix_96" 0 0 IL_OPCODE_ARGS_INVALID 2;
   OPDEF "unused_prefix_97" 0 0 IL_OPCODE_ARGS_INVALID 2;
   OPDEF "unused_prefix_98" 0 0 IL_OPCODE_ARGS_INVALID 2;
   OPDEF "unused_prefix_99" 0 0 IL_OPCODE_ARGS_INVALID 2;
   OPDEF "unused_prefix_9A" 0 0 IL_OPCODE_ARGS_INVALID 2;
   OPDEF "unused_prefix_9B" 0 0 IL_OPCODE_ARGS_INVALID 2;
   OPDEF "unused_prefix_9C" 0 0 IL_OPCODE_ARGS_INVALID 2;
   OPDEF "unused_prefix_9D" 0 0 IL_OPCODE_ARGS_INVALID 2;
   OPDEF "unused_prefix_9E" 0 0 IL_OPCODE_ARGS_INVALID 2;
   OPDEF "unused_prefix_9F" 0 0 IL_OPCODE_ARGS_INVALID 2;
   OPDEF "unused_prefix_A0" 0 0 IL_OPCODE_ARGS_INVALID 2;
   OPDEF "unused_prefix_A1" 0 0 IL_OPCODE_ARGS_INVALID 2;
   OPDEF "unused_prefix_A2" 0 0 IL_OPCODE_ARGS_INVALID 2;
   OPDEF "unused_prefix_A3" 0 0 IL_OPCODE_ARGS_INVALID 2;
   OPDEF "unused_prefix_A4" 0 0 IL_OPCODE_ARGS_INVALID 2;
   OPDEF "unused_prefix_A5" 0 0 IL_OPCODE_ARGS_INVALID 2;
   OPDEF "unused_prefix_A6" 0 0 IL_OPCODE_ARGS_INVALID 2;
   OPDEF "unused_prefix_A7" 0 0 IL_OPCODE_ARGS_INVALID 2;
   OPDEF "unused_prefix_A8" 0 0 IL_OPCODE_ARGS_INVALID 2;
   OPDEF "unused_prefix_A9" 0 0 IL_OPCODE_ARGS_INVALID 2;
   OPDEF "unused_prefix_AA" 0 0 IL_OPCODE_ARGS_INVALID 2;
   OPDEF "unused_prefix_AB" 0 0 IL_OPCODE_ARGS_INVALID 2;
   OPDEF "unused_prefix_AC" 0 0 IL_OPCODE_ARGS_INVALID 2;
   OPDEF "unused_prefix_AD" 0 0 IL_OPCODE_ARGS_INVALID 2;
   OPDEF "unused_prefix_AE" 0 0 IL_OPCODE_ARGS_INVALID 2;
   OPDEF "unused_prefix_AF" 0 0 IL_OPCODE_ARGS_INVALID 2;
   OPDEF "unused_prefix_B0" 0 0 IL_OPCODE_ARGS_INVALID 2;
   OPDEF "unused_prefix_B1" 0 0 IL_OPCODE_ARGS_INVALID 2;
   OPDEF "unused_prefix_B2" 0 0 IL_OPCODE_ARGS_INVALID 2;
   OPDEF "unused_prefix_B3" 0 0 IL_OPCODE_ARGS_INVALID 2;
   OPDEF "unused_prefix_B4" 0 0 IL_OPCODE_ARGS_INVALID 2;
   OPDEF "unused_prefix_B5" 0 0 IL_OPCODE_ARGS_INVALID 2;
   OPDEF "unused_prefix_B6" 0 0 IL_OPCODE_ARGS_INVALID 2;
   OPDEF "unused_prefix_B7" 0 0 IL_OPCODE_ARGS_INVALID 2;
   OPDEF "unused_prefix_B8" 0 0 IL_OPCODE_ARGS_INVALID 2;
   OPDEF "unused_prefix_B9" 0 0 IL_OPCODE_ARGS_INVALID 2;
   OPDEF "unused_prefix_BA" 0 0 IL_OPCODE_ARGS_INVALID 2;
   OPDEF "unused_prefix_BB" 0 0 IL_OPCODE_ARGS_INVALID 2;
   OPDEF "unused_prefix_BC" 0 0 IL_OPCODE_ARGS_INVALID 2;
   OPDEF "unused_prefix_BD" 0 0 IL_OPCODE_ARGS_INVALID 2;
   OPDEF "unused_prefix_BE" 0 0 IL_OPCODE_ARGS_INVALID 2;
   OPDEF "unused_prefix_BF" 0 0 IL_OPCODE_ARGS_INVALID 2;
   OPDEF "unused_prefix_C0" 0 0 IL_OPCODE_ARGS_INVALID 2;
   OPDEF "unused_prefix_C1" 0 0 IL_OPCODE_ARGS_INVALID 2;
   OPDEF "unused_prefix_C2" 0 0 IL_OPCODE_ARGS_INVALID 2;
   OPDEF "unused_prefix_C3" 0 0 IL_OPCODE_ARGS_INVALID 2;
   OPDEF "unused_prefix_C4" 0 0 IL_OPCODE_ARGS_INVALID 2;
   OPDEF "unused_prefix_C5" 0 0 IL_OPCODE_ARGS_INVALID 2;
   OPDEF "unused_prefix_C6" 0 0 IL_OPCODE_ARGS_INVALID 2;
   OPDEF "unused_prefix_C7" 0 0 IL_OPCODE_ARGS_INVALID 2;
   OPDEF "unused_prefix_C8" 0 0 IL_OPCODE_ARGS_INVALID 2;
   OPDEF "unused_prefix_C9" 0 0 IL_OPCODE_ARGS_INVALID 2;
   OPDEF "unused_prefix_CA" 0 0 IL_OPCODE_ARGS_INVALID 2;
   OPDEF "unused_prefix_CB" 0 0 IL_OPCODE_ARGS_INVALID 2;
   OPDEF "unused_prefix_CC" 0 0 IL_OPCODE_ARGS_INVALID 2;
   OPDEF "unused_prefix_CD" 0 0 IL_OPCODE_ARGS_INVALID 2;
   OPDEF "unused_prefix_CE" 0 0 IL_OPCODE_ARGS_INVALID 2;
   OPDEF "unused_prefix_CF" 0 0 IL_OPCODE_ARGS_INVALID 2;
   OPDEF "unused_prefix_D0" 0 0 IL_OPCODE_ARGS_INVALID 2;
   OPDEF "unused_prefix_D1" 0 0 IL_OPCODE_ARGS_INVALID 2;
   OPDEF "unused_prefix_D2" 0 0 IL_OPCODE_ARGS_INVALID 2;
   OPDEF "unused_prefix_D3" 0 0 IL_OPCODE_ARGS_INVALID 2;
   OPDEF "unused_prefix_D4" 0 0 IL_OPCODE_ARGS_INVALID 2;
   OPDEF "unused_prefix_D5" 0 0 IL_OPCODE_ARGS_INVALID 2;
   OPDEF "unused_prefix_D6" 0 0 IL_OPCODE_ARGS_INVALID 2;
   OPDEF "unused_prefix_D7" 0 0 IL_OPCODE_ARGS_INVALID 2;
   OPDEF "unused_prefix_D8" 0 0 IL_OPCODE_ARGS_INVALID 2;
   OPDEF "unused_prefix_D9" 0 0 IL_OPCODE_ARGS_INVALID 2;
   OPDEF "unused_prefix_DA" 0 0 IL_OPCODE_ARGS_INVALID 2;
   OPDEF "unused_prefix_DB" 0 0 IL_OPCODE_ARGS_INVALID 2;
   OPDEF "unused_prefix_DC" 0 0 IL_OPCODE_ARGS_INVALID 2;
   OPDEF "unused_prefix_DD" 0 0 IL_OPCODE_ARGS_INVALID 2;
   OPDEF "unused_prefix_DE" 0 0 IL_OPCODE_ARGS_INVALID 2;
   OPDEF "unused_prefix_DF" 0 0 IL_OPCODE_ARGS_INVALID 2;
   OPDEF "unused_prefix_E0" 0 0 IL_OPCODE_ARGS_INVALID 2;
   OPDEF "unused_prefix_E1" 0 0 IL_OPCODE_ARGS_INVALID 2;
   OPDEF "unused_prefix_E2" 0 0 IL_OPCODE_ARGS_INVALID 2;
   OPDEF "unused_prefix_E3" 0 0 IL_OPCODE_ARGS_INVALID 2;
   OPDEF "unused_prefix_E4" 0 0 IL_OPCODE_ARGS_INVALID 2;
   OPDEF "unused_prefix_E5" 0 0 IL_OPCODE_ARGS_INVALID 2;
   OPDEF "unused_prefix_E6" 0 0 IL_OPCODE_ARGS_INVALID 2;
   OPDEF "unused_prefix_E7" 0 0 IL_OPCODE_ARGS_INVALID 2;
   OPDEF "unused_prefix_E8" 0 0 IL_OPCODE_ARGS_INVALID 2;
   OPDEF "unused_prefix_E9" 0 0 IL_OPCODE_ARGS_INVALID 2;
   OPDEF "unused_prefix_EA" 0 0 IL_OPCODE_ARGS_INVALID 2;
   OPDEF "unused_prefix_EB" 0 0 IL_OPCODE_ARGS_INVALID 2;
   OPDEF "unused_prefix_EC" 0 0 IL_OPCODE_ARGS_INVALID 2;
   OPDEF "unused_prefix_ED" 0 0 IL_OPCODE_ARGS_INVALID 2;
   OPDEF "unused_prefix_EE" 0 0 IL_OPCODE_ARGS_INVALID 2;
   OPDEF "unused_prefix_EF" 0 0 IL_OPCODE_ARGS_INVALID 2;
   OPDEF "unused_prefix_F0" 0 0 IL_OPCODE_ARGS_INVALID 2;
   OPDEF "unused_prefix_F1" 0 0 IL_OPCODE_ARGS_INVALID 2;
   OPDEF "unused_prefix_F2" 0 0 IL_OPCODE_ARGS_INVALID 2;
   OPDEF "unused_prefix_F3" 0 0 IL_OPCODE_ARGS_INVALID 2;
   OPDEF "unused_prefix_F4" 0 0 IL_OPCODE_ARGS_INVALID 2;
   OPDEF "unused_prefix_F5" 0 0 IL_OPCODE_ARGS_INVALID 2;
   OPDEF "unused_prefix_F6" 0 0 IL_OPCODE_ARGS_INVALID 2;
   OPDEF "unused_prefix_F7" 0 0 IL_OPCODE_ARGS_INVALID 2;
   OPDEF "unused_prefix_F8" 0 0 IL_OPCODE_ARGS_INVALID 2;
   OPDEF "unused_prefix_F9" 0 0 IL_OPCODE_ARGS_INVALID 2;
   OPDEF "unused_prefix_FA" 0 0 IL_OPCODE_ARGS_INVALID 2;
   OPDEF "unused_prefix_FB" 0 0 IL_OPCODE_ARGS_INVALID 2;
   OPDEF "unused_prefix_FC" 0 0 IL_OPCODE_ARGS_INVALID 2;
   OPDEF "unused_prefix_FD" 0 0 IL_OPCODE_ARGS_INVALID 2;
   OPDEF "unused_prefix_FE" 0 0 IL_OPCODE_ARGS_INVALID 2].

Definition ILPrefixOpcodeTable_2 : list ILOpcodeInfo :=
  [OPDEF "unused_prefix_FF" 0 0 IL_OPCODE_ARGS_INVALID 2].

Definition ILPrefixOpcodeTable : list ILOpcodeInfo :=
  ILPrefixOpcodeTable_0 ++ ILPrefixOpcodeTable_1 ++ ILPrefixOpcodeTable_2.

End OpTable.
