(* ===== verification/Cvm.v ===== *)
(** * The Converted Virtual Machine: words, stack, formats (engine/cvm.h, cvm.c, cvm_format.h)

    The machine state of [Interpreter] in engine/cvm.c, for the bytecode form
    of the instructions (IL_CVM_DIRECT not defined).  The stack area is a
    zipper at [stacktop]: [below] holds [stacktop[-1]], [stacktop[-2]], ...
    down to the base and [above] holds [stacktop[0]], [stacktop[1]], ... up to
    [stackmax].  A stack word is the unsigned number its bytes make on a
    little-endian machine (CVM_LITTLE_ENDIAN); its members [intValue] and
    [uintValue] are the low 32 bits, [ptrValue] the low pointer-size bits, and
    a store through a member leaves the other bytes of the word alone.
    [None] is a reach outside the stack area or the code. *)
From Stdlib Require Import ZArith Lia.
From stdpp Require Import base list option numbers.
From S2P Require Import Prelude Opcodes.

Local Open Scope Z_scope.

(** ** The build configuration

    [IL_NATIVE_INT64], sizeof(CVMWord) and sizeof(ILNativeFloat).  CVMWord is
    padded to IL_BEST_ALIGNMENT except on i386 and ARM EABI, where it is a
    32-bit word. *)
Class Platform := {
  IL_NATIVE_INT64 : bool;
  sizeof_CVMWord : Z;
  sizeof_ILNativeFloat : Z;
  sizeof_CVMWord_ok :
    sizeof_CVMWord = 4 /\ IL_NATIVE_INT64 = false \/ sizeof_CVMWord = 8 \/ sizeof_CVMWord = 16;
  sizeof_ILNativeFloat_ok : 8 <= sizeof_ILNativeFloat;
}.

(** The i386 and x86-64 builds, where ILNativeFloat is [long double]. *)
#[export] Instance i386 : Platform | 20 := {
  IL_NATIVE_INT64 := false; sizeof_CVMWord := 4; sizeof_ILNativeFloat := 12;
  sizeof_CVMWord_ok := or_introl (conj eq_refl eq_refl);
  sizeof_ILNativeFloat_ok := Zle_bool_imp_le 8 12 eq_refl }.

#[export] Instance x86_64 : Platform | 10 := {
  IL_NATIVE_INT64 := true; sizeof_CVMWord := 16; sizeof_ILNativeFloat := 16;
  sizeof_CVMWord_ok := or_intror (or_intror eq_refl);
  sizeof_ILNativeFloat_ok := Zle_bool_imp_le 8 16 eq_refl }.

(** Exceptions the interpreter raises itself. *)
Inductive exn :=
  | OverflowException
  | ArithmeticException
  | DivideByZeroException
  | StackOverflowException.

(** [pc], [frame], [stacktop] and [stackmax]; the code is an argument. *)
Record cvm := mk_cvm { pc : Z; frame : Z; below : list Z; above : list Z }.

(** What one instruction does: go on, or jump to a throw label. *)
Inductive outcome :=
  | Next (st : cvm)
  | Throw (e : exn) (st : cvm).

Section Machine.
Context `{Platform}.

Definition CVM_WORDS_PER_LONG : Z := (8 + sizeof_CVMWord - 1) / sizeof_CVMWord.
Definition CVM_WORDS_PER_NATIVE_FLOAT : Z :=
  (sizeof_ILNativeFloat + sizeof_CVMWord - 1) / sizeof_CVMWord.
Definition CVM_WORDS_PER_NATIVE_INT : Z :=
  if IL_NATIVE_INT64 then CVM_WORDS_PER_LONG else 1.

(** ** Stack words *)

(** [stacktop[k]]. *)
Definition word (st : cvm) (k : Z) : option Z :=
  if k <? 0 then below st !! Z.to_nat (- k - 1) else above st !! Z.to_nat k.

Definition list_store (l : list Z) (i : nat) (w : Z) : option (list Z) :=
  if Nat.ltb i (length l) then Some (<[i := w]> l) else None.

(** [stacktop[k] = w]. *)
Definition set_word (st : cvm) (k w : Z) : option cvm :=
  if k <? 0 then
    l ← list_store (below st) (Z.to_nat (- k - 1)) w;
    Some (mk_cvm (pc st) (frame st) l (above st))
  else
    l ← list_store (above st) (Z.to_nat k) w;
    Some (mk_cvm (pc st) (frame st) (below st) l).

(** Store the low [n] bits of a word. *)
Definition set_low (n w v : Z) : Z := w - w mod 2 ^ n + v mod 2 ^ n.

(** The members of the CVMWord union. *)
Definition intValue (st : cvm) (k : Z) : option Z := w ← word st k; Some (i32 w).
Definition uintValue (st : cvm) (k : Z) : option Z := w ← word st k; Some (u32 w).
Definition ptrValue (st : cvm) (k : Z) : option Z :=
  w ← word st k; Some (if IL_NATIVE_INT64 then u64 w else u32 w).

Definition set_intValue (st : cvm) (k v : Z) : option cvm :=
  w ← word st k; set_word st k (set_low 32 w v).
Definition set_ptrValue (st : cvm) (k v : Z) : option cvm :=
  w ← word st k; set_word st k (set_low (if IL_NATIVE_INT64 then 64 else 32) w v).

(** [ReadULong(&stacktop[k])] and [WriteULong], over one or two words. *)
Definition ReadULong (st : cvm) (k : Z) : option Z :=
  if CVM_WORDS_PER_LONG =? 1 then w ← word st k; Some (u64 w)
  else
    lo ← word st k;
    hi ← word st (k + 1);
    Some (u32 lo + Z.shiftl (u32 hi) 32).

Definition ReadLong (st : cvm) (k : Z) : option Z := v ← ReadULong st k; Some (i64 v).

Definition WriteULong (st : cvm) (k v : Z) : option cvm :=
  if CVM_WORDS_PER_LONG =? 1 then w ← word st k; set_word st k (set_low 64 w v)
  else
    st ← set_word st k (u32 v);
    set_word st (k + 1) (u32 (Z.shiftr v 32)).

Definition WriteLong : cvm -> Z -> Z -> option cvm := WriteULong.

(** [IL_MEMCPY(&stacktop[dst], &stacktop[src], sizeof(CVMWord) * n)], and the
    zeroing of [n] words. *)
Fixpoint memcpy_words (n : nat) (st : cvm) (dst src : Z) : option cvm :=
  match n with
  | O => Some st
  | S n =>
    w ← word st src;
    st ← set_word st dst w;
    memcpy_words n st (dst + 1) (src + 1)
  end.

Fixpoint memzero_words (n : nat) (st : cvm) (dst : Z) : option cvm :=
  match n with
  | O => Some st
  | S n => st ← set_word st dst 0; memzero_words n st (dst + 1)
  end.

(** [stacktop += n]. *)
Definition move_stack (st : cvm) (n : Z) : option cvm :=
  if n <? 0 then
    let m := Z.to_nat (- n) in
    if Nat.leb m (length (below st)) then
      Some (mk_cvm (pc st) (frame st) (drop m (below st))
                   (rev (take m (below st)) ++ above st))
    else None
  else
    let m := Z.to_nat n in
    if Nat.leb m (length (above st)) then
      Some (mk_cvm (pc st) (frame st) (rev (take m (above st)) ++ below st)
                   (drop m (above st)))
    else None.

Definition set_pc (st : cvm) (p : Z) : cvm := mk_cvm p (frame st) (below st) (above st).

Definition MODIFY_PC_AND_STACK (st : cvm) (pcmod stkmod : Z) : option outcome :=
  st ← move_stack st stkmod; Some (Next (set_pc st (pc st + pcmod))).

(** The index from [stacktop] of [frame[n]]. *)
Definition frame_at (st : cvm) (n : Z) : Z := frame st + n - Z.of_nat (length (below st)).

Definition OVERFLOW_EXCEPTION (st : cvm) : option outcome := Some (Throw OverflowException st).
Definition ARITHMETIC_EXCEPTION (st : cvm) : option outcome :=
  Some (Throw ArithmeticException st).
Definition ZERO_DIV_EXCEPTION (st : cvm) : option outcome :=
  Some (Throw DivideByZeroException st).
Definition STACK_OVERFLOW_EXCEPTION (st : cvm) : option outcome :=
  Some (Throw StackOverflowException st).

End Machine.

(** ** Instruction formats (cvm_format.h) *)

Definition CVM_LEN_NONE : Z := 1.
Definition CVM_LEN_BYTE : Z := 2.
Definition CVM_LEN_WORD : Z := 5.
Definition CVM_LEN_WIDE_SMALL : Z := 2.
Definition CVM_LEN_WIDE_LARGE : Z := 6.
Definition CVM_LEN_DWIDE_SMALL : Z := 3.
Definition CVM_LEN_DWIDE_LARGE : Z := 10.
Definition CVM_LEN_LONG : Z := 9.
Definition CVM_LEN_BRANCH : Z := 6.
Definition CVMP_LEN_NONE : Z := 2.
Definition CVMP_LEN_WORD : Z := 6.

(** [pc[i]]. *)
Definition pc_at (code : list Z) (p i : Z) : option Z :=
  if 0 <=? p + i then code !! Z.to_nat (p + i) else None.

(** [IL_READ_UINT32(pc + i)] and [IL_READ_INT64(pc + i)]. *)
Definition pc_uint32 (code : list Z) (p i : Z) : option Z :=
  b0 ← pc_at code p i;
  b1 ← pc_at code p (i + 1);
  b2 ← pc_at code p (i + 2);
  b3 ← pc_at code p (i + 3);
  Some (IL_READ_UINT32 b0 b1 b2 b3).

Definition pc_int64 (code : list Z) (p i : Z) : option Z :=
  b0 ← pc_at code p i;
  b1 ← pc_at code p (i + 1);
  b2 ← pc_at code p (i + 2);
  b3 ← pc_at code p (i + 3);
  b4 ← pc_at code p (i + 4);
  b5 ← pc_at code p (i + 5);
  b6 ← pc_at code p (i + 6);
  b7 ← pc_at code p (i + 7);
  Some (IL_READ_INT64 b0 b1 b2 b3 b4 b5 b6 b7).

Definition CVM_ARG_SUB_OPCODE (code : list Z) (p : Z) : option Z := pc_at code p 1.
Definition CVM_ARG_BYTE (code : list Z) (p : Z) : option Z := b ← pc_at code p 1; Some (u8 b).
Definition CVM_ARG_SBYTE (code : list Z) (p : Z) : option Z := b ← pc_at code p 1; Some (i8 b).
Definition CVM_ARG_BYTE2 (code : list Z) (p : Z) : option Z := b ← pc_at code p 2; Some (u8 b).
Definition CVM_ARG_WORD (code : list Z) (p : Z) : option Z := pc_uint32 code p 1.
Definition CVM_ARG_WIDE_SMALL : list Z -> Z -> option Z := CVM_ARG_BYTE.
Definition CVM_ARG_WIDE_LARGE (code : list Z) (p : Z) : option Z := pc_uint32 code p 2.
Definition CVM_ARG_DWIDE1_SMALL : list Z -> Z -> option Z := CVM_ARG_BYTE.
Definition CVM_ARG_DWIDE2_SMALL : list Z -> Z -> option Z := CVM_ARG_BYTE2.
Definition CVM_ARG_DWIDE1_LARGE (code : list Z) (p : Z) : option Z := pc_uint32 code p 2.
Definition CVM_ARG_DWIDE2_LARGE (code : list Z) (p : Z) : option Z := pc_uint32 code p 6.
Definition CVM_ARG_LONG (code : list Z) (p : Z) : option Z := pc_int64 code p 1.
Definition CVM_ARG_BRANCH_SHORT (code : list Z) (p : Z) : option Z :=
  d ← CVM_ARG_SBYTE code p; Some (p + d).
Definition CVM_ARG_BRANCH_LONG (code : list Z) (p : Z) : option Z :=
  d ← pc_uint32 code p 2; Some (p + i32 d).
Definition CVM_ARG_SWITCH_LIMIT (code : list Z) (p : Z) : option Z := pc_uint32 code p 1.
Definition CVM_ARG_SWITCH_DEFAULT (code : list Z) (p : Z) : option Z :=
  d ← pc_uint32 code p 5; Some (p + i32 d).
Definition CVM_ARG_SWITCH_DEST (code : list Z) (p n : Z) : option Z :=
  d ← pc_uint32 code p (9 + n * 4); Some (p + i32 d).
Definition CVMP_ARG_WORD (code : list Z) (p : Z) : option Z := pc_uint32 code p 2.
