(* ===== verification/CvmArith.v ===== *)
(** * Arithmetic instructions of the CVM (engine/cvm_arith.c)

    One definition per helper function and one [exec_*] per [VMCASE].  Signed
    C arithmetic that overflows is taken to wrap, as the overflow tests of the
    source assume; [>>] of a signed value is the arithmetic shift.  The
    floating point instructions are not modelled. *)
From Stdlib Require Import ZArith Lia.
From stdpp Require Import base list option numbers.
From S2P Require Import Prelude MulLong Opcodes Cvm.

Local Open Scope Z_scope.

(** ** Overflow tests on 32-bit operands

    The value stored through [result] (if any) and the value returned. *)

Definition IAddOvf (a b : Z) : Z * bool :=
  let r := i32 (a + b) in
  if (0 <=? a) && (0 <=? b) then (r, a <=? r)
  else if (a <? 0) && (b <? 0) then (r, r <? a)
  else (r, true).

Definition IUAddOvf (a b : Z) : Z * bool :=
  let r := u32 (a + b) in (r, a <=? r).

Definition ISubOvf (a b : Z) : Z * bool :=
  let r := i32 (a - b) in
  if (0 <=? a) && (0 <=? b) then (r, true)
  else if (a <? 0) && (b <? 0) then (r, true)
  else if a <? 0 then (r, r <=? a)
  else (r, a <=? r).

Definition IUSubOvf (a b : Z) : Z * bool :=
  let r := u32 (a - b) in (r, r <=? a).

Definition IMulOvf (a b : Z) : option Z :=
  let temp := i64 (a * b) in
  if (IL_MIN_INT32 <=? temp) && (temp <=? IL_MAX_INT32) then Some (i32 temp) else None.

Definition IUMulOvf (a b : Z) : option Z :=
  let temp := u64 (a * b) in
  if temp <=? IL_MAX_UINT32 then Some (u32 temp) else None.

Section Arith.
Context `{Platform}.

(** ** Operations on longs, in place at stack positions [a] and [b]

    The second component is the value returned. *)

Definition LAddOvf (st : cvm) (a b : Z) : option (cvm * bool) :=
  tempa ← ReadLong st a;
  tempb ← ReadLong st b;
  let result := i64 (tempa + tempb) in
  if (0 <=? tempa) && (0 <=? tempb) && (result <? tempa) then Some (st, false)
  else if (tempa <? 0) && (tempb <? 0) && (tempa <=? result) then Some (st, false)
  else st ← WriteLong st a result; Some (st, true).

Definition LUAddOvf (st : cvm) (a b : Z) : option (cvm * bool) :=
  tempa ← ReadULong st a;
  tempb ← ReadULong st b;
  let result := u64 (tempa + tempb) in
  if result <? tempa then Some (st, false)
  else st ← WriteULong st a result; Some (st, true).

Definition LSubOvf (st : cvm) (a b : Z) : option (cvm * bool) :=
  tempa ← ReadLong st a;
  tempb ← ReadLong st b;
  let result := i64 (tempa - tempb) in
  if (0 <=? tempa) && (0 <=? tempb) then
    st ← WriteLong st a result; Some (st, true)
  else if (tempa <? 0) && (tempb <? 0) then
    st ← WriteLong st a result; Some (st, true)
  else if tempa <? 0 then
    if tempa <? result then Some (st, false)
    else st ← WriteLong st a result; Some (st, true)
  else
    if result <? tempa then Some (st, false)
    else st ← WriteLong st a result; Some (st, true).

Definition LUSubOvf (st : cvm) (a b : Z) : option (cvm * bool) :=
  tempa ← ReadULong st a;
  tempb ← ReadULong st b;
  let result := u64 (tempa - tempb) in
  if tempa <? result then Some (st, false)
  else st ← WriteULong st a result; Some (st, true).

Definition LMulOvf (st : cvm) (a b : Z) : option (cvm * bool) :=
  x ← ReadLong st a;
  y ← ReadLong st b;
  match ILInt64MulOvf x y with
  | None => Some (st, false)
  | Some result => st ← WriteLong st a result; Some (st, true)
  end.

Definition LUMulOvf (st : cvm) (a b : Z) : option (cvm * bool) :=
  x ← ReadULong st a;
  y ← ReadULong st b;
  match ILUInt64MulOvf x y with
  | None => Some (st, false)
  | Some result => st ← WriteULong st a result; Some (st, true)
  end.

Definition LDiv (st : cvm) (a b : Z) : option (cvm * Z) :=
  tempa ← ReadLong st a;
  tempb ← ReadLong st b;
  if tempb =? 0 then Some (st, 0)
  else if (tempb =? -1) && (tempa =? IL_MIN_INT64) then Some (st, -1)
  else st ← WriteLong st a (Z.quot tempa tempb); Some (st, 1).

Definition LUDiv (st : cvm) (a b : Z) : option (cvm * bool) :=
  tempa ← ReadULong st a;
  tempb ← ReadULong st b;
  if tempb =? 0 then Some (st, false)
  else st ← WriteULong st a (tempa / tempb); Some (st, true).

Definition LRem (st : cvm) (a b : Z) : option (cvm * Z) :=
  tempa ← ReadLong st a;
  tempb ← ReadLong st b;
  if tempb =? 0 then Some (st, 0)
  else if (tempb =? -1) && (tempa =? IL_MIN_INT64) then Some (st, -1)
  else st ← WriteLong st a (Z.rem tempa tempb); Some (st, 1).

Definition LURem (st : cvm) (a b : Z) : option (cvm * bool) :=
  tempa ← ReadULong st a;
  tempb ← ReadULong st b;
  if tempb =? 0 then Some (st, false)
  else st ← WriteULong st a (tempa mod tempb); Some (st, true).

Definition LShiftLeft (st : cvm) (a shiftBy : Z) : option cvm :=
  tempa ← ReadLong st a; WriteLong st a (Z.shiftl tempa shiftBy).

Definition LShiftRight (st : cvm) (a shiftBy : Z) : option cvm :=
  tempa ← ReadLong st a; WriteLong st a (Z.shiftr tempa shiftBy).

Definition LUShiftRight (st : cvm) (a shiftBy : Z) : option cvm :=
  tempa ← ReadULong st a; WriteULong st a (Z.shiftr tempa shiftBy).

(** ** Instructions *)

Definition exec_IADD (code : list Z) (st : cvm) : option outcome :=
  a ← intValue st (-2);
  b ← intValue st (-1);
  st ← set_intValue st (-2) (a + b);
  MODIFY_PC_AND_STACK st CVM_LEN_NONE (-1).

Definition exec_IADD_OVF (code : list Z) (st : cvm) : option outcome :=
  a ← intValue st (-2);
  b ← intValue st (-1);
  let '(result, ok) := IAddOvf a b in
  st ← set_intValue st (-2) result;
  if ok then MODIFY_PC_AND_STACK st CVM_LEN_NONE (-1) else OVERFLOW_EXCEPTION st.

Definition exec_IADD_OVF_UN (code : list Z) (st : cvm) : option outcome :=
  a ← uintValue st (-2);
  b ← uintValue st (-1);
  let '(result, ok) := IUAddOvf a b in
  st ← set_intValue st (-2) result;
  if ok then MODIFY_PC_AND_STACK st CVM_LEN_NONE (-1) else OVERFLOW_EXCEPTION st.

Definition exec_ISUB (code : list Z) (st : cvm) : option outcome :=
  a ← intValue st (-2);
  b ← intValue st (-1);
  st ← set_intValue st (-2) (a - b);
  MODIFY_PC_AND_STACK st CVM_LEN_NONE (-1).

Definition exec_ISUB_OVF (code : list Z) (st : cvm) : option outcome :=
  a ← intValue st (-2);
  b ← intValue st (-1);
  let '(result, ok) := ISubOvf a b in
  st ← set_intValue st (-2) result;
  if ok then MODIFY_PC_AND_STACK st CVM_LEN_NONE (-1) else OVERFLOW_EXCEPTION st.

Definition exec_ISUB_OVF_UN (code : list Z) (st : cvm) : option outcome :=
  a ← uintValue st (-2);
  b ← uintValue st (-1);
  let '(result, ok) := IUSubOvf a b in
  st ← set_intValue st (-2) result;
  if ok then MODIFY_PC_AND_STACK st CVM_LEN_NONE (-1) else OVERFLOW_EXCEPTION st.

Definition exec_IMUL (code : list Z) (st : cvm) : option outcome :=
  a ← intValue st (-2);
  b ← intValue st (-1);
  st ← set_intValue st (-2) (a * b);
  MODIFY_PC_AND_STACK st CVM_LEN_NONE (-1).

Definition exec_IMUL_OVF (code : list Z) (st : cvm) : option outcome :=
  a ← intValue st (-2);
  b ← intValue st (-1);
  match IMulOvf a b with
  | Some result =>
    st ← set_intValue st (-2) result; MODIFY_PC_AND_STACK st CVM_LEN_NONE (-1)
  | None => OVERFLOW_EXCEPTION st
  end.

Definition exec_IMUL_OVF_UN (code : list Z) (st : cvm) : option outcome :=
  a ← uintValue st (-2);
  b ← uintValue st (-1);
  match IUMulOvf a b with
  | Some result =>
    st ← set_intValue st (-2) result; MODIFY_PC_AND_STACK st CVM_LEN_NONE (-1)
  | None => OVERFLOW_EXCEPTION st
  end.

Definition exec_IDIV (code : list Z) (st : cvm) : option outcome :=
  a ← intValue st (-2);
  b ← intValue st (-1);
  if negb (b =? 0) then
    if negb (b =? -1) || negb (a =? IL_MIN_INT32) then
      st ← set_intValue st (-2) (Z.quot a b);
      MODIFY_PC_AND_STACK st CVM_LEN_NONE (-1)
    else ARITHMETIC_EXCEPTION st
  else ARITHMETIC_EXCEPTION st.

Definition exec_IDIV_UN (code : list Z) (st : cvm) : option outcome :=
  a ← uintValue st (-2);
  b ← uintValue st (-1);
  if negb (b =? 0) then
    st ← set_intValue st (-2) (a / b);
    MODIFY_PC_AND_STACK st CVM_LEN_NONE (-1)
  else ARITHMETIC_EXCEPTION st.

Definition exec_IREM (code : list Z) (st : cvm) : option outcome :=
  a ← intValue st (-2);
  b ← intValue st (-1);
  if negb (b =? 0) then
    if negb (b =? -1) || negb (a =? IL_MIN_INT32) then
      st ← set_intValue st (-2) (Z.rem a b);
      MODIFY_PC_AND_STACK st CVM_LEN_NONE (-1)
    else ARITHMETIC_EXCEPTION st
  else ARITHMETIC_EXCEPTION st.

Definition exec_IREM_UN (code : list Z) (st : cvm) : option outcome :=
  a ← uintValue st (-2);
  b ← uintValue st (-1);
  if negb (b =? 0) then
    st ← set_intValue st (-2) (a mod b);
    MODIFY_PC_AND_STACK st CVM_LEN_NONE (-1)
  else ARITHMETIC_EXCEPTION st.

Definition exec_INEG (code : list Z) (st : cvm) : option outcome :=
  a ← intValue st (-1);
  st ← set_intValue st (-1) (- a);
  MODIFY_PC_AND_STACK st CVM_LEN_NONE 0.

Definition exec_LADD (code : list Z) (st : cvm) : option outcome :=
  a ← ReadLong st (- (CVM_WORDS_PER_LONG * 2));
  b ← ReadLong st (- CVM_WORDS_PER_LONG);
  st ← WriteLong st (- (CVM_WORDS_PER_LONG * 2)) (a + b);
  MODIFY_PC_AND_STACK st CVM_LEN_NONE (- CVM_WORDS_PER_LONG).

Definition exec_LADD_OVF (code : list Z) (st : cvm) : option outcome :=
  '(st, ok) ← LAddOvf st (- (CVM_WORDS_PER_LONG * 2)) (- CVM_WORDS_PER_LONG);
  if (ok : bool) then MODIFY_PC_AND_STACK st CVM_LEN_NONE (- CVM_WORDS_PER_LONG) else OVERFLOW_EXCEPTION st.

Definition exec_LADD_OVF_UN (code : list Z) (st : cvm) : option outcome :=
  '(st, ok) ← LUAddOvf st (- (CVM_WORDS_PER_LONG * 2)) (- CVM_WORDS_PER_LONG);
  if (ok : bool) then MODIFY_PC_AND_STACK st CVM_LEN_NONE (- CVM_WORDS_PER_LONG) else OVERFLOW_EXCEPTION st.

Definition exec_LSUB (code : list Z) (st : cvm) : option outcome :=
  a ← ReadLong st (- (CVM_WORDS_PER_LONG * 2));
  b ← ReadLong st (- CVM_WORDS_PER_LONG);
  st ← WriteLong st (- (CVM_WORDS_PER_LONG * 2)) (a - b);
  MODIFY_PC_AND_STACK st CVM_LEN_NONE (- CVM_WORDS_PER_LONG).

Definition exec_LSUB_OVF (code : list Z) (st : cvm) : option outcome :=
  '(st, ok) ← LSubOvf st (- (CVM_WORDS_PER_LONG * 2)) (- CVM_WORDS_PER_LONG);
  if (ok : bool) then MODIFY_PC_AND_STACK st CVM_LEN_NONE (- CVM_WORDS_PER_LONG) else OVERFLOW_EXCEPTION st.

Definition exec_LSUB_OVF_UN (code : list Z) (st : cvm) : option outcome :=
  '(st, ok) ← LUSubOvf st (- (CVM_WORDS_PER_LONG * 2)) (- CVM_WORDS_PER_LONG);
  if (ok : bool) then MODIFY_PC_AND_STACK st CVM_LEN_NONE (- CVM_WORDS_PER_LONG) else OVERFLOW_EXCEPTION st.

Definition exec_LMUL (code : list Z) (st : cvm) : option outcome :=
  a ← ReadLong st (- (CVM_WORDS_PER_LONG * 2));
  b ← ReadLong st (- CVM_WORDS_PER_LONG);
  st ← WriteLong st (- (CVM_WORDS_PER_LONG * 2)) (a * b);
  MODIFY_PC_AND_STACK st CVM_LEN_NONE (- CVM_WORDS_PER_LONG).

Definition exec_LMUL_OVF (code : list Z) (st : cvm) : option outcome :=
  '(st, ok) ← LMulOvf st (- (CVM_WORDS_PER_LONG * 2)) (- CVM_WORDS_PER_LONG);
  if (ok : bool) then MODIFY_PC_AND_STACK st CVM_LEN_NONE (- CVM_WORDS_PER_LONG) else OVERFLOW_EXCEPTION st.

Definition exec_LMUL_OVF_UN (code : list Z) (st : cvm) : option outcome :=
  '(st, ok) ← LUMulOvf st (- (CVM_WORDS_PER_LONG * 2)) (- CVM_WORDS_PER_LONG);
  if (ok : bool) then MODIFY_PC_AND_STACK st CVM_LEN_NONE (- CVM_WORDS_PER_LONG) else OVERFLOW_EXCEPTION st.

Definition exec_LDIV (code : list Z) (st : cvm) : option outcome :=
  '(st, divResult) ← LDiv st (- (CVM_WORDS_PER_LONG * 2)) (- CVM_WORDS_PER_LONG);
  if 0 <? divResult then MODIFY_PC_AND_STACK st CVM_LEN_NONE (- CVM_WORDS_PER_LONG)
  else if divResult =? 0 then ZERO_DIV_EXCEPTION st
  else ARITHMETIC_EXCEPTION st.

Definition exec_LDIV_UN (code : list Z) (st : cvm) : option outcome :=
  '(st, ok) ← LUDiv st (- (CVM_WORDS_PER_LONG * 2)) (- CVM_WORDS_PER_LONG);
  if (ok : bool) then MODIFY_PC_AND_STACK st CVM_LEN_NONE (- CVM_WORDS_PER_LONG) else ZERO_DIV_EXCEPTION st.

Definition exec_LREM (code : list Z) (st : cvm) : option outcome :=
  '(st, divResult) ← LRem st (- (CVM_WORDS_PER_LONG * 2)) (- CVM_WORDS_PER_LONG);
  if 0 <? divResult then MODIFY_PC_AND_STACK st CVM_LEN_NONE (- CVM_WORDS_PER_LONG)
  else if divResult =? 0 then ZERO_DIV_EXCEPTION st
  else ARITHMETIC_EXCEPTION st.

Definition exec_LREM_UN (code : list Z) (st : cvm) : option outcome :=
  '(st, ok) ← LURem st (- (CVM_WORDS_PER_LONG * 2)) (- CVM_WORDS_PER_LONG);
  if (ok : bool) then MODIFY_PC_AND_STACK st CVM_LEN_NONE (- CVM_WORDS_PER_LONG) else ZERO_DIV_EXCEPTION st.

Definition exec_LNEG (code : list Z) (st : cvm) : option outcome :=
  a ← ReadLong st (- CVM_WORDS_PER_LONG);
  st ← WriteLong st (- CVM_WORDS_PER_LONG) (- a);
  MODIFY_PC_AND_STACK st CVM_LEN_NONE 0.

Definition exec_IAND (code : list Z) (st : cvm) : option outcome :=
  a ← intValue st (-2);
  b ← intValue st (-1);
  st ← set_intValue st (-2) (Z.land a b);
  MODIFY_PC_AND_STACK st CVM_LEN_NONE (-1).

Definition exec_IOR (code : list Z) (st : cvm) : option outcome :=
  a ← intValue st (-2);
  b ← intValue st (-1);
  st ← set_intValue st (-2) (Z.lor a b);
  MODIFY_PC_AND_STACK st CVM_LEN_NONE (-1).

Definition exec_IXOR (code : list Z) (st : cvm) : option outcome :=
  a ← intValue st (-2);
  b ← intValue st (-1);
  st ← set_intValue st (-2) (Z.lxor a b);
  MODIFY_PC_AND_STACK st CVM_LEN_NONE (-1).

Definition exec_INOT (code : list Z) (st : cvm) : option outcome :=
  a ← intValue st (-1);
  st ← set_intValue st (-1) (Z.lnot a);
  MODIFY_PC_AND_STACK st CVM_LEN_NONE 0.

Definition exec_ISHL (code : list Z) (st : cvm) : option outcome :=
  a ← intValue st (-2);
  n ← uintValue st (-1);
  st ← set_intValue st (-2) (Z.shiftl a (Z.land n 0x1F));
  MODIFY_PC_AND_STACK st CVM_LEN_NONE (-1).

Definition exec_ISHR (code : list Z) (st : cvm) : option outcome :=
  a ← intValue st (-2);
  n ← uintValue st (-1);
  st ← set_intValue st (-2) (Z.shiftr a (Z.land n 0x1F));
  MODIFY_PC_AND_STACK st CVM_LEN_NONE (-1).

Definition exec_ISHR_UN (code : list Z) (st : cvm) : option outcome :=
  a ← uintValue st (-2);
  n ← uintValue st (-1);
  st ← set_intValue st (-2) (Z.shiftr a (Z.land n 0x1F));
  MODIFY_PC_AND_STACK st CVM_LEN_NONE (-1).

Definition exec_LAND (code : list Z) (st : cvm) : option outcome :=
  a ← ReadLong st (- (CVM_WORDS_PER_LONG * 2));
  b ← ReadLong st (- CVM_WORDS_PER_LONG);
  st ← WriteLong st (- (CVM_WORDS_PER_LONG * 2)) (Z.land a b);
  MODIFY_PC_AND_STACK st CVM_LEN_NONE (- CVM_WORDS_PER_LONG).

Definition exec_LOR (code : list Z) (st : cvm) : option outcome :=
  a ← ReadLong st (- (CVM_WORDS_PER_LONG * 2));
  b ← ReadLong st (- CVM_WORDS_PER_LONG);
  st ← WriteLong st (- (CVM_WORDS_PER_LONG * 2)) (Z.lor a b);
  MODIFY_PC_AND_STACK st CVM_LEN_NONE (- CVM_WORDS_PER_LONG).

Definition exec_LXOR (code : list Z) (st : cvm) : option outcome :=
  a ← ReadLong st (- (CVM_WORDS_PER_LONG * 2));
  b ← ReadLong st (- CVM_WORDS_PER_LONG);
  st ← WriteLong st (- (CVM_WORDS_PER_LONG * 2)) (Z.lxor a b);
  MODIFY_PC_AND_STACK st CVM_LEN_NONE (- CVM_WORDS_PER_LONG).

Definition exec_LNOT (code : list Z) (st : cvm) : option outcome :=
  a ← ReadLong st (- CVM_WORDS_PER_LONG);
  st ← WriteLong st (- CVM_WORDS_PER_LONG) (Z.lnot a);
  MODIFY_PC_AND_STACK st CVM_LEN_NONE 0.

Definition exec_LSHL (code : list Z) (st : cvm) : option outcome :=
  n ← uintValue st (-1);
  st ← LShiftLeft st (- (CVM_WORDS_PER_LONG + 1)) (Z.land n 0x3F);
  MODIFY_PC_AND_STACK st CVM_LEN_NONE (-1).

Definition exec_LSHR (code : list Z) (st : cvm) : option outcome :=
  n ← uintValue st (-1);
  st ← LShiftRight st (- (CVM_WORDS_PER_LONG + 1)) (Z.land n 0x3F);
  MODIFY_PC_AND_STACK st CVM_LEN_NONE (-1).

Definition exec_LSHR_UN (code : list Z) (st : cvm) : option outcome :=
  n ← uintValue st (-1);
  st ← LUShiftRight st (- (CVM_WORDS_PER_LONG + 1)) (Z.land n 0x3F);
  MODIFY_PC_AND_STACK st CVM_LEN_NONE (-1).

End Arith.
