(* ===== verification/CvmConv.v ===== *)
(** * Conversion instructions of the CVM (engine/cvm_conv.c)

    The integer conversions, with and without overflow tests, and the fixups
    of (I4, I) pairs.  The floating point and marshalling conversions are not
    modelled. *)
From Stdlib Require Import ZArith Lia.
From stdpp Require Import base list option numbers.
From S2P Require Import Prelude Opcodes Cvm.

Local Open Scope Z_scope.

Section Conv.
Context `{Platform}.

(** ** Narrowing of the long at [posn] with overflow test

    The second component is the value returned. *)

Definition L2IOvf (st : cvm) (posn : Z) : option (cvm * bool) :=
  longValue ← ReadLong st posn;
  if (IL_MIN_INT32 <=? longValue) && (longValue <=? IL_MAX_INT32) then
    st ← set_intValue st posn (i32 longValue); Some (st, true)
  else Some (st, false).

Definition L2UIOvf (st : cvm) (posn : Z) : option (cvm * bool) :=
  longValue ← ReadLong st posn;
  if (0 <=? longValue) && (longValue <=? IL_MAX_UINT32) then
    st ← set_intValue st posn (u32 longValue); Some (st, true)
  else Some (st, false).

Definition LU2IOvf (st : cvm) (posn : Z) : option (cvm * bool) :=
  ulongValue ← ReadULong st posn;
  if ulongValue <=? IL_MAX_INT32 then
    st ← set_intValue st posn (i32 ulongValue); Some (st, true)
  else Some (st, false).

Definition LU2UIOvf (st : cvm) (posn : Z) : option (cvm * bool) :=
  ulongValue ← ReadULong st posn;
  if ulongValue <=? IL_MAX_UINT32 then
    st ← set_intValue st posn (u32 ulongValue); Some (st, true)
  else Some (st, false).

(** ** Instructions *)

Definition exec_I2B (code : list Z) (st : cvm) : option outcome :=
  a ← intValue st (-1);
  st ← set_intValue st (-1) (i8 a);
  MODIFY_PC_AND_STACK st CVM_LEN_NONE 0.

Definition exec_I2UB (code : list Z) (st : cvm) : option outcome :=
  a ← intValue st (-1);
  st ← set_intValue st (-1) (u8 a);
  MODIFY_PC_AND_STACK st CVM_LEN_NONE 0.

Definition exec_I2S (code : list Z) (st : cvm) : option outcome :=
  a ← intValue st (-1);
  st ← set_intValue st (-1) (i16 a);
  MODIFY_PC_AND_STACK st CVM_LEN_NONE 0.

Definition exec_I2US (code : list Z) (st : cvm) : option outcome :=
  a ← intValue st (-1);
  st ← set_intValue st (-1) (u16 a);
  MODIFY_PC_AND_STACK st CVM_LEN_NONE 0.

Definition exec_I2L (code : list Z) (st : cvm) : option outcome :=
  a ← intValue st (-1);
  st ← WriteLong st (-1) a;
  MODIFY_PC_AND_STACK st CVM_LEN_NONE (CVM_WORDS_PER_LONG - 1).

Definition exec_IU2L (code : list Z) (st : cvm) : option outcome :=
  a ← uintValue st (-1);
  st ← WriteLong st (-1) a;
  MODIFY_PC_AND_STACK st CVM_LEN_NONE (CVM_WORDS_PER_LONG - 1).

Definition exec_L2I (code : list Z) (st : cvm) : option outcome :=
  a ← ReadLong st (- CVM_WORDS_PER_LONG);
  st ← set_intValue st (- CVM_WORDS_PER_LONG) (i32 a);
  MODIFY_PC_AND_STACK st CVM_LEN_NONE (- (CVM_WORDS_PER_LONG - 1)).

Definition exec_I2P_LOWER (code : list Z) (st : cvm) : option outcome :=
  n ← CVM_ARG_WIDE_SMALL code (pc st);
  let position := - (i32 n + 1) in
  a ← uintValue st position;
  st ← set_ptrValue st position a;
  MODIFY_PC_AND_STACK st CVM_LEN_WIDE_SMALL 0.

Definition exec_I2P_LOWER_WIDE (code : list Z) (st : cvm) : option outcome :=
  n ← CVM_ARG_WIDE_LARGE code (pc st);
  let position := - (i32 n + 1) in
  a ← uintValue st position;
  st ← set_ptrValue st position a;
  MODIFY_PC_AND_STACK st CVM_LEN_WIDE_LARGE 0.

Definition exec_PREFIX_I2B_OVF (code : list Z) (st : cvm) : option outcome :=
  a ← intValue st (-1);
  if (-128 <=? a) && (a <=? 127) then MODIFY_PC_AND_STACK st CVMP_LEN_NONE 0 else OVERFLOW_EXCEPTION st.

Definition exec_PREFIX_I2UB_OVF (code : list Z) (st : cvm) : option outcome :=
  a ← intValue st (-1);
  if (0 <=? a) && (a <=? 255) then MODIFY_PC_AND_STACK st CVMP_LEN_NONE 0 else OVERFLOW_EXCEPTION st.

Definition exec_PREFIX_IU2B_OVF (code : list Z) (st : cvm) : option outcome :=
  a ← intValue st (-1);
  if (0 <=? a) && (a <=? 127) then MODIFY_PC_AND_STACK st CVMP_LEN_NONE 0 else OVERFLOW_EXCEPTION st.

Definition exec_PREFIX_IU2UB_OVF (code : list Z) (st : cvm) : option outcome :=
  a ← intValue st (-1);
  if (0 <=? a) && (a <=? 255) then MODIFY_PC_AND_STACK st CVMP_LEN_NONE 0 else OVERFLOW_EXCEPTION st.

Definition exec_PREFIX_I2S_OVF (code : list Z) (st : cvm) : option outcome :=
  a ← intValue st (-1);
  if (-32768 <=? a) && (a <=? 32767) then MODIFY_PC_AND_STACK st CVMP_LEN_NONE 0 else OVERFLOW_EXCEPTION st.

Definition exec_PREFIX_I2US_OVF (code : list Z) (st : cvm) : option outcome :=
  a ← intValue st (-1);
  if (0 <=? a) && (a <=? 65535) then MODIFY_PC_AND_STACK st CVMP_LEN_NONE 0 else OVERFLOW_EXCEPTION st.

Definition exec_PREFIX_IU2S_OVF (code : list Z) (st : cvm) : option outcome :=
  a ← intValue st (-1);
  if (0 <=? a) && (a <=? 32767) then MODIFY_PC_AND_STACK st CVMP_LEN_NONE 0 else OVERFLOW_EXCEPTION st.

Definition exec_PREFIX_IU2US_OVF (code : list Z) (st : cvm) : option outcome :=
  a ← intValue st (-1);
  if (0 <=? a) && (a <=? 65535) then MODIFY_PC_AND_STACK st CVMP_LEN_NONE 0 else OVERFLOW_EXCEPTION st.

Definition exec_PREFIX_I2IU_OVF (code : list Z) (st : cvm) : option outcome :=
  a ← intValue st (-1);
  if 0 <=? a then MODIFY_PC_AND_STACK st CVMP_LEN_NONE 0 else OVERFLOW_EXCEPTION st.

Definition exec_PREFIX_IU2I_OVF (code : list Z) (st : cvm) : option outcome :=
  a ← intValue st (-1);
  if 0 <=? a then MODIFY_PC_AND_STACK st CVMP_LEN_NONE 0 else OVERFLOW_EXCEPTION st.

Definition exec_PREFIX_I2UL_OVF (code : list Z) (st : cvm) : option outcome :=
  a ← intValue st (-1);
  if 0 <=? a then
    st ← WriteLong st (-1) a;
    MODIFY_PC_AND_STACK st CVMP_LEN_NONE (CVM_WORDS_PER_LONG - 1)
  else OVERFLOW_EXCEPTION st.

Definition exec_PREFIX_L2I_OVF (code : list Z) (st : cvm) : option outcome :=
  '(st, ok) ← L2IOvf st (- CVM_WORDS_PER_LONG);
  if (ok : bool) then MODIFY_PC_AND_STACK st CVMP_LEN_NONE (1 - CVM_WORDS_PER_LONG)
  else OVERFLOW_EXCEPTION st.

Definition exec_PREFIX_L2UI_OVF (code : list Z) (st : cvm) : option outcome :=
  '(st, ok) ← L2UIOvf st (- CVM_WORDS_PER_LONG);
  if (ok : bool) then MODIFY_PC_AND_STACK st CVMP_LEN_NONE (1 - CVM_WORDS_PER_LONG)
  else OVERFLOW_EXCEPTION st.

Definition exec_PREFIX_LU2I_OVF (code : list Z) (st : cvm) : option outcome :=
  '(st, ok) ← LU2IOvf st (- CVM_WORDS_PER_LONG);
  if (ok : bool) then MODIFY_PC_AND_STACK st CVMP_LEN_NONE (1 - CVM_WORDS_PER_LONG)
  else OVERFLOW_EXCEPTION st.

Definition exec_PREFIX_LU2IU_OVF (code : list Z) (st : cvm) : option outcome :=
  '(st, ok) ← LU2UIOvf st (- CVM_WORDS_PER_LONG);
  if (ok : bool) then MODIFY_PC_AND_STACK st CVMP_LEN_NONE (1 - CVM_WORDS_PER_LONG)
  else OVERFLOW_EXCEPTION st.

Definition exec_PREFIX_L2UL_OVF (code : list Z) (st : cvm) : option outcome :=
  a ← ReadLong st (- CVM_WORDS_PER_LONG);
  if 0 <=? a then MODIFY_PC_AND_STACK st CVMP_LEN_NONE 0 else OVERFLOW_EXCEPTION st.

Definition exec_PREFIX_LU2L_OVF (code : list Z) (st : cvm) : option outcome :=
  a ← ReadULong st (- CVM_WORDS_PER_LONG);
  if a <=? IL_MAX_INT64 then MODIFY_PC_AND_STACK st CVMP_LEN_NONE 0 else OVERFLOW_EXCEPTION st.

(** [*((ILInt8 * )(stacktop - 1)) = ...]: only the first bytes of the word change. *)
Definition exec_PREFIX_I2B_ALIGNED (code : list Z) (st : cvm) : option outcome :=
  a ← intValue st (-1);
  w ← word st (-1);
  st ← set_word st (-1) (set_low 8 w (i8 a));
  MODIFY_PC_AND_STACK st CVMP_LEN_NONE 0.

Definition exec_PREFIX_I2S_ALIGNED (code : list Z) (st : cvm) : option outcome :=
  a ← intValue st (-1);
  w ← word st (-1);
  st ← set_word st (-1) (set_low 16 w (i16 a));
  MODIFY_PC_AND_STACK st CVMP_LEN_NONE 0.

Definition exec_PREFIX_FIX_I4_I (code : list Z) (st : cvm) : option outcome :=
  if IL_NATIVE_INT64 then
    b ← ReadLong st (- CVM_WORDS_PER_LONG);
    st ← WriteLong st (-1) b;
    a ← intValue st (- (CVM_WORDS_PER_LONG + 1));
    st ← WriteLong st (- (CVM_WORDS_PER_LONG + 1)) a;
    MODIFY_PC_AND_STACK st CVMP_LEN_NONE (CVM_WORDS_PER_LONG - 1)
  else MODIFY_PC_AND_STACK st CVMP_LEN_NONE 0.

Definition exec_PREFIX_FIX_I4_U (code : list Z) (st : cvm) : option outcome :=
  if IL_NATIVE_INT64 then
    b ← ReadULong st (- CVM_WORDS_PER_LONG);
    st ← WriteULong st (-1) b;
    a ← uintValue st (- (CVM_WORDS_PER_LONG + 1));
    st ← WriteULong st (- (CVM_WORDS_PER_LONG + 1)) a;
    MODIFY_PC_AND_STACK st CVMP_LEN_NONE (CVM_WORDS_PER_LONG - 1)
  else MODIFY_PC_AND_STACK st CVMP_LEN_NONE 0.

End Conv.
