(* ===== verification/CvmCompare.v ===== *)
(** * Comparison instructions of the CVM (engine/cvm_compare.c)

    The comparisons of ints, longs and pointers and the [set*] instructions
    that turn their three-way result into a boolean.  The comparisons of
    floats are not modelled. *)
From Stdlib Require Import ZArith Lia.
From stdpp Require Import base list option numbers.
From S2P Require Import Prelude Opcodes Cvm.

Local Open Scope Z_scope.

Section Compare.
Context `{Platform}.

(** [LCmp] and [LUCmp] on the longs at two stack positions. *)

Definition LCmp (st : cvm) (a b : Z) : option Z :=
  tempa ← ReadLong st a;
  tempb ← ReadLong st b;
  Some (if tempa <? tempb then -1 else if tempb <? tempa then 1 else 0).

Definition LUCmp (st : cvm) (a b : Z) : option Z :=
  tempa ← ReadULong st a;
  tempb ← ReadULong st b;
  Some (if tempa <? tempb then -1 else if tempb <? tempa then 1 else 0).

Definition exec_PREFIX_ICMP (code : list Z) (st : cvm) : option outcome :=
  a ← intValue st (-2);
  b ← intValue st (-1);
  st ← set_intValue st (-2) (if a <? b then -1 else if b <? a then 1 else 0);
  MODIFY_PC_AND_STACK st CVMP_LEN_NONE (-1).

Definition exec_PREFIX_ICMP_UN (code : list Z) (st : cvm) : option outcome :=
  a ← uintValue st (-2);
  b ← uintValue st (-1);
  st ← set_intValue st (-2) (if a <? b then -1 else if b <? a then 1 else 0);
  MODIFY_PC_AND_STACK st CVMP_LEN_NONE (-1).

Definition exec_PREFIX_PCMP (code : list Z) (st : cvm) : option outcome :=
  a ← ptrValue st (-2);
  b ← ptrValue st (-1);
  st ← set_intValue st (-2) (if a <? b then -1 else if b <? a then 1 else 0);
  MODIFY_PC_AND_STACK st CVMP_LEN_NONE (-1).

Definition exec_PREFIX_LCMP (code : list Z) (st : cvm) : option outcome :=
  r ← LCmp st (- (CVM_WORDS_PER_LONG * 2)) (- CVM_WORDS_PER_LONG);
  st ← set_intValue st (- (CVM_WORDS_PER_LONG * 2)) r;
  MODIFY_PC_AND_STACK st CVMP_LEN_NONE (- (CVM_WORDS_PER_LONG * 2) + 1).

Definition exec_PREFIX_LCMP_UN (code : list Z) (st : cvm) : option outcome :=
  r ← LUCmp st (- (CVM_WORDS_PER_LONG * 2)) (- CVM_WORDS_PER_LONG);
  st ← set_intValue st (- (CVM_WORDS_PER_LONG * 2)) r;
  MODIFY_PC_AND_STACK st CVMP_LEN_NONE (- (CVM_WORDS_PER_LONG * 2) + 1).

Definition exec_PREFIX_SETEQ (code : list Z) (st : cvm) : option outcome :=
  a ← intValue st (-1);
  st ← set_intValue st (-1) (b2z (a =? 0));
  MODIFY_PC_AND_STACK st CVMP_LEN_NONE 0.

Definition exec_PREFIX_SETNE (code : list Z) (st : cvm) : option outcome :=
  a ← intValue st (-1);
  st ← set_intValue st (-1) (b2z (negb (a =? 0)));
  MODIFY_PC_AND_STACK st CVMP_LEN_NONE 0.

Definition exec_PREFIX_SETLT (code : list Z) (st : cvm) : option outcome :=
  a ← intValue st (-1);
  st ← set_intValue st (-1) (b2z (a <? 0));
  MODIFY_PC_AND_STACK st CVMP_LEN_NONE 0.

Definition exec_PREFIX_SETLE (code : list Z) (st : cvm) : option outcome :=
  a ← intValue st (-1);
  st ← set_intValue st (-1) (b2z (a <=? 0));
  MODIFY_PC_AND_STACK st CVMP_LEN_NONE 0.

Definition exec_PREFIX_SETGT (code : list Z) (st : cvm) : option outcome :=
  a ← intValue st (-1);
  st ← set_intValue st (-1) (b2z (0 <? a));
  MODIFY_PC_AND_STACK st CVMP_LEN_NONE 0.

Definition exec_PREFIX_SETGE (code : list Z) (st : cvm) : option outcome :=
  a ← intValue st (-1);
  st ← set_intValue st (-1) (b2z (0 <=? a));
  MODIFY_PC_AND_STACK st CVMP_LEN_NONE 0.

End Compare.
