(* ===== verification/CvmStack.v ===== *)
(** * Stack and constant instructions of the CVM (engine/cvm_stack.c, cvm_const.c, cvm.c)

    [nop], the duplication and removal of stack words, the height checks, and
    the integer constants.  [squash], local allocation and the float constants
    are not modelled. *)
From Stdlib Require Import ZArith Lia.
From stdpp Require Import base list option numbers.
From S2P Require Import Prelude Opcodes Cvm.

Local Open Scope Z_scope.

Section Stack.
Context `{Platform}.

Definition exec_NOP (code : list Z) (st : cvm) : option outcome :=
  MODIFY_PC_AND_STACK st CVM_LEN_NONE 0.

Definition exec_DUP (code : list Z) (st : cvm) : option outcome :=
  w ← word st (-1);
  st ← set_word st 0 w;
  MODIFY_PC_AND_STACK st CVM_LEN_NONE 1.

Definition exec_DUP2 (code : list Z) (st : cvm) : option outcome :=
  w2 ← word st (-2);
  st ← set_word st 0 w2;
  w1 ← word st (-1);
  st ← set_word st 1 w1;
  MODIFY_PC_AND_STACK st CVM_LEN_NONE 2.

Definition exec_DUP_N (code : list Z) (st : cvm) : option outcome :=
  tempNum ← CVM_ARG_WIDE_SMALL code (pc st);
  st ← memcpy_words (Z.to_nat tempNum) st 0 (- i32 tempNum);
  MODIFY_PC_AND_STACK st CVM_LEN_WIDE_SMALL tempNum.

Definition exec_DUP_WORD_N (code : list Z) (st : cvm) : option outcome :=
  n ← CVM_ARG_WIDE_SMALL code (pc st);
  w ← word st (- (i32 n + 1));
  st ← set_word st 0 w;
  MODIFY_PC_AND_STACK st CVM_LEN_WIDE_SMALL 1.

Definition exec_POP_N (code : list Z) (st : cvm) : option outcome :=
  n ← CVM_ARG_WIDE_SMALL code (pc st);
  MODIFY_PC_AND_STACK st CVM_LEN_WIDE_SMALL (- i32 n).

Definition exec_SET_NUM_ARGS (code : list Z) (st : cvm) : option outcome :=
  n ← CVM_ARG_WIDE_SMALL code (pc st);
  MODIFY_PC_AND_STACK
    (mk_cvm (pc st) (Z.of_nat (length (below st)) - n) (below st) (above st))
    CVM_LEN_WIDE_SMALL 0.

Definition exec_DUP_N_WIDE (code : list Z) (st : cvm) : option outcome :=
  tempNum ← CVM_ARG_WIDE_LARGE code (pc st);
  st ← memcpy_words (Z.to_nat tempNum) st 0 (- i32 tempNum);
  MODIFY_PC_AND_STACK st CVM_LEN_WIDE_LARGE tempNum.

Definition exec_DUP_WORD_N_WIDE (code : list Z) (st : cvm) : option outcome :=
  n ← CVM_ARG_WIDE_LARGE code (pc st);
  w ← word st (- (i32 n + 1));
  st ← set_word st 0 w;
  MODIFY_PC_AND_STACK st CVM_LEN_WIDE_LARGE 1.

Definition exec_POP_N_WIDE (code : list Z) (st : cvm) : option outcome :=
  n ← CVM_ARG_WIDE_LARGE code (pc st);
  MODIFY_PC_AND_STACK st CVM_LEN_WIDE_LARGE (- i32 n).

Definition exec_SET_NUM_ARGS_WIDE (code : list Z) (st : cvm) : option outcome :=
  n ← CVM_ARG_WIDE_LARGE code (pc st);
  MODIFY_PC_AND_STACK
    (mk_cvm (pc st) (Z.of_nat (length (below st)) - n) (below st) (above st))
    CVM_LEN_WIDE_LARGE 0.

Definition exec_POP (code : list Z) (st : cvm) : option outcome :=
  MODIFY_PC_AND_STACK st CVM_LEN_NONE (-1).

Definition exec_POP2 (code : list Z) (st : cvm) : option outcome :=
  MODIFY_PC_AND_STACK st CVM_LEN_NONE (-2).

Definition exec_CKHEIGHT (code : list Z) (st : cvm) : option outcome :=
  if 8 <? u32 (Z.of_nat (length (above st))) then MODIFY_PC_AND_STACK st CVM_LEN_WORD 0
  else STACK_OVERFLOW_EXCEPTION st.

Definition exec_CKHEIGHT_N (code : list Z) (st : cvm) : option outcome :=
  n ← CVM_ARG_WORD code (pc st);
  if n <? u32 (Z.of_nat (length (above st))) then MODIFY_PC_AND_STACK st CVM_LEN_WORD 0
  else STACK_OVERFLOW_EXCEPTION st.

Definition exec_PREFIX_REPL_WORD_N (code : list Z) (st : cvm) : option outcome :=
  n ← CVMP_ARG_WORD code (pc st);
  w ← word st (-1);
  st ← set_word st (- (i32 n + 1)) w;
  MODIFY_PC_AND_STACK st CVMP_LEN_WORD (-1).

(** ** Constants (cvm_const.c) *)

Definition exec_LDNULL (code : list Z) (st : cvm) : option outcome :=
  st ← set_ptrValue st 0 0;
  MODIFY_PC_AND_STACK st CVM_LEN_NONE 1.

(** The instructions [COP_LDC_I4_M1] .. [COP_LDC_I4_8], made by the macro
    COP_LDC_I4_VALUE from the value. *)
Definition exec_LDC_I4_VALUE (value : Z) (code : list Z) (st : cvm) : option outcome :=
  st ← set_intValue st 0 (i32 value);
  MODIFY_PC_AND_STACK st CVM_LEN_NONE 1.

Definition exec_LDC_I4_S (code : list Z) (st : cvm) : option outcome :=
  v ← CVM_ARG_SBYTE code (pc st);
  st ← set_intValue st 0 v;
  MODIFY_PC_AND_STACK st CVM_LEN_BYTE 1.

Definition exec_LDC_I4 (code : list Z) (st : cvm) : option outcome :=
  v ← CVM_ARG_WORD code (pc st);
  st ← set_intValue st 0 (i32 v);
  MODIFY_PC_AND_STACK st CVM_LEN_WORD 1.

Definition exec_LDC_I8 (code : list Z) (st : cvm) : option outcome :=
  v ← CVM_ARG_LONG code (pc st);
  st ← WriteLong st 0 v;
  MODIFY_PC_AND_STACK st CVM_LEN_LONG CVM_WORDS_PER_LONG.

End Stack.
