(* ===== verification/CvmVar.v ===== *)
(** * Local variable instructions of the CVM (engine/cvm_var.c)

    Loads and stores between the frame and the stack, the fixups of byte and
    short arguments and the allocation of locals.  The instructions that take
    the address of a stack word ([waddr], [maddr]) and the float fixups are
    not modelled. *)
From Stdlib Require Import ZArith Lia.
From stdpp Require Import base list option numbers.
From S2P Require Import Prelude Opcodes Cvm.

Local Open Scope Z_scope.

Section Var.
Context `{Platform}.

(** [COP_ILOAD_n] and [COP_ISTORE_n], made by COP_LOAD_N and COP_STORE_N. *)
Definition exec_ILOAD_n (n : Z) (code : list Z) (st : cvm) : option outcome :=
  v ← intValue st (frame_at st n);
  st ← set_intValue st 0 v;
  MODIFY_PC_AND_STACK st CVM_LEN_NONE 1.

Definition exec_ISTORE_n (n : Z) (code : list Z) (st : cvm) : option outcome :=
  v ← intValue st (-1);
  st ← set_intValue st (frame_at st n) v;
  MODIFY_PC_AND_STACK st CVM_LEN_NONE (-1).

Definition exec_ILOAD (code : list Z) (st : cvm) : option outcome :=
  n ← CVM_ARG_WIDE_SMALL code (pc st);
  v ← intValue st (frame_at st n);
  st ← set_intValue st 0 v;
  MODIFY_PC_AND_STACK st CVM_LEN_WIDE_SMALL 1.

Definition exec_ISTORE (code : list Z) (st : cvm) : option outcome :=
  n ← CVM_ARG_WIDE_SMALL code (pc st);
  v ← intValue st (-1);
  st ← set_intValue st (frame_at st n) v;
  MODIFY_PC_AND_STACK st CVM_LEN_WIDE_SMALL (-1).

Definition exec_ILOAD_WIDE (code : list Z) (st : cvm) : option outcome :=
  n ← CVM_ARG_WIDE_LARGE code (pc st);
  v ← intValue st (frame_at st n);
  st ← set_intValue st 0 v;
  MODIFY_PC_AND_STACK st CVM_LEN_WIDE_LARGE 1.

Definition exec_ISTORE_WIDE (code : list Z) (st : cvm) : option outcome :=
  n ← CVM_ARG_WIDE_LARGE code (pc st);
  v ← intValue st (-1);
  st ← set_intValue st (frame_at st n) v;
  MODIFY_PC_AND_STACK st CVM_LEN_WIDE_LARGE (-1).

(** [COP_PLOAD_n] and [COP_PSTORE_n], made by COP_LOAD_N and COP_STORE_N. *)
Definition exec_PLOAD_n (n : Z) (code : list Z) (st : cvm) : option outcome :=
  v ← ptrValue st (frame_at st n);
  st ← set_ptrValue st 0 v;
  MODIFY_PC_AND_STACK st CVM_LEN_NONE 1.

Definition exec_PSTORE_n (n : Z) (code : list Z) (st : cvm) : option outcome :=
  v ← ptrValue st (-1);
  st ← set_ptrValue st (frame_at st n) v;
  MODIFY_PC_AND_STACK st CVM_LEN_NONE (-1).

Definition exec_PLOAD (code : list Z) (st : cvm) : option outcome :=
  n ← CVM_ARG_WIDE_SMALL code (pc st);
  v ← ptrValue st (frame_at st n);
  st ← set_ptrValue st 0 v;
  MODIFY_PC_AND_STACK st CVM_LEN_WIDE_SMALL 1.

Definition exec_PSTORE (code : list Z) (st : cvm) : option outcome :=
  n ← CVM_ARG_WIDE_SMALL code (pc st);
  v ← ptrValue st (-1);
  st ← set_ptrValue st (frame_at st n) v;
  MODIFY_PC_AND_STACK st CVM_LEN_WIDE_SMALL (-1).

Definition exec_PLOAD_WIDE (code : list Z) (st : cvm) : option outcome :=
  n ← CVM_ARG_WIDE_LARGE code (pc st);
  v ← ptrValue st (frame_at st n);
  st ← set_ptrValue st 0 v;
  MODIFY_PC_AND_STACK st CVM_LEN_WIDE_LARGE 1.

Definition exec_PSTORE_WIDE (code : list Z) (st : cvm) : option outcome :=
  n ← CVM_ARG_WIDE_LARGE code (pc st);
  v ← ptrValue st (-1);
  st ← set_ptrValue st (frame_at st n) v;
  MODIFY_PC_AND_STACK st CVM_LEN_WIDE_LARGE (-1).

Definition exec_MLOAD (code : list Z) (st : cvm) : option outcome :=
  n ← CVM_ARG_DWIDE1_SMALL code (pc st);
  tempNum ← CVM_ARG_DWIDE2_SMALL code (pc st);
  st ← memcpy_words (Z.to_nat tempNum) st 0 (frame_at st n);
  MODIFY_PC_AND_STACK st CVM_LEN_DWIDE_SMALL tempNum.

Definition exec_MSTORE (code : list Z) (st : cvm) : option outcome :=
  n ← CVM_ARG_DWIDE1_SMALL code (pc st);
  tempNum ← CVM_ARG_DWIDE2_SMALL code (pc st);
  st ← move_stack st (- tempNum);
  st ← memcpy_words (Z.to_nat tempNum) st (frame_at st n) 0;
  MODIFY_PC_AND_STACK st CVM_LEN_DWIDE_SMALL 0.

Definition exec_BFIXUP (code : list Z) (st : cvm) : option outcome :=
  n ← CVM_ARG_WIDE_SMALL code (pc st);
  v ← intValue st (frame_at st n);
  w ← word st (frame_at st n);
  st ← set_word st (frame_at st n) (set_low 8 w (i8 v));
  MODIFY_PC_AND_STACK st CVM_LEN_WIDE_SMALL 0.

Definition exec_SFIXUP (code : list Z) (st : cvm) : option outcome :=
  n ← CVM_ARG_WIDE_SMALL code (pc st);
  v ← intValue st (frame_at st n);
  w ← word st (frame_at st n);
  st ← set_word st (frame_at st n) (set_low 16 w (i16 v));
  MODIFY_PC_AND_STACK st CVM_LEN_WIDE_SMALL 0.

Definition exec_MK_LOCAL_N (code : list Z) (st : cvm) : option outcome :=
  n ← CVM_ARG_WIDE_SMALL code (pc st);
  st ← memzero_words (Z.to_nat n) st 0;
  MODIFY_PC_AND_STACK st CVM_LEN_WIDE_SMALL n.

Definition exec_MLOAD_WIDE (code : list Z) (st : cvm) : option outcome :=
  n ← CVM_ARG_DWIDE1_LARGE code (pc st);
  tempNum ← CVM_ARG_DWIDE2_LARGE code (pc st);
  st ← memcpy_words (Z.to_nat tempNum) st 0 (frame_at st n);
  MODIFY_PC_AND_STACK st CVM_LEN_DWIDE_LARGE tempNum.

Definition exec_MSTORE_WIDE (code : list Z) (st : cvm) : option outcome :=
  n ← CVM_ARG_DWIDE1_LARGE code (pc st);
  tempNum ← CVM_ARG_DWIDE2_LARGE code (pc st);
  st ← move_stack st (- tempNum);
  st ← memcpy_words (Z.to_nat tempNum) st (frame_at st n) 0;
  MODIFY_PC_AND_STACK st CVM_LEN_DWIDE_LARGE 0.

Definition exec_BFIXUP_WIDE (code : list Z) (st : cvm) : option outcome :=
  n ← CVM_ARG_WIDE_LARGE code (pc st);
  v ← intValue st (frame_at st n);
  w ← word st (frame_at st n);
  st ← set_word st (frame_at st n) (set_low 8 w (i8 v));
  MODIFY_PC_AND_STACK st CVM_LEN_WIDE_LARGE 0.

Definition exec_SFIXUP_WIDE (code : list Z) (st : cvm) : option outcome :=
  n ← CVM_ARG_WIDE_LARGE code (pc st);
  v ← intValue st (frame_at st n);
  w ← word st (frame_at st n);
  st ← set_word st (frame_at st n) (set_low 16 w (i16 v));
  MODIFY_PC_AND_STACK st CVM_LEN_WIDE_LARGE 0.

Definition exec_MK_LOCAL_N_WIDE (code : list Z) (st : cvm) : option outcome :=
  n ← CVM_ARG_WIDE_LARGE code (pc st);
  st ← memzero_words (Z.to_nat n) st 0;
  MODIFY_PC_AND_STACK st CVM_LEN_WIDE_LARGE n.

Definition exec_BLOAD (code : list Z) (st : cvm) : option outcome :=
  n ← CVM_ARG_BYTE code (pc st);
  w ← word st (frame_at st n);
  st ← set_intValue st 0 (u8 w);
  MODIFY_PC_AND_STACK st CVM_LEN_BYTE 1.

Definition exec_BSTORE (code : list Z) (st : cvm) : option outcome :=
  n ← CVM_ARG_BYTE code (pc st);
  v ← intValue st (-1);
  w ← word st (frame_at st n);
  st ← set_word st (frame_at st n) (set_low 8 w (u8 v));
  MODIFY_PC_AND_STACK st CVM_LEN_BYTE (-1).

Definition exec_MK_LOCAL_1 (code : list Z) (st : cvm) : option outcome :=
  st ← memzero_words 1 st 0;
  MODIFY_PC_AND_STACK st CVM_LEN_NONE 1.

Definition exec_MK_LOCAL_2 (code : list Z) (st : cvm) : option outcome :=
  st ← memzero_words 2 st 0;
  MODIFY_PC_AND_STACK st CVM_LEN_NONE 2.

Definition exec_MK_LOCAL_3 (code : list Z) (st : cvm) : option outcome :=
  st ← memzero_words 3 st 0;
  MODIFY_PC_AND_STACK st CVM_LEN_NONE 3.

End Var.
