(* ===== verification/CvmBranch.v ===== *)
(** * Branch instructions of the CVM (engine/cvm_branch.c)

    The short branches, their long forms under [br_long], and [switch].  The
    long form of [jsr], which stores a code address on the stack, is not
    modelled. *)
From Stdlib Require Import ZArith Lia.
From stdpp Require Import base list option numbers.
From S2P Require Import Prelude Opcodes Cvm.

Local Open Scope Z_scope.

Section Branch.
Context `{Platform}.

(** [pc = dest; stacktop -= n], or the fall through of a branch not taken. *)
Definition branch_if (c : bool) (dest : option Z) (n : Z) (st : cvm) : option outcome :=
  if c then
    d ← dest;
    st ← move_stack st (- n);
    Some (Next (set_pc st d))
  else MODIFY_PC_AND_STACK st CVM_LEN_BRANCH (- n).

Definition exec_BR (code : list Z) (st : cvm) : option outcome :=
  d ← CVM_ARG_BRANCH_SHORT code (pc st);
  Some (Next (set_pc st d)).

Definition exec_BEQ (code : list Z) (st : cvm) : option outcome :=
  a ← intValue st (-2);
  b ← intValue st (-1);
  branch_if (a =? b) (CVM_ARG_BRANCH_SHORT code (pc st)) 2 st.

Definition exec_BNE (code : list Z) (st : cvm) : option outcome :=
  a ← intValue st (-2);
  b ← intValue st (-1);
  branch_if (negb (a =? b)) (CVM_ARG_BRANCH_SHORT code (pc st)) 2 st.

Definition exec_BLT (code : list Z) (st : cvm) : option outcome :=
  a ← intValue st (-2);
  b ← intValue st (-1);
  branch_if (a <? b) (CVM_ARG_BRANCH_SHORT code (pc st)) 2 st.

Definition exec_BLT_UN (code : list Z) (st : cvm) : option outcome :=
  a ← uintValue st (-2);
  b ← uintValue st (-1);
  branch_if (a <? b) (CVM_ARG_BRANCH_SHORT code (pc st)) 2 st.

Definition exec_BLE (code : list Z) (st : cvm) : option outcome :=
  a ← intValue st (-2);
  b ← intValue st (-1);
  branch_if (a <=? b) (CVM_ARG_BRANCH_SHORT code (pc st)) 2 st.

Definition exec_BLE_UN (code : list Z) (st : cvm) : option outcome :=
  a ← uintValue st (-2);
  b ← uintValue st (-1);
  branch_if (a <=? b) (CVM_ARG_BRANCH_SHORT code (pc st)) 2 st.

Definition exec_BGT (code : list Z) (st : cvm) : option outcome :=
  a ← intValue st (-2);
  b ← intValue st (-1);
  branch_if (b <? a) (CVM_ARG_BRANCH_SHORT code (pc st)) 2 st.

Definition exec_BGT_UN (code : list Z) (st : cvm) : option outcome :=
  a ← uintValue st (-2);
  b ← uintValue st (-1);
  branch_if (b <? a) (CVM_ARG_BRANCH_SHORT code (pc st)) 2 st.

Definition exec_BGE (code : list Z) (st : cvm) : option outcome :=
  a ← intValue st (-2);
  b ← intValue st (-1);
  branch_if (b <=? a) (CVM_ARG_BRANCH_SHORT code (pc st)) 2 st.

Definition exec_BGE_UN (code : list Z) (st : cvm) : option outcome :=
  a ← uintValue st (-2);
  b ← uintValue st (-1);
  branch_if (b <=? a) (CVM_ARG_BRANCH_SHORT code (pc st)) 2 st.

Definition exec_BRTRUE (code : list Z) (st : cvm) : option outcome :=
  a ← intValue st (-1);
  branch_if (negb (a =? 0)) (CVM_ARG_BRANCH_SHORT code (pc st)) 1 st.

Definition exec_BRFALSE (code : list Z) (st : cvm) : option outcome :=
  a ← intValue st (-1);
  branch_if (a =? 0) (CVM_ARG_BRANCH_SHORT code (pc st)) 1 st.

Definition exec_BRNULL (code : list Z) (st : cvm) : option outcome :=
  a ← ptrValue st (-1);
  branch_if (a =? 0) (CVM_ARG_BRANCH_SHORT code (pc st)) 1 st.

Definition exec_BRNONNULL (code : list Z) (st : cvm) : option outcome :=
  a ← ptrValue st (-1);
  branch_if (negb (a =? 0)) (CVM_ARG_BRANCH_SHORT code (pc st)) 1 st.

Definition exec_BR_PEQ (code : list Z) (st : cvm) : option outcome :=
  a ← ptrValue st (-2);
  b ← ptrValue st (-1);
  branch_if (a =? b) (CVM_ARG_BRANCH_SHORT code (pc st)) 2 st.

Definition exec_BR_PNE (code : list Z) (st : cvm) : option outcome :=
  a ← ptrValue st (-2);
  b ← ptrValue st (-1);
  branch_if (negb (a =? b)) (CVM_ARG_BRANCH_SHORT code (pc st)) 2 st.

(** ** The long forms *)

Definition exec_BR_LONG_BR (code : list Z) (st : cvm) : option outcome :=
  d ← CVM_ARG_BRANCH_LONG code (pc st);
  Some (Next (set_pc st d)).

Definition exec_BR_LONG_BEQ (code : list Z) (st : cvm) : option outcome :=
  a ← intValue st (-2);
  b ← intValue st (-1);
  branch_if (a =? b) (CVM_ARG_BRANCH_LONG code (pc st)) 2 st.

Definition exec_BR_LONG_BNE (code : list Z) (st : cvm) : option outcome :=
  a ← intValue st (-2);
  b ← intValue st (-1);
  branch_if (negb (a =? b)) (CVM_ARG_BRANCH_LONG code (pc st)) 2 st.

Definition exec_BR_LONG_BLT (code : list Z) (st : cvm) : option outcome :=
  a ← intValue st (-2);
  b ← intValue st (-1);
  branch_if (a <? b) (CVM_ARG_BRANCH_LONG code (pc st)) 2 st.

Definition exec_BR_LONG_BLT_UN (code : list Z) (st : cvm) : option outcome :=
  a ← uintValue st (-2);
  b ← uintValue st (-1);
  branch_if (a <? b) (CVM_ARG_BRANCH_LONG code (pc st)) 2 st.

Definition exec_BR_LONG_BLE (code : list Z) (st : cvm) : option outcome :=
  a ← intValue st (-2);
  b ← intValue st (-1);
  branch_if (a <=? b) (CVM_ARG_BRANCH_LONG code (pc st)) 2 st.

Definition exec_BR_LONG_BLE_UN (code : list Z) (st : cvm) : option outcome :=
  a ← uintValue st (-2);
  b ← uintValue st (-1);
  branch_if (a <=? b) (CVM_ARG_BRANCH_LONG code (pc st)) 2 st.

Definition exec_BR_LONG_BGT (code : list Z) (st : cvm) : option outcome :=
  a ← intValue st (-2);
  b ← intValue st (-1);
  branch_if (b <? a) (CVM_ARG_BRANCH_LONG code (pc st)) 2 st.

Definition exec_BR_LONG_BGT_UN (code : list Z) (st : cvm) : option outcome :=
  a ← uintValue st (-2);
  b ← uintValue st (-1);
  branch_if (b <? a) (CVM_ARG_BRANCH_LONG code (pc st)) 2 st.

Definition exec_BR_LONG_BGE (code : list Z) (st : cvm) : option outcome :=
  a ← intValue st (-2);
  b ← intValue st (-1);
  branch_if (b <=? a) (CVM_ARG_BRANCH_LONG code (pc st)) 2 st.

Definition exec_BR_LONG_BGE_UN (code : list Z) (st : cvm) : option outcome :=
  a ← uintValue st (-2);
  b ← uintValue st (-1);
  branch_if (b <=? a) (CVM_ARG_BRANCH_LONG code (pc st)) 2 st.

Definition exec_BR_LONG_BRTRUE (code : list Z) (st : cvm) : option outcome :=
  a ← intValue st (-1);
  branch_if (negb (a =? 0)) (CVM_ARG_BRANCH_LONG code (pc st)) 1 st.

Definition exec_BR_LONG_BRFALSE (code : list Z) (st : cvm) : option outcome :=
  a ← intValue st (-1);
  branch_if (a =? 0) (CVM_ARG_BRANCH_LONG code (pc st)) 1 st.

Definition exec_BR_LONG_BRNULL (code : list Z) (st : cvm) : option outcome :=
  a ← ptrValue st (-1);
  branch_if (a =? 0) (CVM_ARG_BRANCH_LONG code (pc st)) 1 st.

Definition exec_BR_LONG_BRNONNULL (code : list Z) (st : cvm) : option outcome :=
  a ← ptrValue st (-1);
  branch_if (negb (a =? 0)) (CVM_ARG_BRANCH_LONG code (pc st)) 1 st.

Definition exec_BR_LONG_BR_PEQ (code : list Z) (st : cvm) : option outcome :=
  a ← ptrValue st (-2);
  b ← ptrValue st (-1);
  branch_if (a =? b) (CVM_ARG_BRANCH_LONG code (pc st)) 2 st.

Definition exec_BR_LONG_BR_PNE (code : list Z) (st : cvm) : option outcome :=
  a ← ptrValue st (-2);
  b ← ptrValue st (-1);
  branch_if (negb (a =? b)) (CVM_ARG_BRANCH_LONG code (pc st)) 2 st.

Definition br_long_table : list (Z * (list Z -> cvm -> option outcome)) :=
  [(COP_BEQ, exec_BR_LONG_BEQ);
   (COP_BNE, exec_BR_LONG_BNE);
   (COP_BLT, exec_BR_LONG_BLT);
   (COP_BLT_UN, exec_BR_LONG_BLT_UN);
   (COP_BLE, exec_BR_LONG_BLE);
   (COP_BLE_UN, exec_BR_LONG_BLE_UN);
   (COP_BGT, exec_BR_LONG_BGT);
   (COP_BGT_UN, exec_BR_LONG_BGT_UN);
   (COP_BGE, exec_BR_LONG_BGE);
   (COP_BGE_UN, exec_BR_LONG_BGE_UN);
   (COP_BRTRUE, exec_BR_LONG_BRTRUE);
   (COP_BRFALSE, exec_BR_LONG_BRFALSE);
   (COP_BRNULL, exec_BR_LONG_BRNULL);
   (COP_BRNONNULL, exec_BR_LONG_BRNONNULL);
   (COP_BR_PEQ, exec_BR_LONG_BR_PEQ);
   (COP_BR_PNE, exec_BR_LONG_BR_PNE)].

Definition exec_BR_LONG (code : list Z) (st : cvm) : option outcome :=
  op ← CVM_ARG_SUB_OPCODE code (pc st);
  if op =? COP_JSR then None
  else match list_find (fun p => fst p = op) br_long_table with
       | Some (_, (_, h)) => h code st
       | None => exec_BR_LONG_BR code st
       end.

Definition exec_SWITCH (code : list Z) (st : cvm) : option outcome :=
  n ← uintValue st (-1);
  limit ← CVM_ARG_SWITCH_LIMIT code (pc st);
  if n <? limit then
    d ← CVM_ARG_SWITCH_DEST code (pc st) n;
    st ← move_stack st (-1);
    Some (Next (set_pc st d))
  else
    d ← CVM_ARG_SWITCH_DEFAULT code (pc st);
    st ← move_stack st (-1);
    Some (Next (set_pc st d)).

End Branch.
