(* ===== verification/Interp.v ===== *)
(** * The interpreter loop (engine/cvm.c)

    The dispatch of [Interpreter]: [pc[0]] selects a handler, the prefixes
    [wide] and [prefix] select one by [pc[1]], opcodes that no case names are
    no-operations, and opcodes whose handlers are not part of this development
    give [None].  [run] repeats [step] until an exception is raised or the
    number of steps is used up. *)
From Stdlib Require Import ZArith Lia.
From stdpp Require Import base list option numbers.
From S2P Require Import Prelude Opcodes Cvm CvmArith CvmConv CvmCompare CvmStack CvmVar CvmBranch.

Local Open Scope Z_scope.

Definition handler : Type := list Z -> cvm -> option outcome.

Fixpoint find_handler (op : Z) (table : list (Z * handler)) : option handler :=
  match table with
  | [] => None
  | (k, h) :: table => if op =? k then Some h else find_handler op table
  end.

Definition in_list (op : Z) (l : list Z) : bool := existsb (Z.eqb op) l.

(** Numbers that are no CVM opcode, and wide opcodes of other categories. *)
Definition unassigned_main : list Z := [0xfc].
Definition unassigned_prefix (op : Z) : bool :=
  in_list op [0x0; 0x65; 0x66; 0x67; 0x68; 0x69; 0x6a; 0x6b; 0x6c] || (0x94 <=? op).
Definition other_wide : list Z :=
  [0x17; 0x18; 0x1b; 0x1c; 0x29; 0x30; 0x37; 0x3f; 0x86; 0x8f; 0xd5; 0xd6; 0xe8; 0xeb; 0xec; 0xed; 0xef; 0xf1; 0xf2; 0xf3; 0xf4; 0xf5; 0xf6; 0xf7; 0xf8; 0xf9].

Section Interp.
Context `{Platform}.

Definition wide_table : list (Z * handler) :=
  [(COP_ILOAD, exec_ILOAD_WIDE);
   (COP_PLOAD, exec_PLOAD_WIDE);
   (COP_ISTORE, exec_ISTORE_WIDE);
   (COP_PSTORE, exec_PSTORE_WIDE);
   (COP_MLOAD, exec_MLOAD_WIDE);
   (COP_MSTORE, exec_MSTORE_WIDE);
   (COP_BFIXUP, exec_BFIXUP_WIDE);
   (COP_SFIXUP, exec_SFIXUP_WIDE);
   (COP_MK_LOCAL_N, exec_MK_LOCAL_N_WIDE);
   (COP_DUP_N, exec_DUP_N_WIDE);
   (COP_DUP_WORD_N, exec_DUP_WORD_N_WIDE);
   (COP_POP_N, exec_POP_N_WIDE);
   (COP_SET_NUM_ARGS, exec_SET_NUM_ARGS_WIDE);
   (COP_I2P_LOWER, exec_I2P_LOWER_WIDE)].

Definition wide_handler : handler := fun code st =>
  op ← CVM_ARG_SUB_OPCODE code (pc st);
  match find_handler op wide_table with
  | Some h => h code st
  | None => if in_list op other_wide then None else MODIFY_PC_AND_STACK st CVMP_LEN_NONE 0
  end.

Definition prefix_table : list (Z * handler) :=
  [(COP_PREFIX_ICMP, exec_PREFIX_ICMP);
   (COP_PREFIX_ICMP_UN, exec_PREFIX_ICMP_UN);
   (COP_PREFIX_LCMP, exec_PREFIX_LCMP);
   (COP_PREFIX_LCMP_UN, exec_PREFIX_LCMP_UN);
   (COP_PREFIX_PCMP, exec_PREFIX_PCMP);
   (COP_PREFIX_SETEQ, exec_PREFIX_SETEQ);
   (COP_PREFIX_SETNE, exec_PREFIX_SETNE);
   (COP_PREFIX_SETLT, exec_PREFIX_SETLT);
   (COP_PREFIX_SETLE, exec_PREFIX_SETLE);
   (COP_PREFIX_SETGT, exec_PREFIX_SETGT);
   (COP_PREFIX_SETGE, exec_PREFIX_SETGE);
   (COP_PREFIX_I2B_OVF, exec_PREFIX_I2B_OVF);
   (COP_PREFIX_I2UB_OVF, exec_PREFIX_I2UB_OVF);
   (COP_PREFIX_IU2B_OVF, exec_PREFIX_IU2B_OVF);
   (COP_PREFIX_IU2UB_OVF, exec_PREFIX_IU2UB_OVF);
   (COP_PREFIX_I2S_OVF, exec_PREFIX_I2S_OVF);
   (COP_PREFIX_I2US_OVF, exec_PREFIX_I2US_OVF);
   (COP_PREFIX_IU2S_OVF, exec_PREFIX_IU2S_OVF);
   (COP_PREFIX_IU2US_OVF, exec_PREFIX_IU2US_OVF);
   (COP_PREFIX_I2IU_OVF, exec_PREFIX_I2IU_OVF);
   (COP_PREFIX_IU2I_OVF, exec_PREFIX_IU2I_OVF);
   (COP_PREFIX_I2UL_OVF, exec_PREFIX_I2UL_OVF);
   (COP_PREFIX_L2I_OVF, exec_PREFIX_L2I_OVF);
   (COP_PREFIX_L2UI_OVF, exec_PREFIX_L2UI_OVF);
   (COP_PREFIX_LU2I_OVF, exec_PREFIX_LU2I_OVF);
   (COP_PREFIX_LU2IU_OVF, exec_PREFIX_LU2IU_OVF);
   (COP_PREFIX_L2UL_OVF, exec_PREFIX_L2UL_OVF);
   (COP_PREFIX_LU2L_OVF, exec_PREFIX_LU2L_OVF);
   (COP_PREFIX_I2B_ALIGNED, exec_PREFIX_I2B_ALIGNED);
   (COP_PREFIX_I2S_ALIGNED, exec_PREFIX_I2S_ALIGNED);
   (COP_PREFIX_FIX_I4_I, exec_PREFIX_FIX_I4_I);
   (COP_PREFIX_FIX_I4_U, exec_PREFIX_FIX_I4_U);
   (COP_PREFIX_REPL_WORD_N, exec_PREFIX_REPL_WORD_N)].

Definition prefix_handler : handler := fun code st =>
  op ← CVM_ARG_SUB_OPCODE code (pc st);
  match find_handler op prefix_table with
  | Some h => h code st
  | None => if unassigned_prefix op then MODIFY_PC_AND_STACK st CVMP_LEN_NONE 0 else None
  end.

Definition main_table : list (Z * handler) :=
  [(COP_NOP, exec_NOP);
   (COP_ILOAD_0, exec_ILOAD_n 0);
   (COP_ILOAD_1, exec_ILOAD_n 1);
   (COP_ILOAD_2, exec_ILOAD_n 2);
   (COP_ILOAD_3, exec_ILOAD_n 3);
   (COP_ILOAD, exec_ILOAD);
   (COP_PLOAD_0, exec_PLOAD_n 0);
   (COP_PLOAD_1, exec_PLOAD_n 1);
   (COP_PLOAD_2, exec_PLOAD_n 2);
   (COP_PLOAD_3, exec_PLOAD_n 3);
   (COP_PLOAD, exec_PLOAD);
   (COP_ISTORE_0, exec_ISTORE_n 0);
   (COP_ISTORE_1, exec_ISTORE_n 1);
   (COP_ISTORE_2, exec_ISTORE_n 2);
   (COP_ISTORE_3, exec_ISTORE_n 3);
   (COP_ISTORE, exec_ISTORE);
   (COP_PSTORE_0, exec_PSTORE_n 0);
   (COP_PSTORE_1, exec_PSTORE_n 1);
   (COP_PSTORE_2, exec_PSTORE_n 2);
   (COP_PSTORE_3, exec_PSTORE_n 3);
   (COP_PSTORE, exec_PSTORE);
   (COP_MLOAD, exec_MLOAD);
   (COP_MSTORE, exec_MSTORE);
   (COP_BFIXUP, exec_BFIXUP);
   (COP_SFIXUP, exec_SFIXUP);
   (COP_MK_LOCAL_1, exec_MK_LOCAL_1);
   (COP_MK_LOCAL_2, exec_MK_LOCAL_2);
   (COP_MK_LOCAL_3, exec_MK_LOCAL_3);
   (COP_MK_LOCAL_N, exec_MK_LOCAL_N);
   (COP_DUP, exec_DUP);
   (COP_DUP2, exec_DUP2);
   (COP_DUP_N, exec_DUP_N);
   (COP_DUP_WORD_N, exec_DUP_WORD_N);
   (COP_POP, exec_POP);
   (COP_POP2, exec_POP2);
   (COP_POP_N, exec_POP_N);
   (COP_CKHEIGHT, exec_CKHEIGHT);
   (COP_CKHEIGHT_N, exec_CKHEIGHT_N);
   (COP_SET_NUM_ARGS, exec_SET_NUM_ARGS);
   (COP_IADD, exec_IADD);
   (COP_IADD_OVF, exec_IADD_OVF);
   (COP_IADD_OVF_UN, exec_IADD_OVF_UN);
   (COP_ISUB, exec_ISUB);
   (COP_ISUB_OVF, exec_ISUB_OVF);
   (COP_ISUB_OVF_UN, exec_ISUB_OVF_UN);
   (COP_IMUL, exec_IMUL);
   (COP_IMUL_OVF, exec_IMUL_OVF);
   (COP_IMUL_OVF_UN, exec_IMUL_OVF_UN);
   (COP_IDIV, exec_IDIV);
   (COP_IDIV_UN, exec_IDIV_UN);
   (COP_IREM, exec_IREM);
   (COP_IREM_UN, exec_IREM_UN);
   (COP_INEG, exec_INEG);
   (COP_LADD, exec_LADD);
   (COP_LADD_OVF, exec_LADD_OVF);
   (COP_LADD_OVF_UN, exec_LADD_OVF_UN);
   (COP_LSUB, exec_LSUB);
   (COP_LSUB_OVF, exec_LSUB_OVF);
   (COP_LSUB_OVF_UN, exec_LSUB_OVF_UN);
   (COP_LMUL, exec_LMUL);
   (COP_LMUL_OVF, exec_LMUL_OVF);
   (COP_LMUL_OVF_UN, exec_LMUL_OVF_UN);
   (COP_LDIV, exec_LDIV);
   (COP_LDIV_UN, exec_LDIV_UN);
   (COP_LREM, exec_LREM);
   (COP_LREM_UN, exec_LREM_UN);
   (COP_LNEG, exec_LNEG);
   (COP_IAND, exec_IAND);
   (COP_IOR, exec_IOR);
   (COP_IXOR, exec_IXOR);
   (COP_INOT, exec_INOT);
   (COP_ISHL, exec_ISHL);
   (COP_ISHR, exec_ISHR);
   (COP_ISHR_UN, exec_ISHR_UN);
   (COP_LAND, exec_LAND);
   (COP_LOR, exec_LOR);
   (COP_LXOR, exec_LXOR);
   (COP_LNOT, exec_LNOT);
   (COP_LSHL, exec_LSHL);
   (COP_LSHR, exec_LSHR);
   (COP_LSHR_UN, exec_LSHR_UN);
   (COP_I2B, exec_I2B);
   (COP_I2UB, exec_I2UB);
   (COP_I2S, exec_I2S);
   (COP_I2US, exec_I2US);
   (COP_I2L, exec_I2L);
   (COP_IU2L, exec_IU2L);
   (COP_L2I, exec_L2I);
   (COP_I2P_LOWER, exec_I2P_LOWER);
   (COP_LDNULL, exec_LDNULL);
   (COP_LDC_I4_M1, exec_LDC_I4_VALUE (-1));
   (COP_LDC_I4_0, exec_LDC_I4_VALUE 0);
   (COP_LDC_I4_1, exec_LDC_I4_VALUE 1);
   (COP_LDC_I4_2, exec_LDC_I4_VALUE 2);
   (COP_LDC_I4_3, exec_LDC_I4_VALUE 3);
   (COP_LDC_I4_4, exec_LDC_I4_VALUE 4);
   (COP_LDC_I4_5, exec_LDC_I4_VALUE 5);
   (COP_LDC_I4_6, exec_LDC_I4_VALUE 6);
   (COP_LDC_I4_7, exec_LDC_I4_VALUE 7);
   (COP_LDC_I4_8, exec_LDC_I4_VALUE 8);
   (COP_LDC_I4_S, exec_LDC_I4_S);
   (COP_LDC_I4, exec_LDC_I4);
   (COP_LDC_I8, exec_LDC_I8);
   (COP_BR, exec_BR);
   (COP_BEQ, exec_BEQ);
   (COP_BNE, exec_BNE);
   (COP_BLT, exec_BLT);
   (COP_BLT_UN, exec_BLT_UN);
   (COP_BLE, exec_BLE);
   (COP_BLE_UN, exec_BLE_UN);
   (COP_BGT, exec_BGT);
   (COP_BGT_UN, exec_BGT_UN);
   (COP_BGE, exec_BGE);
   (COP_BGE_UN, exec_BGE_UN);
   (COP_BRTRUE, exec_BRTRUE);
   (COP_BRFALSE, exec_BRFALSE);
   (COP_BRNULL, exec_BRNULL);
   (COP_BRNONNULL, exec_BRNONNULL);
   (COP_BR_PEQ, exec_BR_PEQ);
   (COP_BR_PNE, exec_BR_PNE);
   (COP_BR_LONG, exec_BR_LONG);
   (COP_SWITCH, exec_SWITCH);
   (COP_BLOAD, exec_BLOAD);
   (COP_BSTORE, exec_BSTORE);
   (COP_WIDE, wide_handler);
   (COP_PREFIX, prefix_handler)].

Definition main_handler (op : Z) : option handler :=
  match find_handler op main_table with
  | Some h => Some h
  | None => if in_list op unassigned_main
            then Some (fun _ st => MODIFY_PC_AND_STACK st CVM_LEN_NONE 0) else None
  end.

(** One turn of the instruction loop. *)
Definition step (code : list Z) (st : cvm) : option outcome :=
  op ← pc_at code (pc st) 0;
  h ← main_handler op;
  h code st.

Fixpoint run (fuel : nat) (code : list Z) (st : cvm) : option outcome :=
  match fuel with
  | O => Some (Next st)
  | S fuel =>
    match step code st with
    | Some (Next st) => run fuel code st
    | r => r
    end
  end.

End Interp.
