(* ===== verification/JumpMask.v ===== *)
(** * The jump mask of the verifier (engine/verify.c)

    An array of [unsigned long] with three bits for each offset of a method's
    code: "instruction start", "jump target" and "special jump target".
    Offsets are ILUInt32 values, so the bit number wraps at 2^32; [None] is an
    access outside the array. *)
From Stdlib Require Import ZArith Lia.
From stdpp Require Import base list option numbers.
From S2P Require Import Prelude Cvm.

Local Open Scope Z_scope.

Section Mask.
Context `{Platform}.

(** [sizeof(unsigned long) * 8]. *)
Definition LONG_BITS : Z := if IL_NATIVE_INT64 then 64 else 32.

Definition WORDS_FOR_MASK (size : Z) : Z := (size * 3 + LONG_BITS - 1) / LONG_BITS.

(** Set and test the bit [bit] of the array. *)
Definition mark (jumpMask : list Z) (bit : Z) : option (list Z) :=
  let i := Z.to_nat (bit / LONG_BITS) in
  w ← jumpMask !! i;
  Some (<[i := Z.lor w (Z.shiftl 1 (bit mod LONG_BITS))]> jumpMask).

Definition marked (jumpMask : list Z) (bit : Z) : option bool :=
  w ← jumpMask !! Z.to_nat (bit / LONG_BITS);
  Some (negb (Z.land w (Z.shiftl 1 (bit mod LONG_BITS)) =? 0)).

Definition MarkInsnStart (jumpMask : list Z) (offset : Z) : option (list Z) :=
  mark jumpMask (u32 (offset * 3)).
Definition MarkJumpTarget (jumpMask : list Z) (offset : Z) : option (list Z) :=
  mark jumpMask (u32 (offset * 3 + 1)).
Definition MarkSpecialJumpTarget (jumpMask : list Z) (offset : Z) : option (list Z) :=
  mark jumpMask (u32 (offset * 3 + 2)).
Definition IsInsnStart (jumpMask : list Z) (offset : Z) : option bool :=
  marked jumpMask (u32 (offset * 3)).
Definition IsJumpTarget (jumpMask : list Z) (offset : Z) : option bool :=
  marked jumpMask (u32 (offset * 3 + 1)).
Definition IsSpecialJumpTarget (jumpMask : list Z) (offset : Z) : option bool :=
  marked jumpMask (u32 (offset * 3 + 2)).

(** The zeroed mask [TempAllocate] returns for [size] offsets.  In the source
    the number of its bits wraps at 32 bits; the theorems are about sizes up to
    2^32 / 3, where it does not. *)
Definition new_mask (size : Z) : list Z := replicate (Z.to_nat (WORDS_FOR_MASK size)) 0.

(** ** Lemmas *)

Lemma LONG_BITS_pos : 0 < LONG_BITS.
Proof. unfold LONG_BITS. destruct IL_NATIVE_INT64; lia. Qed.

Lemma bit_test w k : 0 <= k -> negb (Z.land w (Z.shiftl 1 k) =? 0) = Z.testbit w k.
Proof.
  intros Hk. destruct (Z.testbit w k) eqn:E.
  - apply negb_true_iff, Z.eqb_neq. intros H0.
    assert (Z.testbit (Z.land w (Z.shiftl 1 k)) k = true) as Ht.
    { rewrite Z.land_spec, E, Z.shiftl_spec, Z.sub_diag by lia. done. }
    rewrite H0, Z.bits_0 in Ht. done.
  - apply negb_false_iff, Z.eqb_eq, Z.bits_inj'. intros n Hn.
    rewrite Z.bits_0, Z.land_spec, Z.shiftl_spec by lia.
    destruct (Z.eq_dec n k) as [-> |Hne]; [by rewrite E|].
    destruct (Z.ltb_spec n k); [by rewrite (Z.testbit_neg_r 1 (n - k)), andb_false_r by lia|].
    replace (n - k) with (Z.succ (n - k - 1)) by lia.
    change 1 with (2 * 0 + 1). rewrite Z.testbit_odd_succ, Z.bits_0 by lia. apply andb_false_r.
Qed.

Lemma marked_testbit m b :
  0 <= b -> marked m b = (λ w, Z.testbit w (b mod LONG_BITS)) <$> m !! Z.to_nat (b / LONG_BITS).
Proof.
  intros. unfold marked. destruct (m !! _); [|done]. cbn [mbind option_bind fmap option_fmap option_map].
  pose proof LONG_BITS_pos. by rewrite bit_test by (apply Z.mod_pos_bound; lia).
Qed.

(** Setting one bit changes the reading of that bit only. *)
Lemma marked_mark m b m' b' :
  mark m b = Some m' -> 0 <= b -> 0 <= b' ->
  marked m' b' = if b' =? b then Some true else marked m b'.
Proof.
  intros Hm Hb Hb'. pose proof LONG_BITS_pos as HL.
  unfold mark in Hm. destruct (m !! Z.to_nat (b / LONG_BITS)) as [w|] eqn:Hw; [|done].
  cbn [mbind option_bind] in Hm. simplify_eq.
  rewrite !marked_testbit by lia.
  pose proof (Z.mod_pos_bound b LONG_BITS HL). pose proof (Z.mod_pos_bound b' LONG_BITS HL).
  pose proof (Z.div_mod b LONG_BITS ltac:(lia)). pose proof (Z.div_mod b' LONG_BITS ltac:(lia)).
  pose proof (Z.div_pos b LONG_BITS Hb HL). pose proof (Z.div_pos b' LONG_BITS Hb' HL).
  destruct (Nat.eq_dec (Z.to_nat (b' / LONG_BITS)) (Z.to_nat (b / LONG_BITS))) as [E|E].
  - rewrite E, list_lookup_insert_eq by (by eapply lookup_lt_Some).
    cbn [fmap option_fmap option_map]. rewrite Hw. cbn [fmap option_fmap option_map].
    assert (b' / LONG_BITS = b / LONG_BITS) as Ed by lia.
    rewrite Z.lor_spec, Z.shiftl_spec by lia.
    destruct (Z.eqb_spec b' b) as [-> |Hne]; [by rewrite Z.sub_diag, orb_true_r|].
    f_equal. replace (Z.testbit 1 _) with false; [apply orb_false_r|].
    set (k := b' mod LONG_BITS - b mod LONG_BITS). assert (k <> 0) by (unfold k; nia).
    destruct (Z.ltb_spec k 0); [by rewrite Z.testbit_neg_r by lia|].
    replace k with (Z.succ (k - 1)) by lia.
    change 1 with (2 * 0 + 1) at 1. rewrite Z.testbit_odd_succ, Z.bits_0 by lia. done.
  - rewrite list_lookup_insert_ne by done.
    destruct (Z.eqb_spec b' b) as [-> |Hne]; done.
Qed.

Lemma mark_length m b m' : mark m b = Some m' -> length m' = length m.
Proof.
  unfold mark. destruct (m !! _); [|done]. cbn [mbind option_bind]. intros [= <-].
  apply length_insert.
Qed.

Lemma bit_in_mask size b :
  0 <= size -> 0 <= b < size * 3 -> (Z.to_nat (b / LONG_BITS) < Z.to_nat (WORDS_FOR_MASK size))%nat.
Proof.
  intros Hs Hb. pose proof LONG_BITS_pos as HL. unfold WORDS_FOR_MASK.
  apply Z2Nat.inj_lt; [apply Z.div_pos; lia|apply Z.div_pos; lia|].
  apply Z.div_lt_upper_bound; [lia|].
  pose proof (Z.div_mod (size * 3 + LONG_BITS - 1) LONG_BITS ltac:(lia)).
  pose proof (Z.mod_pos_bound (size * 3 + LONG_BITS - 1) LONG_BITS HL). nia.
Qed.

Lemma mark_in_bounds m size b :
  Z.of_nat (length m) = WORDS_FOR_MASK size -> 0 <= size -> 0 <= b < size * 3 ->
  is_Some (mark m b) /\ is_Some (marked m b).
Proof.
  intros Hl Hs Hb. pose proof (bit_in_mask size b Hs Hb).
  destruct (lookup_lt_is_Some_2 m (Z.to_nat (b / LONG_BITS))) as [w Hw]; [lia|].
  unfold mark, marked. rewrite Hw. cbn. split; eauto.
Qed.

(** Marking kind [k] at offset [o] (bit [3o + k]). *)
Lemma mark_kind m size k o :
  Z.of_nat (length m) = WORDS_FOR_MASK size -> size * 3 <= 0x100000000 ->
  0 <= k < 3 -> 0 <= o < size ->
  exists m', mark m (u32 (o * 3 + k)) = Some m' /\ length m' = length m /\
    forall k' o', 0 <= k' < 3 -> 0 <= o' < size ->
      marked m' (u32 (o' * 3 + k')) =
        if (o' =? o) && (k' =? k) then Some true else marked m (u32 (o' * 3 + k')).
Proof.
  intros Hl Hs Hk Ho. rewrite u32_id by (unfold IL_MAX_UINT32; lia).
  destruct (mark_in_bounds m size (o * 3 + k) Hl ltac:(lia) ltac:(lia)) as [[m' Hm] _].
  exists m'. split; [done|]. split; [by eapply mark_length|]. intros k' o' Hk' Ho'.
  rewrite !u32_id by (unfold IL_MAX_UINT32; lia).
  rewrite (marked_mark _ _ _ _ Hm) by lia.
  repeat case_cmp; cbn [andb]; done || lia.
Qed.

(** In a mask made for [size] offsets (below 2^32 / 3) the three kinds of
    marks never leave the array and are independent: after marking one kind
    at one offset, the test of a kind at an offset answers true for exactly
    that kind and offset and what it answered before for every other. *)
Theorem jump_mask_independent m size o o' :
  Z.of_nat (length m) = WORDS_FOR_MASK size -> size * 3 <= 0x100000000 ->
  0 <= o < size -> 0 <= o' < size ->
  (exists m1, MarkInsnStart m o = Some m1 /\ length m1 = length m /\
    IsInsnStart m1 o' = (if o' =? o then Some true else IsInsnStart m o') /\
    IsJumpTarget m1 o' = IsJumpTarget m o' /\
    IsSpecialJumpTarget m1 o' = IsSpecialJumpTarget m o') /\
  (exists m2, MarkJumpTarget m o = Some m2 /\ length m2 = length m /\
    IsInsnStart m2 o' = IsInsnStart m o' /\
    IsJumpTarget m2 o' = (if o' =? o then Some true else IsJumpTarget m o') /\
    IsSpecialJumpTarget m2 o' = IsSpecialJumpTarget m o') /\
  (exists m3, MarkSpecialJumpTarget m o = Some m3 /\ length m3 = length m /\
    IsInsnStart m3 o' = IsInsnStart m o' /\
    IsJumpTarget m3 o' = IsJumpTarget m o' /\
    IsSpecialJumpTarget m3 o' = (if o' =? o then Some true else IsSpecialJumpTarget m o')).
Proof.
  intros Hl Hs Ho Ho'.
  unfold MarkInsnStart, MarkJumpTarget, MarkSpecialJumpTarget, IsInsnStart, IsJumpTarget,
    IsSpecialJumpTarget.
  destruct (mark_kind m size 0 o) as (m1 & E1 & L1 & H1); [done|done|lia|lia|].
  destruct (mark_kind m size 1 o) as (m2 & E2 & L2 & H2); [done|done|lia|lia|].
  destruct (mark_kind m size 2 o) as (m3 & E3 & L3 & H3); [done|done|lia|lia|].
  pose proof (fun k H => H1 k o' H Ho') as K1. pose proof (fun k H => H2 k o' H Ho') as K2.
  pose proof (fun k H => H3 k o' H Ho') as K3.
  pose proof (K1 0 ltac:(lia)) as A1. pose proof (K2 0 ltac:(lia)) as A2.
  pose proof (K3 0 ltac:(lia)) as A3. rewrite !Z.add_0_r in *.
  split; [exists m1|split; [exists m2|exists m3]].
  all: rewrite ?A1, ?A2, ?A3, ?K1, ?K2, ?K3 by lia; cbn [Z.eqb Pos.eqb].
  all: rewrite ?andb_true_r, ?andb_false_r; repeat split; done.
Qed.

(** The zeroed mask has no mark. *)
Lemma new_mask_clear size o :
  0 <= o < size -> size * 3 <= 0x100000000 ->
  IsInsnStart (new_mask size) o = Some false /\
  IsJumpTarget (new_mask size) o = Some false /\
  IsSpecialJumpTarget (new_mask size) o = Some false.
Proof.
  intros Ho Hs. unfold IsInsnStart, IsJumpTarget, IsSpecialJumpTarget.
  rewrite !u32_id by (unfold IL_MAX_UINT32; lia).
  assert (forall b, 0 <= b < size * 3 -> marked (new_mask size) b = Some false) as Hm.
  { intros b Hb. rewrite marked_testbit by lia. unfold new_mask.
    rewrite lookup_replicate_2 by (apply bit_in_mask; lia). cbn. by rewrite Z.bits_0. }
  repeat split; apply Hm; lia.
Qed.

End Mask.

Lemma jump_mask_independent_witness :
  (exists m2, MarkJumpTarget (new_mask 40) 30 = Some m2 /\ IsJumpTarget m2 30 = Some true /\
     IsInsnStart m2 30 = Some false) /\
  (exists m1, MarkInsnStart (new_mask 40) 30 = Some m1 /\ IsJumpTarget m1 7 = Some false).
Proof.
  destruct (jump_mask_independent (new_mask 40) 40 30 30) as (_ & (m2 & E2 & _ & A & B & _) & _);
    [vm_compute; reflexivity|lia|lia|lia|].
  destruct (jump_mask_independent (new_mask 40) 40 30 7) as ((m1 & E1 & _ & _ & C & _) & _);
    [vm_compute; reflexivity|lia|lia|lia|].
  split; [exists m2|exists m1]; repeat split; try done.
Defined.

