(* ===== verification/Scan.v ===== *)
(** * The first pass of the verifier (engine/verify.c, _ILVerify)

    The loop that walks the instructions of a method, checks that none is
    truncated or invalid and records instruction starts and jump targets in
    the jump mask, and the loop that checks that every jump target is an
    instruction start.  [mem] is the memory from [code->code] on, [posn] is
    [pc - code->code] and [len] counts the bytes left, as in the source. *)
From Stdlib Require Import ZArith Lia.
From stdpp Require Import base list option numbers.
From S2P Require Import Prelude Opcodes Cvm JumpMask.
Import OpTable.

Local Open Scope Z_scope.

(** ** Outcomes of the verifier

    [Fail] is a jump to [cleanup] with a verification error; [Wild] a memory
    access outside the buffers; [NotModelled] an instruction of a category
    that is not part of this development; [NoFuel] a loop that did not end
    within the steps it was given. *)
Inductive verify_error := TRUNCATED | BRANCH_ERROR | INSN_ERROR | STACK_ERROR | TYPE_ERROR.

Inductive vres (A : Type) :=
  | Ret (a : A)
  | Fail (e : verify_error)
  | Wild
  | NotModelled
  | NoFuel.
Arguments Ret {A} a.
Arguments Fail {A} e.
Arguments Wild {A}.
Arguments NotModelled {A}.
Arguments NoFuel {A}.

#[export] Instance vres_bind : MBind vres := λ A B f m,
  match m with
  | Ret a => f a
  | Fail e => Fail e
  | Wild => Wild
  | NotModelled => NotModelled
  | NoFuel => NoFuel
  end.

Definition access {A} (o : option A) : vres A :=
  match o with Some a => Ret a | None => Wild end.

(** [mem[i]] and the little-endian reads at [mem + i]. *)
Definition rd (mem : list Z) (i : Z) : vres Z := access (pc_at mem i 0).
Definition rd_uint16 (mem : list Z) (i : Z) : vres Z :=
  b0 ← rd mem i; b1 ← rd mem (i + 1); Ret (IL_READ_UINT16 b0 b1).
Definition rd_uint32 (mem : list Z) (i : Z) : vres Z :=
  b0 ← rd mem i; b1 ← rd mem (i + 1); b2 ← rd mem (i + 2); b3 ← rd mem (i + 3);
  Ret (IL_READ_UINT32 b0 b1 b2 b3).

Section Scan.
Context `{Platform}.

(** The table row of an opcode: [opcode], [insn->size], [insn->args]. *)
Definition table_row (table : list ILOpcodeInfo) (op : Z) : vres ILOpcodeInfo :=
  access (table !! Z.to_nat op).

(** Fetch the instruction size and type; [hasRethrow] becomes true at a
    rethrow instruction. *)
Definition fetch_insn (mem : list Z) (posn len : Z) (hasRethrow : bool)
    : vres (Z * Z * Z * bool) :=
  op ← rd mem posn;
  if negb (op =? IL_OP_PREFIX) then
    row ← table_row ILMainOpcodeTable op;
    if len <? size row then Fail TRUNCATED
    else Ret (op, size row, args row, hasRethrow)
  else if len <? 2 then Fail TRUNCATED
  else
    op ← rd mem (posn + 1);
    row ← table_row ILPrefixOpcodeTable op;
    if len <? size row then Fail TRUNCATED
    else Ret (op + IL_OP_PREFIX, size row, args row,
              hasRethrow || (op =? IL_PREFIX_OP_RETHROW)).

(** Check and mark one jump target. *)
Definition mark_target (codeLen offset : Z) (jumpMask : list Z) : vres (list Z) :=
  if codeLen <=? offset then Fail BRANCH_ERROR else access (MarkJumpTarget jumpMask offset).

(** The cases of a switch instruction, from the last to the first. *)
Fixpoint mark_cases (mem : list Z) (codeLen posn insnSize : Z) (numArgs : nat)
    (jumpMask : list Z) : vres (list Z) :=
  match numArgs with
  | O => Ret jumpMask
  | S numArgs =>
    d ← rd_uint32 mem (posn + 5 + Z.of_nat numArgs * 4);
    jumpMask ← mark_target codeLen (u32 (u32 (posn + insnSize) + u32 (i32 d))) jumpMask;
    mark_cases mem codeLen posn insnSize numArgs jumpMask
  end.

(** The [switch(insnType)] of the loop body: the mask and the final size. *)
Definition scan_args (mem : list Z) (codeLen posn len opcode insnSize insnType : Z)
    (jumpMask : list Z) : vres (list Z * Z) :=
  if insnType =? IL_OPCODE_ARGS_SHORT_JUMP then
    d ← rd mem (posn + 1);
    jumpMask ← mark_target codeLen (u32 (u32 (posn + insnSize) + u32 (i8 d))) jumpMask;
    Ret (jumpMask, insnSize)
  else if insnType =? IL_OPCODE_ARGS_LONG_JUMP then
    d ← rd_uint32 mem (posn + 1);
    jumpMask ← mark_target codeLen (u32 (u32 (posn + insnSize) + u32 (i32 d))) jumpMask;
    Ret (jumpMask, insnSize)
  else if insnType =? IL_OPCODE_ARGS_SWITCH then
    if len <? 5 then Fail TRUNCATED
    else
      numArgs ← rd_uint32 mem (posn + 1);
      let insnSize := u32 (5 + numArgs * 4) in
      if (0x20000000 <=? numArgs) || (len <? insnSize) then Fail TRUNCATED
      else
        jumpMask ← mark_cases mem codeLen posn insnSize (Z.to_nat numArgs) jumpMask;
        Ret (jumpMask, insnSize)
  else if insnType =? IL_OPCODE_ARGS_ANN_DATA then
    if opcode =? IL_OP_ANN_DATA_S then
      if len <? 2 then Fail TRUNCATED
      else
        b ← rd mem (posn + 1);
        let insnSize := Z.land b 0xFF + 2 in
        if len <? insnSize then Fail TRUNCATED else Ret (jumpMask, insnSize)
    else
      if len <? 6 then Fail TRUNCATED
      else
        n ← rd_uint32 mem (posn + 2);
        let insnSize := u32 (n + 6) in
        if len <? insnSize then Fail TRUNCATED else Ret (jumpMask, insnSize)
  else if insnType =? IL_OPCODE_ARGS_ANN_PHI then
    if len <? 3 then Fail TRUNCATED
    else
      n ← rd_uint16 mem (posn + 1);
      let insnSize := n * 2 + 3 in
      if len <? insnSize then Fail TRUNCATED else Ret (jumpMask, insnSize)
  else if insnType =? IL_OPCODE_ARGS_INVALID then Fail INSN_ERROR
  else Ret (jumpMask, insnSize).

(** One turn of the loop: the new mask, [hasRethrow] and the bytes consumed. *)
Definition scan_insn (mem : list Z) (codeLen posn len : Z) (jumpMask : list Z)
    (hasRethrow : bool) : vres (list Z * bool * Z) :=
  jumpMask ← access (MarkInsnStart jumpMask (u32 posn));
  '(opcode, insnSize, insnType, hasRethrow) ← fetch_insn mem posn len hasRethrow;
  '(jumpMask, insnSize) ← scan_args mem codeLen posn len opcode insnSize insnType jumpMask;
  Ret (jumpMask, hasRethrow, insnSize).

(** The loop [while(len > 0)]. *)
Fixpoint scan (fuel : nat) (mem : list Z) (codeLen posn len : Z) (jumpMask : list Z)
    (hasRethrow : bool) : vres (list Z * bool) :=
  if len =? 0 then Ret (jumpMask, hasRethrow)
  else match fuel with
  | O => NoFuel
  | S fuel =>
    '(jumpMask, hasRethrow, insnSize) ←
      scan_insn mem codeLen posn len jumpMask hasRethrow;
    scan fuel mem codeLen (posn + insnSize) (u32 (len - insnSize)) jumpMask hasRethrow
  end.

(** Make sure that all jump targets are instruction starts. *)
Fixpoint check_targets (len : nat) (jumpMask : list Z) : vres () :=
  match len with
  | O => Ret ()
  | S len =>
    t ← access (IsJumpTarget jumpMask (Z.of_nat len));
    i ← access (IsInsnStart jumpMask (Z.of_nat len));
    if (t : bool) && negb i then Fail BRANCH_ERROR else check_targets len jumpMask
  end.

End Scan.

(** ** Partial correctness of the outcomes *)

(** [m] reads no memory outside the buffers and ends, with an error or with a
    result that satisfies [P]. *)
Definition fine {A} (P : A -> Prop) (m : vres A) : Prop :=
  match m with Ret a => P a | Fail _ => True | _ => False end.

Lemma fine_bind {A B} (P : A -> Prop) (Q : B -> Prop) (m : vres A) (f : A -> vres B) :
  fine P m -> (forall a, P a -> fine Q (f a)) -> fine Q (m ≫= f).
Proof. destruct m; cbn; auto. Qed.

Lemma fine_mono {A} (P Q : A -> Prop) (m : vres A) :
  fine P m -> (forall a, P a -> Q a) -> fine Q m.
Proof. destruct m; cbn; auto. Qed.

Lemma fine_if {A} (P : A -> Prop) (b : bool) (m1 m2 : vres A) :
  (b = true -> fine P m1) -> (b = false -> fine P m2) -> fine P (if b then m1 else m2).
Proof. destruct b; auto. Qed.

(** Bytes of a code buffer. *)
Definition bytes (mem : list Z) : Prop := Forall is_byte mem.

Lemma rd_fine mem i : bytes mem -> 0 <= i < Z.of_nat (length mem) -> fine is_byte (rd mem i).
Proof.
  intros Hb Hi. unfold rd, pc_at. rewrite Z.add_0_r, (proj2 (Z.leb_le 0 i)) by lia.
  destruct (lookup_lt_is_Some_2 mem (Z.to_nat i) ltac:(lia)) as [b Hl].
  rewrite Hl. cbn. exact (Forall_lookup_1 _ _ _ _ Hb Hl).
Qed.

Ltac rd_tac :=
  eapply fine_bind; [apply rd_fine; [done|lia]|cbn beta; intros ? ?].

Lemma rd_uint32_fine mem i :
  bytes mem -> 0 <= i -> i + 4 <= Z.of_nat (length mem) ->
  fine (fun n => 0 <= n <= IL_MAX_UINT32) (rd_uint32 mem i).
Proof. intros. unfold rd_uint32. do 4 rd_tac. cbn. apply u32_range. Qed.

Lemma rd_uint16_fine mem i :
  bytes mem -> 0 <= i -> i + 2 <= Z.of_nat (length mem) ->
  fine (fun n => 0 <= n < 0x10000) (rd_uint16 mem i).
Proof. intros. unfold rd_uint16. do 2 rd_tac. cbn. apply u16_range. Qed.

(** What the first pass relies on in the opcode tables: 256 rows each, a size
    that covers the jump offset of a jump, and a positive size wherever the
    scan does not compute one. *)
Definition computed_size (k : Z) : bool :=
  (k =? IL_OPCODE_ARGS_SWITCH) || (k =? IL_OPCODE_ARGS_ANN_DATA) ||
  (k =? IL_OPCODE_ARGS_ANN_PHI) || (k =? IL_OPCODE_ARGS_INVALID).

Definition row_ok (least : Z) (row : ILOpcodeInfo) : bool :=
  (if args row =? IL_OPCODE_ARGS_SHORT_JUMP then size row =? 2 else true) &&
  (if args row =? IL_OPCODE_ARGS_LONG_JUMP then size row =? 5 else true) &&
  (computed_size (args row) || (least <=? size row)) && (0 <=? size row) && (size row <=? 12).

Lemma main_rows : length ILMainOpcodeTable = 256%nat /\ forallb (row_ok 1) ILMainOpcodeTable = true.
Proof. split; vm_compute; reflexivity. Qed.

Lemma prefix_rows :
  length ILPrefixOpcodeTable = 256%nat /\ forallb (row_ok 2) ILPrefixOpcodeTable = true.
Proof. split; vm_compute; reflexivity. Qed.

Lemma table_row_fine table least op :
  length table = 256%nat /\ forallb (row_ok least) table = true -> is_byte op ->
  fine (fun row => row_ok least row = true) (table_row table op).
Proof.
  intros [Hl Hr] Hop. unfold table_row, is_byte in *.
  destruct (lookup_lt_is_Some_2 table (Z.to_nat op) ltac:(lia)) as [row E]. rewrite E. cbn.
  rewrite forallb_forall in Hr. apply Hr, list_elem_of_In. by eapply list_elem_of_lookup_2.
Qed.

(** ** The scan of a buffer that is exactly the method's code *)

Section Correct.
Context {PF : Platform}.
Variables (mem : list Z) (codeLen : Z).
Hypothesis Hbytes : bytes mem.
Hypothesis Hlen : codeLen = Z.of_nat (length mem).
Hypothesis Hsize : codeLen * 3 <= 0x100000000.

Definition mask_ok (m : list Z) : Prop := Z.of_nat (length m) = WORDS_FOR_MASK codeLen.

(** [m'] is [m] with more jump targets. *)
Definition more_targets (m m' : list Z) : Prop :=
  mask_ok m' /\
  (forall o, 0 <= o < codeLen -> IsInsnStart m' o = IsInsnStart m o) /\
  (forall o, 0 <= o < codeLen -> IsJumpTarget m o = Some true -> IsJumpTarget m' o = Some true).

Lemma more_targets_refl m : mask_ok m -> more_targets m m.
Proof. done. Qed.

Lemma more_targets_trans m1 m2 m3 :
  more_targets m1 m2 -> more_targets m2 m3 -> more_targets m1 m3.
Proof.
  intros (_ & A1 & B1) (O & A2 & B2). split; [done|split]; intros o Ho.
  - by rewrite A2, A1.
  - auto.
Qed.

Lemma mark_target_fine m offset :
  mask_ok m -> 0 <= offset ->
  fine (fun m' => more_targets m m' /\ offset < codeLen /\ IsJumpTarget m' offset = Some true)
    (mark_target codeLen offset m).
Proof.
  intros Hm Ho. unfold mark_target. destruct (Z.leb_spec codeLen offset); [done|].
  destruct (mark_kind m codeLen 1 offset Hm Hsize ltac:(lia) ltac:(lia)) as (m' & E & L & K).
  unfold MarkJumpTarget. rewrite E. cbn [access fine].
  split; [split; [unfold mask_ok in *; congruence|split]|split; [done|]].
  - intros o Hoo. unfold IsInsnStart. pose proof (K 0 o ltac:(lia) Hoo) as K0.
    rewrite Z.add_0_r, andb_false_r in K0. done.
  - intros o Hoo HT. unfold IsJumpTarget in *. rewrite K by lia. by destruct (_ && _).
  - unfold IsJumpTarget. by rewrite K, !Z.eqb_refl by lia.
Qed.

Lemma mark_cases_fine posn insnSize n m :
  mask_ok m -> 0 <= posn -> posn + 5 + Z.of_nat n * 4 <= codeLen ->
  fine (more_targets m) (mark_cases mem codeLen posn insnSize n m).
Proof.
  revert m. induction n as [|n IH]; intros m Hm Hp Hn; cbn [mark_cases].
  - by apply more_targets_refl.
  - eapply fine_bind; [apply rd_uint32_fine; [done|lia|lia]|]. intros d Hd.
    eapply fine_bind; [apply mark_target_fine; [done|apply u32_range]|].
    intros m1 (M & _). eapply fine_mono; [apply IH; [apply M|lia|lia]|].
    intros m2 M2. by eapply more_targets_trans.
Qed.

(** The long data annotation whose 32-bit size wraps to zero. *)
Definition wraps (posn : Z) : Prop :=
  rd mem posn = Ret IL_OP_PREFIX /\ rd mem (posn + 1) = Ret IL_PREFIX_OP_ANN_DATA /\
  rd_uint32 mem (posn + 2) = Ret 0xFFFFFFFA.

(** The target of the short or long jump at [posn]. *)
Definition jump_dest (posn opcode insnSize insnType : Z) : vres Z :=
  if insnType =? IL_OPCODE_ARGS_SHORT_JUMP then
    d ← rd mem (posn + 1); Ret (u32 (u32 (posn + insnSize) + u32 (i8 d)))
  else
    d ← rd_uint32 mem (posn + 1); Ret (u32 (u32 (posn + insnSize) + u32 (i32 d))).

Lemma ann_data_row table op0 op row :
  forallb (fun i => match table !! Z.to_nat i with
                    | Some r => implb (args r =? IL_OPCODE_ARGS_ANN_DATA) (i =? op0)
                    | None => true end) (seqZ 0 256) = true ->
  is_byte op -> table_row table op = Ret row -> args row = IL_OPCODE_ARGS_ANN_DATA -> op = op0.
Proof.
  intros Hf Hop Hr Ha. pose proof (byte_enum _ Hf op Hop) as Hi. cbn beta in Hi.
  unfold table_row in Hr. destruct (table !! Z.to_nat op); [|done].
  cbn in Hr. injection Hr as ->. rewrite Ha in Hi. cbn in Hi. by apply Z.eqb_eq.
Qed.

Definition fetched (posn len : Z) : Z * Z * Z * bool -> Prop :=
  fun '(opcode, insnSize, insnType, _) =>
    0 <= insnSize <= len /\
    (insnType = IL_OPCODE_ARGS_SHORT_JUMP -> insnSize = 2) /\
    (insnType = IL_OPCODE_ARGS_LONG_JUMP -> insnSize = 5) /\
    (computed_size insnType = false -> 0 < insnSize) /\
    (insnType = IL_OPCODE_ARGS_ANN_DATA -> opcode <> IL_OP_ANN_DATA_S ->
       rd mem posn = Ret IL_OP_PREFIX /\ rd mem (posn + 1) = Ret IL_PREFIX_OP_ANN_DATA).

Lemma row_ok_facts least row :
  row_ok least row = true -> 0 < least ->
  0 <= size row /\ (args row = IL_OPCODE_ARGS_SHORT_JUMP -> size row = 2) /\
  (args row = IL_OPCODE_ARGS_LONG_JUMP -> size row = 5) /\
  (computed_size (args row) = false -> 0 < size row).
Proof.
  unfold row_ok. intros Hr ?. repeat (apply andb_true_iff in Hr as [Hr ?]). bool_to_prop.
  repeat split; intros; try lia.
  - match goal with E : args row = _ |- _ => rewrite E in * end. by apply Z.eqb_eq.
  - match goal with E : args row = _ |- _ => rewrite E in * end. by apply Z.eqb_eq.
  - match goal with E : computed_size _ = _, D : _ \/ _ |- _ => rewrite E in D; destruct D as [D|D] end;
      bool_to_prop; [done|lia].
Qed.

Lemma fetch_insn_fine posn len h :
  0 <= posn -> 0 < len -> posn + len = codeLen -> fine (fetched posn len) (fetch_insn mem posn len h).
Proof.
  intros Hp Hl Hpl. unfold fetch_insn.
  destruct (rd mem posn) as [op| | | |] eqn:Eop;
    pose proof (rd_fine mem posn Hbytes ltac:(lia)) as Hop; rewrite Eop in Hop; try done.
  cbn [mbind vres_bind fine] in *. apply fine_if; intros Hpre.
  - destruct (table_row ILMainOpcodeTable op) as [row| | | |] eqn:Er;
      pose proof (table_row_fine _ _ op main_rows Hop) as Hr; rewrite Er in Hr; try done.
    destruct (row_ok_facts _ _ Hr ltac:(lia)) as (? & ? & ? & ?). cbn [mbind vres_bind].
    apply fine_if; intros Hs; [done|]. bool_to_prop. cbn.
    split; [lia|split; [auto|split; [auto|split; [auto|]]]].
    intros Ha Hne. exfalso. apply Hne.
    eapply (ann_data_row ILMainOpcodeTable); [vm_compute; reflexivity|done|exact Er|done].
  - apply fine_if; intros Hl2; [done|]. bool_to_prop. subst op.
    destruct (rd mem (posn + 1)) as [op| | | |] eqn:Eop1;
      pose proof (rd_fine mem (posn + 1) Hbytes ltac:(lia)) as Hop1; rewrite Eop1 in Hop1; try done.
    cbn [mbind vres_bind fine] in *.
    destruct (table_row ILPrefixOpcodeTable op) as [row| | | |] eqn:Er;
      pose proof (table_row_fine _ _ op prefix_rows Hop1) as Hr; rewrite Er in Hr; try done.
    destruct (row_ok_facts _ _ Hr ltac:(lia)) as (? & ? & ? & ?). cbn [mbind vres_bind].
    apply fine_if; intros Hs; [done|]. bool_to_prop. cbn.
    split; [lia|split; [auto|split; [auto|split; [auto|]]]].
    intros Ha _. split; [done|]. rewrite Eop1. f_equal.
    eapply (ann_data_row ILPrefixOpcodeTable); [vm_compute; reflexivity|done|exact Er|done].
Qed.

(** One instruction: the mask keeps its shape, a jump's destination is marked,
    and the scan moves on unless the size wraps. *)
Lemma scan_args_fine posn len opcode insnSize insnType h m :
  mask_ok m -> 0 <= posn -> 0 < len -> posn + len = codeLen ->
  fetched posn len (opcode, insnSize, insnType, h) ->
  fine (fun '(m', n) => more_targets m m' /\ 0 <= n <= len /\ (n = 0 -> wraps posn) /\
          (insnType = IL_OPCODE_ARGS_SHORT_JUMP \/ insnType = IL_OPCODE_ARGS_LONG_JUMP ->
           exists d, jump_dest posn opcode insnSize insnType = Ret d /\ d < codeLen /\
             IsJumpTarget m' d = Some true))
    (scan_args mem codeLen posn len opcode insnSize insnType m).
Proof.
  intros Hm Hp Hl Hpl (Hn & Hs & Hlj & Hpos & Hann). unfold scan_args.
  apply fine_if; intros E1; [|apply fine_if; intros E2; [|apply fine_if; intros E3;
    [|apply fine_if; intros E4; [|apply fine_if; intros E5; [|apply fine_if; intros E6; [done|]]]]]].
  - bool_to_prop. rewrite (Hs E1) in *. unfold jump_dest. rewrite E1.
    destruct (rd mem (posn + 1)) as [d| | | |] eqn:Ed;
      pose proof (rd_fine mem (posn + 1) Hbytes ltac:(lia)) as Hd; rewrite Ed in Hd; try done.
    cbn [mbind vres_bind]. eapply fine_bind; [apply mark_target_fine; [done|apply u32_range]|].
    cbn. intros m' (M & Hd1 & Hd2). split; [done|split; [lia|split; [lia|eauto]]].
  - bool_to_prop. rewrite (Hlj E2) in *. unfold jump_dest. rewrite E2.
    destruct (rd_uint32 mem (posn + 1)) as [d| | | |] eqn:Ed;
      pose proof (rd_uint32_fine mem (posn + 1) Hbytes ltac:(lia) ltac:(lia)) as Hd;
      rewrite Ed in Hd; try done.
    cbn [mbind vres_bind]. eapply fine_bind; [apply mark_target_fine; [done|apply u32_range]|].
    cbn. intros m' (M & Hd1 & Hd2). split; [done|split; [lia|split; [lia|eauto]]].
  - bool_to_prop. apply fine_if; intros Hl5; [done|]. bool_to_prop.
    eapply fine_bind; [apply rd_uint32_fine; [done|lia|lia]|]. cbn. intros n Hnn.
    apply fine_if; intros Ht; [done|]. bool_to_prop.
    assert (u32 (5 + n * 4) = 5 + n * 4) as Eu by (apply u32_id; unfold IL_MAX_UINT32; lia).
    rewrite Eu in *.
    eapply fine_bind; [apply mark_cases_fine; [done|lia|lia]|]. cbn. intros m' M.
    split; [done|split; [lia|split; [lia|intros [E|E]; congruence]]].
  - bool_to_prop. apply fine_if; intros E5.
    + apply fine_if; intros Hl2; [done|]. bool_to_prop. rd_tac.
      apply fine_if; intros Ht; [done|]. bool_to_prop. cbn.
      rewrite land_FF in *. split; [by apply more_targets_refl|].
      pose proof (Z.mod_pos_bound a 256 ltac:(lia)).
      split; [lia|split; [lia|intros [E|E]; congruence]].
    + apply fine_if; intros Hl6; [done|]. bool_to_prop.
      destruct (rd_uint32 mem (posn + 2)) as [n| | | |] eqn:En;
        pose proof (rd_uint32_fine mem (posn + 2) Hbytes ltac:(lia) ltac:(lia)) as Hnn;
        rewrite En in Hnn; try done.
      cbn [mbind vres_bind fine] in *. apply fine_if; intros Ht; [done|]. bool_to_prop. cbn.
      pose proof (u32_range (n + 6)).
      split; [by apply more_targets_refl|]. split; [lia|split; [|intros [E|E]; congruence]].
      intros Hz. destruct (Hann E4 E5) as [A B]. split; [done|split; [done|]].
      rewrite En. f_equal. revert Hz. width_lia.
  - bool_to_prop. apply fine_if; intros Hl3; [done|]. bool_to_prop.
    eapply fine_bind; [apply rd_uint16_fine; [done|lia|lia]|]. cbn. intros n Hnn.
    apply fine_if; intros Ht; [done|]. bool_to_prop. cbn.
    split; [by apply more_targets_refl|]. split; [lia|split; [lia|intros [E|E]; congruence]].
  - cbn. split; [by apply more_targets_refl|]. bool_to_prop.
    assert (computed_size insnType = false) as Hc.
    { unfold computed_size. by rewrite !orb_false_iff, !Z.eqb_neq. }
    specialize (Hpos Hc). split; [lia|split; [lia|intros [E|E]; congruence]].
Qed.

Lemma fetch_insn_flag posn len h h' op n ty r :
  fetch_insn mem posn len h = Ret (op, n, ty, r) ->
  exists r', fetch_insn mem posn len h' = Ret (op, n, ty, r').
Proof.
  unfold fetch_insn. destruct (rd mem posn); cbn; try done. case_match.
  - destruct (table_row _ _); cbn; try done. case_match; [done|]. intros [= <- <- <- _]. eauto.
  - case_match; [done|]. destruct (rd mem (posn + 1)); cbn; try done.
    destruct (table_row _ _); cbn; try done. case_match; [done|]. intros [= <- <- <- _]. eauto.
Qed.

(** The jumps among the marked instructions have marked destinations. *)
Definition jumps_marked (m : list Z) : Prop :=
  forall p h op n ty r, 0 <= p < codeLen -> IsInsnStart m p = Some true ->
    fetch_insn mem p (codeLen - p) h = Ret (op, n, ty, r) ->
    ty = IL_OPCODE_ARGS_SHORT_JUMP \/ ty = IL_OPCODE_ARGS_LONG_JUMP ->
    exists d, jump_dest p op n ty = Ret d /\ 0 <= d < codeLen /\ IsJumpTarget m d = Some true.

Lemma jump_dest_range p op n ty d : jump_dest p op n ty = Ret d -> 0 <= d.
Proof.
  unfold jump_dest. case_match; [destruct (rd _ _)|destruct (rd_uint32 _ _)]; cbn; try done.
  all: intros [= <-]; apply u32_range.
Qed.

Lemma scan_insn_fine posn len m h :
  mask_ok m -> jumps_marked m -> 0 <= posn -> 0 < len -> posn + len = codeLen ->
  fine (fun '(m', _, n) => mask_ok m' /\ jumps_marked m' /\ 0 <= n <= len /\
          (n = 0 -> wraps posn) /\
          (forall o, 0 <= o < codeLen ->
             IsInsnStart m' o = if o =? posn then Some true else IsInsnStart m o))
    (scan_insn mem codeLen posn len m h).
Proof.
  intros Hm Hj Hp Hl Hpl. unfold scan_insn.
  destruct (mark_kind m codeLen 0 posn Hm Hsize ltac:(lia) ltac:(lia)) as (m1 & E & L & K).
  rewrite Z.add_0_r in E. unfold MarkInsnStart.
  rewrite (u32_id posn) by (unfold IL_MAX_UINT32; lia). rewrite E. cbn [access mbind vres_bind].
  assert (mask_ok m1) as Hm1 by (unfold mask_ok in *; congruence).
  destruct (fetch_insn mem posn len h) as [[[[op n] ty] r]| | | |] eqn:Ef;
    pose proof (fetch_insn_fine posn len h Hp Hl Hpl) as Hf; rewrite Ef in Hf; try done.
  cbn [mbind vres_bind].
  eapply fine_bind; [exact (scan_args_fine posn len op n ty r m1 Hm1 Hp Hl Hpl Hf)|].
  intros [m' n'] ((Hm' & HI & HT) & Hn' & Hw & Hd). cbn.
  assert (forall o, 0 <= o < codeLen ->
    IsInsnStart m' o = if o =? posn then Some true else IsInsnStart m o) as HI'.
  { intros o Ho. rewrite HI by done. pose proof (K 0 o ltac:(lia) Ho) as K0.
    rewrite !Z.add_0_r, andb_true_r in K0. exact K0. }
  split; [done|split; [|split; [done|split; [done|exact HI']]]].
  - intros p h0 op0 n0 ty0 r0 Hp0 HS Hf0 Hty. rewrite HI' in HS by done.
    destruct (Z.eqb_spec p posn) as [-> |Hne].
    + replace (codeLen - posn) with len in Hf0 by lia.
      destruct (fetch_insn_flag _ _ _ h _ _ _ _ Hf0) as [r' Hf1].
      rewrite Ef in Hf1. injection Hf1 as -> -> -> _.
      destruct (Hd Hty) as (d & Ed & ? & ?). pose proof (jump_dest_range _ _ _ _ _ Ed). eauto.
    + destruct (Hj p h0 op0 n0 ty0 r0 Hp0 HS Hf0 Hty) as (d & Ed & Hdr & HJ).
      exists d. split; [done|split; [done|]]. apply HT; [done|].
      unfold IsJumpTarget in *. rewrite K by lia. by destruct (_ && _).
Qed.

(** The loop: from a position, with enough fuel and no wrapping annotation. *)
Lemma scan_fine fuel posn len m h :
  mask_ok m -> jumps_marked m -> 0 <= posn -> 0 <= len -> posn + len = codeLen ->
  (forall p, 0 <= p < codeLen -> ~ wraps p) -> len <= Z.of_nat fuel ->
  fine (fun '(m', _) => mask_ok m' /\ jumps_marked m' /\
          (forall o, 0 <= o < codeLen -> IsInsnStart m o = Some true -> IsInsnStart m' o = Some true) /\
          (0 < len -> IsInsnStart m' posn = Some true))
    (scan fuel mem codeLen posn len m h).
Proof.
  revert posn len m h. induction fuel as [|fuel IH]; intros posn len m h Hm Hj Hp Hl Hpl Hw Hf;
    cbn [scan]; apply fine_if; intros E; bool_to_prop; try lia.
  1, 2: cbn; repeat split; auto; lia.
  eapply fine_bind; [apply scan_insn_fine; [done|done|lia|lia|done]|].
  intros [[m1 h1] n] (Hm1 & Hj1 & Hn & Hz & HI').
  assert (IsInsnStart m1 posn = Some true) as HS by (rewrite HI' by lia; by rewrite Z.eqb_refl).
  assert (forall o, 0 <= o < codeLen -> IsInsnStart m o = Some true -> IsInsnStart m1 o = Some true) as HI
    by (intros o Ho Hs; rewrite HI' by done; by destruct (o =? posn)).
  assert (n <> 0) by (intros ->; apply (Hw posn); [lia|auto]).
  rewrite u32_id by (unfold IL_MAX_UINT32; lia).
  eapply fine_mono; [apply IH; [done|done|lia|lia|lia|done|lia]|].
  intros [m2 h2] (A & B & C & D). repeat split; auto. intros _. apply C; [lia|done].
Qed.

Lemma check_targets_sound n m :
  Z.of_nat n <= codeLen -> check_targets n m = Ret () ->
  forall o, 0 <= o < Z.of_nat n -> IsJumpTarget m o = Some true -> IsInsnStart m o = Some true.
Proof.
  induction n as [|n IH]; cbn [check_targets]; intros Hn Hc o Ho HT; [lia|].
  destruct (IsJumpTarget m (Z.of_nat n)) as [t|] eqn:Et; [|done]. cbn in Hc.
  destruct (IsInsnStart m (Z.of_nat n)) as [i|] eqn:Ei; [|done]. cbn in Hc.
  destruct (t && negb i) eqn:Eb; [done|].
  destruct (Z.eq_dec o (Z.of_nat n)) as [-> |Hne]; [|apply IH; lia || done].
  rewrite Et in HT. injection HT as ->. destruct i; [done|done].
Qed.

Lemma new_mask_ok : mask_ok (new_mask codeLen).
Proof.
  unfold mask_ok, new_mask. rewrite length_replicate, Z2Nat.id; [done|].
  apply Z.div_pos; [unfold LONG_BITS|unfold LONG_BITS]; destruct IL_NATIVE_INT64; lia.
Qed.

Lemma new_mask_jumps : jumps_marked (new_mask codeLen).
Proof.
  intros p h op n ty r Hp HS. destruct (new_mask_clear codeLen p Hp Hsize) as (E & _ & _).
  congruence.
Qed.

End Correct.

(** ** Properties *)

(** C34: On a method body of at most 2^32 / 3 bytes, in its own buffer, that
    holds no long data annotation whose size field is 0xFFFFFFFA, the first
    pass of the verifier ends, whatever the bytes, without reading outside the
    body or the jump mask: it accepts or reports an error. *)
Theorem scan_total `{Platform} mem fuel h :
  bytes mem -> Z.of_nat (length mem) * 3 <= 0x100000000 ->
  (forall p, 0 <= p < Z.of_nat (length mem) -> ~ wraps mem p) ->
  (length mem <= fuel)%nat ->
  let codeLen := Z.of_nat (length mem) in
  (exists m h', scan fuel mem codeLen 0 codeLen (new_mask codeLen) h = Ret (m, h')) \/
  (exists e, scan fuel mem codeLen 0 codeLen (new_mask codeLen) h = Fail e).
Proof.
  intros Hb Hs Hw Hf codeLen.
  pose proof (scan_fine mem codeLen Hb eq_refl Hs fuel 0 codeLen (new_mask codeLen) h
    (new_mask_ok mem codeLen eq_refl) (new_mask_jumps mem codeLen Hs)
    ltac:(lia) ltac:(lia) ltac:(lia) Hw ltac:(lia)) as Hfine.
  destruct (scan fuel mem codeLen 0 codeLen _ h) as [[m h']|e| | |]; cbn in Hfine; try done; eauto.
Qed.

(** C35: When both loops of the first pass accept a body of at most 2^32 / 3
    bytes without a long data annotation whose size wraps, every short or long
    jump at a marked instruction goes to a place inside the body that is
    itself a marked instruction, and the first instruction is marked. *)
Theorem scan_jumps_to_instructions `{Platform} mem fuel h m h' :
  bytes mem -> Z.of_nat (length mem) * 3 <= 0x100000000 ->
  (forall p, 0 <= p < Z.of_nat (length mem) -> ~ wraps mem p) ->
  (length mem <= fuel)%nat ->
  let codeLen := Z.of_nat (length mem) in
  scan fuel mem codeLen 0 codeLen (new_mask codeLen) h = Ret (m, h') ->
  check_targets (length mem) m = Ret () ->
  (0 < codeLen -> IsInsnStart m 0 = Some true) /\
  (forall p op n ty r, 0 <= p < codeLen -> IsInsnStart m p = Some true ->
     fetch_insn mem p (codeLen - p) false = Ret (op, n, ty, r) ->
     ty = IL_OPCODE_ARGS_SHORT_JUMP \/ ty = IL_OPCODE_ARGS_LONG_JUMP ->
     exists d, jump_dest mem p op n ty = Ret d /\ 0 <= d < codeLen /\
       IsInsnStart m d = Some true).
Proof.
  intros Hb Hs Hw Hf codeLen Hscan Hcheck.
  pose proof (scan_fine mem codeLen Hb eq_refl Hs fuel 0 codeLen (new_mask codeLen) h
    (new_mask_ok mem codeLen eq_refl) (new_mask_jumps mem codeLen Hs)
    ltac:(lia) ltac:(lia) ltac:(lia) Hw ltac:(lia)) as Hfine.
  rewrite Hscan in Hfine. destruct Hfine as (Hm & Hj & _ & H0).
  split; [done|]. intros p op n ty r Hp HS Hfi Hty.
  destruct (Hj p false op n ty r Hp HS Hfi Hty) as (d & Hd & Hdr & HT).
  exists d. split; [done|split; [done|]].
  exact (check_targets_sound mem codeLen (length mem) m (Z.le_refl _) Hcheck d Hdr HT).
Qed.

(** The first pass does not end on a body that is a long data annotation
    with size field 0xFFFFFFFA: the 32-bit sum of the size and the 6 bytes of
    the header wraps to zero, so the loop stays at the instruction for ever. *)
Theorem scan_wrapped_annotation_diverges `{Platform} fuel :
  let mem := [0xFE; 0x22; 0xFA; 0xFF; 0xFF; 0xFF] in
  scan fuel mem 6 0 6 (new_mask 6) false = NoFuel.
Proof.
  intros mem.
  assert (forall m, Z.of_nat (length m) = WORDS_FOR_MASK 6 ->
    exists m', scan_insn mem 6 0 6 m false = Ret (m', false, 0) /\
      Z.of_nat (length m') = WORDS_FOR_MASK 6) as Hstep.
  { intros m Hm. destruct (mark_kind m 6 0 0 Hm ltac:(lia) ltac:(lia) ltac:(lia)) as (m' & E & L & _).
    exists m'. unfold scan_insn, MarkInsnStart. change (u32 (u32 0 * 3)) with (u32 (0 * 3 + 0)).
    rewrite E. split; [vm_compute; reflexivity|congruence]. }
  assert (Z.of_nat (length (new_mask 6)) = WORDS_FOR_MASK 6) as H0 by (apply (new_mask_ok mem); done).
  revert H0. generalize (new_mask 6). induction fuel as [|fuel IH]; intros m Hm; [done|].
  cbn [scan Z.eqb]. destruct (Hstep m Hm) as (m' & -> & Hm'). cbn [mbind vres_bind].
  exact (IH m' Hm').
Qed.

Definition scan_example : list Z := [0x16; 0x2D; 0x01; 0x00; 0x2A].

Lemma scan_example_bytes : bytes scan_example.
Proof. repeat (apply Forall_cons_2; [unfold is_byte; lia|]). apply Forall_nil_2. Qed.

Lemma scan_example_wraps p : 0 <= p < 5 -> ~ wraps scan_example p.
Proof.
  intros Hp (H & _). assert (p = 0 \/ p = 1 \/ p = 2 \/ p = 3 \/ p = 4) as Hc by lia.
  destruct Hc as [->|[->|[->|[->| ->]]]]; vm_compute in H; congruence.
Qed.

Lemma scan_total_witness :
  (exists m h', scan 5 scan_example 5 0 5 (new_mask 5) false = Ret (m, h')) \/
  (exists e, scan 5 scan_example 5 0 5 (new_mask 5) false = Fail e).
Proof.
  apply (scan_total scan_example 5 false scan_example_bytes);
    [vm_compute; discriminate|exact scan_example_wraps|vm_compute; lia].
Defined.

Lemma scan_jumps_to_instructions_witness :
  exists m, scan 5 scan_example 5 0 5 (new_mask 5) false = Ret (m, false) /\
    exists d, jump_dest scan_example 1 0x2D 2 IL_OPCODE_ARGS_SHORT_JUMP = Ret d /\ d = 4 /\
      IsInsnStart m d = Some true.
Proof.
  eexists. split; [vm_compute; reflexivity|].
  match goal with |- context [IsInsnStart ?m _] =>
    destruct (scan_jumps_to_instructions scan_example 5 false m false scan_example_bytes
      ltac:(vm_compute; discriminate) scan_example_wraps ltac:(vm_compute; lia)
      ltac:(vm_compute; reflexivity) ltac:(vm_compute; reflexivity)) as [_ Hj] end.
  destruct (Hj 1 0x2D 2 IL_OPCODE_ARGS_SHORT_JUMP false ltac:(vm_compute; split; congruence)
    ltac:(vm_compute; reflexivity) ltac:(vm_compute; reflexivity) ltac:(left; reflexivity))
    as (d & Hd & _ & HS).
  exists d. split; [exact Hd|split; [|exact HS]]. vm_compute in Hd. congruence.
Defined.
