(* ===== verification/Coder.v ===== *)
(** * The coder interface and its CVM implementation (engine/cvmc*.c, null_coder.c)

    [ILCoder] is the part of the ILCoderClass method table (include/il_coder.h)
    that the verifier calls for constants, arithmetic, conversions,
    comparisons and stack operations.  Its instances are the CVM coder, which
    appends bytecode to a buffer and tracks the height of the CVM stack, and
    the null coder, which does nothing.  The buffer is taken to be unbounded:
    cache exhaustion, which restarts the conversion of the method, is not
    modelled. *)
From Stdlib Require Import ZArith Lia.
From stdpp Require Import base list option numbers decidable.
From S2P Require Import Prelude Opcodes Cvm.

Local Open Scope Z_scope.

(** ** Engine types and stack items (il_coder.h) *)

Inductive ILEngineType :=
  | ILEngineType_I4
  | ILEngineType_I8
  | ILEngineType_I
  | ILEngineType_F
  | ILEngineType_M
  | ILEngineType_O
  | ILEngineType_T
  | ILEngineType_MV
  | ILEngineType_Invalid
  | ILEngineType_TypedRef
  | ILEngineType_CM.

#[export] Instance ILEngineType_eq_dec : EqDecision ILEngineType.
Proof. solve_decision. Defined.

(** [a == b] on engine types. *)
Definition is_type (a b : ILEngineType) : bool := bool_decide (a = b).

(** The enumeration value. *)
Definition engine_number (t : ILEngineType) : nat :=
  match t with
  | ILEngineType_I4 => 0
  | ILEngineType_I8 => 1
  | ILEngineType_I => 2
  | ILEngineType_F => 3
  | ILEngineType_M => 4
  | ILEngineType_O => 5
  | ILEngineType_T => 6
  | ILEngineType_MV => 7
  | ILEngineType_Invalid => 8
  | ILEngineType_TypedRef => 9
  | ILEngineType_CM => 10
  end.

(** [typeInfo] is a pointer to an ILType, 0 for none. *)
Record ILEngineStackItem := mk_item { engineType : ILEngineType; typeInfo : Z }.

(** ** The interface

    [arg] of [ILCoderConstant] is the memory from the instruction's argument
    on; [None] is a read outside it. *)
Class ILCoder (C : Type) := {
  ILCoderConstant : C -> Z -> list Z -> option C;
  ILCoderBinary : C -> Z -> ILEngineType -> ILEngineType -> C;
  ILCoderBinaryPtr : C -> Z -> ILEngineType -> ILEngineType -> C;
  ILCoderShift : C -> Z -> ILEngineType -> ILEngineType -> C;
  ILCoderUnary : C -> Z -> ILEngineType -> C;
  ILCoderConv : C -> Z -> ILEngineType -> C;
  ILCoderCompare : C -> Z -> ILEngineType -> ILEngineType -> bool -> C;
  ILCoderDup : C -> ILEngineType -> Z -> C;
  ILCoderPop : C -> ILEngineType -> Z -> C;
}.

(** The null coder, used by ilverify: no output at all. *)
Definition Coder_Constant (coder : unit) (opcode : Z) (arg : list Z) : option unit := Some coder.
Definition Coder_Binary (coder : unit) (opcode : Z) (type1 type2 : ILEngineType) : unit := coder.
Definition Coder_BinaryPtr (coder : unit) (opcode : Z) (type1 type2 : ILEngineType) : unit := coder.
Definition Coder_Shift (coder : unit) (opcode : Z) (type1 type2 : ILEngineType) : unit := coder.
Definition Coder_Unary (coder : unit) (opcode : Z) (type : ILEngineType) : unit := coder.
Definition Coder_Conv (coder : unit) (opcode : Z) (type : ILEngineType) : unit := coder.
Definition Coder_Compare (coder : unit) (opcode : Z) (type1 type2 : ILEngineType)
    (invertTest : bool) : unit := coder.
Definition Coder_Dup (coder : unit) (valueType : ILEngineType) (type : Z) : unit := coder.
Definition Coder_Pop (coder : unit) (valueType : ILEngineType) (type : Z) : unit := coder.

#[export] Instance null_coder : ILCoder unit := {
  ILCoderConstant := Coder_Constant; ILCoderBinary := Coder_Binary;
  ILCoderBinaryPtr := Coder_BinaryPtr; ILCoderShift := Coder_Shift;
  ILCoderUnary := Coder_Unary; ILCoderConv := Coder_Conv; ILCoderCompare := Coder_Compare;
  ILCoderDup := Coder_Dup; ILCoderPop := Coder_Pop }.

(** ** The CVM coder

    ILCVMLabel in its two uses: a reference to a label that has no position
    yet, from a branch at [ref_offset] or (when [ref_address] is given, the
    position of the entry) from a switch table whose instruction is at
    [ref_offset]; and the label of an IL address, with its position in the
    output when it is known.  [None] is ILCVM_LABEL_UNDEF. *)
Record ILCVMRef := mk_ref { ref_address : option Z; ref_offset : Z }.
Record ILCVMLabel := mk_label {
  label_address : Z; label_offset : option Z; nextRef : list ILCVMRef }.

(** The fields of ILCVMCoder that the modelled operations use: the bytes output
    since [start], the three stack heights, the labels (newest first), the
    position of the switch instruction that is being output and the positions
    of the arguments and locals in the frame. *)
Record ILCVMCoder := mk_coder {
  code : list Z; height : Z; minHeight : Z; maxHeight : Z;
  labelList : list ILCVMLabel; switchStart : Z;
  argOffsets : list Z; localOffsets : list Z }.

Section CVMCoder.
Context {PF : Platform}.

(** [GetTypeSize(process, type)], which layout.c computes. *)
Variable GetTypeSize : Z -> Z.

Definition CVM_WORDS_PER_TYPED_REF : Z :=
  (2 * (if IL_NATIVE_INT64 then 8 else 4) + sizeof_CVMWord - 1) / sizeof_CVMWord.

(** *** Output macros (cvmc_gen.h, bytecode form) and CVM_ADJUST (cvmc.c) *)

Definition CVM_BYTE (coder : ILCVMCoder) (byte : Z) : ILCVMCoder :=
  mk_coder (code coder ++ [u8 byte]) (height coder) (minHeight coder) (maxHeight coder)
    (labelList coder) (switchStart coder) (argOffsets coder) (localOffsets coder).

Definition CVM_WORD (coder : ILCVMCoder) (value : Z) : ILCVMCoder :=
  CVM_BYTE (CVM_BYTE (CVM_BYTE (CVM_BYTE coder value) (Z.shiftr value 8))
    (Z.shiftr value 16)) (Z.shiftr value 24).

Definition CVM_OUT_NONE (coder : ILCVMCoder) (opcode : Z) : ILCVMCoder := CVM_BYTE coder opcode.

Definition CVMP_OUT_NONE (coder : ILCVMCoder) (opcode : Z) : ILCVMCoder :=
  CVM_BYTE (CVM_BYTE coder COP_PREFIX) opcode.

Definition CVM_OUT_BYTE (coder : ILCVMCoder) (opcode value : Z) : ILCVMCoder :=
  CVM_BYTE (CVM_BYTE coder opcode) value.

Definition CVM_OUT_WORD (coder : ILCVMCoder) (opcode value : Z) : ILCVMCoder :=
  CVM_WORD (CVM_BYTE coder opcode) value.

Definition CVM_OUT_WIDE (coder : ILCVMCoder) (opcode value : Z) : ILCVMCoder :=
  if value <? 256 then CVM_BYTE (CVM_BYTE coder opcode) value
  else CVM_WORD (CVM_BYTE (CVM_BYTE coder COP_WIDE) opcode) value.

(** Copy [n] bytes of the argument: CVM_OUT_LONG, CVM_OUT_FLOAT, CVM_OUT_DOUBLE. *)
Fixpoint out_arg (n : nat) (coder : ILCVMCoder) (arg : list Z) : option ILCVMCoder :=
  match n, arg with
  | O, _ => Some coder
  | S n, b :: arg => out_arg n (CVM_BYTE coder b) arg
  | S _, [] => None
  end.

Definition CVM_OUT_LONG (coder : ILCVMCoder) (opcode : Z) (arg : list Z) : option ILCVMCoder :=
  out_arg 8 (CVM_BYTE coder opcode) arg.
Definition CVM_OUT_FLOAT (coder : ILCVMCoder) (opcode : Z) (arg : list Z) : option ILCVMCoder :=
  out_arg 4 (CVM_BYTE coder opcode) arg.
Definition CVM_OUT_DOUBLE (coder : ILCVMCoder) (opcode : Z) (arg : list Z) : option ILCVMCoder :=
  out_arg 8 (CVM_BYTE coder opcode) arg.

Definition CVM_ADJUST (coder : ILCVMCoder) (num : Z) : ILCVMCoder :=
  let h := height coder + num in
  mk_coder (code coder) h (minHeight coder) (if maxHeight coder <? h then h else maxHeight coder)
    (labelList coder) (switchStart coder) (argOffsets coder) (localOffsets coder).

(** *** Constants (cvmc_const.c) *)

Definition CVMCoder_Constant (coder : ILCVMCoder) (opcode : Z) (arg : list Z)
    : option ILCVMCoder :=
  if (IL_OP_LDNULL <=? opcode) && (opcode <=? IL_OP_LDC_I4_8) then
    Some (CVM_ADJUST (CVM_OUT_NONE coder (opcode - IL_OP_LDNULL + COP_LDNULL)) 1)
  else if opcode =? IL_OP_LDC_I4_S then
    b ← arg !! 0%nat;
    Some (CVM_ADJUST (CVM_OUT_BYTE coder COP_LDC_I4_S b) 1)
  else if opcode =? IL_OP_LDC_I4 then
    b0 ← arg !! 0%nat;
    b1 ← arg !! 1%nat;
    b2 ← arg !! 2%nat;
    b3 ← arg !! 3%nat;
    Some (CVM_ADJUST (CVM_OUT_WORD coder COP_LDC_I4 (IL_READ_UINT32 b0 b1 b2 b3)) 1)
  else if opcode =? IL_OP_LDC_R4 then
    coder ← CVM_OUT_FLOAT coder COP_LDC_R4 arg;
    Some (CVM_ADJUST coder CVM_WORDS_PER_NATIVE_FLOAT)
  else if opcode =? IL_OP_LDC_I8 then
    coder ← CVM_OUT_LONG coder COP_LDC_I8 arg;
    Some (CVM_ADJUST coder CVM_WORDS_PER_LONG)
  else if opcode =? IL_OP_LDC_R8 then
    coder ← CVM_OUT_DOUBLE coder COP_LDC_R8 arg;
    Some (CVM_ADJUST coder CVM_WORDS_PER_NATIVE_FLOAT)
  else Some coder.

(** *** Arithmetic (cvmc_arith.c) *)

Definition AdjustMixedBinary (coder : ILCVMCoder) (isUnsigned : bool)
    (type1 type2 : ILEngineType) : ILCVMCoder * ILEngineType * ILEngineType :=
  let coder :=
    if IL_NATIVE_INT64 then
      if is_type type1 ILEngineType_I && is_type type2 ILEngineType_I4 then
        CVM_ADJUST (CVM_OUT_NONE coder (if isUnsigned then COP_IU2L else COP_I2L))
                   (CVM_WORDS_PER_NATIVE_INT - 1)
      else if is_type type1 ILEngineType_I4 && is_type type2 ILEngineType_I then
        CVM_ADJUST (CVMP_OUT_NONE coder
                     (if isUnsigned then COP_PREFIX_FIX_I4_U else COP_PREFIX_FIX_I4_I))
                   (CVM_WORDS_PER_NATIVE_INT - 1)
      else coder
    else coder in
  let '(type1, type2) :=
    if is_type type1 ILEngineType_M || is_type type1 ILEngineType_T ||
       is_type type2 ILEngineType_M || is_type type2 ILEngineType_T
    then (ILEngineType_M, ILEngineType_M) else (type1, type2) in
  let '(type1, type2) :=
    if is_type type1 ILEngineType_I || is_type type2 ILEngineType_I then
      if IL_NATIVE_INT64 then (ILEngineType_I8, ILEngineType_I8)
      else (ILEngineType_I4, ILEngineType_I4)
    else (type1, type2) in
  (coder, type1, type2).

Definition IS_UNSIGNED_OPCODE (opcode : Z) : bool :=
  (opcode =? IL_OP_ADD_OVF_UN) || (opcode =? IL_OP_SUB_OVF_UN) ||
  (opcode =? IL_OP_MUL_OVF_UN) || (opcode =? IL_OP_DIV_UN) || (opcode =? IL_OP_REM_UN).

(** Output an instruction on ints, on longs or on floats, by [type1]. *)
Definition out_ilf (coder : ILCVMCoder) (type1 : ILEngineType) (i l f : Z) : ILCVMCoder :=
  if is_type type1 ILEngineType_I4 then CVM_ADJUST (CVM_OUT_NONE coder i) (-1)
  else if is_type type1 ILEngineType_I8 then
    CVM_ADJUST (CVM_OUT_NONE coder l) (- CVM_WORDS_PER_LONG)
  else CVM_ADJUST (CVM_OUT_NONE coder f) (- CVM_WORDS_PER_NATIVE_FLOAT).

Definition out_il (coder : ILCVMCoder) (type1 : ILEngineType) (i l : Z) : ILCVMCoder :=
  if is_type type1 ILEngineType_I4 then CVM_ADJUST (CVM_OUT_NONE coder i) (-1)
  else CVM_ADJUST (CVM_OUT_NONE coder l) (- CVM_WORDS_PER_LONG).

(** The cases of the switch of CVMCoder_Binary: first the additions,
    subtractions and multiplications, then the others. *)
Definition binary_add_sub_mul (coder : ILCVMCoder) (opcode : Z) (type1 : ILEngineType)
    : option ILCVMCoder :=
  if opcode =? IL_OP_ADD then Some (out_ilf coder type1 COP_IADD COP_LADD COP_FADD)
  else if opcode =? IL_OP_ADD_OVF then Some (out_il coder type1 COP_IADD_OVF COP_LADD_OVF)
  else if opcode =? IL_OP_ADD_OVF_UN then Some (out_il coder type1 COP_IADD_OVF_UN COP_LADD_OVF_UN)
  else if opcode =? IL_OP_SUB then Some (out_ilf coder type1 COP_ISUB COP_LSUB COP_FSUB)
  else if opcode =? IL_OP_SUB_OVF then Some (out_il coder type1 COP_ISUB_OVF COP_LSUB_OVF)
  else if opcode =? IL_OP_SUB_OVF_UN then Some (out_il coder type1 COP_ISUB_OVF_UN COP_LSUB_OVF_UN)
  else if opcode =? IL_OP_MUL then Some (out_ilf coder type1 COP_IMUL COP_LMUL COP_FMUL)
  else if opcode =? IL_OP_MUL_OVF then Some (out_il coder type1 COP_IMUL_OVF COP_LMUL_OVF)
  else if opcode =? IL_OP_MUL_OVF_UN then Some (out_il coder type1 COP_IMUL_OVF_UN COP_LMUL_OVF_UN)
  else None.

Definition binary_div_bits (coder : ILCVMCoder) (opcode : Z) (type1 : ILEngineType)
    : option ILCVMCoder :=
  if opcode =? IL_OP_DIV then Some (out_ilf coder type1 COP_IDIV COP_LDIV COP_FDIV)
  else if opcode =? IL_OP_DIV_UN then Some (out_il coder type1 COP_IDIV_UN COP_LDIV_UN)
  else if opcode =? IL_OP_REM then Some (out_ilf coder type1 COP_IREM COP_LREM COP_FREM)
  else if opcode =? IL_OP_REM_UN then Some (out_il coder type1 COP_IREM_UN COP_LREM_UN)
  else if opcode =? IL_OP_AND then Some (out_il coder type1 COP_IAND COP_LAND)
  else if opcode =? IL_OP_OR then Some (out_il coder type1 COP_IOR COP_LOR)
  else if opcode =? IL_OP_XOR then Some (out_il coder type1 COP_IXOR COP_LXOR)
  else None.

Definition CVMCoder_Binary (coder : ILCVMCoder) (opcode : Z) (type1 type2 : ILEngineType)
    : ILCVMCoder :=
  let '(coder, type1, type2) :=
    AdjustMixedBinary coder (IS_UNSIGNED_OPCODE opcode) type1 type2 in
  match binary_add_sub_mul coder opcode type1 with
  | Some coder => coder
  | None => default coder (binary_div_bits coder opcode type1)
  end.

(** [op_i4] when the offset is an I4 (or ints are native), [op_i8] otherwise. *)
Definition out_ptr_op (coder : ILCVMCoder) (type : ILEngineType) (op_i4 op_i8 : Z) : ILCVMCoder :=
  if IL_NATIVE_INT64 then
    if is_type type ILEngineType_I4 then CVM_ADJUST (CVM_OUT_NONE coder op_i4) (-1)
    else CVM_ADJUST (CVM_OUT_NONE coder op_i8) (- CVM_WORDS_PER_LONG)
  else CVM_ADJUST (CVM_OUT_NONE coder op_i4) (-1).

Definition CVMCoder_BinaryPtr (coder : ILCVMCoder) (opcode : Z) (type1 type2 : ILEngineType)
    : ILCVMCoder :=
  if (opcode =? IL_OP_ADD) || (opcode =? IL_OP_ADD_OVF_UN) then
    if is_type type1 ILEngineType_M || is_type type1 ILEngineType_T then
      out_ptr_op coder type2 COP_PADD_I4 COP_PADD_I8
    else out_ptr_op coder type1 COP_PADD_I4_R COP_PADD_I8_R
  else if (opcode =? IL_OP_SUB) || (opcode =? IL_OP_SUB_OVF_UN) then
    if is_type type2 ILEngineType_M || is_type type2 ILEngineType_T then
      CVM_ADJUST (CVM_OUT_NONE coder COP_PSUB) (-1)
    else out_ptr_op coder type2 COP_PSUB_I4 COP_PSUB_I8
  else coder.

Definition CVMCoder_Shift (coder : ILCVMCoder) (opcode : Z) (type1 type2 : ILEngineType)
    : ILCVMCoder :=
  let coder :=
    if IL_NATIVE_INT64 && is_type type2 ILEngineType_I then
      CVM_ADJUST (CVM_OUT_NONE coder COP_L2I) (- (CVM_WORDS_PER_LONG - 1))
    else coder in
  let type1 :=
    if is_type type1 ILEngineType_I then
      if IL_NATIVE_INT64 then ILEngineType_I8 else ILEngineType_I4
    else type1 in
  let i4 := is_type type1 ILEngineType_I4 in
  let coder :=
    if opcode =? IL_OP_SHL then CVM_OUT_NONE coder (if i4 then COP_ISHL else COP_LSHL)
    else if opcode =? IL_OP_SHR then CVM_OUT_NONE coder (if i4 then COP_ISHR else COP_LSHR)
    else if opcode =? IL_OP_SHR_UN then
      CVM_OUT_NONE coder (if i4 then COP_ISHR_UN else COP_LSHR_UN)
    else coder in
  CVM_ADJUST coder (-1).

Definition CVMCoder_Unary (coder : ILCVMCoder) (opcode : Z) (type : ILEngineType) : ILCVMCoder :=
  if opcode =? IL_OP_NEG then
    if is_type type ILEngineType_I4 then CVM_OUT_NONE coder COP_INEG
    else if is_type type ILEngineType_I8 then CVM_OUT_NONE coder COP_LNEG
    else if is_type type ILEngineType_I then
      CVM_OUT_NONE coder (if IL_NATIVE_INT64 then COP_LNEG else COP_INEG)
    else if is_type type ILEngineType_F then CVM_OUT_NONE coder COP_FNEG
    else coder
  else if opcode =? IL_OP_NOT then
    if is_type type ILEngineType_I4 then CVM_OUT_NONE coder COP_INOT
    else if is_type type ILEngineType_I8 then CVM_OUT_NONE coder COP_LNOT
    else if is_type type ILEngineType_I then
      CVM_OUT_NONE coder (if IL_NATIVE_INT64 then COP_LNOT else COP_INOT)
    else coder
  else if opcode =? IL_OP_CKFINITE then CVMP_OUT_NONE coder COP_PREFIX_CKFINITE
  else coder.

(** *** Conversions (cvmc_conv.c)

    The cases of the switch of CVMCoder_Conv, after the type I has been
    replaced by I4 or I8.  Each takes what to output for an I4, for an I8 and
    for an F on the stack. *)

Definition by_type (coder : ILCVMCoder) (type : ILEngineType)
    (i4 i8 f : ILCVMCoder -> ILCVMCoder) : ILCVMCoder :=
  if is_type type ILEngineType_I4 then i4 coder
  else if is_type type ILEngineType_I8 then i8 coder
  else f coder.

Definition out (op : Z) (coder : ILCVMCoder) : ILCVMCoder := CVM_OUT_NONE coder op.
Definition outp (op : Z) (coder : ILCVMCoder) : ILCVMCoder := CVMP_OUT_NONE coder op.
Definition adjust (n : Z) (coder : ILCVMCoder) : ILCVMCoder := CVM_ADJUST coder n.
Definition nothing (coder : ILCVMCoder) : ILCVMCoder := coder.

Local Notation "f >> g" := (fun coder : ILCVMCoder => g (f coder)) (at level 55, right associativity).

Definition LONG_TO_WORD : Z := - (CVM_WORDS_PER_LONG - 1).
Definition FLOAT_TO_WORD : Z := - (CVM_WORDS_PER_NATIVE_FLOAT - 1).
Definition FLOAT_TO_LONG : Z := - (CVM_WORDS_PER_NATIVE_FLOAT - CVM_WORDS_PER_LONG).

(** [opcode] is [op], or [native] where native ints have 32 (64) bits. *)
Definition case_native32 (opcode op native : Z) : bool :=
  (opcode =? op) || (negb IL_NATIVE_INT64 && (opcode =? native)).
Definition case_native64 (opcode op native : Z) : bool :=
  (opcode =? op) || (IL_NATIVE_INT64 && (opcode =? native)).

Definition conv_signed (coder : ILCVMCoder) (opcode : Z) (type : ILEngineType)
    : option ILCVMCoder :=
  if opcode =? IL_OP_CONV_I1 then
    Some (by_type coder type (out COP_I2B)
      (out COP_L2I >> out COP_I2B >> adjust LONG_TO_WORD)
      (out COP_F2I >> out COP_I2B >> adjust FLOAT_TO_WORD))
  else if opcode =? IL_OP_CONV_I2 then
    Some (by_type coder type (out COP_I2S)
      (out COP_L2I >> out COP_I2S >> adjust LONG_TO_WORD)
      (out COP_F2I >> out COP_I2S >> adjust FLOAT_TO_WORD))
  else if case_native32 opcode IL_OP_CONV_I4 IL_OP_CONV_I then
    Some (by_type coder type nothing
      (out COP_L2I >> adjust LONG_TO_WORD)
      (out COP_F2I >> adjust FLOAT_TO_WORD))
  else if case_native64 opcode IL_OP_CONV_I8 IL_OP_CONV_I then
    Some (by_type coder type (out COP_I2L >> adjust (CVM_WORDS_PER_LONG - 1))
      nothing
      (out COP_F2L >> adjust FLOAT_TO_LONG))
  else if opcode =? IL_OP_CONV_R4 then
    Some (by_type coder type
      (out COP_I2F >> out COP_F2F >> adjust (CVM_WORDS_PER_NATIVE_FLOAT - 1))
      (out COP_L2F >> out COP_F2F >> adjust (CVM_WORDS_PER_NATIVE_FLOAT - CVM_WORDS_PER_LONG))
      (out COP_F2F))
  else if opcode =? IL_OP_CONV_R8 then
    Some (by_type coder type
      (out COP_I2F >> adjust (CVM_WORDS_PER_NATIVE_FLOAT - 1))
      (out COP_L2F >> out COP_F2D >> adjust (CVM_WORDS_PER_NATIVE_FLOAT - CVM_WORDS_PER_LONG))
      (out COP_F2D))
  else None.

Definition conv_unsigned (coder : ILCVMCoder) (opcode : Z) (type : ILEngineType)
    : option ILCVMCoder :=
  if opcode =? IL_OP_CONV_U1 then
    Some (by_type coder type (out COP_I2UB)
      (out COP_L2I >> out COP_I2UB >> adjust LONG_TO_WORD)
      (out COP_F2I >> out COP_I2UB >> adjust FLOAT_TO_WORD))
  else if opcode =? IL_OP_CONV_U2 then
    Some (by_type coder type (out COP_I2US)
      (out COP_L2I >> out COP_I2US >> adjust LONG_TO_WORD)
      (out COP_F2I >> out COP_I2US >> adjust FLOAT_TO_WORD))
  else if case_native32 opcode IL_OP_CONV_U4 IL_OP_CONV_U then
    Some (by_type coder type nothing
      (out COP_L2I >> adjust LONG_TO_WORD)
      (out COP_F2IU >> adjust FLOAT_TO_WORD))
  else if case_native64 opcode IL_OP_CONV_U8 IL_OP_CONV_U then
    Some (by_type coder type (out COP_IU2L >> adjust (CVM_WORDS_PER_LONG - 1))
      nothing
      (out COP_F2LU >> adjust FLOAT_TO_LONG))
  else if opcode =? IL_OP_CONV_R_UN then
    Some (by_type coder type
      (out COP_IU2F >> adjust (CVM_WORDS_PER_NATIVE_FLOAT - 1))
      (out COP_LU2F >> adjust (CVM_WORDS_PER_NATIVE_FLOAT - CVM_WORDS_PER_LONG))
      nothing)
  else None.

Definition conv_ovf_signed_un (coder : ILCVMCoder) (opcode : Z) (type : ILEngineType)
    : option ILCVMCoder :=
  if opcode =? IL_OP_CONV_OVF_I1_UN then
    Some (by_type coder type (outp COP_PREFIX_IU2B_OVF)
      (outp COP_PREFIX_LU2I_OVF >> outp COP_PREFIX_I2B_OVF >> adjust LONG_TO_WORD)
      (outp COP_PREFIX_F2I_OVF >> outp COP_PREFIX_I2B_OVF >> adjust FLOAT_TO_WORD))
  else if opcode =? IL_OP_CONV_OVF_I2_UN then
    Some (by_type coder type (outp COP_PREFIX_IU2S_OVF)
      (outp COP_PREFIX_LU2I_OVF >> outp COP_PREFIX_I2S_OVF >> adjust LONG_TO_WORD)
      (outp COP_PREFIX_F2I_OVF >> outp COP_PREFIX_I2S_OVF >> adjust FLOAT_TO_WORD))
  else if case_native32 opcode IL_OP_CONV_OVF_I4_UN IL_OP_CONV_OVF_I_UN then
    Some (by_type coder type (outp COP_PREFIX_IU2I_OVF)
      (outp COP_PREFIX_LU2I_OVF >> adjust LONG_TO_WORD)
      (outp COP_PREFIX_F2I_OVF >> adjust FLOAT_TO_WORD))
  else if case_native64 opcode IL_OP_CONV_OVF_I8_UN IL_OP_CONV_OVF_I_UN then
    Some (by_type coder type (out COP_IU2L >> adjust (CVM_WORDS_PER_LONG - 1))
      (outp COP_PREFIX_LU2L_OVF)
      (outp COP_PREFIX_F2L_OVF >> adjust FLOAT_TO_LONG))
  else None.

Definition conv_ovf_unsigned_un (coder : ILCVMCoder) (opcode : Z) (type : ILEngineType)
    : option ILCVMCoder :=
  if opcode =? IL_OP_CONV_OVF_U1_UN then
    Some (by_type coder type (outp COP_PREFIX_IU2UB_OVF)
      (outp COP_PREFIX_LU2IU_OVF >> outp COP_PREFIX_IU2UB_OVF >> adjust LONG_TO_WORD)
      (outp COP_PREFIX_F2I_OVF >> outp COP_PREFIX_I2UB_OVF >> adjust FLOAT_TO_WORD))
  else if opcode =? IL_OP_CONV_OVF_U2_UN then
    Some (by_type coder type (outp COP_PREFIX_IU2US_OVF)
      (outp COP_PREFIX_LU2IU_OVF >> outp COP_PREFIX_IU2US_OVF >> adjust LONG_TO_WORD)
      (outp COP_PREFIX_F2I_OVF >> outp COP_PREFIX_I2US_OVF >> adjust FLOAT_TO_WORD))
  else if case_native32 opcode IL_OP_CONV_OVF_U4_UN IL_OP_CONV_OVF_U_UN then
    Some (by_type coder type nothing
      (outp COP_PREFIX_LU2IU_OVF >> adjust LONG_TO_WORD)
      (outp COP_PREFIX_F2IU_OVF >> adjust FLOAT_TO_WORD))
  else if case_native64 opcode IL_OP_CONV_OVF_U8_UN IL_OP_CONV_OVF_U_UN then
    Some (by_type coder type (out COP_IU2L >> adjust (CVM_WORDS_PER_LONG - 1))
      nothing
      (outp COP_PREFIX_F2LU_OVF >> adjust FLOAT_TO_LONG))
  else None.

Definition conv_ovf_small (coder : ILCVMCoder) (opcode : Z) (type : ILEngineType)
    : option ILCVMCoder :=
  let narrow op :=
    Some (by_type coder type (outp op)
      (outp COP_PREFIX_L2I_OVF >> outp op >> adjust LONG_TO_WORD)
      (outp COP_PREFIX_F2I_OVF >> outp op >> adjust FLOAT_TO_WORD)) in
  if opcode =? IL_OP_CONV_OVF_I1 then narrow COP_PREFIX_I2B_OVF
  else if opcode =? IL_OP_CONV_OVF_U1 then narrow COP_PREFIX_I2UB_OVF
  else if opcode =? IL_OP_CONV_OVF_I2 then narrow COP_PREFIX_I2S_OVF
  else if opcode =? IL_OP_CONV_OVF_U2 then narrow COP_PREFIX_I2US_OVF
  else None.

Definition conv_ovf_large (coder : ILCVMCoder) (opcode : Z) (type : ILEngineType)
    : option ILCVMCoder :=
  if case_native32 opcode IL_OP_CONV_OVF_I4 IL_OP_CONV_OVF_I then
    Some (by_type coder type nothing
      (outp COP_PREFIX_L2I_OVF >> adjust LONG_TO_WORD)
      (outp COP_PREFIX_F2I_OVF >> adjust FLOAT_TO_WORD))
  else if case_native32 opcode IL_OP_CONV_OVF_U4 IL_OP_CONV_OVF_U then
    Some (by_type coder type (outp COP_PREFIX_I2IU_OVF)
      (outp COP_PREFIX_L2UI_OVF >> adjust LONG_TO_WORD)
      (outp COP_PREFIX_F2IU_OVF >> adjust FLOAT_TO_WORD))
  else if case_native64 opcode IL_OP_CONV_OVF_I8 IL_OP_CONV_OVF_I then
    Some (by_type coder type (out COP_I2L)
      nothing
      (outp COP_PREFIX_F2L_OVF >> adjust FLOAT_TO_WORD))
  else if case_native64 opcode IL_OP_CONV_OVF_U8 IL_OP_CONV_OVF_U then
    Some (by_type coder type (outp COP_PREFIX_I2UL_OVF >> adjust (CVM_WORDS_PER_LONG - 1))
      (outp COP_PREFIX_L2UL_OVF)
      (outp COP_PREFIX_F2LU_OVF >> adjust FLOAT_TO_WORD))
  else None.

Definition CVMCoder_Conv (coder : ILCVMCoder) (opcode : Z) (type : ILEngineType) : ILCVMCoder :=
  let type :=
    if is_type type ILEngineType_I then
      if IL_NATIVE_INT64 then ILEngineType_I8 else ILEngineType_I4
    else type in
  default coder (
    union (conv_signed coder opcode type) (
    union (conv_unsigned coder opcode type) (
    union (conv_ovf_signed_un coder opcode type) (
    union (conv_ovf_unsigned_un coder opcode type) (
    union (conv_ovf_small coder opcode type) (
    conv_ovf_large coder opcode type)))))).

(** *** Comparisons (cvmc_branch.c) *)

Definition OutputCondCompare (coder : ILCVMCoder)
    (iopcode lopcode fopcode finvopcode cmpopcode cmpinvopcode : Z)
    (type : ILEngineType) (invertTest : bool) : ILCVMCoder :=
  let coder :=
    if is_type type ILEngineType_I4 then CVM_ADJUST (CVMP_OUT_NONE coder iopcode) (-1)
    else if is_type type ILEngineType_I8 then
      CVM_ADJUST (CVMP_OUT_NONE coder lopcode) (- (CVM_WORDS_PER_LONG * 2) + 1)
    else if is_type type ILEngineType_F then
      CVM_ADJUST (CVMP_OUT_NONE coder (if invertTest then finvopcode else fopcode))
                 (- (CVM_WORDS_PER_NATIVE_FLOAT * 2) + 1)
    else if is_type type ILEngineType_M || is_type type ILEngineType_T ||
            is_type type ILEngineType_O || is_type type ILEngineType_I then
      CVM_ADJUST (CVMP_OUT_NONE coder COP_PREFIX_PCMP) (-1)
    else coder in
  CVMP_OUT_NONE coder (if invertTest then cmpinvopcode else cmpopcode).

Definition CVMCoder_Compare (coder : ILCVMCoder) (opcode : Z) (type1 type2 : ILEngineType)
    (invertTest : bool) : ILCVMCoder :=
  let '(adjusted, t1, _) := AdjustMixedBinary coder false type1 type2 in
  if opcode =? IL_OP_PREFIX + IL_PREFIX_OP_CEQ then
    OutputCondCompare adjusted COP_PREFIX_ICMP COP_PREFIX_LCMP COP_PREFIX_FCMPL COP_PREFIX_FCMPL
      COP_PREFIX_SETEQ COP_PREFIX_SETNE t1 invertTest
  else if opcode =? IL_OP_PREFIX + IL_PREFIX_OP_CGT then
    OutputCondCompare adjusted COP_PREFIX_ICMP COP_PREFIX_LCMP COP_PREFIX_FCMPL COP_PREFIX_FCMPG
      COP_PREFIX_SETGT COP_PREFIX_SETLE t1 invertTest
  else if opcode =? IL_OP_PREFIX + IL_PREFIX_OP_CGT_UN then
    OutputCondCompare adjusted COP_PREFIX_ICMP_UN COP_PREFIX_LCMP_UN COP_PREFIX_FCMPG
      COP_PREFIX_FCMPG COP_PREFIX_SETGT COP_PREFIX_SETLE t1 invertTest
  else if opcode =? IL_OP_PREFIX + IL_PREFIX_OP_CLT then
    OutputCondCompare adjusted COP_PREFIX_ICMP COP_PREFIX_LCMP COP_PREFIX_FCMPG COP_PREFIX_FCMPL
      COP_PREFIX_SETLT COP_PREFIX_SETGE t1 invertTest
  else if opcode =? IL_OP_PREFIX + IL_PREFIX_OP_CLT_UN then
    OutputCondCompare adjusted COP_PREFIX_ICMP_UN COP_PREFIX_LCMP_UN COP_PREFIX_FCMPL
      COP_PREFIX_FCMPL COP_PREFIX_SETLT COP_PREFIX_SETGE t1 invertTest
  else coder.

(** *** The stack (cvmc_stack.c) *)

Definition item_words (item : ILEngineStackItem) : Z :=
  match engineType item with
  | ILEngineType_I4 | ILEngineType_M | ILEngineType_CM | ILEngineType_T | ILEngineType_O => 1
  | ILEngineType_I8 => CVM_WORDS_PER_LONG
  | ILEngineType_I => if IL_NATIVE_INT64 then CVM_WORDS_PER_LONG else 1
  | ILEngineType_F => CVM_WORDS_PER_NATIVE_FLOAT
  | ILEngineType_MV => GetTypeSize (typeInfo item)
  | ILEngineType_TypedRef => CVM_WORDS_PER_TYPED_REF
  | ILEngineType_Invalid => 0
  end.

(** The items in any order: the loop adds up their sizes. *)
Definition ComputeStackSize (stack : list ILEngineStackItem) : Z :=
  foldr (fun item total => item_words item + total) 0 stack.

Definition CVMCoder_StackRefresh (coder : ILCVMCoder) (stack : list ILEngineStackItem)
    : ILCVMCoder :=
  let h := minHeight coder + ComputeStackSize stack in
  mk_coder (code coder) h (minHeight coder) (if maxHeight coder <? h then h else maxHeight coder)
    (labelList coder) (switchStart coder) (argOffsets coder) (localOffsets coder).

Definition DupWords (coder : ILCVMCoder) (numWords : Z) : ILCVMCoder :=
  CVM_ADJUST
    (if numWords =? 1 then CVM_OUT_NONE coder COP_DUP
     else if numWords =? 2 then CVM_OUT_NONE coder COP_DUP2
     else CVM_OUT_WIDE coder COP_DUP_N numWords) numWords.

Definition PopWords (coder : ILCVMCoder) (numWords : Z) : ILCVMCoder :=
  CVM_ADJUST
    (if numWords =? 1 then CVM_OUT_NONE coder COP_POP
     else if numWords =? 2 then CVM_OUT_NONE coder COP_POP2
     else CVM_OUT_WIDE coder COP_POP_N numWords) (- numWords).

Definition CVMCoder_Dup (coder : ILCVMCoder) (engineType : ILEngineType) (type : Z) : ILCVMCoder :=
  match engineType with
  | ILEngineType_I4 | ILEngineType_M | ILEngineType_O | ILEngineType_T => DupWords coder 1
  | ILEngineType_I8 => DupWords coder CVM_WORDS_PER_LONG
  | ILEngineType_I => DupWords coder CVM_WORDS_PER_NATIVE_INT
  | ILEngineType_F => DupWords coder CVM_WORDS_PER_NATIVE_FLOAT
  | ILEngineType_MV => DupWords coder (GetTypeSize type)
  | ILEngineType_TypedRef => DupWords coder CVM_WORDS_PER_TYPED_REF
  | _ => coder
  end.

Definition CVMCoder_Pop (coder : ILCVMCoder) (engineType : ILEngineType) (type : Z) : ILCVMCoder :=
  match engineType with
  | ILEngineType_I4 | ILEngineType_M | ILEngineType_O | ILEngineType_T => PopWords coder 1
  | ILEngineType_I8 => PopWords coder CVM_WORDS_PER_LONG
  | ILEngineType_I => PopWords coder CVM_WORDS_PER_NATIVE_INT
  | ILEngineType_F => PopWords coder CVM_WORDS_PER_NATIVE_FLOAT
  | ILEngineType_MV => PopWords coder (GetTypeSize type)
  | ILEngineType_TypedRef => PopWords coder CVM_WORDS_PER_TYPED_REF
  | _ => coder
  end.

(** The CVM coder as an [ILCoder]. *)
Definition cvm_coder : ILCoder ILCVMCoder := {|
  ILCoderConstant := CVMCoder_Constant; ILCoderBinary := CVMCoder_Binary;
  ILCoderBinaryPtr := CVMCoder_BinaryPtr; ILCoderShift := CVMCoder_Shift;
  ILCoderUnary := CVMCoder_Unary; ILCoderConv := CVMCoder_Conv;
  ILCoderCompare := CVMCoder_Compare;
  ILCoderDup := CVMCoder_Dup; ILCoderPop := CVMCoder_Pop |}.

End CVMCoder.
