(* ===== verification/CoderBranch.v ===== *)
(** * Labels and branches of the coder (engine/cvmc_branch.c, cvmc_call.c)

    [ILBranchCoder] is the part of the ILCoderClass method table for labels,
    branches, switch tables and the return instruction.  A branch to an IL
    address whose position is known is output at once; another is output as a
    placeholder, recorded at the label and patched when the label is defined.
    Memory for labels is taken not to run out ([labelOutOfMemory] stays 0) and
    no flag asks for the unroller, debugging or tracing. *)
From Stdlib Require Import ZArith Lia.
From stdpp Require Import base list option numbers decidable.
From S2P Require Import Prelude Opcodes Cvm Coder.

Local Open Scope Z_scope.

(** ** The interface *)

Class ILBranchCoder (C : Type) := {
  ILCoderLabel : C -> Z -> C;
  ILCoderStackRefresh : C -> list ILEngineStackItem -> C;
  ILCoderBranch : C -> Z -> Z -> ILEngineType -> ILEngineType -> C;
  ILCoderSwitchStart : C -> Z -> C;
  ILCoderSwitchEntry : C -> Z -> C;
  ILCoderSwitchEnd : C -> C;
  ILCoderReturnInsn : C -> ILEngineType -> Z -> C;
}.

(** The null coder. *)
Definition Coder_Label (coder : unit) (offset : Z) : unit := coder.
Definition Coder_StackRefresh (coder : unit) (stack : list ILEngineStackItem) : unit := coder.
Definition Coder_Branch (coder : unit) (opcode dest : Z) (type1 type2 : ILEngineType) : unit := coder.
Definition Coder_SwitchStart (coder : unit) (numEntries : Z) : unit := coder.
Definition Coder_SwitchEntry (coder : unit) (dest : Z) : unit := coder.
Definition Coder_SwitchEnd (coder : unit) : unit := coder.
Definition Coder_ReturnInsn (coder : unit) (engineType : ILEngineType) (returnType : Z) : unit :=
  coder.

#[export] Instance null_branch_coder : ILBranchCoder unit := {
  ILCoderLabel := Coder_Label; ILCoderStackRefresh := Coder_StackRefresh;
  ILCoderBranch := Coder_Branch; ILCoderSwitchStart := Coder_SwitchStart;
  ILCoderSwitchEntry := Coder_SwitchEntry; ILCoderSwitchEnd := Coder_SwitchEnd;
  ILCoderReturnInsn := Coder_ReturnInsn }.

(** ** The CVM coder *)

Section CVMBranch.
Context {PF : Platform}.
Variable GetTypeSize : Z -> Z.

(** [CVM_POSN() - coder->start]. *)
Definition CVM_POSN (coder : ILCVMCoder) : Z := Z.of_nat (length (code coder)).

Definition set_code (coder : ILCVMCoder) (c : list Z) : ILCVMCoder :=
  mk_coder c (height coder) (minHeight coder) (maxHeight coder)
    (labelList coder) (switchStart coder) (argOffsets coder) (localOffsets coder).
Definition set_height (coder : ILCVMCoder) (h : Z) : ILCVMCoder :=
  mk_coder (code coder) h (minHeight coder) (maxHeight coder)
    (labelList coder) (switchStart coder) (argOffsets coder) (localOffsets coder).
Definition set_labels (coder : ILCVMCoder) (l : list ILCVMLabel) : ILCVMCoder :=
  mk_coder (code coder) (height coder) (minHeight coder) (maxHeight coder)
    l (switchStart coder) (argOffsets coder) (localOffsets coder).
Definition set_switchStart (coder : ILCVMCoder) (p : Z) : ILCVMCoder :=
  mk_coder (code coder) (height coder) (minHeight coder) (maxHeight coder)
    (labelList coder) p (argOffsets coder) (localOffsets coder).

(** *** Output and patching of branches (cvmc_gen.h, bytecode form) *)

Definition CVM_OUT_BRANCH (coder : ILCVMCoder) (opcode offset : Z) : ILCVMCoder :=
  CVM_WORD (CVM_BYTE (CVM_BYTE coder opcode) offset) 0.
Definition CVM_OUT_BRANCH_LONG (coder : ILCVMCoder) (opcode offset : Z) : ILCVMCoder :=
  CVM_WORD (CVM_BYTE (CVM_BYTE coder COP_BR_LONG) opcode) offset.
Definition CVM_OUT_BRANCH_PLACEHOLDER (coder : ILCVMCoder) (opcode : Z) : ILCVMCoder :=
  CVM_WORD (CVM_BYTE (CVM_BYTE coder opcode) opcode) 0.

(** [c[p] = v] and [IL_WRITE_INT32(c + p, v)]. *)
Definition patch_byte (c : list Z) (p v : Z) : list Z := <[Z.to_nat p := u8 v]> c.
Definition IL_WRITE_INT32 (c : list Z) (p v : Z) : list Z :=
  patch_byte (patch_byte (patch_byte (patch_byte c p v) (p + 1) (Z.shiftr v 8))
    (p + 2) (Z.shiftr v 16)) (p + 3) (Z.shiftr v 24).

Definition CVM_BACKPATCH_BRANCH (c : list Z) (pc relative : Z) : list Z :=
  patch_byte c (pc + 1) relative.
Definition CVM_BACKPATCH_BRANCH_LONG (c : list Z) (pc relative : Z) : list Z :=
  IL_WRITE_INT32 (patch_byte c pc COP_BR_LONG) (pc + 2) relative.

Definition CVM_DEFCASE_OFFSET (numEntries : Z) : Z := 9 + numEntries * 4.
Definition CVM_OUT_SWHEAD (coder : ILCVMCoder) (numEntries defCase : Z) : ILCVMCoder :=
  CVM_WORD (CVM_WORD (CVM_BYTE coder COP_SWITCH) numEntries) defCase.
Definition CVM_OUT_SWENTRY (coder : ILCVMCoder) (relative : Z) : ILCVMCoder :=
  CVM_WORD coder relative.
Definition CVM_OUT_SWENTRY_PLACEHOLDER (coder : ILCVMCoder) : ILCVMCoder := CVM_WORD coder 0.
Definition CVM_BACKPATCH_SWENTRY (c : list Z) (relative writepc : Z) : list Z :=
  IL_WRITE_INT32 c writepc relative.

(** *** Labels *)

Fixpoint find_label (labels : list ILCVMLabel) (address : Z) : option ILCVMLabel :=
  match labels with
  | [] => None
  | label :: labels =>
    if label_address label =? address then Some label else find_label labels address
  end.

(** Store to the fields of the label in the list that has this address. *)
Fixpoint store_label (labels : list ILCVMLabel) (new : ILCVMLabel) : list ILCVMLabel :=
  match labels with
  | [] => []
  | label :: labels =>
    if label_address label =? label_address new then new :: labels
    else label :: store_label labels new
  end.

Definition GetLabel (coder : ILCVMCoder) (address : Z) : ILCVMCoder * ILCVMLabel :=
  match find_label (labelList coder) address with
  | Some label => (coder, label)
  | None =>
    let label := mk_label address None [] in
    (set_labels coder (label :: labelList coder), label)
  end.

Definition is_short (relative : Z) : bool := (-128 <=? relative) && (relative <=? 127).

(** Patch one reference to a label that is now at [posn]. *)
Definition backpatch (posn : Z) (c : list Z) (ref : ILCVMRef) : list Z :=
  let dest := i32 (posn - ref_offset ref) in
  match ref_address ref with
  | None =>
    if is_short dest then CVM_BACKPATCH_BRANCH c (ref_offset ref) dest
    else CVM_BACKPATCH_BRANCH_LONG c (ref_offset ref) dest
  | Some address => CVM_BACKPATCH_SWENTRY c dest address
  end.

Definition CVMCoder_Label (coder : ILCVMCoder) (offset : Z) : ILCVMCoder :=
  let coder := set_height coder (minHeight coder) in
  let '(coder, label) := GetLabel coder offset in
  let posn := u32 (CVM_POSN coder) in
  set_code
    (set_labels coder (store_label (labelList coder) (mk_label offset (Some posn) [])))
    (foldl (backpatch posn) (code coder) (nextRef label)).

(** *** Branches *)

Definition OutputBranch (coder : ILCVMCoder) (opcode dest : Z) : ILCVMCoder :=
  let '(coder, label) := GetLabel coder dest in
  match label_offset label with
  | Some offset =>
    let relative := i32 (offset - CVM_POSN coder) in
    if is_short relative then CVM_OUT_BRANCH coder opcode relative
    else CVM_OUT_BRANCH_LONG coder opcode relative
  | None =>
    let ref := mk_ref None (u32 (CVM_POSN coder)) in
    CVM_OUT_BRANCH_PLACEHOLDER
      (set_labels coder
        (store_label (labelList coder) (mk_label dest None (ref :: nextRef label)))) opcode
  end.

(** The result of a comparison against 0. *)
Definition out_compared (coder : ILCVMCoder) (cmp words : Z) : ILCVMCoder :=
  CVM_ADJUST (CVM_OUT_NONE (CVM_ADJUST (CVMP_OUT_NONE coder cmp) words) COP_LDC_I4_0) 1.

Definition OutputCondBranch (coder : ILCVMCoder) (iopcode lopcode fopcode cmpopcode : Z)
    (type : ILEngineType) (dest : Z) : ILCVMCoder :=
  let coder :=
    if is_type type ILEngineType_I4 then OutputBranch coder iopcode dest
    else if is_type type ILEngineType_I8 then
      OutputBranch (out_compared coder lopcode (- (CVM_WORDS_PER_LONG * 2) + 1)) cmpopcode dest
    else if is_type type ILEngineType_F then
      OutputBranch (out_compared coder fopcode (- (CVM_WORDS_PER_NATIVE_FLOAT * 2) + 1))
        cmpopcode dest
    else if is_type type ILEngineType_M || is_type type ILEngineType_T ||
            is_type type ILEngineType_O || is_type type ILEngineType_I then
      if cmpopcode =? COP_BEQ then OutputBranch coder COP_BR_PEQ dest
      else if cmpopcode =? COP_BNE then OutputBranch coder COP_BR_PNE dest
      else OutputBranch (out_compared coder COP_PREFIX_PCMP (-1)) cmpopcode dest
    else coder in
  CVM_ADJUST coder (-2).

Definition opcode_in (opcode short long : Z) : bool := (opcode =? short) || (opcode =? long).

(** brtrue and brfalse: [opcode] on an int, [null_opcode] on a reference. *)
Definition unary_branch (coder : ILCVMCoder) (opcode null_opcode dest : Z) (type : ILEngineType)
    : ILCVMCoder :=
  let zero op words := CVM_ADJUST (CVM_OUT_NONE (CVM_OUT_NONE coder COP_LDC_I4_0) op) words in
  let coder :=
    if is_type type ILEngineType_I4 || negb IL_NATIVE_INT64 && is_type type ILEngineType_I then
      OutputBranch coder opcode dest
    else if is_type type ILEngineType_I8 || IL_NATIVE_INT64 && is_type type ILEngineType_I then
      OutputBranch
        (CVM_ADJUST (CVMP_OUT_NONE (zero COP_I2L CVM_WORDS_PER_LONG) COP_PREFIX_LCMP)
          (- (CVM_WORDS_PER_LONG * 2) + 1)) opcode dest
    else if is_type type ILEngineType_F then
      OutputBranch
        (CVM_ADJUST (CVMP_OUT_NONE (zero COP_I2F CVM_WORDS_PER_NATIVE_FLOAT) COP_PREFIX_FCMPG)
          (- (CVM_WORDS_PER_NATIVE_FLOAT * 2) + 1)) opcode dest
    else OutputBranch coder null_opcode dest in
  CVM_ADJUST coder (-1).

Definition CVMCoder_Branch (coder : ILCVMCoder) (opcode dest : Z) (type1 type2 : ILEngineType)
    : ILCVMCoder :=
  let cond isUnsigned iopcode lopcode fopcode cmpopcode :=
    let '(coder, type1, _) := AdjustMixedBinary coder isUnsigned type1 type2 in
    OutputCondBranch coder iopcode lopcode fopcode cmpopcode type1 dest in
  if opcode_in opcode IL_OP_BR_S IL_OP_BR || opcode_in opcode IL_OP_LEAVE_S IL_OP_LEAVE then
    OutputBranch coder COP_BR dest
  else if opcode_in opcode IL_OP_BRTRUE_S IL_OP_BRTRUE then
    unary_branch coder COP_BRTRUE COP_BRNONNULL dest type1
  else if opcode_in opcode IL_OP_BRFALSE_S IL_OP_BRFALSE then
    unary_branch coder COP_BRFALSE COP_BRNULL dest type1
  else if opcode_in opcode IL_OP_BEQ_S IL_OP_BEQ then
    cond false COP_BEQ COP_PREFIX_LCMP COP_PREFIX_FCMPL COP_BEQ
  else if opcode_in opcode IL_OP_BNE_UN_S IL_OP_BNE_UN then
    cond true COP_BNE COP_PREFIX_LCMP COP_PREFIX_FCMPL COP_BNE
  else if opcode_in opcode IL_OP_BGT_S IL_OP_BGT then
    cond false COP_BGT COP_PREFIX_LCMP COP_PREFIX_FCMPL COP_BGT
  else if opcode_in opcode IL_OP_BGT_UN_S IL_OP_BGT_UN then
    cond true COP_BGT_UN COP_PREFIX_LCMP_UN COP_PREFIX_FCMPG COP_BGT
  else if opcode_in opcode IL_OP_BGE_S IL_OP_BGE then
    cond false COP_BGE COP_PREFIX_LCMP COP_PREFIX_FCMPL COP_BGE
  else if opcode_in opcode IL_OP_BGE_UN_S IL_OP_BGE_UN then
    cond true COP_BGE_UN COP_PREFIX_LCMP_UN COP_PREFIX_FCMPG COP_BGE
  else if opcode_in opcode IL_OP_BLT_S IL_OP_BLT then
    cond false COP_BLT COP_PREFIX_LCMP COP_PREFIX_FCMPG COP_BLT
  else if opcode_in opcode IL_OP_BLT_UN_S IL_OP_BLT_UN then
    cond true COP_BLT_UN COP_PREFIX_LCMP_UN COP_PREFIX_FCMPL COP_BLT
  else if opcode_in opcode IL_OP_BLE_S IL_OP_BLE then
    cond false COP_BLE COP_PREFIX_LCMP COP_PREFIX_FCMPG COP_BLE
  else if opcode_in opcode IL_OP_BLE_UN_S IL_OP_BLE_UN then
    cond true COP_BLE_UN COP_PREFIX_LCMP_UN COP_PREFIX_FCMPL COP_BLE
  else coder.

(** *** Switch tables *)

Definition CVMCoder_SwitchStart (coder : ILCVMCoder) (numEntries : Z) : ILCVMCoder :=
  let coder := set_switchStart coder (CVM_POSN coder) in
  let defCase := i32 (CVM_DEFCASE_OFFSET numEntries) in
  CVM_ADJUST (CVM_OUT_SWHEAD coder numEntries defCase) (-1).

(** The distance to a label that is known is computed from
    [coder->switchStart - CVM_POSN()], as in the source. *)
Definition CVMCoder_SwitchEntry (coder : ILCVMCoder) (dest : Z) : ILCVMCoder :=
  let '(coder, label) := GetLabel coder dest in
  match label_offset label with
  | Some offset =>
    CVM_OUT_SWENTRY coder (i32 (offset - (switchStart coder - CVM_POSN coder)))
  | None =>
    let ref := mk_ref (Some (u32 (CVM_POSN coder))) (u32 (switchStart coder)) in
    CVM_OUT_SWENTRY_PLACEHOLDER
      (set_labels coder
        (store_label (labelList coder) (mk_label dest None (ref :: nextRef label))))
  end.

Definition CVMCoder_SwitchEnd (coder : ILCVMCoder) : ILCVMCoder := coder.

(** *** Returns (cvmc_call.c) *)

Definition CVM_OUT_RETURN (coder : ILCVMCoder) (size : Z) : ILCVMCoder :=
  if size =? 0 then CVM_OUT_NONE coder COP_RETURN
  else if size =? 1 then CVM_OUT_NONE coder COP_RETURN_1
  else if size =? 2 then CVM_OUT_NONE coder COP_RETURN_2
  else CVM_OUT_WORD coder COP_RETURN_N size.

Definition CVMCoder_ReturnInsn (coder : ILCVMCoder) (engineType : ILEngineType) (returnType : Z)
    : ILCVMCoder :=
  let return_words size := CVM_ADJUST (CVM_OUT_RETURN coder size) (- size) in
  match engineType with
  | ILEngineType_Invalid => CVM_OUT_RETURN coder 0
  | ILEngineType_M | ILEngineType_CM | ILEngineType_O | ILEngineType_T | ILEngineType_I4 =>
    return_words 1
  | ILEngineType_I8 => return_words CVM_WORDS_PER_LONG
  | ILEngineType_I => return_words (if IL_NATIVE_INT64 then CVM_WORDS_PER_LONG else 1)
  | ILEngineType_F => return_words CVM_WORDS_PER_NATIVE_FLOAT
  | ILEngineType_MV => return_words (GetTypeSize returnType)
  | ILEngineType_TypedRef => return_words CVM_WORDS_PER_TYPED_REF
  end.

Definition cvm_branch_coder : ILBranchCoder ILCVMCoder := {|
  ILCoderLabel := CVMCoder_Label; ILCoderStackRefresh := CVMCoder_StackRefresh GetTypeSize;
  ILCoderBranch := CVMCoder_Branch; ILCoderSwitchStart := CVMCoder_SwitchStart;
  ILCoderSwitchEntry := CVMCoder_SwitchEntry; ILCoderSwitchEnd := CVMCoder_SwitchEnd;
  ILCoderReturnInsn := CVMCoder_ReturnInsn |}.

End CVMBranch.
