(* ===== verification/Types.v ===== *)
(** * Types as the verifier sees them (include/il_types.h, engine/verify.c)

    An [ILType *] is a number: the low two bits tell a primitive type (its
    element number shifted left by 2), a class, a value type and a complex
    type, which is a pointer to a structure.  What the verifier asks of such
    structures and of classes is answered by the metadata library
    (image/meta_types.c, image/class.c) and is a parameter here,
    [TypeLibrary]; MetadataLibrary.v is the instance.  On top of it: the translation of types to engine types
    and assignment compatibility.  Chains of modifiers and of class parents
    are followed with fuel. *)
From Stdlib Require Import ZArith Lia.
From stdpp Require Import base list option numbers.
From S2P Require Import Prelude Opcodes Cvm JumpMask Scan Coder.

Local Open Scope Z_scope.

(** ** The representation *)

Definition ILType_Invalid : Z := 0.
Definition ILType_FromElement (elemType : Z) : Z := Z.lor (Z.shiftl elemType 2) 1.
Definition ILType_FromClass (info : Z) : Z := Z.lor info 2.
Definition ILType_ToElement (type : Z) : Z := Z.shiftr type 2.
Definition ILType_IsPrimitive (type : Z) : bool := Z.land type 3 =? 1.
Definition ILType_IsClass (type : Z) : bool := Z.land type 3 =? 2.
Definition ILType_IsValueType (type : Z) : bool := Z.land type 3 =? 3.
Definition ILType_IsComplex (type : Z) : bool := Z.land type 3 =? 0.

Definition IL_META_ELEMTYPE_VOID : Z := 0x01.
Definition IL_META_ELEMTYPE_BOOLEAN : Z := 0x02.
Definition IL_META_ELEMTYPE_CHAR : Z := 0x03.
Definition IL_META_ELEMTYPE_I1 : Z := 0x04.
Definition IL_META_ELEMTYPE_U1 : Z := 0x05.
Definition IL_META_ELEMTYPE_I2 : Z := 0x06.
Definition IL_META_ELEMTYPE_U2 : Z := 0x07.
Definition IL_META_ELEMTYPE_I4 : Z := 0x08.
Definition IL_META_ELEMTYPE_U4 : Z := 0x09.
Definition IL_META_ELEMTYPE_I8 : Z := 0x0A.
Definition IL_META_ELEMTYPE_U8 : Z := 0x0B.
Definition IL_META_ELEMTYPE_R4 : Z := 0x0C.
Definition IL_META_ELEMTYPE_R8 : Z := 0x0D.
Definition IL_META_ELEMTYPE_TYPEDBYREF : Z := 0x16.
Definition IL_META_ELEMTYPE_I : Z := 0x18.
Definition IL_META_ELEMTYPE_U : Z := 0x19.
Definition IL_META_ELEMTYPE_R : Z := 0x1A.

Definition ILType_Void : Z := ILType_FromElement IL_META_ELEMTYPE_VOID.
Definition ILType_Boolean : Z := ILType_FromElement IL_META_ELEMTYPE_BOOLEAN.
Definition ILType_Char : Z := ILType_FromElement IL_META_ELEMTYPE_CHAR.
Definition ILType_Int8 : Z := ILType_FromElement IL_META_ELEMTYPE_I1.
Definition ILType_UInt8 : Z := ILType_FromElement IL_META_ELEMTYPE_U1.
Definition ILType_Int16 : Z := ILType_FromElement IL_META_ELEMTYPE_I2.
Definition ILType_UInt16 : Z := ILType_FromElement IL_META_ELEMTYPE_U2.
Definition ILType_Int32 : Z := ILType_FromElement IL_META_ELEMTYPE_I4.
Definition ILType_UInt32 : Z := ILType_FromElement IL_META_ELEMTYPE_U4.
Definition ILType_Int64 : Z := ILType_FromElement IL_META_ELEMTYPE_I8.
Definition ILType_UInt64 : Z := ILType_FromElement IL_META_ELEMTYPE_U8.
Definition ILType_Float32 : Z := ILType_FromElement IL_META_ELEMTYPE_R4.
Definition ILType_Float64 : Z := ILType_FromElement IL_META_ELEMTYPE_R8.
Definition ILType_Int : Z := ILType_FromElement IL_META_ELEMTYPE_I.
Definition ILType_UInt : Z := ILType_FromElement IL_META_ELEMTYPE_U.
Definition ILType_Float : Z := ILType_FromElement IL_META_ELEMTYPE_R.
Definition ILType_TypedRef : Z := ILType_FromElement IL_META_ELEMTYPE_TYPEDBYREF.

Definition IL_TYPE_COMPLEX_BYREF : Z := 1.
Definition IL_TYPE_COMPLEX_PTR : Z := 2.
Definition IL_TYPE_COMPLEX_ARRAY : Z := 3.
Definition IL_TYPE_COMPLEX_ARRAY_CONTINUE : Z := 4.
Definition IL_TYPE_COMPLEX_CMOD_REQD : Z := 6.
Definition IL_TYPE_COMPLEX_CMOD_OPT : Z := 7.
Definition IL_TYPE_COMPLEX_PINNED : Z := 10.
Definition IL_TYPE_COMPLEX_WITH : Z := 12.
Definition IL_TYPE_COMPLEX_METHOD : Z := 16.
Definition IL_TYPE_COMPLEX_METHOD_SENTINEL : Z := 1.
Definition IL_TYPE_COMPLEX_METHOD_REF : Z := 15.

(** ** The metadata library

    The fields of the structure that a complex type points to, and the
    functions on types and classes.  A class is the number of its ILClass;
    [None] is a null pointer. *)
Class TypeLibrary := {
  kind__ : Z -> Z;
  refType__ : Z -> Z;
  modifier_type__ : Z -> Z;
  ILTypeGetWithMain : Z -> Z;
  enum_type__ : Z -> Z;
  ILTypeGetRank : Z -> Z;
  ILTypeGetElemType : Z -> Z;
  ILTypeIdentical : Z -> Z -> bool;
  ILTypeAssignCompatibleNonBoxing : Z -> Z -> bool;
  ILTypeIsObjectClass : Z -> bool;
  ILMethod_Signature : Z -> Z;
  ILClassFromType : Z -> option Z;
  ILClassResolve : Z -> Z;
  ILClassToType : Z -> Z;
  ILClass_ParentClass : Z -> option Z;
  ILClass_IsInterface : Z -> bool;
  ILClassInheritsFrom : Z -> Z -> bool;
  ILClassImplements : Z -> Z -> bool;
}.

Section Types.
Context {TL : TypeLibrary}.

Definition ILType_Kind (type : Z) : Z := Z.land (kind__ type) 0xFF.
Definition is_complex (type : Z) : bool := negb (type =? 0) && ILType_IsComplex type.
Definition ILType_IsArray (type : Z) : bool :=
  is_complex type &&
  ((kind__ type =? IL_TYPE_COMPLEX_ARRAY) || (kind__ type =? IL_TYPE_COMPLEX_ARRAY_CONTINUE)).
Definition ILType_IsMethod (type : Z) : bool :=
  is_complex type && negb (Z.land (kind__ type) IL_TYPE_COMPLEX_METHOD =? 0).
Definition ILType_IsWith (type : Z) : bool :=
  is_complex type && (ILType_Kind type =? IL_TYPE_COMPLEX_WITH).

(** The type that an enumeration stands for (image/meta_types.c): only a value
    type, or an instance of a generic one, has a class to look at. *)
Definition ILTypeGetEnumType (type : Z) : Z :=
  if ILType_IsWith type then
    if ILType_IsValueType (ILTypeGetWithMain type) then enum_type__ type else type
  else if ILType_IsValueType type then enum_type__ type
  else type.

(** ** Engine types (verify.c) *)

Definition element_engine_type (elem : Z) : ILEngineType :=
  if existsb (Z.eqb elem) [IL_META_ELEMTYPE_BOOLEAN; IL_META_ELEMTYPE_I1; IL_META_ELEMTYPE_U1;
       IL_META_ELEMTYPE_I2; IL_META_ELEMTYPE_U2; IL_META_ELEMTYPE_CHAR; IL_META_ELEMTYPE_I4;
       IL_META_ELEMTYPE_U4] then ILEngineType_I4
  else if existsb (Z.eqb elem) [IL_META_ELEMTYPE_I8; IL_META_ELEMTYPE_U8] then ILEngineType_I8
  else if existsb (Z.eqb elem) [IL_META_ELEMTYPE_I; IL_META_ELEMTYPE_U] then ILEngineType_I
  else if existsb (Z.eqb elem) [IL_META_ELEMTYPE_R4; IL_META_ELEMTYPE_R8; IL_META_ELEMTYPE_R]
  then ILEngineType_F
  else if elem =? IL_META_ELEMTYPE_TYPEDBYREF then ILEngineType_TypedRef
  else ILEngineType_I4.

Fixpoint TypeToEngineType (fuel : nat) (type : Z) : vres ILEngineType :=
  match fuel with
  | O => NoFuel
  | S fuel =>
    let type := ILTypeGetEnumType type in
    if ILType_IsPrimitive type then Ret (element_engine_type (ILType_ToElement type))
    else if ILType_IsValueType type then Ret ILEngineType_MV
    else if is_complex type then
      let kind := ILType_Kind type in
      if kind =? IL_TYPE_COMPLEX_PTR then Ret ILEngineType_I
      else if kind =? IL_TYPE_COMPLEX_BYREF then Ret ILEngineType_M
      else if kind =? IL_TYPE_COMPLEX_PINNED then TypeToEngineType fuel (refType__ type)
      else if (kind =? IL_TYPE_COMPLEX_CMOD_REQD) || (kind =? IL_TYPE_COMPLEX_CMOD_OPT) then
        TypeToEngineType fuel (modifier_type__ type)
      else if (kind =? IL_TYPE_COMPLEX_METHOD) ||
              (kind =? Z.lor IL_TYPE_COMPLEX_METHOD IL_TYPE_COMPLEX_METHOD_SENTINEL) then
        Ret ILEngineType_I
      else Ret ILEngineType_O
    else Ret ILEngineType_O
  end.

Fixpoint IsObjectRef (fuel : nat) (type : Z) : vres bool :=
  match fuel with
  | O => NoFuel
  | S fuel =>
    if type =? 0 then Ret true
    else if ILType_IsClass type then Ret true
    else if ILType_IsArray type then Ret true
    else if ILType_IsWith type then IsObjectRef fuel (ILTypeGetWithMain type)
    else Ret false
  end.

Definition IsUnsafeType (type : Z) : bool :=
  is_complex type && (ILType_Kind type =? IL_TYPE_COMPLEX_PTR).

(** The method that a method reference type stands for. *)
Definition MethodRefToMethod (type : Z) : option Z :=
  if is_complex type && (ILType_Kind type =? IL_TYPE_COMPLEX_METHOD_REF)
  then Some (refType__ type) else None.

(** ** Assignment compatibility (verify.c)

    The case of a native integer that is a method reference, or is assigned to
    a pointer in unsafe code. *)
Definition assign_native_pointer (item : ILEngineStackItem) (type : Z) (unsafeAllowed : bool)
    : bool :=
  is_type (engineType item) ILEngineType_I &&
  (match MethodRefToMethod (typeInfo item) with
   | Some methodRef => ILTypeIdentical (ILMethod_Signature methodRef) type
   | None => ILType_IsMethod (typeInfo item) && ILTypeIdentical (typeInfo item) type
   end ||
   unsafeAllowed && is_complex type &&
   (negb (Z.land (ILType_Kind type) IL_TYPE_COMPLEX_METHOD =? 0) ||
    (ILType_Kind type =? IL_TYPE_COMPLEX_PTR))).

Definition is_int_type (type : Z) : bool :=
  existsb (Z.eqb type) [ILType_Boolean; ILType_Int8; ILType_UInt8; ILType_Int16; ILType_UInt16;
    ILType_Char; ILType_Int32; ILType_UInt32; ILType_Int; ILType_UInt].

(** Two object references that are not null. *)
Definition assign_object (type objType : Z) : bool :=
  let '(type, objType) :=
    if ILType_IsArray type && ILType_IsArray objType &&
       (ILTypeGetRank type =? ILTypeGetRank objType)
    then (ILTypeGetElemType type, ILTypeGetElemType objType) else (type, objType) in
  match ILClassResolve <$> ILClassFromType type, ILClassResolve <$> ILClassFromType objType with
  | Some classInfo, Some classInfo2 =>
    if negb (ILClass_IsInterface classInfo) then
      if ILClassInheritsFrom classInfo2 classInfo then true
      else if ILClass_IsInterface classInfo2 then ILTypeIsObjectClass type
      else false
    else ILClassImplements classInfo2 classInfo || ILClassInheritsFrom classInfo2 classInfo
  | _, _ => false
  end.

Definition AssignCompatible (fuel : nat) (item : ILEngineStackItem) (type : Z)
    (unsafeAllowed : bool) : vres bool :=
  if assign_native_pointer item type unsafeAllowed then Ret true
  else match engineType item with
  | ILEngineType_I4 | ILEngineType_I =>
    let type := ILTypeGetEnumType type in
    Ret (is_int_type type ||
         unsafeAllowed && is_complex type && is_type (engineType item) ILEngineType_I &&
         ((ILType_Kind type =? IL_TYPE_COMPLEX_PTR) || (ILType_Kind type =? IL_TYPE_COMPLEX_BYREF)))
  | ILEngineType_I8 =>
    let type := ILTypeGetEnumType type in
    Ret ((type =? ILType_Int64) || (type =? ILType_UInt64))
  | ILEngineType_F =>
    Ret ((type =? ILType_Float32) || (type =? ILType_Float64) || (type =? ILType_Float))
  | ILEngineType_O =>
    r ← IsObjectRef fuel type;
    if typeInfo item =? 0 then Ret r
    else if negb r then Ret false
    else
      r2 ← IsObjectRef fuel (typeInfo item);
      if negb r2 then Ret false else Ret (assign_object type (typeInfo item))
  | ILEngineType_MV => Ret (ILTypeIdentical (typeInfo item) type)
  | ILEngineType_TypedRef => Ret (type =? ILType_TypedRef)
  | ILEngineType_M | ILEngineType_T =>
    Ret (unsafeAllowed &&
         (if is_complex type then
            (ILType_Kind type =? IL_TYPE_COMPLEX_PTR) || (ILType_Kind type =? IL_TYPE_COMPLEX_BYREF)
            || negb (Z.land (ILType_Kind type) IL_TYPE_COMPLEX_METHOD =? 0)
          else (type =? ILType_Int) || (type =? ILType_UInt)))
  | _ => Ret false
  end.

End Types.
