(* ===== verification/Metadata.v ===== *)
(** * Types and classes of the metadata image (image/meta_types.c, class.c, member.c)

    The objects that the image library has built in memory are the [Heap]: what
    each type pointer and each class pointer points to.  On it: stripping and
    identity of types, resolution of references, inheritance, implementation
    of interfaces, assignability and access checks.

    A loop or a recursion along pointers takes fuel; [None] is that it has run
    out, or that a null pointer was followed.  MetadataProps.v shows how much
    is enough where the pointers have no cycles. *)
From Stdlib Require Import ZArith Lia String.
From stdpp Require Import base list option numbers.
From S2P Require Import Prelude Opcodes Cvm JumpMask Scan Coder Types.

Local Open Scope Z_scope.

(** ** The objects *)

(** [struct _tagILType] (il_types.h), with the members of its union by name;
    code reads the members of the kind only. *)
Record ILType_object := mk_type_object {
  o_kind : Z;
  o_num : Z;
  o_ref : Z;
  o_elem : Z; o_size : Z; o_low : Z;
  o_ret : Z; o_params : list Z; o_gparams : Z;
  o_mod_type : Z;
  o_varnum : Z;
  o_info : Z;
}.

(** What is read of [struct _tagILClass] and of its name and program item
    (image/program.h).  A scope, parent or interface is given as the class that
    [ILProgramItemToClass] makes of the item. *)
Record ILClass_object := mk_class_object {
  c_linked : option Z;
  c_attributes : Z;
  c_name : string;
  c_namespace : option string;
  c_scope : option Z;
  c_image : Z;
  c_parent : option Z;
  (** The type of the parent where it is given as a type specification. *)
  c_parent_spec : option Z;
  c_implements : list Z;
  c_synthetic : Z;
  (** The type of the first field that is not static and has a special name. *)
  c_enum_field : option Z;
}.

Record Heap := mk_heap {
  type_at : Z -> ILType_object;
  class_at : Z -> ILClass_object;
  (** Of the context of all images. *)
  numRedoItems : Z;
  systemImage : option Z;
  (** What [ILClassResolveSystem] finds for a name in "System". *)
  system_class : string -> option Z;
  (** The synthetic classes of arrays and other complex types. *)
  synthetic_class : Z -> option Z;
  (** The instances of generic types that [ILClassInstantiate] makes. *)
  instance_class : Z -> option Z;
}.

Definition IL_TYPE_COMPLEX_PROPERTY : Z := 8.
Definition IL_TYPE_COMPLEX_SENTINEL : Z := 9.
Definition IL_TYPE_COMPLEX_MVAR : Z := 13.
Definition IL_TYPE_COMPLEX_VAR : Z := 14.
Definition IL_META_CALLCONV_GENERIC : Z := 0x10.
Definition IL_META_ELEMTYPE_STRING : Z := 0x0E.
Definition IL_META_ELEMTYPE_OBJECT : Z := 0x1C.
Definition ILType_Null : Z := ILType_FromElement 0xFF.
Definition ILType_ToClass (type : Z) : Z := Z.land type (Z.lnot 3).
Definition ILType_ToValueType (type : Z) : Z := Z.land type (Z.lnot 3).
Definition ILType_FromValueType (info : Z) : Z := Z.lor info 3.

Section Meta.
Variable h : Heap.

Definition t_kind (type : Z) : Z := o_kind (type_at h type).

(** [type != 0 && ILType_IsComplex(type)]. *)
Definition complex_type (type : Z) : bool := negb (type =? 0) && ILType_IsComplex type.

Definition method_kind (kind : Z) : bool := negb (Z.land kind IL_TYPE_COMPLEX_METHOD =? 0).
Definition property_kind (kind : Z) : bool := Z.land kind 0xFF =? IL_TYPE_COMPLEX_PROPERTY.
Definition with_kind (kind : Z) : bool := Z.land kind 0xFF =? IL_TYPE_COMPLEX_WITH.
Definition prefix_kind (kind : Z) : bool :=
  (kind =? IL_TYPE_COMPLEX_CMOD_REQD) || (kind =? IL_TYPE_COMPLEX_CMOD_OPT) ||
  (kind =? IL_TYPE_COMPLEX_PINNED).
Definition array_kind (kind : Z) : bool :=
  (kind =? IL_TYPE_COMPLEX_ARRAY) || (kind =? IL_TYPE_COMPLEX_ARRAY_CONTINUE).
Definition ref_kind (kind : Z) : bool :=
  (kind =? IL_TYPE_COMPLEX_BYREF) || (kind =? IL_TYPE_COMPLEX_PTR) || (kind =? IL_TYPE_COMPLEX_PINNED).
Definition generic_var_kind (kind : Z) : bool := (kind =? IL_TYPE_COMPLEX_MVAR) || (kind =? IL_TYPE_COMPLEX_VAR).
Definition signature_kind (kind : Z) : bool := property_kind kind || method_kind kind || with_kind kind.

(** What a prefix stands in front of. *)
Definition prefixed (type : Z) : Z :=
  let o := type_at h type in
  if o_kind o =? IL_TYPE_COMPLEX_PINNED then o_ref o else o_mod_type o.

Fixpoint ILTypeStripPrefixes (fuel : nat) (type : Z) : option Z :=
  if complex_type type && prefix_kind (t_kind type) then
    match fuel with
    | O => None
    | S fuel => ILTypeStripPrefixes fuel (prefixed type)
    end
  else Some type.

Fixpoint _ILProgramItemResolve (fuel : nat) (item : Z) : option Z :=
  match c_linked (class_at h item) with
  | None => Some item
  | Some newItem => match fuel with O => None | S fuel => _ILProgramItemResolve fuel newItem end
  end.

Definition ILTypeGetParamWithPrefixes (method index : Z) : Z :=
  let o := type_at h method in
  if negb (complex_type method && signature_kind (o_kind o)) then 0
  else if index =? 0 then o_ret o
  else if o_num o <? index then 0
  else default 0 (o_params o !! Z.to_nat (index - 1)).

(** *** Fuel for every chain of pointers *)

Variable depth : nat.

Definition ILClassResolve (info : Z) : option Z := _ILProgramItemResolve depth info.

Definition ILClassIsRef (info : Z) : bool :=
  negb (Z.land (c_attributes (class_at h info)) 0x80000000 =? 0).

Definition ILTypeGetReturn (type : Z) : option Z :=
  if complex_type type && signature_kind (t_kind type)
  then ILTypeStripPrefixes depth (o_ret (type_at h type)) else Some 0.
Definition ILTypeGetWithMain (type : Z) : option Z := ILTypeGetReturn type.

(** *** Identity *)

Definition namespace_eqb (n1 n2 : option string) : bool :=
  match n1, n2 with
  | Some n1, Some n2 => String.eqb n1 n2
  | None, None => true
  | _, _ => false
  end.

Fixpoint ClassIdentical (fuel : nat) (info1 info2 : Z) : option bool :=
  info1 ← ILClassResolve info1;
  info2 ← ILClassResolve info2;
  let c1 := class_at h info1 in
  let c2 := class_at h info2 in
  if info1 =? info2 then Some true
  else if numRedoItems h =? 0 then Some false
  else if negb (ILClassIsRef info1) && negb (ILClassIsRef info2) then Some false
  else if negb (String.eqb (c_name c1) (c_name c2)) then Some false
  else if negb (namespace_eqb (c_namespace c1) (c_namespace c2)) then Some false
  else match c_scope c1, c_scope c2 with
  | Some parent1, Some parent2 =>
    match fuel with O => None | S fuel => ClassIdentical fuel parent1 parent2 end
  | None, None => Some true
  | _, _ => Some false
  end.

(** [for(...) if(!f(x)) return 0;  return 1;] *)
Fixpoint all_true {A} (f : A -> option bool) (l : list A) : option bool :=
  match l with
  | [] => Some true
  | x :: l => r ← f x; if (r : bool) then all_true f l else Some false
  end.

(** The numbers of the parameters of a signature. *)
Definition param_numbers (num : Z) : list Z := Z.of_nat <$> seq 1 (Z.to_nat num).

Fixpoint ILTypeIdentical (fuel : nat) (type1 type2 : Z) : option bool :=
  if type1 =? type2 then Some true
  else
    type1 ← ILTypeStripPrefixes depth type1;
    type2 ← ILTypeStripPrefixes depth type2;
    let o1 := type_at h type1 in
    let o2 := type_at h type2 in
    if type1 =? type2 then Some true
    else if (type1 =? 0) || (type2 =? 0) then Some false
    else if ILType_IsPrimitive type1 then Some (type1 =? type2)
    else if ILType_IsClass type1 then
      if ILType_IsClass type2 then ClassIdentical depth (ILType_ToClass type1) (ILType_ToClass type2)
      else Some false
    else if ILType_IsValueType type1 then
      if ILType_IsValueType type2
      then ClassIdentical depth (ILType_ToValueType type1) (ILType_ToValueType type2)
      else Some false
    else if negb (ILType_IsComplex type1) || negb (ILType_IsComplex type2) ||
            negb (o_kind o1 =? o_kind o2) then Some false
    else match fuel with
    | O => None
    | S fuel =>
      if ref_kind (o_kind o1) then ILTypeIdentical fuel (o_ref o1) (o_ref o2)
      else if array_kind (o_kind o1) then
        r ← ILTypeIdentical fuel (o_elem o1) (o_elem o2);
        if negb r then Some false else Some ((o_size o1 =? o_size o2) && (o_low o1 =? o_low o2))
      else if o_kind o1 =? IL_TYPE_COMPLEX_SENTINEL then Some true
      else if generic_var_kind (o_kind o1) then Some (o_varnum o1 =? o_varnum o2)
      else if signature_kind (o_kind o1) then
        if negb (o_num o1 =? o_num o2) then Some false
        else if method_kind (o_kind o1) &&
                negb (Z.land (Z.shiftr (o_kind o1) 8) IL_META_CALLCONV_GENERIC =? 0) &&
                negb (o_gparams o1 =? o_gparams o2) then Some false
        else
          r ← ILTypeIdentical fuel (o_ret o1) (o_ret o2);
          if negb r then Some false
          else all_true (fun arg => ILTypeIdentical fuel (ILTypeGetParamWithPrefixes type1 arg)
                 (ILTypeGetParamWithPrefixes type2 arg)) (param_numbers (o_num o1))
      else Some false
    end.

(** *** Arrays *)

Fixpoint array_base (fuel : nat) (type : Z) : option Z :=
  if complex_type type && (t_kind type =? IL_TYPE_COMPLEX_ARRAY_CONTINUE) then
    match fuel with O => None | S fuel => array_base fuel (o_elem (type_at h type)) end
  else Some type.

Definition ILTypeGetElemType (type : Z) : option Z :=
  type ← array_base depth type;
  Some (if complex_type type && (t_kind type =? IL_TYPE_COMPLEX_ARRAY)
        then o_elem (type_at h type) else 0).

Fixpoint ILTypeGetRank (fuel : nat) (type : Z) : option Z :=
  if complex_type type && (t_kind type =? IL_TYPE_COMPLEX_ARRAY_CONTINUE) then
    match fuel with
    | O => None
    | S fuel => rank ← ILTypeGetRank fuel (o_elem (type_at h type)); Some (rank + 1)
    end
  else Some (if complex_type type && (t_kind type =? IL_TYPE_COMPLEX_ARRAY) then 1 else 0).

(** *** Inheritance and interfaces *)

(** [None] in the inner option: a null pointer. *)
Definition GetClassResolved (item : option Z) : option (option Z) :=
  match item with None => Some None | Some info => info ← ILClassResolve info; Some (Some info) end.
Definition GetParentClass (info : Z) : option (option Z) := GetClassResolved (c_parent (class_at h info)).
Definition ILClassGetNestedParent (info : Z) : option Z := c_scope (class_at h info).

Fixpoint inherits_loop (fuel : nat) (info ancestor : Z) : option bool :=
  if info =? ancestor then Some true
  else
    parent ← GetParentClass info;
    match parent with
    | None => Some false
    | Some parent => match fuel with O => None | S fuel => inherits_loop fuel parent ancestor end
    end.

(** [ancestor] may be null; [info] is not. *)
Definition ILClassInheritsFrom (info : Z) (ancestor : option Z) : option bool :=
  match ancestor with
  | None => Some false
  | Some ancestor =>
    ancestor ← ILClassResolve ancestor;
    info ← ILClassResolve info;
    inherits_loop depth info ancestor
  end.

Fixpoint any_true {A} (f : A -> option bool) (l : list A) : option bool :=
  match l with
  | [] => Some false
  | x :: l => r ← f x; if (r : bool) then Some true else any_true f l
  end.

(** The loop over the parents and the recursion into interfaces. *)
Fixpoint ImplementsResolved (fuel : nat) (info interface : Z) : option bool :=
  r ← any_true (fun temp =>
        tempInterface ← ILClassResolve temp;
        if tempInterface =? interface then Some true
        else match fuel with
        | O => None
        | S fuel => ImplementsResolved fuel tempInterface interface
        end) (c_implements (class_at h info));
  if (r : bool) then Some true
  else
    parent ← GetParentClass info;
    match parent with
    | None => Some false
    | Some parent => match fuel with O => None | S fuel => ImplementsResolved fuel parent interface end
    end.

Definition ILClassImplements (info interface : Z) : option bool :=
  info ← ILClassResolve info;
  interface ← ILClassResolve interface;
  if info =? interface then Some true else ImplementsResolved depth info interface.

Definition IL_META_TYPEDEF_CLASS_SEMANTICS_MASK : Z := 0x60.
Definition IL_META_TYPEDEF_INTERFACE : Z := 0x20.
Definition ILClass_IsInterface (info : Z) : bool :=
  Z.land (c_attributes (class_at h info)) IL_META_TYPEDEF_CLASS_SEMANTICS_MASK =? IL_META_TYPEDEF_INTERFACE.

(** *** From types to classes *)

Definition in_system (info : Z) (name : string) : bool :=
  let c := class_at h info in
  String.eqb (c_name c) name && namespace_eqb (c_namespace c) (Some "System"%string).

Definition ILTypeIsObjectClass (type : Z) : option bool :=
  if ILType_IsClass type then
    info ← ILClassResolve (ILType_ToClass type);
    Some (in_system info "Object" &&
          match systemImage h with None => true | Some image => image =? c_image (class_at h info) end)
  else Some false.

Definition ILTypeIsReference (type : Z) : bool :=
  (type =? 0) || (type =? ILType_Null) || ILType_IsClass type ||
  ILType_IsComplex type && array_kind (t_kind type).

Definition system_names : list (Z * string) :=
  [(IL_META_ELEMTYPE_VOID, "Void"); (IL_META_ELEMTYPE_BOOLEAN, "Boolean"); (IL_META_ELEMTYPE_I1, "SByte");
   (IL_META_ELEMTYPE_U1, "Byte"); (IL_META_ELEMTYPE_I2, "Int16"); (IL_META_ELEMTYPE_U2, "UInt16");
   (IL_META_ELEMTYPE_CHAR, "Char"); (IL_META_ELEMTYPE_I4, "Int32"); (IL_META_ELEMTYPE_U4, "UInt32");
   (IL_META_ELEMTYPE_I8, "Int64"); (IL_META_ELEMTYPE_U8, "UInt64"); (IL_META_ELEMTYPE_R4, "Single");
   (IL_META_ELEMTYPE_R8, "Double"); (IL_META_ELEMTYPE_I, "IntPtr"); (IL_META_ELEMTYPE_U, "UIntPtr");
   (IL_META_ELEMTYPE_TYPEDBYREF, "TypedReference"); (IL_META_ELEMTYPE_STRING, "String");
   (IL_META_ELEMTYPE_OBJECT, "Object")]%string.

(** [NULL] is [None]. *)
Definition ILClassFromType (type : Z) : option Z :=
  if ILType_IsPrimitive type then
    match list_find (fun p => fst p = ILType_ToElement type) system_names with
    | Some (_, (_, systemName)) => system_class h systemName
    | None => None
    end
  else if ILType_IsValueType type then Some (ILType_ToValueType type)
  else if ILType_IsClass type then Some (ILType_ToClass type)
  else if negb (type =? 0) then synthetic_class h type
  else None.

(** The class of a type definition or reference, without its arguments. *)
Definition underlying_of_main (type : Z) : option (option Z) :=
  main ← ILTypeGetWithMain type; Some (if main =? 0 then None else Some (ILType_ToClass main)).

Definition ILProgramItemToUnderlyingClass (info : Z) : option (option Z) :=
  let synthetic := c_synthetic (class_at h info) in
  if negb (synthetic =? 0) then
    type ← ILTypeGetWithMain synthetic;
    if type =? 0 then Some None else underlying_of_main type
  else Some (Some info).

Definition ILClassGetUnderlyingParentClass (info : Z) : option (option Z) :=
  let c := class_at h info in
  item ← match c_parent_spec c with
         | Some type => if type =? 0 then Some None else underlying_of_main type
         | None => match c_parent c with
                   | Some parent => ILProgramItemToUnderlyingClass parent
                   | None => Some None
                   end
         end;
  GetClassResolved item.

Fixpoint InheritsFromValueType (fuel : nat) (info : Z) : option bool :=
  info ← ILClassResolve info;
  if in_system info "ValueType" && bool_decide (ILClassGetNestedParent info = None) then Some true
  else
    parent ← ILClassGetUnderlyingParentClass info;
    match parent with
    | None => Some false
    | Some parent => match fuel with O => None | S fuel => InheritsFromValueType fuel parent end
    end.

Definition IL_META_TYPEDEF_VALUE_TYPE : Z := 0x40.
Definition IL_META_TYPEDEF_UNMANAGED_VALUE_TYPE : Z := 0x60.
Definition IL_META_TYPEDEF_SEALED : Z := 0x100.

Definition ILClassIsValueType (info : Z) : option bool :=
  newInfo ← ILClassResolve info;
  let attributes := c_attributes (class_at h newInfo) in
  let semantics := Z.land attributes IL_META_TYPEDEF_CLASS_SEMANTICS_MASK in
  if (semantics =? IL_META_TYPEDEF_VALUE_TYPE) || (semantics =? IL_META_TYPEDEF_UNMANAGED_VALUE_TYPE)
  then Some true
  else if negb (Z.land attributes IL_META_TYPEDEF_SEALED =? 0) then InheritsFromValueType depth newInfo
  else Some false.

(** *** From classes to types *)

Definition primitive_names : list (string * Z) :=
  [("Boolean", ILType_Boolean); ("SByte", ILType_Int8); ("Byte", ILType_UInt8); ("Int16", ILType_Int16);
   ("UInt16", ILType_UInt16); ("Char", ILType_Char); ("Int32", ILType_Int32); ("UInt32", ILType_UInt32);
   ("Int64", ILType_Int64); ("UInt64", ILType_UInt64); ("Single", ILType_Float32); ("Double", ILType_Float64);
   ("IntPtr", ILType_Int); ("UIntPtr", ILType_UInt); ("Void", ILType_Void);
   ("TypedReference", ILType_TypedRef)]%string.

(** Zero when there is no primitive type. *)
Definition ILClassToPrimitiveType (info : Z) : Z :=
  let c := class_at h info in
  if negb (c_synthetic c =? 0) && ILType_IsPrimitive (c_synthetic c) then c_synthetic c
  else if namespace_eqb (c_namespace c) (Some "System"%string) &&
          bool_decide (ILClassGetNestedParent info = None) then
    match list_find (fun p => String.eqb (c_name c) (fst p) = true) primitive_names with
    | Some (_, (_, type)) => type
    | None => 0
    end
  else 0.


Definition ILClassToTypeDirect (info : Z) : option Z :=
  r ← ILClassIsValueType info;
  Some (if (r : bool) then ILType_FromValueType info else ILType_FromClass info).

Definition ILClassToType (info : Z) : option Z :=
  let synthetic := c_synthetic (class_at h info) in
  if negb (synthetic =? 0) then Some synthetic
  else
    let type := ILClassToPrimitiveType info in
    if negb (type =? 0) then Some type else ILClassToTypeDirect info.

(** The type of the value field of an enumeration. *)
Definition enum_type (type : Z) (classInfo : Z) : option Z :=
  parent ← GetParentClass classInfo;
  Some match parent with
  | Some parent =>
    if in_system parent "Enum" then default type (c_enum_field (class_at h classInfo)) else type
  | None => type
  end.

Definition ILTypeGetEnumType (type : Z) : option Z :=
  if complex_type type && with_kind (t_kind type) then
    valueType ← ILTypeGetWithMain type;
    if ILType_IsValueType valueType then
      match instance_class h type with
      | None => Some 0
      | Some classInfo => enum_type type classInfo
      end
    else Some type
  else if ILType_IsValueType type then
    classInfo ← ILClassResolve (ILType_ToValueType type); enum_type type classInfo
  else Some type.

(** *** Assignability *)

(** [boxCheck]: what of the class of [src] may be assigned to the class of [dest]. *)
Definition class_assignable (src dest : Z) : option bool :=
  classInfo ← GetClassResolved (ILClassFromType dest);
  classInfo2 ← GetClassResolved (ILClassFromType src);
  match classInfo, classInfo2 with
  | Some classInfo, Some classInfo2 =>
    if negb (ILClass_IsInterface classInfo) then
      r ← ILClassInheritsFrom classInfo2 (Some classInfo);
      if (r : bool) then Some true
      else if ILClass_IsInterface classInfo2 then ILTypeIsObjectClass dest
      else Some false
    else
      r ← ILClassImplements classInfo2 classInfo;
      if (r : bool) then Some true else ILClassInheritsFrom classInfo2 (Some classInfo)
  | _, _ => Some false
  end.

Definition TypeAssignCompatible (src dest : Z) (allowBoxing : bool) : option bool :=
  src ← ILTypeStripPrefixes depth src; src ← ILTypeGetEnumType src;
  dest ← ILTypeStripPrefixes depth dest; dest ← ILTypeGetEnumType dest;
  if ILType_IsPrimitive src && negb allowBoxing then Some (src =? dest)
  else if (src =? 0) || (src =? ILType_Null) then Some (ILTypeIsReference dest)
  else if (dest =? 0) || (dest =? ILType_Null) then Some false
  else if ILTypeIsReference src then
    if negb (ILTypeIsReference dest) then Some false else class_assignable src dest
  else if allowBoxing && ILTypeIsReference dest then class_assignable src dest
  else ILTypeIdentical depth src dest.

Definition ILTypeAssignCompatible (src dest : Z) : option bool := TypeAssignCompatible src dest true.
Definition ILTypeAssignCompatibleNonBoxing (src dest : Z) : option bool := TypeAssignCompatible src dest false.

(** *** Nesting and access *)

Fixpoint nested_loop (fuel : nat) (parent temp : option Z) : option bool :=
  match temp with
  | None => Some false
  | Some t =>
    if bool_decide (Some t = parent) then Some true
    else match fuel with O => None | S fuel => nested_loop fuel parent (ILClassGetNestedParent t) end
  end.

(** [child] is nested within [parent]; both may be null. *)
Definition ILClassIsNested (parent child : option Z) : option bool :=
  nested_loop depth parent (child ≫= ILClassGetNestedParent).

Fixpoint nested_inherits_loop (fuel : nat) (temp ancestor : option Z) : option bool :=
  match temp with
  | None => Some false
  | Some t =>
    r ← (if bool_decide (Some t = ancestor) then Some true else ILClassInheritsFrom t ancestor);
    if (r : bool) then Some true
    else match fuel with O => None | S fuel => nested_inherits_loop fuel (ILClassGetNestedParent t) ancestor end
  end.

Definition ILClassIsNestedInheritsFrom (nestedChild ancestor : option Z) : option bool :=
  nested_inherits_loop depth (nestedChild ≫= ILClassGetNestedParent) ancestor.

Definition AccessibleNestedPrivate (info : Z) (scope : option Z) : option bool :=
  match scope with
  | None => Some false
  | Some _ =>
    if bool_decide (ILClassGetNestedParent info = scope) then Some true
    else ILClassIsNested (ILClassGetNestedParent info) scope
  end.

(** The scope and its nested parents, for one that inherits from [info]. *)
Fixpoint family_loop (fuel : nat) (scope info : option Z) : option bool :=
  match scope with
  | None => Some false
  | Some s =>
    r ← ILClassInheritsFrom s info;
    if (r : bool) then Some true
    else match fuel with O => None | S fuel => family_loop fuel (ILClassGetNestedParent s) info end
  end.

Definition AccessibleNestedFamily (info : Z) (scope : option Z) : option bool :=
  r ← AccessibleNestedPrivate info scope;
  if (r : bool) then Some true else family_loop depth scope (ILClassGetNestedParent info).

Definition same_image (info : Z) (scope : option Z) : bool :=
  match scope with Some s => c_image (class_at h info) =? c_image (class_at h s) | None => false end.

Definition IL_META_TYPEDEF_VISIBILITY_MASK : Z := 7.

Definition resolve_scope (scope : option Z) : option (option Z) :=
  match scope with Some s => s ← ILClassResolve s; Some (Some s) | None => Some None end.

Fixpoint ILClassAccessible (fuel : nat) (info scope : option Z) : option bool :=
  match info with
  | None => Some false
  | Some info =>
    info ← ILClassResolve info;
    scope ← resolve_scope scope;
    if bool_decide (Some info = scope) then Some true
    else match Z.land (c_attributes (class_at h info)) IL_META_TYPEDEF_VISIBILITY_MASK with
    | 0 | 5 => Some (same_image info scope)
    | 1 => Some true
    | 2 => match fuel with O => None | S fuel => ILClassAccessible fuel (ILClassGetNestedParent info) scope end
    | 3 => AccessibleNestedPrivate info scope
    | 4 => AccessibleNestedFamily info scope
    | 6 => r ← AccessibleNestedFamily info scope; Some (r && same_image info scope)
    | _ => r ← AccessibleNestedFamily info scope; Some (r || same_image info scope)
    end
  end.

Definition ILClassIsExpanded (info : Z) : bool :=
  negb (Z.land (c_attributes (class_at h info)) 0x10000000 =? 0).

Definition ILClassGetGenericDef (info : Z) : option (option Z) :=
  let type := c_synthetic (class_at h info) in
  if complex_type type && with_kind (t_kind type)
  then main ← ILTypeGetWithMain type; Some (Some (ILType_ToClass main)) else Some None.

Definition generic_def (info : Z) : option (option Z) :=
  if ILClassIsExpanded info then ILClassGetGenericDef info else Some (Some info).

Definition either (a b : option bool) : option bool := r ← a; if (r : bool) then Some true else b.

(** A method or field of [owner]; a property or event is checked by its
    accessor. *)
Definition ILMemberAccessible (owner attributes : Z) (scope : Z) : option bool :=
  scope ← ILClassResolve scope;
  info ← generic_def owner;
  scope ← generic_def scope;
  accessible ← ILClassAccessible depth info scope;
  match info with
  | Some class =>
    let in_family :=
      match scope with
      | Some s => either (ILClassInheritsFrom s info) (ILClassIsNestedInheritsFrom scope info)
      | None => None
      end in
    let nested := if bool_decide (info = scope) then Some true else ILClassIsNested info scope in
    if negb accessible then Some false
    else match Z.land attributes 7 with
    | 0 | 1 => nested
    | 2 => match scope with
           | Some s => r ← ILClassInheritsFrom s info; Some (r && same_image class scope)
           | None => None
           end
    | 3 => Some (same_image class scope)
    | 4 => in_family
    | 5 => either in_family (Some (same_image class scope))
    | 6 => Some true
    | _ => Some false
    end
  | None => Some false
  end.

End Meta.
