(* ===== verification/MetadataProps.v ===== *)
(** * Type identity, inheritance and assignability (proofs about Metadata.v)

    Where the pointers of the metadata heap have no cycles, every walk along
    them ends.  Two types are identical when they stand for the same tree, a
    class inherits what its parents reach and implements what its parents and
    interfaces reach, and assignability of object types is a preorder. *)
From Stdlib Require Import ZArith Lia String.
From stdpp Require Import base list option numbers relations.
From S2P Require Import Prelude Opcodes Cvm JumpMask Scan Coder Types Metadata.

Local Open Scope Z_scope.

Section Props.
Variables (h : Heap) (depth : nat).

(** ** Heaps without cycles *)

Definition resolved (c : Z) : Z := default c (ILClassResolve h depth c).

Definition parent_edge (c p : Z) : Prop :=
  exists q, c_parent (class_at h c) = Some q /\ resolved q = p.
Definition interface_edge (c i : Z) : Prop :=
  exists q, q ∈ c_implements (class_at h c) /\ resolved q = i.
Definition class_edge (c d : Z) : Prop := parent_edge c d \/ interface_edge c d.

(** What a type is made of. *)
Definition component (t u : Z) : Prop :=
  complex_type t = true /\
  let o := type_at h t in
  if prefix_kind (o_kind o) then u = prefixed h t
  else if ref_kind (o_kind o) then u = o_ref o
  else if array_kind (o_kind o) then u = o_elem o
  else signature_kind (o_kind o) = true /\
    (u = o_ret o \/ exists arg, arg ∈ param_numbers (o_num o) /\ u = ILTypeGetParamWithPrefixes h t arg).

(** Links, edges between classes and components of types go down in rank. *)
Record acyclic (link_rank class_rank type_rank : Z -> nat) : Prop := {
  ac_link c c' : c_linked (class_at h c) = Some c' -> (link_rank c' < link_rank c)%nat;
  ac_link_depth c : (link_rank c <= depth)%nat;
  ac_class c d : class_edge c d -> (class_rank d < class_rank c)%nat;
  ac_class_depth c : (class_rank c <= depth)%nat;
  ac_type t u : component t u -> (type_rank u < type_rank t)%nat;
  ac_type_depth t : (type_rank t < depth)%nat;
}.

Context {link_rank class_rank type_rank : Z -> nat}.
Hypothesis Hac : acyclic link_rank class_rank type_rank.

(** ** Resolution *)

Lemma resolve_ends fuel c : (link_rank c <= fuel)%nat ->
  exists r, _ILProgramItemResolve h fuel c = Some r /\ c_linked (class_at h r) = None.
Proof.
  revert c. induction fuel as [|fuel IH]; intros c Hr; simpl;
    (destruct (c_linked (class_at h c)) as [c'|] eqn:E; [|by exists c]);
    pose proof (ac_link _ _ _ Hac _ _ E); [lia|]. apply IH. lia.
Qed.

Lemma resolve_eq c : ILClassResolve h depth c = Some (resolved c).
Proof.
  unfold resolved. destruct (resolve_ends depth c (ac_link_depth _ _ _ Hac c)) as (r & E & _).
  unfold ILClassResolve. by rewrite E.
Qed.

Lemma resolved_unlinked c : c_linked (class_at h (resolved c)) = None.
Proof.
  unfold resolved. destruct (resolve_ends depth c (ac_link_depth _ _ _ Hac c)) as (r & E & Hr).
  unfold ILClassResolve. by rewrite E.
Qed.

Lemma resolve_same fuel c : c_linked (class_at h c) = None -> _ILProgramItemResolve h fuel c = Some c.
Proof. intros E. destruct fuel; simpl; by rewrite E. Qed.

Lemma resolved_idem c : resolved (resolved c) = resolved c.
Proof.
  unfold resolved at 1. unfold ILClassResolve. rewrite resolve_same; [done|apply resolved_unlinked].
Qed.

Lemma parent_eq c : GetParentClass h depth c = Some (resolved <$> c_parent (class_at h c)).
Proof. unfold GetParentClass, GetClassResolved. destruct (c_parent _); [|done]. by rewrite resolve_eq. Qed.

(** ** Inheritance *)

Lemma inherits_loop_spec fuel c a : (class_rank c <= fuel)%nat ->
  exists b, inherits_loop h depth fuel c a = Some b /\ (b = true <-> rtc parent_edge c a).
Proof.
  revert c. induction fuel as [|fuel IH]; intros c Hr; simpl; rewrite parent_eq;
    (destruct (Z.eqb_spec c a) as [->|Hne]; [exists true; split; [done|]; split; [intros _; apply rtc_refl|done]|]);
    cbn [mbind option_bind];
    (destruct (c_parent (class_at h c)) as [q|] eqn:E; cbn [fmap option_fmap option_map];
      [|exists false; split; [done|]; split; [done|]; intros H; exfalso;
        apply rtc_inv in H as [?|(p & (q & Hq & _) & _)]; congruence]).
  all: assert (parent_edge c (resolved q)) as Hp by (by exists q).
  all: pose proof (ac_class _ _ _ Hac _ _ (or_introl Hp)) as Hlt.
  { lia. }
  destruct (IH (resolved q) ltac:(lia)) as (b & Hb & Hiff). exists b. split; [done|]. rewrite Hiff. split.
  - intros H. by eapply rtc_l.
  - intros H. apply rtc_inv in H as [?|(p & (q' & Hq' & <-) & H)]; [done|]. rewrite E in Hq'. by injection Hq' as <-.
Qed.

Lemma ILClassInheritsFrom_spec c a :
  exists b, ILClassInheritsFrom h depth c (Some a) = Some b /\
    (b = true <-> rtc parent_edge (resolved c) (resolved a)).
Proof.
  unfold ILClassInheritsFrom. rewrite !resolve_eq. cbn [mbind option_bind].
  apply inherits_loop_spec, (ac_class_depth _ _ _ Hac).
Qed.

(** ** Interfaces *)

Lemma any_true_spec {A} (f : A -> option bool) (P : A -> Prop) l :
  (forall x, x ∈ l -> exists b, f x = Some b /\ (b = true <-> P x)) ->
  exists b, any_true f l = Some b /\ (b = true <-> exists x, x ∈ l /\ P x).
Proof.
  induction l as [|x l IH]; intros Hf; simpl.
  { exists false. split; [done|]. split; [done|]. intros (x & Hx & _). by apply elem_of_nil in Hx. }
  destruct (Hf x ltac:(left)) as (b & -> & Hb). cbn [mbind option_bind].
  destruct IH as (b' & Hb' & Hiff); [intros y Hy; apply Hf; by right|]. destruct b.
  - exists true. split; [done|]. split; [|done]. intros _. exists x. split; [left|by apply Hb].
  - exists b'. split; [done|]. rewrite Hiff. split.
    + intros (y & Hy & HP). exists y. split; [by right|done].
    + intros (y & [->|Hy]%elem_of_cons & HP); [by apply Hb in HP|by exists y].
Qed.

(** [c] reaches [i] by parents and interfaces, and the last step is an
    interface. *)
Definition implements (c i : Z) : Prop := exists x, rtc class_edge c x /\ interface_edge x i.

Lemma implements_inv c i :
  implements c i <->
  (exists q, q ∈ c_implements (class_at h c) /\ (resolved q = i \/ implements (resolved q) i)) \/
  (exists q, c_parent (class_at h c) = Some q /\ implements (resolved q) i).
Proof.
  split.
  - intros (x & Hx & Hi). apply rtc_inv in Hx as [->|(d & [(q & Hq & <-)|(q & Hq & <-)] & Hd)].
    + left. destruct Hi as (q & ? & ?). exists q. auto.
    + right. exists q. split; [done|by exists x].
    + left. exists q. split; [done|]. right. by exists x.
  - intros [(q & Hq & [<-|(x & Hx & Hi)])|(q & Hq & (x & Hx & Hi))].
    + exists c. split; [apply rtc_refl|by exists q].
    + exists x. split; [|done]. eapply rtc_l; [|exact Hx]. right. by exists q.
    + exists x. split; [|done]. eapply rtc_l; [|exact Hx]. left. by exists q.
Qed.

Lemma ImplementsResolved_spec fuel c i : (class_rank c <= fuel)%nat ->
  exists b, ImplementsResolved h depth fuel c i = Some b /\ (b = true <-> implements c i).
Proof.
  revert c. induction fuel as [fuel IH] using lt_wf_ind. intros c Hr.
  assert (forall d, class_edge c d -> (class_rank d < fuel)%nat /\ exists b,
    match fuel with O => None | S fuel => ImplementsResolved h depth fuel d i end = Some b /\
    (b = true <-> implements d i)) as Hrec.
  { intros d Hd%(ac_class _ _ _ Hac). destruct fuel as [|fuel]; [lia|]. split; [lia|]. apply IH; lia. }
  assert (ImplementsResolved h depth fuel c i =
    r ← any_true (fun temp =>
        tempInterface ← ILClassResolve h depth temp;
        if tempInterface =? i then Some true
        else match fuel with O => None | S fuel => ImplementsResolved h depth fuel tempInterface i end)
      (c_implements (class_at h c));
    if (r : bool) then Some true
    else
      parent ← GetParentClass h depth c;
      match parent with
      | None => Some false
      | Some parent => match fuel with O => None | S fuel => ImplementsResolved h depth fuel parent i end
      end) as -> by (by destruct fuel).
  lazymatch goal with |- context [any_true ?f ?l] =>
    destruct (any_true_spec f (fun q => resolved q = i \/ implements (resolved q) i) l) as (b & -> & Hb) end.
  { intros q Hq. rewrite resolve_eq. cbn [mbind option_bind].
    destruct (Z.eqb_spec (resolved q) i) as [E|Hne]; [exists true; split; [done|]; split; auto|].
    destruct (Hrec (resolved q)) as (_ & b & Heq & Hb); [right; by exists q|].
    exists b. split; [exact Heq|]. rewrite Hb. split; [auto|]. by intros [|]. }
  pose proof (implements_inv c i) as Hinv. cbn [mbind option_bind]. destruct b.
  { exists true. split; [done|]. split; [|done]. intros _. apply Hinv. left. by apply Hb. }
  rewrite parent_eq. cbn [mbind option_bind]. destruct (c_parent (class_at h c)) as [q|] eqn:E; cbn [fmap option_fmap option_map].
  - destruct (Hrec (resolved q)) as (_ & b' & Heq & Hb'); [left; by exists q|].
    exists b'. split; [exact Heq|]. rewrite Hb', Hinv. split; [by eauto|].
    intros [H|(q' & Hq' & H)]; [by apply Hb in H|]. by injection Hq' as <-.
  - exists false. split; [done|]. split; [done|]. rewrite Hinv. intros [H|(q & ? & _)]; [by apply Hb in H|done].
Qed.

Lemma ILClassImplements_spec c i :
  exists b, ILClassImplements h depth c i = Some b /\
    (b = true <-> resolved c = resolved i \/ implements (resolved c) (resolved i)).
Proof.
  unfold ILClassImplements. rewrite !resolve_eq. cbn [mbind option_bind].
  destruct (Z.eqb_spec (resolved c) (resolved i)) as [E|Hne]; [exists true; split; [done|]; split; auto|].
  destruct (ImplementsResolved_spec depth (resolved c) (resolved i)) as (b & -> & Hb); [apply (ac_class_depth _ _ _ Hac)|].
  exists b. split; [done|]. rewrite Hb. split; [auto|]. by intros [|].
Qed.

(** ** Types as trees *)

#[warnings="-register-all"] Inductive type_tree :=
  | Null_type
  | Primitive (type : Z)
  | Class_type (info : Z)
  | Value_type (info : Z)
  | Ref_type (kind : Z) (elem : type_tree)
  | Array_type (kind : Z) (elem : type_tree) (size low : Z)
  | Sentinel_type
  | Var_type (kind num : Z)
  | Signature (kind num : Z) (generic : option Z) (ret : type_tree) (params : list type_tree)
  | Other_type (type : Z).

Definition stripped (t : Z) : Z := default t (ILTypeStripPrefixes h depth t).

Definition generic_count (o : ILType_object) : option Z :=
  if method_kind (o_kind o) && negb (Z.land (Z.shiftr (o_kind o) 8) IL_META_CALLCONV_GENERIC =? 0)
  then Some (o_gparams o) else None.

(** The tree of a type without prefixes, over the trees of its components. *)
Definition tree_node (rec : Z -> type_tree) (s : Z) : type_tree :=
  if s =? 0 then Null_type
  else if ILType_IsPrimitive s then Primitive s
  else if ILType_IsClass s then Class_type (resolved (ILType_ToClass s))
  else if ILType_IsValueType s then Value_type (resolved (ILType_ToValueType s))
  else
    let o := type_at h s in
    if ref_kind (o_kind o) then Ref_type (o_kind o) (rec (o_ref o))
    else if array_kind (o_kind o) then Array_type (o_kind o) (rec (o_elem o)) (o_size o) (o_low o)
    else if o_kind o =? IL_TYPE_COMPLEX_SENTINEL then Sentinel_type
    else if generic_var_kind (o_kind o) then Var_type (o_kind o) (o_varnum o)
    else if signature_kind (o_kind o) then
      Signature (o_kind o) (o_num o) (generic_count o) (rec (o_ret o))
        (map (fun arg => rec (ILTypeGetParamWithPrefixes h s arg)) (param_numbers (o_num o)))
    else Other_type s.

Fixpoint tree (fuel : nat) (t : Z) : type_tree :=
  match fuel with
  | O => Null_type
  | S fuel => tree_node (tree fuel) (stripped t)
  end.

(** What the type [t] stands for. *)
Definition type_tree_of (t : Z) : type_tree := tree depth t.

(** *** Prefixes *)

Lemma strip_ends fuel t : (type_rank t <= fuel)%nat ->
  exists s, ILTypeStripPrefixes h fuel t = Some s /\ (type_rank s <= type_rank t)%nat /\
    complex_type s && prefix_kind (t_kind h s) = false.
Proof.
  revert t. induction fuel as [|fuel IH]; intros t Hr; simpl;
    destruct (complex_type t && prefix_kind (t_kind h t)) eqn:E; try (exists t; split; [done|]; split; [done|exact E]).
  all: apply andb_true_iff in E as [Ec Ek].
  all: assert (component t (prefixed h t)) as Hc by (split; [done|]; unfold t_kind in Ek; cbn zeta; by rewrite Ek).
  all: apply (ac_type _ _ _ Hac) in Hc.
  { lia. }
  destruct (IH (prefixed h t) ltac:(lia)) as (s & ? & ? & ?). exists s. split; [done|]. split; [lia|done].
Qed.

Lemma strip_eq t : ILTypeStripPrefixes h depth t = Some (stripped t).
Proof.
  unfold stripped. pose proof (ac_type_depth _ _ _ Hac t).
  destruct (strip_ends depth t ltac:(lia)) as (s & -> & _). done.
Qed.

Lemma stripped_rank t : (type_rank (stripped t) <= type_rank t)%nat.
Proof.
  unfold stripped. pose proof (ac_type_depth _ _ _ Hac t).
  destruct (strip_ends depth t ltac:(lia)) as (s & -> & ? & _). done.
Qed.

Lemma stripped_no_prefix t : complex_type (stripped t) && prefix_kind (t_kind h (stripped t)) = false.
Proof.
  unfold stripped. pose proof (ac_type_depth _ _ _ Hac t).
  destruct (strip_ends depth t ltac:(lia)) as (s & -> & _ & ?). done.
Qed.

Lemma tag_cases t : ILType_IsPrimitive t = false -> ILType_IsClass t = false -> ILType_IsValueType t = false ->
  ILType_IsComplex t = true.
Proof.
  unfold ILType_IsPrimitive, ILType_IsClass, ILType_IsValueType, ILType_IsComplex.
  pose proof (Z.land_ones t 2 ltac:(lia)) as E. change (Z.ones 2) with 3 in E. rewrite E. change (2 ^ 2) with 4.
  pose proof (Z.mod_pos_bound t 4 ltac:(lia)). rewrite !Z.eqb_neq, Z.eqb_eq. lia.
Qed.

(** The components of a type without prefixes, by its kind. *)
Lemma node_component s u :
  complex_type s = true -> prefix_kind (t_kind h s) = false ->
  (if ref_kind (t_kind h s) then u = o_ref (type_at h s)
   else if array_kind (t_kind h s) then u = o_elem (type_at h s)
   else signature_kind (t_kind h s) = true /\
     (u = o_ret (type_at h s) \/
      exists arg, arg ∈ param_numbers (o_num (type_at h s)) /\ u = ILTypeGetParamWithPrefixes h s arg)) ->
  (type_rank u < type_rank s)%nat.
Proof.
  intros Hc Hp Hu. apply (ac_type _ _ _ Hac). split; [done|]. cbn zeta. unfold t_kind in *. by rewrite Hp.
Qed.

Lemma tree_node_ext rec rec' s :
  complex_type s && prefix_kind (t_kind h s) = false ->
  (forall u, (type_rank u < type_rank s)%nat -> rec u = rec' u) -> tree_node rec s = tree_node rec' s.
Proof.
  intros Hp Hrec. unfold tree_node. destruct (Z.eqb_spec s 0) as [|Hs0]; [done|].
  destruct (ILType_IsPrimitive s) eqn:E1, (ILType_IsClass s) eqn:E2, (ILType_IsValueType s) eqn:E3; try done.
  assert (complex_type s = true) as Hc by (unfold complex_type; rewrite tag_cases by done; by apply Z.eqb_neq in Hs0 as ->).
  rewrite Hc in Hp. simpl in Hp. pose proof (node_component s) as Hn. unfold t_kind in *.
  destruct (ref_kind _) eqn:Er; [f_equal; apply Hrec, (Hn _ Hc Hp); done|].
  destruct (array_kind _) eqn:Ea; [f_equal; apply Hrec, (Hn _ Hc Hp); done|].
  destruct (_ =? IL_TYPE_COMPLEX_SENTINEL); [done|]. destruct (generic_var_kind _); [done|].
  destruct (signature_kind _) eqn:Es; [|done]. f_equal.
  - apply Hrec, (Hn _ Hc Hp). auto.
  - apply map_ext_in. intros arg Harg. apply Hrec, (Hn _ Hc Hp). split; [done|]. right. exists arg.
    split; [by apply list_elem_of_In|done].
Qed.

Lemma tree_fuel n m t : (type_rank t < n)%nat -> (type_rank t < m)%nat -> tree n t = tree m t.
Proof.
  revert m t. induction n as [|n IH]; intros [|m] t Hn Hm; try lia. simpl.
  apply tree_node_ext; [apply stripped_no_prefix|]. intros u Hu. pose proof (stripped_rank t). apply IH; lia.
Qed.

Lemma type_tree_eq t : type_tree_of t = tree_node type_tree_of (stripped t).
Proof.
  unfold type_tree_of. pose proof (ac_type_depth _ _ _ Hac t) as Hd.
  rewrite (tree_fuel depth (S depth)) by lia. done.
Qed.

(** *** Identity *)

(** [m] has a result, which decides [P]. *)
Definition decides (m : option bool) (P : Prop) : Prop := exists b, m = Some b /\ (b = true <-> P).

Lemma decides_true (P : Prop) : P -> decides (Some true) P.
Proof. intros HP. exists true. by split. Qed.

Lemma decides_false (P : Prop) : ~ P -> decides (Some false) P.
Proof. intros HP. exists false. split; [done|]. by split. Qed.

Lemma decides_eqb (x y : Z) (P : Prop) : (x = y <-> P) -> decides (Some (x =? y)) P.
Proof. intros HP. exists (x =? y). split; [done|]. by rewrite Z.eqb_eq. Qed.

Lemma decides_iff m (P Q : Prop) : (P <-> Q) -> decides m P -> decides m Q.
Proof. intros HPQ (b & -> & Hb). exists b. by rewrite Hb, HPQ. Qed.

(** A test and then the rest: both must hold. *)
Lemma decides_and m (P : Prop) (f : option bool) (Q : Prop) :
  decides m P -> (P -> decides f Q) -> decides (r ← m; if negb r then Some false else f) (P /\ Q).
Proof.
  intros (b & -> & Hb) Hf. cbn [mbind option_bind]. destruct b; simpl.
  - assert P as HP by (by apply Hb). apply (decides_iff _ Q); [tauto|]. by apply Hf.
  - apply decides_false. intros [HP _]. by apply Hb in HP.
Qed.

Lemma all_true_decides {A} (f : A -> option bool) (P : A -> Prop) l :
  (forall x, x ∈ l -> decides (f x) (P x)) -> decides (all_true f l) (Forall P l).
Proof.
  induction l as [|x l IH]; intros Hf; simpl; [apply decides_true; constructor|].
  destruct (Hf x ltac:(left)) as (b & -> & Hb). cbn [mbind option_bind]. destruct b.
  - apply (decides_iff _ (Forall P l)); [|apply IH; intros y Hy; apply Hf; by right].
    rewrite Forall_cons. assert (P x) by (by apply Hb). tauto.
  - apply decides_false. intros [HP _]%Forall_cons. by apply Hb in HP.
Qed.

Lemma Forall_map_eq {A B} (f g : A -> B) l : Forall (fun x => f x = g x) l <-> map f l = map g l.
Proof.
  induction l as [|x l IH]; simpl; [by split|]. rewrite Forall_cons, IH. split; [intros [-> ->]; done|].
  by intros [= -> ->].
Qed.

Hypothesis Hredo : numRedoItems h = 0.

Lemma ClassIdentical_decides fuel c1 c2 : decides (ClassIdentical h depth fuel c1 c2) (resolved c1 = resolved c2).
Proof.
  assert (ClassIdentical h depth fuel c1 c2 = Some (resolved c1 =? resolved c2)) as ->; [|by apply decides_eqb].
  destruct fuel; simpl; rewrite !resolve_eq; cbn [mbind option_bind]; rewrite Hredo; by destruct (_ =? _).
Qed.

Lemma tree_node_complex rec s :
  s <> 0 -> ILType_IsComplex s = true ->
  tree_node rec s =
    let o := type_at h s in
    if ref_kind (o_kind o) then Ref_type (o_kind o) (rec (o_ref o))
    else if array_kind (o_kind o) then Array_type (o_kind o) (rec (o_elem o)) (o_size o) (o_low o)
    else if o_kind o =? IL_TYPE_COMPLEX_SENTINEL then Sentinel_type
    else if generic_var_kind (o_kind o) then Var_type (o_kind o) (o_varnum o)
    else if signature_kind (o_kind o) then
      Signature (o_kind o) (o_num o) (generic_count o) (rec (o_ret o))
        (map (fun arg => rec (ILTypeGetParamWithPrefixes h s arg)) (param_numbers (o_num o)))
    else Other_type s.
Proof.
  intros Hs Hc. unfold tree_node. apply Z.eqb_neq in Hs as ->. apply Z.eqb_eq in Hc.
  unfold ILType_IsPrimitive, ILType_IsClass, ILType_IsValueType. by rewrite Hc.
Qed.

(** The tree of a type that is not complex. *)
Lemma tree_node_simple rec s :
  ILType_IsComplex s = false ->
  tree_node rec s =
    if ILType_IsPrimitive s then Primitive s
    else if ILType_IsClass s then Class_type (resolved (ILType_ToClass s))
    else Value_type (resolved (ILType_ToValueType s)).
Proof.
  intros Hc. unfold tree_node. destruct (Z.eqb_spec s 0) as [->|_]; [done|].
  destruct (ILType_IsPrimitive s) eqn:E1, (ILType_IsClass s) eqn:E2, (ILType_IsValueType s) eqn:E3; try done.
  by rewrite tag_cases in Hc.
Qed.

Lemma generic_count_eq o1 o2 :
  o_kind o1 = o_kind o2 ->
  (generic_count o1 = generic_count o2 <->
   method_kind (o_kind o1) && negb (Z.land (Z.shiftr (o_kind o1) 8) IL_META_CALLCONV_GENERIC =? 0) &&
     negb (o_gparams o1 =? o_gparams o2) = false).
Proof.
  intros E. unfold generic_count. rewrite <-E. destruct (method_kind _ && _); simpl; [|done].
  rewrite negb_false_iff, Z.eqb_eq. split; [by intros [= ->]|by intros ->].
Qed.

(** The complex types: the recursive calls decide the trees of components. *)
Lemma complex_identical s1 s2 (rec : Z -> Z -> option bool) :
  s1 <> s2 -> complex_type s1 = true -> complex_type s2 = true ->
  prefix_kind (t_kind h s1) = false -> t_kind h s1 = t_kind h s2 ->
  (forall u v, (type_rank u < type_rank s1)%nat -> decides (rec u v) (type_tree_of u = type_tree_of v)) ->
  let o1 := type_at h s1 in
  let o2 := type_at h s2 in
  decides
    (if ref_kind (o_kind o1) then rec (o_ref o1) (o_ref o2)
     else if array_kind (o_kind o1) then
       r ← rec (o_elem o1) (o_elem o2);
       if negb r then Some false else Some ((o_size o1 =? o_size o2) && (o_low o1 =? o_low o2))
     else if o_kind o1 =? IL_TYPE_COMPLEX_SENTINEL then Some true
     else if generic_var_kind (o_kind o1) then Some (o_varnum o1 =? o_varnum o2)
     else if signature_kind (o_kind o1) then
       if negb (o_num o1 =? o_num o2) then Some false
       else if method_kind (o_kind o1) &&
               negb (Z.land (Z.shiftr (o_kind o1) 8) IL_META_CALLCONV_GENERIC =? 0) &&
               negb (o_gparams o1 =? o_gparams o2) then Some false
       else
         r ← rec (o_ret o1) (o_ret o2);
         if negb r then Some false
         else all_true (fun arg => rec (ILTypeGetParamWithPrefixes h s1 arg)
                (ILTypeGetParamWithPrefixes h s2 arg)) (param_numbers (o_num o1))
     else Some false)
    (tree_node type_tree_of s1 = tree_node type_tree_of s2).
Proof.
  intros Hne Hc1 Hc2 Hp Hk Hrec o1 o2.
  pose proof Hc1 as [Hz1%negb_true_iff%Z.eqb_neq Hx1]%andb_true_iff.
  pose proof Hc2 as [Hz2%negb_true_iff%Z.eqb_neq Hx2]%andb_true_iff.
  rewrite !tree_node_complex by done. cbv zeta. unfold t_kind in *. fold o1 o2 in Hp, Hk |- *. rewrite <-Hk.
  pose proof (node_component s1) as Hn. unfold t_kind in Hn. fold o1 in Hn.
  destruct (ref_kind (o_kind o1)) eqn:Er.
  { eapply decides_iff; [|apply Hrec, (Hn _ Hc1 Hp); done]. split; [by intros ->|by intros [= ->]]. }
  destruct (array_kind (o_kind o1)) eqn:Ea.
  { eapply decides_iff; [|apply decides_and with (Q := o_size o1 = o_size o2 /\ o_low o1 = o_low o2);
      [apply Hrec, (Hn _ Hc1 Hp); done|]].
    - split; [by intros (-> & -> & ->)|by intros [= -> -> ->]].
    - intros _. eexists. split; [done|]. by rewrite andb_true_iff, !Z.eqb_eq. }
  destruct (_ =? IL_TYPE_COMPLEX_SENTINEL); [by apply decides_true|].
  destruct (generic_var_kind _); [apply decides_eqb; split; [by intros ->|by intros [= ->]]|].
  destruct (signature_kind (o_kind o1)) eqn:Es; [|apply decides_false; congruence].
  destruct (Z.eqb_spec (o_num o1) (o_num o2)) as [En|En]; simpl negb; cbv iota; [|apply decides_false; congruence].
  destruct (_ && _ && _) eqn:Eg.
  { apply decides_false. intros [= _ Hg _ _]. apply (generic_count_eq _ _ Hk) in Hg. congruence. }
  apply (generic_count_eq _ _ Hk) in Eg. rewrite <-En, <-Eg.
  eapply decides_iff; [|apply decides_and; [apply Hrec, (Hn _ Hc1 Hp); auto|intros _]].
  2: { apply (all_true_decides _ (fun arg => type_tree_of (ILTypeGetParamWithPrefixes h s1 arg) =
         type_tree_of (ILTypeGetParamWithPrefixes h s2 arg))).
       intros arg Harg. apply Hrec, (Hn _ Hc1 Hp). split; [done|]. right. by exists arg. }
  rewrite Forall_map_eq. split; [by intros (-> & ->)|by intros [= -> ->]].
Qed.

(** The two low bits of a type are its tag, so it has one shape. *)
Lemma complex_flags s :
  ILType_IsComplex s = true ->
  ILType_IsPrimitive s = false /\ ILType_IsClass s = false /\ ILType_IsValueType s = false.
Proof.
  unfold ILType_IsComplex, ILType_IsPrimitive, ILType_IsClass, ILType_IsValueType. by intros ->%Z.eqb_eq.
Qed.

Lemma class_flags s : ILType_IsClass s = true -> ILType_IsPrimitive s = false /\ ILType_IsValueType s = false.
Proof. unfold ILType_IsPrimitive, ILType_IsClass, ILType_IsValueType. by intros ->%Z.eqb_eq. Qed.

Lemma value_flags s : ILType_IsValueType s = true -> ILType_IsPrimitive s = false /\ ILType_IsClass s = false.
Proof. unfold ILType_IsPrimitive, ILType_IsClass, ILType_IsValueType. by intros ->%Z.eqb_eq. Qed.

Lemma tree_node_null rec s : tree_node rec s = Null_type <-> s = 0.
Proof.
  split; [|by intros ->]. unfold tree_node. destruct (Z.eqb_spec s 0) as [->|_]; [done|].
  repeat match goal with |- context [if ?b then _ else _] => destruct b end; discriminate.
Qed.

(** A complex type and one that is not have different trees. *)
Lemma complex_simple_apart rec s1 s2 :
  s1 <> 0 -> ILType_IsComplex s1 = true -> ILType_IsComplex s2 = false -> tree_node rec s1 <> tree_node rec s2.
Proof.
  intros Hs C1 C2. rewrite tree_node_complex, tree_node_simple by done. cbv zeta. repeat case_match; discriminate.
Qed.

Lemma complex_kinds_apart rec s1 s2 :
  s1 <> s2 -> s1 <> 0 -> s2 <> 0 -> ILType_IsComplex s1 = true -> ILType_IsComplex s2 = true ->
  o_kind (type_at h s1) <> o_kind (type_at h s2) -> tree_node rec s1 <> tree_node rec s2.
Proof.
  intros Hne Hs1 Hs2 C1 C2 Ek. rewrite !tree_node_complex by done. cbv zeta.
  repeat match goal with |- context [if ?b then _ else _] => destruct b eqn:? end; try congruence.
  intros _. apply Ek. repeat match goal with H : (_ =? _) = true |- _ => apply Z.eqb_eq in H end. congruence.
Qed.

(** The types that are not complex: primitive values and classes. *)
Lemma simple_identical s1 s2 :
  s1 <> s2 -> s1 <> 0 -> s2 <> 0 -> ILType_IsComplex s1 = false -> ILType_IsComplex s2 = false ->
  decides
    (if ILType_IsPrimitive s1 then Some (s1 =? s2)
     else if ILType_IsClass s1 then
       if ILType_IsClass s2 then ClassIdentical h depth depth (ILType_ToClass s1) (ILType_ToClass s2) else Some false
     else if ILType_IsValueType s1 then
       if ILType_IsValueType s2 then ClassIdentical h depth depth (ILType_ToValueType s1) (ILType_ToValueType s2)
       else Some false
     else Some false)
    (tree_node type_tree_of s1 = tree_node type_tree_of s2).
Proof.
  intros Hne Hs1 Hs2 C1 C2. rewrite !tree_node_simple by done.
  destruct (ILType_IsPrimitive s1) eqn:P1.
  { rewrite (proj2 (Z.eqb_neq _ _) Hne). apply decides_false. repeat case_match; congruence. }
  destruct (ILType_IsClass s1) eqn:K1.
  { destruct (ILType_IsClass s2) eqn:K2; [|apply decides_false; by repeat case_match].
    destruct (class_flags _ K2) as [-> _].
    eapply decides_iff; [|apply ClassIdentical_decides]. split; [by intros ->|by intros [= ->]]. }
  destruct (ILType_IsValueType s1) eqn:V1; [|by rewrite tag_cases in C1].
  destruct (ILType_IsValueType s2) eqn:V2.
  - destruct (value_flags _ V2) as [-> ->].
    eapply decides_iff; [|apply ClassIdentical_decides]. split; [by intros ->|by intros [= ->]].
  - apply decides_false. destruct (ILType_IsPrimitive s2) eqn:P2; [done|].
    destruct (ILType_IsClass s2) eqn:K2; [done|]. by rewrite tag_cases in C2.
Qed.

Lemma ILTypeIdentical_decides fuel t1 t2 :
  (type_rank t1 < fuel)%nat -> decides (ILTypeIdentical h depth fuel t1 t2) (type_tree_of t1 = type_tree_of t2).
Proof.
  revert t1 t2. induction fuel as [|fuel IH]; intros t1 t2 Hr; [lia|]. cbn -[Z.eqb Z.land Z.shiftr].
  destruct (Z.eqb_spec t1 t2) as [->|_]; [by apply decides_true|].
  rewrite !strip_eq. cbn [mbind option_bind]. rewrite (type_tree_eq t1), (type_tree_eq t2).
  pose proof (stripped_no_prefix t1) as Hp. pose proof (stripped_rank t1) as Hsr.
  set (s1 := stripped t1) in *. set (s2 := stripped t2) in *.
  destruct (decide (s1 = s2)) as [->|Hne]; [rewrite Z.eqb_refl; by apply decides_true|].
  rewrite (proj2 (Z.eqb_neq _ _) Hne).
  destruct (Z.eqb_spec s1 0) as [E1|Hs1].
  { apply decides_false. intros E. apply Hne. rewrite E1 in E. symmetry in E.
    rewrite E1. symmetry. by apply tree_node_null in E. }
  destruct (Z.eqb_spec s2 0) as [E2|Hs2].
  { apply decides_false. intros E. rewrite E2 in E. by apply tree_node_null in E. }
  cbn [orb]. pose proof (simple_identical s1 s2 Hne Hs1 Hs2) as Hsimple.
  rewrite (proj2 (Z.eqb_neq _ _) Hne) in Hsimple.
  destruct (ILType_IsComplex s1) eqn:C1, (ILType_IsComplex s2) eqn:C2; cbn [negb orb].
  - destruct (complex_flags _ C1) as (-> & -> & ->).
    assert (complex_type s1 = true) as Hc1 by (unfold complex_type; by rewrite C1, (proj2 (Z.eqb_neq _ _) Hs1)).
    assert (complex_type s2 = true) as Hc2 by (unfold complex_type; by rewrite C2, (proj2 (Z.eqb_neq _ _) Hs2)).
    rewrite Hc1 in Hp. simpl in Hp.
    destruct (Z.eqb_spec (o_kind (type_at h s1)) (o_kind (type_at h s2))) as [Ek|Ek]; cbn [negb].
    + apply complex_identical; try done. intros u v Hu. apply IH. lia.
    + by apply decides_false, complex_kinds_apart.
  - destruct (complex_flags _ C1) as (-> & -> & ->). by apply decides_false, complex_simple_apart.
  - destruct (complex_flags _ C2) as (_ & -> & ->).
    assert (tree_node type_tree_of s1 <> tree_node type_tree_of s2) by (by apply not_eq_sym, complex_simple_apart).
    repeat case_match; by apply decides_false.
  - by apply Hsimple.
Qed.

(** ** Assignability of object types *)

Definition system_object (c : Z) : bool :=
  in_system h c "Object" && match systemImage h with None => true | Some image => image =? c_image (class_at h c) end.

(** The hierarchy as the class library lays it out: one class is the root, the
    root implements nothing, an interface has no parent and every other class
    inherits from the root. *)
Record rooted (object : Z) : Prop := {
  ro_object c : c_linked (class_at h c) = None -> system_object c = true <-> c = object;
  ro_class : ILClass_IsInterface h object = false;
  ro_implements : c_implements (class_at h object) = [];
  ro_parent : c_parent (class_at h object) = None;
  ro_interface c : ILClass_IsInterface h c = true -> c_parent (class_at h c) = None;
  ro_inherits c : c_linked (class_at h c) = None -> ILClass_IsInterface h c = false -> rtc parent_edge c object;
}.

(** What may be assigned, between resolved classes. *)
Definition class_compatible (object src dest : Z) : Prop :=
  rtc parent_edge src dest \/
  if ILClass_IsInterface h dest then implements src dest
  else ILClass_IsInterface h src = true /\ dest = object.

Section Rooted.
Context {object : Z}.
Hypothesis Hroot : rooted object.

Lemma no_parent_stays c d : c_parent (class_at h c) = None -> rtc parent_edge c d -> c = d.
Proof. intros Hp [?|(q & (p & E & _) & _)]%rtc_inv; [done|]. congruence. Qed.

Lemma parent_edge_fun c p q : parent_edge c p -> parent_edge c q -> p = q.
Proof. intros (x & Hx & <-) (y & Hy & <-). congruence. Qed.

(** The parents of a class are on one line. *)
Lemma parents_linear c d e : rtc parent_edge c d -> rtc parent_edge c e -> rtc parent_edge d e \/ rtc parent_edge e d.
Proof.
  induction 1 as [c|c p d Hp Hd IH]; intros He; [by left|].
  pose proof He as He'. apply rtc_inv in He' as [<-|(q & Hq & He')].
  - right. by eapply rtc_l.
  - apply IH. by rewrite (parent_edge_fun _ _ _ Hp Hq).
Qed.

(** A class has no interface among its parents. *)
Lemma interface_parent c i :
  c_linked (class_at h c) = None -> rtc parent_edge c i -> ILClass_IsInterface h i = true -> c = i.
Proof.
  intros Hc Hr Hi. destruct (ILClass_IsInterface h c) eqn:Ec.
  { by eapply no_parent_stays; [apply (ro_interface _ Hroot)|]. }
  pose proof (ro_class _ Hroot). pose proof (ro_inherits _ Hroot c Hc Ec) as Ho.
  destruct (parents_linear _ _ _ Hr Ho) as [H1|H1]; apply no_parent_stays in H1; try congruence.
  - by apply (ro_interface _ Hroot).
  - apply (ro_parent _ Hroot).
Qed.

Lemma parent_implements c d i : rtc parent_edge c d -> implements d i -> implements c i.
Proof.
  intros Hcd (x & Hx & Hi). exists x. split; [|done]. transitivity d; [|done].
  revert Hcd. apply rtc_subrel. intros u v. by left.
Qed.

Lemma implements_trans c d e : implements c d -> implements d e -> implements c e.
Proof.
  intros (x & Hx & Hd) (y & Hy & He). exists y. split; [|done]. transitivity d; [|done].
  eapply rtc_r; [exact Hx|by right].
Qed.

Lemma class_compatible_trans a b c :
  c_linked (class_at h a) = None -> c_linked (class_at h b) = None ->
  class_compatible object a b -> class_compatible object b c -> class_compatible object a c.
Proof.
  intros Ha Hb Hab Hbc. unfold class_compatible in *.
  pose proof (ro_class _ Hroot) as Ho. pose proof (ro_parent _ Hroot) as Hp.
  destruct (ILClass_IsInterface h b) eqn:Eb.
  - assert (a = b \/ implements a b) as Hab' by (destruct Hab as [H|H]; [left; by eapply interface_parent|by right]).
    destruct Hbc as [Hbc|Hbc].
    { apply no_parent_stays in Hbc as ->; [|by apply (ro_interface _ Hroot)]. by rewrite Eb. }
    destruct (ILClass_IsInterface h c) eqn:Ec.
    + right. destruct Hab' as [->|?]; [done|by eapply implements_trans].
    + destruct Hbc as [_ ->]. destruct (ILClass_IsInterface h a) eqn:Ea; [by right|].
      left. by apply (ro_inherits _ Hroot).
  - destruct Hab as [Hab|[Hia ->]].
    + destruct Hbc as [Hbc|Hbc]; [left; by etransitivity|].
      destruct (ILClass_IsInterface h c) eqn:Ec; [right; by eapply parent_implements|].
      destruct Hbc; congruence.
    + destruct Hbc as [->%no_parent_stays|Hbc]; [rewrite Ho in *; by right|done|].
      destruct (ILClass_IsInterface h c) eqn:Ec; [|destruct Hbc; congruence].
      exfalso. destruct Hbc as (x & Hx & Hi). apply rtc_inv in Hx as [<-|(y & [(q & E & _)|(q & Hq & _)] & _)].
      * destruct Hi as (q & Hq & _). rewrite (ro_implements _ Hroot) in Hq. by apply elem_of_nil in Hq.
      * congruence.
      * rewrite (ro_implements _ Hroot) in Hq. by apply elem_of_nil in Hq.
Qed.

End Rooted.

(** *** On types *)

Lemma class_type_simple t :
  ILType_IsClass t = true ->
  t <> 0 /\ t <> ILType_Null /\ ILType_IsPrimitive t = false /\ ILType_IsValueType t = false /\ ILType_IsComplex t = false.
Proof.
  intros H. destruct (class_flags _ H) as [Hp Hv]. split; [by intros ->|]. split; [by intros ->|].
  split; [done|]. split; [done|]. destruct (ILType_IsComplex t) eqn:E; [|done].
  destruct (complex_flags _ E) as (_ & ? & _). congruence.
Qed.

Lemma class_type_stays t : ILType_IsClass t = true ->
  ILTypeStripPrefixes h depth t = Some t /\ ILTypeGetEnumType h depth t = Some t.
Proof.
  intros (_ & _ & _ & Hv & Hc)%class_type_simple. unfold ILTypeGetEnumType, complex_type.
  rewrite Hv, Hc, andb_false_r. split; [|done]. destruct depth; simpl; unfold complex_type; by rewrite Hc, andb_false_r.
Qed.

Lemma object_class_eq t : ILType_IsClass t = true ->
  ILTypeIsObjectClass h depth t = Some (system_object (resolved (ILType_ToClass t))).
Proof. intros H. unfold ILTypeIsObjectClass. by rewrite H, resolve_eq. Qed.

Lemma class_assignable_spec object src dest :
  rooted object -> ILType_IsClass src = true -> ILType_IsClass dest = true ->
  exists b, class_assignable h depth src dest = Some b /\
    (b = true <-> class_compatible object (resolved (ILType_ToClass src)) (resolved (ILType_ToClass dest))).
Proof.
  intros Hroot Hs Hd. destruct (class_type_simple _ Hs) as (Hs0 & _ & Hsp & Hsv & _).
  destruct (class_type_simple _ Hd) as (Hd0 & _ & Hdp & Hdv & _).
  unfold class_assignable, ILClassFromType, GetClassResolved. rewrite Hs, Hd, Hsp, Hdp, Hsv, Hdv, !resolve_eq.
  cbn [mbind option_bind]. unfold class_compatible. set (cs := resolved (ILType_ToClass src)).
  set (cd := resolved (ILType_ToClass dest)).
  destruct (ILClassInheritsFrom_spec cs cd) as (r & Er & Hr). destruct (ILClassImplements_spec cs cd) as (i & Ei & Hi).
  unfold cs, cd in Hr, Hi. rewrite !resolved_idem in Hr, Hi. fold cs cd in Hr, Hi.
  rewrite Er, Ei. cbn [mbind option_bind]. destruct (ILClass_IsInterface h cd) eqn:E; cbn [negb].
  - destruct i; [exists true|exists r]; (split; [done|]).
    + split; [|done]. intros _. destruct (proj1 Hi eq_refl) as [->|?]; [left; apply rtc_refl|by right].
    + rewrite Hr. split; [tauto|]. intros [?|H]; [done|]. assert (false = true) by (apply Hi; by right). done.
  - destruct r; [exists true; split; [done|]; split; [|done]; intros _; left; by apply Hr|].
    destruct (ILClass_IsInterface h cs) eqn:Es.
    + rewrite object_class_eq by done. exists (system_object cd). split; [done|].
      rewrite (ro_object _ Hroot) by apply resolved_unlinked. split; [by right|]. intros [H|[_ H]]; [|done].
      apply Hr in H. done.
    + exists false. split; [done|]. split; [done|]. intros [H|[? _]]; [by apply Hr in H|done].
Qed.

(** Between class types, boxing or not, assignability is that of classes. *)
Lemma TypeAssignCompatible_class object src dest box :
  rooted object -> ILType_IsClass src = true -> ILType_IsClass dest = true ->
  exists b, TypeAssignCompatible h depth src dest box = Some b /\
    (b = true <-> class_compatible object (resolved (ILType_ToClass src)) (resolved (ILType_ToClass dest))).
Proof.
  intros Hroot Hs Hd. destruct (class_type_simple _ Hs) as (Hs0 & Hsn & Hsp & _).
  destruct (class_type_simple _ Hd) as (Hd0 & Hdn & _).
  destruct (class_type_stays _ Hs) as [Es1 Es2]. destruct (class_type_stays _ Hd) as [Ed1 Ed2].
  unfold TypeAssignCompatible, ILTypeIsReference. rewrite Es1, Ed1. cbn [mbind option_bind]. rewrite Es2, Ed2.
  cbn [mbind option_bind]. apply Z.eqb_neq in Hs0, Hsn, Hd0, Hdn. rewrite Hsp, Hs0, Hsn, Hd0, Hdn, Hs, Hd.
  cbn [andb orb negb]. by apply class_assignable_spec.
Qed.

End Props.

(** ** The theorems on identity, inheritance and assignability *)

(** C17: Identity of types is equality of what they stand for.  Where pointers
    have no cycles and no class is still being loaded, [ILTypeIdentical] ends,
    and it answers true exactly when both types, without prefixes and with
    references to classes resolved, are the same tree: so it is an equivalence
    relation. *)
Theorem ILTypeIdentical_correct h depth link_rank class_rank type_rank t1 t2 :
  acyclic h depth link_rank class_rank type_rank -> numRedoItems h = 0 ->
  exists b, ILTypeIdentical h depth depth t1 t2 = Some b /\
    (b = true <-> type_tree_of h depth t1 = type_tree_of h depth t2).
Proof. intros Hac Hredo. apply (ILTypeIdentical_decides h depth Hac Hredo), (ac_type_depth _ _ _ _ _ Hac). Qed.

(** C18: The walk along parent classes decides inheritance: it ends, and it
    answers true exactly when the resolved ancestor is reached from the
    resolved class by parents. *)
Theorem ILClassInheritsFrom_correct h depth link_rank class_rank type_rank c a :
  acyclic h depth link_rank class_rank type_rank ->
  exists b, ILClassInheritsFrom h depth c (Some a) = Some b /\
    (b = true <-> rtc (parent_edge h depth) (resolved h depth c) (resolved h depth a)).
Proof. intros Hac. apply (ILClassInheritsFrom_spec h depth Hac). Qed.

(** C19: The search through parents and interfaces decides implementation: it
    ends, and it answers true exactly when both classes resolve to one, or the
    interface is listed by some class that parents and interfaces reach. *)
Theorem ILClassImplements_correct h depth link_rank class_rank type_rank c i :
  acyclic h depth link_rank class_rank type_rank ->
  exists b, ILClassImplements h depth c i = Some b /\
    (b = true <-> resolved h depth c = resolved h depth i \/
       exists x, rtc (class_edge h depth) (resolved h depth c) x /\ interface_edge h depth x (resolved h depth i)).
Proof. intros Hac. apply (ILClassImplements_spec h depth Hac). Qed.

(** C20: Assignability of class types is a preorder. In a heap without cycles
    whose classes all descend from one System.Object, for the types that are
    classes or interfaces (not arrays or other constructed types): every such
    type may be assigned to itself, and what may be assigned to something that
    may be assigned to a third may be assigned to the third, through classes
    and interfaces alike. *)
Theorem class_types_preorder h depth link_rank class_rank type_rank object box t1 t2 t3 :
  acyclic h depth link_rank class_rank type_rank -> rooted h depth object ->
  ILType_IsClass t1 = true -> ILType_IsClass t2 = true -> ILType_IsClass t3 = true ->
  TypeAssignCompatible h depth t1 t1 box = Some true /\
  (TypeAssignCompatible h depth t1 t2 box = Some true -> TypeAssignCompatible h depth t2 t3 box = Some true ->
   TypeAssignCompatible h depth t1 t3 box = Some true).
Proof.
  intros Hac Hroot H1 H2 H3.
  destruct (TypeAssignCompatible_class h depth Hac object t1 t1 box Hroot H1 H1) as (b1 & -> & E1).
  destruct (TypeAssignCompatible_class h depth Hac object t1 t2 box Hroot H1 H2) as (b2 & -> & E2).
  destruct (TypeAssignCompatible_class h depth Hac object t2 t3 box Hroot H2 H3) as (b3 & -> & E3).
  destruct (TypeAssignCompatible_class h depth Hac object t1 t3 box Hroot H1 H3) as (b4 & -> & E4).
  split.
  - f_equal. apply E1. left. apply rtc_refl.
  - intros [= Hb2%E2] [= Hb3%E3]. f_equal. apply E4. eapply class_compatible_trans; [exact Hroot|..]; try eassumption;
      apply (resolved_unlinked h depth Hac).
Qed.

(** ** A small image

    Object, an interface, a class that implements it, a class that inherits
    from that one through a reference, and two array types with the class and
    the reference as elements. *)
Definition some_class (linked : option Z) (attributes : Z) (name : string) (parent : option Z) (implements : list Z) :=
  mk_class_object linked attributes name (Some "System"%string) None 1 parent None implements 0 None.

Definition small_class (c : Z) : ILClass_object :=
  if c =? 0x10 then some_class None 1 "Object" None []
  else if c =? 0x20 then some_class None 0x21 "I" None []
  else if c =? 0x30 then some_class None 1 "A" (Some 0x10) [0x20]
  else if c =? 0x40 then some_class None 1 "B" (Some 0x50) []
  else if c =? 0x50 then some_class (Some 0x30) 0x80000000 "A" None []
  else if c =? 0x60 then some_class None 0x101 "Int32" (Some 0x10) []
  else some_class None 1 "C" (Some 0x10) [].

Definition small_type (t : Z) : ILType_object :=
  if t =? 0x100 then mk_type_object IL_TYPE_COMPLEX_ARRAY 0 0 (0x30 + 2) 0 0 0 [] 0 0 0 0
  else if t =? 0x110 then mk_type_object IL_TYPE_COMPLEX_ARRAY 0 0 (0x50 + 2) 0 0 0 [] 0 0 0 0
  else mk_type_object 0 0 0 0 0 0 0 [] 0 0 0 0.

Definition small_heap : Heap :=
  mk_heap small_type small_class 0 (Some 1) (fun name => if String.eqb name "Int32" then Some 0x60 else None) (fun _ => None) (fun _ => None).

Definition small_link_rank (c : Z) : nat := if c =? 0x50 then 1 else 0.
Definition small_class_rank (c : Z) : nat :=
  if (c =? 0x10) || (c =? 0x20) || (c =? 0x50) then 0 else if c =? 0x40 then 2 else 1.
Definition small_type_rank (t : Z) : nat := if (t =? 0x100) || (t =? 0x110) then 1 else 0.

(** The classes of the image one by one. *)
Ltac small_cases c :=
  repeat match goal with |- context [c =? ?n] => destruct (Z.eqb_spec c n) as [->|] end.

Lemma small_edge c d : class_edge small_heap 3 c d ->
  d = 0x10 /\ c <> 0x10 /\ c <> 0x20 /\ c <> 0x50 \/ d = 0x20 /\ c = 0x30 \/ d = 0x30 /\ c = 0x40.
Proof.
  unfold class_edge, parent_edge, interface_edge. cbn. unfold small_class.
  small_cases c; cbn; intros [(q & E & <-)|(q & E & <-)]; try discriminate E; try (by apply elem_of_nil in E).
  all: first [injection E as <- | apply list_elem_of_singleton in E as ->].
  all: vm_compute resolved; intuition congruence.
Qed.

Lemma small_acyclic : acyclic small_heap 3 small_link_rank small_class_rank small_type_rank.
Proof.
  split.
  - intros c c'. cbn. unfold small_class. repeat case_match; cbn; intros [= <-].
    unfold small_link_rank. replace c with 0x50 by lia. cbn. lia.
  - intros c. unfold small_link_rank. case_match; lia.
  - intros c d [(-> & H1 & H2 & H3)|[[-> ->]|[-> ->]]]%small_edge; [|cbn; lia..].
    unfold small_class_rank. apply Z.eqb_neq in H1, H2, H3. rewrite H1, H2, H3. cbn. case_match; lia.
  - intros c. unfold small_class_rank. repeat case_match; lia.
  - intros t u. unfold component. cbn. unfold small_type.
    destruct (Z.eqb_spec t 0x100) as [->|H1]; [vm_compute; intros [_ ->]; lia|].
    destruct (Z.eqb_spec t 0x110) as [->|H2]; [vm_compute; intros [_ ->]; lia|]. cbn. by intros (_ & ? & _).
  - intros t. unfold small_type_rank. case_match; lia.
Qed.

Lemma small_parent c : c <> 0x10 -> c <> 0x20 -> c <> 0x50 -> rtc (parent_edge small_heap 3) c 0x10.
Proof.
  intros H1 H2 H3. assert (rtc (parent_edge small_heap 3) 0x30 0x10) as HA.
  { apply rtc_once. by exists 0x10. }
  destruct (Z.eq_dec c 0x30) as [->|H4]; [done|]. destruct (Z.eq_dec c 0x40) as [->|H5].
  { eapply rtc_l; [|exact HA]. by exists 0x50. }
  apply rtc_once. exists 0x10. split; [|done]. cbn. unfold small_class.
  apply Z.eqb_neq in H1, H2, H3, H4, H5. rewrite H1, H2, H3, H4, H5. by case_match.
Qed.

Lemma small_rooted : rooted small_heap 3 0x10.
Proof.
  split; [|done..| |].
  - intros c _. unfold system_object, in_system. cbn. unfold small_class.
    by small_cases c; vm_compute.
  - intros c. unfold ILClass_IsInterface. cbn. unfold small_class.
    by small_cases c; vm_compute.
  - intros c H Hi. destruct (Z.eq_dec c 0x10) as [->|]; [apply rtc_refl|].
    apply small_parent; [done|intros ->; vm_compute in Hi; discriminate|intros ->; vm_compute in H; discriminate].
Qed.

Lemma ILTypeIdentical_correct_witness :
  exists b, ILTypeIdentical small_heap 3 3 0x100 0x110 = Some b /\
    (b = true <-> type_tree_of small_heap 3 0x100 = type_tree_of small_heap 3 0x110).
Proof. exact (ILTypeIdentical_correct small_heap 3 _ _ _ 0x100 0x110 small_acyclic eq_refl). Defined.

Lemma ILClassInheritsFrom_correct_witness :
  exists b, ILClassInheritsFrom small_heap 3 0x40 (Some 0x10) = Some b /\
    (b = true <-> rtc (parent_edge small_heap 3) 0x40 0x10).
Proof. exact (ILClassInheritsFrom_correct small_heap 3 _ _ _ 0x40 0x10 small_acyclic). Defined.

Lemma ILClassImplements_correct_witness :
  exists b, ILClassImplements small_heap 3 0x40 0x20 = Some b /\
    (b = true <-> (0x40 = 0x20 \/
       exists x, rtc (class_edge small_heap 3) 0x40 x /\ interface_edge small_heap 3 x 0x20)).
Proof. exact (ILClassImplements_correct small_heap 3 _ _ _ 0x40 0x20 small_acyclic). Defined.

Lemma class_types_preorder_witness :
  TypeAssignCompatible small_heap 3 (0x40 + 2) (0x40 + 2) false = Some true /\
  TypeAssignCompatible small_heap 3 (0x40 + 2) (0x10 + 2) false = Some true.
Proof.
  destruct (class_types_preorder small_heap 3 _ _ _ 0x10 false (0x40 + 2) (0x20 + 2) (0x10 + 2) small_acyclic
    small_rooted eq_refl eq_refl eq_refl) as [H1 H2].
  split; [exact H1|apply H2; vm_compute; reflexivity].
Defined.

(** Two array types with different pointers are the same type. *)
Example arrays_identical : ILTypeIdentical small_heap 3 3 0x100 0x110 = Some true.
Proof. vm_compute. reflexivity. Qed.
