(* ===== verification/Signature.v ===== *)
(** * Signatures of the metadata (image/sig_parse.c, image/sig_writer.c)

    Types are made from the bytes of a signature, and written as such.  The
    parser allocates type objects (the functions of image/meta_types.c that
    create types) and threads the read block of Compress.v; a type is zero
    ([ILType_Invalid]) when the signature is not valid.  [None] is a read
    behind the memory of the read block, or fuel that has run out; neither
    happens (SignatureTotal.v).  Memory is never exhausted. *)
From Stdlib Require Import ZArith Lia String.
From stdpp Require Import base list option numbers.
From S2P Require Import Prelude Compress Opcodes Cvm JumpMask Scan Coder Types Metadata.

Local Open Scope Z_scope.

Definition IL_META_ELEMTYPE_PTR : Z := 0x0F.
Definition IL_META_ELEMTYPE_BYREF : Z := 0x10.
Definition IL_META_ELEMTYPE_VALUETYPE : Z := 0x11.
Definition IL_META_ELEMTYPE_CLASS : Z := 0x12.
Definition IL_META_ELEMTYPE_VAR : Z := 0x13.
Definition IL_META_ELEMTYPE_ARRAY : Z := 0x14.
Definition IL_META_ELEMTYPE_WITH : Z := 0x15.
Definition IL_META_ELEMTYPE_FNPTR : Z := 0x1B.
Definition IL_META_ELEMTYPE_SZARRAY : Z := 0x1D.
Definition IL_META_ELEMTYPE_MVAR : Z := 0x1E.
Definition IL_META_ELEMTYPE_CMOD_REQD : Z := 0x1F.
Definition IL_META_ELEMTYPE_CMOD_OPT : Z := 0x20.
Definition IL_META_ELEMTYPE_SENTINEL : Z := 0x41.
Definition IL_META_ELEMTYPE_PINNED : Z := 0x45.
Definition IL_META_CALLCONV_MASK : Z := 0x0F.
Definition IL_META_CALLCONV_DEFAULT : Z := 0x00.
Definition IL_META_CALLCONV_C : Z := 0x01.
Definition IL_META_CALLCONV_STDCALL : Z := 0x02.
Definition IL_META_CALLCONV_THISCALL : Z := 0x03.
Definition IL_META_CALLCONV_FASTCALL : Z := 0x04.
Definition IL_META_CALLCONV_VARARG : Z := 0x05.
Definition IL_META_CALLCONV_FIELD : Z := 0x06.
Definition IL_META_CALLCONV_LOCAL_SIG : Z := 0x07.
Definition IL_META_CALLCONV_PROPERTY : Z := 0x08.
Definition IL_META_CALLCONV_UNMGD : Z := 0x09.
Definition IL_META_CALLCONV_INSTANTIATION : Z := 0x0A.
Definition IL_TYPE_COMPLEX_LOCALS : Z := 11.

(** ** What the image knows of tokens

    The items of the token tables, after loading on demand; the class that
    [LoadForwardTypeDef] makes for a token, if it can; and for writing, the
    class of this image that [ILClassImport] finds or makes for a class, and
    the tokens of classes. *)
Class ImageTokens := {
  token_count : Z -> Z;
  token_item : Z -> option Z;
  forward_item : Z -> option Z;
  import_of : Z -> Z;
  ILClass_Token : Z -> Z;
}.

Definition ILImageTokenInfo {IT : ImageTokens} (token : Z) : option Z :=
  if token <? 0x40000000 then
    let tokenId := Z.land token 0x00FFFFFF in
    if (1 <=? tokenId) && (tokenId <=? token_count (Z.shiftr token 24)) then token_item token else None
  else None.

(** ** State *)

(** The types so far, the address of the next type object, and the reader. *)
Record SigState := mk_sig { sig_heap : Heap; sig_next : Z; sig_reader : ILMetaDataRead }.

Definition parse (A : Type) : Type := SigState -> option (A * SigState).
#[export] Instance parse_ret : MRet parse := fun _ a st => Some (a, st).
#[export] Instance parse_bind : MBind parse := fun _ _ f m st =>
  match m st with Some (a, st') => f a st' | None => None end.

Definition get_sig : parse SigState := fun st => Some (st, st).
Definition no_result {A} : parse A := fun _ => None.

(** A read of the block. *)
Definition uncompress (f : ILMetaDataRead -> option (Z * ILMetaDataRead)) : parse Z := fun st =>
  '(v, m) ← f (sig_reader st); Some (v, mk_sig (sig_heap st) (sig_next st) m).

(** [reader->len >= 1 && reader->data[0] == byte]. *)
Definition next_is (byte : Z) : parse bool := fun st =>
  let m := sig_reader st in
  if 1 <=? len m then match data m with b :: _ => Some (b =? byte, st) | [] => None end else Some (false, st).
(** [++(reader->data); --(reader->len);]. *)
Definition skip_byte : parse unit := fun st =>
  '(_, m) ← next_byte (sig_reader st); Some (tt, mk_sig (sig_heap st) (sig_next st) m).

(** A byte as it is, with an error where there is none. *)
Definition raw_byte : parse (option Z) := fun st =>
  let m := sig_reader st in
  if negb (error m) && (0 <? len m) then
    '(b, m) ← next_byte m; Some (Some b, mk_sig (sig_heap st) (sig_next st) m)
  else Some (None, mk_sig (sig_heap st) (sig_next st) (set_error m)).

Definition store_type (h : Heap) (a : Z) (o : ILType_object) : Heap :=
  mk_heap (fun t => if t =? a then o else type_at h t) (class_at h) (numRedoItems h) (systemImage h)
    (system_class h) (synthetic_class h) (instance_class h).

Definition change (a : Z) (f : ILType_object -> ILType_object) : parse unit := fun st =>
  let h := sig_heap st in
  Some (tt, mk_sig (store_type h a (f (type_at h a))) (sig_next st) (sig_reader st)).

Section Signature.
Context {PF : Platform} {IT : ImageTokens}.
Variable depth : nat.

(** *** Creation of types (image/meta_types.c) *)

(** [sizeof(ILType)]. *)
Definition sizeof_ILType : Z := if IL_NATIVE_INT64 then 48 else 28.

(** [ILMemPoolCalloc] and the members that are stored. *)
Definition alloc (o : ILType_object) : parse Z := fun st =>
  Some (sig_next st, mk_sig (store_type (sig_heap st) (sig_next st) o) (sig_next st + sizeof_ILType) (sig_reader st)).

Definition ref_object (kind refType : Z) : ILType_object := mk_type_object kind 0 refType 0 0 0 0 [] 0 0 0 0.
Definition array_object (kind elem size low : Z) : ILType_object := mk_type_object kind 0 0 elem size low 0 [] 0 0 0 0.
Definition modifier_object (kind info type : Z) : ILType_object := mk_type_object kind 0 0 0 0 0 0 [] 0 type 0 info.
Definition method_object (kind num ret : Z) (params : list Z) (gparams : Z) : ILType_object :=
  mk_type_object kind num 0 0 0 0 ret params gparams 0 0 0.
Definition var_object (kind num : Z) : ILType_object := mk_type_object kind 0 0 0 0 0 0 [] 0 0 num 0.

Definition ILTypeCreateRef (kind refType : Z) : parse Z := alloc (ref_object kind refType).

Fixpoint more_dimensions (rank : nat) (elem : Z) : parse Z :=
  match rank with
  | O => mret elem
  | S rank => type ← alloc (array_object IL_TYPE_COMPLEX_ARRAY_CONTINUE elem 0 0); more_dimensions rank type
  end.

Definition ILTypeCreateArray (rank elem : Z) : parse Z :=
  type ← alloc (array_object IL_TYPE_COMPLEX_ARRAY elem 0 0); more_dimensions (Z.to_nat (rank - 1)) type.

(** The dimension of an array. *)
Fixpoint dimension_of (h : Heap) (dimension : nat) (array : Z) : Z :=
  match dimension with O => array | S dimension => dimension_of h dimension (o_elem (type_at h array)) end.

Definition set_size (value : Z) (o : ILType_object) : ILType_object :=
  array_object (o_kind o) (o_elem o) value (o_low o).
Definition set_low_bound (value : Z) (o : ILType_object) : ILType_object :=
  array_object (o_kind o) (o_elem o) (o_size o) value.

Definition ILTypeSetSize (array : Z) (dimension : nat) (value : Z) : parse unit :=
  st ← get_sig; change (dimension_of (sig_heap st) dimension array) (set_size value).
Definition ILTypeSetLowBound (array : Z) (dimension : nat) (value : Z) : parse unit :=
  st ← get_sig; change (dimension_of (sig_heap st) dimension array) (set_low_bound value).

(** The end of a list of [count] modifiers. *)
Fixpoint last_modifier (h : Heap) (count : nat) (list : Z) : option Z :=
  let type := o_mod_type (type_at h list) in
  if type =? 0 then Some list else match count with O => None | S count => last_modifier h count type end.

Definition set_modified (type : Z) (o : ILType_object) : ILType_object := modifier_object (o_kind o) (o_info o) type.

Definition link_modifier (count : nat) (list type : Z) : parse Z :=
  st ← get_sig;
  match last_modifier (sig_heap st) count list with
  | Some temp => change temp (set_modified type);; mret list
  | None => no_result
  end.

Definition ILTypeCreateModifier (count : nat) (list kind info : Z) : parse Z :=
  type ← alloc (modifier_object kind info 0);
  if list =? 0 then mret type else link_modifier count list type.
Definition ILTypeAddModifiers (count : nat) (modifiers type : Z) : parse Z := link_modifier count modifiers type.

(** Value types of primitive types. *)
Definition to_primitive (h : Heap) (type : Z) : Z :=
  if ILType_IsValueType type then
    let tempType := ILClassToPrimitiveType h (ILType_ToValueType type) in
    if negb (tempType =? 0) then tempType else type
  else type.

Definition ILTypeCreateMethod (returnType : Z) : parse Z :=
  st ← get_sig; alloc (method_object IL_TYPE_COMPLEX_METHOD 0 (to_primitive (sig_heap st) returnType) [] 0).
Definition ILTypeCreateProperty (propType : Z) : parse Z :=
  st ← get_sig; alloc (method_object IL_TYPE_COMPLEX_PROPERTY 0 (to_primitive (sig_heap st) propType) [] 0).
Definition ILTypeCreateWith (mainType : Z) : parse Z := alloc (method_object IL_TYPE_COMPLEX_WITH 0 mainType [] 0).
Definition ILTypeCreateLocalList : parse Z := alloc (method_object IL_TYPE_COMPLEX_LOCALS 0 0 [] 0).
Definition ILTypeCreateVarNum (kind num : Z) : parse Z := alloc (var_object kind num).

(** The parameters of the method and of its overflow blocks are one list; so
    are the local variables of a list and of its blocks. *)
Definition add_param (type : Z) (o : ILType_object) : ILType_object :=
  method_object (o_kind o) (u16 (o_num o + 1)) (o_ret o) (o_params o ++ [type]) (o_gparams o).
Definition ILTypeAddParam (method paramType : Z) : parse unit :=
  st ← get_sig; change method (add_param (to_primitive (sig_heap st) paramType)).
Definition ILTypeAddWithParam (type paramType : Z) : parse unit := ILTypeAddParam type paramType.
Definition ILTypeAddLocal (locals type : Z) : parse unit :=
  st ← get_sig; change locals (add_param (to_primitive (sig_heap st) type)).

Definition set_kind (kind : Z) (o : ILType_object) : ILType_object :=
  method_object kind (o_num o) (o_ret o) (o_params o) (o_gparams o).
Definition set_gparams (num : Z) (o : ILType_object) : ILType_object :=
  method_object (o_kind o) (o_num o) (o_ret o) (o_params o) num.

Definition ILTypeAddSentinel (method : Z) : parse unit :=
  paramType ← alloc (var_object IL_TYPE_COMPLEX_SENTINEL 0);
  change method (fun o => set_kind (Z.lor (o_kind o) IL_TYPE_COMPLEX_METHOD_SENTINEL) o);;
  ILTypeAddParam method paramType.
Definition ILTypeSetCallConv (type callConv : Z) : parse unit :=
  change type (fun o => set_kind (i16 (Z.lor (Z.land (o_kind o) 0xFF) (u32 (Z.shiftl callConv 8)))) o).

(** *** The parser (image/sig_parse.c) *)

Definition IL_TYPE_RECURSION_DEPTH : nat := 20.

Definition CATEGORY_CMOD : Z := 1.
Definition CATEGORY_VOID : Z := 2.
Definition CATEGORY_BYREF : Z := 4.
Definition CATEGORY_TYPEDBYREF : Z := 8.
Definition CATEGORY_PINNED : Z := 16.
Definition CATEGORY_ALL : Z :=
  Z.lor (Z.lor (Z.lor CATEGORY_CMOD CATEGORY_VOID) CATEGORY_BYREF) CATEGORY_TYPEDBYREF.
Definition CATEGORY_PARAM : Z := Z.lor (Z.lor CATEGORY_CMOD CATEGORY_BYREF) CATEGORY_TYPEDBYREF.

Inductive SignatureKind := SIGNATURE_METHOD_DEF | SIGNATURE_METHOD_REF | SIGNATURE_FIELD | SIGNATURE_PROPERTY.

Definition allowed (categories category : Z) : bool := negb (Z.land categories category =? 0).

(** [for(dim = 0; dim < num; ++dim)]; false for a value that is not valid. *)
Fixpoint each_dimension (f : nat -> Z -> parse bool) (num : nat) (dim : nat) : parse bool :=
  match num with
  | O => mret true
  | S num =>
    value ← uncompress ILMetaUncompressInt;
    ok ← f dim value;
    if (ok : bool) then each_dimension f num (S dim) else mret false
  end.

Definition parse_size (array : Z) (dim : nat) (value : Z) : parse bool :=
  if value <? 0 then mret false else ILTypeSetSize array dim value;; mret true.
Definition parse_low_bound (array : Z) (dim : nat) (value : Z) : parse bool :=
  ILTypeSetLowBound array dim value;; mret true.

Definition ParseArrayShape (elemType : Z) : parse Z :=
  rank ← uncompress ILMetaUncompressData;
  if rank =? 0 then mret 0
  else
    array ← ILTypeCreateArray rank elemType;
    numSizes ← uncompress ILMetaUncompressData;
    if rank <? numSizes then mret 0
    else
      ok ← each_dimension (parse_size array) (Z.to_nat numSizes) 0;
      if negb ok then mret 0
      else
        numLowBounds ← uncompress ILMetaUncompressData;
        if rank <? numLowBounds then mret 0
        else each_dimension (parse_low_bound array) (Z.to_nat numLowBounds) 0;; mret array.

(** The compiler modifiers in front of a type: what follows them, and the list
    of modifiers with its length. *)
Fixpoint parse_modifiers (fuel : nat) (categories value : Z) (count : nat) (modifiers : Z) :
    parse (option (Z * nat * Z)) :=
  if (value =? IL_META_ELEMTYPE_CMOD_REQD) || (value =? IL_META_ELEMTYPE_CMOD_OPT) then
    if negb (allowed categories CATEGORY_CMOD) then mret None
    else
      let sigKind := if value =? IL_META_ELEMTYPE_CMOD_REQD then IL_TYPE_COMPLEX_CMOD_REQD
                     else IL_TYPE_COMPLEX_CMOD_OPT in
      token ← uncompress ILMetaUncompressToken;
      match ILImageTokenInfo token with
      | None => mret None
      | Some info =>
        modifiers ← ILTypeCreateModifier count modifiers sigKind info;
        value ← uncompress ILMetaUncompressData;
        match fuel with O => no_result | S fuel => parse_modifiers fuel categories value (S count) modifiers end
      end
  else mret (Some (value, count, modifiers)).

Definition simple_elements : list Z :=
  [IL_META_ELEMTYPE_BOOLEAN; IL_META_ELEMTYPE_CHAR; IL_META_ELEMTYPE_I1; IL_META_ELEMTYPE_U1; IL_META_ELEMTYPE_I2;
   IL_META_ELEMTYPE_U2; IL_META_ELEMTYPE_I4; IL_META_ELEMTYPE_U4; IL_META_ELEMTYPE_I8; IL_META_ELEMTYPE_U8;
   IL_META_ELEMTYPE_R4; IL_META_ELEMTYPE_R8; IL_META_ELEMTYPE_I; IL_META_ELEMTYPE_U; IL_META_ELEMTYPE_R].

(** A class of the system library, zero when there is none. *)
Definition system_type (name : string) : parse Z :=
  st ← get_sig;
  mret (match system_class (sig_heap st) name with Some info => ILType_FromClass info | None => 0 end).

Definition parse_value_type : parse Z :=
  token ← uncompress ILMetaUncompressToken;
  mret (if token =? 0 then 0
        else match ILImageTokenInfo token with Some info => ILType_FromValueType info | None => 0 end).

Definition parse_class : parse Z :=
  token ← uncompress ILMetaUncompressToken;
  mret (if token =? 0 then 0
        else match ILImageTokenInfo token with
             | Some info => ILType_FromClass info
             | None => match forward_item token with Some info => ILType_FromClass info | None => 0 end
             end).

Definition parse_var (kind : Z) : parse Z :=
  value ← raw_byte;
  match value with Some value => ILTypeCreateVarNum kind value | None => mret 0 end.

(** A type made from the one that is parsed next. *)
Definition parse_around (inner : parse Z) (outer : Z -> parse Z) : parse Z :=
  type ← inner; if type =? 0 then mret 0 else outer type.

Fixpoint parse_with_params (param : parse Z) (type : Z) (value : nat) : parse Z :=
  match value with
  | O => mret type
  | S value => parse_around param (fun tempType => ILTypeAddWithParam type tempType;; parse_with_params param type value)
  end.

Definition parse_with (inner : parse Z) : parse Z :=
  parse_around inner (fun tempType =>
    type ← ILTypeCreateWith tempType;
    value ← raw_byte;
    match value with
    | Some value => parse_with_params inner type (Z.to_nat value)
    | None => mret 0
    end).

(** The parameters of a method from [param] on; the result says whether a
    sentinel was there, or that a parameter is not valid. *)
Fixpoint parse_params (fuel : nat) (inner : parse Z) (numParams type param : Z) (sawSentinel : bool) :
    parse (option bool) :=
  if param <? numParams then
    sentinel ← next_is IL_META_ELEMTYPE_SENTINEL;
    if (sentinel : bool) then
      if sawSentinel || (0xFFFE <? numParams) then mret None
      else
        skip_byte;;
        ILTypeAddSentinel type;;
        match fuel with O => no_result | S fuel => parse_params fuel inner numParams type param true end
    else
      paramType ← inner;
      if paramType =? 0 then mret None
      else
        ILTypeAddParam type paramType;;
        match fuel with O => no_result | S fuel => parse_params fuel inner numParams type (param + 1) sawSentinel end
  else mret (Some sawSentinel).

Fixpoint parse_property_params (inner : parse Z) (type : Z) (numParams : nat) : parse Z :=
  match numParams with
  | O => mret type
  | S numParams => parse_around inner (fun paramType =>
      ILTypeAddParam type paramType;; parse_property_params inner type numParams)
  end.

Definition method_conventions : list Z :=
  [IL_META_CALLCONV_DEFAULT; IL_META_CALLCONV_C; IL_META_CALLCONV_STDCALL; IL_META_CALLCONV_THISCALL;
   IL_META_CALLCONV_FASTCALL; IL_META_CALLCONV_VARARG; IL_META_CALLCONV_UNMGD; IL_META_CALLCONV_INSTANTIATION].

(** The parameters of the method object, and what kind of signature it is. *)
Definition finish_method (inner : parse Z) (type sigKind numGenericParams numParams : Z) : parse (Z * SignatureKind) :=
  ILTypeSetCallConv type sigKind;;
  change type (set_gparams numGenericParams);;
  saw ← parse_params (S (Z.to_nat numParams)) inner numParams type 0 false;
  match saw with
  | None => mret (0, SIGNATURE_METHOD_DEF)
  | Some sawSentinel =>
    st ← get_sig;
    let convention := Z.land (Z.shiftr (o_kind (type_at (sig_heap st) type)) 8) IL_META_CALLCONV_MASK in
    if sawSentinel && negb (convention =? IL_META_CALLCONV_VARARG) && negb (convention =? IL_META_CALLCONV_C)
    then mret (0, SIGNATURE_METHOD_DEF)
    else mret (type, if sawSentinel then SIGNATURE_METHOD_REF else SIGNATURE_METHOD_DEF)
  end.

(** The recursive calls with one level less, when there is one. *)
Definition Deeper : Type := option ((Z -> parse Z) * parse (Z * SignatureKind)).
Definition deeper (rec : Deeper) (categories : Z) (outer : Z -> parse Z) : parse Z :=
  match rec with Some (elem, _) => parse_around (elem categories) outer | None => mret 0 end.

(** [switch(value)]: the type that starts with [value]. *)
Definition parse_element (rec : Deeper) (categories value : Z) : parse Z :=
  if value =? IL_META_ELEMTYPE_VOID then mret (if allowed categories CATEGORY_VOID then ILType_Void else 0)
  else if existsb (Z.eqb value) simple_elements then mret (ILType_FromElement value)
  else if value =? IL_META_ELEMTYPE_STRING then system_type "String"
  else if value =? IL_META_ELEMTYPE_PTR then
    deeper rec (Z.lor CATEGORY_CMOD CATEGORY_VOID) (ILTypeCreateRef IL_TYPE_COMPLEX_PTR)
  else if value =? IL_META_ELEMTYPE_BYREF then
    if allowed categories CATEGORY_BYREF
    then deeper rec (Z.land categories (Z.lnot CATEGORY_BYREF)) (ILTypeCreateRef IL_TYPE_COMPLEX_BYREF)
    else mret 0
  else if value =? IL_META_ELEMTYPE_VALUETYPE then parse_value_type
  else if value =? IL_META_ELEMTYPE_CLASS then parse_class
  else if value =? IL_META_ELEMTYPE_ARRAY then deeper rec 0 ParseArrayShape
  else if value =? IL_META_ELEMTYPE_SZARRAY then deeper rec CATEGORY_CMOD (ILTypeCreateArray 1)
  else if value =? IL_META_ELEMTYPE_TYPEDBYREF then
    mret (if allowed categories CATEGORY_TYPEDBYREF then ILType_TypedRef else 0)
  else if value =? IL_META_ELEMTYPE_FNPTR then
    match rec with
    | None => mret 0
    | Some (_, signature) =>
      '(type, sigKind) ← signature;
      mret (match sigKind with SIGNATURE_METHOD_DEF | SIGNATURE_METHOD_REF => type | _ => 0 end)
    end
  else if value =? IL_META_ELEMTYPE_OBJECT then system_type "Object"
  else if value =? IL_META_ELEMTYPE_PINNED then
    if allowed categories CATEGORY_PINNED then deeper rec categories (ILTypeCreateRef IL_TYPE_COMPLEX_PINNED) else mret 0
  else if value =? IL_META_ELEMTYPE_WITH then
    match rec with None => mret 0 | Some (elem, _) => parse_with (elem categories) end
  else if value =? IL_META_ELEMTYPE_MVAR then parse_var IL_TYPE_COMPLEX_MVAR
  else if value =? IL_META_ELEMTYPE_VAR then parse_var IL_TYPE_COMPLEX_VAR
  else mret 0.

Definition parse_elem_type (rec : Deeper) (categories : Z) : parse Z :=
  value ← uncompress ILMetaUncompressData;
  st ← get_sig;
  r ← parse_modifiers (S (length (data (sig_reader st)))) categories value 0 0;
  match r with
  | None => mret 0
  | Some (value, count, modifiers) =>
    type ← parse_element rec categories value;
    if negb (type =? 0) && negb (modifiers =? 0) then ILTypeAddModifiers count modifiers type else mret type
  end.

(** A signature that is not valid. *)
Definition invalid : Z * SignatureKind := (0, SIGNATURE_METHOD_DEF).

Definition parse_method (rec : Deeper) (sigKind : Z) : parse (Z * SignatureKind) :=
  numGenericParams ← (if negb (Z.land sigKind IL_META_CALLCONV_GENERIC =? 0)
                      then uncompress ILMetaUncompressData else mret 0);
  if 0xFF <? numGenericParams then mret invalid
  else
    numParams ← uncompress ILMetaUncompressData;
    if 0xFFFF <? numParams then mret invalid
    else match rec with
    | None => mret invalid
    | Some (elem, _) =>
      let instantiation := Z.land sigKind IL_META_CALLCONV_MASK =? IL_META_CALLCONV_INSTANTIATION in
      type ← (if negb instantiation then elem (Z.lor CATEGORY_PARAM CATEGORY_VOID) else mret 0);
      if (type =? 0) && negb instantiation then mret invalid
      else
        type ← ILTypeCreateMethod type;
        finish_method (elem CATEGORY_PARAM) type sigKind numGenericParams numParams
    end.

Definition parse_property (rec : Deeper) : parse (Z * SignatureKind) :=
  numParams ← uncompress ILMetaUncompressData;
  if 0xFFFD <? numParams then mret invalid
  else match rec with
  | None => mret invalid
  | Some (elem, _) =>
    type ← parse_around (elem 0) (fun type =>
      type ← ILTypeCreateProperty type; parse_property_params (elem CATEGORY_PARAM) type (Z.to_nat numParams));
    mret (type, SIGNATURE_PROPERTY)
  end.

(** [switch(sigKind & IL_META_CALLCONV_MASK)]. *)
Definition parse_signature (rec : Deeper) : parse (Z * SignatureKind) :=
  sigKind ← uncompress ILMetaUncompressData;
  let convention := Z.land sigKind IL_META_CALLCONV_MASK in
  if existsb (Z.eqb convention) method_conventions then parse_method rec sigKind
  else if convention =? IL_META_CALLCONV_FIELD then
    match rec with
    | None => mret invalid
    | Some (elem, _) => type ← elem CATEGORY_ALL; mret (type, SIGNATURE_FIELD)
    end
  else if convention =? IL_META_CALLCONV_PROPERTY then parse_property rec
  else mret invalid.

(** A type, and a signature, with [depth] levels of recursion left. *)
Fixpoint ParseElemType (depth : nat) (categories : Z) : parse Z :=
  parse_elem_type (match depth with S depth => Some (ParseElemType depth, ParseSignature depth) | O => None end) categories
with ParseSignature (depth : nat) : parse (Z * SignatureKind) :=
  parse_signature (match depth with S depth => Some (ParseElemType depth, ParseSignature depth) | O => None end).

(** *** Signatures of the blob pool *)

Definition with_reader {A} (blob : list Z) (len : Z) (m : parse A) : parse A := fun st =>
  m (mk_sig (sig_heap st) (sig_next st) (mk_read blob len false)).

(** The type when there was no error and the signature is of the right kind. *)
Definition checked (ok : Z -> SignatureKind -> SigState -> bool) (r : Z * SignatureKind) : parse Z :=
  st ← get_sig;
  mret (if negb (error (sig_reader st)) && negb (fst r =? 0) && ok (fst r) (snd r) st then fst r else 0).

Definition is_method_kind (kind : SignatureKind) : bool :=
  match kind with SIGNATURE_METHOD_DEF | SIGNATURE_METHOD_REF => true | _ => false end.

Definition ILTypeFromMethodDefSig (blob : list Z) (blobLen : Z) : parse Z :=
  with_reader blob blobLen (ParseSignature IL_TYPE_RECURSION_DEPTH ≫=
    checked (fun _ kind _ => match kind with SIGNATURE_METHOD_DEF => true | _ => false end)).

Definition ILTypeFromMethodRefSig (blob : list Z) (blobLen : Z) : parse Z :=
  with_reader blob blobLen (ParseSignature IL_TYPE_RECURSION_DEPTH ≫=
    checked (fun type kind st =>
      let convention := Z.land (Z.shiftr (o_kind (type_at (sig_heap st) type)) 8) IL_META_CALLCONV_MASK in
      is_method_kind kind &&
      ((convention =? IL_META_CALLCONV_DEFAULT) || (convention =? IL_META_CALLCONV_VARARG)))).

Definition ILTypeFromStandAloneMethodSig (blob : list Z) (blobLen : Z) : parse Z :=
  with_reader blob blobLen (ParseSignature IL_TYPE_RECURSION_DEPTH ≫= checked (fun _ kind _ => is_method_kind kind)).

Definition ILTypeFromFieldSig (blob : list Z) (blobLen : Z) : parse Z :=
  with_reader blob blobLen (
    kind ← uncompress ILMetaUncompressData;
    if negb (kind =? IL_META_CALLCONV_FIELD) then mret 0 else ParseElemType IL_TYPE_RECURSION_DEPTH CATEGORY_ALL).

Definition ILTypeFromPropertySig (blob : list Z) (blobLen : Z) : parse Z :=
  with_reader blob blobLen (ParseSignature IL_TYPE_RECURSION_DEPTH ≫=
    checked (fun _ kind _ => match kind with SIGNATURE_PROPERTY => true | _ => false end)).

Definition ILTypeFromTypeSpec (blob : list Z) (blobLen : Z) : parse Z :=
  with_reader blob blobLen (
    type ← ParseElemType IL_TYPE_RECURSION_DEPTH (Z.lor CATEGORY_CMOD CATEGORY_VOID);
    st ← get_sig; mret (if negb (error (sig_reader st)) then type else 0)).

(** [while(reader.len > 0 && reader.data[0] == IL_META_ELEMTYPE_PINNED)]. *)
Fixpoint skip_pinned (fuel : nat) (isPinned : bool) : parse bool :=
  pinned ← next_is IL_META_ELEMTYPE_PINNED;
  if (pinned : bool) then
    skip_byte;; match fuel with O => no_result | S fuel => skip_pinned fuel true end
  else mret isPinned.

Fixpoint parse_locals (locals : Z) (kind : nat) : parse Z :=
  match kind with
  | O => mret locals
  | S kind =>
    st ← get_sig;
    isPinned ← skip_pinned (length (data (sig_reader st))) false;
    parse_around (ParseElemType IL_TYPE_RECURSION_DEPTH (Z.lor CATEGORY_ALL CATEGORY_PINNED)) (fun nextLocal =>
      nextLocal ← (if (isPinned : bool) then ILTypeCreateRef IL_TYPE_COMPLEX_PINNED nextLocal else mret nextLocal);
      ILTypeAddLocal locals nextLocal;;
      parse_locals locals kind)
  end.

(** [error] may have been set by a read that returned a value. *)
Definition failed_read (v : Z) : parse bool := st ← get_sig; mret (error (sig_reader st)).

Definition ILTypeFromLocalVarSig (blob : list Z) (blobLen : Z) : parse Z :=
  with_reader blob blobLen (
    kind ← uncompress ILMetaUncompressData;
    e ← failed_read kind;
    if negb (kind =? IL_META_CALLCONV_LOCAL_SIG) || e then mret 0
    else
      kind ← uncompress ILMetaUncompressData;
      e ← failed_read kind;
      if e || (0xFFFF <? kind) then mret 0
      else
        locals ← ILTypeCreateLocalList;
        parse_locals locals (Z.to_nat kind)).

(** *** The writer (image/sig_writer.c) *)

Section Writer.
Variable h : Heap.

(** A class without a nested parent in "System". *)
Definition is_system (info : Z) (name : string) : bool :=
  in_system h info name && bool_decide (ILClassGetNestedParent h info = None).

Definition WriteClassToken (info : Z) : option (list Z) :=
  info ← Metadata.ILClassResolve h depth info; Some (ILMetaCompressToken (ILClass_Token (import_of info))).
Definition WriteValue (value : Z) : list Z := ILMetaCompressData value.
Definition WriteIntValue (value : Z) : list Z := ILMetaCompressInt (i32 value).

(** The bytes of two writes. *)
Definition then_write (a b : option (list Z)) : option (list Z) := a ← a; b ← b; Some (a ++ b).
Definition write (l : list Z) : option (list Z) := Some l.
Infix "+++" := then_write (at level 60, right associativity).

Definition concat_writes (ws : list (option (list Z))) : option (list Z) := foldr then_write (Some []) ws.

Definition needs_size (type : Z) : bool :=
  let o := type_at h type in negb (o_low o =? 0) || negb (o_size o =? 0).

(** Rank, whether there are sizes or bounds, and the type of the elements. *)
Fixpoint array_rank (fuel : nat) (rank : Z) (needSizes : bool) (elemType : Z) : option (Z * bool * Z) :=
  let inner := o_elem (type_at h elemType) in
  let needed := needSizes || needs_size elemType in
  if ILType_IsComplex elemType && (Z.land (t_kind h elemType) 0xFF =? IL_TYPE_COMPLEX_ARRAY_CONTINUE) then
    match fuel with O => None | S fuel => array_rank fuel (u32 (rank + 1)) needed inner end
  else if ILType_IsComplex elemType && (Z.land (t_kind h elemType) 0xFF =? IL_TYPE_COMPLEX_ARRAY)
  then Some (u32 (rank + 1), needed, inner)
  else Some (rank, needSizes, elemType).

(** A value of [num] dimensions from [elemType] on. *)
Fixpoint write_dimensions (value : ILType_object -> Z) (num : nat) (elemType : Z) : list Z :=
  match num with
  | O => []
  | S num =>
    let o := type_at h elemType in
    if ILType_IsComplex elemType && array_kind (o_kind o)
    then WriteIntValue (value o) ++ write_dimensions value num (o_elem o) else []
  end.

Definition write_array (WriteType : Z -> option (list Z)) (fuel : nat) (type : Z) : option (list Z) :=
  '(rank, needSizes, elemType) ← array_rank fuel 0 false type;
  let sizes := if needSizes : bool then rank else 0 in
  write [IL_META_ELEMTYPE_ARRAY] +++ WriteType elemType +++ write (WriteValue rank) +++ write (WriteValue sizes) +++
  write (if needSizes : bool then write_dimensions o_size (Z.to_nat sizes) type else []) +++
  write (WriteValue rank) +++ write (write_dimensions o_low (Z.to_nat rank) type).

(** The parameters, or the local variables, one after the other. *)
Definition WriteMethodParams (WriteType : Z -> option (list Z)) (method : Z) : option (list Z) :=
  let o := type_at h method in
  concat_writes (WriteType <$> take (Z.to_nat (o_num o)) (o_params o)).
Definition WriteLocalVars (WriteType : Z -> option (list Z)) (locals : Z) : option (list Z) :=
  WriteMethodParams WriteType locals.

(** [ILType_CallConv]. *)
Definition ILType_CallConv (kind : Z) : Z := u32 (Z.shiftr kind 8).

Definition write_method (WriteType : Z -> option (list Z)) (methodPtr : bool) (type : Z) : option (list Z) :=
  let o := type_at h type in
  let conv := ILType_CallConv (o_kind o) in
  write (if methodPtr then [IL_META_ELEMTYPE_FNPTR] else []) +++ write [u8 conv] +++
  write (if negb (Z.land conv IL_META_CALLCONV_GENERIC =? 0) then WriteValue (u32 (o_gparams o)) else []) +++
  write (if negb (Z.land (o_kind o) IL_TYPE_COMPLEX_METHOD_SENTINEL =? 0) then WriteValue (u32 (o_num o - 1))
         else WriteValue (o_num o)) +++
  (if negb (Z.land conv IL_META_CALLCONV_MASK =? IL_META_CALLCONV_INSTANTIATION) then WriteType (o_ret o)
   else Some []) +++
  WriteMethodParams WriteType type.

Definition write_class (type : Z) : option (list Z) :=
  let info := ILType_ToClass type in
  if is_system info "Object" then write [IL_META_ELEMTYPE_OBJECT]
  else if is_system info "String" then write [IL_META_ELEMTYPE_STRING]
  else write [IL_META_ELEMTYPE_CLASS] +++ WriteClassToken info.
Definition write_value_type (type : Z) : option (list Z) :=
  let info := ILType_ToValueType type in
  if is_system info "TypedReference" then write [IL_META_ELEMTYPE_TYPEDBYREF]
  else write [IL_META_ELEMTYPE_VALUETYPE] +++ WriteClassToken info.

Fixpoint WriteType (fuel : nat) (methodPtr : bool) (type : Z) : option (list Z) :=
  if ILType_IsPrimitive type then write [u8 (ILType_ToElement type)]
  else if ILType_IsClass type then write_class type
  else if ILType_IsValueType type then write_value_type type
  else if type =? 0 then write []
  else match fuel with
  | O => None
  | S fuel =>
    let o := type_at h type in
    let kind := Z.land (o_kind o) 0xFF in
    if kind =? IL_TYPE_COMPLEX_BYREF then write [IL_META_ELEMTYPE_BYREF] +++ WriteType fuel true (o_ref o)
    else if kind =? IL_TYPE_COMPLEX_PTR then write [IL_META_ELEMTYPE_PTR] +++ WriteType fuel true (o_ref o)
    else if array_kind kind then
      if (kind =? IL_TYPE_COMPLEX_ARRAY) && (o_kind o =? IL_TYPE_COMPLEX_ARRAY) && (o_low o =? 0) && (o_size o =? 0)
      then write [IL_META_ELEMTYPE_SZARRAY] +++ WriteType fuel true (o_elem o)
      else write_array (WriteType fuel true) fuel type
    else if kind =? IL_TYPE_COMPLEX_CMOD_REQD then
      write [IL_META_ELEMTYPE_CMOD_REQD] +++ WriteClassToken (o_info o) +++ WriteType fuel true (o_mod_type o)
    else if kind =? IL_TYPE_COMPLEX_CMOD_OPT then
      write [IL_META_ELEMTYPE_CMOD_OPT] +++ WriteClassToken (o_info o) +++ WriteType fuel true (o_mod_type o)
    else if kind =? IL_TYPE_COMPLEX_PROPERTY then
      write [IL_META_CALLCONV_PROPERTY] +++ write (WriteValue (o_num o)) +++ WriteType fuel true (o_ret o) +++
      WriteMethodParams (WriteType fuel true) type
    else if kind =? IL_TYPE_COMPLEX_SENTINEL then write [IL_META_ELEMTYPE_SENTINEL]
    else if kind =? IL_TYPE_COMPLEX_PINNED then write [IL_META_ELEMTYPE_PINNED] +++ WriteType fuel true (o_ref o)
    else if kind =? IL_TYPE_COMPLEX_LOCALS then
      write [IL_META_CALLCONV_LOCAL_SIG] +++ write (WriteValue (o_num o)) +++ WriteLocalVars (WriteType fuel true) type
    else if kind =? IL_TYPE_COMPLEX_WITH then
      write [IL_META_ELEMTYPE_WITH] +++ WriteType fuel true (o_ret o) +++ write [u8 (o_num o)] +++
      WriteMethodParams (WriteType fuel true) type
    else if kind =? IL_TYPE_COMPLEX_MVAR then write [IL_META_ELEMTYPE_MVAR; u8 (o_varnum o)]
    else if kind =? IL_TYPE_COMPLEX_VAR then write [IL_META_ELEMTYPE_VAR; u8 (o_varnum o)]
    else if (kind =? IL_TYPE_COMPLEX_METHOD) || (kind =? Z.lor IL_TYPE_COMPLEX_METHOD IL_TYPE_COMPLEX_METHOD_SENTINEL)
    then write_method (WriteType fuel true) methodPtr type
    else write []
  end.

(** The bytes that [ILTypeToMethodSig], [ILTypeToFieldSig] and
    [ILTypeToOtherSig] add to the blob pool. *)
Definition ILTypeToMethodSig (fuel : nat) (type : Z) : option (list Z) := WriteType fuel false type.
Definition ILTypeToFieldSig (fuel : nat) (type : Z) : option (list Z) :=
  write [IL_META_CALLCONV_FIELD] +++ WriteType fuel true type.
Definition ILTypeToOtherSig (fuel : nat) (type : Z) : option (list Z) := WriteType fuel true type.

End Writer.
End Signature.
