(* ===== verification/SignatureRun.v ===== *)
(** * Runs of the signature parser

    The parser of Signature.v never reads behind its block and never gives up:
    from any block whose length is backed by bytes it returns, whatever the
    bytes are.  It writes only to type objects that it has allocated itself:
    the objects of the heap that were there before stay as they are. *)
From Stdlib Require Import ZArith Lia String.
From stdpp Require Import base list option numbers.
From S2P Require Import Prelude Compress Opcodes Cvm JumpMask Scan Coder Types Metadata Signature.

Local Open Scope Z_scope.

(** [m] returns from [st], with [Q] of the result and the state. *)
Definition runs {A} (m : parse A) (Q : A -> SigState -> Prop) (st : SigState) : Prop :=
  exists a st', m st = Some (a, st') /\ Q a st'.

Lemma runs_ret {A} (a : A) (Q : A -> SigState -> Prop) st : Q a st -> runs (mret a) Q st.
Proof. intros H. by exists a, st. Qed.

Lemma runs_bind {A B} (m : parse A) (f : A -> parse B) Q st :
  runs m (fun a => runs (f a) Q) st -> runs (m ≫= f) Q st.
Proof. intros (a & st' & E & b & st'' & E' & H). exists b, st''. split; [|done]. unfold mbind, parse_bind. by rewrite E. Qed.

Lemma runs_mono {A} (m : parse A) (Q Q' : A -> SigState -> Prop) st :
  (forall a st', Q a st' -> Q' a st') -> runs m Q st -> runs m Q' st.
Proof. intros HQ (a & st' & E & H). exists a, st'. split; [done|by apply HQ]. Qed.

Lemma runs_get (Q : SigState -> SigState -> Prop) st : Q st st -> runs get_sig Q st.
Proof. intros H. by exists st, st. Qed.

Lemma runs_change a f (Q : unit -> SigState -> Prop) st :
  Q tt (mk_sig (store_type (sig_heap st) a (f (type_at (sig_heap st) a))) (sig_next st) (sig_reader st)) ->
  runs (change a f) Q st.
Proof. intros H. by eexists _, _. Qed.

(** ** What stays of the heap *)

(** Everything below the address [n] is as it was; and the classes. *)
Record grows (n : Z) (st st' : SigState) : Prop := {
  gr_next : sig_next st <= sig_next st';
  gr_type a : a < n -> type_at (sig_heap st') a = type_at (sig_heap st) a;
  gr_class : class_at (sig_heap st') = class_at (sig_heap st);
  gr_system : system_class (sig_heap st') = system_class (sig_heap st);
  gr_rest : numRedoItems (sig_heap st') = numRedoItems (sig_heap st) /\
    systemImage (sig_heap st') = systemImage (sig_heap st) /\
    synthetic_class (sig_heap st') = synthetic_class (sig_heap st) /\
    instance_class (sig_heap st') = instance_class (sig_heap st);
}.

Lemma grows_refl n st : grows n st st.
Proof. by split. Qed.

Lemma grows_trans n st1 st2 st3 : grows n st1 st2 -> grows n st2 st3 -> grows n st1 st3.
Proof.
  intros [H1 H2 H3 H4 (H5 & H6 & H7 & H8)] [K1 K2 K3 K4 (K5 & K6 & K7 & K8)]. split; [lia| |congruence..|repeat split; congruence].
  intros a Ha. by rewrite K2, H2.
Qed.

Lemma grows_below n n' st st' : n' <= n -> grows n st st' -> grows n' st st'.
Proof. intros Hn [H1 H2 H3 H4 H5]. split; try done. intros a Ha. apply H2. lia. Qed.

(** Later pieces start above. *)
Lemma grows_step n st1 st2 st3 : n <= sig_next st2 -> grows n st1 st2 -> grows (sig_next st2) st2 st3 -> grows n st1 st3.
Proof. intros Hn H1 H2. eapply grows_trans; [exact H1|]. by eapply grows_below. Qed.

Lemma grows_store n st a o m : n <= a -> grows n st (mk_sig (store_type (sig_heap st) a o) (sig_next st) m).
Proof. intros Hn. split; try done. intros x Hx. simpl. by destruct (Z.eqb_spec x a); [lia|]. Qed.

Lemma grows_reader n st m : grows n st (mk_sig (sig_heap st) (sig_next st) m).
Proof. by split. Qed.

Section Run.
Context {PF : Platform} {IT : ImageTokens}.

Lemma sizeof_ILType_pos : 28 <= sizeof_ILType.
Proof. unfold sizeof_ILType. case_match; lia. Qed.

(** Addresses of objects: type pointers to them have no tag. *)
Definition next_ok (a : Z) : Prop := 0 < a /\ a mod 4 = 0.

Lemma next_ok_alloc a : next_ok a -> next_ok (a + sizeof_ILType).
Proof. unfold next_ok, sizeof_ILType. intros Ha. case_match; width_lia. Qed.

Lemma next_ok_complex a : next_ok a -> ILType_IsComplex a = true /\ a <> 0.
Proof.
  intros [Ha Hm]. split; [|lia]. apply Z.eqb_eq. change 3 with (Z.ones 2). rewrite Z.land_ones by lia. done.
Qed.

Lemma runs_alloc o (Q : Z -> SigState -> Prop) st :
  Q (sig_next st) (mk_sig (store_type (sig_heap st) (sig_next st) o) (sig_next st + sizeof_ILType) (sig_reader st)) ->
  runs (alloc o) Q st.
Proof. intros H. by eexists _, _. Qed.

Lemma grows_alloc n st o : n <= sig_next st ->
  grows n st (mk_sig (store_type (sig_heap st) (sig_next st) o) (sig_next st + sizeof_ILType) (sig_reader st)).
Proof.
  intros Hn. pose proof sizeof_ILType_pos. split; simpl; try done; [lia|].
  intros x Hx. by destruct (Z.eqb_spec x (sig_next st)); [lia|].
Qed.

(** ** States of a run *)

Definition bytes_left (st : SigState) : nat := length (data (sig_reader st)).

Record parse_ok (st : SigState) : Prop := {
  po_read : read_ok (sig_reader st);
  po_next : next_ok (sig_next st);
}.

(** From the start [st0] on: the heap below [n] is as it was and no bytes have
    come back. *)
Definition after (n : Z) (st0 st : SigState) : Prop :=
  parse_ok st /\ grows n st0 st /\ (bytes_left st <= bytes_left st0)%nat.

Lemma after_refl n st : parse_ok st -> after n st st.
Proof. intros H. split; [done|]. split; [apply grows_refl|done]. Qed.

Lemma after_trans n st1 st2 st3 : n <= sig_next st2 -> after n st1 st2 -> after (sig_next st2) st2 st3 -> after n st1 st3.
Proof. intros Hn (_ & G1 & L1) (P2 & G2 & L2). split; [done|]. split; [by eapply grows_step|lia]. Qed.

(** A parser that may be run anywhere above [n], and anywhere. *)
Definition total_from {A} (n : Z) (m : parse A) : Prop :=
  forall st, parse_ok st -> n <= sig_next st -> runs m (fun _ st' => after n st st') st.
Definition total {A} (m : parse A) : Prop := forall n, total_from n m.

Lemma total_ret {A} (a : A) : total (mret a).
Proof. intros n st Hst _. apply runs_ret. by apply after_refl. Qed.

Lemma after_next n st st' : after n st st' -> sig_next st <= sig_next st'.
Proof. intros (_ & G & _). apply (gr_next _ _ _ G). Qed.

Lemma after_ok n st st' : after n st st' -> parse_ok st'.
Proof. by intros [? _]. Qed.

Lemma after_trans' n st1 st2 st3 : after n st1 st2 -> after n st2 st3 -> after n st1 st3.
Proof. intros (_ & G1 & L1) (P2 & G2 & L2). split; [done|]. split; [by eapply grows_trans|lia]. Qed.

(** A run from [st] as part of one from [st0]. *)
Lemma total_run {A} n (m : parse A) (Q : A -> SigState -> Prop) st :
  total_from n m -> parse_ok st -> n <= sig_next st -> (forall a st', after n st st' -> Q a st') -> runs m Q st.
Proof. intros Hm Hst Hn HQ. eapply runs_mono; [|by apply Hm]. intros a st'. apply HQ. Qed.

Lemma total_bind {A B} n (m : parse A) (f : A -> parse B) :
  total_from n m -> (forall a, total_from n (f a)) -> total_from n (m ≫= f).
Proof.
  intros Hm Hf st Hst Hn. apply runs_bind. eapply total_run; [exact Hm|done|done|]. intros a st' Ha.
  pose proof (after_next _ _ _ Ha). eapply total_run; [apply Hf|by eapply after_ok|lia|]. intros b st''.
  by apply after_trans'.
Qed.

Lemma total_get {B} n (f : SigState -> parse B) : (forall st, total_from n (f st)) -> total_from n (get_sig ≫= f).
Proof. intros Hf st Hst Hn. apply runs_bind, runs_get. by apply Hf. Qed.

Lemma total_alloc {B} n o (f : Z -> parse B) :
  (forall a, n <= a -> 0 < a -> total_from n (f a)) -> total_from n (alloc o ≫= f).
Proof.
  intros Hf st [Hr Hn] Hns. apply runs_bind, runs_alloc. pose proof sizeof_ILType_pos.
  eapply total_run; [apply Hf; [done|apply Hn]|split; simpl; [done|by apply next_ok_alloc]|simpl; lia|].
  intros b st'. apply after_trans'. split; [split; simpl; [done|by apply next_ok_alloc]|]. split; [by apply grows_alloc|done].
Qed.

Lemma total_alloc_last n o : total_from n (alloc o).
Proof.
  intros st [Hr Hn] Hns. apply runs_alloc. pose proof sizeof_ILType_pos.
  split; [split; simpl; [done|by apply next_ok_alloc]|]. split; [by apply grows_alloc|done].
Qed.

Lemma total_change n a f : n <= a -> total_from n (change a f).
Proof. intros Ha st [Hr Hn] Hns. apply runs_change. split; [by split|]. split; [by apply grows_store|done]. Qed.

(** *** Reads *)

Lemma uncompress_data_shorter m v m' :
  ILMetaUncompressData m = Some (v, m') ->
  (length (data m') <= length (data m))%nat /\ (v <> 0 -> (length (data m') < length (data m))%nat).
Proof.
  destruct m as [[|b1 [|b2 [|b3 [|b4 [|b5 bs]]]]] n e]; unfold ILMetaUncompressData, next_byte, next_bytes3, next_bytes4; cbn;
    intros E; repeat (case_match; cbn in E; try done); injection E as <- <-; cbn; split; try done; lia.
Qed.

Lemma uncompress_data_spec (Q : Z -> SigState -> Prop) st :
  parse_ok st ->
  (forall v st', after (sig_next st) st st' -> sig_heap st' = sig_heap st -> sig_next st' = sig_next st ->
     (v <> 0 -> (bytes_left st' < bytes_left st)%nat) -> 0 <= v <= IL_MAX_UINT32 -> Q v st') ->
  runs (uncompress ILMetaUncompressData) Q st.
Proof.
  intros [Hr Hn] HQ. destruct (uncompress_data_total _ Hr) as (v & m & E & Hm & Hv).
  destruct (uncompress_data_shorter _ _ _ E) as [Hs Hs']. eexists v, _. unfold uncompress. rewrite E. split; [reflexivity|].
  by apply HQ.
Qed.

Lemma total_data : total (uncompress ILMetaUncompressData).
Proof.
  intros n st Hst Hn. apply uncompress_data_spec; [done|]. intros v st' (P & G & L) _ _ _ _.
  split; [done|]. split; [by eapply grows_below|done].
Qed.

Lemma token_shorter m v m' :
  ILMetaUncompressToken m = Some (v, m') -> (length (data m') <= length (data m))%nat.
Proof.
  unfold ILMetaUncompressToken. destruct (ILMetaUncompressData m) as [[i m1]|] eqn:E; [|done]. cbn.
  apply uncompress_data_shorter in E as [E _]. intros H. repeat case_match; injection H as <- <-; lia.
Qed.

Lemma total_token : total (uncompress ILMetaUncompressToken).
Proof.
  intros n st [Hr Hn] _. destruct (uncompress_token_total _ Hr) as (v & m & E & Hm).
  eexists v, _. unfold uncompress. rewrite E. split; [reflexivity|].
  split; [done|]. split; [apply grows_reader|by eapply token_shorter].
Qed.

Lemma int_shorter m v m' :
  ILMetaUncompressInt m = Some (v, m') -> (length (data m') <= length (data m))%nat.
Proof.
  destruct m as [[|b1 [|b2 [|b3 [|b4 [|b5 bs]]]]] n e]; unfold ILMetaUncompressInt, next_byte, next_bytes3, next_bytes4; cbn;
    intros E; repeat (case_match; cbn in E; try done); injection E as <- <-; cbn; lia.
Qed.

Lemma total_int : total (uncompress ILMetaUncompressInt).
Proof.
  intros n st [Hr Hn] _. destruct (uncompress_int_total _ Hr) as (v & m & E & Hm & _).
  eexists v, _. unfold uncompress. rewrite E. split; [reflexivity|].
  split; [done|]. split; [apply grows_reader|by eapply int_shorter].
Qed.

(** A byte that is there. *)
Lemma byte_there m : read_ok m -> 0 < len m -> exists b bs, data m = b :: bs /\ read_ok (mk_read bs (u32 (len m - 1)) (error m)).
Proof.
  destruct m as [[|b bs] n e]; intros Hr Hl; cbn in *.
  - destruct Hr as (_ & H & _). cbn in H. lia.
  - exists b, bs. split; [done|]. by eapply read_ok_cons.
Qed.

Lemma total_next_is byte : total (next_is byte).
Proof.
  intros n st Hst _. unfold runs, next_is. destruct (1 <=? len (sig_reader st)) eqn:E.
  - apply Z.leb_le in E. destruct (byte_there _ (po_read _ Hst) ltac:(lia)) as (b & bs & -> & _).
    eexists _, _. split; [reflexivity|by apply after_refl].
  - eexists _, _. split; [reflexivity|by apply after_refl].
Qed.

Lemma total_raw_byte : total raw_byte.
Proof.
  intros n st [Hr Hn] _. unfold runs, raw_byte, next_byte. destruct (_ && _) eqn:E.
  - apply andb_true_iff in E as [_ El%Z.ltb_lt]. destruct (byte_there _ Hr El) as (b & bs & Ed & Hr'). rewrite Ed.
    eexists _, _. split; [reflexivity|]. split; [done|]. split; [apply grows_reader|]. unfold bytes_left. rewrite Ed. simpl. lia.
  - eexists _, _. split; [reflexivity|]. split; [done|]. split; [apply grows_reader|done].
Qed.

(** ** Lists of modifiers *)

(** Modifiers with these kinds and classes, one behind the other from [a] on,
    that end with [term]. *)
Fixpoint chain (h : Heap) (lo hi a : Z) (ms : list (Z * Z)) (term : Z) : Prop :=
  match ms with
  | [] => a = term
  | (kind, info) :: ms =>
    (lo <= a < hi /\ next_ok a) /\ exists a', type_at h a = modifier_object kind info a' /\ chain h (a + 1) hi a' ms term
  end.

Lemma chain_frame h h' lo hi a ms term :
  (forall x, lo <= x < hi -> type_at h' x = type_at h x) -> chain h lo hi a ms term -> chain h' lo hi a ms term.
Proof.
  revert lo a. induction ms as [|[kind info] ms IH]; intros lo a Hh; simpl; [done|].
  intros (Ha & a' & E & H). split; [done|]. exists a'. split; [by rewrite Hh by lia|]. apply IH; [|done]. intros x Hx. apply Hh. lia.
Qed.

Lemma chain_above h lo hi hi' a ms term : hi <= hi' -> chain h lo hi a ms term -> chain h lo hi' a ms term.
Proof.
  intros Hi. revert lo a. induction ms as [|[kind info] ms IH]; intros lo a; simpl; [done|].
  intros (Ha & a' & E & H). split; [split; [lia|apply Ha]|]. exists a'. split; [done|by apply IH].
Qed.

Lemma chain_app h lo mid hi a ms ms' x term :
  chain h lo mid a ms x -> (forall lo', lo <= lo' <= mid -> chain h lo' hi x ms' term) -> lo <= mid <= hi ->
  chain h lo hi a (ms ++ ms') term.
Proof.
  revert lo a. induction ms as [|[kind info] ms IH]; intros lo a; simpl; [intros -> H Hi; apply H; lia|].
  intros (Ha & a' & E & H) H' Hi. split; [split; [lia|apply Ha]|]. exists a'. split; [done|]. apply IH; [done| |lia]. intros lo' Hlo. apply H'. lia.
Qed.

(** The end of the list is found and can be set. *)
Lemma chain_link h lo hi a ms count :
  chain h lo hi a ms 0 -> ms <> [] -> 0 < lo -> (length ms <= S count)%nat ->
  exists temp, last_modifier h count a = Some temp /\ lo <= temp < hi /\
    forall t, chain (store_type h temp (set_modified t (type_at h temp))) lo hi a ms t.
Proof.
  revert lo a count. induction ms as [|[kind info] ms IH]; intros lo a count; [done|]. simpl.
  intros (Ha & a' & E & H) _ Hlo Hlen. destruct ms as [|m ms].
  - simpl in H. subst a'. exists a. split; [destruct count; simpl; by rewrite E|]. split; [apply Ha|]. intros t. split; [done|].
    exists t. by rewrite Z.eqb_refl, E.
  - destruct count as [|count]; [simpl in Hlen; lia|].
    destruct (IH (a + 1) a' count H ltac:(done) ltac:(lia) ltac:(simpl in *; lia)) as (temp & Et & Htemp & Hc).
    assert (a' <> 0) as Ha' by (destruct m; simpl in H; lia).
    exists temp. split; [simpl; rewrite E; simpl; apply Z.eqb_neq in Ha'; by rewrite Ha'|]. split; [lia|]. intros t. split; [done|].
    exists a'. simpl. destruct (Z.eqb_spec a temp); [lia|]. split; [done|]. apply Hc.
Qed.

(** Setting it is within what the list may change. *)
Lemma runs_link n hi count list ms t (Q : Z -> SigState -> Prop) st :
  chain (sig_heap st) n hi list ms 0 -> ms <> [] -> 0 < n -> hi <= sig_next st -> (length ms <= S count)%nat -> parse_ok st ->
  (forall st', after n st st' -> sig_next st' = sig_next st -> sig_reader st' = sig_reader st ->
     chain (sig_heap st') n hi list ms t ->
     (forall x, hi <= x -> type_at (sig_heap st') x = type_at (sig_heap st) x) -> Q list st') ->
  runs (link_modifier count list t) Q st.
Proof.
  intros Hc Hms Hn Hhi Hlen Hst HQ. destruct (chain_link _ _ _ _ _ _ Hc Hms Hn Hlen) as (temp & E & Htemp & Hc').
  unfold link_modifier. apply runs_bind, runs_get. rewrite E. apply runs_bind, runs_change, runs_ret. apply HQ; simpl; try done.
  - split; [by destruct Hst|]. split; [apply grows_store; lia|done].
  - intros x Hx. by destruct (Z.eqb_spec x temp); [lia|].
Qed.

(** ** Dimensions of arrays *)

(** The dimensions of an array from the outermost at [a], with their sizes and
    low bounds; the innermost one has the elements [elem]. *)
Fixpoint dims (h : Heap) (lo hi a : Z) (ds : list (Z * Z)) (elem : Z) : Prop :=
  match ds with
  | [] => a = elem
  | (size, low) :: ds =>
    (lo <= a < hi /\ next_ok a) /\ exists a', dims h lo a a' ds elem /\
      type_at h a = array_object (match ds with [] => IL_TYPE_COMPLEX_ARRAY | _ => IL_TYPE_COMPLEX_ARRAY_CONTINUE end) a' size low
  end.

Lemma dims_frame h h' lo hi a ds elem :
  (forall x, lo <= x < hi -> type_at h' x = type_at h x) -> dims h lo hi a ds elem -> dims h' lo hi a ds elem.
Proof.
  revert hi a. induction ds as [|[size low] ds IH]; intros hi a Hh; simpl; [done|].
  intros (Ha & a' & H & E). split; [done|]. exists a'. split; [apply IH; [intros x Hx; apply Hh; lia|done]|by rewrite Hh by lia].
Qed.

Lemma dims_above h lo hi hi' a ds elem : hi <= hi' -> dims h lo hi a ds elem -> dims h lo hi' a ds elem.
Proof. intros Hi. destruct ds as [|[size low] ds]; simpl; [done|]. intros (Ha & H). split; [split; [lia|apply Ha]|done]. Qed.

Lemma dims_below h lo lo' hi a ds elem : lo' <= lo -> dims h lo hi a ds elem -> dims h lo' hi a ds elem.
Proof.
  intros Hlo. revert hi a. induction ds as [|[size low] ds IH]; intros hi a; simpl; [done|].
  intros (Ha & a' & H & E). split; [split; [lia|apply Ha]|]. exists a'. split; [by apply IH|done].
Qed.

Lemma dims_address h lo hi a ds elem d :
  dims h lo hi a ds elem -> (d < length ds)%nat -> lo <= dimension_of h d a < hi.
Proof.
  revert hi a d. induction ds as [|[size low] ds IH]; intros hi a d; simpl; [lia|].
  intros (Ha & a' & H & E) Hd. destruct d as [|d]; simpl; [apply Ha|]. rewrite E. simpl.
  pose proof (IH a a' d H ltac:(lia)). lia.
Qed.

(** A change of the size or the bound of one dimension. *)
Definition changes (f : ILType_object -> ILType_object) (g : Z * Z -> Z * Z) : Prop :=
  forall kind elem size low, f (array_object kind elem size low) = array_object kind elem (fst (g (size, low))) (snd (g (size, low))).

Lemma dims_change h lo hi a ds elem d f g :
  dims h lo hi a ds elem -> (d < length ds)%nat -> changes f g ->
  dims (store_type h (dimension_of h d a) (f (type_at h (dimension_of h d a)))) lo hi a (alter g d ds) elem.
Proof.
  revert hi a d. induction ds as [|[size low] ds IH]; intros hi a d; simpl; [lia|].
  intros (Ha & a' & H & E) Hd Hf. destruct d as [|d]; simpl.
  - destruct (g (size, low)) as [size' low'] eqn:Eg. split; [done|]. exists a'. rewrite Z.eqb_refl. split.
    + eapply dims_frame; [|exact H]. intros x Hx. simpl. by destruct (Z.eqb_spec x a); [lia|].
    + rewrite E, Hf, Eg. done.
  - rewrite E. cbn [o_elem array_object]. pose proof (dims_address _ _ _ _ _ _ d H ltac:(lia)).
    split; [done|]. exists a'. split; [apply IH; [done|lia|done]|].
    destruct (Z.eqb_spec a (dimension_of h d a')); [lia|]. by destruct ds, d.
Qed.

Lemma dims_more h lo hi a a' m elem :
  lo <= a < hi /\ next_ok a -> dims h lo a a' (repeat (0, 0) (S m)) elem ->
  type_at h a = array_object IL_TYPE_COMPLEX_ARRAY_CONTINUE a' 0 0 -> dims h lo hi a (repeat (0, 0) (S (S m))) elem.
Proof. intros Ha Hd E. split; [done|]. by exists a'. Qed.

Lemma runs_array n rank elem (Q : Z -> SigState -> Prop) st :
  1 <= rank -> parse_ok st -> n <= sig_next st ->
  (forall a st', after n st st' -> sig_reader st' = sig_reader st ->
     dims (sig_heap st') (sig_next st) (sig_next st') a (repeat (0, 0) (Z.to_nat rank)) elem -> Q a st') ->
  runs (ILTypeCreateArray rank elem) Q st.
Proof.
  intros Hrank Hst Hn HQ. unfold ILTypeCreateArray. apply runs_bind, runs_alloc. pose proof sizeof_ILType_pos as Hz.
  replace (Z.to_nat rank) with (Z.to_nat (rank - 1) + 1)%nat in HQ by lia. generalize dependent (Z.to_nat (rank - 1)).
  intros k HQ. set (st1 := mk_sig _ _ _).
  assert (forall m a st2, after n st st2 -> sig_reader st2 = sig_reader st ->
    dims (sig_heap st2) (sig_next st) (sig_next st2) a (repeat (0, 0) (S m)) elem ->
    (forall a' st', after n st st' -> sig_reader st' = sig_reader st ->
       dims (sig_heap st') (sig_next st) (sig_next st') a' (repeat (0, 0) (k + S m)) elem -> Q a' st') ->
    runs (more_dimensions k a) Q st2) as H.
  { clear HQ. induction k as [|k IH]; intros m a st2 H2 Hr2 Hd HQ; simpl; [apply runs_ret; by apply HQ|].
    apply runs_bind, runs_alloc. set (st3 := mk_sig _ _ _). pose proof (after_next _ _ _ H2) as Hn2.
    apply (IH (S m)); [|done| |].
    - eapply after_trans'; [exact H2|]. destruct H2 as [[Hr Hp] _]. split; [split; simpl; [done|by apply next_ok_alloc]|]. split; [apply grows_alloc; lia|done].
    - apply (dims_more _ _ _ _ a); [simpl; split; [lia|apply H2]| |simpl; by rewrite Z.eqb_refl].
      eapply (dims_frame (sig_heap st2)); [|exact Hd]. intros x Hx. simpl. by destruct (Z.eqb_spec x (sig_next st2)); [lia|].
    - intros a' st' Ha' Hr' Hd'. apply HQ; [done|done|]. by rewrite Nat.add_succ_comm. }
  apply (H 0%nat).
  - destruct Hst as [Hr Hp]. split; [split; simpl; [done|by apply next_ok_alloc]|]. split; [by apply grows_alloc|done].
  - done.
  - simpl. split; [split; [lia|apply Hst]|]. exists elem. by rewrite Z.eqb_refl.
  - intros a' st' Ha' Hr' Hd'. by apply HQ.
Qed.

End Run.
