(* ===== verification/SignatureTotal.v ===== *)
(** * The signature parser is total

    Every function of sig_parse.c returns on every block, without a read behind
    it: the recursion goes down a level with every nested type, and the loops
    end with the bytes or with the number of parameters. *)
From Stdlib Require Import ZArith Lia String.
From stdpp Require Import base list option numbers.
From S2P Require Import Prelude Compress Opcodes Cvm JumpMask Scan Coder Types Metadata Signature SignatureRun.

Local Open Scope Z_scope.

Section Total.
Context {PF : Platform} {IT : ImageTokens}.

Lemma token_spec (Q : Z -> SigState -> Prop) st :
  parse_ok st ->
  (forall v m, read_ok m -> (length (data m) <= bytes_left st)%nat -> Q v (mk_sig (sig_heap st) (sig_next st) m)) ->
  runs (uncompress ILMetaUncompressToken) Q st.
Proof.
  intros [Hr Hn] HQ. destruct (uncompress_token_total _ Hr) as (v & m & E & Hm).
  eexists v, _. unfold uncompress. rewrite E. split; [reflexivity|]. apply HQ; [done|by eapply token_shorter].
Qed.

(** *** Lists of modifiers *)

Definition list_ok (n : Z) (st : SigState) (count : nat) (list : Z) : Prop :=
  exists ms, count = length ms /\ chain (sig_heap st) n (sig_next st) list ms 0.

Lemma list_ok_nil n st : list_ok n st 0 0.
Proof. by exists []. Qed.

Lemma list_ok_later n st st' count list :
  list_ok n st count list -> grows (sig_next st) st st' -> list_ok n st' count list.
Proof.
  intros (ms & -> & Hc) [Hn Ht _ _ _]. exists ms. split; [done|]. eapply chain_above; [exact Hn|].
  eapply chain_frame; [|exact Hc]. intros x Hx. apply Ht. lia.
Qed.

Lemma link_ok n count list t (Q : Z -> SigState -> Prop) st :
  list_ok n st count list -> list <> 0 -> 0 < n -> parse_ok st ->
  (forall st', after n st st' -> Q list st') -> runs (link_modifier count list t) Q st.
Proof.
  intros (ms & -> & Hc) Hl Hn Hst HQ. eapply runs_link; try done; [by intros ->|lia|]. intros st' H _ _ _ _. by apply HQ.
Qed.

Lemma create_modifier_chain n count list ms kind info (Q : Z -> SigState -> Prop) st :
  parse_ok st -> 0 < n <= sig_next st -> chain (sig_heap st) n (sig_next st) list ms 0 -> count = length ms ->
  (forall list' st', after n st st' -> sig_reader st' = sig_reader st -> list' <> 0 ->
     chain (sig_heap st') n (sig_next st') list' (ms ++ [(kind, info)]) 0 -> Q list' st') ->
  runs (ILTypeCreateModifier count list kind info) Q st.
Proof.
  intros Hst Hn Hc -> HQ. unfold ILTypeCreateModifier. apply runs_bind, runs_alloc.
  set (x := sig_next st). set (st1 := mk_sig _ _ _). pose proof sizeof_ILType_pos as Hz.
  assert (after n st st1) as H1.
  { split; [split; simpl; [by destruct Hst|apply next_ok_alloc, Hst]|]. split; [apply grows_alloc; lia|done]. }
  assert (chain (sig_heap st1) n (sig_next st) list ms 0) as Hc1.
  { eapply chain_frame; [|exact Hc]. intros y Hy. simpl. by destruct (Z.eqb_spec y x); [lia|]. }
  assert (forall lo, n <= lo <= x -> chain (sig_heap st1) lo (sig_next st1) x [(kind, info)] 0) as Hx.
  { intros lo Hlo. simpl. split; [split; [lia|apply Hst]|]. exists 0. by rewrite Z.eqb_refl. }
  destruct (Z.eqb_spec list 0) as [->|Hl].
  - apply runs_ret. apply HQ; [done|done|lia|]. destruct ms as [|[k i] ms]; [|simpl in Hc; lia]. apply Hx. lia.
  - assert (ms <> []) as Hms by (by intros ->).
    eapply (runs_link n x _ _ ms x); [exact Hc1|done|lia|simpl; lia|lia|by destruct H1|].
    intros st2 H2 Hn2 Hr2 Hc2 Hf. apply HQ; [by eapply after_trans'|by rewrite Hr2|done|].
    rewrite Hn2. eapply chain_app; [exact Hc2| |simpl; lia].
    intros lo Hlo. simpl. split; [split; [lia|apply Hst]|]. exists 0. rewrite Hf by lia. simpl. by rewrite Z.eqb_refl.
Qed.

Lemma create_modifier_ok n count list kind info st :
  parse_ok st -> 0 < n <= sig_next st -> list_ok n st count list ->
  runs (ILTypeCreateModifier count list kind info)
    (fun list' st' => after n st st' /\ list' <> 0 /\ list_ok n st' (S count) list') st.
Proof.
  intros Hst Hn (ms & -> & Hc). eapply create_modifier_chain; [done|done|exact Hc|done|]. intros list' st' H _ Hl Hc'.
  split; [done|]. split; [done|]. exists (ms ++ [(kind, info)]). split; [rewrite length_app; simpl; lia|done].
Qed.

Lemma modifiers_total n fuel categories (value : Z) count list st :
  parse_ok st -> 0 < n <= sig_next st -> list_ok n st count list -> (value <> 0 -> (bytes_left st < fuel)%nat) ->
  runs (parse_modifiers fuel categories value count list)
    (fun r st' => after n st st' /\ match r with Some (_, count', list') => list_ok n st' count' list' | None => True end) st.
Proof.
  revert value count list st. induction fuel as [|fuel IH]; intros value count list st Hst Hn Hl Hf; simpl.
  all: destruct (_ || _) eqn:Ev; [|apply runs_ret; split; [by apply after_refl|done]].
  all: assert (value <> 0) as Hv by (by intros ->); specialize (Hf Hv).
  { lia. }
  destruct (allowed categories CATEGORY_CMOD); simpl; [|apply runs_ret; split; [by apply after_refl|done]].
  apply runs_bind, token_spec; [done|]. intros token m Hm Hlen. set (st1 := mk_sig _ _ _).
  assert (after n st st1) as H1 by (split; [by split; [|destruct Hst]|]; split; [apply grows_reader|done]).
  destruct (ILImageTokenInfo token) as [info|]; [|by apply runs_ret].
  apply runs_bind. eapply runs_mono; [|eapply (create_modifier_ok n count list _ info st1); [by destruct H1|done|done]].
  intros list' st2 (H2 & _ & Hl2). pose proof (after_next _ _ _ H2) as Hn2. simpl in Hn2.
  apply runs_bind, uncompress_data_spec; [by eapply after_ok|]. intros value' st3 H3 Eh En Hb _.
  assert (after n st2 st3) as H3' by (destruct H3 as (P & G & L); split; [done|]; split; [eapply grows_below; [|exact G]; lia|done]).
  assert (after n st st3) as H03 by (eapply after_trans'; [exact H1|]; by eapply after_trans').
  eapply runs_mono; [|apply IH; [by eapply after_ok|rewrite En; lia| |]].
  - intros r st4 [H4 Hr]. split; [|done]. by eapply after_trans'.
  - destruct Hl2 as (ms & Ec & Hc). exists ms. by rewrite Eh, En.
  - intros Hv'. specialize (Hb Hv'). destruct H2 as (_ & _ & L2). change (bytes_left st1) with (length (data m)) in L2. lia.
Qed.

(** *** Combinators *)

Lemma total_around n inner outer :
  total_from n inner -> (forall t, total_from n (outer t)) -> total_from n (parse_around inner outer).
Proof. intros Hi Ho. apply total_bind; [done|]. intros t. case_match; [apply total_ret|apply Ho]. Qed.

(** *** Arrays *)

Definition array_ok (n : Z) (st : SigState) (array : Z) (rank : nat) : Prop :=
  exists ds elem, length ds = rank /\ dims (sig_heap st) n (sig_next st) array ds elem.

Lemma change_dimension n array rank d f g st :
  changes f g -> parse_ok st -> array_ok n st array rank -> (d < rank)%nat ->
  runs (st ← get_sig; change (dimension_of (sig_heap st) d array) f)
    (fun _ st' => after n st st' /\ array_ok n st' array rank) st.
Proof.
  intros Hf Hst (ds & elem & <- & Hd) Hlt. pose proof (dims_address _ _ _ _ _ _ _ Hd Hlt) as Ha.
  apply runs_bind, runs_get, runs_change. split.
  - split; [by destruct Hst|]. split; [apply grows_store; lia|done].
  - exists (alter g d ds), elem. split; [by rewrite length_alter|]. by apply dims_change.
Qed.

Lemma dimensions_total n array rank f num dim st :
  (forall d v st, parse_ok st -> n <= sig_next st -> array_ok n st array rank -> (d < rank)%nat ->
     runs (f d v) (fun _ st' => after n st st' /\ array_ok n st' array rank) st) ->
  parse_ok st -> n <= sig_next st -> array_ok n st array rank -> (dim + num <= rank)%nat ->
  runs (each_dimension f num dim) (fun _ st' => after n st st' /\ array_ok n st' array rank) st.
Proof.
  intros Hf. revert dim st. induction num as [|num IH]; intros dim st Hst Hn Ha Hd; simpl.
  { apply runs_ret. split; [by apply after_refl|done]. }
  destruct Hst as [Hr Hp]. apply runs_bind. destruct (uncompress_int_total _ Hr) as (v & m & E & Hm & _).
  eexists v, _. unfold uncompress. rewrite E. split; [reflexivity|]. set (st1 := mk_sig _ _ _).
  assert (after n st st1) as H1 by (split; [done|]; split; [apply grows_reader|by eapply int_shorter]).
  apply runs_bind. eapply runs_mono; [|apply (Hf dim v st1); [done|done|done|lia]]. intros ok st2 [H2 Ha2].
  pose proof (after_next _ _ _ H2) as Hn2. simpl in Hn2. assert (after n st st2) as H02 by (by eapply after_trans').
  destruct ok; [|by apply runs_ret].
  eapply runs_mono; [|apply IH; [by eapply after_ok|lia|done|lia]]. intros ok st3 [H3 Ha3]. split; [by eapply after_trans'|done].
Qed.

Lemma changes_size v : changes (set_size v) (fun p => (v, snd p)).
Proof. by intros kind elem size low. Qed.
Lemma changes_low v : changes (set_low_bound v) (fun p => (fst p, v)).
Proof. by intros kind elem size low. Qed.

Lemma sizes_total n array rank d v st :
  parse_ok st -> n <= sig_next st -> array_ok n st array rank -> (d < rank)%nat ->
  runs (parse_size array d v) (fun _ st' => after n st st' /\ array_ok n st' array rank) st.
Proof.
  intros Hst Hn Ha Hd. unfold parse_size. case_match; [apply runs_ret; split; [by apply after_refl|done]|].
  apply runs_bind. eapply runs_mono; [|eapply change_dimension; [apply changes_size|done..]]. intros [] st' H'. by apply runs_ret.
Qed.

Lemma low_bounds_total n array rank d v st :
  parse_ok st -> n <= sig_next st -> array_ok n st array rank -> (d < rank)%nat ->
  runs (parse_low_bound array d v) (fun _ st' => after n st st' /\ array_ok n st' array rank) st.
Proof.
  intros Hst Hn Ha Hd. apply runs_bind.
  eapply runs_mono; [|eapply change_dimension; [apply changes_low|done..]]. intros [] st' H'. by apply runs_ret.
Qed.

(** A read and what follows it, on the state that it leaves. *)
Lemma data_step n {A} (f : Z -> parse A) (Q : A -> SigState -> Prop) st0 st :
  after n st0 st -> n <= sig_next st ->
  (forall v st', after n st0 st' -> sig_heap st' = sig_heap st -> sig_next st' = sig_next st -> 0 <= v -> runs (f v) Q st') ->
  runs (uncompress ILMetaUncompressData ≫= f) Q st.
Proof.
  intros H0 Hn HQ. apply runs_bind, uncompress_data_spec; [by destruct H0|]. intros v st' (P & G & L) Eh En _ Hv.
  apply HQ; [|done..|lia]. eapply after_trans'; [exact H0|]. split; [done|]. split; [by eapply grows_below|done].
Qed.

Lemma total_array_shape n elem : total_from n (ParseArrayShape elem).
Proof.
  intros st Hst Hn. unfold ParseArrayShape. eapply data_step; [by apply after_refl|done|].
  intros rank st1 H1 _ En1 Hrank. destruct (Z.eqb_spec rank 0); [by apply runs_ret|].
  apply runs_bind, (runs_array n); [lia|by eapply after_ok|lia|]. intros array st2 H2 _ Hd.
  assert (after n st st2) as H02 by (by eapply after_trans'). pose proof (after_next _ _ _ H02) as Hn2.
  assert (array_ok n st2 array (Z.to_nat rank)) as Ha2.
  { exists (repeat (0, 0) (Z.to_nat rank)), elem. split; [apply repeat_length|].
    eapply dims_below; [|exact Hd]. lia. }
  eapply data_step; [exact H02|lia|]. intros numSizes st3 H3 Eh3 En3 _.
  destruct (Z.ltb_spec rank numSizes); [by apply runs_ret|].
  apply runs_bind. eapply runs_mono; [|eapply (dimensions_total n array (Z.to_nat rank) _ _ 0);
    [by apply sizes_total|by eapply after_ok|lia|unfold array_ok; by rewrite Eh3, En3|lia]].
  intros ok st4 [H4 Ha4]. assert (after n st st4) as H04 by (by eapply after_trans').
  destruct ok; simpl; [|by apply runs_ret].
  pose proof (after_next _ _ _ H04) as Hn4. eapply data_step; [exact H04|lia|]. intros numLow st5 H5 Eh5 En5 _.
  destruct (Z.ltb_spec rank numLow); [by apply runs_ret|].
  apply runs_bind. eapply runs_mono; [|eapply (dimensions_total n array (Z.to_nat rank) _ _ 0);
    [by apply low_bounds_total|by eapply after_ok|lia|unfold array_ok; by rewrite Eh5, En5|lia]].
  intros ok' st6 [H6 _]. apply runs_ret. by eapply after_trans'.
Qed.

(** *** Types *)

Lemma total_get_alloc {B} n (o : SigState -> ILType_object) (f : Z -> parse B) :
  (forall a, n <= a -> 0 < a -> total_from n (f a)) -> total_from n ((st ← get_sig; alloc (o st)) ≫= f).
Proof. intros Hf st Hst Hn. by apply (total_alloc n (o st) f Hf st). Qed.

(** The steps that may be run anywhere. *)
Ltac tot_step :=
  lazymatch goal with
  | |- total_from _ (if ?b then _ else _) => destruct b eqn:?
  | |- total_from _ (match ?x with _ => _ end) => destruct x eqn:?
  | |- total_from _ (mret _) => apply total_ret
  | |- total_from _ (get_sig ≫= _) => apply total_get; intros ?
  | |- total_from _ ((get_sig ≫= fun _ => alloc _) ≫= _) => apply total_get_alloc; intros ? ? ?
  | |- total_from _ (alloc _ ≫= _) => apply total_alloc; intros ? ? ?
  | |- total_from _ (alloc _) => apply total_alloc_last
  | |- total_from _ (change _ _) => apply total_change; lia
  | |- total_from _ (uncompress ILMetaUncompressData) => apply total_data
  | |- total_from _ (uncompress ILMetaUncompressToken) => apply total_token
  | |- total_from _ (next_is _) => apply total_next_is
  | |- total_from _ raw_byte => apply total_raw_byte
  | |- total_from _ (parse_around _ _) => apply total_around; [|intros ?]
  | |- total_from _ (ParseArrayShape _) => apply total_array_shape
  | |- total_from _ (_ ≫= _) => apply total_bind; [|intros ?]
  end.
Ltac tot := repeat tot_step; try done.

Lemma total_add_param n method t : n <= method -> total_from n (ILTypeAddParam method t).
Proof. intros Hm. unfold ILTypeAddParam. tot. Qed.

Lemma total_add_sentinel n method : n <= method -> total_from n (ILTypeAddSentinel method).
Proof. intros Hm. unfold ILTypeAddSentinel. tot. by apply total_add_param. Qed.

Lemma total_create_array n elem : total_from n (ILTypeCreateArray 1 elem).
Proof. unfold ILTypeCreateArray. tot. apply (total_ret (A := Z)). Qed.

Lemma total_with_params n inner type k : total_from n inner -> n <= type -> total_from n (parse_with_params inner type k).
Proof.
  intros Hi Ht. induction k as [|k IH]; simpl; tot. by apply total_add_param.
Qed.

Lemma total_with n inner : total_from n inner -> total_from n (parse_with inner).
Proof. intros Hi. unfold parse_with, ILTypeCreateWith. tot. by apply total_with_params. Qed.

Lemma total_property_params n inner type k :
  total_from n inner -> n <= type -> total_from n (parse_property_params inner type k).
Proof. intros Hi Ht. induction k as [|k IH]; simpl; tot. by apply total_add_param. Qed.

(** A sentinel that is there can be skipped. *)
Lemma runs_sentinel n byte (Q : bool -> SigState -> Prop) st :
  parse_ok st -> n <= sig_next st ->
  (forall b, (b = true -> runs skip_byte (fun _ st' => after n st st') st) -> Q b st) -> runs (next_is byte) Q st.
Proof.
  intros Hst Hn HQ. unfold runs, next_is. destruct (1 <=? len (sig_reader st)) eqn:E.
  - apply Z.leb_le in E. destruct (byte_there _ (po_read _ Hst) ltac:(lia)) as (b & bs & Ed & Hr). rewrite Ed.
    eexists _, _. split; [reflexivity|]. apply HQ. intros _. unfold runs, skip_byte, next_byte. rewrite Ed.
    eexists _, _. split; [reflexivity|]. split; [by split; [|destruct Hst]|]. split; [apply grows_reader|].
    unfold bytes_left. rewrite Ed. simpl. lia.
  - eexists _, _. split; [reflexivity|]. by apply HQ.
Qed.

Lemma total_params n fuel inner numParams type param saw :
  total_from n inner -> n <= type -> numParams - param + (if saw : bool then 0 else 1) <= Z.of_nat fuel ->
  total_from n (parse_params fuel inner numParams type param saw).
Proof.
  intros Hi Ht. revert param saw. induction fuel as [|fuel IH]; intros param saw Hf st Hst Hn; simpl.
  all: destruct (Z.ltb_spec param numParams); [|apply runs_ret; by apply after_refl].
  { destruct saw; lia. }
  apply runs_bind. apply (runs_sentinel n); [done|done|]. intros b Hskip. destruct b.
  - destruct saw; simpl; [apply runs_ret; by apply after_refl|]. case_match; [apply runs_ret; by apply after_refl|].
    apply runs_bind. eapply runs_mono; [|by apply Hskip]. intros [] st1 H1. pose proof (after_next _ _ _ H1).
    eapply total_run; [apply total_bind; [by apply total_add_sentinel|intros []; apply IH; lia]|by eapply after_ok|lia|].
    intros r st2. by apply after_trans'.
  - eapply total_run; [|exact Hst|exact Hn|by intros]. tot; [by apply total_add_param|]. apply IH. destruct saw; lia.
Qed.

Lemma total_finish_method n inner type sigKind numGen numParams :
  total_from n inner -> n <= type -> total_from n (finish_method inner type sigKind numGen numParams).
Proof.
  intros Hi Ht. unfold finish_method, ILTypeSetCallConv. tot. apply total_params; [done|done|]. lia.
Qed.

(** *** The recursion *)

Definition total_deeper (rec : Deeper) : Prop :=
  match rec with Some (elem, signature) => (forall categories, total (elem categories)) /\ total signature | None => True end.

Lemma total_deeper_type n rec categories outer :
  total_deeper rec -> (forall t, total_from n (outer t)) -> total_from n (deeper rec categories outer).
Proof.
  intros Hr Ho. destruct rec as [[elem signature]|]; simpl; [|apply total_ret]. destruct Hr as [He _].
  apply total_around; [apply He|done].
Qed.

Lemma total_element n rec categories value : total_deeper rec -> total_from n (parse_element rec categories value).
Proof.
  intros Hr. unfold parse_element, system_type, parse_value_type, parse_class, parse_var, ILTypeCreateVarNum, ILTypeCreateRef.
  repeat first [apply total_deeper_type; [done|intros ?] | apply total_create_array | tot_step].
  - by apply Hr.
  - apply total_with. by apply Hr.
Qed.

Lemma total_at_next {A} (m : parse A) :
  (forall st, parse_ok st -> runs m (fun _ st' => after (sig_next st) st st') st) -> total m.
Proof.
  intros Hm n st Hst Hn. eapply runs_mono; [|by apply Hm]. intros a st' (P & G & L).
  split; [done|]. split; [by eapply grows_below|done].
Qed.

Lemma total_elem_type rec categories : total_deeper rec -> total (parse_elem_type rec categories).
Proof.
  intros Hr. apply total_at_next. intros st Hst. pose proof (proj1 (po_next _ Hst)) as Hp. set (n := sig_next st) in *.
  assert (n <= sig_next st) as Hn by done. apply runs_bind, uncompress_data_spec; [done|]. intros value st1 (P1 & G1 & L1) Eh En _ _.
  assert (after n st st1) as H1 by (split; [done|]; split; [by eapply grows_below|done]).
  apply runs_bind, runs_get, runs_bind.
  eapply runs_mono; [|apply (modifiers_total n _ _ _ 0 0 st1); [done|lia|apply list_ok_nil|unfold bytes_left; lia]].
  intros r st2 [H2 Hl]. assert (after n st st2) as H02 by (by eapply after_trans').
  destruct r as [[[value' count] modifiers]|]; [|by apply runs_ret]. pose proof (after_next _ _ _ H02) as Hn2.
  apply runs_bind. eapply total_run; [apply (total_element (sig_next st2)); done|by eapply after_ok|lia|].
  intros type st3 (P3 & G3 & L3).
  assert (after n st st3) as H03.
  { eapply after_trans'; [exact H02|]. split; [done|]. split; [eapply grows_below; [|exact G3]; lia|done]. }
  destruct (_ && _) eqn:E; [|by apply runs_ret]. apply andb_true_iff in E as [_ Em].
  eapply (link_ok n); [by eapply list_ok_later|by intros ->|lia|done|]. intros st4 H4. by eapply after_trans'.
Qed.

Lemma total_signature n rec : total_deeper rec -> total_from n (parse_signature rec).
Proof.
  intros Hr. unfold parse_signature, parse_method, parse_property, ILTypeCreateMethod, ILTypeCreateProperty.
  tot; try (by apply total_property_params; [apply Hr|]); try (by apply total_finish_method; [apply Hr|]);
    by apply Hr.
Qed.

Lemma total_parsers d : (forall categories, total (ParseElemType d categories)) /\ total (ParseSignature d).
Proof.
  induction d as [|d [IHt IHs]]; (split; [intros categories; apply total_elem_type|intros n; apply total_signature]); done.
Qed.

#[local] Opaque ParseElemType ParseSignature.

(** *** Local variables *)

Lemma total_skip_pinned n fuel pinned st :
  parse_ok st -> n <= sig_next st -> (bytes_left st <= fuel)%nat ->
  runs (skip_pinned fuel pinned) (fun _ st' => after n st st') st.
Proof.
  revert pinned st. induction fuel as [|fuel IH]; intros pinned st Hst Hn Hf; simpl; apply runs_bind; unfold runs, next_is.
  all: destruct (1 <=? len (sig_reader st)) eqn:E;
    [apply Z.leb_le in E; destruct (byte_there _ (po_read _ Hst) ltac:(lia)) as (b & bs & Ed & Hr); rewrite Ed|].
  1: unfold bytes_left in Hf; rewrite Ed in Hf; simpl in Hf; lia.
  all: eexists _, _; split; [reflexivity|].
  1: apply runs_ret; by apply after_refl.
  2: apply runs_ret; by apply after_refl.
  destruct (b =? IL_META_ELEMTYPE_PINNED); [|apply runs_ret; by apply after_refl].
  apply runs_bind. unfold runs, skip_byte, next_byte. rewrite Ed. eexists _, _. split; [reflexivity|]. set (st1 := mk_sig _ _ _).
  assert (bytes_left st = S (bytes_left st1)) as El by (unfold bytes_left; by rewrite Ed).
  assert (after n st st1) as H1 by (split; [by split; [|destruct Hst]|]; split; [apply grows_reader|lia]).
  eapply runs_mono; [|apply IH; [by destruct H1|done|lia]]. intros r st2. by apply after_trans'.
Qed.

Lemma total_locals n locals k : n <= locals -> total_from n (parse_locals locals k).
Proof.
  intros Hl. induction k as [|k IH]; simpl; [apply total_ret|]. intros st Hst Hn. apply runs_bind, runs_get, runs_bind.
  eapply runs_mono; [|apply (total_skip_pinned n); [done|done|done]]. intros pinned st1 H1. pose proof (after_next _ _ _ H1).
  cbn beta in H1. eapply (total_run n); [|by eapply after_ok|lia|intros r st2; by apply after_trans'].
  apply total_around; [apply total_parsers|]. intros t. unfold ILTypeCreateRef, ILTypeAddLocal. tot.
Qed.

Lemma total_checked ok r : total (checked ok r).
Proof. intros n. unfold checked. tot. Qed.

Lemma total_with_reader {A} blob blobLen (m : parse A) st :
  total m -> Forall is_byte blob -> 0 <= blobLen <= IL_MAX_UINT32 -> blobLen <= Z.of_nat (length blob) -> next_ok (sig_next st) ->
  runs (with_reader blob blobLen m) (fun _ st' => grows (sig_next st) st st') st.
Proof.
  intros Hm Hb Hl Hl' Hn. set (st1 := mk_sig (sig_heap st) (sig_next st) (mk_read blob blobLen false)).
  destruct (Hm (sig_next st1) st1) as (a & st' & E & _ & [G1 G2 G3 G4 G5] & _); [by split; [split|]|done|]. exists a, st'.
  split; [exact E|]. by split.
Qed.

(** C15: The parsers of signatures read safely.  On any bytes and for any length
    within them, each of the seven functions that make a type of a blob returns,
    has not read behind the blob, and has left all types as they were. *)
Theorem signatures_read_safely blob blobLen st :
  Forall is_byte blob -> 0 <= blobLen <= IL_MAX_UINT32 -> blobLen <= Z.of_nat (length blob) -> next_ok (sig_next st) ->
  Forall (fun parser : list Z -> Z -> parse Z =>
    exists type st', parser blob blobLen st = Some (type, st') /\
      forall a, a < sig_next st -> type_at (sig_heap st') a = type_at (sig_heap st) a)
    [ILTypeFromMethodDefSig; ILTypeFromMethodRefSig; ILTypeFromStandAloneMethodSig; ILTypeFromFieldSig;
     ILTypeFromPropertySig; ILTypeFromTypeSpec; ILTypeFromLocalVarSig].
Proof.
  intros Hb Hl Hl' Hn.
  assert (forall m : parse Z, total m -> exists type st', with_reader blob blobLen m st = Some (type, st') /\
    forall a, a < sig_next st -> type_at (sig_heap st') a = type_at (sig_heap st) a) as H.
  { intros m Hm. destruct (total_with_reader blob blobLen m st Hm Hb Hl Hl' Hn) as (type & st' & E & G).
    exists type, st'. split; [done|]. apply G. }
  destruct (total_parsers IL_TYPE_RECURSION_DEPTH) as [Ht Hs].
  repeat constructor; apply H; intros n; try (apply total_bind; [apply Hs|intros r; apply total_checked]).
  - tot. apply Ht.
  - tot. apply Ht.
  - unfold failed_read, ILTypeCreateLocalList. tot. by apply total_locals.
Qed.

End Total.
