(* ===== verification/SignatureTree.v ===== *)
(** * What signatures stand for

    Types as trees, apart from the objects in memory: [denotes] says that a
    type pointer stands for a tree, [encode] is the signature of a tree as
    ECMA-335 has it, and [parsable] are the trees that the parser takes, with
    what it allows where ([CATEGORY_...]), its depth and the ranges of numbers.
    The writer outputs the signature of the tree. *)
From Stdlib Require Import ZArith Lia String.
From stdpp Require Import base list option numbers.
From S2P Require Import Prelude Compress Opcodes Cvm JumpMask Scan Coder Types Metadata Signature.

Local Open Scope Z_scope.

(** The class of a leaf or a modifier is one that is not a reference. *)
#[warnings="-register-all"] Inductive sig_type :=
  | S_none
  | S_primitive (elem : Z)
  | S_class (info : Z)
  | S_value (info : Z)
  | S_ref (kind : Z) (t : sig_type)
  | S_array (ds : list (Z * Z)) (t : sig_type)
  | S_modified (kind info : Z) (t : sig_type)
  | S_var (kind num : Z)
  | S_sentinel
  | S_method (conv ngen : Z) (ret : sig_type) (params : list sig_type)
  | S_with (main : sig_type) (params : list sig_type).

Definition all1 {A} (P : A -> Prop) : list A -> Prop :=
  fix go l := match l with [] => True | a :: l => P a /\ go l end.
Definition all2 {A B} (R : A -> B -> Prop) : list A -> list B -> Prop :=
  fix go l k := match l, k with
  | [], [] => True
  | a :: l, b :: k => R a b /\ go l k
  | _, _ => False
  end.

Lemma all1_Forall {A} (P : A -> Prop) l : all1 P l <-> Forall P l.
Proof. induction l as [|a l IH]; simpl; [by split|]. split; [intros [Ha Hl]; constructor; [done|by apply IH]|intros H; inversion H; subst; split; [done|by apply IH]]. Qed.

Lemma all2_Forall2 {A B} (R : A -> B -> Prop) l k : all2 R l k <-> Forall2 R l k.
Proof.
  revert k. induction l as [|a l IH]; intros [|b k]; simpl.
  - by split; [constructor|].
  - split; [done|intros H; inversion H].
  - split; [done|intros H; inversion H].
  - rewrite IH. split; [by intros []; constructor|intros H; by inversion H].
Qed.

Fixpoint sig_size (s : sig_type) : nat :=
  match s with
  | S_none | S_primitive _ | S_class _ | S_value _ | S_var _ _ | S_sentinel => 1
  | S_ref _ t | S_modified _ _ t => S (sig_size t)
  | S_array ds t => S (length ds + sig_size t)
  | S_method _ _ ret params => S (sig_size ret + foldr (fun p n => (sig_size p + n)%nat) 0%nat params)
  | S_with main params => S (sig_size main + foldr (fun p n => (sig_size p + n)%nat) 0%nat params)
  end.

Definition params_size (params : list sig_type) : nat := foldr (fun p n => (sig_size p + n)%nat) 0%nat params.

Lemma params_size_in p params : p ∈ params -> (sig_size p <= params_size params)%nat.
Proof.
  unfold params_size. induction params as [|q params IH]; [by intros ?%elem_of_nil|].
  intros [->|H]%elem_of_cons; simpl; [lia|]. apply IH in H. lia.
Qed.

Definition is_sentinel (s : sig_type) : bool := match s with S_sentinel => true | _ => false end.
Definition has_sentinel (params : list sig_type) : bool := existsb is_sentinel params.

(** [kind__] of a method. *)
Definition method_kind_of (conv : Z) (params : list sig_type) : Z :=
  IL_TYPE_COMPLEX_METHOD + (if has_sentinel params then IL_TYPE_COMPLEX_METHOD_SENTINEL else 0) + 0x100 * conv.

Section Tree.
Context {IT : ImageTokens}.
Variables (h : Heap) (depth : nat).

(** ** Types in memory *)

(** The class [i] is [c], or a reference to it, which has its name. *)
Definition refers (i c : Z) : Prop :=
  Metadata.ILClassResolve h depth i = Some c /\ forall name, is_system h i name = is_system h c name.

(** A pointer to an object in [P]. *)
Definition is_object (P : Z -> Prop) (t : Z) : Prop := t <> 0 /\ ILType_IsComplex t = true /\ P t.

(** The dimensions of an array, and the type of the elements. *)
Fixpoint array_dims (types : Z -> ILType_object) (P : Z -> Prop) (t : Z) (ds : list (Z * Z)) (elem : Z) : Prop :=
  match ds with
  | [] => t = elem
  | (size, low) :: ds =>
    is_object P t /\
    o_kind (types t) = (match ds with [] => IL_TYPE_COMPLEX_ARRAY | _ => IL_TYPE_COMPLEX_ARRAY_CONTINUE end) /\
    o_size (types t) = size /\ o_low (types t) = low /\ array_dims types P (o_elem (types t)) ds elem
  end.

(** The type [t] stands for the tree, with objects in [P] only. *)
Fixpoint denotes (types : Z -> ILType_object) (P : Z -> Prop) (s : sig_type) (t : Z) : Prop :=
  let o := types t in
  match s with
  | S_none => t = 0
  | S_primitive elem => t = ILType_FromElement elem /\ 0 <= elem < 0x100
  | S_class c => ILType_IsClass t = true /\ refers (ILType_ToClass t) c
  | S_value c => ILType_IsValueType t = true /\ refers (ILType_ToValueType t) c
  | S_ref kind u => is_object P t /\ o_kind o = kind /\ ref_kind kind = true /\ denotes types P u (o_ref o)
  | S_array ds u => ds <> [] /\ Z.of_nat (length ds) <= IL_MAX_UINT32 /\
      exists elem, array_dims types P t ds elem /\ denotes types P u elem
  | S_modified kind c u => is_object P t /\ o_kind o = kind /\
      (kind = IL_TYPE_COMPLEX_CMOD_REQD \/ kind = IL_TYPE_COMPLEX_CMOD_OPT) /\
      refers (o_info o) c /\ denotes types P u (o_mod_type o)
  | S_var kind num => is_object P t /\ o_kind o = kind /\ generic_var_kind kind = true /\ o_varnum o = num
  | S_sentinel => is_object P t /\ o_kind o = IL_TYPE_COMPLEX_SENTINEL
  | S_method conv ngen ret params => is_object P t /\ 0 <= conv < 0x80 /\ o_kind o = method_kind_of conv params /\
      o_num o = Z.of_nat (length params) /\ Z.of_nat (length params) <= 0xFFFF /\ o_gparams o = ngen /\ 0 <= ngen <= IL_MAX_UINT32 /\
      denotes types P ret (o_ret o) /\ all2 (denotes types P) params (o_params o)
  | S_with main params => is_object P t /\ o_kind o = IL_TYPE_COMPLEX_WITH /\
      o_num o = Z.of_nat (length params) /\ Z.of_nat (length params) <= 0xFFFF /\
      denotes types P main (o_ret o) /\ all2 (denotes types P) params (o_params o)
  end.

(** ** Signatures *)

Definition token_bytes (c : Z) : list Z := ILMetaCompressToken (ILClass_Token (import_of c)).
Definition class_bytes (c : Z) : list Z :=
  if is_system h c "Object" then [IL_META_ELEMTYPE_OBJECT]
  else if is_system h c "String" then [IL_META_ELEMTYPE_STRING]
  else IL_META_ELEMTYPE_CLASS :: token_bytes c.
Definition value_bytes (c : Z) : list Z :=
  if is_system h c "TypedReference" then [IL_META_ELEMTYPE_TYPEDBYREF] else IL_META_ELEMTYPE_VALUETYPE :: token_bytes c.

Definition ref_byte (kind : Z) : Z :=
  if kind =? IL_TYPE_COMPLEX_BYREF then IL_META_ELEMTYPE_BYREF
  else if kind =? IL_TYPE_COMPLEX_PTR then IL_META_ELEMTYPE_PTR else IL_META_ELEMTYPE_PINNED.
Definition modifier_byte (kind : Z) : Z :=
  if kind =? IL_TYPE_COMPLEX_CMOD_REQD then IL_META_ELEMTYPE_CMOD_REQD else IL_META_ELEMTYPE_CMOD_OPT.
Definition var_byte (kind : Z) : Z :=
  if kind =? IL_TYPE_COMPLEX_MVAR then IL_META_ELEMTYPE_MVAR else IL_META_ELEMTYPE_VAR.

(** The shape of an array: rank, sizes where one is needed, low bounds. *)
Definition needs_sizes (ds : list (Z * Z)) : bool := existsb (fun d => negb (snd d =? 0) || negb (fst d =? 0)) ds.
Definition int_bytes (l : list Z) : list Z := concat (map WriteIntValue l).
Definition shape_bytes (ds : list (Z * Z)) : list Z :=
  let rank := Z.of_nat (length ds) in
  WriteValue rank ++
  (if needs_sizes ds then WriteValue rank ++ int_bytes (map fst ds) else WriteValue 0) ++
  WriteValue rank ++ int_bytes (map snd ds).

Definition array_bytes (ds : list (Z * Z)) (elem : list Z) : list Z :=
  if decide (ds = [(0, 0)]) then IL_META_ELEMTYPE_SZARRAY :: elem
  else IL_META_ELEMTYPE_ARRAY :: elem ++ shape_bytes ds.

Definition instantiation (conv : Z) : bool := Z.land conv IL_META_CALLCONV_MASK =? IL_META_CALLCONV_INSTANTIATION.

(** The count of parameters leaves out the sentinel. *)
Definition method_bytes (conv ngen : Z) (params : list sig_type) (ret : list Z) (rest : list Z) : list Z :=
  [conv] ++ (if negb (Z.land conv IL_META_CALLCONV_GENERIC =? 0) then WriteValue ngen else []) ++
  WriteValue (Z.of_nat (length params) - (if has_sentinel params then 1 else 0)) ++
  (if instantiation conv then [] else ret) ++ rest.

Fixpoint encode (s : sig_type) : list Z :=
  match s with
  | S_none => []
  | S_primitive elem => [elem]
  | S_class c => class_bytes c
  | S_value c => value_bytes c
  | S_ref kind t => ref_byte kind :: encode t
  | S_array ds t => array_bytes ds (encode t)
  | S_modified kind c t => modifier_byte kind :: token_bytes c ++ encode t
  | S_var kind num => [var_byte kind; u8 num]
  | S_sentinel => [IL_META_ELEMTYPE_SENTINEL]
  | S_method conv ngen ret params =>
      IL_META_ELEMTYPE_FNPTR :: method_bytes conv ngen params (encode ret) (concat (map encode params))
  | S_with main params => IL_META_ELEMTYPE_WITH :: encode main ++ [u8 (Z.of_nat (length params))] ++ concat (map encode params)
  end.

(** A method at the top has no mark in front. *)
Definition encode_top (methodPtr : bool) (s : sig_type) : list Z :=
  match s with S_method _ _ _ _ => if methodPtr then encode s else tail (encode s) | _ => encode s end.

(** ** What the parser takes *)

(** A pointer to a class. *)
Definition is_class (c : Z) : Prop := c <> 0 /\ Z.land c 3 = 0.

(** The token of the class in this image finds it again. *)
Definition token_found (c : Z) : Prop :=
  exists cls id, ILClass_Token (import_of c) = cls + id /\ compressible cls /\ 0 < id < 0x1000000 /\
    ILImageTokenInfo (cls + id) = Some (import_of c) /\ is_class (import_of c) /\
    refers (import_of c) c.

Definition system_found (c : Z) (name : string) : Prop :=
  exists o, system_class h name = Some o /\ is_class o /\ refers o c.

Definition class_found (c : Z) : Prop :=
  if is_system h c "Object" then system_found c "Object"
  else if is_system h c "String" then system_found c "String" else token_found c.

(** A value type that is a type of its own. *)
Definition value_found (c : Z) : Prop := is_system h c "TypedReference" = false /\ token_found c.

(** Value types of primitive types do not come as parameters and results. *)
Definition param_fine (s : sig_type) : Prop :=
  match s with S_value c => ILClassToPrimitiveType h (import_of c) = 0 | _ => True end.

Definition fits_28 (z : Z) : Prop := -0x10000000 <= z < 0x10000000.

(** At most one sentinel, and it stands in front of a parameter. *)
Fixpoint sentinels_ok (saw : bool) (params : list sig_type) : Prop :=
  match params with
  | [] => True
  | p :: params =>
    if is_sentinel p then saw = false /\ params <> [] /\ sentinels_ok true params else sentinels_ok saw params
  end.

(** Sentinels are for conventions that have variable arguments. *)
Definition sentinel_fine (conv : Z) (params : list sig_type) : Prop :=
  sentinels_ok false params /\
  (has_sentinel params = true ->
   Z.land conv IL_META_CALLCONV_MASK = IL_META_CALLCONV_VARARG \/ Z.land conv IL_META_CALLCONV_MASK = IL_META_CALLCONV_C).

Fixpoint parsable (depth : nat) (categories : Z) (s : sig_type) : Prop :=
  let deep (P : nat -> Prop) := match depth with O => False | S d => P d end in
  match s with
  | S_none | S_sentinel => False
  | S_primitive elem =>
      if elem =? IL_META_ELEMTYPE_VOID then allowed categories CATEGORY_VOID = true
      else if elem =? IL_META_ELEMTYPE_TYPEDBYREF then allowed categories CATEGORY_TYPEDBYREF = true
      else existsb (Z.eqb elem) simple_elements = true
  | S_class c => class_found c
  | S_value c => value_found c
  | S_ref kind t => deep (fun d =>
      kind = IL_TYPE_COMPLEX_PTR /\ parsable d (Z.lor CATEGORY_CMOD CATEGORY_VOID) t \/
      kind = IL_TYPE_COMPLEX_BYREF /\ allowed categories CATEGORY_BYREF = true /\
        parsable d (Z.land categories (Z.lnot CATEGORY_BYREF)) t \/
      kind = IL_TYPE_COMPLEX_PINNED /\ allowed categories CATEGORY_PINNED = true /\ parsable d categories t)
  | S_array ds t => deep (fun d =>
      ds <> [] /\ Z.of_nat (length ds) <= IL_MAX_UINT32 /\
      Forall (fun p => 0 <= fst p < 0x10000000 /\ fits_28 (snd p)) ds /\
      parsable d (if decide (ds = [(0, 0)]) then CATEGORY_CMOD else 0) t)
  | S_modified kind c t =>
      (kind = IL_TYPE_COMPLEX_CMOD_REQD \/ kind = IL_TYPE_COMPLEX_CMOD_OPT) /\
      allowed categories CATEGORY_CMOD = true /\ token_found c /\ parsable depth categories t
  | S_var kind num => generic_var_kind kind = true /\ 0 <= num < 0x100
  | S_method conv ngen ret params =>
      deep (fun d => match d with O => False | S d =>
        0 <= conv < 0x80 /\ existsb (Z.eqb (Z.land conv IL_META_CALLCONV_MASK)) method_conventions = true /\
        (if Z.land conv IL_META_CALLCONV_GENERIC =? 0 then ngen = 0 else 0 <= ngen <= 0xFF) /\
        Z.of_nat (length params) <= 0xFFFF /\ sentinel_fine conv params /\
        (if instantiation conv then ret = S_none
         else param_fine ret /\ parsable d (Z.lor CATEGORY_PARAM CATEGORY_VOID) ret) /\
        all1 (fun p => is_sentinel p = true \/ param_fine p /\ parsable d CATEGORY_PARAM p) params end)
  | S_with main params => deep (fun d =>
      Z.of_nat (length params) <= 0xFF /\ parsable d categories main /\
      all1 (fun p => param_fine p /\ parsable d categories p) params)
  end.

(** A signature of a method. *)
Definition method_parsable (depth : nat) (conv ngen : Z) (ret : sig_type) (params : list sig_type) : Prop :=
  parsable (S depth) 0 (S_method conv ngen ret params).

End Tree.
