(* ===== verification/SignatureWrite.v ===== *)
(** * The writer outputs the signature of the tree

    [WriteType] follows the objects of a type and writes what [encode] says for
    the tree that the type stands for (SignatureTree.v), whatever objects
    represent it. *)
From Stdlib Require Import ZArith Lia String.
From stdpp Require Import base list option numbers.
From S2P Require Import Prelude Compress Opcodes Cvm JumpMask Scan Coder Types Metadata Signature SignatureTree.

Local Open Scope Z_scope.

Lemma then_write_some a b x y : a = Some x -> b = Some y -> then_write a b = Some (x ++ y).
Proof. by intros -> ->. Qed.

(** ** Type pointers by their tag *)

Lemma complex_tags t : ILType_IsComplex t = true ->
  ILType_IsPrimitive t = false /\ ILType_IsClass t = false /\ ILType_IsValueType t = false.
Proof.
  unfold ILType_IsComplex, ILType_IsPrimitive, ILType_IsClass, ILType_IsValueType. intros H%Z.eqb_eq. by rewrite H.
Qed.

Lemma value_tags t : ILType_IsValueType t = true -> ILType_IsPrimitive t = false /\ ILType_IsClass t = false.
Proof. unfold ILType_IsPrimitive, ILType_IsClass, ILType_IsValueType. intros H%Z.eqb_eq. by rewrite H. Qed.

Lemma class_tags t : ILType_IsClass t = true -> ILType_IsPrimitive t = false.
Proof. unfold ILType_IsPrimitive, ILType_IsClass. intros H%Z.eqb_eq. by rewrite H. Qed.

Lemma element_tag elem : 0 <= elem ->
  ILType_IsPrimitive (ILType_FromElement elem) = true /\ ILType_ToElement (ILType_FromElement elem) = elem /\
  ILType_FromElement elem = 4 * elem + 1.
Proof.
  intros He. assert (ILType_FromElement elem = 4 * elem + 1) as E.
  { unfold ILType_FromElement. rewrite lor_shiftl_add by lia. lia. }
  rewrite E. unfold ILType_IsPrimitive, ILType_ToElement. rewrite land_3, Z.shiftr_div_pow2 by lia. split; [|split; [|done]].
  - apply Z.eqb_eq. width_lia.
  - width_lia.
Qed.

(** ** Method kinds *)

Definition base_kind (params : list sig_type) : Z :=
  IL_TYPE_COMPLEX_METHOD + (if has_sentinel params then IL_TYPE_COMPLEX_METHOD_SENTINEL else 0).

Lemma base_kind_cases params : base_kind params = (if has_sentinel params then 17 else 16).
Proof. unfold base_kind. by destruct has_sentinel. Qed.

Lemma method_kind_low conv params : 0 <= conv < 0x80 ->
  Z.land (method_kind_of conv params) 0xFF = base_kind params.
Proof.
  intros Hc. unfold method_kind_of. change 0xFF with (Z.ones 8). rewrite Z.land_ones by lia.
  pose proof (base_kind_cases params). change (IL_TYPE_COMPLEX_METHOD + _) with (base_kind params) at 1. destruct has_sentinel; width_lia.
Qed.

Lemma method_kind_conv conv params : 0 <= conv < 0x80 -> ILType_CallConv (method_kind_of conv params) = conv.
Proof.
  intros Hc. unfold ILType_CallConv, method_kind_of. rewrite Z.shiftr_div_pow2 by lia.
  pose proof (base_kind_cases params). change (IL_TYPE_COMPLEX_METHOD + _) with (base_kind params). destruct has_sentinel; width_lia.
Qed.

Lemma method_kind_shift conv params : 0 <= conv < 0x80 -> Z.shiftr (method_kind_of conv params) 8 = conv.
Proof.
  intros Hc. rewrite <- (method_kind_conv conv params Hc) at 2. unfold ILType_CallConv. symmetry. apply u32_id.
  pose proof (base_kind_cases params) as Ek. unfold method_kind_of. unfold base_kind in Ek. rewrite Ek, Z.shiftr_div_pow2 by lia.
  destruct (has_sentinel params); unfold IL_MAX_UINT32; width_lia.
Qed.

Lemma method_kind_sentinel conv params : 0 <= conv < 0x80 ->
  Z.land (method_kind_of conv params) IL_TYPE_COMPLEX_METHOD_SENTINEL = if has_sentinel params then 1 else 0.
Proof.
  intros Hc. change IL_TYPE_COMPLEX_METHOD_SENTINEL with (Z.ones 1). rewrite Z.land_ones by lia. unfold method_kind_of.
  pose proof (base_kind_cases params). change (IL_TYPE_COMPLEX_METHOD + _) with (base_kind params). destruct has_sentinel; width_lia.
Qed.

Section Write.
Context {IT : ImageTokens}.
Variables (h : Heap) (depth : nat).

(** ** Arrays *)

Lemma array_dims_rank P t ds elem fuel rank needed :
  array_dims (type_at h) P t ds elem -> ds <> [] -> (length ds <= S fuel)%nat -> 0 <= rank ->
  rank + Z.of_nat (length ds) <= IL_MAX_UINT32 ->
  array_rank h fuel rank needed t = Some (rank + Z.of_nat (length ds), needed || needs_sizes ds, elem).
Proof.
  revert t fuel rank needed. induction ds as [|[size low] ds IH]; intros t fuel rank needed; [done|].
  simpl. intros ((Ht & Hc & _) & Ek & Es & El & Hd) _ Hf Hr Hm.
  assert (array_rank h fuel rank needed t =
    match ds with
    | [] => Some (u32 (rank + 1), needed || needs_size h t, o_elem (type_at h t))
    | _ => match fuel with O => None | S fuel => array_rank h fuel (u32 (rank + 1)) (needed || needs_size h t) (o_elem (type_at h t)) end
    end) as ->.
  { destruct fuel; simpl; unfold t_kind; rewrite Hc, Ek; by destruct ds. }
  assert (needs_size h t = negb (low =? 0) || negb (size =? 0)) as En by (unfold needs_size; by rewrite Es, El).
  replace (u32 (rank + 1)) with (rank + 1) by width_lia.
  destruct ds as [|d ds].
  - simpl in Hd. rewrite En, Hd. simpl. by rewrite orb_false_r.
  - destruct fuel as [|fuel]; [simpl in Hf; lia|].
    rewrite (IH _ fuel (rank + 1)); [|done|done|simpl in *; lia|lia|simpl in *; lia].
    rewrite En. f_equal. f_equal. f_equal; [simpl; lia|]. unfold needs_sizes. simpl. by rewrite !orb_assoc.
Qed.

Lemma array_dims_values P t ds elem value f :
  array_dims (type_at h) P t ds elem -> (forall o, value o = f (o_size o, o_low o)) ->
  write_dimensions h value (length ds) t = int_bytes (map f ds).
Proof.
  intros H Hv. revert t H. induction ds as [|[size low] ds IH]; intros t; simpl; [done|].
  intros ((Ht & Hc & _) & Ek & Es & El & Hd). rewrite Hc, Hv, Es, El.
  replace (array_kind (o_kind (type_at h t))) with true by (rewrite Ek; by destruct ds). simpl. unfold int_bytes. simpl.
  f_equal. by apply IH.
Qed.

Lemma array_dims_head P t ds elem :
  array_dims (type_at h) P t ds elem -> ds <> [] ->
  ILType_IsComplex t = true /\ t <> 0 /\
  o_kind (type_at h t) = (match ds with [_] => IL_TYPE_COMPLEX_ARRAY | _ => IL_TYPE_COMPLEX_ARRAY_CONTINUE end).
Proof. destruct ds as [|[size low] ds]; [done|]. simpl. intros ((Ht & Hc & _) & Ek & _) _. split; [done|]. split; [done|]. by destruct ds. Qed.

(** ** Types *)

Lemma class_token_bytes i c : Metadata.ILClassResolve h depth i = Some c -> WriteClassToken depth h i = Some (token_bytes c).
Proof. intros E. unfold WriteClassToken. by rewrite E. Qed.

Lemma write_class_bytes t c : refers h depth (ILType_ToClass t) c -> write_class depth h t = Some (class_bytes h c).
Proof.
  intros [E En]. unfold write_class, class_bytes. rewrite !En. case_match; [done|]. case_match; [done|].
  by rewrite (class_token_bytes _ _ E).
Qed.

Lemma write_value_bytes t c : refers h depth (ILType_ToValueType t) c -> write_value_type depth h t = Some (value_bytes h c).
Proof.
  intros [E En]. unfold write_value_type, value_bytes. rewrite !En. case_match; [done|]. by rewrite (class_token_bytes _ _ E).
Qed.

Lemma write_params (f : Z -> option (list Z)) P params ts :
  all2 (denotes h depth (type_at h) P) params ts -> (forall p t, p ∈ params -> denotes h depth (type_at h) P p t -> f t = Some (encode h p)) ->
  concat_writes (f <$> ts) = Some (concat (map (encode h) params)).
Proof.
  revert ts. induction params as [|p params IH]; intros [|t ts]; simpl; try done. intros [Ht Hts] Hf.
  apply then_write_some; [apply Hf; [by left|done]|]. apply IH; [done|]. intros q u Hq. apply Hf. by right.
Qed.

Lemma all2_length {A B} (R : A -> B -> Prop) l k : all2 R l k -> length l = length k.
Proof. rewrite all2_Forall2. apply Forall2_length. Qed.

Lemma write_method_params (f : Z -> option (list Z)) P params t :
  o_num (type_at h t) = Z.of_nat (length params) -> all2 (denotes h depth (type_at h) P) params (o_params (type_at h t)) ->
  (forall p t, p ∈ params -> denotes h depth (type_at h) P p t -> f t = Some (encode h p)) ->
  WriteMethodParams h f t = Some (concat (map (encode h) params)).
Proof.
  intros En Hp Hf. unfold WriteMethodParams. rewrite En, Nat2Z.id, take_ge by (apply all2_length in Hp; lia).
  by eapply write_params.
Qed.

(** An object of a kind. *)
Lemma write_type_object t : ILType_IsComplex t = true -> t <> 0 ->
  ILType_IsPrimitive t = false /\ ILType_IsClass t = false /\ ILType_IsValueType t = false /\ (t =? 0) = false.
Proof. intros Hc Ht. destruct (complex_tags t Hc) as (-> & -> & ->). by apply Z.eqb_neq in Ht as ->. Qed.

Ltac object H :=
  let Ht := fresh "Ht" in let Hc := fresh "Hc" in
  destruct H as (Ht & Hc & _);
  let H1 := fresh in let H2 := fresh in let H3 := fresh in let H4 := fresh in
  destruct (write_type_object _ Hc Ht) as (H1 & H2 & H3 & H4); cbn [WriteType]; rewrite H1, H2, H3, H4.

Lemma write_array_bytes P W fuel t ds elem b :
  array_dims (type_at h) P t ds elem -> ds <> [] -> (length ds <= S fuel)%nat -> Z.of_nat (length ds) <= IL_MAX_UINT32 ->
  W elem = Some b -> write_array h W fuel t = Some (IL_META_ELEMTYPE_ARRAY :: b ++ shape_bytes ds).
Proof.
  intros Hd Hne Hf Hl Hb. unfold write_array. rewrite (array_dims_rank P t ds elem) by (done || lia).
  rewrite Z.add_0_l, orb_false_l. cbn. rewrite Hb. cbn. unfold shape_bytes.
  destruct (needs_sizes ds); rewrite Nat2Z.id, ?(array_dims_values P t ds elem o_low snd), ?(array_dims_values P t ds elem o_size fst) by done;
    rewrite ?app_nil_r; f_equal; f_equal; by rewrite <- ?(assoc_L (++)).
Qed.

Lemma write_method_bytes W mp t conv ngen ret params bs :
  0 <= conv < 0x80 -> o_kind (type_at h t) = method_kind_of conv params -> o_num (type_at h t) = Z.of_nat (length params) ->
  Z.of_nat (length params) <= 0xFFFF -> o_gparams (type_at h t) = ngen -> 0 <= ngen <= IL_MAX_UINT32 ->
  W (o_ret (type_at h t)) = Some (encode h ret) -> WriteMethodParams h W t = Some bs ->
  write_method h W mp t =
    Some ((if mp then [IL_META_ELEMTYPE_FNPTR] else []) ++ method_bytes conv ngen params (encode h ret) bs).
Proof.
  intros Hc Ek En Hn Eg Hg Hr Hp. unfold write_method. rewrite Ek, method_kind_conv, method_kind_sentinel by done. rewrite En, Eg, Hp, Hr.
  unfold method_bytes, instantiation. rewrite (u8_id conv), (u32_id ngen) by (unfold IL_MAX_UINT32 in *; lia).
  assert ((if negb ((if has_sentinel params then 1 else 0) =? 0) then WriteValue (u32 (Z.of_nat (length params) - 1))
    else WriteValue (Z.of_nat (length params))) = WriteValue (Z.of_nat (length params) - (if has_sentinel params then 1 else 0))) as E.
  { destruct (has_sentinel params) eqn:Es; simpl; [|by rewrite Z.sub_0_r]. rewrite u32_id; [done|].
    destruct params; [done|]. simpl length in *. unfold IL_MAX_UINT32. lia. }
  destruct (has_sentinel params), (Z.land conv IL_META_CALLCONV_GENERIC =? 0), (Z.land conv IL_META_CALLCONV_MASK =? IL_META_CALLCONV_INSTANTIATION), mp;
    simpl in E |- *; rewrite ?E; done.
Qed.

Lemma write_encodes P fuel s mp t :
  (sig_size s <= fuel)%nat -> denotes h depth (type_at h) P s t -> WriteType depth h fuel mp t = Some (encode_top h mp s).
Proof.
  revert s mp t. induction fuel as [|fuel IH]; intros s mp t; [destruct s; simpl; lia|].
  assert (forall u v, (sig_size u <= fuel)%nat -> denotes h depth (type_at h) P u v -> WriteType depth h fuel true v = Some (encode h u)) as IH'.
  { intros u v Hu Hd. rewrite (IH u true v Hu Hd). by destruct u. }
  destruct s as [|elem|c|c|kind s|ds s|kind c s|kind num| |conv ngen ret params|main params]; intros Hs; simpl in Hs; cbn [denotes].
  - by intros ->.
  - intros (-> & He). destruct (element_tag elem ltac:(lia)) as (E1 & E2 & _). cbn [WriteType]. rewrite E1, E2, u8_id by lia. done.
  - intros (Hc & Hr). cbn [WriteType]. rewrite (class_tags _ Hc), Hc. by apply write_class_bytes.
  - intros (Hc & Hr). cbn [WriteType]. destruct (value_tags _ Hc) as [-> ->]. rewrite Hc. by apply write_value_bytes.
  - intros (Ho & Ek & Hk & Hd). object Ho. rewrite Ek. pose proof (IH' s _ ltac:(lia) Hd) as ->.
    unfold ref_kind in Hk. apply orb_true_iff in Hk as [[Hk|Hk]%orb_true_iff|Hk]; apply Z.eqb_eq in Hk as ->; done.
  - intros (Hne & Hl & elem & Hd & He). pose proof (IH' s _ ltac:(lia) He) as Hw.
    destruct (array_dims_head _ _ _ _ Hd Hne) as (Hc & Ht & Ek).
    destruct (write_type_object _ Hc Ht) as (H1 & H2 & H3 & H4). cbn [WriteType]. rewrite H1, H2, H3, H4.
    pose proof (write_array_bytes P (WriteType depth h fuel true) fuel t ds elem _ Hd Hne ltac:(lia) Hl Hw) as Ha.
    cbn [encode_top encode]. unfold array_bytes.
    rewrite Ha, Ek. destruct ds as [|[size low] [|d ds]]; [done| |by rewrite decide_False by done].
    simpl in Hd. destruct Hd as (_ & _ & -> & -> & ->). rewrite Hw. cbn.
    destruct (Z.eqb_spec low 0) as [->|], (Z.eqb_spec size 0) as [->|]; simpl; [done|by rewrite decide_False by congruence..].
  - intros (Ho & Ek & Hk & Hr & Hd). object Ho. rewrite Ek. pose proof (IH' s _ ltac:(lia) Hd) as ->.
    rewrite (class_token_bytes _ _ (proj1 Hr)). destruct Hk as [-> | ->]; done.
  - intros (Ho & Ek & Hk & En). object Ho. rewrite Ek, En. apply orb_true_iff in Hk as [Hk|Hk]; apply Z.eqb_eq in Hk as ->; done.
  - intros (Ho & Ek). object Ho. by rewrite Ek.
  - intros (Ho & Hcv & Ek & En & Hn & Eg & Hg & Hd & Hp). object Ho. rewrite Ek. change (foldr _ _ params) with (params_size params) in Hs.
    rewrite method_kind_low by done. pose proof (IH' ret _ ltac:(lia) Hd) as Hw.
    assert (WriteMethodParams h (WriteType depth h fuel true) t = Some (concat (map (encode h) params))) as Hps.
    { eapply write_method_params; [done|done|]. intros p v Hp' Hv. apply IH'; [|done]. apply params_size_in in Hp'. lia. }
    rewrite (write_method_bytes _ mp t conv ngen ret params _ Hcv Ek En Hn Eg Hg Hw Hps), base_kind_cases.
    by destruct (has_sentinel params), mp.
  - intros (Ho & Ek & En & Hn & Hd & Hp). object Ho. rewrite Ek. change (foldr _ _ params) with (params_size params) in Hs.
    pose proof (IH' main _ ltac:(lia) Hd) as ->.
    rewrite (write_method_params (WriteType depth h fuel true) P params t En Hp), En; [done|].
    intros p v Hp' Hv. apply IH'; [|done]. apply params_size_in in Hp'. lia.
Qed.

End Write.
