(* ===== verification/SignatureRead.v ===== *)
(** * Reading back what the writer wrote: the pieces

    What single reads do on bytes that the writer made, where the objects of a
    type stay what they are, and how arrays and modifiers are read. *)
From Stdlib Require Import ZArith Lia String.
From stdpp Require Import base list option numbers.
From S2P Require Import Prelude Compress Opcodes Cvm JumpMask Scan Coder Types Metadata Signature SignatureRun SignatureTotal SignatureTree SignatureWrite.

Local Open Scope Z_scope.

(** ** Trees *)

Lemma all1_impl {A} (P Q : A -> Prop) l : (forall a, a ∈ l -> P a -> Q a) -> all1 P l -> all1 Q l.
Proof.
  induction l as [|a l IH]; simpl; [done|]. intros H [Ha Hl]. split; [apply H; [by left|done]|].
  apply IH; [|done]. intros b Hb. apply H. by right.
Qed.

Lemma all2_impl {A B} (R R' : A -> B -> Prop) l k : (forall a b, a ∈ l -> R a b -> R' a b) -> all2 R l k -> all2 R' l k.
Proof.
  revert k. induction l as [|a l IH]; intros [|b k]; simpl; try done. intros H [Hb Hk]. split; [apply H; [by left|done]|].
  apply IH; [|done]. intros c d Hc. apply H. by right.
Qed.

Lemma all2_snoc {A B} (R : A -> B -> Prop) l k a b : all2 R l k -> R a b -> all2 R (l ++ [a]) (k ++ [b]).
Proof. rewrite !all2_Forall2. intros H Hr. apply Forall2_app; [done|by constructor]. Qed.

(** Types on the inside of a range of addresses. *)
Definition within (lo hi a : Z) : Prop := lo <= a < hi.

Section Frame.
Context {IT : ImageTokens}.
Variables (h : Heap) (depth : nat).

Lemma array_dims_frame types types' (P P' : Z -> Prop) t ds elem :
  (forall a, P a -> P' a /\ types' a = types a) -> array_dims types P t ds elem -> array_dims types' P' t ds elem.
Proof.
  intros HP. revert t. induction ds as [|[size low] ds IH]; intros t; simpl; [done|].
  intros ((Ht & Hc & Hp) & Ek & Es & El & Hd). destruct (HP t Hp) as [Hp' Et]. unfold is_object. rewrite Et.
  repeat (split; [done|]). by apply IH.
Qed.

(** What a type stands for depends on its own objects only. *)
Lemma denotes_frame types types' (P P' : Z -> Prop) s t :
  (forall a, P a -> P' a /\ types' a = types a) -> denotes h depth types P s t -> denotes h depth types' P' s t.
Proof.
  intros HP. assert (forall n s t, (sig_size s <= n)%nat -> denotes h depth types P s t -> denotes h depth types' P' s t) as H; [|by eapply (H (sig_size s))].
  clear s t. induction n as [|n IH]; intros s t Hn; [destruct s; simpl in Hn; lia|].
  assert (forall ps ts, (params_size ps <= n)%nat -> all2 (denotes h depth types P) ps ts -> all2 (denotes h depth types' P') ps ts) as IHs.
  { intros ps ts Hps. apply all2_impl. intros p u Hp. apply IH. apply params_size_in in Hp. lia. }
  assert (forall u, is_object P u -> is_object P' u /\ types' u = types u) as Ho.
  { intros u (H1 & H2 & H3). destruct (HP u H3). by split. }
  destruct s as [|elem|c|c|kind s|ds s|kind c s|kind num| |conv ngen ret params|main params]; simpl in *; try done.
  - intros (Hu & H). destruct (Ho t Hu) as [Hu' ->]. split; [done|]. split_and!; try apply H. apply IH; [lia|apply H].
  - intros (Hne & Hl & elem & Hd & He). split; [done|]. split; [done|]. exists elem.
    split; [by eapply array_dims_frame|]. apply IH; [lia|done].
  - intros (Hu & H). destruct (Ho t Hu) as [Hu' ->]. split; [done|]. split_and!; try apply H. apply IH; [lia|apply H].
  - intros (Hu & H). by destruct (Ho t Hu) as [Hu' ->].
  - intros (Hu & H). by destruct (Ho t Hu) as [Hu' ->].
  - intros (Hu & H1 & H2 & H3 & H4 & H5 & H6 & H7 & H8). destruct (Ho t Hu) as [Hu' ->]. split; [done|].
    repeat (split; [done|]). change (foldr _ _ params) with (params_size params) in Hn.
    split; [apply IH; [lia|done]|]. apply IHs; [lia|done].
  - intros (Hu & H1 & H2 & H3 & H4 & H5). destruct (Ho t Hu) as [Hu' ->]. split; [done|].
    repeat (split; [done|]). change (foldr _ _ params) with (params_size params) in Hn.
    split; [apply IH; [lia|done]|]. apply IHs; [lia|done].
Qed.

(** A tree other than none is not [ILType_Invalid]. *)
Lemma denotes_valid types P s t : denotes h depth types P s t -> s <> S_none -> t <> 0.
Proof.
  destruct s; simpl; intros H Hs; try done; try (by destruct H as ((? & _) & _)).
  - destruct H as [-> ?]. destruct (element_tag elem) as (_ & _ & ->); lia.
  - destruct H as [H _]. by intros ->.
  - destruct H as [H _]. by intros ->.
  - destruct H as (Hne & _ & elem & Hd & _). destruct ds as [|[size low] ds]; [done|]. by destruct Hd as ((? & _) & _).
Qed.

End Frame.

Section Read.
Context {PF : Platform} {IT : ImageTokens}.
Variables (h : Heap) (more : list Z).
Hypothesis Hmore : Forall is_byte more.

(** The reader is in front of [bytes], which end its block; the classes are
    those of the heap [h]. *)
Record ready (st : SigState) (bytes : list Z) : Prop := {
  rd_reader : sig_reader st = mk_read (bytes ++ more) (Z.of_nat (length bytes)) false;
  rd_len : Z.of_nat (length bytes) <= IL_MAX_UINT32 - 5;
  rd_bytes : Forall is_byte bytes;
  rd_next : next_ok (sig_next st);
  rd_class : class_at (sig_heap st) = class_at h;
  rd_system : system_class (sig_heap st) = system_class h;
}.

Lemma ready_ok st bytes : ready st bytes -> parse_ok st.
Proof.
  intros [Er Hl Hb Hn _ _]. split; [|done]. rewrite Er. unfold read_ok. simpl. split; [lia|]. rewrite length_app. split; [lia|].
  by apply Forall_app.
Qed.

(** The state behind a read. *)
Definition at_bytes (st : SigState) (rest : list Z) : SigState :=
  mk_sig (sig_heap st) (sig_next st) (mk_read (rest ++ more) (Z.of_nat (length rest)) false).

Lemma ready_at st p rest : ready st (p ++ rest) -> ready (at_bytes st rest) rest.
Proof.
  intros [Er Hl Hb Hn Hc Hs]. rewrite length_app in Hl. apply Forall_app in Hb as [_ Hb]. by split; [|lia|..].
Qed.

Lemma grows_at n st rest st' : grows n (at_bytes st rest) st' -> grows n st st'.
Proof. by intros []; split. Qed.

(** Objects that are made and changed do not move the reader. *)
Lemma ready_grows n st st' bytes :
  ready st bytes -> grows n st st' -> next_ok (sig_next st') -> sig_reader st' = sig_reader st -> ready st' bytes.
Proof.
  intros [Er Hl Hb Hn Hc Hs] [G1 G2 G3 G4 G5] Hn' E. split; try done; [by rewrite E|by rewrite G3|by rewrite G4].
Qed.

Lemma ready_after n st st' bytes : ready st bytes -> after n st st' -> sig_reader st' = sig_reader st -> ready st' bytes.
Proof. intros Hr (Hp & G & _). eapply ready_grows; [done|exact G|apply Hp]. Qed.

Lemma read_some f p rest v (Q : Z -> SigState -> Prop) st :
  ready st (p ++ rest) ->
  (forall n, 0 <= n <= IL_MAX_UINT32 - 5 -> f (mk_read (p ++ rest ++ more) (n + Z.of_nat (length p)) false) = Some (v, mk_read (rest ++ more) n false)) ->
  (ready (at_bytes st rest) rest -> Q v (at_bytes st rest)) -> runs (uncompress f) Q st.
Proof.
  intros Hr Hf HQ. pose proof (ready_at _ _ _ Hr) as Hr'. destruct Hr as [Er Hl Hb Hn Hc Hs]. exists v, (at_bytes st rest).
  split; [|by apply HQ]. unfold uncompress. rewrite length_app in Er, Hl. rewrite Nat2Z.inj_add, Z.add_comm, <- app_assoc in Er.
  rewrite Er, Hf; [done|]. lia.
Qed.

Lemma read_data d rest (Q : Z -> SigState -> Prop) st :
  ready st (ILMetaCompressData d ++ rest) -> 0 <= d <= IL_MAX_UINT32 ->
  (ready (at_bytes st rest) rest -> Q d (at_bytes st rest)) -> runs (uncompress ILMetaUncompressData) Q st.
Proof. intros Hr Hd. apply (read_some _ _ _ _ _ _ Hr). intros n Hn. by apply uncompress_compress. Qed.

Lemma read_mark b rest (Q : Z -> SigState -> Prop) st :
  ready st (b :: rest) -> 0 <= b < 0x80 ->
  (ready (at_bytes st rest) rest -> Q b (at_bytes st rest)) -> runs (uncompress ILMetaUncompressData) Q st.
Proof.
  intros Hr Hb. apply (read_data b); [|unfold IL_MAX_UINT32; lia]. rewrite compress_data_digits by (unfold IL_MAX_UINT32; lia).
  rewrite (proj2 (Z.ltb_lt b 0x80)) by lia. done.
Qed.

Lemma read_int d rest (Q : Z -> SigState -> Prop) st :
  ready st (WriteIntValue d ++ rest) -> fits_28 d ->
  (ready (at_bytes st rest) rest -> Q d (at_bytes st rest)) -> runs (uncompress ILMetaUncompressInt) Q st.
Proof.
  unfold fits_28, WriteIntValue. intros Hr Hd. rewrite i32_id in Hr by (unfold IL_MIN_INT32, IL_MAX_INT32; lia). apply (read_some _ _ _ _ _ _ Hr). intros n Hn.
  rewrite uncompress_int_compress by (try done; unfold IL_MIN_INT32, IL_MAX_INT32; lia).
  rewrite (proj2 (Z.leb_le _ _)), (proj2 (Z.ltb_lt _ _)) by lia. done.
Qed.

Lemma read_token depth c rest (Q : Z -> SigState -> Prop) st :
  ready st (token_bytes c ++ rest) -> token_found h depth c ->
  (forall token, token <> 0 -> ILImageTokenInfo token = Some (import_of c) ->
     ready (at_bytes st rest) rest -> Q token (at_bytes st rest)) -> runs (uncompress ILMetaUncompressToken) Q st.
Proof.
  intros Hr (cls & id & Et & Hc & Hid & Ei & _) HQ. unfold token_bytes in Hr. rewrite Et in Hr.
  apply (read_some _ _ _ (cls + id) _ _ Hr).
  - intros n Hn. apply uncompress_token_compress; [done|lia|done].
  - apply HQ; [|done]. destruct Hc as [->|[->|[->| ->]]]; token_lia.
Qed.

Lemma one_less (b : Z) rest :
  Z.of_nat (length (b :: rest)) <= IL_MAX_UINT32 - 5 -> u32 (Z.of_nat (length (b :: rest)) - 1) = Z.of_nat (length rest).
Proof. unfold IL_MAX_UINT32. simpl length. intros Hl. rewrite u32_id; unfold IL_MAX_UINT32; lia. Qed.

Lemma read_raw b rest (Q : option Z -> SigState -> Prop) st :
  ready st (b :: rest) -> (ready (at_bytes st rest) rest -> Q (Some b) (at_bytes st rest)) -> runs raw_byte Q st.
Proof.
  intros Hr HQ. pose proof (ready_at st [b] rest Hr) as Hr'. destruct Hr as [Er Hl Hb Hn Hc Hs].
  exists (Some b), (at_bytes st rest). split; [|by apply HQ]. unfold raw_byte, next_byte. rewrite Er. cbn [len data error negb andb app].
  rewrite (proj2 (Z.ltb_lt 0 _)) by (simpl; lia). cbn -[u32 length]. by rewrite one_less by lia.
Qed.

(** Whether a sentinel is next, and the step over it. *)
Lemma next_mark byte b rest (Q : bool -> SigState -> Prop) st :
  ready st (b :: rest) -> Q (b =? byte) st -> runs (next_is byte) Q st.
Proof.
  intros Hr HQ. exists (b =? byte), st. split; [|done]. unfold next_is. rewrite (rd_reader _ _ Hr). cbn [len data error negb andb app].
  rewrite (proj2 (Z.leb_le 1 _)) by (simpl; lia). done.
Qed.

Lemma skip_mark b rest (Q : unit -> SigState -> Prop) st :
  ready st (b :: rest) -> (ready (at_bytes st rest) rest -> Q tt (at_bytes st rest)) -> runs skip_byte Q st.
Proof.
  intros Hr HQ. pose proof (ready_at st [b] rest Hr) as Hr'. destruct Hr as [Er Hl Hb Hn Hc Hs].
  exists tt, (at_bytes st rest). split; [|by apply HQ]. unfold skip_byte, next_byte. rewrite Er. cbn -[u32 length].
  by rewrite one_less by lia.
Qed.

End Read.

(** ** Reading back the shapes of arrays and the modifiers *)

(** Dimensions in memory as the tree has them. *)
Lemma dims_array h lo hi a ds elem : dims h lo hi a ds elem -> array_dims (type_at h) (within lo hi) a ds elem.
Proof.
  revert hi a. induction ds as [|[size low] ds IH]; intros hi a; simpl; [done|]. intros ((Ha & Hn) & a' & Hd & E).
  destruct (next_ok_complex _ Hn) as [Hc Hz]. split; [done|]. rewrite E. simpl. split; [done|]. split; [done|]. split; [done|].
  apply IH in Hd. eapply array_dims_frame; [|exact Hd]. unfold within. intros x Hx. split; [lia|done].
Qed.

Section Arrays.
Context {PF : Platform} {IT : ImageTokens}.
Variables (h : Heap) (more : list Z).
Hypothesis Hmore : Forall is_byte more.
#[local] Abbreviation ready := (ready h more).

(** What a value does to its dimension. *)
Definition sets (f : nat -> Z -> parse bool) (array : Z) (ok : Z -> Prop) (g : Z -> Z * Z -> Z * Z) : Prop :=
  forall d v st, ok v -> exists F, changes F (g v) /\
    let a := dimension_of (sig_heap st) d array in
    f d v st = Some (true, mk_sig (store_type (sig_heap st) a (F (type_at (sig_heap st) a))) (sig_next st) (sig_reader st)).

Lemma sets_size array : sets (parse_size array) array (fun v => 0 <= v) (fun v p => (v, snd p)).
Proof.
  intros d v st Hv. exists (set_size v). split; [apply changes_size|]. unfold parse_size. rewrite (proj2 (Z.ltb_ge _ _)) by lia. done.
Qed.

Lemma sets_low array : sets (parse_low_bound array) array (fun _ => True) (fun v p => (fst p, v)).
Proof. intros d v st _. exists (set_low_bound v). split; [apply changes_low|done]. Qed.

Lemma read_dimensions f array ok g n elem vs ds1 ds2 rest (Q : bool -> SigState -> Prop) st :
  sets f array ok g -> Forall (fun v => ok v /\ fits_28 v) vs -> length ds2 = length vs ->
  ready st (int_bytes vs ++ rest) -> n <= sig_next st -> dims (sig_heap st) n (sig_next st) array (ds1 ++ ds2) elem ->
  (forall st', ready st' rest -> grows n st st' -> sig_next st' = sig_next st ->
     dims (sig_heap st') n (sig_next st') array (ds1 ++ zip_with g vs ds2) elem -> Q true st') ->
  runs (each_dimension f (length vs) (length ds1)) Q st.
Proof.
  intros Hf. revert ds1 ds2 st. induction vs as [|v vs IH]; intros ds1 [|p ds2] st Hvs; try done; intros Hlen Hr Hn Hd HQ.
  { apply runs_ret. apply HQ; [done|apply grows_refl|done|done]. }
  inversion Hvs as [|? ? [Hok Hfit] Hvs']; subst. simpl. unfold int_bytes in Hr. simpl in Hr. rewrite <- app_assoc in Hr.
  apply runs_bind, (read_int _ _ _ _ _ _ Hr Hfit). intros Hr1.
  destruct (Hf (length ds1) v (at_bytes more st (int_bytes vs ++ rest)) Hok) as (F & HF & Ef).
  pose proof (dims_change _ _ _ _ _ _ (length ds1) F (g v) Hd ltac:(rewrite length_app; simpl; lia) HF) as Hd2.
  rewrite alter_app_r_alt in Hd2 by lia. rewrite Nat.sub_diag in Hd2. simpl in Hd2.
  pose proof (dims_address _ _ _ _ _ _ (length ds1) Hd ltac:(rewrite length_app; simpl; lia)) as Ha.
  apply runs_bind. eexists _, _. split; [exact Ef|]. cbn beta iota. set (st2 := mk_sig _ _ _).
  assert (ready st2 (int_bytes vs ++ rest)) as Hr2.
  { eapply (ready_grows _ _ n); [exact Hr1|apply grows_store; simpl; lia|apply Hr1|done]. }
  replace (S (length ds1)) with (length (ds1 ++ [g v p])) by (rewrite length_app; simpl; lia).
  apply (IH _ ds2); [done|simpl in Hlen; lia|done|done|by rewrite <- app_assoc|].
  intros st' Hr' Hg' Hn' Hd'. apply HQ; [done| |done|].
  - eapply grows_trans; [|exact Hg']. apply (grows_store n st). simpl. lia.
  - simpl. by rewrite <- app_assoc in Hd'.
Qed.

Lemma no_sizes (ds : list (Z * Z)) : needs_sizes ds = false -> ds = repeat (0, 0) (length ds).
Proof.
  induction ds as [|[size low] ds IH]; simpl; [done|]. intros [H Hds]%orb_false_iff. simpl in H.
  apply orb_false_iff in H as [H1%negb_false_iff%Z.eqb_eq H2%negb_false_iff%Z.eqb_eq]. subst. by rewrite <- IH.
Qed.

Lemma zero_sizes n : map (fun d => (fst d, 0)) (repeat (0, 0) n) = repeat (0, 0) n.
Proof. induction n as [|n IH]; simpl; [done|]. by rewrite IH. Qed.

Lemma zip_sizes (ds : list (Z * Z)) : zip_with (fun v p => (v, snd p)) (map fst ds) (repeat (0, 0) (length ds)) = map (fun d => (fst d, 0)) ds.
Proof. induction ds as [|d ds IH]; simpl; [done|]. by rewrite IH. Qed.

Lemma zip_lows (ds : list (Z * Z)) : zip_with (fun v p => (fst p, v)) (map snd ds) (map (fun d => (fst d, 0)) ds) = ds.
Proof. induction ds as [|[s l] ds IH]; simpl; [done|]. by rewrite IH. Qed.

Lemma read_shape ds elem rest (Q : Z -> SigState -> Prop) st :
  ds <> [] -> Z.of_nat (length ds) <= IL_MAX_UINT32 -> Forall (fun p => 0 <= fst p < 0x10000000 /\ fits_28 (snd p)) ds ->
  ready st (shape_bytes ds ++ rest) ->
  (forall a st', ready st' rest -> grows (sig_next st) st st' ->
     dims (sig_heap st') (sig_next st) (sig_next st') a ds elem -> Q a st') ->
  runs (ParseArrayShape elem) Q st.
Proof.
  intros Hne Hl Hds Hr HQ. set (n := sig_next st) in *. unfold shape_bytes in Hr.
  remember (Z.of_nat (length ds)) as rank eqn:Erank.
  assert (1 <= rank) as Hrank by (subst rank; destruct ds; [done|simpl length; lia]).
  assert (length ds = Z.to_nat rank) as Hlen by (subst rank; lia).
  rewrite <- !app_assoc in Hr. unfold ParseArrayShape.
  apply runs_bind, (read_data _ _ _ _ _ _ Hr); [lia|]. intros Hr1. rewrite (proj2 (Z.eqb_neq _ _)) by lia.
  apply runs_bind, (runs_array n); [lia|by eapply ready_ok|done|]. intros a st2 H2 Er2 Hd2. rewrite <- Hlen in Hd2.
  pose proof (ready_after _ _ _ _ _ _ Hr1 H2 Er2) as Hr2. destruct H2 as (_ & G2 & _).
  change (sig_next (at_bytes _ _ _)) with n in Hd2. pose proof (gr_next _ _ _ G2) as Hn2. change (sig_next (at_bytes _ _ _)) with n in Hn2.
  set (cont := fun st3 => runs (numLowBounds ← uncompress ILMetaUncompressData;
    (if rank <? numLowBounds then mret 0
     else each_dimension (parse_low_bound a) (Z.to_nat numLowBounds) 0;; mret a)) Q st3).
  assert (forall st3, ready st3 (WriteValue rank ++ int_bytes (map snd ds) ++ rest) -> grows n st2 st3 -> n <= sig_next st3 ->
    dims (sig_heap st3) n (sig_next st3) a (map (fun d => (fst d, 0)) ds) elem -> cont st3) as Hcont.
  { intros st3 Hr3 G3 Hn3 Hd3. apply runs_bind, (read_data _ _ _ _ _ _ Hr3); [lia|]. intros Hr4.
    rewrite Z.ltb_irrefl, <- Hlen, <- (length_map snd ds). apply runs_bind.
    apply (read_dimensions _ a _ _ n elem _ [] (map (fun d => (fst d, 0)) ds) rest _ _ (sets_low a));
      [|by rewrite !length_map|done|done|done|].
    - apply Forall_map. eapply Forall_impl; [|exact Hds]. intros p Hp. split; [done|apply Hp].
    - intros st5 Hr5 G5 Hn5 Hd5. apply runs_ret. apply HQ; [done| |by rewrite <- (zip_lows ds)].
      eapply grows_trans; [exact (grows_at _ _ _ _ _ G2)|]. eapply grows_trans; [exact G3|exact (grows_at _ _ _ _ _ G5)]. }
  destruct (needs_sizes ds) eqn:En.
  - apply runs_bind, (read_data h more rank (int_bytes (map fst ds) ++ WriteValue rank ++ int_bytes (map snd ds) ++ rest));
      [by rewrite <- app_assoc in Hr2|lia|]. intros Hr3. rewrite Z.ltb_irrefl, <- Hlen, <- (length_map fst ds). apply runs_bind.
    eapply (read_dimensions _ a _ _ n elem _ [] (repeat (0, 0) (length ds)) _ _ _ (sets_size a)); [|by rewrite repeat_length, length_map|exact Hr3|done|done|].
    + apply Forall_map. eapply Forall_impl; [|exact Hds]. intros p [Hp _]. cbn. unfold fits_28. lia.
    + intros st4 Hr4 G4 Hn4 Hd4. apply Hcont; [done|exact (grows_at _ _ _ _ _ G4)|simpl in Hn4; lia|by rewrite <- zip_sizes].
  - apply runs_bind, (read_data _ _ 0 _ _ _ Hr2); [unfold IL_MAX_UINT32; lia|]. intros Hr3.
    rewrite (proj2 (Z.ltb_ge _ _)) by lia. apply runs_bind, runs_ret. apply Hcont; [done|done|done|].
    by rewrite (no_sizes _ En), zero_sizes.
Qed.

End Arrays.
