(* ===== verification/SignatureIdentical.v ===== *)
(** * Types for one tree are identical

    [ILTypeIdentical] holds of any two types that stand for the same tree,
    wherever their objects are. *)
From Stdlib Require Import ZArith Lia String.
From stdpp Require Import base list option numbers.
From S2P Require Import Prelude Compress Opcodes Cvm JumpMask Scan Coder Types Metadata Signature SignatureTree SignatureWrite SignatureRead.

Local Open Scope Z_scope.

(** The tree without the prefixes in front. *)
Fixpoint core (s : sig_type) : sig_type :=
  match s with
  | S_modified _ _ u => core u
  | S_ref kind u => if kind =? IL_TYPE_COMPLEX_PINNED then core u else s
  | _ => s
  end.

Lemma core_size s : (sig_size (core s) <= sig_size s)%nat.
Proof. induction s; simpl; try lia. case_match; simpl; lia. Qed.

Lemma core_not_modified s : match core s with S_modified _ _ _ => False | _ => True end.
Proof. induction s as [| | | |kind s IH| | | | | |]; simpl; try done. by destruct (kind =? IL_TYPE_COMPLEX_PINNED). Qed.

(** The dimensions of an array behind the first. *)
Definition inner_dims (ds : list (Z * Z)) (u : sig_type) : sig_type := match ds with [] => u | _ => S_array ds u end.

(** Kinds of methods are none of the others. *)
Lemma method_kind_large conv params : 0 <= conv < 0x80 -> 16 <= method_kind_of conv params.
Proof. intros Hc. unfold method_kind_of. pose proof (base_kind_cases params) as E. unfold base_kind in E. rewrite E. case_match; lia. Qed.

Lemma large_kind k : 16 <= k ->
  prefix_kind k = false /\ ref_kind k = false /\ array_kind k = false /\ (k =? IL_TYPE_COMPLEX_SENTINEL) = false /\ generic_var_kind k = false.
Proof.
  intros Hk. unfold prefix_kind, ref_kind, array_kind, generic_var_kind.
  repeat match goal with |- context [k =? ?x] => rewrite (proj2 (Z.eqb_neq k x)) by (intros ->; by destruct Hk) end. done.
Qed.

Lemma method_not_prefix conv params : 0 <= conv < 0x80 -> prefix_kind (method_kind_of conv params) = false.
Proof. intros Hc. by apply large_kind, method_kind_large. Qed.

Lemma method_is_method conv params : 0 <= conv < 0x80 -> method_kind (method_kind_of conv params) = true.
Proof.
  intros Hc. unfold method_kind. change IL_TYPE_COMPLEX_METHOD with (Z.land 0xFF 16). rewrite Z.land_assoc, method_kind_low by done.
  rewrite base_kind_cases. by destruct has_sentinel.
Qed.

Section Identical.
Context {IT : ImageTokens}.
Variables (h h' : Heap) (depth : nat).
Hypothesis Hclass : class_at h' = class_at h.
#[local] Abbreviation den P := (denotes h depth (type_at h') P).

Lemma resolve_framed info : Metadata.ILClassResolve h' depth info = Metadata.ILClassResolve h depth info.
Proof.
  unfold Metadata.ILClassResolve. revert info. induction depth as [|d IH]; intros info; simpl; rewrite Hclass; [done|].
  case_match; [apply IH|done].
Qed.

Lemma object_complex P t : is_object P t -> complex_type t = true.
Proof. intros (Ht & Hc & _). unfold complex_type. apply Z.eqb_neq in Ht. by rewrite Ht, Hc. Qed.

Lemma strip_object fuel t : prefix_kind (t_kind h' t) = false -> ILTypeStripPrefixes h' fuel t = Some t.
Proof. intros H. destruct fuel; simpl; by rewrite H, andb_false_r. Qed.

Lemma strip_simple fuel t : complex_type t = false -> ILTypeStripPrefixes h' fuel t = Some t.
Proof. intros H. destruct fuel; simpl; by rewrite H. Qed.

Lemma strip_denotes P fuel s t : den P s t -> (sig_size s <= fuel)%nat ->
  exists u, ILTypeStripPrefixes h' fuel t = Some u /\ den P (core s) u.
Proof.
  revert fuel t. induction s as [|elem|c|c|kind s IH|ds s IH|kind c s IH|kind num| |conv ngen ret IH params|main IH params];
    intros fuel t Hd Hf; cbn [core].
  - exists t. split; [|done]. simpl in Hd. subst t. by destruct fuel.
  - exists t. split; [|done]. apply strip_simple. destruct Hd as [-> He]. destruct (element_tag elem ltac:(lia)) as (H & _ & _).
    unfold complex_type. destruct (ILType_IsComplex _) eqn:E; [|by rewrite andb_false_r]. destruct (complex_tags _ E) as [E' _]. by rewrite E' in H.
  - exists t. split; [|done]. apply strip_simple. destruct Hd as [H _]. unfold complex_type.
    destruct (ILType_IsComplex _) eqn:E; [|by rewrite andb_false_r]. destruct (complex_tags _ E) as (_ & E' & _). by rewrite E' in H.
  - exists t. split; [|done]. apply strip_simple. destruct Hd as [H _]. unfold complex_type.
    destruct (ILType_IsComplex _) eqn:E; [|by rewrite andb_false_r]. destruct (complex_tags _ E) as (_ & _ & E'). by rewrite E' in H.
  - destruct (Z.eqb_spec kind IL_TYPE_COMPLEX_PINNED) as [-> |Hk].
    + destruct Hd as (Ho & Ek & _ & Hd). destruct fuel as [|fuel]; [simpl in Hf; lia|]. simpl. unfold t_kind, prefixed.
      rewrite (object_complex _ _ Ho), Ek. simpl. apply IH; [done|simpl in Hf; lia].
    + exists t. split; [|done]. apply strip_object. destruct Hd as (Ho & Ek & Hrk & _). unfold t_kind. rewrite Ek.
      unfold ref_kind in Hrk. apply orb_true_iff in Hrk as [[->%Z.eqb_eq| ->%Z.eqb_eq]%orb_true_iff|H%Z.eqb_eq]; done.
  - exists t. split; [|done]. apply strip_object. destruct Hd as (Hne & _ & elem & Hd & _). destruct (array_dims_head _ _ _ _ _ Hd Hne) as (_ & _ & Ek).
    unfold t_kind. rewrite Ek. by destruct ds as [|? [|? ?]].
  - destruct Hd as (Ho & Ek & Hk & _ & Hd). destruct fuel as [|fuel]; [simpl in Hf; lia|]. simpl. unfold t_kind, prefixed.
    rewrite (object_complex _ _ Ho), Ek. destruct Hk as [-> | ->]; simpl; (apply IH; [done|simpl in Hf; lia]).
  - exists t. split; [|done]. apply strip_object. destruct Hd as (Ho & Ek & Hk & _). unfold t_kind. rewrite Ek.
    apply orb_true_iff in Hk as [->%Z.eqb_eq| ->%Z.eqb_eq]; done.
  - exists t. split; [|done]. apply strip_object. destruct Hd as (Ho & Ek). unfold t_kind. by rewrite Ek.
  - exists t. split; [|done]. apply strip_object. destruct Hd as (Ho & Hc & Ek & _). unfold t_kind. rewrite Ek. by apply method_not_prefix.
  - exists t. split; [|done]. apply strip_object. destruct Hd as (Ho & Ek & _). unfold t_kind. by rewrite Ek.
Qed.

(** What a signature has for its parameters. *)
Lemma params_identical (f : Z -> Z -> option bool) P1 P2 params t1 t2 o1 o2 :
  complex_type t1 && signature_kind (o_kind (type_at h' t1)) = true -> complex_type t2 && signature_kind (o_kind (type_at h' t2)) = true ->
  o_num (type_at h' t1) = Z.of_nat (length params) -> o_num (type_at h' t2) = Z.of_nat (length params) ->
  o_params (type_at h' t1) = o1 -> o_params (type_at h' t2) = o2 ->
  all2 (den P1) params o1 -> all2 (den P2) params o2 ->
  (forall p u v, p ∈ params -> den P1 p u -> den P2 p v -> f u v = Some true) ->
  all_true (fun arg => f (ILTypeGetParamWithPrefixes h' t1 arg) (ILTypeGetParamWithPrefixes h' t2 arg))
    (param_numbers (Z.of_nat (length params))) = Some true.
Proof.
  intros K1 K2 N1 N2 E1 E2 H1 H2 Hf. unfold param_numbers. rewrite Nat2Z.id.
  assert (forall l, Forall (fun x => (1 <= x <= length params)%nat) l ->
    all_true (fun arg => f (ILTypeGetParamWithPrefixes h' t1 arg) (ILTypeGetParamWithPrefixes h' t2 arg)) (Z.of_nat <$> l) = Some true) as H.
  { intros l Hl. induction Hl as [|x l Hx Hl IH]; [done|]. simpl.
    assert (forall t o, complex_type t && signature_kind (o_kind (type_at h' t)) = true -> o_num (type_at h' t) = Z.of_nat (length params) ->
      o_params (type_at h' t) = o -> ILTypeGetParamWithPrefixes h' t (Z.of_nat x) = default 0 (o !! (x - 1)%nat)) as Hg.
    { intros t o K N E. unfold ILTypeGetParamWithPrefixes. rewrite K, N, E. simpl.
      rewrite (proj2 (Z.eqb_neq _ _)), (proj2 (Z.ltb_ge _ _)) by lia. do 2 f_equal. lia. }
    rewrite (Hg _ _ K1 N1 E1), (Hg _ _ K2 N2 E2).
    destruct (lookup_lt_is_Some_2 params (x - 1)) as [p Ep]; [lia|].
    rewrite all2_Forall2 in H1, H2.
    destruct (Forall2_lookup_l _ _ _ _ _ H1 Ep) as (u & -> & Hu). destruct (Forall2_lookup_l _ _ _ _ _ H2 Ep) as (v & -> & Hv). simpl.
    rewrite (Hf p u v); [exact IH|by eapply list_elem_of_lookup_2|done|done]. }
  apply H. apply Forall_forall. intros x Hx. apply in_seq in Hx. lia.
Qed.

(** An inner type of an array. *)
Lemma array_inner P ds size low u t :
  den P (S_array ((size, low) :: ds) u) t ->
  is_object P t /\ o_size (type_at h' t) = size /\ o_low (type_at h' t) = low /\
  o_kind (type_at h' t) = (match ds with [] => IL_TYPE_COMPLEX_ARRAY | _ => IL_TYPE_COMPLEX_ARRAY_CONTINUE end) /\
  den P (inner_dims ds u) (o_elem (type_at h' t)).
Proof.
  intros (_ & Hl & elem & (Ho & Ek & Es & El & Hd) & He). split_and!; try done. unfold inner_dims. destruct ds as [|d ds].
  - simpl in Hd. by rewrite Hd.
  - cbn [denotes]. split; [done|]. split; [simpl in *; lia|]. by exists elem.
Qed.

Lemma nonzero t : ILType_IsClass t || ILType_IsValueType t = true -> (t =? 0) = false.
Proof. intros H. apply Z.eqb_neq. by intros ->. Qed.

Lemma class_identical_same fuel i j k :
  Metadata.ILClassResolve h depth i = Some k -> Metadata.ILClassResolve h depth j = Some k ->
  ClassIdentical h' depth fuel i j = Some true.
Proof. intros Ei Ej. destruct fuel; simpl; rewrite !resolve_framed, Ei, Ej; cbn; by rewrite Z.eqb_refl. Qed.

Lemma denotes_identical P1 P2 fuel s t1 t2 :
  (sig_size s <= fuel)%nat -> (sig_size s <= depth)%nat -> den P1 s t1 -> den P2 s t2 ->
  Metadata.ILTypeIdentical h' depth fuel t1 t2 = Some true.
Proof.
  revert s t1 t2. induction fuel as [|fuel IH]; intros s t1 t2 Hf Hdp H1 H2; [destruct s; simpl in Hf; lia|].
  cbn [Metadata.ILTypeIdentical]. case_match; [done|].
  destruct (strip_denotes _ depth s t1 H1 Hdp) as (u1 & -> & D1). destruct (strip_denotes _ depth s t2 H2 Hdp) as (u2 & -> & D2).
  cbn [mbind option_bind]. pose proof (core_size s) as Hc. pose proof (core_not_modified s) as Hm. set (c := core s) in *. clearbody c. clear H1 H2.
  destruct (Z.eqb_spec u1 u2) as [|Hne]; [done|].
  assert (forall P t, is_object P t -> (t =? 0) = false /\ ILType_IsPrimitive t = false /\ ILType_IsClass t = false /\
    ILType_IsValueType t = false /\ ILType_IsComplex t = true) as Ho.
  { intros P t Ht. destruct Ht as (Ht & Hct & _). destruct (write_type_object t Hct Ht) as (? & ? & ? & ?). done. }
  destruct c as [|elem|k|k|kind c|ds c|kind k c|kind num| |conv ngen ret params|main params].
  - simpl in D1, D2. congruence.
  - simpl in D1, D2. destruct D1, D2. congruence.
  - destruct D1 as [K1 [R1 _]], D2 as [K2 [R2 _]]. rewrite !nonzero by (rewrite ?K1, ?K2; done). rewrite (class_tags _ K1), K1, K2.
    by eapply class_identical_same.
  - destruct D1 as [K1 [R1 _]], D2 as [K2 [R2 _]]. rewrite !nonzero by (rewrite ?K1, ?K2, ?orb_true_r; done).
    destruct (value_tags _ K1) as [-> ->]. rewrite K1, K2. by eapply class_identical_same.
  - destruct D1 as (O1 & E1 & K & D1), D2 as (O2 & E2 & _ & D2). destruct (Ho _ _ O1) as (-> & -> & -> & -> & ->), (Ho _ _ O2) as (-> & _ & _ & _ & ->).
    rewrite E1, E2, Z.eqb_refl, K. cbn [orb negb]. apply (IH c); [simpl in Hc; lia..|done|done].
  - destruct ds as [|[size low] ds]; [by destruct D1|]. destruct (array_inner _ _ _ _ _ _ D1) as (O1 & S1 & L1 & E1 & A1).
    destruct (array_inner _ _ _ _ _ _ D2) as (O2 & S2 & L2 & E2 & A2).
    destruct (Ho _ _ O1) as (-> & -> & -> & -> & ->), (Ho _ _ O2) as (-> & _ & _ & _ & ->). rewrite E1, E2, Z.eqb_refl. cbn [orb negb].
    assert (sig_size (inner_dims ds c) <= fuel /\ sig_size (inner_dims ds c) <= depth)%nat as [F1 F2] by (destruct ds; simpl in *; lia).
    rewrite (IH _ _ _ F1 F2 A1 A2), S1, S2, L1, L2, !Z.eqb_refl. by destruct ds.
  - done.
  - destruct D1 as (O1 & E1 & K & N1), D2 as (O2 & E2 & _ & N2). destruct (Ho _ _ O1) as (-> & -> & -> & -> & ->), (Ho _ _ O2) as (-> & _ & _ & _ & ->).
    rewrite E1, E2, Z.eqb_refl, K, N1, N2, Z.eqb_refl. cbn [orb negb].
    apply orb_true_iff in K as [->%Z.eqb_eq| ->%Z.eqb_eq]; done.
  - destruct D1 as (O1 & E1), D2 as (O2 & E2). destruct (Ho _ _ O1) as (-> & -> & -> & -> & ->), (Ho _ _ O2) as (-> & _ & _ & _ & ->).
    by rewrite E1, E2.
  - destruct D1 as (O1 & Hcv & E1 & N1 & Hl & G1 & Hg & R1 & A1), D2 as (O2 & _ & E2 & N2 & _ & G2 & _ & R2 & A2).
    destruct (Ho _ _ O1) as (-> & -> & -> & -> & ->), (Ho _ _ O2) as (-> & _ & _ & _ & ->).
    destruct (large_kind _ (method_kind_large conv params Hcv)) as (_ & K1 & K2 & K3 & K4). rewrite E1, E2, Z.eqb_refl, K1, K2, K3, K4.
    assert (signature_kind (method_kind_of conv params) = true) as Ks by (unfold signature_kind; by rewrite method_is_method, orb_true_r).
    cbn [sig_size] in Hc. change (foldr _ _ params) with (params_size params) in Hc.
    rewrite Ks, N1, N2, G1, G2, !Z.eqb_refl, andb_false_r. cbn [orb negb].
    rewrite (IH ret _ _ ltac:(lia) ltac:(lia) R1 R2). cbn. eapply params_identical; [..|exact A1|exact A2|]; try done.
    + by rewrite (object_complex _ _ O1), E1, Ks.
    + by rewrite (object_complex _ _ O2), E2, Ks.
    + intros p u v Hp. apply IH; apply params_size_in in Hp; lia.
  - destruct D1 as (O1 & E1 & N1 & Hl & R1 & A1), D2 as (O2 & E2 & N2 & _ & R2 & A2).
    destruct (Ho _ _ O1) as (-> & -> & -> & -> & ->), (Ho _ _ O2) as (-> & _ & _ & _ & ->).
    cbn [sig_size] in Hc. change (foldr _ _ params) with (params_size params) in Hc. rewrite E1, E2, N1, N2, !Z.eqb_refl. cbn [orb negb].
    change (ref_kind IL_TYPE_COMPLEX_WITH) with false. cbv iota.
    rewrite (IH main _ _ ltac:(lia) ltac:(lia) R1 R2). cbn. eapply params_identical; [..|exact A1|exact A2|]; try done.
    + by rewrite (object_complex _ _ O1), E1.
    + by rewrite (object_complex _ _ O2), E2.
    + intros p u v Hp. apply IH; apply params_size_in in Hp; lia.
Qed.

End Identical.
