(* ===== verification/SignatureParse.v ===== *)
(** * Reading back what the writer wrote: types *)
From Stdlib Require Import ZArith Lia String.
From stdpp Require Import base list option numbers.
From S2P Require Import Prelude Compress Opcodes Cvm JumpMask Scan Coder Types Metadata Signature SignatureRun SignatureTotal SignatureTree SignatureWrite SignatureRead.

Local Open Scope Z_scope.

Section Parse.
Context {PF : Platform} {IT : ImageTokens}.
Variables (h : Heap) (depth : nat) (more : list Z).
Hypothesis Hmore : Forall is_byte more.
#[local] Abbreviation ready := (ready h more).
#[local] Abbreviation enc := (encode h).

(** ** Bytes *)

Lemma token_bytes_bytes c : Forall is_byte (token_bytes c).
Proof. apply compress_token_bytes. Qed.

Lemma int_bytes_bytes l : Forall is_byte (int_bytes l).
Proof. unfold int_bytes. induction l as [|z l IH]; simpl; [constructor|]. apply Forall_app. split; [apply compress_int_bytes|done]. Qed.

Lemma shape_bytes_bytes ds : Forall is_byte (shape_bytes ds).
Proof.
  unfold shape_bytes. apply Forall_app. split; [apply compress_data_bytes|]. apply Forall_app. split.
  - case_match; [apply Forall_app; split; [apply compress_data_bytes|apply int_bytes_bytes]|apply compress_data_bytes].
  - apply Forall_app. split; [apply compress_data_bytes|apply int_bytes_bytes].
Qed.

Ltac a_byte := unfold is_byte; vm_compute; split; [discriminate|reflexivity].

Lemma encode_bytes types P s t : denotes h depth types P s t -> Forall is_byte (enc s).
Proof.
  assert (forall n s t, (sig_size s <= n)%nat -> denotes h depth types P s t -> Forall is_byte (enc s)) as H; [|by eapply (H (sig_size s))].
  clear s t. induction n as [|n IH]; intros s t Hn; [destruct s; simpl in Hn; lia|].
  assert (forall ps ts, (params_size ps <= n)%nat -> all2 (denotes h depth types P) ps ts -> Forall is_byte (concat (map enc ps))) as IHs.
  { induction ps as [|p ps IHp]; intros [|u ts] Hp; try done. unfold params_size in *. simpl in *. intros [Hu Hts].
    apply Forall_app. split; [eapply IH; [|done]; lia|]. eapply IHp; [|done]. lia. }
  destruct s as [|elem|c|c|kind s|ds s|kind c s|kind num| |conv ngen ret params|main params]; simpl in *; intros H.
  - constructor.
  - constructor; [|done]. unfold is_byte. lia.
  - unfold class_bytes. repeat case_match; (constructor; [a_byte|]); [constructor..|apply token_bytes_bytes].
  - unfold value_bytes. repeat case_match; (constructor; [a_byte|]); [constructor|apply token_bytes_bytes].
  - constructor; [unfold ref_byte; repeat case_match; a_byte|]. eapply IH; [|apply H]. lia.
  - destruct H as (_ & _ & elem & _ & He). assert (Forall is_byte (enc s)) by (eapply IH; [|exact He]; lia).
    unfold array_bytes. case_decide; (constructor; [a_byte|]); [done|]. apply Forall_app. split; [done|apply shape_bytes_bytes].
  - constructor; [unfold modifier_byte; repeat case_match; a_byte|]. apply Forall_app. split; [apply token_bytes_bytes|].
    eapply IH; [|apply H]. lia.
  - constructor; [unfold var_byte; repeat case_match; a_byte|]. constructor; [apply u8_range|constructor].
  - constructor; [a_byte|constructor].
  - change (foldr _ _ params) with (params_size params) in Hn. destruct H as (_ & Hc & _ & _ & _ & _ & _ & Hr & Hp).
    constructor; [a_byte|]. unfold method_bytes. apply Forall_app. split; [constructor; [unfold is_byte; lia|constructor]|].
    apply Forall_app. split; [case_match; [apply compress_data_bytes|constructor]|]. apply Forall_app. split; [apply compress_data_bytes|].
    apply Forall_app. split; [case_match; [constructor|]; eapply IH; [|exact Hr]; lia|]. eapply IHs; [|exact Hp]. lia.
  - change (foldr _ _ params) with (params_size params) in Hn. destruct H as (_ & _ & _ & _ & Hr & Hp).
    constructor; [a_byte|]. apply Forall_app. split; [eapply IH; [|exact Hr]; lia|]. constructor; [apply u8_range|].
    eapply IHs; [|exact Hp]. lia.
Qed.

(** The first byte of a type. *)
Definition head_fine (s : sig_type) (b : Z) : Prop :=
  0 <= b < 0x80 /\ b <> IL_META_ELEMTYPE_SENTINEL /\
  match s with S_modified _ _ _ => True | _ => b <> IL_META_ELEMTYPE_CMOD_REQD /\ b <> IL_META_ELEMTYPE_CMOD_OPT end.

Lemma simple_cases elem : existsb (Z.eqb elem) simple_elements = true -> elem ∈ simple_elements.
Proof. rewrite existsb_exists. intros (x & Hx & ->%Z.eqb_eq). by apply list_elem_of_In. Qed.

Ltac head := eexists _, _; split; [reflexivity|]; unfold head_fine; vm_compute; by split_and!.

Lemma encode_head d categories s : parsable h depth d categories s -> exists b tl, enc s = b :: tl /\ head_fine s b.
Proof.
  destruct s as [|elem|c|c|kind s|ds s|kind c s|kind num| |conv ngen ret params|main params]; simpl.
  - destruct d; done.
  - intros H. exists elem, []. split; [done|].
    assert (elem = IL_META_ELEMTYPE_VOID \/ elem = IL_META_ELEMTYPE_TYPEDBYREF \/ elem ∈ simple_elements) as He.
    { destruct (Z.eqb_spec elem IL_META_ELEMTYPE_VOID); [by left|]. destruct (Z.eqb_spec elem IL_META_ELEMTYPE_TYPEDBYREF); [by right; left|].
      right; right. destruct d; by apply simple_cases. }
    clear H. destruct He as [-> |[-> |He]]; [vm_compute; by split_and!..|].
    unfold simple_elements in He. repeat (apply elem_of_cons in He as [-> |He]; [vm_compute; by split_and!|]). by apply elem_of_nil in He.
  - intros _. unfold class_bytes. repeat case_match; head.
  - intros _. unfold value_bytes. repeat case_match; head.
  - intros _. unfold ref_byte. repeat case_match; head.
  - intros _. unfold array_bytes. repeat case_match; head.
  - intros _. unfold modifier_byte. repeat case_match; head.
  - intros _. unfold var_byte. repeat case_match; head.
  - destruct d; done.
  - intros _. head.
  - intros _. head.
Qed.

(** ** What a parse leaves *)

Definition value_import (s : sig_type) (t : Z) : Prop :=
  match s with S_value c => ILType_ToValueType t = import_of c | _ => True end.

(** The type [t] stands for [s], and its objects are new. *)
Record parsed (s : sig_type) (rest : list Z) (st : SigState) (t : Z) (st' : SigState) : Prop := {
  pd_ready : ready st' rest;
  pd_grows : grows (sig_next st) st st';
  pd_denotes : denotes h depth (type_at (sig_heap st')) (within (sig_next st) (sig_next st')) s t;
  pd_value : value_import s t;
}.

(** A parser that reads back the tree [s]. *)
Definition reads (m : parse Z) (s : sig_type) : Prop :=
  forall rest st, ready st (enc s ++ rest) -> runs m (parsed s rest st) st.

Lemma parsed_at s rest st bytes t st' : parsed s rest (at_bytes more st bytes) t st' -> parsed s rest st t st'.
Proof. intros [Hr Hg Hd Hv]. split; [done|by eapply grows_at|done|done]. Qed.

(** Value types of primitive types are the only ones that become others. *)
Lemma primitive_same (h' : Heap) info : class_at h' = class_at h -> ILClassToPrimitiveType h' info = ILClassToPrimitiveType h info.
Proof. intros E. unfold ILClassToPrimitiveType, ILClassGetNestedParent. by rewrite E. Qed.

Lemma denotes_primitive types P h' s t :
  class_at h' = class_at h -> denotes h depth types P s t -> value_import s t -> param_fine h s -> to_primitive h' t = t.
Proof.
  intros E Hd Hv Hp. unfold to_primitive. destruct (ILType_IsValueType t) eqn:Et; [|done].
  assert (forall u, is_object P u -> ILType_IsValueType u = false) as Ho by (intros u (_ & H & _); by destruct (complex_tags u H) as (_ & _ & ->)).
  destruct s; simpl in *; try (by subst); try (by rewrite Ho in Et by apply Hd).
  - destruct Hd as [-> He]. destruct (element_tag elem ltac:(lia)) as (H & _). by destruct (value_tags _ Et) as [Et' _]; rewrite H in Et'.
  - destruct Hd as [Hd _]. by destruct (value_tags _ Et) as [_ Et']; rewrite Hd in Et'.
  - rewrite Hv, primitive_same, Hp by done. done.
  - destruct Hd as (Hne & _ & elem & Hd & _). destruct ds as [|[size low] ds]; [done|]. by rewrite Ho in Et by apply Hd.
Qed.

(** ** New objects around what was parsed *)

Lemma object_at n a hi : next_ok a -> n <= a < hi -> is_object (within n hi) a.
Proof. intros Hn Ha. destruct (next_ok_complex _ Hn). by split_and!. Qed.

Lemma runs_around s rest o t st (Q : Z -> SigState -> Prop) st1 :
  parsed s rest st t st1 ->
  (forall st', ready st' rest -> grows (sig_next st) st st' -> is_object (within (sig_next st) (sig_next st')) (sig_next st1) ->
     type_at (sig_heap st') (sig_next st1) = o ->
     denotes h depth (type_at (sig_heap st')) (within (sig_next st) (sig_next st1)) s t ->
     sig_next st1 < sig_next st' -> Q (sig_next st1) st') -> runs (alloc o) Q st1.
Proof.
  intros [Hr Hg Hd _] HQ. apply runs_alloc. pose proof sizeof_ILType_pos. pose proof (gr_next _ _ _ Hg).
  set (st2 := mk_sig _ _ _). assert (grows (sig_next st) st1 st2) as Hg2 by (apply grows_alloc; lia).
  apply HQ.
  - eapply (ready_grows _ _ (sig_next st)); [exact Hr|exact Hg2|apply next_ok_alloc, Hr|done].
  - by eapply grows_trans.
  - apply object_at; [apply Hr|simpl; lia].
  - simpl. by rewrite Z.eqb_refl.
  - eapply denotes_frame; [|exact Hd]. unfold within. intros a Ha. split; [lia|]. simpl. by destruct (Z.eqb_spec a (sig_next st1)); [lia|].
  - simpl. lia.
Qed.

(** A type of an inner type: pointers, references and pinned types. *)
Lemma reads_ref kind s m : ref_kind kind = true -> reads m s -> s <> S_none ->
  forall rest st, ready st (enc s ++ rest) ->
    runs (parse_around m (ILTypeCreateRef kind)) (parsed (S_ref kind s) rest st) st.
Proof.
  intros Hk Hm Hs rest st Hr. apply runs_bind. eapply runs_mono; [|by apply Hm]. intros t st1 Hp.
  rewrite (proj2 (Z.eqb_neq _ _)) by (eapply denotes_valid; [apply Hp|done]).
  apply (runs_around s rest _ t st); [done|]. intros st' Hr' Hg Ho Et Hd Hn. split; [done|done| |done].
  cbn [denotes]. rewrite Et. split_and!; try done. eapply denotes_frame; [|exact Hd]. unfold within. intros a Ha. split; [lia|done].
Qed.

(** ** Arrays *)

Lemma denotes_array n mid hi types ds elem a s :
  ds <> [] -> Z.of_nat (length ds) <= IL_MAX_UINT32 -> n <= mid <= hi ->
  array_dims types (within mid hi) a ds elem -> denotes h depth types (within n mid) s elem ->
  denotes h depth types (within n hi) (S_array ds s) a.
Proof.
  intros Hne Hl Hm Ha He. cbn [denotes]. split; [done|]. split; [done|]. exists elem. split.
  - eapply array_dims_frame; [|exact Ha]. unfold within. intros x Hx. split; [lia|done].
  - eapply denotes_frame; [|exact He]. unfold within. intros x Hx. split; [lia|done].
Qed.

Lemma parsed_array s rest bytes st t st1 ds a st2 :
  parsed s bytes st t st1 -> ds <> [] -> Z.of_nat (length ds) <= IL_MAX_UINT32 ->
  ready st2 rest -> grows (sig_next st1) st1 st2 -> dims (sig_heap st2) (sig_next st1) (sig_next st2) a ds t ->
  parsed (S_array ds s) rest st a st2.
Proof.
  intros [Hr Hg Hd _] Hne Hl Hr2 Hg2 Hdims. pose proof (gr_next _ _ _ Hg). pose proof (gr_next _ _ _ Hg2).
  split; [done|eapply grows_step; [|exact Hg|exact Hg2]; lia| |done].
  eapply (denotes_array _ (sig_next st1)); [done|done|lia|by apply dims_array|].
  eapply denotes_frame; [|exact Hd]. unfold within. intros x Hx. split; [lia|]. apply (gr_type _ _ _ Hg2). lia.
Qed.

Lemma reads_array ds s m : reads m s -> s <> S_none -> ds <> [] -> Z.of_nat (length ds) <= IL_MAX_UINT32 ->
  Forall (fun p => 0 <= fst p < 0x10000000 /\ fits_28 (snd p)) ds ->
  forall rest st, ready st (enc s ++ shape_bytes ds ++ rest) ->
    runs (parse_around m ParseArrayShape) (parsed (S_array ds s) rest st) st.
Proof.
  intros Hm Hs Hne Hl Hds rest st Hr. apply runs_bind. eapply runs_mono; [|by apply Hm]. intros t st1 Hp.
  rewrite (proj2 (Z.eqb_neq _ _)) by (eapply denotes_valid; [apply Hp|done]).
  eapply (read_shape h more Hmore ds t rest); [done|done|done|apply Hp|]. intros a st2 Hr2 Hg2 Hd2. by eapply parsed_array.
Qed.

Lemma reads_szarray s m : reads m s -> s <> S_none ->
  forall rest st, ready st (enc s ++ rest) ->
    runs (parse_around m (ILTypeCreateArray 1)) (parsed (S_array [(0, 0)] s) rest st) st.
Proof.
  intros Hm Hs rest st Hr. apply runs_bind. eapply runs_mono; [|by apply Hm]. intros t st1 Hp.
  rewrite (proj2 (Z.eqb_neq _ _)) by (eapply denotes_valid; [apply Hp|done]).
  pose proof (pd_ready _ _ _ _ _ Hp) as Hr1. apply (runs_array (sig_next st1)); [lia|by eapply ready_ok|lia|].
  intros a st2 H2 Er2 Hd2. pose proof (ready_after _ _ _ _ _ _ Hr1 H2 Er2) as Hr2. destruct H2 as (_ & Hg2 & _).
  eapply (parsed_array _ _ _ _ _ _ [(0, 0)]); [done|done|unfold IL_MAX_UINT32; simpl; lia|done|done|done].
Qed.

End Parse.

(** ** Reading back what the writer wrote: modifiers and elements *)

(** A type behind its modifiers, from the outermost on. *)
Definition modified (ms : list (Z * Z)) (s : sig_type) : sig_type := foldr (fun m s => S_modified (fst m) (snd m) s) s ms.
Definition is_modified (s : sig_type) : bool := match s with S_modified _ _ _ => true | _ => false end.

Lemma modified_peel s : exists ms s0, s = modified ms s0 /\ is_modified s0 = false.
Proof.
  induction s as [|elem|c|c|kind s IH|ds s IH|kind c s IH|kind num| |conv ngen ret IH params|main IH params];
    try (by eexists [], _). destruct IH as (ms & s0 & -> & H). by exists ((kind, c) :: ms), s0.
Qed.

Section Element.
Context {PF : Platform} {IT : ImageTokens}.
Variables (h : Heap) (depth : nat) (more : list Z).
Hypothesis Hmore : Forall is_byte more.
#[local] Abbreviation ready := (ready h more).
#[local] Abbreviation enc := (encode h).
#[local] Abbreviation parsed := (parsed h depth more).
#[local] Abbreviation reads := (reads h depth more).

(** ** Modifiers *)

Definition modifier_fine (m : Z * Z) : Prop :=
  (fst m = IL_TYPE_COMPLEX_CMOD_REQD \/ fst m = IL_TYPE_COMPLEX_CMOD_OPT) /\ token_found h depth (snd m).
Definition modifiers_bytes (ms : list (Z * Z)) : list Z := concat (map (fun m => modifier_byte (fst m) :: token_bytes (snd m)) ms).
Definition imports (ms : list (Z * Z)) : list (Z * Z) := map (fun m => (fst m, import_of (snd m))) ms.

Lemma modified_bytes ms s : enc (modified ms s) = modifiers_bytes ms ++ enc s.
Proof. induction ms as [|[kind c] ms IH]; simpl; [done|]. by rewrite IH, <- app_assoc. Qed.

Lemma modifiers_long ms : (length ms <= length (modifiers_bytes ms))%nat.
Proof. induction ms as [|m ms IH]; simpl; [done|]. unfold modifiers_bytes in *. simpl. rewrite length_app. lia. Qed.

Lemma modified_parsable d categories ms s : parsable h depth d categories (modified ms s) ->
  Forall modifier_fine ms /\ (ms <> [] -> allowed categories CATEGORY_CMOD = true) /\ parsable h depth d categories s.
Proof.
  induction ms as [|[kind c] ms IH]; simpl; [done|].
  assert (forall P : Prop, match d with O => P | S _ => P end <-> P) as _ by (by destruct d).
  intros H. assert ((kind = IL_TYPE_COMPLEX_CMOD_REQD \/ kind = IL_TYPE_COMPLEX_CMOD_OPT) /\
    allowed categories CATEGORY_CMOD = true /\ token_found h depth c /\ parsable h depth d categories (modified ms s)) as (H1 & H2 & H3 & H4)
    by (by destruct d). destruct (IH H4) as (H5 & _ & H6). split; [by constructor|done].
Qed.

Lemma modifier_byte_cases kind : kind = IL_TYPE_COMPLEX_CMOD_REQD \/ kind = IL_TYPE_COMPLEX_CMOD_OPT ->
  let value := modifier_byte kind in
  (value =? IL_META_ELEMTYPE_CMOD_REQD) || (value =? IL_META_ELEMTYPE_CMOD_OPT) = true /\
  (if value =? IL_META_ELEMTYPE_CMOD_REQD then IL_TYPE_COMPLEX_CMOD_REQD else IL_TYPE_COMPLEX_CMOD_OPT) = kind /\ 0 <= value < 0x80.
Proof. by intros [-> | ->]. Qed.

(** The first byte of modifiers that stand before [b], and what is left. *)
Definition first_mark (ms : list (Z * Z)) (b : Z) (bytes : list Z) : Z * list Z :=
  match ms with
  | [] => (b, bytes)
  | (kind, c) :: ms => (modifier_byte kind, token_bytes c ++ modifiers_bytes ms ++ b :: bytes)
  end.

Lemma first_mark_bytes ms b bytes : modifiers_bytes ms ++ b :: bytes = fst (first_mark ms b bytes) :: snd (first_mark ms b bytes).
Proof. destruct ms as [|[kind c] ms]; [done|]. unfold modifiers_bytes. simpl. by rewrite <- app_assoc. Qed.

Lemma first_mark_range ms b bytes : Forall modifier_fine ms -> 0 <= b < 0x80 -> 0 <= fst (first_mark ms b bytes) < 0x80.
Proof.
  destruct ms as [|[kind c] ms]; intros Hms Hb; [done|]. inversion Hms as [|? ? [Hk _] _]; subst. by apply modifier_byte_cases in Hk as (_ & _ & ?).
Qed.

Lemma run_modifiers n categories b bytes ms done fuel list (Q : option (Z * nat * Z) -> SigState -> Prop) st :
  Forall modifier_fine ms -> (ms <> [] -> allowed categories CATEGORY_CMOD = true) -> (length ms <= fuel)%nat ->
  0 <= b < 0x80 -> b <> IL_META_ELEMTYPE_CMOD_REQD -> b <> IL_META_ELEMTYPE_CMOD_OPT -> 0 < n <= sig_next st ->
  chain (sig_heap st) n (sig_next st) list (imports done) 0 -> ready st (snd (first_mark ms b bytes)) ->
  (forall list' st', ready st' bytes -> grows n st st' -> chain (sig_heap st') n (sig_next st') list' (imports (done ++ ms)) 0 ->
     Q (Some (b, length (done ++ ms), list')) st') ->
  runs (parse_modifiers fuel categories (fst (first_mark ms b bytes)) (length done) list) Q st.
Proof.
  revert done fuel list st. induction ms as [|[kind c] ms IH]; intros done fuel list st Hms Ha Hf Hb Hb1 Hb2 Hn Hc Hr HQ.
  { apply Z.eqb_neq in Hb1, Hb2. assert (forall m : parse (option (Z * nat * Z)), parse_modifiers fuel categories b (length done) list = mret (Some (b, length done, list))) as E.
    { intros _. destruct fuel; simpl; by rewrite Hb1, Hb2. }
    simpl. rewrite E by exact no_result. apply runs_ret. rewrite app_nil_r in HQ. apply HQ; [done|apply grows_refl|done]. }
  inversion Hms as [|? ? [Hk Ht] Hms']; subst. simpl in Hk, Ht. destruct (modifier_byte_cases _ Hk) as (E1 & E2 & _).
  destruct fuel as [|fuel]; [simpl in Hf; lia|]. cbn [first_mark fst snd] in *. cbn [parse_modifiers]. rewrite E1, E2, Ha by done. simpl.
  apply runs_bind. eapply (read_token h more depth c); [exact Hr|done|]. intros token Htok Ei Hr1. rewrite Ei.
  apply runs_bind. eapply (create_modifier_chain n); [by eapply ready_ok|done|exact Hc|by unfold imports; rewrite length_map|].
  intros list' st2 H2 Er2 Hl2 Hc2. pose proof (ready_after _ _ _ _ _ _ Hr1 H2 Er2) as Hr2. destruct H2 as (_ & G2 & _).
  pose proof (gr_next _ _ _ G2) as Hn2. simpl in Hn2.
  rewrite first_mark_bytes in Hr2. apply runs_bind.
  apply (read_mark h more (fst (first_mark ms b bytes)) (snd (first_mark ms b bytes))); [done|by apply first_mark_range|]. intros Hr3.
  replace (S (length done)) with (length (done ++ [(kind, c)])) by (rewrite length_app; simpl; lia).
  apply IH; [done|by intros _; apply Ha|simpl in Hf; lia|done|done|done|simpl; lia|by unfold imports in *; rewrite map_app|done|].
  - intros list3 st3 Hr' G3 Hc3. rewrite <- app_assoc in *. simpl in *. apply HQ; [done| |done].
    eapply grows_trans; [exact (grows_at _ _ _ _ _ G2)|exact (grows_at _ _ _ _ _ G3)].
Qed.

Lemma chain_denotes types lo hi n a ms s t (h' : Heap) :
  types = type_at h' -> Forall modifier_fine ms -> chain h' lo hi a (imports ms) t -> n <= lo ->
  denotes h depth types (within n hi) s t -> denotes h depth types (within n hi) (modified ms s) a.
Proof.
  intros -> Hms Hc Hn Hd. revert lo a Hc Hn. induction ms as [|[kind c] ms IH]; intros lo a; simpl; [by intros ->|].
  intros ((Ha & Hna) & a' & E & Hc) Hn. inversion Hms as [|? ? [Hk Ht] Hms']; subst. simpl in Hk, Ht.
  split; [apply object_at; [done|lia]|]. rewrite E. simpl. split; [done|]. split; [done|].
  destruct Ht as (cls & id & _ & _ & _ & _ & _ & Ht). split; [done|]. eapply (IH Hms' (a + 1)); [done|lia].
Qed.

(** ** Types from their elements *)

(** What [parse_element] makes of a type that starts with its first byte. *)
Definition element_reads (rec : Deeper) (categories : Z) (s : sig_type) : Prop :=
  exists b tl, enc s = b :: tl /\ head_fine s b /\
    forall rest st, ready st (tl ++ rest) -> runs (parse_element rec categories b) (parsed s rest st) st.

Lemma reads_elem_type rec categories ms s :
  Forall modifier_fine ms -> (ms <> [] -> allowed categories CATEGORY_CMOD = true) -> is_modified s = false -> s <> S_none ->
  element_reads rec categories s -> reads (parse_elem_type rec categories) (modified ms s).
Proof.
  intros Hms Ha Hs Hne (b & tl & Eb & (Hb & _ & Hcm) & Hel) rest st Hr.
  assert (b <> IL_META_ELEMTYPE_CMOD_REQD /\ b <> IL_META_ELEMTYPE_CMOD_OPT) as [Hb1 Hb2] by (by destruct s). clear Hcm.
  rewrite modified_bytes, Eb, <- app_assoc in Hr. simpl in Hr.
  assert (length ms <= length (snd (first_mark ms b (tl ++ rest))))%nat as Hlong.
  { pose proof (modifiers_long ms) as Hl. pose proof (f_equal length (first_mark_bytes ms b (tl ++ rest))) as E. rewrite length_app in E. simpl in E. lia. }
  rewrite first_mark_bytes in Hr. set (n := sig_next st). unfold parse_elem_type.
  apply runs_bind, (read_mark h more _ _ _ _ Hr); [by apply first_mark_range|]. intros Hr1.
  apply runs_bind, runs_get, runs_bind. pose proof (rd_next _ _ _ _ Hr) as [Hpos _].
  apply (run_modifiers n _ b (tl ++ rest) ms []); [done..| |done|done|done|simpl; lia|done|done|].
  { simpl. rewrite length_app. lia. }
  intros list st2 Hr2 G2 Hc2. simpl app in *. pose proof (gr_next _ _ _ G2) as Hn2. simpl in Hn2.
  apply grows_at in G2. apply runs_bind. eapply runs_mono; [|by apply Hel]. intros t st3 [Hr3 G3 Hd3 Hv3].
  rewrite (proj2 (Z.eqb_neq t 0)) by (by eapply denotes_valid). pose proof (gr_next _ _ _ G3) as Hn3.
  destruct ms as [|m ms].
  - simpl in Hc2. subst list. apply runs_ret. split; [done|eapply grows_step; [|exact G2|exact G3]; lia| |done].
    eapply denotes_frame; [|exact Hd3]. unfold within. intros a Ha'. split; [lia|done].
  - assert (list <> 0) as Hl by (destruct m; simpl in Hc2; lia). rewrite (proj2 (Z.eqb_neq list 0)) by done. simpl.
    assert (chain (sig_heap st3) n (sig_next st2) list (imports (m :: ms)) 0) as Hc3.
    { eapply chain_frame; [|exact Hc2]. intros x Hx. apply (gr_type _ _ _ G3). lia. }
    eapply (runs_link n); [exact Hc3|done|done|lia|unfold imports; simpl; rewrite length_map; lia|by eapply ready_ok|].
    intros st4 H4 En4 Er4 Hc4 Hf4. pose proof (ready_after _ _ _ _ _ _ Hr3 H4 Er4) as Hr4. destruct H4 as (_ & G4 & _).
    split; [done| | |done].
    + eapply grows_trans; [exact G2|]. eapply grows_trans; [eapply grows_below; [|exact G3]; lia|exact G4].
    + eapply (chain_denotes _ n (sig_next st4) n list (m :: ms) s t (sig_heap st4)); [done|done|eapply chain_above; [|exact Hc4]; lia|lia|].
      eapply denotes_frame; [|exact Hd3]. unfold within. intros a Ha'. split; [lia|]. apply Hf4. lia.
Qed.

End Element.
