(* ===== verification/SignatureMethod.v ===== *)
(** * Reading back what the writer wrote: methods and instantiations *)
From Stdlib Require Import ZArith Lia String.
From stdpp Require Import base list option numbers.
From S2P Require Import Prelude Compress Opcodes Cvm JumpMask Scan Coder Types Metadata Signature SignatureRun SignatureTotal SignatureTree SignatureWrite SignatureRead SignatureParse.

Local Open Scope Z_scope.

Section Method.
Context {PF : Platform} {IT : ImageTokens}.
Variables (h : Heap) (depth : nat) (more : list Z).
Hypothesis Hmore : Forall is_byte more.
#[local] Abbreviation ready := (ready h more).
#[local] Abbreviation enc := (encode h).
#[local] Abbreviation parsed := (parsed h depth more).
#[local] Abbreviation reads := (reads h depth more).

(** ** An object that parameters are added to *)

(** The object at [a], above [n], with the parameters [done] so far, whose
    objects came after it. *)
Record building (st : SigState) (n a : Z) (done : list sig_type) (kind ret : Z) (ts : list Z) (gparams : Z) : Prop := {
  bd_at : n <= a < sig_next st;
  bd_ok : next_ok a;
  bd_object : type_at (sig_heap st) a = method_object kind (Z.of_nat (length done)) ret ts gparams;
  bd_params : all2 (denotes h depth (type_at (sig_heap st)) (within (a + 1) (sig_next st))) done ts;
}.

Lemma building_later n a done kind ret ts g st st' :
  building st n a done kind ret ts g -> grows (sig_next st) st st' -> building st' n a done kind ret ts g.
Proof.
  intros [Ha Hok Eo Hp] [Hn Ht _ _ _]. split; [lia|done|by rewrite Ht by lia|].
  eapply all2_impl; [|exact Hp]. intros p t _. apply denotes_frame. unfold within. intros x Hx. split; [lia|]. apply Ht. lia.
Qed.

(** A change of the object alone. *)
Lemma building_change n a done kind ret ts g F kind' ret' ts' g' done' st (Q : unit -> SigState -> Prop) bytes :
  building st n a done kind ret ts g -> ready st bytes ->
  F (method_object kind (Z.of_nat (length done)) ret ts g) = method_object kind' (Z.of_nat (length done')) ret' ts' g' ->
  all2 (denotes h depth (type_at (sig_heap st)) (within (a + 1) (sig_next st))) done' ts' ->
  (forall st', building st' n a done' kind' ret' ts' g' -> ready st' bytes -> grows a st st' ->
     sig_next st' = sig_next st -> (forall x, x <> a -> type_at (sig_heap st') x = type_at (sig_heap st) x) -> Q tt st') ->
  runs (change a F) Q st.
Proof.
  intros [Ha Hok Eo Hp] Hr EF Hp' HQ. apply runs_change. rewrite Eo, EF. set (st' := mk_sig _ _ _).
  assert (grows a st st') as Hg by (apply grows_store; lia). apply HQ; [|by eapply ready_grows; [..|apply Hr|]|done|done|].
  2: { intros x Hx. simpl. by destruct (Z.eqb_spec x a). }
  split; [done|done|simpl; by rewrite Z.eqb_refl|].
  eapply all2_impl; [|exact Hp']. intros p t _. apply denotes_frame. unfold within. intros x Hx. split; [done|]. simpl.
  by destruct (Z.eqb_spec x a); [lia|].
Qed.

(** [ILTypeAddParam]. *)
Lemma building_add n a done kind ret ts g p t st (Q : unit -> SigState -> Prop) bytes :
  building st n a done kind ret ts g -> ready st bytes -> Z.of_nat (length done) < 0xFFFF ->
  denotes h depth (type_at (sig_heap st)) (within (a + 1) (sig_next st)) p t -> to_primitive (sig_heap st) t = t ->
  (forall st', building st' n a (done ++ [p]) kind ret (ts ++ [t]) g -> ready st' bytes -> grows a st st' -> Q tt st') ->
  runs (ILTypeAddParam a t) Q st.
Proof.
  intros Hb Hr Hl Hd Et HQ. unfold ILTypeAddParam. apply runs_bind, runs_get. rewrite Et.
  eapply (building_change n a done _ _ _ _ _ _ _ _ _ (done ++ [p])); [exact Hb|exact Hr| | |intros st' ? ? ? _ _; by apply HQ].
  - unfold add_param, method_object. simpl. rewrite length_app, Nat2Z.inj_add. simpl. by rewrite u16_id by lia.
  - apply all2_snoc; [apply Hb|done].
Qed.

(** ** Parameters *)

(** A parser that reads back a parameter. *)
Definition param_reads (inner : parse Z) (p : sig_type) : Prop :=
  (exists b tl, enc p = b :: tl /\ head_fine p b) /\ param_fine h p /\ p <> S_none /\ reads inner p.

Definition count (params : list sig_type) : Z := Z.of_nat (length params) - (if has_sentinel params then 1 else 0).

Lemma count_cons p params : is_sentinel p = false -> count (p :: params) = 1 + count params.
Proof. intros Es. unfold count, has_sentinel. cbn [length existsb]. rewrite Es, orb_false_l. case_match; lia. Qed.

Lemma param_count_nonneg params : 0 <= count params.
Proof. unfold count. destruct params; simpl; [lia|case_match; lia]. Qed.

Lemma has_sentinel_app l k : has_sentinel (l ++ k) = has_sentinel l || has_sentinel k.
Proof. apply existsb_app. Qed.

Lemma sentinels_none params : sentinels_ok true params -> has_sentinel params = false.
Proof.
  induction params as [|p params IH]; simpl; [done|]. destruct (is_sentinel p); [by intros []|]. apply IH.
Qed.

Lemma method_kind_add conv done p : 0 <= conv < 0x80 -> is_sentinel p = false ->
  method_kind_of conv (done ++ [p]) = method_kind_of conv done.
Proof. intros _ Hp. unfold method_kind_of. rewrite has_sentinel_app. simpl. by rewrite Hp, !orb_false_r. Qed.

Lemma method_kind_sentinel_add conv done : 0 <= conv < 0x80 -> has_sentinel done = false ->
  Z.lor (method_kind_of conv done) IL_TYPE_COMPLEX_METHOD_SENTINEL = method_kind_of conv (done ++ [S_sentinel]).
Proof.
  intros Hc Hd. unfold method_kind_of. rewrite has_sentinel_app, Hd. simpl. change IL_TYPE_COMPLEX_METHOD_SENTINEL with 1.
  change IL_TYPE_COMPLEX_METHOD with 16. rewrite (lor_add _ 1 1); width_lia.
Qed.

(** A parameter at the end of what is read. *)
Lemma parsed_param n a done kind ret ts g p bytes t st st1 (Q : unit -> SigState -> Prop) :
  building st n a done kind ret ts g -> parsed p bytes st t st1 -> param_fine h p -> Z.of_nat (length done) < 0xFFFF ->
  (forall st2, building st2 n a (done ++ [p]) kind ret (ts ++ [t]) g -> ready st2 bytes -> grows a st st2 -> Q tt st2) ->
  runs (ILTypeAddParam a t) Q st1.
Proof.
  intros Hb [Hr Hg Hd Hv] Hf Hl HQ. pose proof (building_later _ _ _ _ _ _ _ _ _ Hb Hg) as Hb1. pose proof (bd_at _ _ _ _ _ _ _ _ Hb) as Ha.
  eapply (building_add n a done _ _ _ _ p); [exact Hb1|exact Hr|done| | |].
  - eapply denotes_frame; [|exact Hd]. unfold within. intros x Hx. split; [lia|done].
  - eapply denotes_primitive; [apply Hr|exact Hd|done|done].
  - intros st2 Hb2 Hr2 Hg2. apply HQ; [done|done|]. eapply grows_trans; [|exact Hg2]. eapply grows_below; [|exact Hg]. lia.
Qed.

(** [ILTypeAddSentinel]. *)
Lemma building_sentinel n a conv done ret ts g st (Q : unit -> SigState -> Prop) bytes :
  0 <= conv < 0x80 -> has_sentinel done = false -> Z.of_nat (length done) < 0xFFFF ->
  building st n a done (method_kind_of conv done) ret ts g -> ready st bytes ->
  (forall ts' st', building st' n a (done ++ [S_sentinel]) (method_kind_of conv (done ++ [S_sentinel])) ret ts' g ->
     ready st' bytes -> grows a st st' -> Q tt st') ->
  runs (ILTypeAddSentinel a) Q st.
Proof.
  intros Hcv Hno Hl Hb Hr HQ. pose proof (bd_at _ _ _ _ _ _ _ _ Hb) as Ha. apply runs_bind, runs_alloc. set (st1 := mk_sig _ _ _).
  assert (grows (sig_next st) st st1) as G1 by (apply grows_alloc; lia).
  assert (ready st1 bytes) as Hr1 by (eapply ready_grows; [exact Hr|exact G1|apply next_ok_alloc, Hr|done]).
  pose proof (building_later _ _ _ _ _ _ _ _ _ Hb G1) as Hb1. pose proof sizeof_ILType_pos. apply runs_bind.
  eapply (building_change n a done _ _ _ _ _ (method_kind_of conv (done ++ [S_sentinel])) ret ts g done); [exact Hb1|exact Hr1| |apply Hb1|].
  { simpl. unfold set_kind, method_object. simpl. by rewrite method_kind_sentinel_add by done. }
  intros st2 Hb2 Hr2 G2 En2 Hx2. assert (is_object (within (a + 1) (sig_next st2)) (sig_next st)) as Hobj.
  { apply object_at; [apply Hr|]. rewrite En2. simpl. lia. }
  assert (type_at (sig_heap st2) (sig_next st) = var_object IL_TYPE_COMPLEX_SENTINEL 0) as Ex.
  { rewrite Hx2 by lia. simpl. by rewrite Z.eqb_refl. }
  eapply (building_add n a done _ _ _ _ S_sentinel); [exact Hb2|exact Hr2|done| | |].
  - split; [done|]. by rewrite Ex.
  - apply (denotes_primitive h depth (type_at (sig_heap st2)) (within (a + 1) (sig_next st2)) _ S_sentinel); [apply Hr2| |done|done]. split; [done|]. by rewrite Ex.
  - intros st3 Hb3 Hr3 G3. eapply HQ; [exact Hb3|done|]. eapply grows_trans; [|exact G3]. eapply grows_trans; [|exact G2].
    eapply grows_below; [|exact G1]. lia.
Qed.

Lemma run_params inner conv ret g rest n a numParams todo done ts param saw fuel (Q : option bool -> SigState -> Prop) st :
  0 <= conv < 0x80 ->
  Forall (fun p => is_sentinel p = true \/ param_reads inner p) todo ->
  sentinels_ok saw todo -> saw = has_sentinel done -> numParams = param + count todo -> 0 <= param <= Z.of_nat (length done) ->
  Z.of_nat (length done) + Z.of_nat (length todo) <= 0xFFFF -> (length todo <= fuel)%nat ->
  building st n a done (method_kind_of conv done) ret ts g -> ready st (concat (map enc todo) ++ rest) ->
  (forall ts' st', building st' n a (done ++ todo) (method_kind_of conv (done ++ todo)) ret ts' g -> ready st' rest -> grows a st st' ->
     Q (Some (has_sentinel (done ++ todo))) st') ->
  runs (parse_params fuel inner numParams a param saw) Q st.
Proof.
  intros Hcv. revert done ts param saw fuel st. induction todo as [|p todo IH]; intros done ts param saw fuel st Hp Hs Hsaw En Hpar Hlen Hf Hb Hr HQ.
  { rewrite app_nil_r in HQ. unfold count in En. simpl in En.
    assert (parse_params fuel inner numParams a param saw = mret (Some saw)) as ->.
    { destruct fuel; simpl; by rewrite (proj2 (Z.ltb_ge _ _)) by lia. }
    apply runs_ret. rewrite Hsaw. by eapply HQ; [exact Hb|exact Hr|apply grows_refl]. }
  destruct fuel as [|fuel]; [simpl in Hf; lia|]. cbn [parse_params]. inversion_clear Hp as [|? ? Hp1 Hp'].
  cbn [sentinels_ok] in Hs. cbn [length] in Hlen, Hf. simpl concat in Hr. rewrite <- app_assoc in Hr.
  pose proof (bd_at _ _ _ _ _ _ _ _ Hb) as Ha.
  destruct (is_sentinel p) eqn:Es.
  - destruct p; try done. destruct Hs as (Hsaw' & Hne & Hs). pose proof (sentinels_none _ Hs) as Hno.
    assert (1 <= Z.of_nat (length todo)) as Hl1 by (destruct todo; [done|simpl length; lia]).
    assert (count (S_sentinel :: todo) = Z.of_nat (length todo)) as Ec by (unfold count; cbn [length has_sentinel existsb is_sentinel orb]; lia).
    rewrite (proj2 (Z.ltb_lt _ _)) by lia. simpl in Hr.
    apply runs_bind. eapply (next_mark h more); [exact Hr|]. rewrite Z.eqb_refl, Hsaw'. cbn [orb].
    rewrite (proj2 (Z.ltb_ge 0xFFFE _)) by lia.
    apply runs_bind. eapply (skip_mark h more); [exact Hr|]. intros Hr1. set (st1 := at_bytes more st _) in *.
    assert (building st1 n a done (method_kind_of conv done) ret ts g) as Hb1 by (eapply building_later; [exact Hb|apply grows_reader]).
    apply runs_bind. eapply (building_sentinel n a conv done); [done|congruence|lia|exact Hb1|exact Hr1|]. intros ts2 st2 Hb2 Hr2 G2.
    eapply (IH (done ++ [S_sentinel])); [done|exact Hs| | |..|exact Hb2|exact Hr2|].
    + rewrite has_sentinel_app. simpl. by rewrite orb_true_r.
    + unfold count. rewrite Hno. lia.
    + rewrite length_app. simpl. lia.
    + rewrite length_app. simpl. lia.
    + lia.
    + intros ts' st3 Hb3 Hr3 G3. rewrite <- app_assoc in *. eapply HQ; [exact Hb3|exact Hr3|].
      eapply grows_trans; [exact (grows_at _ _ _ _ _ G2)|exact G3].
  - destruct Hp1 as [|((b & tl & Eb & Hhead) & Hfine & Hnone & Hreads)]; [done|].
    pose proof (count_cons p todo Es) as Ec. pose proof (param_count_nonneg todo) as Hc0.
    rewrite (proj2 (Z.ltb_lt _ _)) by lia. apply runs_bind. pose proof Hr as Hr0. rewrite Eb in Hr0. simpl in Hr0.
    eapply (next_mark h more); [exact Hr0|]. rewrite (proj2 (Z.eqb_neq _ _)) by (apply Hhead).
    apply runs_bind. eapply runs_mono; [|by apply Hreads]. intros t st1 Hpd.
    rewrite (proj2 (Z.eqb_neq _ _)) by (eapply denotes_valid; [apply Hpd|done]).
    apply runs_bind. eapply (parsed_param n a done); [exact Hb|exact Hpd|done|lia|]. intros st2 Hb2 Hr2 G2.
    rewrite <- (method_kind_add conv done p) in Hb2 by done.
    eapply (IH (done ++ [p])); [done|exact Hs| | |..|exact Hb2|exact Hr2|].
    + rewrite has_sentinel_app. simpl. by rewrite Es, !orb_false_r.
    + lia.
    + rewrite length_app. simpl. lia.
    + rewrite length_app. simpl. lia.
    + lia.
    + intros ts' st3 Hb3 Hr3 G3. rewrite <- app_assoc in *. eapply HQ; [exact Hb3|exact Hr3|]. by eapply grows_trans.
Qed.

(** ** Methods *)

Lemma set_call_conv conv : 0 <= conv < 0x80 ->
  i16 (Z.lor (Z.land IL_TYPE_COMPLEX_METHOD 0xFF) (u32 (Z.shiftl conv 8))) = method_kind_of conv [].
Proof.
  intros Hc. unfold method_kind_of. change (Z.land IL_TYPE_COMPLEX_METHOD 0xFF) with 16. change IL_TYPE_COMPLEX_METHOD with 16.
  rewrite Z.shiftl_mul_pow2, Z.lor_comm, u32_id by (unfold IL_MAX_UINT32; lia). rewrite (lor_add _ 16 8) by width_lia. simpl. width_lia.
Qed.

Definition kind_of_signature (params : list sig_type) : SignatureKind :=
  if has_sentinel params then SIGNATURE_METHOD_REF else SIGNATURE_METHOD_DEF.

(** The finished object. *)
Lemma denotes_method st n a conv ngen ret params r ts :
  building st n a params (method_kind_of conv params) r ts ngen -> denotes h depth (type_at (sig_heap st)) (within n a) ret r ->
  0 <= conv < 0x80 -> Z.of_nat (length params) <= 0xFFFF -> 0 <= ngen <= IL_MAX_UINT32 ->
  denotes h depth (type_at (sig_heap st)) (within n (sig_next st)) (S_method conv ngen ret params) a.
Proof.
  intros [Ha Hok Eo Hp] Hr Hc Hl Hg. cbn [denotes]. rewrite Eo. split; [by apply object_at|]. simpl. split_and!; try done; try lia.
  - eapply denotes_frame; [|exact Hr]. unfold within. intros x Hx. split; [lia|done].
  - eapply all2_impl; [|exact Hp]. intros p t _. apply denotes_frame. unfold within. intros x Hx. split; [lia|done].
Qed.

Lemma run_finish_method inner conv ngen ret r params rest n a st (Q : Z * SignatureKind -> SigState -> Prop) :
  0 <= conv < 0x80 -> Forall (fun p => is_sentinel p = true \/ param_reads inner p) params -> sentinel_fine conv params ->
  Z.of_nat (length params) <= 0xFFFF -> building st n a [] IL_TYPE_COMPLEX_METHOD r [] 0 ->
  ready st (concat (map enc params) ++ rest) -> denotes h depth (type_at (sig_heap st)) (within n a) ret r -> 0 <= ngen <= IL_MAX_UINT32 ->
  (forall st', ready st' rest -> grows a st st' ->
     denotes h depth (type_at (sig_heap st')) (within n (sig_next st')) (S_method conv ngen ret params) a -> Q (a, kind_of_signature params) st') ->
  runs (finish_method inner a conv ngen (count params)) Q st.
Proof.
  intros Hc Hp [Hs Hva] Hl Hb Hr Hd Hg HQ. unfold finish_method, ILTypeSetCallConv. apply runs_bind.
  eapply (building_change n a [] _ _ _ _ _ (method_kind_of conv []) r [] 0 []); [exact Hb|exact Hr| |done|].
  { unfold set_kind. simpl. by rewrite set_call_conv. }
  intros st1 Hb1 Hr1 G1 _ _. apply runs_bind.
  eapply (building_change n a [] _ _ _ _ _ (method_kind_of conv []) r [] ngen []); [exact Hb1|exact Hr1|done|done|].
  intros st2 Hb2 Hr2 G2 _ _. apply runs_bind. pose proof (param_count_nonneg params).
  eapply (run_params inner conv r ngen rest n a _ params [] [] 0 false); [done|done|done|done|lia|simpl; lia|simpl; lia| |exact Hb2|exact Hr2|].
  { unfold count. case_match; lia. }
  intros ts st3 Hb3 Hr3 G3. simpl app in *. apply runs_bind, runs_get.
  assert (Z.land (Z.shiftr (o_kind (type_at (sig_heap st3) a)) 8) IL_META_CALLCONV_MASK = Z.land conv IL_META_CALLCONV_MASK) as ->.
  { rewrite (bd_object _ _ _ _ _ _ _ _ Hb3). simpl. by rewrite method_kind_shift. }
  assert (grows a st st3) as G by (eapply grows_trans; [exact G1|]; by eapply grows_trans).
  assert (denotes h depth (type_at (sig_heap st3)) (within n (sig_next st3)) (S_method conv ngen ret params) a) as Hden.
  { eapply denotes_method; [exact Hb3| |done..]. eapply denotes_frame; [|exact Hd]. unfold within. intros x Hx. split; [done|].
    apply (gr_type _ _ _ G). lia. }
  unfold kind_of_signature in HQ. destruct (has_sentinel params); simpl.
  - destruct (Hva eq_refl) as [-> | ->]; apply runs_ret; by apply HQ.
  - apply runs_ret. by apply HQ.
Qed.

(** What is known of a method whose parts can be read. *)
Record method_reads (elem : Z -> parse Z) (conv ngen : Z) (ret : sig_type) (params : list sig_type) : Prop := {
  mr_conv : 0 <= conv < 0x80;
  mr_known : existsb (Z.eqb (Z.land conv IL_META_CALLCONV_MASK)) method_conventions = true;
  mr_generic : if Z.land conv IL_META_CALLCONV_GENERIC =? 0 then ngen = 0 else 0 <= ngen <= 0xFF;
  mr_count : Z.of_nat (length params) <= 0xFFFF;
  mr_sentinel : sentinel_fine conv params;
  mr_ret : if instantiation conv then ret = S_none
           else param_fine h ret /\ ret <> S_none /\ reads (elem (Z.lor CATEGORY_PARAM CATEGORY_VOID)) ret;
  mr_params : Forall (fun p => is_sentinel p = true \/ param_reads (elem CATEGORY_PARAM) p) params;
}.

(** The result type, which an instantiation does not have. *)
Lemma read_result elem conv ngen ret params bytes st (Q : Z -> SigState -> Prop) :
  method_reads elem conv ngen ret params ->
  ready st ((if instantiation conv then [] else enc ret) ++ bytes) ->
  (forall t st', parsed ret bytes st t st' -> (t =? 0) && negb (instantiation conv) = false -> param_fine h ret -> Q t st') ->
  runs (if negb (instantiation conv) then elem (Z.lor CATEGORY_PARAM CATEGORY_VOID) else mret 0) Q st.
Proof.
  intros Hm Hr HQ. pose proof (mr_ret _ _ _ _ _ Hm) as Hret. destruct (instantiation conv); simpl.
  - subst ret. apply runs_ret, HQ; [|by rewrite andb_false_r|done]. split; [done|apply grows_refl|done|done].
  - destruct Hret as (Hf & Hn & Hre). eapply runs_mono; [|by apply Hre]. intros t st' Hp. apply HQ; [done| |done].
    rewrite (proj2 (Z.eqb_neq _ _)); [done|]. eapply denotes_valid; [apply Hp|done].
Qed.

(** The number of generic parameters, when the convention has them. *)
Lemma read_generic conv ngen bytes st (Q : Z -> SigState -> Prop) :
  ready st ((if negb (Z.land conv IL_META_CALLCONV_GENERIC =? 0) then WriteValue ngen else []) ++ bytes) ->
  (if Z.land conv IL_META_CALLCONV_GENERIC =? 0 then ngen = 0 else 0 <= ngen <= 0xFF) ->
  (forall st', ready st' bytes -> sig_heap st' = sig_heap st /\ sig_next st' = sig_next st -> Q ngen st') ->
  runs (if negb (Z.land conv IL_META_CALLCONV_GENERIC =? 0) then uncompress ILMetaUncompressData else mret 0) Q st.
Proof.
  intros Hr Hg HQ. destruct (Z.land conv IL_META_CALLCONV_GENERIC =? 0); simpl in *.
  - subst ngen. apply runs_ret. by apply HQ.
  - eapply (read_data h more ngen bytes); [exact Hr|unfold IL_MAX_UINT32; lia|]. intros Hr'. by apply HQ.
Qed.

Lemma reads_signature elem signature conv ngen ret params rest st :
  method_reads elem conv ngen ret params ->
  ready st (method_bytes conv ngen params (enc ret) (concat (map enc params)) ++ rest) ->
  runs (parse_signature (Some (elem, signature)))
    (fun r st' => parsed (S_method conv ngen ret params) rest st (fst r) st' /\ snd r = kind_of_signature params) st.
Proof.
  intros Hm Hr. pose proof (mr_conv _ _ _ _ _ Hm) as Hc. pose proof (mr_generic _ _ _ _ _ Hm) as Hg. pose proof (mr_count _ _ _ _ _ Hm) as Hl.
  unfold method_bytes in Hr. rewrite <- !app_assoc in Hr. simpl app in Hr. pose proof (param_count_nonneg params) as Hc0.
  assert (count params <= 0xFFFF) as Hc1 by (unfold count; destruct (has_sentinel params); lia).
  assert (0 <= ngen <= 0xFF) as Hgen by (destruct (Z.land conv IL_META_CALLCONV_GENERIC =? 0); lia).
  apply runs_bind, (read_mark h more _ _ _ _ Hr Hc). intros Hr1. cbn beta zeta. rewrite (mr_known _ _ _ _ _ Hm). unfold parse_method. apply runs_bind.
  set (bytes := WriteValue (Z.of_nat (length params) - (if has_sentinel params then 1 else 0)) ++ _) in *.
  eapply (read_generic conv ngen bytes); [exact Hr1|done|]. intros st1' Hr2 [Eh En]. rewrite (proj2 (Z.ltb_ge _ _)) by lia.
  subst bytes. clear Hr Hr1. change (sig_heap (at_bytes more st _)) with (sig_heap st) in Eh. change (sig_next (at_bytes more st _)) with (sig_next st) in En.
  apply runs_bind, (read_data h more (count params) _ _ _ Hr2); [unfold IL_MAX_UINT32; lia|]. intros Hr3.
  rewrite (proj2 (Z.ltb_ge _ _)) by lia. apply runs_bind. set (st0 := at_bytes more _ _) in *.
  eapply (read_result elem conv ngen); [done|exact Hr3|]. intros t st1 Hp Et Hf. change (_ =? IL_META_CALLCONV_INSTANTIATION) with (instantiation conv). rewrite Et.
  unfold ILTypeCreateMethod. apply runs_bind, runs_bind, runs_get.
  rewrite (denotes_primitive h depth _ _ _ ret t (rd_class _ _ _ _ (pd_ready _ _ _ _ _ _ _ _ Hp)) (pd_denotes _ _ _ _ _ _ _ _ Hp) (pd_value _ _ _ _ _ _ _ _ Hp) Hf).
  eapply (runs_around h depth more); [exact Hp|]. intros st2 Hr4 G2 Ho Eo Hd Hn.
  subst st0. simpl in G2, Ho, Hd. rewrite En in *.
  eapply (run_finish_method _ conv ngen ret t params rest (sig_next st) (sig_next st1)); [done|apply Hm|apply Hm|done| |exact Hr4|exact Hd|unfold IL_MAX_UINT32; lia|].
  { destruct Ho as (_ & _ & Ho). split; [exact Ho|apply Hp|exact Eo|done]. }
  intros st3 Hr5 G3 Hden. split; [|done]. split; [done| |exact Hden|done].
  assert (grows (sig_next st) st st2) as G2'.
  { destruct G2 as [H1 H2 H3 H4 H5]. simpl in *. rewrite Eh in *. split; try done. lia. }
  eapply grows_trans; [exact G2'|]. eapply grows_below; [|exact G3].
  pose proof (gr_next _ _ _ (pd_grows _ _ _ _ _ _ _ _ Hp)) as Hn'. simpl in Hn'. lia.
Qed.

(** ** Instantiations *)

Definition with_reads (inner : parse Z) (p : sig_type) : Prop := param_fine h p /\ p <> S_none /\ reads inner p.

Lemma run_with_params inner r rest n a todo done ts st (Q : Z -> SigState -> Prop) :
  Forall (with_reads inner) todo -> Z.of_nat (length done) + Z.of_nat (length todo) <= 0xFFFF ->
  building st n a done IL_TYPE_COMPLEX_WITH r ts 0 -> ready st (concat (map enc todo) ++ rest) ->
  (forall ts' st', building st' n a (done ++ todo) IL_TYPE_COMPLEX_WITH r ts' 0 -> ready st' rest -> grows a st st' -> Q a st') ->
  runs (parse_with_params inner a (length todo)) Q st.
Proof.
  revert done ts st. induction todo as [|p todo IH]; intros done ts st Hp Hl Hb Hr HQ; simpl.
  { apply runs_ret. eapply HQ; [by rewrite app_nil_r|done|apply grows_refl]. }
  inversion_clear Hp as [|? ? (Hf & Hn & Hre) Hp']. simpl in Hr, Hl. rewrite <- app_assoc in Hr.
  apply runs_bind. eapply runs_mono; [|by apply Hre]. intros t st1 Hpd.
  rewrite (proj2 (Z.eqb_neq _ _)) by (eapply denotes_valid; [apply Hpd|done]).
  apply runs_bind. eapply (parsed_param n a done); [exact Hb|exact Hpd|done|lia|]. intros st2 Hb2 Hr2 G2.
  eapply (IH (done ++ [p])); [done|rewrite length_app; simpl; lia|exact Hb2|exact Hr2|].
  intros ts' st3 Hb3 Hr3 G3. rewrite <- app_assoc in Hb3. eapply HQ; [exact Hb3|exact Hr3|]. by eapply grows_trans.
Qed.

Lemma reads_with inner main params rest st :
  reads inner main -> main <> S_none -> Forall (with_reads inner) params -> Z.of_nat (length params) <= 0xFF ->
  ready st (enc main ++ [u8 (Z.of_nat (length params))] ++ concat (map enc params) ++ rest) ->
  runs (parse_with inner) (parsed (S_with main params) rest st) st.
Proof.
  intros Hm Hne Hp Hl Hr. apply runs_bind. eapply runs_mono; [|by apply Hm]. intros t st1 Hpd.
  rewrite (proj2 (Z.eqb_neq _ _)) by (eapply denotes_valid; [apply Hpd|done]). apply runs_bind.
  eapply (runs_around h depth more); [exact Hpd|]. intros st2 Hr2 G2 Ho Eo Hd Hn. simpl in Hr2.
  apply runs_bind, (read_raw h more _ _ _ _ Hr2). intros Hr3. rewrite u8_id, Nat2Z.id by lia.
  eapply (run_with_params inner t rest (sig_next st) (sig_next st1) params []); [done|simpl; lia| |exact Hr3|].
  { destruct Ho as (_ & _ & Ho). split; [exact Ho|apply Hpd|exact Eo|done]. }
  intros ts st3 [Hb1 Hb2 Hb3 Hb4] Hr4 G3. simpl app in *. apply grows_at in G3.
  pose proof (gr_next _ _ _ (pd_grows _ _ _ _ _ _ _ _ Hpd)) as Hn'.
  split; [done|eapply grows_trans; [exact G2|]; eapply grows_below; [|exact G3]; lia| |done].
  cbn [denotes]. rewrite Hb3. split; [by apply object_at|]. simpl. split_and!; try done; try lia.
  - eapply denotes_frame; [|exact Hd]. unfold within. intros x Hx. split; [lia|]. apply (gr_type _ _ _ G3). lia.
  - eapply all2_impl; [|exact Hb4]. intros p u _. apply denotes_frame. unfold within. intros x Hx. split; [lia|done].
Qed.

End Method.
