(* ===== verification/SignatureRoundtrip.v ===== *)
(** * Signatures are read back as they were written

    The parser makes of the signature of a tree a type that stands for the same
    tree, so what [ILTypeToMethodSig], [ILTypeToFieldSig] and [ILTypeToOtherSig]
    write comes back from the functions that parse such signatures. *)
From Stdlib Require Import ZArith Lia String.
From stdpp Require Import base list option numbers.
From S2P Require Import Prelude Compress Opcodes Cvm JumpMask Scan Coder Types Metadata Signature SignatureRun SignatureTotal SignatureTree SignatureWrite SignatureRead SignatureIdentical SignatureParse SignatureMethod.

Local Open Scope Z_scope.

Section Roundtrip.
Context {PF : Platform} {IT : ImageTokens}.
Variables (h : Heap) (depth : nat) (more : list Z).
Hypothesis Hmore : Forall is_byte more.
#[local] Abbreviation ready := (ready h more).
#[local] Abbreviation enc := (encode h).
#[local] Abbreviation parsed := (parsed h depth more).
#[local] Abbreviation reads := (reads h depth more).
#[local] Abbreviation element_reads := (element_reads h depth more).

Lemma parsable_some d categories s : parsable h depth d categories s -> s <> S_none.
Proof. destruct s, d; simpl; congruence. Qed.

(** ** Leaves *)

(** An element that is a value at once. *)
Lemma element_value rec categories s b t :
  enc s = [b] -> head_fine s b -> value_import s t -> (forall types P, denotes h depth types P s t) ->
  parse_element rec categories b = mret t -> element_reads rec categories s.
Proof.
  intros Eb Hb Hv Hd E. exists b, []. split; [done|]. split; [done|]. intros rest st Hr. rewrite E. apply runs_ret.
  split; [done|apply grows_refl|apply Hd|done].
Qed.

Lemma element_primitive rec d categories elem :
  parsable h depth d categories (S_primitive elem) -> element_reads rec categories (S_primitive elem).
Proof.
  intros Hp. destruct (encode_head _ _ _ _ _ Hp) as (b & tl & Eb & Hb). simpl in Eb. injection Eb as <- <-.
  apply (element_value _ _ _ elem (ILType_FromElement elem)); [done|done|done| |].
  { intros types P. simpl. split; [done|]. destruct Hb. lia. }
  assert (if elem =? IL_META_ELEMTYPE_VOID then allowed categories CATEGORY_VOID = true
    else if elem =? IL_META_ELEMTYPE_TYPEDBYREF then allowed categories CATEGORY_TYPEDBYREF = true
    else existsb (Z.eqb elem) simple_elements = true) as Hp' by (by destruct d).
  destruct (Z.eqb_spec elem IL_META_ELEMTYPE_VOID) as [-> |Hv].
  { unfold parse_element. by rewrite Z.eqb_refl, Hp'. }
  destruct (Z.eqb_spec elem IL_META_ELEMTYPE_TYPEDBYREF) as [-> |Ht].
  { change (parse_element rec categories IL_META_ELEMTYPE_TYPEDBYREF) with (mret (M := parse) (if allowed categories CATEGORY_TYPEDBYREF then ILType_TypedRef else 0)). by rewrite Hp'. }
  unfold parse_element. apply Z.eqb_neq in Hv. by rewrite Hv, Hp'.
Qed.

Lemma tagged info tag : Z.land info 3 = 0 -> 0 <= tag < 4 ->
  Z.land (Z.lor info tag) 3 = tag /\ Z.land (Z.lor info tag) (Z.lnot 3) = info.
Proof.
  rewrite land_3. intros Hi Ht. assert (Z.lor info tag = info + tag) as -> by (apply (lor_add info tag 2); width_lia).
  rewrite land_3. split; [width_lia|]. rewrite <- Z.ldiff_land. change 3 with (Z.ones 2). rewrite Z.ldiff_ones_r by lia.
  rewrite Z.shiftr_div_pow2, Z.shiftl_mul_pow2 by lia. width_lia.
Qed.

Lemma class_tag info : is_class info -> ILType_IsClass (ILType_FromClass info) = true /\ ILType_ToClass (ILType_FromClass info) = info.
Proof. intros [_ Hi]. destruct (tagged info 2 Hi ltac:(lia)) as [E1 E2]. unfold ILType_IsClass, ILType_FromClass. by rewrite E1. Qed.
Lemma value_tag info : is_class info -> ILType_IsValueType (ILType_FromValueType info) = true /\ ILType_ToValueType (ILType_FromValueType info) = info.
Proof. intros [_ Hi]. destruct (tagged info 3 Hi ltac:(lia)) as [E1 E2]. unfold ILType_IsValueType, ILType_FromValueType. by rewrite E1. Qed.

Lemma denotes_class types P c i : is_class i -> refers h depth i c -> denotes h depth types P (S_class c) (ILType_FromClass i).
Proof. intros Hi Hr. simpl. destruct (class_tag i Hi) as [-> ->]. done. Qed.

(** A class of the system library that has a byte of its own. *)
Lemma read_system c name rest st : system_found h depth c name -> ready st rest -> runs (system_type name) (parsed (S_class c) rest st) st.
Proof.
  intros (o & Eo & Ho & Hr) Hst. apply runs_bind, runs_get, runs_ret. rewrite (rd_system _ _ _ _ Hst), Eo.
  split; [done|apply grows_refl|by apply denotes_class|done].
Qed.

Lemma element_class rec categories c : class_found h depth c -> element_reads rec categories (S_class c).
Proof.
  intros Hc. unfold element_reads, encode, class_bytes. unfold class_found in Hc. destruct (is_system h c "Object").
  { eexists _, _. split; [reflexivity|]. split; [vm_compute; by split_and!|]. intros rest st Hr. by apply read_system. }
  destruct (is_system h c "String").
  { eexists _, _. split; [reflexivity|]. split; [vm_compute; by split_and!|]. intros rest st Hr. by apply read_system. }
  eexists _, _. split; [reflexivity|]. split; [vm_compute; by split_and!|]. intros rest st Hr.
  change (parse_element rec categories IL_META_ELEMTYPE_CLASS) with parse_class.
  apply runs_bind. eapply (read_token h more depth c); [exact Hr|done|]. intros token Ht Ei Hr1. apply runs_ret.
  rewrite (proj2 (Z.eqb_neq _ _)), Ei by done. destruct Hc as (_ & _ & _ & _ & _ & _ & Hi & Href).
  split; [done|apply grows_reader|by apply denotes_class|done].
Qed.

Lemma element_value_type rec categories c : value_found h depth c -> element_reads rec categories (S_value c).
Proof.
  intros [Hn Hc]. unfold element_reads, encode, value_bytes. rewrite Hn.
  eexists _, _. split; [reflexivity|]. split; [vm_compute; by split_and!|]. intros rest st Hr.
  change (parse_element rec categories IL_META_ELEMTYPE_VALUETYPE) with parse_value_type.
  apply runs_bind. eapply (read_token h more depth c); [exact Hr|done|]. intros token Ht Ei Hr1. apply runs_ret.
  rewrite (proj2 (Z.eqb_neq _ _)), Ei by done. destruct Hc as (_ & _ & _ & _ & _ & _ & Hi & Href).
  destruct (value_tag _ Hi) as [E1 E2]. split; [done|apply grows_reader| |done]. simpl. by rewrite E1, E2.
Qed.

Lemma element_var rec d categories kind num :
  parsable h depth d categories (S_var kind num) -> element_reads rec categories (S_var kind num).
Proof.
  intros Hp. assert (generic_var_kind kind = true /\ 0 <= num < 0x100) as [Hk Hn] by (by destruct d).
  exists (var_byte kind), [u8 num]. split; [done|]. split; [unfold var_byte; case_match; vm_compute; by split_and!|].
  intros rest st Hr. assert (parse_element rec categories (var_byte kind) = parse_var kind) as ->.
  { apply orb_true_iff in Hk as [->%Z.eqb_eq| ->%Z.eqb_eq]; done. }
  apply runs_bind, (read_raw h more _ _ _ _ Hr). intros Hr1. rewrite u8_id by lia. apply runs_alloc. pose proof sizeof_ILType_pos.
  set (st1 := mk_sig _ _ _). assert (grows (sig_next st) (at_bytes more st rest) st1) as G1 by (by apply grows_alloc).
  split; [|exact (grows_at _ _ _ _ _ G1)| |done].
  - eapply ready_grows; [exact Hr1|exact G1|apply next_ok_alloc, Hr|done].
  - cbn [denotes]. simpl. rewrite Z.eqb_refl. simpl. split_and!; try done. apply object_at; [apply Hr|simpl; lia].
Qed.

(** ** Types *)

Definition rec_of (d : nat) : Deeper :=
  match d with S d => Some (ParseElemType d, ParseSignature d) | O => None end.

Lemma ParseElemType_eq d categories : ParseElemType d categories = parse_elem_type (rec_of d) categories.
Proof. by destruct d. Qed.
Lemma ParseSignature_eq d : ParseSignature d = parse_signature (rec_of d).
Proof. by destruct d. Qed.

(** The types of [d] levels are read. *)
Definition all_read (d : nat) : Prop :=
  forall categories s, parsable h depth d categories s -> reads (ParseElemType d categories) s.

Lemma method_parsable_reads d categories conv ngen ret params :
  all_read d -> parsable h depth (S (S d)) categories (S_method conv ngen ret params) ->
  method_reads h depth more (ParseElemType d) conv ngen ret params.
Proof.
  intros IH (Hc & Hk & Hg & Hl & Hs & Hr & Hp). split; try done.
  - destruct (instantiation conv); [done|]. destruct Hr as [Hf Hr]. split; [done|]. split; [by eapply parsable_some|by apply IH].
  - apply all1_Forall. eapply all1_impl; [|exact Hp]. intros p _ [Hs'|[Hf Hp']]; [by left|right].
    split; [by eapply encode_head|]. split; [done|]. split; [by eapply parsable_some|by apply IH].
Qed.

Lemma element_ref d categories kind s :
  all_read d -> parsable h depth (S d) categories (S_ref kind s) -> element_reads (rec_of (S d)) categories (S_ref kind s).
Proof.
  intros IH Hp. destruct (encode_head _ _ _ _ _ Hp) as (b & tl & Eb & Hb). cbn [encode] in Eb. injection Eb as <- <-.
  exists (ref_byte kind), (enc s). split; [done|]. split; [done|]. intros rest st Hr.
  destruct Hp as [[-> Hp]|[(-> & Ha & Hp)|(-> & Ha & Hp)]]; pose proof (parsable_some _ _ _ Hp) as Hne; pose proof (IH _ _ Hp) as Hre.
  - by apply reads_ref.
  - change (parse_element (rec_of (S d)) categories (ref_byte IL_TYPE_COMPLEX_BYREF)) with
      (if allowed categories CATEGORY_BYREF
       then parse_around (ParseElemType d (Z.land categories (Z.lnot CATEGORY_BYREF))) (ILTypeCreateRef IL_TYPE_COMPLEX_BYREF) else mret 0).
    rewrite Ha. by apply reads_ref.
  - change (parse_element (rec_of (S d)) categories (ref_byte IL_TYPE_COMPLEX_PINNED)) with
      (if allowed categories CATEGORY_PINNED then parse_around (ParseElemType d categories) (ILTypeCreateRef IL_TYPE_COMPLEX_PINNED) else mret 0).
    rewrite Ha. by apply reads_ref.
Qed.

Lemma element_array d categories ds s :
  all_read d -> parsable h depth (S d) categories (S_array ds s) -> element_reads (rec_of (S d)) categories (S_array ds s).
Proof.
  intros IH (Hne & Hl & Hds & Hp). unfold element_reads. cbn [encode]. unfold array_bytes. pose proof (parsable_some _ _ _ Hp) as Hs.
  pose proof (IH _ _ Hp) as Hre. destruct (decide (ds = [(0, 0)])) as [-> |].
  - eexists _, _. split; [reflexivity|]. split; [vm_compute; by split_and!|]. intros rest st Hr. by apply reads_szarray.
  - eexists _, _. split; [reflexivity|]. split; [vm_compute; by split_and!|]. intros rest st Hr. rewrite <- app_assoc in Hr.
    by apply (reads_array h depth more Hmore).
Qed.

Lemma element_method d categories conv ngen ret params :
  all_read d -> parsable h depth (S (S d)) categories (S_method conv ngen ret params) ->
  element_reads (rec_of (S (S d))) categories (S_method conv ngen ret params).
Proof.
  intros IH Hp. pose proof (method_parsable_reads _ _ _ _ _ _ IH Hp) as Hm.
  exists IL_META_ELEMTYPE_FNPTR, (method_bytes conv ngen params (enc ret) (concat (map enc params))). split; [done|]. split; [vm_compute; by split_and!|]. intros rest st Hr. apply runs_bind.
  eapply runs_mono; [|by apply (reads_signature h depth more)]. intros [t kind] st' [Hpd Ek]. simpl in Hpd, Ek. apply runs_ret. subst kind.
  unfold kind_of_signature. by destruct (has_sentinel params).
Qed.

Lemma element_with d categories main params :
  all_read d -> parsable h depth (S d) categories (S_with main params) -> element_reads (rec_of (S d)) categories (S_with main params).
Proof.
  intros IH (Hl & Hm & Hp).
  exists IL_META_ELEMTYPE_WITH, (enc main ++ [u8 (Z.of_nat (length params))] ++ concat (map enc params)). split; [done|]. split; [vm_compute; by split_and!|]. intros rest st Hr.
  apply (reads_with h depth more); [by apply IH|by eapply parsable_some| |done|rewrite <- !app_assoc in Hr; exact Hr].
  apply all1_Forall. eapply all1_impl; [|exact Hp]. intros p _ [Hf Hp']. split; [done|]. split; [by eapply parsable_some|by apply IH].
Qed.

Lemma element_parsable d categories s :
  (forall d', (d' < d)%nat -> all_read d') -> is_modified s = false -> parsable h depth d categories s -> element_reads (rec_of d) categories s.
Proof.
  intros IH Hm Hp. destruct s as [|elem|c|c|kind s|ds s|kind c s|kind num| |conv ngen ret params|main params]; try done.
  - by eapply element_primitive.
  - apply element_class. by destruct d.
  - apply element_value_type. by destruct d.
  - destruct d as [|d]; [done|]. apply element_ref; [apply IH; lia|done].
  - destruct d as [|d]; [done|]. apply element_array; [apply IH; lia|done].
  - by eapply element_var.
  - destruct d as [|[|d]]; [done|done|]. apply element_method; [apply IH; lia|done].
  - destruct d as [|d]; [done|]. apply element_with; [apply IH; lia|done].
Qed.

Lemma reads_parsable d : all_read d.
Proof.
  induction d as [d IH] using lt_wf_ind. intros categories s Hp. destruct (modified_peel s) as (ms & s0 & -> & Hm).
  destruct (modified_parsable _ _ _ _ _ _ Hp) as (Hms & Ha & Hp0). rewrite ParseElemType_eq.
  apply (reads_elem_type h depth more Hmore); [done|done|done|by eapply parsable_some|]. by apply element_parsable.
Qed.

End Roundtrip.

(** ** Signatures *)

Section Signatures.
Context {PF : Platform} {IT : ImageTokens}.
Variable depth : nat.

(** The types of the heap. *)
Definition old (st : SigState) (a : Z) : Prop := a < sig_next st.

(** The type made from the bytes stands for [s] and is identical to [type]; its
    objects are new, and the ones that were there are as before. *)
Definition comes_back (st : SigState) (s : sig_type) (type : Z) (r : option (Z * SigState)) : Prop :=
  exists type' st', r = Some (type', st') /\
    denotes (sig_heap st) depth (type_at (sig_heap st')) (within (sig_next st) (sig_next st')) s type' /\
    Metadata.ILTypeIdentical (sig_heap st') depth depth type type' = Some true /\
    forall a, a < sig_next st -> type_at (sig_heap st') a = type_at (sig_heap st) a.

Lemma comes_back_intro st s type type' st' :
  denotes (sig_heap st) depth (type_at (sig_heap st)) (old st) s type -> (sig_size s <= depth)%nat ->
  denotes (sig_heap st) depth (type_at (sig_heap st')) (within (sig_next st) (sig_next st')) s type' ->
  grows (sig_next st) st st' -> comes_back st s type (Some (type', st')).
Proof.
  intros Hd Hs Hd' Hg. exists type', st'. split_and!; [done|done| |apply Hg].
  eapply (denotes_identical (sig_heap st)); [apply Hg|done|done| |exact Hd'].
  eapply denotes_frame; [|exact Hd]. intros a Ha. split; [exact Ha|by apply Hg].
Qed.

(** Reads from another place change the same heap. *)
Lemma grows_from n st m st' : grows n (mk_sig (sig_heap st) (sig_next st) m) st' -> grows n st st'.
Proof. by intros []; split. Qed.

(** The functions that parse the signature of a method with these conventions
    and parameters. *)
Inductive parses_method (conv : Z) (params : list sig_type) : (list Z -> Z -> parse Z) -> Prop :=
  | parses_def : has_sentinel params = false -> parses_method conv params ILTypeFromMethodDefSig
  | parses_ref : Z.land conv IL_META_CALLCONV_MASK = IL_META_CALLCONV_DEFAULT \/
      Z.land conv IL_META_CALLCONV_MASK = IL_META_CALLCONV_VARARG -> parses_method conv params ILTypeFromMethodRefSig
  | parses_standalone : parses_method conv params ILTypeFromStandAloneMethodSig.

#[local] Opaque ParseElemType ParseSignature.

(** The signature of a method and what its parsers make of it. *)
Lemma method_signature_back st type fuel conv ngen ret params more :
  denotes (sig_heap st) depth (type_at (sig_heap st)) (old st) (S_method conv ngen ret params) type ->
  method_parsable (sig_heap st) depth IL_TYPE_RECURSION_DEPTH conv ngen ret params ->
  (sig_size (S_method conv ngen ret params) <= fuel)%nat -> (sig_size (S_method conv ngen ret params) <= depth)%nat -> next_ok (sig_next st) -> Forall is_byte more ->
  exists bytes, ILTypeToMethodSig depth (sig_heap st) fuel type = Some bytes /\ Forall is_byte bytes /\
    (Z.of_nat (length bytes) <= IL_MAX_UINT32 - 5 -> forall parser, parses_method conv params parser ->
     comes_back st (S_method conv ngen ret params) type (parser (bytes ++ more) (Z.of_nat (length bytes)) st)).
Proof.
  intros Hd Hp Hf Hs Hn Hmore. exists (encode_top (sig_heap st) false (S_method conv ngen ret params)).
  split; [by eapply write_encodes|]. split; [pose proof (encode_bytes _ _ _ _ _ _ Hd) as Hb; by inversion Hb|]. cbn [encode_top encode tail]. set (bytes := method_bytes _ _ _ _ _). intros Hl parser Hparser.
  set (st0 := mk_sig (sig_heap st) (sig_next st) (mk_read (bytes ++ more) (Z.of_nat (length bytes)) false)).
  assert (ready (sig_heap st) more st0 (bytes ++ [])) as Hr.
  { rewrite app_nil_r. split; try done. pose proof (encode_bytes _ _ _ _ _ _ Hd) as Hb. by inversion Hb. }
  assert (method_reads (sig_heap st) depth more (ParseElemType 19) conv ngen ret params) as Hm.
  { apply (method_parsable_reads _ _ _ 19 0); [by apply reads_parsable|exact Hp]. }
  pose proof (reads_signature _ _ _ _ (ParseSignature 19) _ _ _ _ [] st0 Hm Hr) as (r & st' & Er & Hpd & Ek).
  assert (runs (ParseSignature IL_TYPE_RECURSION_DEPTH) (fun r' st'' => r' = r /\ st'' = st') st0) as Hrun.
  { exists r, st'. split; [|done]. rewrite ParseSignature_eq. exact Er. }
  destruct r as [t k]. simpl in Hpd, Ek. subst k. destruct Hpd as [Hr' Hg Hden _].
  assert (forall ok, ok t (kind_of_signature params) st' = true ->
    comes_back st (S_method conv ngen ret params) type ((ParseSignature IL_TYPE_RECURSION_DEPTH ≫= checked ok) st0)) as H.
  { intros ok Hok. destruct Hrun as (r' & st'' & Er' & -> & ->).
    assert ((ParseSignature IL_TYPE_RECURSION_DEPTH ≫= checked ok) st0 = Some (t, st')) as ->;
      [|apply comes_back_intro; [done|done|exact Hden|exact (grows_from _ _ _ _ Hg)]].
    unfold mbind, parse_bind. rewrite Er'. unfold checked, get_sig, mbind, parse_bind, mret, parse_ret.
    rewrite (rd_reader _ _ _ _ Hr'). simpl.
    rewrite (proj2 (Z.eqb_neq t 0)) by (by eapply denotes_valid). simpl. by rewrite Hok. }
  destruct Hparser as [Hns|Hc|]; apply H; unfold kind_of_signature.
  - by rewrite Hns.
  - destruct Hden as (_ & Hcv & Eo & _). rewrite Eo, method_kind_shift by done.
    destruct Hc as [-> | ->]; by destruct (has_sentinel params).
  - by destruct (has_sentinel params).
Qed.

(** Methods: the signature that [ILTypeToMethodSig] writes for a method type
    comes back from the functions that parse method signatures, as a type for
    the same conventions, generic parameters, result and parameters, modifiers,
    arrays with their bounds and nested methods included. *)
Theorem method_signature_roundtrip st type fuel conv ngen ret params more :
  denotes (sig_heap st) depth (type_at (sig_heap st)) (old st) (S_method conv ngen ret params) type ->
  method_parsable (sig_heap st) depth IL_TYPE_RECURSION_DEPTH conv ngen ret params ->
  (sig_size (S_method conv ngen ret params) <= fuel)%nat -> (sig_size (S_method conv ngen ret params) <= depth)%nat -> next_ok (sig_next st) -> Forall is_byte more ->
  exists bytes, ILTypeToMethodSig depth (sig_heap st) fuel type = Some bytes /\
    (Z.of_nat (length bytes) <= IL_MAX_UINT32 - 5 -> forall parser, parses_method conv params parser ->
     comes_back st (S_method conv ngen ret params) type (parser (bytes ++ more) (Z.of_nat (length bytes)) st)).
Proof.
  intros Hd Hp Hf Hs Hn Hmore. destruct (method_signature_back st type fuel conv ngen ret params more) as (bytes & E & _ & H); [done..|].
  by exists bytes.
Qed.

(** A type that ends its signature. *)
Lemma read_last st more categories s prefix :
  parsable (sig_heap st) depth IL_TYPE_RECURSION_DEPTH categories s -> Forall is_byte more ->
  ready (sig_heap st) more (at_bytes more st prefix) (encode (sig_heap st) s) ->
  runs (ParseElemType IL_TYPE_RECURSION_DEPTH categories) (parsed (sig_heap st) depth more s [] (at_bytes more st prefix)) (at_bytes more st prefix).
Proof. intros Hp Hmore Hr. apply reads_parsable; [done|done|by rewrite app_nil_r]. Qed.

(** Fields: the signature that [ILTypeToFieldSig] writes comes back from
    [ILTypeFromFieldSig]. *)
Theorem field_signature_roundtrip st type fuel s more :
  denotes (sig_heap st) depth (type_at (sig_heap st)) (old st) s type ->
  parsable (sig_heap st) depth IL_TYPE_RECURSION_DEPTH CATEGORY_ALL s ->
  (sig_size s <= fuel)%nat -> (sig_size s <= depth)%nat -> next_ok (sig_next st) -> Forall is_byte more ->
  exists bytes, ILTypeToFieldSig depth (sig_heap st) fuel type = Some bytes /\
    (Z.of_nat (length bytes) <= IL_MAX_UINT32 - 5 ->
     comes_back st s type (ILTypeFromFieldSig (bytes ++ more) (Z.of_nat (length bytes)) st)).
Proof.
  intros Hd Hp Hf Hs Hn Hmore. exists (IL_META_CALLCONV_FIELD :: encode (sig_heap st) s). split.
  { unfold ILTypeToFieldSig. rewrite (write_encodes _ _ (old st) fuel s true) by done. by destruct s. }
  intros Hl. set (bytes := _ :: _) in *. set (st0 := mk_sig (sig_heap st) (sig_next st) (mk_read (bytes ++ more) (Z.of_nat (length bytes)) false)).
  assert (ready (sig_heap st) more st0 bytes) as Hr.
  { split; try done. constructor; [unfold is_byte; vm_compute; by split|by eapply encode_bytes]. }
  assert (runs (kind ← uncompress ILMetaUncompressData;
    (if negb (kind =? IL_META_CALLCONV_FIELD) then mret 0 else ParseElemType IL_TYPE_RECURSION_DEPTH CATEGORY_ALL))
    (parsed (sig_heap st) depth more s [] st0) st0) as (t & st' & Et & [Hr' Hg Hden _]).
  { apply runs_bind, (read_mark _ _ _ _ _ _ Hr); [vm_compute; by split|]. intros Hr1. simpl.
    eapply runs_mono; [|apply read_last; [done|done|exact Hr1]]. intros t st'. apply parsed_at. }
  change (comes_back st s type (
    (kind ← uncompress ILMetaUncompressData;
     (if negb (kind =? IL_META_CALLCONV_FIELD) then mret 0 else ParseElemType IL_TYPE_RECURSION_DEPTH CATEGORY_ALL)) st0)).
  rewrite Et. apply comes_back_intro; [done|done|exact Hden|exact (grows_from _ _ _ _ Hg)].
Qed.

(** Type specifications: the signature that [ILTypeToOtherSig] writes comes back
    from [ILTypeFromTypeSpec]. *)
Theorem type_specification_roundtrip st type fuel s more :
  denotes (sig_heap st) depth (type_at (sig_heap st)) (old st) s type ->
  parsable (sig_heap st) depth IL_TYPE_RECURSION_DEPTH (Z.lor CATEGORY_CMOD CATEGORY_VOID) s ->
  (sig_size s <= fuel)%nat -> (sig_size s <= depth)%nat -> next_ok (sig_next st) -> Forall is_byte more ->
  exists bytes, ILTypeToOtherSig depth (sig_heap st) fuel type = Some bytes /\
    (Z.of_nat (length bytes) <= IL_MAX_UINT32 - 5 ->
     comes_back st s type (ILTypeFromTypeSpec (bytes ++ more) (Z.of_nat (length bytes)) st)).
Proof.
  intros Hd Hp Hf Hs Hn Hmore. exists (encode (sig_heap st) s). split.
  { unfold ILTypeToOtherSig. rewrite (write_encodes _ _ (old st) fuel s true) by done. by destruct s. }
  intros Hl. set (bytes := encode _ _) in *. set (st0 := mk_sig (sig_heap st) (sig_next st) (mk_read (bytes ++ more) (Z.of_nat (length bytes)) false)).
  assert (ready (sig_heap st) more st0 bytes) as Hr by (split; try done; by eapply encode_bytes).
  destruct (read_last st more _ s bytes Hp Hmore Hr) as (t & st' & Et & [Hr' Hg Hden _]).
  unfold ILTypeFromTypeSpec, with_reader, mbind, parse_bind.
  change (mk_sig _ _ _) with st0. change (at_bytes more st bytes) with st0 in Et. rewrite Et. unfold get_sig, mret, parse_ret. rewrite (rd_reader _ _ _ _ Hr').
  apply comes_back_intro; [done|done|exact Hden|exact (grows_from _ _ _ _ Hg)].
Qed.

End Signatures.

(** ** Signatures of local variables are read back as they were written *)

(** What a variable is without its mark that it is pinned. *)
Definition unpinned (l : sig_type) : option sig_type :=
  match l with S_ref kind u => if kind =? IL_TYPE_COMPLEX_PINNED then Some u else None | _ => None end.

Lemma unpinned_some l u : unpinned l = Some u -> l = S_ref IL_TYPE_COMPLEX_PINNED u.
Proof. destruct l; simpl; try done. destruct (Z.eqb_spec kind IL_TYPE_COMPLEX_PINNED); [|done]. by intros [= ->]; subst. Qed.

Section Locals.
Context {PF : Platform} {IT : ImageTokens}.
Variables (h : Heap) (depth : nat).
#[local] Abbreviation enc := (encode h).

Definition CATEGORY_LOCAL : Z := Z.lor CATEGORY_ALL CATEGORY_PINNED.

(** A variable: pinned once, or not at all. *)
Definition local_parsable (l : sig_type) : Prop :=
  match unpinned l with
  | Some u => unpinned u = None /\ parsable h depth IL_TYPE_RECURSION_DEPTH CATEGORY_LOCAL u
  | None => param_fine h l /\ parsable h depth IL_TYPE_RECURSION_DEPTH CATEGORY_LOCAL l
  end.

(** A list of local variables. *)
Definition locals_denote (types : Z -> ILType_object) (P : Z -> Prop) (locals : list sig_type) (t : Z) : Prop :=
  is_object P t /\ o_kind (types t) = IL_TYPE_COMPLEX_LOCALS /\ o_num (types t) = Z.of_nat (length locals) /\
  Z.of_nat (length locals) <= 0xFFFF /\ all2 (denotes h depth types P) locals (o_params (types t)).

Definition locals_bytes (locals : list sig_type) : list Z :=
  IL_META_CALLCONV_LOCAL_SIG :: WriteValue (Z.of_nat (length locals)) ++ concat (map enc locals).

Lemma write_locals P fuel t locals :
  locals_denote (type_at h) P locals t -> (forall l, l ∈ locals -> (sig_size l <= fuel)%nat) ->
  ILTypeToOtherSig depth h (S fuel) t = Some (locals_bytes locals).
Proof.
  intros ((Ht & Hc & _) & Ek & En & Hl & Hp) Hf. unfold ILTypeToOtherSig. destruct (write_type_object t Hc Ht) as (H1 & H2 & H3 & H4).
  cbn [WriteType]. rewrite H1, H2, H3, H4, Ek, En. unfold WriteLocalVars.
  rewrite (write_method_params h depth (WriteType depth h fuel true) P locals t En Hp); [done|].
  intros l u Hl' Hu. rewrite (write_encodes _ _ P fuel l true u) by auto. by destruct l.
Qed.

(** *** The parser *)

Variable more : list Z.
Hypothesis Hmore : Forall is_byte more.
#[local] Abbreviation ready := (ready h more).
#[local] Opaque ParseElemType.

(** Only a pinned type starts with the mark. *)
Lemma head_unpinned d categories s b tl :
  parsable h depth d categories s -> unpinned s = None -> enc s = b :: tl -> b <> IL_META_ELEMTYPE_PINNED.
Proof.
  intros Hp Hu E. destruct s as [|elem|c|c|kind s|ds s|kind c s|kind num| |conv ngen ret params|main params];
    cbn [encode] in E; unfold class_bytes, value_bytes, array_bytes, ref_byte, modifier_byte, var_byte in E; try done;
    try (repeat case_match; injection E as <- _; by vm_compute).
  - injection E as <- _. intros ->. by destruct d.
  - injection E as <- _. simpl in Hu. destruct (Z.eqb_spec kind IL_TYPE_COMPLEX_PINNED); [done|].
    destruct d as [|d]; [done|]. destruct Hp as [[-> _]|[[-> _]|[-> _]]]; by vm_compute.
Qed.

Lemma skip_no_mark fuel pinned b bytes st (Q : bool -> SigState -> Prop) :
  ready st (b :: bytes) -> b <> IL_META_ELEMTYPE_PINNED -> Q pinned st -> runs (skip_pinned fuel pinned) Q st.
Proof.
  intros Hr Hb HQ. apply Z.eqb_neq in Hb. destruct fuel; simpl; apply runs_bind; eapply (next_mark h more); [exact Hr| |exact Hr|]; rewrite Hb; by apply runs_ret.
Qed.

Lemma skip_one_mark b bytes st (Q : bool -> SigState -> Prop) :
  ready st (IL_META_ELEMTYPE_PINNED :: b :: bytes) -> b <> IL_META_ELEMTYPE_PINNED ->
  (ready (at_bytes more st (b :: bytes)) (b :: bytes) -> Q true (at_bytes more st (b :: bytes))) ->
  runs (skip_pinned (length (data (sig_reader st))) false) Q st.
Proof.
  intros Hr Hb HQ. rewrite (rd_reader _ _ _ _ Hr).
  change (length (data _)) with (S (length ((b :: bytes) ++ more))). cbn [skip_pinned]. apply runs_bind. eapply (next_mark h more); [exact Hr|]. rewrite Z.eqb_refl.
  apply runs_bind. eapply (skip_mark h more); [exact Hr|]. intros Hr1. eapply skip_no_mark; [exact Hr1|done|by apply HQ].
Qed.

(** One variable: its mark, its type, and its place at the end of the list. *)
Lemma run_locals rest n a todo done ts st (Q : Z -> SigState -> Prop) :
  Forall local_parsable todo -> Z.of_nat (length done) + Z.of_nat (length todo) <= 0xFFFF ->
  building h depth st n a done IL_TYPE_COMPLEX_LOCALS 0 ts 0 -> ready st (concat (map enc todo) ++ rest) ->
  (forall ts' st', building h depth st' n a (done ++ todo) IL_TYPE_COMPLEX_LOCALS 0 ts' 0 -> ready st' rest -> grows a st st' -> Q a st') ->
  runs (parse_locals a (length todo)) Q st.
Proof.
  revert done ts st. induction todo as [|l todo IH]; intros done ts st Hp Hl Hb Hr HQ; cbn [length parse_locals].
  { apply runs_ret. eapply HQ; [by rewrite app_nil_r|done|apply grows_refl]. }
  inversion_clear Hp as [|? ? Hlp Hp']. cbn [map concat] in Hr. cbn [length] in Hl. rewrite <- app_assoc in Hr.
  assert (forall t st1, parsed h depth more l (concat (map enc todo) ++ rest) st t st1 -> param_fine h l ->
    runs (ILTypeAddLocal a t;; parse_locals a (length todo)) Q st1) as Hadd.
  { intros t st1 Hpd Hf. apply runs_bind. eapply (parsed_param h depth more n a done); [exact Hb|exact Hpd|done|lia|].
    intros st2 Hb2 Hr2 G2. eapply (IH (done ++ [l])); [done|rewrite length_app; simpl; lia|exact Hb2|exact Hr2|].
    intros ts' st3 Hb3 Hr3 G3. rewrite <- app_assoc in Hb3. eapply HQ; [exact Hb3|exact Hr3|]. by eapply grows_trans. }
  unfold local_parsable in Hlp. apply runs_bind, runs_get. destruct (unpinned l) as [u|] eqn:El.
  - apply unpinned_some in El as ->. destruct Hlp as [Hu Hlp]. destruct (encode_head _ _ _ _ _ Hlp) as (b & tl & Eb & _).
    assert (ready st (IL_META_ELEMTYPE_PINNED :: b :: tl ++ concat (map enc todo) ++ rest)) as Hr0 by (cbn [encode] in Hr; by rewrite Eb in Hr).
    apply runs_bind. eapply skip_one_mark; [exact Hr0|by eapply head_unpinned|]. intros Hr1.
    set (st0 := at_bytes more st _) in *. pose proof (reads_parsable h depth more Hmore IL_TYPE_RECURSION_DEPTH _ _ Hlp) as Hre.
    apply runs_bind. eapply runs_mono; [|apply Hre; rewrite Eb; exact Hr1]. intros t st1 Hpd.
    rewrite (proj2 (Z.eqb_neq _ _)) by (eapply denotes_valid; [apply Hpd|by eapply parsable_some]).
    apply runs_bind. eapply (runs_around h depth more); [exact Hpd|]. intros st2 Hr2 G2 Ho Et Hd Hn. apply Hadd; [|done].
    split; [done|exact (grows_at _ _ _ _ _ G2)| |done]. cbn [denotes]. rewrite Et. split_and!; try done.
    eapply denotes_frame; [|exact Hd]. unfold within. change (sig_next st0) with (sig_next st). intros x Hx. split; [lia|done].
  - destruct Hlp as [Hf Hlp]. destruct (encode_head _ _ _ _ _ Hlp) as (b & tl & Eb & _). pose proof Hr as Hr0. rewrite Eb in Hr0. simpl in Hr0.
    apply runs_bind. eapply skip_no_mark; [exact Hr0|by eapply head_unpinned|].
    pose proof (reads_parsable h depth more Hmore IL_TYPE_RECURSION_DEPTH _ _ Hlp) as Hre.
    apply runs_bind. eapply runs_mono; [|by apply Hre]. intros t st1 Hpd.
    rewrite (proj2 (Z.eqb_neq _ _)) by (eapply denotes_valid; [apply Hpd|by eapply parsable_some]).
    apply runs_bind, runs_ret. by apply Hadd.
Qed.

End Locals.

Lemma with_reader_runs {A} blob blobLen (m : parse A) (Q : A -> SigState -> Prop) st :
  runs m Q (mk_sig (sig_heap st) (sig_next st) (mk_read blob blobLen false)) ->
  exists a st', with_reader blob blobLen m st = Some (a, st') /\ Q a st'.
Proof. done. Qed.

Lemma no_failed_read {A} v (f : bool -> parse A) Q st : error (sig_reader st) = false -> runs (f false) Q st -> runs (failed_read v ≫= f) Q st.
Proof. intros E H. apply runs_bind, runs_bind, runs_get, runs_ret. by rewrite E. Qed.

(** C14: Local variables: the signature that [ILTypeToOtherSig] writes for a list of
    local variables comes back from [ILTypeFromLocalVarSig], pinned variables
    included. *)
Theorem locals_signature_roundtrip {PF : Platform} {IT : ImageTokens} depth st type fuel locals more :
  locals_denote (sig_heap st) depth (type_at (sig_heap st)) (old st) locals type ->
  Forall (local_parsable (sig_heap st) depth) locals -> (forall l, l ∈ locals -> (sig_size l <= fuel)%nat) ->
  next_ok (sig_next st) -> Forall is_byte more ->
  exists bytes, ILTypeToOtherSig depth (sig_heap st) (S fuel) type = Some bytes /\
    (Z.of_nat (length bytes) <= IL_MAX_UINT32 - 5 ->
     exists type' st', ILTypeFromLocalVarSig (bytes ++ more) (Z.of_nat (length bytes)) st = Some (type', st') /\
       locals_denote (sig_heap st) depth (type_at (sig_heap st')) (within (sig_next st) (sig_next st')) locals type' /\
       forall a, a < sig_next st -> type_at (sig_heap st') a = type_at (sig_heap st) a).
Proof.
  intros Hd Hp Hf Hn Hmore. exists (locals_bytes (sig_heap st) locals). split; [by eapply write_locals|]. intros Hl.
  pose proof Hd as (_ & _ & _ & Hlen & Hps). set (bytes := locals_bytes _ _) in *.
  set (st0 := mk_sig (sig_heap st) (sig_next st) (mk_read (bytes ++ more) (Z.of_nat (length bytes)) false)).
  assert (ready (sig_heap st) more st0 bytes) as Hr.
  { split; try done. constructor; [unfold is_byte; vm_compute; by split|]. apply Forall_app. split; [apply compress_data_bytes|].
    clear -Hps. revert Hps. generalize (o_params (type_at (sig_heap st) type)). induction locals as [|l locals IH]; intros [|u ts]; simpl; try done.
    intros [Hu Hts]. apply Forall_app. split; [by eapply encode_bytes|by eapply IH]. }
  apply with_reader_runs. fold st0.
  apply runs_bind, (read_mark _ _ _ _ _ _ Hr); [vm_compute; by split|]. intros Hr1. apply no_failed_read; [by rewrite (rd_reader _ _ _ _ Hr1)|]. cbn [negb orb].
  apply runs_bind, (read_data _ _ _ _ _ _ Hr1); [unfold IL_MAX_UINT32; lia|]. intros Hr2. apply no_failed_read; [by rewrite (rd_reader _ _ _ _ Hr2)|].
  rewrite orb_false_l, (proj2 (Z.ltb_ge _ _)), Nat2Z.id by lia. apply runs_bind, runs_alloc. clear Hr1. set (st1 := at_bytes _ (at_bytes _ _ _) _) in *. set (st2 := mk_sig _ _ _).
  assert (grows (sig_next st1) st1 st2) as G2 by (by apply grows_alloc). pose proof sizeof_ILType_pos as Hz.
  assert (ready (sig_heap st) more st2 (concat (map (encode (sig_heap st)) locals) ++ [])) as Hr3.
  { rewrite app_nil_r. eapply ready_grows; [exact Hr2|exact G2|apply next_ok_alloc, Hr2|done]. }
  eapply (run_locals (sig_heap st) depth more Hmore [] (sig_next st) (sig_next st1) locals [] []); [done|simpl; lia| |exact Hr3|].
  { split; [simpl; lia|apply Hr2|simpl; by rewrite Z.eqb_refl|done]. }
  intros ts st3 [Hb1 Hb2 Hb3 Hb4] _ G3. simpl app in *. split.
  - split; [by apply object_at|]. rewrite Hb3. simpl. split_and!; try done.
    eapply all2_impl; [|exact Hb4]. intros p t _. apply denotes_frame. unfold within. intros x Hx. split; [|done].
    change (sig_next st1) with (sig_next st) in Hx. lia.
  - intros a Ha. rewrite (gr_type _ _ _ G3) by exact Ha. exact (gr_type _ _ _ G2 a Ha).
Qed.
