(* ===== verification/Pools.v ===== *)
(** * String and blob pools of an image (image/create.c, image/image.c)

    While an image is built, strings, blobs and user strings go to three lists
    of blocks; a hash table of all three finds what is there already.  The
    offsets count the bytes in use of the blocks.  [None] is an access behind
    what is known of a block.  Memory is never exhausted. *)
From Stdlib Require Import ZArith Lia.
From stdpp Require Import base list option numbers.
From S2P Require Import Prelude Compress Utf Cvm.

Local Open Scope Z_scope.

Definition IL_NORMAL_BLOCK_SIZE : Z := 1024.
Definition IL_STRING_HASH_SIZE : Z := 512.
Definition IL_STRING_HASH_NORMAL : Z := 0x00000000.
Definition IL_STRING_HASH_UNICODE : Z := 0x40000000.
Definition IL_STRING_HASH_BLOB : Z := 0x80000000.

(** ** State *)

(** The bytes in use, [used] of them, and the bytes that were allocated. *)
Record ILStringBlock := mk_block { b_bytes : list Z; b_len : Z }.
Definition b_used (b : ILStringBlock) : Z := Z.of_nat (length (b_bytes b)).

(** [stringBlocks], [blobBlocks] and [userStringBlocks], and the members of the
    same kind for their sizes and for the pools of a loaded image. *)
Inductive Pool := StringPool | BlobPool | UserStringPool.
#[export] Instance Pool_eq_dec : EqDecision Pool.
Proof. solve_decision. Defined.

(** A pointer into a block: the block's number and the position. *)
Record ILStringHash := mk_hash { e_pool : Pool; e_block : nat; e_posn : nat; e_len : Z; e_offset : Z }.

Record ILImageBuilder := mk_builder {
  building : bool;
  hashTable : Z -> list ILStringHash;
  blocks : Pool -> list ILStringBlock;
  poolSize : Pool -> Z;
  loadedPool : Pool -> option (list Z);
}.

Section Pools.
Context {PF : Platform}.

(** [unsigned long]. *)
Definition ulong (z : Z) : Z := if IL_NATIVE_INT64 then u64 z else u32 z.

(** The hash of [support/hash.c], of less than 2^31 bytes; [char] is signed. *)
Definition ILHashString (start : Z) (str : list Z) : Z :=
  fold_left (fun hash c => ulong (ulong (ulong (Z.shiftl hash 5) + hash) + ulong (i8 c))) str start.

(** The first [n] bytes at a pointer. *)
Definition bytes_at (b : ILImageBuilder) (e : ILStringHash) (skip n : nat) : option (list Z) :=
  block ← blocks b (e_pool e) !! e_block e;
  let l := drop (e_posn e + skip) (b_bytes block) in
  if (n <=? length l)%nat then Some (take n l) else None.

(** [ILMemCmp(...)] is zero. *)
Definition same_bytes (b : ILImageBuilder) (e : ILStringHash) (skip : nat) (str : list Z) : option bool :=
  l ← bytes_at b e skip (length str); Some (bool_decide (l = str)).

Fixpoint lookup_chain (b : ILImageBuilder) (entries : list ILStringHash) (str header : list Z) (type : Z) :
    option (option ILStringHash) :=
  match entries with
  | [] => Some None
  | entry :: entries =>
    let fullLen := u32 (Z.of_nat (length str) + Z.of_nat (length header)) in
    found ← (if e_len entry =? Z.lor fullLen type then
               h ← (match header with [] => Some true | _ => same_bytes b entry 0 header end);
               if (h : bool) then same_bytes b entry (length header) str else Some false
             else Some false);
    if (found : bool) then Some (Some entry) else lookup_chain b entries str header type
  end.

Definition LookupHash (b : ILImageBuilder) (str header : list Z) (type hash : Z) : option (option ILStringHash) :=
  lookup_chain b (hashTable b hash) str header type.

(** The bytes in use of all blocks. *)
Definition total_used (bs : list ILStringBlock) : Z := foldr (fun b n => u32 (b_used b + n)) 0 bs.

(** The bytes after the last ones of the last block, in a new block when they
    do not fit, and with an empty string in front in the first one: the offset,
    the blocks, and the block and position of the bytes. *)
Definition AddString (bs : list ILStringBlock) (str header : list Z) : option (Z * list ILStringBlock * nat * nat) :=
  let full := header ++ str in
  let fullLen := u32 (Z.of_nat (length str) + Z.of_nat (length header)) in
  if fullLen <? Z.of_nat (length full) then None
  else
    let offset := total_used bs in
    let new_len (n : Z) := if n <? IL_NORMAL_BLOCK_SIZE then IL_NORMAL_BLOCK_SIZE else n in
    match list.last bs with
    | Some block =>
      if fullLen <=? u32 (b_len block - b_used block) then
        Some (offset, take (length bs - 1) bs ++ [mk_block (b_bytes block ++ full) (b_len block)],
              (length bs - 1)%nat, length (b_bytes block))
      else Some (offset, bs ++ [mk_block full (new_len fullLen)], length bs, 0%nat)
    | None => Some (u32 (offset + 1), [mk_block (0 :: full) (new_len (u32 (fullLen + 1)))], 0%nat, 1%nat)
    end.

(** What follows a lookup that found nothing: the entry at the front of its
    chain, with the length [entryLen], and the new size of the pool. *)
Definition add_entry (b : ILImageBuilder) (pool : Pool) (str header : list Z) (entryLen type hash size : Z) :
    option (Z * ILImageBuilder) :=
  '(offset, bs, block, posn) ← AddString (blocks b pool) str header;
  if offset =? 0 then
    Some (0, mk_builder (building b) (hashTable b) (fun p => if decide (p = pool) then bs else blocks b p) (poolSize b) (loadedPool b))
  else
    let entry := mk_hash pool block posn (Z.lor entryLen type) offset in
    Some (offset, mk_builder (building b)
      (fun n => if n =? hash then entry :: hashTable b n else hashTable b n)
      (fun p => if decide (p = pool) then bs else blocks b p)
      (fun p => if decide (p = pool) then u32 (offset + size) else poolSize b p) (loadedPool b)).

Definition find_or_add (b : ILImageBuilder) (pool : Pool) (str header : list Z) (entryLen type hash size : Z) :
    option (Z * ILImageBuilder) :=
  entry ← LookupHash b str header type hash;
  match entry with
  | Some entry => Some (e_offset entry, b)
  | None => add_entry b pool str header entryLen type hash size
  end.

Definition hash_bits (hash : Z) : Z := Z.land hash (IL_STRING_HASH_SIZE - 1).

(** [str] is without its zero byte; no string stands for a null pointer. *)
Definition ILImageAddString (b : ILImageBuilder) (str : option (list Z)) : option (Z * ILImageBuilder) :=
  match str with
  | Some str =>
    if building b then
      let len := u32 (Z.of_nat (length str) + 1) in
      find_or_add b StringPool (str ++ [0]) [] len IL_STRING_HASH_NORMAL (hash_bits (ILHashString 0 str)) len
    else Some (0, b)
  | None => Some (0, b)
  end.

Definition ILImageAddBlob (b : ILImageBuilder) (blob : list Z) : option (Z * ILImageBuilder) :=
  if building b then
    let len := u32 (Z.of_nat (length blob)) in
    let header := ILMetaCompressData len in
    let headerLen := Z.of_nat (length header) in
    find_or_add b BlobPool blob header len IL_STRING_HASH_BLOB
      (hash_bits (ILHashString (ILHashString 0 header) blob)) (headerLen + len)
  else Some (0, b).

(** The number of 16-bit units of a string in UTF-8, and its UTF-16 bytes. *)
Fixpoint utf16_units (fuel : nat) (str : list Z) (len posn wlen : Z) : option Z :=
  if posn <? len then
    '(ch, posn) ← ILUTF8ReadChar str len posn;
    match fuel with O => None | S fuel => utf16_units fuel str len posn (u32 (wlen + snd (ILUTF16WriteChar false ch))) end
  else Some wlen.
Fixpoint utf16_bytes (fuel : nat) (str : list Z) (len posn : Z) : option (list Z) :=
  if posn <? len then
    '(ch, posn) ← ILUTF8ReadChar str len posn;
    match fuel with
    | O => None
    | S fuel => rest ← utf16_bytes fuel str len posn; Some (fst (ILUTF16WriteCharAsBytes true ch) ++ rest)
    end
  else Some [].

(** [buf] as it is after the conversion; no more bytes than were allocated. *)
Definition user_string (str : list Z) (len : Z) : option (list Z) :=
  wlen ← utf16_units (Z.to_nat len) str len 0 0;
  chars ← utf16_bytes (Z.to_nat len) str len 0;
  let buf := ILMetaCompressData (u32 (wlen * 2 + 1)) ++ chars ++ [0] in
  if Z.of_nat (length buf) <=? u32 (wlen * 2 + 6) then Some buf else None.

(** The length of a string that ends with a zero byte. *)
Fixpoint strlen (str : list Z) : option Z :=
  match str with
  | [] => None
  | c :: str => if c =? 0 then Some 0 else n ← strlen str; Some (n + 1)
  end.

Definition ILImageAddUserString (b : ILImageBuilder) (str : list Z) (len : Z) : option (Z * ILImageBuilder) :=
  if building b then
    len ← (if len <? 0 then strlen str else Some len);
    buf ← user_string str len;
    let outposn := Z.of_nat (length buf) in
    find_or_add b UserStringPool buf [] outposn IL_STRING_HASH_UNICODE (hash_bits (ILHashString 0 buf)) outposn
  else Some (0, b).

(** [str] has [len] units and the byte that ends a user string. *)
Definition ILImageAddEncodedUserString (b : ILImageBuilder) (str : list Z) (len : Z) : option (Z * ILImageBuilder) :=
  if building b then
    let strLen := u32 (len * 2 + 1) in
    let header := ILMetaCompressData strLen in
    let size := u32 (Z.of_nat (length header) + strLen) in
    if (Z.to_nat strLen <=? length str)%nat then
      let str := take (Z.to_nat strLen) str in
      find_or_add b UserStringPool str header size IL_STRING_HASH_UNICODE
        (hash_bits (ILHashString (ILHashString 0 header) str)) size
    else None
  else Some (0, b).

(** ** Access (image/image.c) *)

(** [while(block != 0 && offset >= block->used)]. *)
Fixpoint walk_blocks (bs : list ILStringBlock) (offset : Z) : option (ILStringBlock * Z) :=
  match bs with
  | [] => None
  | block :: bs => if b_used block <=? offset then walk_blocks bs (u32 (offset - b_used block)) else Some (block, offset)
  end.

(** The bytes from an offset on, and how the offset ends up. *)
Definition pool_at (b : ILImageBuilder) (pool : Pool) (offset : Z) : option (list Z * Z) :=
  match loadedPool b pool with
  | Some bytes => Some (drop (Z.to_nat offset) bytes, offset)
  | None => '(block, offset) ← walk_blocks (blocks b pool) offset; Some (drop (Z.to_nat offset) (b_bytes block), offset)
  end.

(** [None] is a null pointer. *)
Definition ILImageGetString (b : ILImageBuilder) (offset : Z) : option (list Z) :=
  if offset <? poolSize b StringPool then '(bytes, _) ← pool_at b StringPool offset; Some bytes
  else if offset =? 0 then Some [0] else None.

(** The bytes at the pointer and the length; a null pointer; or a read behind
    the bytes that are known, or of the reader when there is no pool to set it. *)
Definition ILImageGetBlob (b : ILImageBuilder) (offset : Z) : option (option (list Z * Z)) :=
  if (0 <? offset) && (offset <? poolSize b BlobPool) then
    match loadedPool b BlobPool, blocks b BlobPool with
    | None, [] => None
    | _, _ =>
    match pool_at b BlobPool offset with
    | None => Some None
    | Some (bytes, offset) =>
      '(len, meta) ← ILMetaUncompressData (mk_read bytes (u32 (poolSize b BlobPool - offset)) false);
      Some (if error meta || (Compress.len meta <? len) then None else Some (data meta, len))
    end
    end
  else Some None.

Definition ILImageGetUserString (b : ILImageBuilder) (offset : Z) : option (option (list Z * Z)) :=
  if (0 <? offset) && (offset <? poolSize b UserStringPool) then
    match pool_at b UserStringPool offset with
    | None => Some None
    | Some (bytes, offset) =>
      '(slen, reader) ← ILMetaUncompressData (mk_read bytes (u32 (poolSize b UserStringPool - offset)) false);
      Some (if (Z.land slen 1 =? 0) || (Compress.len reader <? slen) || error reader then None
            else Some (data reader, slen / 2))
    end
  else Some None.

(** ** A new image *)

Definition new_builder : ILImageBuilder :=
  mk_builder true (fun _ => []) (fun _ => []) (fun _ => 0) (fun _ => None).

End Pools.
