(* ===== verification/PoolsProps.v ===== *)
(** * What is added to the pools stays there

    Blocks only grow at the end, so an offset that was given out keeps its
    bytes ([located], [grown]).  The invariant [pools_ok] says that every entry
    of the hash table stands for bytes at its offset, so the lookup reads what
    was stored and no further; it finds strings and user strings again, and
    never a blob.  The theorems follow for any sequence of additions. *)
From Stdlib Require Import ZArith Lia.
From stdpp Require Import base list option numbers.
From S2P Require Import Prelude Compress Utf Cvm Pools.

Local Open Scope Z_scope.

(** ** Blocks *)

Definition used_sum (bs : list ILStringBlock) : Z := foldr (fun b n => b_used b + n) 0 bs.

Lemma b_used_nonneg b : 0 <= b_used b.
Proof. unfold b_used. lia. Qed.

Lemma used_sum_nonneg bs : 0 <= used_sum bs.
Proof. induction bs as [|b bs IH]; simpl; [done|]. pose proof (b_used_nonneg b). lia. Qed.

Lemma used_sum_app bs cs : used_sum (bs ++ cs) = used_sum bs + used_sum cs.
Proof. induction bs as [|b bs IH]; simpl; lia. Qed.

Lemma total_used_sum bs : used_sum bs <= IL_MAX_UINT32 -> total_used bs = used_sum bs.
Proof.
  induction bs as [|b bs IH]; simpl; [done|]. intros H. pose proof (b_used_nonneg b). pose proof (used_sum_nonneg bs).
  rewrite IH by lia. apply u32_id. lia.
Qed.

(** Some bytes at a position of a block, and at an offset of a pool. *)
Definition located (bs : list ILStringBlock) (i pos : nat) (w : list Z) : Prop :=
  w <> [] /\ exists blk more, bs !! i = Some blk /\ drop pos (b_bytes blk) = w ++ more.

Definition at_offset (bs : list ILStringBlock) (i pos : nat) (off : Z) (w : list Z) : Prop :=
  located bs i pos w /\ off = used_sum (take i bs) + Z.of_nat pos.

(** [bs'] is [bs] with more at the end. *)
Definition grown (bs bs' : list ILStringBlock) : Prop :=
  forall i pos off w, at_offset bs i pos off w -> at_offset bs' i pos off w.

Definition blocks_ok (bs : list ILStringBlock) : Prop :=
  Forall (fun b => b_used b <= b_len b <= IL_MAX_UINT32) bs.

#[export] Instance grown_preorder : PreOrder grown.
Proof. split; [by intros bs i pos off w|]. intros bs cs ds H1 H2 i pos off w H. by apply H2, H1. Qed.

Lemma grown_snoc bs b : grown bs (bs ++ [b]).
Proof.
  intros i pos off w [(Hw & blk & more & Eb & Ew) ->]. split.
  - split; [done|]. exists blk, more. split; [|done]. by apply lookup_app_l_Some.
  - rewrite take_app_le; [done|]. apply lookup_lt_Some in Eb. lia.
Qed.

Lemma grown_last bs b full n : grown (bs ++ [b]) (bs ++ [mk_block (b_bytes b ++ full) n]).
Proof.
  intros i pos off w [(Hw & blk & more & Eb & Ew) ->]. apply lookup_app_Some in Eb as [Eb|[Hi Eb]].
  - split; [split; [done|]; exists blk, more; split; [by apply lookup_app_l_Some|done]|].
    apply lookup_lt_Some in Eb. by rewrite !take_app_le by lia.
  - apply list_lookup_singleton_Some in Eb as [Hi' <-]. assert (i = length bs) as -> by lia. rewrite take_app_length.
    split; [|by rewrite take_app_length]. split; [done|]. exists (mk_block (b_bytes b ++ full) n), (more ++ full).
    split; [by rewrite lookup_app_r, Nat.sub_diag by lia|]. simpl. destruct (decide (pos <= length (b_bytes b))%nat).
    + by rewrite drop_app_le, Ew, <- app_assoc.
    + rewrite drop_ge in Ew by lia. symmetry in Ew. by apply app_nil in Ew as [-> _].
Qed.

(** The bytes that were added stand where [AddString] says. *)
Lemma at_end bs b full pos :
  full <> [] -> drop pos (b_bytes b) = full -> at_offset (bs ++ [b]) (length bs) pos (used_sum bs + Z.of_nat pos) full.
Proof.
  intros Hf Ed. split; [split; [done|]; exists b, []; split|].
  - by rewrite lookup_app_r, Nat.sub_diag by lia.
  - by rewrite app_nil_r.
  - by rewrite take_app_length.
Qed.

(** Bytes at an offset are found there by the walk over the blocks. *)
Lemma walk_located bs i pos off w :
  blocks_ok bs -> used_sum bs <= IL_MAX_UINT32 -> at_offset bs i pos off w ->
  exists blk more,
    walk_blocks bs off = Some (blk, Z.of_nat pos) /\ drop pos (b_bytes blk) = w ++ more /\ blk ∈ bs /\
    off + Z.of_nat (length w) + Z.of_nat (length more) <= used_sum bs.
Proof.
  intros Hok. revert i off. induction Hok as [|b bs Hb _ IH]; intros i off Hs [(Hw & blk & more & Eb & Ew) ->]; [done|].
  pose proof (used_sum_nonneg bs). pose proof (b_used_nonneg b). simpl in Hs |- *.
  destruct i as [|i]; simpl in Eb |- *.
  - injection Eb as ->. exists blk, more.
    assert (length (w ++ more) = (length (b_bytes blk) - pos)%nat) as Hl by by rewrite <- Ew, length_drop.
    rewrite length_app in Hl. assert (0 < length w)%nat by (destruct w; simpl; [done|lia]).
    rewrite Z.add_0_l. unfold b_used in *. rewrite (proj2 (Z.leb_gt _ _)) by lia. split; [done|]. split; [done|]. split; [by left|]. lia.
  - rewrite <- Z.add_assoc. destruct (IH i (used_sum (take i bs) + Z.of_nat pos)) as (blk' & more' & E & Ew' & Hin & Hle).
    { lia. }
    { split; [|done]. split; [done|]. by exists blk, more. }
    pose proof (used_sum_nonneg (take i bs)). rewrite (proj2 (Z.leb_le _ _)) by lia.
    exists blk', more'. rewrite u32_id by lia. replace (b_used b + _ - b_used b) with (used_sum (take i bs) + Z.of_nat pos) by lia.
    split; [done|]. split; [done|]. split; [by right|]. lia.
Qed.

(** What [AddString] does to a pool, by its offset, blocks and place. *)
Record added (bs : list ILStringBlock) (full : list Z) (off : Z) (bs' : list ILStringBlock) (i pos : nat) : Prop := {
  added_ok : blocks_ok bs';
  added_grown : grown bs bs';
  added_at : at_offset bs' i pos off full;
  added_sum : used_sum bs' = off + Z.of_nat (length full);
  added_off : off = match bs with [] => 1 | _ => used_sum bs end;
}.

Lemma AddString_spec bs str header :
  let full := header ++ str in
  blocks_ok bs -> full <> [] -> used_sum bs + Z.of_nat (length full) + IL_NORMAL_BLOCK_SIZE <= IL_MAX_UINT32 ->
  exists off bs' i pos, AddString bs str header = Some (off, bs', i, pos) /\ added bs full off bs' i pos.
Proof.
  intros full Hok Hf Hs. unfold AddString. cbv zeta. fold full. change IL_NORMAL_BLOCK_SIZE with 1024 in *.
  pose proof (used_sum_nonneg bs).
  assert (Z.of_nat (length str) + Z.of_nat (length header) = Z.of_nat (length full)) as -> by (unfold full; rewrite length_app; lia).
  rewrite (u32_id (Z.of_nat _)) by lia. rewrite Z.ltb_irrefl. rewrite total_used_sum by lia.
  destruct bs as [|b bs _] using rev_ind.
  - cbn [list.last]. rewrite (u32_id (used_sum [] + 1)) by (simpl in *; lia). rewrite (u32_id (Z.of_nat (length full) + 1)) by (simpl in *; lia).
    eexists _, _, _, _. split; [reflexivity|]. split.
    + apply Forall_singleton. unfold b_used. simpl. case_cmp; lia.
    + intros i pos off w [(_ & blk & more & Eb & _) _]. done.
    + by apply (at_end [] (mk_block (0 :: full) _) full 1).
    + simpl. unfold b_used. simpl. lia.
    + done.
  - assert (used_sum (bs ++ [b]) = used_sum bs + b_used b) as Hub by (rewrite used_sum_app; simpl; lia).
    apply Forall_app in Hok as Hok'. destruct Hok' as [Hok1 Hb]. apply (proj1 (Forall_singleton _ _)) in Hb. cbv beta in Hb. pose proof (b_used_nonneg b).
    rewrite last_snoc. rewrite (u32_id (b_len b - b_used b)) by lia.
    destruct (Z.leb_spec (Z.of_nat (length full)) (b_len b - b_used b)).
    + rewrite length_app; cbn [length]. rewrite Nat.add_sub, take_app_length. eexists _, _, _, _. split; [reflexivity|]. split.
      * apply Forall_app. split; [done|]. apply Forall_singleton. unfold b_used in *. simpl. rewrite length_app. lia.
      * apply grown_last.
      * rewrite Hub. unfold b_used. apply at_end; [done|]. simpl. by rewrite drop_app_length.
      * rewrite used_sum_app, Hub. simpl. unfold b_used. simpl. rewrite length_app. lia.
      * by destruct bs.
    + eexists _, _, _, _. split; [reflexivity|]. split.
      * apply Forall_app. split; [done|]. apply Forall_singleton. unfold b_used. simpl. case_cmp; lia.
      * apply grown_snoc.
      * rewrite <- (Z.add_0_r (used_sum _)) at 1. by apply (at_end (bs ++ [b]) (mk_block full _) full 0).
      * rewrite used_sum_app. simpl. unfold b_used. simpl. lia.
      * by destruct bs.
Qed.

(** ** The hash table *)

Definition POOL_MAX : Z := 0x40000000.

Definition string_type (pool : Pool) : Z :=
  match pool with
  | StringPool => IL_STRING_HASH_NORMAL
  | BlobPool => IL_STRING_HASH_BLOB
  | UserStringPool => IL_STRING_HASH_UNICODE
  end.

(** The length in an entry for the bytes [w]: of a blob, the one its header gives. *)
Definition recorded (pool : Pool) (w : list Z) (n : Z) : Prop :=
  match pool with
  | BlobPool => exists blob, w = ILMetaCompressData n ++ blob /\ n = Z.of_nat (length blob)
  | _ => n = Z.of_nat (length w)
  end.

(** An entry stands for the bytes [w]. *)
Record holds (bs : Pool -> list ILStringBlock) (e : ILStringHash) (w : list Z) : Prop := {
  holds_at : at_offset (bs (e_pool e)) (e_block e) (e_posn e) (e_offset e) w;
  holds_pos : 0 < e_offset e;
  holds_len : exists n, 0 <= n < POOL_MAX /\ e_len e = Z.lor n (string_type (e_pool e)) /\ recorded (e_pool e) w n;
}.

Lemma type_lor pool n : 0 <= n < POOL_MAX -> Z.lor n (string_type pool) = n + string_type pool.
Proof.
  intros Hn. change POOL_MAX with (2 ^ 30) in Hn. rewrite Z.lor_comm, Z.add_comm.
  apply (lor_add _ _ 30); [lia|by destruct pool|done].
Qed.

Lemma types_differ pool pool' n m :
  0 <= n < POOL_MAX -> 0 <= m < POOL_MAX -> Z.lor n (string_type pool) = Z.lor m (string_type pool') -> pool = pool' /\ n = m.
Proof.
  intros Hn Hm. rewrite !type_lor by done. unfold POOL_MAX in *.
  destruct pool, pool'; cbv [string_type IL_STRING_HASH_NORMAL IL_STRING_HASH_BLOB IL_STRING_HASH_UNICODE]; split; (done || lia).
Qed.

Lemma compress_length d : (1 <= length (ILMetaCompressData d) <= 5)%nat.
Proof. unfold ILMetaCompressData. repeat case_match; simpl; lia. Qed.

(** The header of a blob tells its length. *)
Lemma compress_prefix n m x y :
  0 <= n <= IL_MAX_UINT32 -> 0 <= m <= IL_MAX_UINT32 -> ILMetaCompressData n ++ x = ILMetaCompressData m ++ y -> n = m.
Proof.
  intros Hn Hm E. pose proof (compress_length n). pose proof (compress_length m).
  pose proof (uncompress_compress x (Z.of_nat (length (ILMetaCompressData m))) ltac:(width_lia) n Hn) as En.
  pose proof (uncompress_compress y (Z.of_nat (length (ILMetaCompressData n))) ltac:(width_lia) m Hm) as Em.
  rewrite E, Z.add_comm, Em in En. by injection En.
Qed.

(** The comparison of one entry. *)
Definition entry_found (b : ILImageBuilder) (entry : ILStringHash) (str header : list Z) (type : Z) : option bool :=
  let fullLen := u32 (Z.of_nat (length str) + Z.of_nat (length header)) in
  if e_len entry =? Z.lor fullLen type then
    h ← (match header with [] => Some true | _ => same_bytes b entry 0 header end);
    if (h : bool) then same_bytes b entry (length header) str else Some false
  else Some false.

Lemma lookup_chain_cons b e entries str header type found :
  entry_found b e str header type = Some found ->
  lookup_chain b (e :: entries) str header type =
    if found then Some (Some e) else lookup_chain b entries str header type.
Proof. intros E. simpl. fold (entry_found b e str header type). by rewrite E. Qed.

Lemma same_bytes_at b e skip w str :
  located (blocks b (e_pool e)) (e_block e) (e_posn e) w -> (skip + length str <= length w)%nat ->
  same_bytes b e skip str = Some (bool_decide (take (length str) (drop skip w) = str)).
Proof.
  intros (_ & blk & more & Eb & Ew) Hl. unfold same_bytes, bytes_at. rewrite Eb. simpl.
  rewrite <- drop_drop, Ew, drop_app_le, (proj2 (Nat.leb_le _ _)) by (rewrite ?length_app, ?length_drop; lia). simpl.
  by rewrite take_app_le by (rewrite length_drop; lia).
Qed.

Lemma found_iff (header str w : list Z) :
  length w = (length header + length str)%nat ->
  take (length header) w = header /\ take (length str) (drop (length header) w) = str <-> w = header ++ str.
Proof.
  intros Hl. split; [|intros ->; by rewrite take_app_length, drop_app_length, take_ge].
  intros [E1 E2]. rewrite take_ge in E2 by (rewrite length_drop; lia). by rewrite <- (take_drop (length header) w), E1, E2.
Qed.

Lemma entry_found_string b e w str header pool :
  pool <> BlobPool -> holds (blocks b) e w -> Z.of_nat (length (header ++ str)) < POOL_MAX ->
  entry_found b e str header (string_type pool) = Some (bool_decide (e_pool e = pool /\ w = header ++ str)).
Proof.
  intros Hp [[Hat _] _ (n & Hn & El & Hr)] Hf. rewrite length_app in Hf. unfold entry_found. cbv zeta.
  rewrite u32_id by (unfold POOL_MAX in Hf; width_lia). rewrite El.
  destruct (Z.eqb_spec (Z.lor n (string_type (e_pool e)))
    (Z.lor (Z.of_nat (length str) + Z.of_nat (length header)) (string_type pool))) as [E|E].
  - apply types_differ in E as [Ep En]; [|done|lia].
    assert (length w = (length header + length str)%nat) as Hl by (rewrite Ep in Hr; destruct pool; simpl in Hr; [lia|done|lia]).
    assert (bool_decide (e_pool e = pool /\ w = header ++ str) =
      bool_decide (take (length header) w = header /\ take (length str) (drop (length header) w) = str)) as ->
      by (apply bool_decide_ext; rewrite (found_iff header str w Hl); naive_solver).
    destruct header as [|c header].
    + simpl. rewrite (same_bytes_at b e 0 w) by (try done; simpl in Hl; lia). f_equal. apply bool_decide_ext. naive_solver.
    + rewrite (same_bytes_at b e 0 w) by (try done; lia). rewrite drop_0. simpl (mbind _ (Some _)).
      case_bool_decide as E1; [rewrite (same_bytes_at b e (length (c :: header)) w) by (try done; lia)|];
        [f_equal; apply bool_decide_ext; naive_solver|]. by rewrite bool_decide_eq_false_2 by naive_solver.
  - rewrite bool_decide_eq_false_2; [done|]. intros [Ep ->]. apply E. rewrite Ep in Hr |- *. f_equal.
    destruct pool; simpl in Hr; [|done|]; rewrite length_app in Hr; lia.
Qed.

(** A blob is never found: the length of its header is not in the entries. *)
Lemma entry_found_blob b e w blob :
  holds (blocks b) e w -> Z.of_nat (length blob) + 5 < POOL_MAX ->
  entry_found b e blob (ILMetaCompressData (Z.of_nat (length blob))) IL_STRING_HASH_BLOB = Some false.
Proof.
  intros [[Hat _] _ (n & Hn & El & Hr)] Hf. unfold entry_found. cbv zeta. set (hdr := ILMetaCompressData _).
  pose proof (compress_length (Z.of_nat (length blob))) as Hc. fold hdr in Hc. unfold POOL_MAX in Hf.
  rewrite u32_id by width_lia. rewrite El.
  destruct (Z.eqb_spec (Z.lor n (string_type (e_pool e))) (Z.lor (Z.of_nat (length blob) + Z.of_nat (length hdr)) IL_STRING_HASH_BLOB))
    as [E|E]; [|done].
  apply (types_differ _ BlobPool) in E as [Ep En]; [|done|unfold POOL_MAX; lia]. rewrite Ep in Hr. destruct Hr as (x & -> & Hx).
  assert (hdr <> []) as Hne by (destruct hdr; simpl in Hc; [lia|done]).
  destruct hdr as [|c hdr'] eqn:Eh; [done|]. rewrite <- Eh in *.
  rewrite (same_bytes_at b e 0 (ILMetaCompressData n ++ x)) by (try done; rewrite length_app; lia).
  rewrite drop_0, bool_decide_eq_false_2; [done|]. intros Et.
  assert (n = Z.of_nat (length blob)); [|lia]. apply (compress_prefix _ _ x (drop (length hdr) (ILMetaCompressData n ++ x))).
  - unfold POOL_MAX in Hn. width_lia.
  - width_lia.
  - fold hdr in Eh. rewrite <- (take_drop (length hdr) (ILMetaCompressData n ++ x)) at 1. rewrite Et. subst hdr. done.
Qed.

(** ** The invariant *)

Record pools_ok (b : ILImageBuilder) : Prop := {
  ok_building : building b = true;
  ok_loaded : forall p, loadedPool b p = None;
  ok_blocks : forall p, blocks_ok (blocks b p);
  ok_started : forall p, blocks b p = [] \/ 0 < used_sum (blocks b p);
  ok_room : forall p, used_sum (blocks b p) <= POOL_MAX;
  ok_size : forall p, poolSize b p = used_sum (blocks b p);
  ok_entries : forall h e, e ∈ hashTable b h -> exists w, holds (blocks b) e w;
  ok_unique : forall h e1 e2 w, e1 ∈ hashTable b h -> e2 ∈ hashTable b h -> e_pool e1 = e_pool e2 ->
    e_pool e1 <> BlobPool -> holds (blocks b) e1 w -> holds (blocks b) e2 w -> e1 = e2;
}.

Lemma new_builder_ok : pools_ok new_builder.
Proof.
  split; intros; try (done || by left).
  - by apply elem_of_nil in H.
  - by apply elem_of_nil in H.
Qed.

(** Nothing that was there is lost. *)
Definition extends (b b' : ILImageBuilder) : Prop :=
  (forall p, grown (blocks b p) (blocks b' p)) /\ forall h e, e ∈ hashTable b h -> e ∈ hashTable b' h.

#[export] Instance extends_preorder : PreOrder extends.
Proof. split; [by intros b|]. intros b c d [G1 E1] [G2 E2]. split; intros; [etransitivity; [apply G1|apply G2]|by eauto]. Qed.

Lemma holds_grown bs bs' e w : (forall p, grown (bs p) (bs' p)) -> holds bs e w -> holds bs' e w.
Proof. intros G [H1 H2 H3]. split; [by apply G|done|done]. Qed.

(** An entry of a string or a user string stands for one list of bytes. *)
Lemma holds_inj bs e w w' : e_pool e <> BlobPool -> holds bs e w -> holds bs e w' -> w = w'.
Proof.
  intros Hp [[(_ & blk & more & Eb & Ew) _] _ (n & Hn & El & Hr)] [[(_ & blk' & more' & Eb' & Ew') _] _ (n' & Hn' & El' & Hr')].
  rewrite Eb in Eb'. injection Eb' as <-. rewrite Ew in Ew'. rewrite El in El'.
  apply types_differ in El' as [_ ->]; [|done|done]. apply app_inj_1 in Ew' as [-> _]; [done|].
  destruct (e_pool e); simpl in Hr, Hr'; [lia|done|lia].
Qed.

(** A new entry, for bytes no other one of its chain stands for. *)
Lemma unique_add (old bs : Pool -> list ILStringBlock) (chain : list ILStringHash) e0 full :
  (forall p, grown (old p) (bs p)) -> (forall e, e ∈ chain -> exists w, holds old e w) ->
  (forall e1 e2 w, e1 ∈ chain -> e2 ∈ chain -> e_pool e1 = e_pool e2 -> e_pool e1 <> BlobPool ->
    holds old e1 w -> holds old e2 w -> e1 = e2) ->
  holds bs e0 full -> (e_pool e0 <> BlobPool -> forall e, e ∈ chain -> e_pool e = e_pool e0 -> ~ holds old e full) ->
  forall e1 e2 w, e1 ∈ e0 :: chain -> e2 ∈ e0 :: chain -> e_pool e1 = e_pool e2 -> e_pool e1 <> BlobPool ->
    holds bs e1 w -> holds bs e2 w -> e1 = e2.
Proof.
  intros Hg He Hu H0 Hnew.
  assert (forall e w, e ∈ chain -> e_pool e <> BlobPool -> holds bs e w -> holds old e w) as Hold.
  { intros e w Hin Hp Hw. destruct (He e Hin) as [w' Hw']. by rewrite (holds_inj bs e w w') by eauto using holds_grown. }
  intros e1 e2 w [-> | H1]%elem_of_cons [-> | H2]%elem_of_cons Ep Hp Hw1 Hw2; [done| | |].
  - rewrite (holds_inj bs e0 w full) in Hw2 by done. exfalso. apply (Hnew Hp e2); [done|done|]. apply Hold; [done|congruence|done].
  - rewrite (holds_inj bs e0 w full) in Hw1 by congruence. exfalso. apply (Hnew ltac:(congruence) e1); [done|done|]. by apply Hold.
  - apply (Hu e1 e2 w); try done; apply Hold; congruence || done.
Qed.

Section Additions.
Context {PF : Platform}.

(** The arguments of a lookup for the bytes [header ++ str]. *)
Definition good_query (pool : Pool) (str header : list Z) : Prop :=
  header ++ str <> [] /\ Z.of_nat (length (header ++ str)) + 5 < POOL_MAX /\
  (pool = BlobPool -> header = ILMetaCompressData (Z.of_nat (length str))).

Lemma lookup_chain_spec b entries str header pool :
  (forall e, e ∈ entries -> exists w, holds (blocks b) e w) -> good_query pool str header ->
  exists r, lookup_chain b entries str header (string_type pool) = Some r /\
    match r with
    | Some e => e ∈ entries /\ pool <> BlobPool /\ e_pool e = pool /\ holds (blocks b) e (header ++ str)
    | None => pool <> BlobPool -> forall e, e ∈ entries -> e_pool e = pool -> ~ holds (blocks b) e (header ++ str)
    end.
Proof.
  intros He Hq. pose proof Hq as (Hne & Hl & Hb). induction entries as [|e entries IH].
  { exists None. split; [done|]. intros _ e []%elem_of_nil. }
  destruct IH as (r & Er & Hr); [intros; apply He; by right|]. destruct (He e) as [w Hw]; [by left|].
  destruct (decide (pool = BlobPool)) as [-> | Hp].
  - rewrite length_app in Hl. rewrite (Hb eq_refl) in Hl, Er |- *. exists r.
    rewrite (lookup_chain_cons _ _ _ _ _ _ _ (entry_found_blob b e w str Hw ltac:(lia))).
    split; [done|]. destruct r as [e'|]; [|done]. by destruct Hr as (_ & Hp & _).
  - rewrite (lookup_chain_cons _ _ _ _ _ _ _ (entry_found_string b e w str header pool Hp Hw ltac:(lia))).
    case_bool_decide as Hf.
    + exists (Some e). destruct Hf as [Ep ->]. split; [done|]. split; [by left|done].
    + exists r. split; [done|]. destruct r as [e'|]; [destruct Hr as (? & ? & ? & ?); split; [by right|done]|].
      intros _ e' [-> | Hin]%elem_of_cons Ep Hh; [|by apply (Hr Hp e')].
      apply Hf. split; [done|]. apply (holds_inj (blocks b) e); [congruence|done|done].
Qed.

(** What one addition gives: the offset of the bytes, and with strings and user
    strings an entry that finds them. *)
Record outcome (b : ILImageBuilder) (pool : Pool) (full : list Z) (hash off : Z) (b' : ILImageBuilder) : Prop := {
  out_ok : pools_ok b';
  out_extends : extends b b';
  out_pos : 0 < off;
  out_at : exists i pos, at_offset (blocks b' pool) i pos off full;
  out_cost : forall p, used_sum (blocks b' p) <= used_sum (blocks b p) + (if decide (p = pool) then Z.of_nat (length full) + 1 else 0);
  out_entry : pool <> BlobPool ->
    exists e, e ∈ hashTable b' hash /\ e_pool e = pool /\ e_offset e = off /\ holds (blocks b') e full;
}.

(** The pool after an addition, and its new entry. *)
Lemma add_entry_spec b pool str header n hash :
  let full := header ++ str in
  pools_ok b -> good_query pool str header -> used_sum (blocks b pool) + Z.of_nat (length full) + 1 <= POOL_MAX ->
  0 <= n < POOL_MAX -> recorded pool full n ->
  (pool <> BlobPool -> forall e, e ∈ hashTable b hash -> e_pool e = pool -> ~ holds (blocks b) e full) ->
  exists off b', add_entry b pool str header n (string_type pool) hash (Z.of_nat (length full)) = Some (off, b') /\
    outcome b pool full hash off b' /\ off = (if decide (blocks b pool = []) then 1 else poolSize b pool).
Proof.
  intros full Hok (Hne & Hl & Hb) Hs Hn Hr Hnew. unfold add_entry.
  destruct (AddString_spec (blocks b pool) str header) as (off & bs' & i & pos & -> & [A1 A2 A3 A4 A5]);
    [by apply ok_blocks|done|unfold POOL_MAX in Hs; fold full; change IL_NORMAL_BLOCK_SIZE with 1024; width_lia|].
  fold full in A3, A4. pose proof (used_sum_nonneg (blocks b pool)) as Hnn.
  assert (0 < off /\ off <= used_sum (blocks b pool) + 1) as [Hoff Hoff'].
  { destruct (ok_started b Hok pool) as [E|E]; [rewrite E in A5; simpl in *; lia|]. destruct (blocks b pool); simpl in *; lia. }
  cbn [mbind option_bind]. rewrite (proj2 (Z.eqb_neq off 0)) by lia. eexists _, _. split; [reflexivity|].
  set (e0 := mk_hash pool i pos (Z.lor n (string_type pool)) off).
  set (bs2 := fun p => if decide (p = pool) then bs' else blocks b p).
  assert (forall p, grown (blocks b p) (bs2 p)) as Hg by (intros p; unfold bs2; case_decide; [by subst|done]).
  assert (holds bs2 e0 full) as He0.
  { split; [|done|by exists n]. unfold bs2. simpl. by rewrite decide_True. }
  split; [|rewrite (ok_size b Hok); case_decide as E; [by rewrite E in A5|by destruct (blocks b pool)]].
  split.
  - split; simpl.
    + apply Hok.
    + apply Hok.
    + intros p. unfold bs2. case_decide; [done|apply Hok].
    + intros p. unfold bs2. case_decide; [right; lia|apply Hok].
    + intros p. unfold bs2. case_decide; [lia|apply Hok].
    + intros p. unfold bs2. case_decide; [rewrite u32_id by (unfold POOL_MAX in *; width_lia); lia|apply Hok].
    + intros h e Hin. assert (e = e0 \/ e ∈ hashTable b h) as [-> | Hin'].
      { destruct (h =? hash); [by apply elem_of_cons in Hin|by right]. }
      * by exists full.
      * destruct (ok_entries b Hok h e Hin') as [w Hw]. exists w. by eapply holds_grown.
    + intros h e1 e2 w H1 H2 Ep Hp Hw1 Hw2. revert e1 e2 w H1 H2 Ep Hp Hw1 Hw2. destruct (Z.eqb_spec h hash) as [-> | Hh].
      * eapply (unique_add (blocks b) bs2 _ e0 full); try done; [by apply ok_entries|by apply ok_unique].
      * intros e1 e2 w H1 H2 Ep Hp Hw1 Hw2. destruct (ok_entries b Hok h e1 H1) as [w1 Hw1'].
        destruct (ok_entries b Hok h e2 H2) as [w2 Hw2']. pose proof (holds_grown _ _ _ _ Hg Hw1'). pose proof (holds_grown _ _ _ _ Hg Hw2').
        assert (w1 = w) as -> by by eapply (holds_inj bs2 e1). assert (w2 = w) as -> by (eapply (holds_inj bs2 e2); congruence || done).
        by apply (ok_unique b Hok h e1 e2 w).
  - split; simpl; [done|]. intros h e Hin. simpl. destruct (h =? hash); [by right|done].
  - done.
  - exists i, pos. simpl. unfold bs2. by rewrite decide_True.
  - intros p. simpl. unfold bs2. case_decide; [subst p; lia|lia].
  - intros _. exists e0. simpl. rewrite Z.eqb_refl. split; [by left|done].
Qed.

Lemma find_or_add_spec b pool str header n hash :
  let full := header ++ str in
  pools_ok b -> good_query pool str header -> used_sum (blocks b pool) + Z.of_nat (length full) + 1 <= POOL_MAX ->
  0 <= n < POOL_MAX -> recorded pool full n ->
  exists off b', find_or_add b pool str header n (string_type pool) hash (Z.of_nat (length full)) = Some (off, b') /\
    outcome b pool full hash off b' /\
    (pool = BlobPool -> off = (if decide (blocks b pool = []) then 1 else poolSize b pool)).
Proof.
  intros full Hok Hq Hs Hn Hr. subst full. unfold find_or_add, LookupHash.
  destruct (lookup_chain_spec b (hashTable b hash) str header pool) as ([e|] & -> & Hl); [by apply ok_entries|done| |];
    cbn [mbind option_bind].
  - destruct Hl as (Hin & Hp & <- & Hh). eexists _, _. split; [done|]. split; [|done]. split; try done.
    + by apply Hh.
    + exists (e_block e), (e_posn e). apply Hh.
    + intros p. case_decide; lia.
    + intros _. by exists e.
  - destruct (add_entry_spec b pool str header n hash) as (off & b' & -> & Ho & Hf); [done..|]. by exists off, b'.
Qed.

(** Bytes that have an entry are found again, and nothing changes. *)
Lemma find_again b pool str header n hash size e :
  pools_ok b -> good_query pool str header -> pool <> BlobPool -> e ∈ hashTable b hash -> e_pool e = pool ->
  holds (blocks b) e (header ++ str) ->
  find_or_add b pool str header n (string_type pool) hash size = Some (e_offset e, b).
Proof.
  intros Hok Hq Hp Hin Ep Hh. unfold find_or_add, LookupHash.
  destruct (lookup_chain_spec b (hashTable b hash) str header pool) as ([e'|] & -> & Hl); [by apply ok_entries|done| |];
    cbn [mbind option_bind].
  - destruct Hl as (Hin' & _ & Ep' & Hh'). repeat f_equal. apply (ok_unique b Hok hash e' e (header ++ str)); congruence || done.
  - exfalso. by apply (Hl Hp e).
Qed.

(** ** Additions *)

Inductive addition :=
  | Add_string (str : list Z)
  | Add_blob (blob : list Z)
  | Add_user_string (str : list Z) (len : Z)
  | Add_encoded_user_string (str : list Z) (len : Z).

Definition run_addition (b : ILImageBuilder) (a : addition) : option (Z * ILImageBuilder) :=
  match a with
  | Add_string str => ILImageAddString b (Some str)
  | Add_blob blob => ILImageAddBlob b blob
  | Add_user_string str len => ILImageAddUserString b str len
  | Add_encoded_user_string str len => ILImageAddEncodedUserString b str len
  end.

(** The arguments of the lookup that an addition makes, its hash and the
    length for its entry. *)
Definition request (a : addition) : option (Pool * list Z * list Z * Z * Z) :=
  match a with
  | Add_string str => Some (StringPool, str ++ [0], [], hash_bits (ILHashString 0 str), Z.of_nat (length str) + 1)
  | Add_blob blob =>
    let header := ILMetaCompressData (Z.of_nat (length blob)) in
    Some (BlobPool, blob, header, hash_bits (ILHashString (ILHashString 0 header) blob), Z.of_nat (length blob))
  | Add_user_string str len =>
    len ← (if len <? 0 then strlen str else Some len);
    buf ← user_string str len;
    Some (UserStringPool, buf, [], hash_bits (ILHashString 0 buf), Z.of_nat (length buf))
  | Add_encoded_user_string str len =>
    let str := take (Z.to_nat (len * 2 + 1)) str in
    let header := ILMetaCompressData (len * 2 + 1) in
    Some (UserStringPool, str, header, hash_bits (ILHashString (ILHashString 0 header) str), Z.of_nat (length (header ++ str)))
  end.

(** The bytes and the room for them that an addition needs. *)
Definition addition_size (a : addition) : Z :=
  match request a with
  | Some (_, str, header, _, _) => Z.of_nat (length (header ++ str)) + 6
  | None => 0
  end.

(** The strings have no zero byte; an encoded one has as many bytes as it says;
    one in UTF-8 ends within the bytes that are there. *)
Definition addition_ok (a : addition) : Prop :=
  match a with
  | Add_string str => Forall (fun c => c <> 0) str
  | Add_blob _ => True
  | Add_user_string str len => 0 <= len <= Z.of_nat (length str) /\ len < 0x10000000
  | Add_encoded_user_string str len => 0 <= len /\ len * 2 + 1 <= Z.of_nat (length str)
  end.

(** *** Strings in UTF-16 *)

Lemma write_units_bytes ch :
  let n := snd (ILUTF16WriteChar false ch) in
  0 <= n <= 2 /\ Z.of_nat (length (fst (ILUTF16WriteCharAsBytes true ch))) = 2 * n.
Proof. unfold ILUTF16WriteChar, ILUTF16WriteCharAsBytes. repeat case_match; simpl; lia. Qed.

Lemma utf16_total fuel str len posn wlen :
  0 <= posn -> len <= Z.of_nat (length str) -> len - posn <= Z.of_nat fuel -> 0 <= wlen ->
  wlen + 2 * Z.max 0 (len - posn) <= IL_MAX_UINT32 ->
  exists chars n, utf16_bytes fuel str len posn = Some chars /\ utf16_units fuel str len posn wlen = Some n /\
    Z.of_nat (length chars) = 2 * (n - wlen) /\ wlen <= n <= wlen + 2 * Z.max 0 (len - posn).
Proof.
  revert posn wlen. induction fuel as [|fuel IH]; intros posn wlen Hp Hl Hf Hw Hm; cbn [utf16_bytes utf16_units].
  - rewrite (proj2 (Z.ltb_ge posn len)) by lia. exists [], wlen. simpl. repeat split; lia.
  - destruct (Z.ltb_spec posn len) as [H|H]; [|exists [], wlen; simpl; repeat split; lia].
    destruct (read_utf8_in_bounds str len posn) as (ch & posn' & -> & Hp'); [lia..|]. cbn [mbind option_bind].
    destruct (write_units_bytes ch) as [Hn Hb]. set (k := snd _) in *. rewrite u32_id by lia.
    destruct (IH posn' (wlen + k)) as (chars & n & -> & -> & Hc & Hr); [lia..|]. cbn [mbind option_bind].
    eexists _, n. split; [done|]. split; [done|]. rewrite length_app. lia.
Qed.

(** The bytes of a user string: its length, its UTF-16 bytes and a zero. *)
Lemma user_string_bytes str len :
  addition_ok (Add_user_string str len) ->
  exists chars n, utf16_bytes (Z.to_nat len) str len 0 = Some chars /\ Z.of_nat (length chars) = 2 * n /\ 0 <= n <= 2 * len /\
    user_string str len = Some (ILMetaCompressData (n * 2 + 1) ++ chars ++ [0]).
Proof.
  intros [Hl Hm]. destruct (utf16_total (Z.to_nat len) str len 0 0) as (chars & n & E1 & E2 & Hc & Hn); [width_lia..|].
  exists chars, n. split; [done|]. split; [lia|]. split; [lia|]. unfold user_string. rewrite E1, E2. cbn [mbind option_bind].
  rewrite !u32_id by width_lia. pose proof (compress_length (n * 2 + 1)).
  rewrite (proj2 (Z.leb_le _ _)); [done|]. rewrite !length_app. simpl. lia.
Qed.

(** *** One addition *)

Definition request_full (r : Pool * list Z * list Z * Z * Z) : list Z :=
  let '(_, str, header, _, _) := r in header ++ str.

Lemma request_total a : addition_ok a -> is_Some (request a).
Proof.
  destruct a as [str|blob|str len|str len]; simpl; [by eauto|by eauto| |by eauto]. intros H.
  rewrite (proj2 (Z.ltb_ge len 0)) by lia. simpl. destruct (user_string_bytes str len H) as (chars & n & _ & _ & _ & ->). by eauto.
Qed.

Lemma request_blob a str header hash n : request a = Some (BlobPool, str, header, hash, n) -> exists blob, a = Add_blob blob.
Proof.
  destruct a as [s|blob|s len|s len]; simpl; [done|by exists blob| |done].
  destruct (if len <? 0 then _ else _) as [m|]; simpl; [|done]. by destruct (user_string s m).
Qed.

Lemma run_request b a pool str header hash n :
  building b = true -> addition_ok a -> request a = Some (pool, str, header, hash, n) ->
  Z.of_nat (length (header ++ str)) + 5 < POOL_MAX ->
  run_addition b a = find_or_add b pool str header n (string_type pool) hash (Z.of_nat (length (header ++ str))) /\
  good_query pool str header /\ 0 <= n < POOL_MAX /\ recorded pool (header ++ str) n.
Proof.
  intros Hb Ha Er Hl. unfold POOL_MAX in *. destruct a as [s|blob|s len|s len]; cbn [run_addition]; simpl in Er; cbn [addition_ok] in Ha.
  - injection Er as <- <- <- <- <-. simpl in Hl |- *. rewrite length_app in Hl |- *. simpl in Hl |- *.
    unfold ILImageAddString. rewrite Hb, u32_id by width_lia. rewrite Nat2Z.inj_add. split; [done|].
    split; [split; [by destruct s|split; [simpl; rewrite length_app; simpl; unfold POOL_MAX; lia|done]]|]. lia.
  - injection Er as <- <- <- <- <-. rewrite length_app in Hl |- *. unfold ILImageAddBlob.
    rewrite Hb, u32_id by width_lia. rewrite Nat2Z.inj_add. pose proof (compress_length (Z.of_nat (length blob))).
    split; [done|]. split; [split; [|split; [rewrite length_app; unfold POOL_MAX; lia|done]]|].
    + intros [E%length_zero_iff_nil _]%app_nil. simpl in *. lia.
    + split; [lia|]. by exists blob.
  - rewrite (proj2 (Z.ltb_ge len 0)) in Er by lia. simpl in Er. unfold ILImageAddUserString.
    destruct (user_string_bytes s len Ha) as (chars & k & _ & _ & _ & E).
    rewrite Hb, (proj2 (Z.ltb_ge len 0)) by lia. simpl.
    rewrite E in Er |- *. simpl in Er |- *. injection Er as <- <- <- <- <-. simpl in Hl |- *.
    split; [done|]. split; [split; [|split; [done|done]]|lia]. simpl. intros [_ [_ [=]]%app_nil]%app_nil.
  - injection Er as <- <- <- <- <-. unfold ILImageAddEncodedUserString. rewrite Hb.
    assert (length (take (Z.to_nat (len * 2 + 1)) s) = Z.to_nat (len * 2 + 1)) as Ht by (rewrite length_take; lia).
    rewrite length_app, Ht in Hl |- *. pose proof (compress_length (len * 2 + 1)).
    rewrite (u32_id (len * 2 + 1)) by width_lia. rewrite (proj2 (Nat.leb_le _ _)) by lia.
    rewrite (u32_id (_ + (len * 2 + 1))) by width_lia.
    replace (Z.of_nat _ + (len * 2 + 1)) with (Z.of_nat (length (ILMetaCompressData (len * 2 + 1)) + Z.to_nat (len * 2 + 1))) by lia.
    split; [done|]. split; [split; [|split; [rewrite length_app, Ht; unfold POOL_MAX; lia|done]]|].
    + intros [E%length_zero_iff_nil _]%app_nil. simpl in *. lia.
    + simpl. rewrite length_app, Ht. lia.
Qed.

(** What an addition that gave the offset [off] has left. *)
Record stored (b : ILImageBuilder) (pool : Pool) (full : list Z) (hash off : Z) : Prop := {
  stored_pos : 0 < off;
  stored_at : exists i pos, at_offset (blocks b pool) i pos off full;
  stored_entry : pool <> BlobPool ->
    exists e, e ∈ hashTable b hash /\ e_pool e = pool /\ e_offset e = off /\ holds (blocks b) e full;
}.

Definition addition_stored (b : ILImageBuilder) (a : addition) (off : Z) : Prop :=
  exists pool str header hash n, request a = Some (pool, str, header, hash, n) /\
    Z.of_nat (length (header ++ str)) + 5 < POOL_MAX /\ stored b pool (header ++ str) hash off.

Lemma stored_extends b b' a off : extends b b' -> addition_stored b a off -> addition_stored b' a off.
Proof.
  intros [G E] (pool & str & header & hash & n & Er & Hl & [H1 (i & pos & H2) H3]).
  exists pool, str, header, hash, n. split; [done|]. split; [done|]. split; [done| |].
  - exists i, pos. by apply G.
  - intros Hp. destruct (H3 Hp) as (e & Hin & Ep & Eo & Hh). exists e.
    split; [by apply E|]. split; [done|]. split; [done|]. by apply (holds_grown (blocks b)).
Qed.

(** Any addition with room for it succeeds. *)
Lemma run_addition_stored b a :
  pools_ok b -> addition_ok a -> (forall p, used_sum (blocks b p) + addition_size a <= POOL_MAX) ->
  exists off b', run_addition b a = Some (off, b') /\ pools_ok b' /\ extends b b' /\ addition_stored b' a off /\
    forall p, used_sum (blocks b' p) <= used_sum (blocks b p) + addition_size a.
Proof.
  intros Hok Ha Hs. destruct (request_total a Ha) as [[[[[pool str] header] hash] n] Er]. unfold addition_size in Hs |- *. rewrite Er in Hs |- *.
  pose proof (used_sum_nonneg (blocks b pool)). pose proof (Hs pool).
  destruct (run_request b a _ _ _ _ _ (ok_building b Hok) Ha Er) as (-> & Hq & Hn & Hr); [lia|].
  destruct (find_or_add_spec b pool str header n hash) as (off & b' & -> & [O1 O2 O3 O4 O5 O6] & _); [done|done|lia|done|done|].
  exists off, b'. split; [done|]. split; [done|]. split; [done|]. split.
  - exists pool, str, header, hash, n. split; [done|]. split; [lia|]. by split.
  - intros p. specialize (O5 p). case_decide; lia.
Qed.

(** Any number of additions. *)
Fixpoint add_all (b : ILImageBuilder) (l : list addition) : option (list Z * ILImageBuilder) :=
  match l with
  | [] => Some ([], b)
  | a :: l => '(off, b) ← run_addition b a; '(offs, b) ← add_all b l; Some (off :: offs, b)
  end.

Definition total_size (l : list addition) : Z := foldr (fun a n => addition_size a + n) 0 l.

Lemma addition_size_nonneg a : 0 <= addition_size a.
Proof. unfold addition_size. repeat case_match; lia. Qed.

Lemma total_size_nonneg l : 0 <= total_size l.
Proof. induction l as [|a l IH]; simpl; [done|]. pose proof (addition_size_nonneg a). lia. Qed.

Lemma add_all_stored l b :
  pools_ok b -> Forall addition_ok l -> (forall p, used_sum (blocks b p) + total_size l <= POOL_MAX) ->
  exists offs b', add_all b l = Some (offs, b') /\ pools_ok b' /\ extends b b' /\ Forall2 (addition_stored b') l offs /\
    forall p, used_sum (blocks b' p) <= used_sum (blocks b p) + total_size l.
Proof.
  intros Hok Hl. revert b Hok. induction Hl as [|a l Ha _ IH]; intros b Hok Hs; simpl in *.
  - exists [], b. split; [done|]. split; [done|]. split; [done|]. split; [done|]. intros p. lia.
  - pose proof (total_size_nonneg l). destruct (run_addition_stored b a) as (off & b1 & -> & Hok1 & Hx1 & Hst & Hc1); [done|done| |].
    { intros p. specialize (Hs p). lia. }
    destruct (IH b1 Hok1) as (offs & b2 & E & Hok2 & Hx2 & Hst2 & Hc2).
    { intros p. specialize (Hs p). specialize (Hc1 p). lia. }
    cbn [mbind option_bind]. rewrite E. cbn [mbind option_bind]. exists (off :: offs), b2. split; [done|]. split; [done|].
    split; [by etransitivity|]. split; [constructor; [by eapply stored_extends|done]|].
    intros p. specialize (Hc1 p). specialize (Hc2 p). lia.
Qed.

Lemma new_additions l :
  Forall addition_ok l -> total_size l <= POOL_MAX ->
  exists offs b, add_all new_builder l = Some (offs, b) /\ pools_ok b /\ Forall2 (addition_stored b) l offs /\
    forall p, used_sum (blocks b p) <= total_size l.
Proof.
  intros Hl Hs. destruct (add_all_stored l new_builder new_builder_ok Hl) as (offs & b & H1 & H2 & _ & H3 & H4).
  { intros p. simpl. lia. }
  exists offs, b. split; [done|]. split; [done|]. split; [done|]. intros p. specialize (H4 p). simpl in H4. lia.
Qed.

(** ** Access *)

Definition known_bytes (b : ILImageBuilder) (pool : Pool) : Prop :=
  match loadedPool b pool with Some bytes => Forall is_byte bytes | None => Forall (fun blk => Forall is_byte (b_bytes blk)) (blocks b pool) end.

(** Some bytes at an offset, with the rest of the pool, or of the block, behind them. *)
Definition pool_has (b : ILImageBuilder) (pool : Pool) (off : Z) (w : list Z) : Prop :=
  exists offset more, pool_at b pool off = Some (w ++ more, offset) /\ 0 <= offset /\
    offset + Z.of_nat (length w) <= poolSize b pool /\ 0 < off < poolSize b pool /\ poolSize b pool <= POOL_MAX /\
    (known_bytes b pool -> Forall is_byte more).

Lemma pool_at_offset b pool i pos off w : pools_ok b -> 0 < off -> at_offset (blocks b pool) i pos off w -> pool_has b pool off w.
Proof.
  intros Hok Hoff Hat. pose proof (ok_room b Hok pool) as Hr. unfold pool_has, known_bytes. rewrite (ok_size b Hok), (ok_loaded b Hok).
  destruct (walk_located _ i pos off w (ok_blocks b Hok pool) ltac:(unfold POOL_MAX in Hr; width_lia) Hat)
    as (blk & more & E & Ed & Hin & Hl).
  exists (Z.of_nat pos), more. unfold pool_at. rewrite (ok_loaded b Hok), E. cbn [mbind option_bind]. rewrite Nat2Z.id, Ed. split; [done|].
  destruct Hat as [(Hw & _) ->]. pose proof (used_sum_nonneg (take i (blocks b pool))).
  assert (0 < length w)%nat by (destruct w; simpl; [done|lia]). do 4 (split; [lia|]). intros Hb.
  pose proof (proj1 (list.Forall_forall _ _) Hb blk Hin) as Hb'. apply (Forall_drop _ pos) in Hb'. rewrite Ed in Hb'. apply (proj1 (Forall_app _ _ _)) in Hb' as [_ Hb']. done.
Qed.

(** Bytes behind a header with their number, as the readers of blobs and of
    user strings find them. *)
Lemma read_header b pool off n x :
  pool_has b pool off (ILMetaCompressData n ++ x) -> n = Z.of_nat (length x) ->
  exists bytes offset more rest,
    (0 <? off) && (off <? poolSize b pool) = true /\ pool_at b pool off = Some (bytes, offset) /\
    ILMetaUncompressData (mk_read bytes (u32 (poolSize b pool - offset)) false) = Some (n, mk_read (x ++ more) rest false) /\ n <= rest /\
    rest = poolSize b pool - offset - Z.of_nat (length (ILMetaCompressData n)) /\ (known_bytes b pool -> Forall is_byte more).
Proof.
  intros (offset & more & E & Ho & Hl & Hoff & Hs & Hb) Hn. rewrite length_app in Hl. unfold POOL_MAX in Hs. pose proof (compress_length n).
  exists ((ILMetaCompressData n ++ x) ++ more), offset, more, (poolSize b pool - offset - Z.of_nat (length (ILMetaCompressData n))).
  split; [by rewrite (proj2 (Z.ltb_lt 0 off)), (proj2 (Z.ltb_lt off _)) by lia|]. split; [done|]. split; [|split; [lia|done]].
  rewrite <- app_assoc, u32_id by width_lia.
  rewrite <- (uncompress_compress (x ++ more)) by width_lia. do 3 f_equal. lia.
Qed.

(** What an offset reads as: a string up to its zero, a blob with its length,
    the UTF-16 bytes of a user string with the number of its units. *)
Definition reads_back (b : ILImageBuilder) (a : addition) (off : Z) : Prop :=
  match a with
  | Add_string str => exists more, ILImageGetString b off = Some (str ++ 0 :: more)
  | Add_blob blob => exists more, ILImageGetBlob b off = Some (Some (blob ++ more, Z.of_nat (length blob)))
  | Add_user_string str len => exists chars n more,
      utf16_bytes (Z.to_nat len) str len 0 = Some chars /\ Z.of_nat (length chars) = 2 * n /\
      ILImageGetUserString b off = Some (Some (chars ++ more, n))
  | Add_encoded_user_string str len => exists more,
      ILImageGetUserString b off = Some (Some (take (Z.to_nat (2 * len)) str ++ more, len))
  end.

Lemma get_user_string b off n chars more :
  0 <= n -> pool_has b UserStringPool off (ILMetaCompressData (n * 2 + 1) ++ chars ++ more) ->
  n * 2 + 1 = Z.of_nat (length (chars ++ more)) ->
  exists more', ILImageGetUserString b off = Some (Some (chars ++ more', n)).
Proof.
  intros Hn Hat Hl. destruct (read_header b _ _ _ _ Hat Hl) as (bytes & offset & rest & len & E1 & E2 & E3 & E4 & _).
  exists (more ++ rest). unfold ILImageGetUserString. rewrite E1, E2, E3. cbn [mbind option_bind Compress.len error data].
  assert (Z.land (n * 2 + 1) 1 = 1) as -> by (change 1 with (Z.ones 1) at 2; rewrite Z.land_ones by lia; width_lia).
  rewrite (proj2 (Z.ltb_ge len _)) by lia. simpl. rewrite <- app_assoc. repeat f_equal. width_lia.
Qed.

Lemma get_blob b blob off :
  pool_has b BlobPool off (ILMetaCompressData (Z.of_nat (length blob)) ++ blob) ->
  exists more, ILImageGetBlob b off = Some (Some (blob ++ more, Z.of_nat (length blob))) /\ (known_bytes b BlobPool -> Forall is_byte more).
Proof.
  intros Hat. destruct (read_header b _ _ _ _ Hat eq_refl) as (bytes & offset & more & len & E1 & E2 & E3 & E4 & _ & Hb).
  exists more. split; [|done]. unfold ILImageGetBlob. rewrite E1.
  destruct (loadedPool b BlobPool) eqn:El, (blocks b BlobPool) eqn:Eb; try (unfold pool_at in E2; by rewrite El, Eb in E2).
  all: rewrite E2, E3; cbn [mbind option_bind Compress.len error data]; by rewrite (proj2 (Z.ltb_ge len _)) by lia.
Qed.

Lemma has_reads_back b a off pool str header hash n :
  addition_ok a -> request a = Some (pool, str, header, hash, n) -> pool_has b pool off (header ++ str) -> reads_back b a off.
Proof.
  intros Ha Er Hat. destruct a as [s|blob|s len|s len]; simpl in Er; cbn [reads_back addition_ok] in *.
  - injection Er as <- <- <- _ _. destruct Hat as (offset & more & E & _ & _ & Hoff & _). exists more.
    unfold ILImageGetString. rewrite (proj2 (Z.ltb_lt off _)) by lia. rewrite E. simpl. by rewrite <- app_assoc.
  - injection Er as <- <- <- _ _. destruct (get_blob _ _ _ Hat) as (more & E & _). by exists more.
  - rewrite (proj2 (Z.ltb_ge len 0)) in Er by lia. simpl in Er. destruct (user_string_bytes s len Ha) as (chars & k & Ec & Hc & Hk & E).
    rewrite E in Er. simpl in Er. injection Er as <- <- <- _ _.
    destruct (get_user_string b off k chars [0]) as [more' Em]; [lia|done|rewrite length_app; simpl; lia|].
    by exists chars, k, more'.
  - injection Er as <- <- <- _ _. assert (take (Z.to_nat (len * 2 + 1)) s = take (Z.to_nat (2 * len)) s ++ take 1 (drop (Z.to_nat (2 * len)) s)) as E.
    { replace (Z.to_nat (len * 2 + 1)) with (Z.to_nat (2 * len) + 1)%nat by lia. by rewrite take_take_drop. }
    rewrite E in Hat. apply (get_user_string b off len) in Hat; [done|lia|]. rewrite <- E, length_take. lia.
Qed.

Lemma stored_has b a off : pools_ok b -> addition_stored b a off ->
  exists pool str header hash n, request a = Some (pool, str, header, hash, n) /\ pool_has b pool off (header ++ str).
Proof.
  intros Hok (pool & str & header & hash & n & Er & _ & [Hoff (i & pos & Hat) _]). exists pool, str, header, hash, n.
  split; [done|]. by apply (pool_at_offset b pool i pos).
Qed.

Lemma stored_reads_back b a off : pools_ok b -> addition_ok a -> addition_stored b a off -> reads_back b a off.
Proof.
  intros Hok Ha Hst. destruct (stored_has b a off Hok Hst) as (pool & str & header & hash & n & Er & Hat).
  by apply (has_reads_back b a off pool str header hash n).
Qed.

(** ** The theorems *)

(** Pools: from a new image, any sequence of additions of strings, blobs and
    user strings whose sizes stay below a bound succeeds, and in the image that
    it leaves every offset that was given out reads as what was added there:
    whatever came later, and whatever was found by the hash table. *)
Theorem pool_additions_read_back l :
  Forall addition_ok l -> total_size l <= POOL_MAX ->
  exists offs b, add_all new_builder l = Some (offs, b) /\ Forall2 (reads_back b) l offs.
Proof.
  intros Hl Hs. destruct (new_additions l Hl Hs) as (offs & b & E & Hok & Hst & _). exists offs, b. split; [done|].
  clear E Hs. induction Hst as [|a off l offs Ha _ IH]; [done|]. apply Forall_cons_1 in Hl as [Hl1 Hl2].
  constructor; [by apply stored_reads_back|by apply IH].
Qed.

Definition is_blob (a : addition) : bool := match a with Add_blob _ => true | _ => false end.

(** Pools: a string or user string that is in the image is found by the hash
    table: adding it again gives the offset it has and changes nothing. *)
Theorem equal_strings_shared l offs b k a off :
  Forall addition_ok l -> total_size l <= POOL_MAX -> add_all new_builder l = Some (offs, b) ->
  l !! k = Some a -> offs !! k = Some off -> is_blob a = false ->
  run_addition b a = Some (off, b).
Proof.
  intros Hl Hs E Ea Eo Hb. destruct (new_additions l Hl Hs) as (offs' & b' & E' & Hok & Hst & _). rewrite E in E'. injection E' as <- <-.
  destruct (Forall2_lookup_lr _ _ _ _ _ _ Hst Ea Eo) as (pool & str & header & hash & n & Er & Hsz & [_ _ He]).
  assert (addition_ok a) as Ha by (exact (Forall_lookup_1 _ _ _ _ Hl Ea)).
  destruct (run_request b a _ _ _ _ _ (ok_building b Hok) Ha Er Hsz) as (-> & Hq & _ & _).
  assert (pool <> BlobPool) as Hp.
  { intros ->. by destruct (request_blob _ _ _ _ _ Er) as [blob ->]. }
  destruct (He Hp) as (e & Hin & Ep & <- & Hh). by apply (find_again b pool str header n hash _ e).
Qed.

(** Pools: a blob that is in the image is not found: it is added again, at the
    end of the pool ([LookupHash] compares the length with the header included,
    the entry has it without). *)
Theorem equal_blobs_not_shared l offs b k blob off :
  Forall addition_ok l -> total_size l + addition_size (Add_blob blob) <= POOL_MAX -> add_all new_builder l = Some (offs, b) ->
  l !! k = Some (Add_blob blob) -> offs !! k = Some off ->
  exists b', ILImageAddBlob b blob = Some (poolSize b BlobPool, b') /\ off < poolSize b BlobPool.
Proof.
  intros Hl Hs E Ea Eo. pose proof (addition_size_nonneg (Add_blob blob)).
  destruct (new_additions l Hl ltac:(lia)) as (offs' & b' & E' & Hok & Hst & Hc). rewrite E in E'. injection E' as <- <-.
  destruct (Forall2_lookup_lr _ _ _ _ _ _ Hst Ea Eo) as (pool & str & header & hash & n & Er & Hsz & [Hoff0 (i & pos & Hat) _]).
  destruct (run_request b (Add_blob blob) _ _ _ _ _ (ok_building b Hok) I Er Hsz) as (Erun & Hq & Hn & Hr).
  assert (pool = BlobPool) as -> by by injection Er. cbn [run_addition] in Erun. rewrite Erun.
  destruct (find_or_add_spec b BlobPool str header n hash) as (off' & b' & -> & _ & Hoff); [done|done| |done|done|].
  { specialize (Hc BlobPool). unfold addition_size in Hs. rewrite Er in Hs. lia. }
  rewrite (Hoff eq_refl). rewrite decide_False.
  - exists b'. split; [done|]. by destruct (pool_at_offset _ _ _ _ _ _ Hok Hoff0 Hat) as (_ & _ & _ & _ & _ & [_ ?] & _).
  - intros E0. rewrite E0 in Hat. by destruct Hat as [(_ & blk & more & Eb & _) _].
Qed.

(** ** What holds of the bytes of a pool *)

(** A property of the bytes of a block that [full] keeps when it is added. *)
Record kept_by (P : list Z -> Prop) (full : list Z) : Prop := {
  kept_alone : P full;
  kept_first : P (0 :: full);
  kept_behind : forall l, P l -> P (l ++ full);
}.

Definition pool_all (P : list Z -> Prop) (b : ILImageBuilder) (p : Pool) : Prop := Forall (fun blk => P (b_bytes blk)) (blocks b p).

Lemma AddString_all P bs str header off bs' i pos :
  Forall (fun blk => P (b_bytes blk)) bs -> kept_by P (header ++ str) ->
  AddString bs str header = Some (off, bs', i, pos) -> Forall (fun blk => P (b_bytes blk)) bs'.
Proof.
  intros Hbs [H1 H2 H3]. unfold AddString. cbv zeta. destruct (_ <? _); [done|]. destruct bs as [|b bs _] using rev_ind.
  - cbn [list.last]. intros [= _ <- _ _]. by repeat constructor.
  - rewrite last_snoc. apply Forall_app in Hbs as [Hbs Hb]. apply (proj1 (Forall_singleton _ _)) in Hb.
    destruct (_ <=? _); intros [= _ <- _ _].
    + rewrite length_app. simpl. rewrite Nat.add_sub, take_app_length. apply Forall_app. split; [done|].
      constructor; [by apply H3|done].
    + apply Forall_app. split; [apply Forall_app; split; [done|by constructor]|by constructor].
Qed.

Lemma find_or_add_all P b pool str header n type hash size off b' p :
  pool_all P b p -> (pool = p -> kept_by P (header ++ str)) ->
  find_or_add b pool str header n type hash size = Some (off, b') -> pool_all P b' p.
Proof.
  intros Hb Hf. unfold find_or_add. destruct (LookupHash _ _ _ _ _) as [[e|]|]; simpl; [by intros [= _ <-]| |done].
  unfold add_entry. destruct (AddString _ _ _) as [[[[off' bs'] i] pos]|] eqn:E; simpl; [|done].
  assert (Forall (fun blk => P (b_bytes blk)) (if decide (p = pool) then bs' else blocks b p)) as Hp.
  { case_decide as Ep; [|done]. subst p. eapply AddString_all; [exact Hb|by apply Hf|exact E]. }
  by destruct (off' =? 0); intros [= _ <-].
Qed.

(** What an addition puts into a pool keeps the property. *)
Definition addition_keeps (P : list Z -> Prop) (p : Pool) (a : addition) : Prop :=
  forall str header hash n, request a = Some (p, str, header, hash, n) -> kept_by P (header ++ str).

Lemma add_all_all P p l b offs b' :
  pools_ok b -> Forall addition_ok l -> (forall q, used_sum (blocks b q) + total_size l <= POOL_MAX) ->
  Forall (addition_keeps P p) l -> pool_all P b p -> add_all b l = Some (offs, b') -> pool_all P b' p.
Proof.
  intros Hok Hl. revert b offs Hok. induction Hl as [|a l Ha _ IH]; intros b offs Hok Hs Hk Hb; simpl in *; [by intros [= _ <-]|].
  apply Forall_cons_1 in Hk as [Hka Hk].
  pose proof (total_size_nonneg l). pose proof (used_sum_nonneg (blocks b p)). pose proof (Hs p).
  destruct (run_addition_stored b a Hok Ha) as (off & b1 & E1 & Hok1 & _ & _ & Hc); [intros q; specialize (Hs q); lia|].
  assert (pool_all P b1 p) as Hb1.
  { destruct (request_total a Ha) as [[[[[pool str] header] hash] n] Er]. unfold addition_size in *. rewrite Er in *.
    destruct (run_request b a _ _ _ _ _ (ok_building b Hok) Ha Er ltac:(lia)) as (Erun & _). rewrite Erun in E1.
    eapply find_or_add_all; [exact Hb| |exact E1]. intros ->. by eapply Hka. }
  rewrite E1. cbn [mbind option_bind]. destruct (add_all b1 l) as [[offs' b2]|] eqn:E2; cbn [mbind option_bind]; [|done].
  intros [= _ <-]. apply (IH b1 offs'); try done. intros q. specialize (Hs q). specialize (Hc q). lia.
Qed.

(** *** Bytes *)

(** The arguments are bytes. *)
Definition addition_bytes (a : addition) : Prop :=
  match a with
  | Add_string str => Forall is_byte str
  | Add_blob blob => Forall is_byte blob
  | Add_user_string _ _ => True
  | Add_encoded_user_string str _ => Forall is_byte str
  end.

Lemma write_bytes ch : Forall is_byte (fst (ILUTF16WriteCharAsBytes true ch)).
Proof. unfold ILUTF16WriteCharAsBytes. repeat case_match; simpl; repeat constructor; apply u8_range. Qed.

Lemma utf16_is_byte fuel str len posn chars : utf16_bytes fuel str len posn = Some chars -> Forall is_byte chars.
Proof.
  revert posn chars. induction fuel as [|fuel IH]; intros posn chars; simpl.
  - destruct (posn <? len); [|by intros [= <-]]. by destruct (ILUTF8ReadChar str len posn) as [[]|].
  - destruct (posn <? len); [|by intros [= <-]]. destruct (ILUTF8ReadChar str len posn) as [[ch posn']|]; simpl; [|done].
    destruct (utf16_bytes fuel str len posn') as [rest|] eqn:E; simpl; [|done]. intros [= <-].
    apply Forall_app. split; [apply write_bytes|by eapply IH].
Qed.

Lemma request_bytes a pool str header hash n :
  addition_ok a -> addition_bytes a -> request a = Some (pool, str, header, hash, n) -> Forall is_byte (header ++ str).
Proof.
  intros Ha Hb Er. apply Forall_app. destruct a as [s|blob|s len|s len]; simpl in Er; cbn [addition_ok addition_bytes] in *.
  - injection Er as <- <- <- _ _. split; [constructor|]. apply Forall_app. split; [done|]. by repeat constructor.
  - injection Er as <- <- <- _ _. split; [apply compress_data_bytes|done].
  - rewrite (proj2 (Z.ltb_ge len 0)) in Er by lia. simpl in Er. destruct (user_string_bytes s len Ha) as (chars & k & Ec & _ & _ & E).
    rewrite E in Er. simpl in Er. injection Er as <- <- <- _ _. split; [constructor|]. apply Forall_app. split; [apply compress_data_bytes|].
    apply Forall_app. split; [by eapply utf16_is_byte|by repeat constructor].
  - injection Er as <- <- <- _ _. split; [apply compress_data_bytes|by apply Forall_take].
Qed.

Lemma kept_bytes full : Forall is_byte full -> kept_by (Forall is_byte) full.
Proof. intros H. split; [done|by constructor|]. intros l Hl. by apply Forall_app. Qed.

Lemma new_additions_bytes l offs b p :
  Forall addition_ok l -> total_size l <= POOL_MAX -> Forall addition_bytes l -> add_all new_builder l = Some (offs, b) ->
  pool_all (Forall is_byte) b p.
Proof.
  intros Hl Hs Hb E. apply (add_all_all (Forall is_byte) p l new_builder offs b); [apply new_builder_ok|done|done| |constructor|done].
  clear E Hs. induction Hl as [|a l Ha _ IH]; [constructor|]. apply Forall_cons_1 in Hb as [Hb1 Hb]. constructor; [|by apply IH].
  intros str header hash n Er. by eapply kept_bytes, request_bytes.
Qed.

(** *** Strings end with a zero *)

Lemma new_additions_ended l offs b :
  Forall addition_ok l -> total_size l <= POOL_MAX -> add_all new_builder l = Some (offs, b) ->
  pool_all (fun bytes => list.last bytes = Some 0) b StringPool.
Proof.
  intros Hl Hs E. eapply (add_all_all _ StringPool l new_builder offs b); [apply new_builder_ok|done|done| |constructor|done].
  apply list.Forall_forall. intros a _ str header hash n Er.
  assert (exists s, header ++ str = s ++ [0]) as [s ->].
  { destruct a as [s|x|s len|s len]; simpl in Er; try done; [injection Er as <- <- _ _; by exists s|].
    destruct (if len <? 0 then _ else _) as [m|]; simpl in Er; [|done]. by destruct (user_string s m). }
  split; [by rewrite last_snoc|by rewrite app_comm_cons, last_snoc|]. intros l' _. by rewrite app_assoc, last_snoc.
Qed.

End Additions.

(** ** An example *)

(** "AB", a blob, "A" with an accent and a letter outside the first plane, the
    first string again, the blob again, and a user string as it is stored. *)
Definition sample_additions : list addition :=
  [Add_string [0x41; 0x42]; Add_blob [1; 2; 3]; Add_user_string [0x41; 0xC3; 0xA9; 0xF0; 0x9D; 0x84; 0x9E] 7;
   Add_string [0x41; 0x42]; Add_blob [1; 2; 3]; Add_encoded_user_string [0x42; 0; 1; 0xFF] 1; Add_string []].

Lemma sample_additions_ok : Forall addition_ok sample_additions /\ total_size sample_additions <= POOL_MAX.
Proof. split; [|by vm_compute]. repeat constructor; by vm_compute. Qed.

Definition sample_builder : ILImageBuilder :=
  match add_all new_builder sample_additions with Some (_, b) => b | None => new_builder end.

Example sample_offsets : add_all new_builder sample_additions = Some ([1; 1; 1; 1; 5; 11; 4], sample_builder).
Proof. reflexivity. Qed.

(** The offset 0 is an empty string and no blob. *)
Example sample_reads :
  ILImageGetString sample_builder 0 = Some [0; 0x41; 0x42; 0; 0] /\ ILImageGetBlob sample_builder 0 = Some None /\
  ILImageGetBlob sample_builder 5 = Some (Some ([1; 2; 3], 3)) /\
  ILImageGetUserString sample_builder 1 = Some (Some ([0x41; 0; 0xE9; 0; 0x34; 0xD8; 0x1E; 0xDD; 0; 3; 0x42; 0; 1], 4)) /\
  ILImageGetString sample_builder 5 = None.
Proof. repeat split; reflexivity. Qed.

Lemma pool_additions_read_back_witness :
  exists offs b, add_all new_builder sample_additions = Some (offs, b) /\ Forall2 (reads_back b) sample_additions offs.
Proof. apply (pool_additions_read_back sample_additions); apply sample_additions_ok. Defined.

Lemma equal_strings_shared_witness :
  run_addition sample_builder (Add_encoded_user_string [0x42; 0; 1; 0xFF] 1) = Some (11, sample_builder).
Proof.
  apply (equal_strings_shared sample_additions [1; 1; 1; 1; 5; 11; 4] sample_builder 5); try reflexivity; apply sample_additions_ok.
Defined.

Lemma equal_blobs_not_shared_witness :
  exists b', ILImageAddBlob sample_builder [1; 2; 3] = Some (9, b') /\ 1 < 9.
Proof.
  apply (equal_blobs_not_shared sample_additions [1; 1; 1; 1; 5; 11; 4] sample_builder 1); try reflexivity; [apply sample_additions_ok|by vm_compute].
Defined.
