(* ===== verification/MetaHeader.v ===== *)
(** * The metadata section of an image (image/meta_header.c, writer.c, meta_index.c)

    The section starts with a header and a directory of its parts: the tables,
    the pools and the GUIDs.  [ILWriterOutputMetadata] writes it for an image
    that was built, [_ILImageParseMeta] finds the pools again when the image is
    loaded.  [None] is an access behind what is known of the section.  The bytes
    of the tables and of the GUIDs are arguments. *)
From Stdlib Require Import ZArith Lia.
From stdpp Require Import base list option numbers.
From S2P Require Import Prelude Compress Cvm Pools.

Local Open Scope Z_scope.

Definition uint16_at (addr : list Z) (i : nat) : option Z :=
  b0 ← addr !! i; b1 ← addr !! (i + 1)%nat; Some (IL_READ_UINT16 b0 b1).
Definition uint32_at (addr : list Z) (i : nat) : option Z :=
  b0 ← addr !! i; b1 ← addr !! (i + 1)%nat; b2 ← addr !! (i + 2)%nat; b3 ← addr !! (i + 3)%nat;
  Some (IL_READ_UINT32 b0 b1 b2 b3).
Definition IL_WRITE_UINT16 (value : Z) : list Z := [u8 value; u8 (Z.shiftr value 8)].
Definition IL_WRITE_UINT32 (value : Z) : list Z :=
  [u8 value; u8 (Z.shiftr value 8); u8 (Z.shiftr value 16); u8 (Z.shiftr value 24)].

(** "BSJB". *)
Definition metadata_magic : list Z := [0x42; 0x53; 0x4A; 0x42].

(** ** Reading (image/meta_header.c) *)

(** The number of entries and the size of the header of a section of [len]
    bytes; the inner [None] is 0xFFFFFFFF. *)
Definition GetMetadata (addr : list Z) (len : Z) : option (option (Z * Z)) :=
  if 16 <=? len then
    c0 ← addr !! 0%nat; c1 ← addr !! 1%nat; c2 ← addr !! 2%nat; c3 ← addr !! 3%nat;
    if bool_decide ([c0; c1; c2; c3] = metadata_magic) then
      version ← uint32_at addr 4;
      if negb (version =? 0x00010001) then Some None
      else
        versionLen ← uint32_at addr 12;
        let versionLen := if versionLen mod 4 =? 0 then versionLen else u32 (versionLen + (4 - versionLen mod 4)) in
        if u32 (len - 16) <? versionLen then Some None
        else if u32 (len - 16 - versionLen) <? 4 then Some None
        else
          numEntries ← uint16_at addr (Z.to_nat (16 + versionLen + 2));
          Some (Some (numEntries, u32 (16 + versionLen + 4)))
    else Some None
  else Some None.

Section MetaHeader.
Context {PF : Platform}.

(** [addr], [lenLeft], [offset] and [numEntries] of the loops over the directory. *)
Record directory_state := mk_directory { d_addr : list Z; d_left : Z; d_offset : Z; d_num : Z }.
Record directory_entry := mk_entry { entryOffset : Z; entrySize : Z; entryName : list Z }.

(** [while(lenLeft > 0 && addr[0] != 0)]. *)
Fixpoint skip_name (addr : list Z) (lenLeft offset : Z) : option (list Z * Z * Z) :=
  if 0 <? lenLeft then
    match addr with
    | [] => None
    | c :: rest => if c =? 0 then Some (addr, lenLeft, offset) else skip_name rest (lenLeft - 1) (ulong (offset + 1))
    end
  else Some (addr, lenLeft, offset).

(** [while(lenLeft > 0 && (offset & 3) != 0)]. *)
Fixpoint skip_padding (addr : list Z) (lenLeft offset : Z) : option (list Z * Z * Z) :=
  if (0 <? lenLeft) && negb (Z.land offset 3 =? 0) then
    match addr with [] => None | _ :: rest => skip_padding rest (lenLeft - 1) (ulong (offset + 1)) end
  else Some (addr, lenLeft, offset).

Definition GetNextEntry (totalLen : Z) (st : directory_state) : option (option (directory_entry * directory_state)) :=
  if d_num st =? 0 then Some None
  else if d_left st <? 9 then Some None
  else
    extOffset ← uint32_at (d_addr st) 0;
    extSize ← uint32_at (d_addr st) 4;
    if (totalLen <=? extOffset) || (extSize =? 0) || (totalLen <? ulong (extOffset + extSize))
       || (ulong (extOffset + extSize) <? extOffset) then Some None
    else
      let name := drop 8 (d_addr st) in
      '(addr, lenLeft, offset) ← skip_name name (d_left st - 8) (ulong (d_offset st + 8));
      if 0 <? lenLeft then
        '(addr, lenLeft, offset) ← skip_padding (tail addr) (lenLeft - 1) (ulong (offset + 1));
        Some (Some (mk_entry extOffset extSize name, mk_directory addr lenLeft offset (u32 (d_num st - 1))))
      else Some None.

(** [!strcmp(entryName, name)]; [name] is without its zero byte. *)
Fixpoint same_name (entryName name : list Z) : option bool :=
  c ← head entryName;
  match name with
  | [] => Some (c =? 0)
  | n :: name => if c =? n then same_name (tail entryName) name else Some false
  end.

(** [fuel] is the number of entries. *)
Fixpoint find_entry (fuel : nat) (totalLen : Z) (name : list Z) (st : directory_state) : option (option directory_entry) :=
  next ← GetNextEntry totalLen st;
  match next with
  | None => Some None
  | Some (entry, st) =>
    found ← same_name (entryName entry) name;
    if (found : bool) then Some (Some entry)
    else match fuel with O => None | S fuel => find_entry fuel totalLen name st end
  end.

Definition first_entry (address : list Z) (len headerLen numEntries : Z) : directory_state :=
  mk_directory (drop (Z.to_nat headerLen) address) (u32 (len - headerLen)) headerLen numEntries.

(** The bytes from the part on, and its size. *)
Definition ILImageGetMetaEntry (address : list Z) (len : Z) (name : list Z) : option (option (list Z * Z)) :=
  header ← GetMetadata address len;
  match header with
  | None => Some None
  | Some (numEntries, headerLen) =>
    entry ← find_entry (Z.to_nat numEntries) len name (first_entry address len headerLen numEntries);
    Some (match entry with
          | Some entry => Some (drop (Z.to_nat (entryOffset entry)) address, entrySize entry)
          | None => None
          end)
  end.

Definition ILImageNumMetaEntries (address : list Z) (len : Z) : option Z :=
  header ← GetMetadata address len; Some (match header with Some (numEntries, _) => numEntries | None => 0 end).

Fixpoint nth_entry (fuel : nat) (totalLen entry : Z) (st : directory_state) : option (option directory_entry) :=
  next ← GetNextEntry totalLen st;
  match next with
  | None => Some None
  | Some (found, st) =>
    if entry =? 0 then Some (Some found)
    else match fuel with O => None | S fuel => nth_entry fuel totalLen (entry - 1) st end
  end.

(** The bytes from the part on, its name, its offset in the section and its size. *)
Definition ILImageMetaEntryInfo (address : list Z) (len entry : Z) : option (option (list Z * list Z * Z * Z)) :=
  header ← GetMetadata address len;
  match header with
  | None => Some None
  | Some (numEntries, headerLen) =>
    found ← nth_entry (Z.to_nat numEntries) len entry (first_entry address len headerLen numEntries);
    Some (match found with
          | Some e => Some (drop (Z.to_nat (entryOffset e)) address, entryName e, entryOffset e, entrySize e)
          | None => None
          end)
  end.

Fixpoint last_offset (fuel : nat) (totalLen : Z) (st : directory_state) : option Z :=
  next ← GetNextEntry totalLen st;
  match next with
  | None => Some (d_offset st)
  | Some (_, st) => match fuel with O => None | S fuel => last_offset fuel totalLen st end
  end.

Definition ILImageMetaHeaderSize (address : list Z) (len : Z) : option Z :=
  header ← GetMetadata address len;
  match header with
  | None => Some 0
  | Some (numEntries, headerLen) => last_offset (Z.to_nat numEntries) len (first_entry address len headerLen numEntries)
  end.

(** [while(versionLen > 0 && version[versionLen - 1] == 0)]. *)
Fixpoint trim_version (versionLen : nat) (version : list Z) : option nat :=
  match versionLen with
  | O => Some O
  | S n => c ← version !! n; if c =? 0 then trim_version n version else Some versionLen
  end.

Definition ILImageMetaRuntimeVersion (address : list Z) (len : Z) : option (option (list Z)) :=
  header ← GetMetadata address len;
  match header with
  | None => Some None
  | Some (_, headerLen) =>
    let version := drop 16 address in
    n ← trim_version (Z.to_nat (u32 (headerLen - 20))) version;
    Some (if decide (n = O) then None else Some (take n version))
  end.

(** ** The pools of a loaded image (image/meta_index.c) *)

Definition name_strings : list Z := [0x23; 0x53; 0x74; 0x72; 0x69; 0x6E; 0x67; 0x73].
Definition name_blob : list Z := [0x23; 0x42; 0x6C; 0x6F; 0x62].
Definition name_user_strings : list Z := [0x23; 0x55; 0x53].
Definition name_index : list Z := [0x23; 0x7E].
Definition name_guid : list Z := [0x23; 0x47; 0x55; 0x49; 0x44].

Definition pool_entry (address : list Z) (len : Z) (name : list Z) : option (option (list Z) * Z) :=
  entry ← ILImageGetMetaEntry address len name;
  Some (match entry with Some (pool, size) => (Some pool, size) | None => (None, 0) end).

(** The start of [_ILImageParseMeta]: the image with its pools; the inner [None]
    is IL_LOADERR_BAD_META. *)
Definition _ILImageParseMeta (address : list Z) (len : Z) : option (option ILImageBuilder) :=
  '(stringPool, stringPoolSize) ← pool_entry address len name_strings;
  unended ← (match stringPool with
             | Some pool => if 0 <? stringPoolSize then c ← pool !! Z.to_nat (stringPoolSize - 1); Some (negb (c =? 0)) else Some false
             | None => Some false
             end);
  if (unended : bool) then Some None
  else
    '(blobPool, blobPoolSize) ← pool_entry address len name_blob;
    '(userStringPool, userStringPoolSize) ← pool_entry address len name_user_strings;
    Some (Some (mk_builder false (fun _ => []) (fun _ => [])
      (fun p => match p with StringPool => stringPoolSize | BlobPool => blobPoolSize | UserStringPool => userStringPoolSize end)
      (fun p => match p with StringPool => stringPool | BlobPool => blobPool | UserStringPool => userStringPool end))).

(** A reference to a string in a table. *)
Definition valid_string_ref (image : ILImageBuilder) (temp : Z) : bool := negb (poolSize image StringPool <=? temp).

(** A reference to a blob in a table: its start and its length, or an error. *)
Definition read_blob_ref (image : ILImageBuilder) (temp : Z) : option (option (Z * Z)) :=
  if negb (temp =? 0) && (poolSize image BlobPool <=? temp) then Some None
  else if temp =? 0 then Some (Some (0, 0))
  else
    pool ← loadedPool image BlobPool;
    '(blobLen, reader) ← ILMetaUncompressData (mk_read (drop (Z.to_nat temp) pool) (u32 (poolSize image BlobPool - temp)) false);
    Some (if (Compress.len reader <? blobLen) || error reader then None
          else Some (u32 (poolSize image BlobPool - Compress.len reader), blobLen)).

(** ** Writing (image/writer.c) *)

(** What [WriteImagePool] adds to the output. *)
Definition WriteImagePool (pool : option (list Z)) (poolSize : Z) (poolBlocks : list ILStringBlock) : list Z :=
  match pool with Some pool => take (Z.to_nat poolSize) pool | None => concat (map b_bytes poolBlocks) end.

(** [WriteBlockPadding(writer, 4)]; the section starts at a multiple of four. *)
Definition ILWriterTextAlign (output : list Z) : list Z :=
  let r := Z.land (Z.of_nat (length output)) 3 in
  if r =? 0 then output else output ++ repeat 0 (Z.to_nat (4 - r)).

(** The parts there are, with their names as they are written and their sizes. *)
Definition metadata_sections (image : ILImageBuilder) (indexBlob guidBlob : list Z) : list (list Z * Z) :=
  let present (name : list Z) (size : Z) := if size =? 0 then [] else [(name, size)] in
  present (name_index ++ [0; 0]) (Z.of_nat (length indexBlob)) ++
  present (name_strings ++ [0; 0; 0; 0]) (poolSize image StringPool) ++
  present (name_blob ++ [0; 0; 0]) (poolSize image BlobPool) ++
  present (name_user_strings ++ [0]) (poolSize image UserStringPool) ++
  present (name_guid ++ [0; 0; 0]) (Z.of_nat (length guidBlob)).

(** The entries, with the offsets that are filled in afterwards. *)
Fixpoint directory (current : Z) (sections : list (list Z * Z)) : list Z :=
  match sections with
  | [] => []
  | (name, size) :: sections =>
    IL_WRITE_UINT32 current ++ IL_WRITE_UINT32 size ++ name ++
    directory (u32 (current + Z.land (u32 (size + 3)) (u32 (Z.lnot 3)))) sections
  end.

Definition directory_size (sections : list (list Z * Z)) : Z :=
  foldr (fun s n => 8 + Z.of_nat (length (fst s)) + n) 0 sections.

Definition metadata_header (versionString : list Z) (sections : list (list Z * Z)) : list Z :=
  metadata_magic ++ IL_WRITE_UINT16 1 ++ IL_WRITE_UINT16 1 ++ IL_WRITE_UINT32 0 ++
  IL_WRITE_UINT32 (Z.of_nat (length versionString)) ++ versionString ++
  IL_WRITE_UINT16 0 ++ IL_WRITE_UINT16 (Z.of_nat (length sections)) ++
  directory (16 + Z.of_nat (length versionString) + 4 + directory_size sections) sections.

(** The metadata section, from the bytes in [indexBlob] and [guidBlob]. *)
Definition ILWriterOutputMetadata (versionString indexBlob guidBlob : list Z) (image : ILImageBuilder) : list Z :=
  let pool p := WriteImagePool (loadedPool image p) (poolSize image p) (blocks image p) in
  let output := metadata_header versionString (metadata_sections image indexBlob guidBlob) in
  let output := ILWriterTextAlign (output ++ indexBlob) in
  let output := ILWriterTextAlign (output ++ pool StringPool) in
  let output := ILWriterTextAlign (output ++ pool BlobPool) in
  let output := ILWriterTextAlign (output ++ pool UserStringPool) in
  ILWriterTextAlign (output ++ guidBlob).

End MetaHeader.
