(* ===== verification/MetaHeaderProps.v ===== *)
(** * The metadata section is read as it was written, and never beyond its end

    [metadata_entry_in_bounds]: a search for an entry reads no byte outside the
    section, whatever its bytes, and gives a part of the section.
    [image_written_and_loaded]: the pools of an image that was built, written to
    a metadata section and loaded from it hold what was added to them, under the
    same offsets; [method_signature_survives] follows a method's signature all
    the way to the type that is made of it. *)
From Stdlib Require Import ZArith Lia.
From stdpp Require Import base list option numbers.
From S2P Require Import Prelude Compress Utf Opcodes Cvm JumpMask Scan Coder Types Metadata Signature SignatureRun SignatureTotal SignatureTree SignatureRead SignatureParse SignatureMethod SignatureRoundtrip Pools PoolsProps MetaHeader.

Local Open Scope Z_scope.

(** ** Reads within the section *)

Lemma lookup_some (l : list Z) (i : nat) : (i < length l)%nat -> exists x, l !! i = Some x.
Proof. intros H. by apply lookup_lt_is_Some. Qed.

Lemma uint16_some addr i : (i + 2 <= length addr)%nat -> exists n, uint16_at addr i = Some n /\ 0 <= n < 0x10000.
Proof.
  intros H. unfold uint16_at. destruct (lookup_some addr i) as [b0 ->]; [lia|]. destruct (lookup_some addr (i + 1)) as [b1 ->]; [lia|].
  simpl. eexists. split; [done|]. unfold IL_READ_UINT16. width_lia.
Qed.

Lemma uint32_some addr i : (i + 4 <= length addr)%nat -> exists n, uint32_at addr i = Some n /\ 0 <= n <= IL_MAX_UINT32.
Proof.
  intros H. unfold uint32_at. destruct (lookup_some addr i) as [b0 ->]; [lia|]. destruct (lookup_some addr (i + 1)) as [b1 ->]; [lia|].
  destruct (lookup_some addr (i + 2)) as [b2 ->]; [lia|]. destruct (lookup_some addr (i + 3)) as [b3 ->]; [lia|].
  simpl. eexists. split; [done|]. unfold IL_READ_UINT32. width_lia.
Qed.

(** The header is in the section, and so is the directory that follows it. *)
Lemma get_metadata_some address len :
  0 <= len <= IL_MAX_UINT32 -> len <= Z.of_nat (length address) ->
  exists r, GetMetadata address len = Some r /\
    forall numEntries headerLen, r = Some (numEntries, headerLen) -> 0 <= numEntries < 0x10000 /\ 20 <= headerLen <= len.
Proof.
  intros Hl Ha. unfold GetMetadata. destruct (Z.leb_spec 16 len); [|by eexists].
  destruct (lookup_some address 0) as [c0 ->]; [lia|]. destruct (lookup_some address 1) as [c1 ->]; [lia|].
  destruct (lookup_some address 2) as [c2 ->]; [lia|]. destruct (lookup_some address 3) as [c3 ->]; [lia|]. cbn [mbind option_bind].
  case_bool_decide; [|by eexists]. destruct (uint32_some address 4) as (v & -> & _); [lia|]. cbn [mbind option_bind].
  destruct (negb _); [by eexists|]. destruct (uint32_some address 12) as (n & -> & Hn); [lia|]. cbn [mbind option_bind]. cbv zeta.
  set (vl := if n mod 4 =? 0 then n else u32 (n + (4 - n mod 4))).
  assert (0 <= vl <= IL_MAX_UINT32) as Hv by (unfold vl; case_match; [done|width_lia]).
  rewrite (u32_id (len - 16)) by lia. destruct (Z.ltb_spec (len - 16) vl); [by eexists|]. rewrite (u32_id (len - 16 - vl)) by lia.
  destruct (Z.ltb_spec (len - 16 - vl) 4); [by eexists|].
  destruct (uint16_some address (Z.to_nat (16 + vl + 2))) as (k & -> & Hk); [lia|]. cbn [mbind option_bind]. eexists. split; [done|].
  intros ? ? [= <- <-]. rewrite u32_id by lia. lia.
Qed.

Section MetaHeaderProps.
Context {PF : Platform}.

Lemma ulong_id z : 0 <= z <= IL_MAX_UINT32 -> ulong z = z.
Proof. intros. unfold ulong. case_match; width_lia. Qed.

(** A name ends before the bytes that are left do. *)
Lemma skip_name_some addr left off :
  left <= Z.of_nat (length addr) ->
  exists addr' left' off', skip_name addr left off = Some (addr', left', off') /\ left' <= left /\
    left' <= Z.of_nat (length addr') /\ (0 < left' -> exists name rest, addr = name ++ 0 :: rest /\ addr' = 0 :: rest /\ Forall (fun c => c <> 0) name).
Proof.
  revert left off. induction addr as [|c rest IH]; intros left off Hl; simpl in *.
  - rewrite (proj2 (Z.ltb_ge 0 left)) by lia. exists [], left, off. split; [done|]. split; [lia|]. split; [done|]. lia.
  - destruct (Z.ltb_spec 0 left); [|by exists (c :: rest), left, off; simpl; split; [done|]; split; [lia|]; split; [lia|]; lia].
    destruct (Z.eqb_spec c 0) as [-> |Hc].
    + exists (0 :: rest), left, off. split; [done|]. split; [lia|]. split; [simpl; lia|]. intros _. by exists [], rest.
    + destruct (IH (left - 1) (ulong (off + 1))) as (addr' & left' & off' & -> & H1 & H2 & H3); [lia|].
      exists addr', left', off'. split; [done|]. split; [lia|]. split; [done|]. intros H0. destruct (H3 H0) as (name & rest' & -> & -> & Hn).
      exists (c :: name), rest'. split; [done|]. split; [done|]. by constructor.
Qed.

Lemma skip_padding_some addr left off :
  left <= Z.of_nat (length addr) ->
  exists addr' left' off', skip_padding addr left off = Some (addr', left', off') /\ left' <= left /\ left' <= Z.of_nat (length addr').
Proof.
  revert left off. induction addr as [|c rest IH]; intros left off Hl; simpl in *.
  - rewrite (proj2 (Z.ltb_ge 0 left)) by lia. by exists [], left, off.
  - destruct (_ && _); [|by exists (c :: rest), left, off]. destruct (IH (left - 1) (ulong (off + 1))) as (addr' & left' & off' & -> & H1 & H2); [lia|].
    exists addr', left', off'. split; [done|]. split; [lia|done].
Qed.

(** The bytes that are left are there, and the entries are not too many. *)
Definition directory_ok (st : directory_state) : Prop := d_left st <= Z.of_nat (length (d_addr st)) /\ 0 <= d_num st < 0x10000.

(** An entry is a part of the section, with a name that ends. *)
Record entry_ok (len : Z) (e : directory_entry) : Prop := {
  ent_offset : 0 <= entryOffset e;
  ent_size : 0 < entrySize e;
  ent_end : entryOffset e + entrySize e <= len;
  ent_name : exists name rest, entryName e = name ++ 0 :: rest;
}.

Lemma next_entry_some len st :
  0 <= len <= IL_MAX_UINT32 -> directory_ok st ->
  exists r, GetNextEntry len st = Some r /\
    forall e st', r = Some (e, st') -> entry_ok len e /\ directory_ok st' /\ d_num st = d_num st' + 1.
Proof.
  intros Hlen [Hl Hn]. unfold GetNextEntry. destruct (Z.eqb_spec (d_num st) 0); [by eexists|].
  destruct (Z.ltb_spec (d_left st) 9); [by eexists|].
  destruct (uint32_some (d_addr st) 0) as (off & -> & Hoff); [lia|]. destruct (uint32_some (d_addr st) 4) as (size & -> & Hsize); [lia|].
  cbn [mbind option_bind]. destruct ((len <=? off) || (size =? 0) || _ || _) eqn:Ec; [by eexists|].
  apply orb_false_iff in Ec as [[[E1%Z.leb_gt E2%Z.eqb_neq]%orb_false_iff E3%Z.ltb_ge]%orb_false_iff E4%Z.ltb_ge].
  assert (off + size <= len) as Hend by (revert E3 E4; unfold ulong; case_match; width_lia).
  destruct (skip_name_some (drop 8 (d_addr st)) (d_left st - 8) (ulong (d_offset st + 8))) as (a1 & l1 & o1 & -> & H1 & H2 & H3);
    [rewrite length_drop; lia|]. cbn [mbind option_bind].
  destruct (Z.ltb_spec 0 l1) as [H0|]; [|by eexists]. destruct (H3 H0) as (name & rest & En & -> & _).
  destruct (skip_padding_some (tail (0 :: rest)) (l1 - 1) (ulong (o1 + 1))) as (a2 & l2 & o2 & -> & H4 & H5); [simpl in *; lia|].
  cbn [mbind option_bind]. eexists. split; [done|]. intros e st' [= <- <-]. split; [split; simpl; try lia; by exists name, rest|].
  simpl. unfold directory_ok. simpl. rewrite u32_id by width_lia. split; [lia|lia].
Qed.

Lemma same_name_some (entry rest name : list Z) : Forall (fun c => c <> 0) name -> exists found, same_name (entry ++ 0 :: rest) name = Some found.
Proof.
  intros Hn. revert entry. induction Hn as [|n name Hn0 _ IH]; intros [|c entry]; cbn [same_name app head tail mbind option_bind]; try by eexists.
  - destruct (Z.eqb_spec 0 n); [congruence|by eexists].
  - destruct (c =? n); [apply IH|by eexists].
Qed.

Lemma find_entry_some len name fuel st :
  0 <= len <= IL_MAX_UINT32 -> Forall (fun c => c <> 0) name -> directory_ok st -> d_num st <= Z.of_nat fuel ->
  exists r, find_entry fuel len name st = Some r /\ forall e, r = Some e -> entry_ok len e.
Proof.
  intros Hlen Hname. revert st. induction fuel as [|fuel IH]; intros st Hst Hf; cbn [find_entry];
    destruct (next_entry_some len st Hlen Hst) as ([[e st']|] & -> & Hr); cbn [mbind option_bind]; try by eexists.
  - destruct (Hr e st' eq_refl) as (_ & [_ ?] & ?). lia.
  - destruct (Hr e st' eq_refl) as (He & Hst' & Hn). destruct (ent_name len e He) as (n & rest & En). rewrite En.
    destruct (same_name_some n rest name Hname) as [found ->]. cbn [mbind option_bind].
    destruct found; [eexists; split; [done|]; by intros ? [= <-]|]. apply IH; [done|lia].
Qed.

Lemma first_entry_ok address len numEntries headerLen :
  0 <= len <= IL_MAX_UINT32 -> len <= Z.of_nat (length address) -> 0 <= numEntries < 0x10000 -> 20 <= headerLen <= len ->
  directory_ok (first_entry address len headerLen numEntries).
Proof. intros. split; [|done]. simpl. rewrite length_drop, u32_id by lia. lia. Qed.

(** C16: Safety: the search for an entry of a metadata section never reads outside
    the section, whatever its bytes, and what it gives is a part of it. *)
Theorem metadata_entry_in_bounds address len name :
  0 <= len <= IL_MAX_UINT32 -> len <= Z.of_nat (length address) -> Forall (fun c => c <> 0) name ->
  exists r, ILImageGetMetaEntry address len name = Some r /\
    forall bytes size, r = Some (bytes, size) ->
      0 < size <= Z.of_nat (length bytes) /\ exists offset, bytes = drop offset address /\ Z.of_nat offset + size <= len.
Proof.
  intros Hlen Ha Hname. unfold ILImageGetMetaEntry. destruct (get_metadata_some address len Hlen Ha) as ([[n h]|] & -> & Hr);
    cbn [mbind option_bind]; [|by eexists].
  destruct (Hr n h eq_refl) as [Hn Hh].
  destruct (find_entry_some len name (Z.to_nat n) (first_entry address len h n)) as ([e|] & -> & He);
    [done|done|by apply first_entry_ok|simpl; lia| |]; cbn [mbind option_bind]; [|by eexists].
  eexists. split; [done|]. intros bytes size [= <- <-]. destruct (He e eq_refl) as [H1 H2 H3 _]. rewrite length_drop.
  split; [lia|]. exists (Z.to_nat (entryOffset e)). split; [done|lia].
Qed.


(** ** Words that were written *)

Lemma lookup_behind (pre l : list Z) k : (pre ++ l) !! (length pre + k)%nat = l !! k.
Proof. rewrite lookup_app_r by lia. f_equal. lia. Qed.

Lemma uint32_written pre z rest : uint32_at (pre ++ IL_WRITE_UINT32 z ++ rest) (length pre) = Some (u32 z).
Proof.
  unfold uint32_at. rewrite !lookup_behind, (lookup_app_r pre), Nat.sub_diag by lia. simpl. f_equal.
  rewrite <- (word_bytes (u32 z)) by width_lia. rewrite !shiftr_div by lia. f_equal; width_lia.
Qed.

Lemma uint16_written pre z rest : uint16_at (pre ++ IL_WRITE_UINT16 z ++ rest) (length pre) = Some (u16 z).
Proof.
  unfold uint16_at. rewrite lookup_behind, (lookup_app_r pre), Nat.sub_diag by lia. simpl. f_equal.
  rewrite read_uint16_bytes by apply u8_range. rewrite !shiftr_div by lia. change (2 ^ 8) with 0x100. width_lia.
Qed.

(** ** The parts of a section *)

(** A part with its name, the zeros behind the first one, and its bytes. *)
Record part := mk_part { p_name : list Z; p_pad : nat; p_data : list Z }.

Definition padded (p : part) : list Z := p_name p ++ 0 :: repeat 0 (p_pad p).
Definition part_size (p : part) : Z := Z.of_nat (length (p_data p)).
Definition part_section (p : part) : list Z * Z := (padded p, part_size p).

(** Bytes with the padding to a multiple of four. *)
Definition padding (n : Z) : Z := (- n) mod 4.
Definition aligned (l : list Z) : list Z := l ++ repeat 0 (Z.to_nat (padding (Z.of_nat (length l)))).
Definition body (parts : list part) : list Z := concat (map (fun p => aligned (p_data p)) parts).

Record part_ok (p : part) : Prop := {
  part_named : Forall (fun c => c <> 0) (p_name p);
  part_pad : (p_pad p <= 3)%nat;
  part_even : Z.of_nat (length (padded p)) mod 4 = 0;
  part_data : p_data p <> [];
}.

Lemma padding_range n : 0 <= padding n < 4.
Proof. apply Z.mod_pos_bound. lia. Qed.

Lemma aligned_length l : Z.of_nat (length (aligned l)) = Z.of_nat (length l) + padding (Z.of_nat (length l)).
Proof. unfold aligned. rewrite length_app, repeat_length. pose proof (padding_range (Z.of_nat (length l))). lia. Qed.

Lemma aligned_even l : Z.of_nat (length (aligned l)) mod 4 = 0.
Proof. rewrite aligned_length. unfold padding. Z.div_mod_to_equations. lia. Qed.

Lemma text_align_app output l :
  Z.of_nat (length output) mod 4 = 0 -> ILWriterTextAlign (output ++ l) = output ++ aligned l.
Proof.
  intros H. unfold ILWriterTextAlign, aligned, padding. cbv zeta. rewrite land_3, length_app, Nat2Z.inj_add.
  destruct (Z.eqb_spec ((Z.of_nat (length output) + Z.of_nat (length l)) mod 4) 0) as [E|E].
  - replace ((- Z.of_nat (length l)) mod 4) with 0 by (Z.div_mod_to_equations; lia). simpl. by rewrite app_nil_r.
  - rewrite <- app_assoc. do 3 f_equal. Z.div_mod_to_equations. lia.
Qed.

Lemma text_align_even output : Z.of_nat (length (ILWriterTextAlign output)) mod 4 = 0.
Proof. change output with ([] ++ output). rewrite text_align_app by done. apply aligned_even. Qed.

Lemma low_bits_cleared z : 0 <= z <= IL_MAX_UINT32 -> Z.land z (u32 (Z.lnot 3)) = z - z mod 4.
Proof.
  intros Hz. change (u32 (Z.lnot 3)) with (Z.shiftl (Z.ones 30) 2).
  assert (Z.land z (Z.shiftl (Z.ones 30) 2) = Z.shiftl (Z.land (Z.shiftr z 2) (Z.ones 30)) 2) as ->.
  { apply Z.bits_inj'. intros n Hn. rewrite Z.land_spec, !Z.shiftl_spec by lia. destruct (Z.ltb_spec n 2).
    - rewrite !(Z.testbit_neg_r _ (n - 2)) by lia. apply andb_false_r.
    - rewrite Z.land_spec, Z.shiftr_spec by lia. do 2 f_equal. lia. }
  rewrite Z.land_ones, shiftr_div, shiftl_mul by lia. change (2 ^ 2) with 4. change (2 ^ 30) with 0x40000000. width_lia.
Qed.

(** The step of [current]. *)
Lemma next_current cur n :
  0 <= cur -> 0 <= n -> cur + n + padding n <= IL_MAX_UINT32 ->
  u32 (cur + Z.land (u32 (n + 3)) (u32 (Z.lnot 3))) = cur + (n + padding n) \/ n + 3 > IL_MAX_UINT32.
Proof.
  intros Hc Hn Hm. destruct (Z.le_gt_cases (n + 3) IL_MAX_UINT32); [left|right; lia].
  rewrite (u32_id (n + 3)), low_bits_cleared by lia. unfold padding in *. rewrite u32_id by (Z.div_mod_to_equations; lia).
  Z.div_mod_to_equations. lia.
Qed.

(** *** The directory *)

Definition parts_size (parts : list part) : Z := Z.of_nat (length (body parts)).

Lemma body_cons p parts : body (p :: parts) = aligned (p_data p) ++ body parts.
Proof. done. Qed.

Lemma directory_cons cur p parts :
  0 <= cur -> cur + parts_size (p :: parts) + 3 <= IL_MAX_UINT32 ->
  directory cur (map part_section (p :: parts)) =
    IL_WRITE_UINT32 cur ++ IL_WRITE_UINT32 (part_size p) ++ padded p ++
    directory (cur + Z.of_nat (length (aligned (p_data p)))) (map part_section parts).
Proof.
  intros Hc Hs. unfold parts_size in Hs. rewrite body_cons, length_app, Nat2Z.inj_add, aligned_length in Hs.
  simpl. do 3 f_equal. do 7 f_equal. rewrite aligned_length. fold (part_size p) in *.
  pose proof (padding_range (part_size p)). pose proof (Nat2Z.is_nonneg (length (body parts))).
  destruct (next_current cur (part_size p)) as [-> | Hbig]; [done|unfold part_size; lia|lia|done|lia].
Qed.

Lemma directory_length cur parts : Z.of_nat (length (directory cur (map part_section parts))) = directory_size (map part_section parts).
Proof.
  revert cur. induction parts as [|p parts IH]; intros cur; [done|]. simpl. fold (part_section p).
  rewrite length_app, !Nat2Z.inj_succ, Nat2Z.inj_add, IH. lia.
Qed.

Lemma directory_size_even parts : Forall part_ok parts -> directory_size (map part_section parts) mod 4 = 0.
Proof.
  induction 1 as [|p parts Hp _ IH]; [done|]. simpl. pose proof (part_even p Hp). Z.div_mod_to_equations. lia.
Qed.

(** *** One entry *)

Lemma skip_name_written name rest left off :
  Forall (fun c => c <> 0) name -> Z.of_nat (length name) < left -> 0 <= off -> off + left <= IL_MAX_UINT32 ->
  skip_name (name ++ 0 :: rest) left off = Some (0 :: rest, left - Z.of_nat (length name), off + Z.of_nat (length name)).
Proof.
  intros Hn. revert left off. induction Hn as [|c name Hc _ IH]; intros left off Hl Ho Hm; cbn [skip_name app].
  - simpl in Hl. rewrite (proj2 (Z.ltb_lt 0 left)) by lia. simpl. f_equal; f_equal; [f_equal|]; lia.
  - cbn [length] in *. rewrite (proj2 (Z.ltb_lt 0 left)), (proj2 (Z.eqb_neq c 0)) by (lia || done).
    rewrite ulong_id by lia. rewrite IH by lia. f_equal; f_equal; [f_equal|]; lia.
Qed.

Lemma skip_padding_written pad rest left off :
  (pad <= 3)%nat -> (off + Z.of_nat pad) mod 4 = 0 -> Z.of_nat pad <= left -> 0 <= off -> off + left <= IL_MAX_UINT32 ->
  skip_padding (repeat 0 pad ++ rest) left off = Some (rest, left - Z.of_nat pad, off + Z.of_nat pad).
Proof.
  revert left off. induction pad as [|pad IH]; intros left off Hp Hm Hl Ho Hb.
  - simpl in *. rewrite Z.add_0_r in Hm. destruct rest; simpl; rewrite land_3, Hm, andb_false_r; (f_equal; f_equal; [f_equal|]; lia).
  - cbn [skip_padding app repeat]. rewrite land_3, (proj2 (Z.ltb_lt 0 left)), (proj2 (Z.eqb_neq (off mod 4) 0)) by (Z.div_mod_to_equations; lia).
    simpl. rewrite ulong_id by lia. rewrite IH; [f_equal; f_equal; [f_equal|]; lia|lia| |lia|lia|lia]. rewrite <- Hm. f_equal. lia.
Qed.

Lemma padded_app p rest : padded p ++ rest = p_name p ++ 0 :: repeat 0 (p_pad p) ++ rest.
Proof. unfold padded. by rewrite <- app_assoc. Qed.

Lemma next_entry_written len p off rest left o num :
  part_ok p -> 0 <= off -> off + part_size p <= len -> len <= IL_MAX_UINT32 ->
  8 + Z.of_nat (length (padded p)) <= left -> 0 <= o -> o mod 4 = 0 -> o + left <= IL_MAX_UINT32 -> 0 < num < 0x10000 ->
  GetNextEntry len (mk_directory (IL_WRITE_UINT32 off ++ IL_WRITE_UINT32 (part_size p) ++ padded p ++ rest) left o num) =
    Some (Some (mk_entry off (part_size p) (padded p ++ rest),
      mk_directory rest (left - (8 + Z.of_nat (length (padded p)))) (o + (8 + Z.of_nat (length (padded p)))) (num - 1))).
Proof.
  intros [Hn Hp He Hd] Ho Hs Hlen Hl Hoff Ho4 Hm Hnum. set (dir := _ ++ _).
  assert (0 < part_size p) as Hpos by (unfold part_size; destruct (p_data p); simpl; [done|lia]).
  assert (length (padded p) = (length (p_name p) + S (p_pad p))%nat) as Hpl
    by (unfold padded; rewrite length_app; cbn [length]; by rewrite repeat_length).
  unfold GetNextEntry. cbn [d_num d_left d_addr d_offset].
  rewrite (proj2 (Z.eqb_neq num 0)), (proj2 (Z.ltb_ge left 9)) by (Z.div_mod_to_equations; lia).
  assert (uint32_at dir 0 = Some off) as -> by (rewrite <- (u32_id off) by lia; exact (uint32_written [] off _)).
  assert (uint32_at dir 4 = Some (part_size p)) as ->
    by (rewrite <- (u32_id (part_size p)) by lia; exact (uint32_written (IL_WRITE_UINT32 off) (part_size p) _)).
  cbn [mbind option_bind]. rewrite ulong_id by lia.
  rewrite (proj2 (Z.leb_gt len off)), (proj2 (Z.eqb_neq (part_size p) 0)), !(proj2 (Z.ltb_ge _ _)) by lia. cbn [orb].
  change (drop 8 dir) with (padded p ++ rest). rewrite !padded_app.
  rewrite ulong_id by lia. rewrite skip_name_written; [|done|lia..]. cbn [mbind option_bind tail]. rewrite (proj2 (Z.ltb_lt 0 _)) by lia.
  rewrite ulong_id by lia. rewrite skip_padding_written; [|done| |lia..]; cbn [mbind option_bind].
  - rewrite u32_id by (unfold IL_MAX_UINT32; lia). do 4 f_equal; lia.
  - rewrite Hpl in He. Z.div_mod_to_equations. lia.
Qed.

Lemma same_name_written (n name rest : list Z) :
  Forall (fun c => c <> 0) n -> Forall (fun c => c <> 0) name ->
  same_name (n ++ 0 :: rest) name = Some (bool_decide (n = name)).
Proof.
  intros Hn. revert name. induction Hn as [|c n Hc _ IH]; intros [|x name] Hname; cbn [same_name app head tail mbind option_bind].
  - done.
  - inversion Hname. rewrite (proj2 (Z.eqb_neq 0 x)) by congruence. done.
  - rewrite (proj2 (Z.eqb_neq c 0)) by done. done.
  - inversion Hname; subst. destruct (Z.eqb_spec c x) as [-> |Hx].
    + rewrite IH by done. f_equal. apply bool_decide_ext. naive_solver.
    + rewrite bool_decide_eq_false_2; [done|]. naive_solver.
Qed.

(** *** All entries *)

(** The place of the first part of a name, from the place of the first part. *)
Fixpoint find_part (cur : Z) (name : list Z) (parts : list part) : option (Z * Z) :=
  match parts with
  | [] => None
  | p :: parts =>
    if decide (p_name p = name) then Some (cur, part_size p)
    else find_part (cur + Z.of_nat (length (aligned (p_data p)))) name parts
  end.

Lemma find_written len name parts cur rest left o :
  Forall part_ok parts -> Forall (fun c => c <> 0) name -> 0 <= cur -> cur + parts_size parts <= len -> len + 3 <= IL_MAX_UINT32 ->
  directory_size (map part_section parts) <= left -> 0 <= o -> o mod 4 = 0 -> o + left <= IL_MAX_UINT32 -> Z.of_nat (length parts) < 0x10000 ->
  exists r, find_entry (length parts) len name (mk_directory (directory cur (map part_section parts) ++ rest) left o (Z.of_nat (length parts))) = Some r /\
    option_map (fun e => (entryOffset e, entrySize e)) r = find_part cur name parts.
Proof.
  intros Hps Hname. revert cur left o. induction Hps as [|p parts Hp Hps IH]; intros cur left o Hc Hs Hlen Hl Ho Ho4 Hm Hnum.
  - exists None. split; [|done]. simpl. done.
  - rewrite directory_cons by lia. rewrite <- !app_assoc. cbn [length find_entry].
    unfold parts_size in Hs. rewrite body_cons, length_app, Nat2Z.inj_add in Hs. fold (parts_size parts) in Hs.
    cbn [map directory_size foldr part_section fst] in Hl. fold (directory_size (map part_section parts)) in Hl.
    assert (0 <= directory_size (map part_section parts)) by (rewrite <- (directory_length 0); lia).
    assert (part_size p <= Z.of_nat (length (aligned (p_data p)))) as Hal.
    { rewrite aligned_length. unfold part_size, padding. Z.div_mod_to_equations. lia. }
    pose proof (Nat2Z.is_nonneg (length (body parts))). fold (parts_size parts) in *. cbn [length] in Hnum.
    rewrite next_entry_written; [|done|lia|lia|lia|lia|lia|done|lia|lia]. cbn [mbind option_bind entryName].
    rewrite padded_app. rewrite same_name_written by (done || apply Hp). cbn [mbind option_bind find_part].
    case_bool_decide as E; case_decide; try done; [eexists; split; [done|]; done|].
    replace (Z.of_nat (S (length parts)) - 1) with (Z.of_nat (length parts)) by lia.
    apply IH; try lia. pose proof (part_even p Hp). Z.div_mod_to_equations. lia.
Qed.

(** A part is found at its bytes. *)
Lemma find_part_some parts p pre cur :
  p ∈ parts -> NoDup (map p_name parts) -> cur = Z.of_nat (length pre) ->
  exists off more, find_part cur (p_name p) parts = Some (off, part_size p) /\ 0 <= off /\
    drop (Z.to_nat off) (pre ++ body parts) = p_data p ++ more.
Proof.
  revert pre cur. induction parts as [|q parts IH]; intros pre cur Hin Hnd ->; [by apply elem_of_nil in Hin|].
  cbn [map] in Hnd. apply list.NoDup_cons in Hnd as [Hq Hnd]. cbn [find_part]. rewrite body_cons. case_decide as E.
  - assert (p = q) as ->.
    { apply elem_of_cons in Hin as [-> |Hin]; [done|]. destruct Hq. rewrite E. by apply list_elem_of_fmap_2. }
    unfold aligned. eexists _, _. split; [done|]. split; [lia|]. rewrite Nat2Z.id, drop_app_length, <- app_assoc. done.
  - apply elem_of_cons in Hin as [-> |Hin]; [done|].
    destruct (IH (pre ++ aligned (p_data q)) (Z.of_nat (length pre) + Z.of_nat (length (aligned (p_data q)))) Hin Hnd) as (off & more & E1 & E2 & E3).
    { rewrite length_app. lia. }
    exists off, more. split; [done|]. split; [done|]. by rewrite <- app_assoc in E3.
Qed.

Lemma find_part_none parts name cur : name ∉ map p_name parts -> find_part cur name parts = None.
Proof.
  revert cur. induction parts as [|p parts IH]; intros cur H; [done|]. cbn [map find_part] in *. apply not_elem_of_cons in H as [H1 H2].
  rewrite decide_False by congruence. by apply IH.
Qed.


(** ** The section that is written *)

(** The bytes of a pool. *)
Definition pool_content (image : ILImageBuilder) (p : Pool) : list Z :=
  WriteImagePool (loadedPool image p) (poolSize image p) (blocks image p).

Definition present (name : list Z) (pad : nat) (bytes : list Z) : list part :=
  match bytes with [] => [] | _ => [mk_part name pad bytes] end.

Definition metadata_parts (image : ILImageBuilder) (indexBlob guidBlob : list Z) : list part :=
  present name_index 1 indexBlob ++ present name_strings 3 (pool_content image StringPool) ++
  present name_blob 2 (pool_content image BlobPool) ++ present name_user_strings 0 (pool_content image UserStringPool) ++
  present name_guid 2 guidBlob.

Definition sizes_ok (image : ILImageBuilder) : Prop := forall p, poolSize image p = Z.of_nat (length (pool_content image p)).

Lemma present_section name pad bytes :
  map part_section (present name pad bytes) =
    (if Z.of_nat (length bytes) =? 0 then [] else [(name ++ 0 :: repeat 0 pad, Z.of_nat (length bytes))]).
Proof. by destruct bytes. Qed.

Lemma metadata_sections_parts image indexBlob guidBlob :
  sizes_ok image -> metadata_sections image indexBlob guidBlob = map part_section (metadata_parts image indexBlob guidBlob).
Proof. intros Hs. unfold metadata_sections, metadata_parts. rewrite !map_app, !present_section, !Hs. done. Qed.

Lemma present_ok name pad bytes :
  Forall (fun c => c <> 0) name -> (pad <= 3)%nat -> (Z.of_nat (length name) + 1 + Z.of_nat pad) mod 4 = 0 ->
  Forall part_ok (present name pad bytes).
Proof.
  intros Hn Hp He. destruct bytes as [|c bytes]; [constructor|]. constructor; [|constructor]. split; [done|done| |done].
  unfold padded. simpl. rewrite length_app. simpl. rewrite repeat_length. rewrite <- He. f_equal. lia.
Qed.

Lemma metadata_parts_ok image indexBlob guidBlob : Forall part_ok (metadata_parts image indexBlob guidBlob).
Proof.
  unfold metadata_parts. repeat (apply Forall_app; split); apply present_ok; try done; try lia; repeat constructor; discriminate.
Qed.

Lemma metadata_names image indexBlob guidBlob :
  map p_name (metadata_parts image indexBlob guidBlob) `sublist_of` [name_index; name_strings; name_blob; name_user_strings; name_guid].
Proof.
  assert (forall name pad bytes, map p_name (present name pad bytes) `sublist_of` [name]) as H.
  { intros name pad [|c bytes]; simpl; [apply sublist_nil_l|done]. }
  unfold metadata_parts. rewrite !map_app. change ([name_index; name_strings; name_blob; name_user_strings; name_guid])
    with ([name_index] ++ [name_strings] ++ [name_blob] ++ [name_user_strings] ++ [name_guid]).
  repeat (apply sublist_app; [apply H|]). apply H.
Qed.

Lemma metadata_names_differ image indexBlob guidBlob : NoDup (map p_name (metadata_parts image indexBlob guidBlob)).
Proof. eapply sublist_NoDup; [|apply metadata_names]. by apply (bool_decide_unpack _). Qed.

Lemma metadata_parts_count image indexBlob guidBlob : (length (metadata_parts image indexBlob guidBlob) <= 5)%nat.
Proof. rewrite <- (length_map p_name). apply (sublist_length _ _ (metadata_names image indexBlob guidBlob)). Qed.

Lemma body_app ps qs : body (ps ++ qs) = body ps ++ body qs.
Proof. unfold body. by rewrite map_app, concat_app. Qed.

Lemma body_present name pad bytes : body (present name pad bytes) = aligned bytes.
Proof. destruct bytes; [done|]. unfold body. simpl. by rewrite app_nil_r. Qed.

Section Written.
Variables (versionString indexBlob guidBlob : list Z) (image : ILImageBuilder).
Hypothesis Hversion : Z.of_nat (length versionString) mod 4 = 0.
Hypothesis Hsizes : sizes_ok image.
#[local] Abbreviation parts := (metadata_parts image indexBlob guidBlob).
#[local] Abbreviation sections := (map part_section parts).
#[local] Abbreviation written := (ILWriterOutputMetadata versionString indexBlob guidBlob image).
#[local] Abbreviation size := (Z.of_nat (length written)).

Definition directory_start : Z := 20 + Z.of_nat (length versionString).

Lemma header_length : Z.of_nat (length (metadata_header versionString sections)) = directory_start + directory_size sections.
Proof.
  unfold metadata_header, directory_start. rewrite !length_app, !Nat2Z.inj_add. rewrite directory_length. simpl. lia.
Qed.

Lemma header_even : Z.of_nat (length (metadata_header versionString sections)) mod 4 = 0.
Proof.
  rewrite header_length. pose proof (directory_size_even parts (metadata_parts_ok _ _ _)). unfold directory_start. Z.div_mod_to_equations. lia.
Qed.

(** The parts stand behind the header, aligned. *)
Lemma written_parts : written = metadata_header versionString sections ++ body parts.
Proof.
  unfold ILWriterOutputMetadata. cbv zeta. rewrite metadata_sections_parts by done. fold (pool_content image StringPool) (pool_content image BlobPool) (pool_content image UserStringPool).
  pose proof header_even as H. revert H. generalize (metadata_header versionString sections). intros hd H.
  rewrite !text_align_app by (done || apply text_align_even). unfold metadata_parts. rewrite !body_app, !body_present, <- !app_assoc. done.
Qed.

Lemma written_size : size = directory_start + directory_size sections + parts_size parts.
Proof. rewrite written_parts, length_app, Nat2Z.inj_add, header_length. done. Qed.

Hypothesis Hsize : size + 3 <= IL_MAX_UINT32.

Lemma written_bounds : 0 <= directory_size sections /\ 0 <= parts_size parts /\ directory_start + directory_size sections + parts_size parts + 3 <= IL_MAX_UINT32.
Proof. rewrite <- (directory_length 0). split; [lia|]. split; [unfold parts_size; lia|]. rewrite directory_length, <- written_size. done. Qed.

Lemma get_metadata_written : GetMetadata written size = Some (Some (Z.of_nat (length parts), directory_start)).
Proof.
  pose proof written_bounds as (H1 & H2 & H3). pose proof (metadata_parts_count image indexBlob guidBlob) as H5. unfold directory_start in *.
  set (v := Z.of_nat (length versionString)) in *.
  set (pre := metadata_magic ++ IL_WRITE_UINT16 1 ++ IL_WRITE_UINT16 1 ++ IL_WRITE_UINT32 0).
  assert (exists rest, written = pre ++ IL_WRITE_UINT32 v ++ versionString ++ IL_WRITE_UINT16 0 ++ IL_WRITE_UINT16 (Z.of_nat (length parts)) ++ rest) as [rest E].
  { rewrite written_parts. unfold metadata_header. rewrite length_map, <- !app_assoc. eexists. unfold pre. rewrite <- !app_assoc. reflexivity. }
  pose proof written_size as Es. unfold directory_start in Es. fold v in Es. rewrite E in *. clear E.
  unfold GetMetadata. set (w := pre ++ _) in *. rewrite (proj2 (Z.leb_le 16 _)) by lia.
  change (w !! 0%nat) with (Some 0x42). change (w !! 1%nat) with (Some 0x53). change (w !! 2%nat) with (Some 0x4A). change (w !! 3%nat) with (Some 0x42).
  cbn [mbind option_bind]. rewrite bool_decide_eq_true_2 by done. change (uint32_at w 4) with (Some 0x00010001). cbn [mbind option_bind].
  rewrite Z.eqb_refl. cbn [negb]. assert (uint32_at w 12 = Some v) as ->.
  { rewrite <- (u32_id v) by lia. exact (uint32_written pre v _). }
  cbn [mbind option_bind]. rewrite Hversion. simpl (0 =? 0). cbv iota zeta.
  rewrite (u32_id (Z.of_nat (length w) - 16)), (proj2 (Z.ltb_ge _ v)), (u32_id (Z.of_nat (length w) - 16 - v)), (proj2 (Z.ltb_ge _ 4)) by lia.
  assert (uint16_at w (Z.to_nat (16 + v + 2)) = Some (Z.of_nat (length parts))) as ->.
  { rewrite <- (Z.mod_small (Z.of_nat (length parts)) 0x10000) by lia.
    set (front := pre ++ IL_WRITE_UINT32 v ++ versionString ++ IL_WRITE_UINT16 0).
    replace (Z.to_nat (16 + v + 2)) with (length front) by (unfold front; rewrite !length_app; unfold v; simpl; lia).
    assert (w = front ++ IL_WRITE_UINT16 (Z.of_nat (length parts)) ++ rest) as -> by (unfold w, front; by rewrite <- !app_assoc).
    apply uint16_written. }
  cbn [mbind option_bind]. rewrite u32_id by lia. do 3 f_equal. lia.
Qed.

(** A part is found by its name, with its bytes and its size. *)
Lemma written_entry name :
  Forall (fun c => c <> 0) name ->
  ILImageGetMetaEntry written size name =
    Some (option_map (fun '(off, n) => (drop (Z.to_nat off) written, n)) (find_part (directory_start + directory_size sections) name parts)).
Proof.
  intros Hname. pose proof written_bounds as (H1 & H2 & H3). pose proof (metadata_parts_count image indexBlob guidBlob) as H5.
  unfold ILImageGetMetaEntry. rewrite get_metadata_written. cbn [mbind option_bind].
  assert (0 <= directory_start /\ directory_start mod 4 = 0) as [Hd Hd4] by (unfold directory_start; split; [lia|Z.div_mod_to_equations; lia]).
  assert (first_entry written size directory_start (Z.of_nat (length parts)) =
    mk_directory (directory (directory_start + directory_size sections) sections ++ body parts) (size - directory_start) directory_start (Z.of_nat (length parts))) as ->.
  { unfold first_entry. rewrite u32_id by (rewrite written_size in *; lia). f_equal. rewrite written_parts. unfold metadata_header.
    set (d := directory _ _). rewrite !app_assoc. rewrite <- (app_assoc _ d). rewrite drop_app_length'; [|rewrite !length_app; unfold directory_start; simpl; lia].
    unfold d. do 2 f_equal. unfold directory_start. lia. }
  rewrite Nat2Z.id. destruct (find_written size name parts (directory_start + directory_size sections) (body parts) (size - directory_start) directory_start)
    as (r & -> & Er); try done; [apply metadata_parts_ok|lia| |rewrite written_size; lia|lia|lia|].
  { rewrite written_size. lia. }
  cbn [mbind option_bind]. rewrite <- Er. by destruct r.
Qed.

Lemma written_part p :
  p ∈ parts -> exists more, ILImageGetMetaEntry written size (p_name p) = Some (Some (p_data p ++ more, part_size p)) /\
    exists n, p_data p ++ more = drop n written.
Proof.
  intros Hp. pose proof (metadata_parts_ok image indexBlob guidBlob) as Hok. pose proof (proj1 (list.Forall_forall _ _) Hok p Hp) as Hpp.
  destruct (find_part_some parts p (metadata_header versionString sections) (directory_start + directory_size sections)) as (off & more & E & Ho & Ed);
    [done|apply metadata_names_differ|by rewrite header_length|].
  rewrite written_entry by apply Hpp. rewrite E. exists more. simpl. rewrite written_parts at 1. rewrite Ed. split; [done|].
  exists (Z.to_nat off). by rewrite written_parts, Ed.
Qed.

Lemma written_no_part name : Forall (fun c => c <> 0) name -> name ∉ map p_name parts -> ILImageGetMetaEntry written size name = Some None.
Proof. intros Hn H. rewrite written_entry by done. by rewrite find_part_none. Qed.

End Written.


(** ** The pools that are loaded *)

Lemma content_length bs : Z.of_nat (length (concat (map b_bytes bs))) = used_sum bs.
Proof. induction bs as [|b bs IH]; [done|]. simpl. rewrite length_app, Nat2Z.inj_add, IH. done. Qed.

Lemma built_content b p : pools_ok b -> pool_content b p = concat (map b_bytes (blocks b p)).
Proof. intros Hok. unfold pool_content. by rewrite (ok_loaded b Hok). Qed.

Lemma built_sizes b : pools_ok b -> sizes_ok b.
Proof. intros Hok p. rewrite built_content, content_length by done. apply (ok_size b Hok). Qed.

(** The bytes at an offset of the blocks are there in the pool that is written. *)
Lemma at_offset_content bs i pos off w :
  at_offset bs i pos off w -> 0 <= off /\ exists more, drop (Z.to_nat off) (concat (map b_bytes bs)) = w ++ more.
Proof.
  intros [(Hw & blk & more & Eb & Ew) ->]. split; [pose proof (used_sum_nonneg (take i bs)); lia|].
  rewrite <- content_length, <- Nat2Z.inj_add, Nat2Z.id, <- drop_drop.
  assert (concat (map b_bytes bs) = concat (map b_bytes (take i bs)) ++ b_bytes blk ++ concat (map b_bytes (drop (S i) bs))) as E.
  { rewrite <- (take_drop_middle bs i blk Eb) at 1. by rewrite map_app, concat_app. }
  rewrite E, drop_app_length.
  exists (more ++ concat (map b_bytes (drop (S i) bs))). rewrite app_assoc, <- Ew. apply drop_app_le.
  destruct (decide (pos <= length (b_bytes blk))%nat); [done|]. rewrite drop_ge in Ew by lia. symmetry in Ew. by apply app_nil in Ew as [-> _].
Qed.

Definition pool_name (p : Pool) : list Z :=
  match p with StringPool => name_strings | BlobPool => name_blob | UserStringPool => name_user_strings end.

Lemma elem_of_present q name pad bytes : q ∈ present name pad bytes <-> q = mk_part name pad bytes /\ bytes <> [].
Proof. destruct bytes; simpl; [rewrite elem_of_nil; naive_solver|]. rewrite elem_of_cons, elem_of_nil. naive_solver. Qed.

Lemma pool_name_nonzero p : Forall (fun c => c <> 0) (pool_name p).
Proof. destruct p; repeat constructor; discriminate. Qed.

Lemma last_byte (c rest : list Z) :
  list.last c = None \/ list.last c = Some 0 -> 0 < Z.of_nat (length c) -> (c ++ rest) !! Z.to_nat (Z.of_nat (length c) - 1) = Some 0.
Proof.
  intros H Hc. destruct c as [|x l _] using rev_ind; [simpl in Hc; lia|]. rewrite last_snoc in H. destruct H as [|[= ->]]; [done|].
  assert (Z.to_nat (Z.of_nat (length (l ++ [0])) - 1) = length l) as -> by (rewrite length_app; simpl; lia).
  rewrite <- app_assoc. by rewrite lookup_app_r, Nat.sub_diag by lia.
Qed.

Section Loaded.
Variables (versionString indexBlob guidBlob : list Z) (image : ILImageBuilder).
Hypothesis Hversion : Z.of_nat (length versionString) mod 4 = 0.
Hypothesis Hsizes : sizes_ok image.
#[local] Abbreviation written := (ILWriterOutputMetadata versionString indexBlob guidBlob image).
#[local] Abbreviation size := (Z.of_nat (length written)).
Hypothesis Hsize : size + 3 <= IL_MAX_UINT32.

(** A pool as it is loaded: not at all when it is empty, otherwise with the rest
    of the section behind it. *)
Definition loaded_as (p : Pool) (r : option (list Z) * Z) : Prop :=
  snd r = Z.of_nat (length (pool_content image p)) /\
  (pool_content image p = [] /\ fst r = None \/
   exists rest n, fst r = Some (pool_content image p ++ rest) /\ pool_content image p ++ rest = drop n written).

Lemma pool_part p : pool_content image p <> [] ->
  exists pad, mk_part (pool_name p) pad (pool_content image p) ∈ metadata_parts image indexBlob guidBlob.
Proof.
  intros Hp. unfold metadata_parts. destruct p; [exists 3%nat|exists 2%nat|exists 0%nat]; rewrite !elem_of_app, !elem_of_present; tauto.
Qed.

Lemma no_pool_part p : pool_content image p = [] -> pool_name p ∉ map p_name (metadata_parts image indexBlob guidBlob).
Proof.
  intros Hp (q & En & Hq)%list_elem_of_fmap. unfold metadata_parts in Hq. rewrite !elem_of_app, !elem_of_present in Hq.
  destruct Hq as [[-> ?]|[[-> ?]|[[-> ?]|[[-> ?]|[-> ?]]]]]; destruct p; simpl in En; done.
Qed.

Lemma pool_entry_written p : exists r, pool_entry written size (pool_name p) = Some r /\ loaded_as p r.
Proof.
  unfold pool_entry. destruct (decide (pool_content image p = [])) as [E|E].
  - rewrite (written_no_part versionString indexBlob guidBlob image) by (done || apply pool_name_nonzero || by apply no_pool_part).
    eexists. split; [done|]. unfold loaded_as. rewrite E. by split; [|left].
  - destruct (pool_part p E) as [pad Hp].
    destruct (written_part versionString indexBlob guidBlob image Hversion Hsizes Hsize _ Hp) as (more & Em & n & En). cbn [p_name p_data] in Em, En. unfold part_size in Em. cbn [p_data] in Em.
    rewrite Em. eexists. split; [reflexivity|]. split; [reflexivity|]. right. exists more, n. split; [reflexivity|exact En].
Qed.

Hypothesis Hended : list.last (pool_content image StringPool) = None \/ list.last (pool_content image StringPool) = Some 0.

(** The image that is loaded has the pools of the one that was written. *)
Lemma image_loaded :
  exists loaded, _ILImageParseMeta written size = Some (Some loaded) /\
    forall p, loaded_as p (loadedPool loaded p, poolSize loaded p).
Proof.
  unfold _ILImageParseMeta. destruct (pool_entry_written StringPool) as ([sp sn] & Es & Hs). cbn [pool_name] in Es. rewrite Es. cbn [mbind option_bind].
  assert ((match sp with
    | Some pool => if 0 <? sn then c ← pool !! Z.to_nat (sn - 1); Some (negb (c =? 0)) else Some false
    | None => Some false end) = Some false) as ->.
  { destruct Hs as [Hn [[_ Hf]|(rest & n & Hf & _)]]; simpl in Hn, Hf; subst sp; [done|]. destruct (Z.ltb_spec 0 sn); [|done].
    rewrite Hn, last_byte by (done || lia). done. }
  cbn [mbind option_bind]. destruct (pool_entry_written BlobPool) as ([bp bn] & Eb & Hb). cbn [pool_name] in Eb. rewrite Eb. cbn [mbind option_bind].
  destruct (pool_entry_written UserStringPool) as ([up un] & Eu & Hu). cbn [pool_name] in Eu. rewrite Eu. cbn [mbind option_bind].
  eexists. split; [done|]. by intros [].
Qed.

End Loaded.

(** An image with the pools of another one. *)
Lemma loaded_has versionString indexBlob guidBlob b loaded p i pos off w :
  pools_ok b -> 0 < off -> at_offset (blocks b p) i pos off w ->
  loaded_as versionString indexBlob guidBlob b p (loadedPool loaded p, poolSize loaded p) -> pool_has loaded p off w.
Proof.
  intros Hok Hoff Hat [Hn Hl]. simpl in Hn, Hl. destruct (at_offset_content _ _ _ _ _ Hat) as (_ & more & Ed).
  pose proof (ok_room b Hok p) as Hr. pose proof (built_sizes b Hok p) as Hs. rewrite (ok_size b Hok) in Hs.
  rewrite <- built_content in Ed by done. assert (0 < length w)%nat as Hw by (destruct Hat as [(Hw & _) _]; destruct w; simpl; [done|lia]).
  assert (Z.of_nat (length w) + Z.of_nat (length more) = Z.of_nat (length (pool_content b p)) - off) as Hlen.
  { pose proof (f_equal length Ed) as El. rewrite length_drop, length_app in El. lia. }
  destruct Hl as [[E _]|(rest & n & El & _)]; [rewrite E, drop_nil in Ed; destruct w; simpl in *; [lia|done]|].
  exists off, (more ++ rest). unfold pool_at, known_bytes. rewrite El. rewrite drop_app_le, Ed, <- app_assoc by lia.
  split; [done|]. do 4 (split; [lia|]). intros Hb. apply (Forall_drop _ (Z.to_nat off)) in Hb.
  rewrite drop_app_le, Ed, <- app_assoc in Hb by lia. by apply Forall_app in Hb as [_ Hb].
Qed.

Lemma built_ended l offs b :
  Forall addition_ok l -> total_size l <= POOL_MAX -> add_all new_builder l = Some (offs, b) -> pools_ok b ->
  list.last (pool_content b StringPool) = None \/ list.last (pool_content b StringPool) = Some 0.
Proof.
  intros Hl Hs E Hok. pose proof (new_additions_ended l offs b Hl Hs E) as H. rewrite built_content by done. unfold pool_all in H.
  destruct (blocks b StringPool) as [|blk bs _] using rev_ind; [by left|]. right. rewrite map_app, concat_app. simpl. rewrite app_nil_r.
  apply Forall_app in H as [_ H]. apply (proj1 (Forall_singleton _ _)) in H. by rewrite last_app, H.
Qed.

(** C13: Images: from a new image, any sequence of additions to the pools that is not
    too big; the image is written, and the metadata section is loaded again.
    Every offset that was given out reads, in the image that was loaded, as what
    was added there. *)
Theorem image_written_and_loaded versionString indexBlob guidBlob l :
  Forall addition_ok l -> total_size l <= POOL_MAX -> Z.of_nat (length versionString) mod 4 = 0 ->
  exists offs b, add_all new_builder l = Some (offs, b) /\
    let written := ILWriterOutputMetadata versionString indexBlob guidBlob b in
    (Z.of_nat (length written) + 3 <= IL_MAX_UINT32 ->
     exists image, _ILImageParseMeta written (Z.of_nat (length written)) = Some (Some image) /\ Forall2 (reads_back image) l offs).
Proof.
  intros Hl Hs Hv. destruct (new_additions l Hl Hs) as (offs & b & E & Hok & Hst & _). exists offs, b. split; [done|]. intros written Hw.
  destruct (image_loaded versionString indexBlob guidBlob b Hv (built_sizes b Hok) Hw (built_ended l offs b Hl Hs E Hok)) as (image & Em & Hld).
  exists image. split; [exact Em|]. clear E Hs. induction Hst as [|a off l offs Ha _ IH]; [done|]. apply Forall_cons_1 in Hl as [Hl1 Hl2].
  constructor; [|by apply IH]. destruct Ha as (pool & str & header & hash & n & Er & _ & [Hoff (i & pos & Hat) _]).
  apply (has_reads_back image a off pool str header hash n Hl1 Er). by eapply loaded_has.
Qed.


(** ** Signatures in an image *)

Lemma write_uint32_bytes z : Forall is_byte (IL_WRITE_UINT32 z).
Proof. repeat constructor; apply u8_range. Qed.

Lemma write_uint16_bytes z : Forall is_byte (IL_WRITE_UINT16 z).
Proof. repeat constructor; apply u8_range. Qed.

Lemma directory_bytes cur sections : Forall (fun s => Forall is_byte (fst s)) sections -> Forall is_byte (directory cur sections).
Proof.
  intros H. revert cur. induction H as [|[name n] sections Hn _ IH]; intros cur; [constructor|].
  cbn [directory]. repeat (apply Forall_app; split); auto using write_uint32_bytes.
Qed.

Lemma zeros_bytes n : Forall is_byte (repeat 0 n).
Proof. induction n; simpl; by constructor. Qed.

Lemma text_align_bytes output : Forall is_byte output -> Forall is_byte (ILWriterTextAlign output).
Proof. intros H. unfold ILWriterTextAlign. cbv zeta. case_match; [done|]. apply Forall_app. split; [done|apply zeros_bytes]. Qed.

Lemma metadata_sections_bytes image indexBlob guidBlob : Forall (fun s => Forall is_byte (fst s)) (metadata_sections image indexBlob guidBlob).
Proof. unfold metadata_sections. repeat case_match; simpl; repeat constructor; done. Qed.

Lemma written_bytes versionString indexBlob guidBlob image :
  Forall is_byte versionString -> Forall is_byte indexBlob -> Forall is_byte guidBlob -> (forall p, Forall is_byte (pool_content image p)) ->
  Forall is_byte (ILWriterOutputMetadata versionString indexBlob guidBlob image).
Proof.
  intros Hv Hi Hg Hp. unfold ILWriterOutputMetadata. cbv zeta.
  assert (Forall is_byte (metadata_header versionString (metadata_sections image indexBlob guidBlob))) as Hh.
  { unfold metadata_header. repeat (apply Forall_app; split); auto using write_uint32_bytes, write_uint16_bytes, directory_bytes, metadata_sections_bytes.
    by repeat constructor. }
  repeat (apply text_align_bytes, Forall_app; split; [|first [done|apply Hp]]). done.
Qed.

Lemma built_bytes l offs b p :
  Forall addition_ok l -> total_size l <= POOL_MAX -> Forall addition_bytes l -> add_all new_builder l = Some (offs, b) -> pools_ok b ->
  Forall is_byte (pool_content b p).
Proof.
  intros Hl Hs Hb E Hok. rewrite built_content by done. pose proof (new_additions_bytes l offs b p Hl Hs Hb E) as H. unfold pool_all in H.
  induction H as [|blk bs H _ IH]; simpl; [constructor|]. by apply Forall_app.
Qed.

(** A reference in a table gives the start and the length of the blob. *)
Lemma blob_ref_loaded image blob off pool :
  loadedPool image BlobPool = Some pool -> Forall is_byte pool ->
  pool_has image BlobPool off (ILMetaCompressData (Z.of_nat (length blob)) ++ blob) ->
  exists start more, read_blob_ref image off = Some (Some (start, Z.of_nat (length blob))) /\
    drop (Z.to_nat start) pool = blob ++ more /\ Forall is_byte more.
Proof.
  intros Hp Hb (o & m & E & _ & Hl & Hoff & Hmax & _). set (n := Z.of_nat (length blob)) in *. pose proof (compress_length n) as Hc.
  unfold pool_at in E. rewrite Hp in E. injection E as E <-. unfold POOL_MAX in Hmax. rewrite length_app in Hl. fold n in Hl.
  exists (off + Z.of_nat (length (ILMetaCompressData n))), m. unfold read_blob_ref.
  rewrite (proj2 (Z.eqb_neq off 0)), (proj2 (Z.leb_gt _ off)) by lia. cbn [negb andb]. rewrite Hp. cbn [mbind option_bind].
  rewrite E, <- app_assoc, u32_id by width_lia.
  replace (poolSize image BlobPool - off) with
    (poolSize image BlobPool - off - Z.of_nat (length (ILMetaCompressData n)) + Z.of_nat (length (ILMetaCompressData n))) by lia.
  rewrite uncompress_compress by width_lia. cbn [mbind option_bind Compress.len error]. rewrite (proj2 (Z.ltb_ge _ n)) by lia. simpl.
  rewrite u32_id by width_lia. split; [do 3 f_equal; lia|].
  rewrite Z2Nat.inj_add, Nat2Z.id, <- drop_drop, E, <- app_assoc, drop_app_length by lia. split; [done|].
  apply (Forall_drop _ (Z.to_nat off)) in Hb. rewrite E in Hb. by apply Forall_app in Hb as [_ Hb].
Qed.

(** C12: Methods in an image: the signature that [ILTypeToMethodSig] adds to the blob
    pool of an image, among any other additions, survives: when the image is
    written and loaded again, the reference to it in a table is valid and gives
    a place and a length in the loaded pool from which the parsers of method
    signatures make a type identical to the one that was written. *)
Theorem method_signature_survives {IT : ImageTokens} depth st type fuel conv ngen ret params before after versionString indexBlob guidBlob :
  denotes (sig_heap st) depth (type_at (sig_heap st)) (old st) (S_method conv ngen ret params) type ->
  method_parsable (sig_heap st) depth IL_TYPE_RECURSION_DEPTH conv ngen ret params ->
  (sig_size (S_method conv ngen ret params) <= fuel)%nat -> (sig_size (S_method conv ngen ret params) <= depth)%nat ->
  next_ok (sig_next st) ->
  Z.of_nat (length versionString) mod 4 = 0 -> Forall is_byte versionString -> Forall is_byte indexBlob -> Forall is_byte guidBlob ->
  Forall addition_ok (before ++ after) -> Forall addition_bytes (before ++ after) ->
  exists sig, ILTypeToMethodSig depth (sig_heap st) fuel type = Some sig /\
    let l := before ++ Add_blob sig :: after in
    (total_size l <= POOL_MAX ->
     exists offs b off, add_all new_builder l = Some (offs, b) /\ offs !! length before = Some off /\
       let written := ILWriterOutputMetadata versionString indexBlob guidBlob b in
       (Z.of_nat (length written) + 3 <= IL_MAX_UINT32 ->
        exists image pool start len,
          _ILImageParseMeta written (Z.of_nat (length written)) = Some (Some image) /\ loadedPool image BlobPool = Some pool /\
          read_blob_ref image off = Some (Some (start, len)) /\
          forall parser, parses_method conv params parser ->
            comes_back depth st (S_method conv ngen ret params) type (parser (drop (Z.to_nat start) pool) len st))).
Proof.
  intros Hd Hp Hf Hs Hn Hv Hvb Hib Hgb Hl0 Hb0.
  destruct (method_signature_back depth st type fuel conv ngen ret params [] Hd Hp Hf Hs Hn (Forall_nil _)) as (sig & Esig & Hsig & _).
  exists sig. split; [done|]. intros l Ht.
  assert (Forall addition_ok l) as Hl by (apply Forall_app in Hl0 as [H1 H2]; apply Forall_app; split; [done|by constructor]).
  assert (Forall addition_bytes l) as Hb by (apply Forall_app in Hb0 as [H1 H2]; apply Forall_app; split; [done|by constructor]).
  destruct (new_additions l Hl Ht) as (offs & b & E & Hok & Hst & _).
  assert (l !! length before = Some (Add_blob sig)) as El by by apply list_lookup_middle.
  destruct (Forall2_lookup_l _ _ _ _ _ Hst El) as (off & Eo & pool0 & str & header & hash & n & Er & Hsz & [Hoff (i & pos & Hat) _]).
  cbn [request] in Er. injection Er as <- <- <- _ _. exists offs, b, off. split; [done|]. split; [done|]. intros written Hw.
  destruct (image_loaded versionString indexBlob guidBlob b Hv (built_sizes b Hok) Hw (built_ended l offs b Hl Ht E Hok)) as (image & Em & Hld).
  pose proof (loaded_has versionString indexBlob guidBlob b image BlobPool i pos off _ Hok Hoff Hat (Hld BlobPool)) as Hhas.
  destruct (Hld BlobPool) as [_ [[Ec _]|(rest & k & Epool & Edrop)]]; [|cbn [fst] in Epool].
  { destruct (at_offset_content _ _ _ _ _ Hat) as (_ & m & Ed). rewrite <- built_content, Ec, drop_nil in Ed by done.
    pose proof (compress_length (Z.of_nat (length sig))). by destruct (ILMetaCompressData (Z.of_nat (length sig))); [cbn [length] in *; lia|]. }
  set (pool := pool_content b BlobPool ++ rest) in *. assert (Forall is_byte pool) as Hpool.
  { rewrite Edrop. apply Forall_drop, written_bytes; try done. intros p. by eapply built_bytes. }
  destruct (blob_ref_loaded image sig off pool Epool Hpool Hhas) as (start & more & Eref & Ed & Hmore).
  exists image, pool, start, (Z.of_nat (length sig)). split; [done|]. split; [done|]. split; [done|]. rewrite Ed.
  destruct (method_signature_back depth st type fuel conv ngen ret params more Hd Hp Hf Hs Hn Hmore) as (sig' & Esig' & _ & Hback).
  rewrite Esig in Esig'. injection Esig' as <-. apply Hback. rewrite length_app in Hsz. unfold POOL_MAX in Hsz. width_lia.
Qed.

End MetaHeaderProps.

(** ** An example *)

(** The sample pools with a small table and version "v1". *)
Definition sample_section : list Z := ILWriterOutputMetadata [0x76; 0x31; 0; 0] [1; 2; 3; 4; 5] [] sample_builder.

Example sample_section_read :
  ILImageNumMetaEntries sample_section 140 = Some 4 /\ ILImageMetaHeaderSize sample_section 140 = Some 84 /\
  ILImageMetaRuntimeVersion sample_section 140 = Some (Some [0x76; 0x31]) /\
  ILImageGetMetaEntry sample_section 140 name_guid = Some None /\
  option_map (option_map snd) (ILImageGetMetaEntry sample_section 140 name_blob) = Some (Some 9) /\
  option_map (option_map snd) (ILImageMetaEntryInfo sample_section 140 3) = Some (Some 15).
Proof. repeat split; reflexivity. Qed.

Lemma image_written_and_loaded_witness :
  exists offs b image, add_all new_builder sample_additions = Some (offs, b) /\
    _ILImageParseMeta sample_section (Z.of_nat (length sample_section)) = Some (Some image) /\ Forall2 (reads_back image) sample_additions offs.
Proof.
  destruct (image_written_and_loaded [0x76; 0x31; 0; 0] [1; 2; 3; 4; 5] [] sample_additions) as (offs & b & E & H);
    [apply sample_additions_ok|apply sample_additions_ok|reflexivity|].
  assert (b = sample_builder) as -> by (unfold sample_builder; by rewrite E).
  destruct H as (image & E1 & H); [by vm_compute|]. exists offs, sample_builder, image. split; [exact E|]. split; [exact E1|exact H].
Defined.

(** A section whose directory ends in the middle of a name. *)
Lemma metadata_entry_in_bounds_witness :
  exists r, ILImageGetMetaEntry (take 50 sample_section) 50 name_blob = Some r /\
    forall bytes size, r = Some (bytes, size) ->
      0 < size <= Z.of_nat (length bytes) /\ exists offset, bytes = drop offset (take 50 sample_section) /\ Z.of_nat offset + size <= 50.
Proof. apply (metadata_entry_in_bounds (take 50 sample_section) 50 name_blob); [by vm_compute|by vm_compute|repeat constructor; discriminate]. Defined.
