(* ===== verification/SignatureWitness.v ===== *)
(** * Signatures at work

    A small image with a class, a value type and the class of objects, the types
    of a method, of a field and of local variables, and the theorems on
    signatures at these. *)
From Stdlib Require Import ZArith Lia String.
From stdpp Require Import base list option numbers.
From S2P Require Import Prelude Compress Opcodes Cvm JumpMask Scan Coder Types Metadata Signature SignatureRun SignatureTotal SignatureTree SignatureWrite SignatureRead SignatureIdentical SignatureParse SignatureMethod SignatureRoundtrip Pools PoolsProps MetaHeader MetaHeaderProps.

Local Open Scope Z_scope.

Definition a_class (namespace name : string) : ILClass_object :=
  mk_class_object None 0 name (Some namespace) None 1 None None [] 0 None.

(** Class 0x100 is "Shapes.Circle", class 0x200 the value type "Shapes.Point". *)
Definition sample_class (c : Z) : ILClass_object :=
  if c =? 0x100 then a_class "Shapes" "Circle"
  else if c =? 0x200 then a_class "Shapes" "Point"
  else if c =? 0x300 then a_class "System" "Object" else a_class "Shapes" "None".

#[local] Instance sample_tokens : ImageTokens := {
  token_count cls := if cls =? 1 then 3 else 0;
  token_item token := if token =? 0x01000001 then Some 0x100 else if token =? 0x01000002 then Some 0x200 else Some 0x300;
  forward_item _ := None;
  import_of c := c;
  ILClass_Token c := if c =? 0x100 then 0x01000001 else if c =? 0x200 then 0x01000002 else 0x01000003;
}.

(** int modopt(Circle) f(Point, int[2,-1...], ref object, method void *(char* )), and a list of
    local variables: a pinned pointer and a circle. *)
Definition sample_type (t : Z) : ILType_object :=
  if t =? 0x1000 then method_object (16 + 0x100 * 0x20) 4 0x1040 [0x203; 0x1080; 0x10C0; 0x1140] 0
  else if t =? 0x1040 then modifier_object IL_TYPE_COMPLEX_CMOD_OPT 0x100 ILType_Int32
  else if t =? 0x1080 then array_object IL_TYPE_COMPLEX_ARRAY_CONTINUE 0x10A0 2 (-1)
  else if t =? 0x10A0 then array_object IL_TYPE_COMPLEX_ARRAY ILType_Int32 3 5
  else if t =? 0x10C0 then ref_object IL_TYPE_COMPLEX_BYREF 0x302
  else if t =? 0x1100 then ref_object IL_TYPE_COMPLEX_PTR ILType_Char
  else if t =? 0x1140 then method_object 16 1 ILType_Void [0x1100] 0
  else if t =? 0x1180 then method_object IL_TYPE_COMPLEX_LOCALS 2 0 [0x11C0; 0x102] 0
  else if t =? 0x11C0 then ref_object IL_TYPE_COMPLEX_PINNED 0x1100
  else ref_object 0 0.

Definition sample_heap : Heap :=
  mk_heap sample_type sample_class 0 None (fun name => if String.eqb name "Object" then Some 0x300 else None)
    (fun _ => None) (fun _ => None).
Definition sample_state : SigState := mk_sig sample_heap 0x2000 (mk_read [] 0 false).

Definition sample_params : list sig_type :=
  [S_value 0x200; S_array [(2, -1); (3, 5)] (S_primitive 0x08); S_ref IL_TYPE_COMPLEX_BYREF (S_class 0x300);
   S_method 0 0 (S_primitive 0x01) [S_ref IL_TYPE_COMPLEX_PTR (S_primitive 0x03)]].
Definition sample_result : sig_type := S_modified IL_TYPE_COMPLEX_CMOD_OPT 0x100 (S_primitive 0x08).

Definition sample_bytes : list Z :=
  [0x20; 4; 0x20; 0x05; 0x08; 0x11; 0x09; 0x14; 0x08; 2; 2; 4; 6; 2; 0x7F; 10; 0x10; 0x1C; 0x1B; 0; 1; 1; 0x0F; 0x03].

Example sample_signature : ILTypeToMethodSig 40 sample_heap 40 0x1000 = Some sample_bytes.
Proof. vm_compute. reflexivity. Qed.

Ltac computed := vm_compute; first [reflexivity | discriminate | lia].
Ltac an_object := split; [discriminate|split; [reflexivity|vm_compute; reflexivity]].

Lemma sample_refers c : (c =? 0x100) || (c =? 0x200) || (c =? 0x300) = true -> refers sample_heap 40 c c.
Proof. intros H. split; [|done]. destruct (orb_prop _ _ H) as [[->%Z.eqb_eq| ->%Z.eqb_eq]%orb_prop| ->%Z.eqb_eq]; reflexivity. Qed.

Lemma sample_token c : (c =? 0x100) || (c =? 0x200) = true -> token_found sample_heap 40 c.
Proof.
  intros H. pose proof (sample_refers c ltac:(by rewrite H)) as Hr.
  exists 0x01000000, (if c =? 0x100 then 1 else 2). destruct (orb_prop _ _ H) as [->%Z.eqb_eq| ->%Z.eqb_eq];
    (split_and!; [reflexivity|right; by left|done|done|reflexivity|by split|exact Hr]).
Qed.

Lemma sample_result_denotes : denotes sample_heap 40 sample_type (old sample_state) sample_result 0x1040.
Proof.
  split; [an_object|]. split; [reflexivity|]. split; [by right|]. split; [by apply sample_refers|]. split; [reflexivity|done].
Qed.

Lemma sample_denotes : denotes sample_heap 40 sample_type (old sample_state) (S_method 0x20 0 sample_result sample_params) 0x1000.
Proof.
  split; [an_object|]. split; [done|]. split; [reflexivity|]. split; [reflexivity|]. split; [done|]. split; [reflexivity|]. split; [done|].
  split; [exact sample_result_denotes|]. split; [|split; [|split; [|split; [|done]]]].
  - split; [reflexivity|by apply (sample_refers 0x200)].
  - split; [discriminate|]. split; [done|]. exists ILType_Int32. split; [|split; [reflexivity|done]].
    split; [an_object|]. split; [reflexivity|]. split; [reflexivity|]. split; [reflexivity|].
    split; [an_object|]. split; [reflexivity|]. split; [reflexivity|]. split; reflexivity.
  - split; [an_object|]. split; [reflexivity|]. split; [reflexivity|]. split; [reflexivity|by apply (sample_refers 0x300)].
  - split; [an_object|]. split; [done|]. split; [reflexivity|]. split; [reflexivity|]. split; [done|]. split; [reflexivity|]. split; [done|].
    split; [split; [reflexivity|done]|]. split; [|done]. split; [an_object|]. split; [reflexivity|]. split; [reflexivity|]. split; [reflexivity|done].
Qed.

Lemma sample_parsable : method_parsable sample_heap 40 IL_TYPE_RECURSION_DEPTH 0x20 0 sample_result sample_params.
Proof.
  assert (token_found sample_heap 40 0x100) as H1 by (by apply sample_token). assert (token_found sample_heap 40 0x200) as H2 by (by apply sample_token).
  split; [done|]. split; [reflexivity|]. split; [reflexivity|]. split; [done|]. split; [by split|]. split.
  - split; [done|]. split; [by right|]. split; [reflexivity|]. split; [done|reflexivity].
  - split; [right; split; [reflexivity|split; [reflexivity|done]]|]. split; [|split; [|split; [|done]]]; right; (split; [done|]).
    + split; [discriminate|]. split; [done|]. split; [|reflexivity]. by repeat constructor.
    + right; left. split; [reflexivity|]. split; [reflexivity|]. exists 0x300. split; [reflexivity|]. split; [by split|]. by apply sample_refers.
    + split; [done|]. split; [reflexivity|]. split; [reflexivity|]. split; [done|]. split; [by split|]. split; [by split|].
      split; [|done]. right. split; [done|]. left. split; reflexivity.
Qed.

(** The signature of the method comes back, in front of another blob. *)
Lemma method_signature_roundtrip_witness :
  exists bytes, ILTypeToMethodSig 40 sample_heap 40 0x1000 = Some bytes /\
    comes_back 40 sample_state (S_method 0x20 0 sample_result sample_params) 0x1000
      (ILTypeFromMethodDefSig (bytes ++ [3; 1; 2; 3]) (Z.of_nat (length bytes)) sample_state).
Proof.
  destruct (method_signature_roundtrip 40 sample_state 0x1000 40 0x20 0 sample_result sample_params [3; 1; 2; 3]) as (bytes & E & H).
  - exact sample_denotes.
  - exact sample_parsable.
  - vm_compute. lia.
  - vm_compute. lia.
  - by split.
  - repeat constructor; vm_compute; (discriminate || reflexivity).
  - exists bytes. split; [exact E|]. apply H; [|by apply parses_def].
    change (ILTypeToMethodSig 40 sample_heap 40 0x1000 = Some bytes) in E. rewrite sample_signature in E. injection E as <-. vm_compute. discriminate.
Defined.

(** The same in an image with other blobs and strings, written and loaded. *)
Definition before_sample : list addition := [Add_string [0x46]; Add_blob [3; 1; 2; 3]].
Definition after_sample : list addition := [Add_blob [0x20; 0; 1]; Add_user_string [0x41] 1].

Definition sample_image : ILImageBuilder :=
  match add_all new_builder (before_sample ++ Add_blob sample_bytes :: after_sample) with Some (_, b) => b | None => new_builder end.

Lemma method_signature_survives_witness :
  exists sig offs b off image pool start len,
    add_all new_builder (before_sample ++ Add_blob sig :: after_sample) = Some (offs, b) /\ offs !! 2%nat = Some off /\
    (let written := ILWriterOutputMetadata [0x76; 0x31; 0; 0] [1; 2; 3; 4; 5] [] b in
     _ILImageParseMeta written (Z.of_nat (length written)) = Some (Some image)) /\
    loadedPool image BlobPool = Some pool /\ read_blob_ref image off = Some (Some (start, len)) /\
    comes_back 40 sample_state (S_method 0x20 0 sample_result sample_params) 0x1000
      (ILTypeFromMethodDefSig (drop (Z.to_nat start) pool) len sample_state).
Proof.
  destruct (method_signature_survives 40 sample_state 0x1000 40 0x20 0 sample_result sample_params before_sample after_sample
    [0x76; 0x31; 0; 0] [1; 2; 3; 4; 5] []) as (sig & E & H).
  - exact sample_denotes.
  - exact sample_parsable.
  - vm_compute. lia.
  - vm_compute. lia.
  - by split.
  - reflexivity.
  - repeat constructor; vm_compute; (discriminate || reflexivity).
  - repeat constructor; vm_compute; (discriminate || reflexivity).
  - constructor.
  - repeat constructor; vm_compute; (discriminate || reflexivity).
  - repeat constructor; vm_compute; (discriminate || reflexivity).
  - change (ILTypeToMethodSig 40 sample_heap 40 0x1000 = Some sig) in E. rewrite sample_signature in E. injection E as <-.
    destruct H as (offs & b & off & E1 & E2 & H); [vm_compute; discriminate|].
    destruct H as (image & pool & start & len & E3 & E4 & E5 & H).
    { assert (b = sample_image) as -> by (unfold sample_image; cbv zeta in E1; by rewrite E1). by vm_compute. }
    eexists _, offs, b, off, image, pool, start, len. split; [exact E1|]. split; [exact E2|]. split; [exact E3|]. split; [exact E4|]. split; [exact E5|].
    apply H. by apply parses_def.
Defined.

Definition sample_array : sig_type := S_array [(2, -1); (3, 5)] (S_primitive 0x08).

Lemma array_denotes : denotes sample_heap 40 sample_type (old sample_state) sample_array 0x1080.
Proof. apply sample_denotes. Qed.

Lemma array_parsable d categories : parsable sample_heap 40 (S d) categories sample_array.
Proof. split; [discriminate|]. split; [done|]. split; [by repeat constructor|]. destruct d; reflexivity. Qed.

Lemma field_signature_roundtrip_witness :
  exists bytes, ILTypeToFieldSig 40 sample_heap 40 0x1080 = Some bytes /\
    comes_back 40 sample_state sample_array 0x1080 (ILTypeFromFieldSig (bytes ++ []) (Z.of_nat (length bytes)) sample_state).
Proof.
  destruct (field_signature_roundtrip 40 sample_state 0x1080 40 sample_array []) as (bytes & E & H).
  - exact array_denotes.
  - apply array_parsable.
  - vm_compute. lia.
  - vm_compute. lia.
  - by split.
  - constructor.
  - exists bytes. split; [exact E|]. apply H. vm_compute in E. injection E as <-. vm_compute. discriminate.
Defined.

Lemma type_specification_roundtrip_witness :
  exists bytes, ILTypeToOtherSig 40 sample_heap 40 0x1080 = Some bytes /\
    comes_back 40 sample_state sample_array 0x1080 (ILTypeFromTypeSpec (bytes ++ [1; 2]) (Z.of_nat (length bytes)) sample_state).
Proof.
  destruct (type_specification_roundtrip 40 sample_state 0x1080 40 sample_array [1; 2]) as (bytes & E & H).
  - exact array_denotes.
  - apply array_parsable.
  - vm_compute. lia.
  - vm_compute. lia.
  - by split.
  - repeat constructor; vm_compute; (discriminate || reflexivity).
  - exists bytes. split; [exact E|]. apply H. vm_compute in E. injection E as <-. vm_compute. discriminate.
Defined.

Definition sample_locals : list sig_type :=
  [S_ref IL_TYPE_COMPLEX_PINNED (S_ref IL_TYPE_COMPLEX_PTR (S_primitive 0x03)); S_class 0x100].

Lemma locals_signature_roundtrip_witness :
  exists bytes, ILTypeToOtherSig 40 sample_heap 40 0x1180 = Some bytes /\
    exists type' st', ILTypeFromLocalVarSig (bytes ++ []) (Z.of_nat (length bytes)) sample_state = Some (type', st') /\
      locals_denote sample_heap 40 (type_at (sig_heap st')) (within 0x2000 (sig_next st')) sample_locals type'.
Proof.
  destruct (locals_signature_roundtrip 40 sample_state 0x1180 39 sample_locals []) as (bytes & E & H).
  - split; [an_object|]. split; [reflexivity|]. split; [reflexivity|]. split; [done|]. split; [|split; [|done]].
    + split; [an_object|]. split; [reflexivity|]. split; [reflexivity|]. split; [an_object|].
      split; [reflexivity|]. split; [reflexivity|]. split; [reflexivity|done].
    + split; [reflexivity|by apply (sample_refers 0x100)].
  - constructor; [|constructor; [|constructor]].
    + split; [reflexivity|]. left. split; reflexivity.
    + split; [done|]. by apply (sample_token 0x100).
  - intros l Hl. repeat (apply elem_of_cons in Hl as [-> |Hl]; [vm_compute; lia|]). by apply elem_of_nil in Hl.
  - by split.
  - constructor.
  - exists bytes. split; [exact E|]. destruct H as (type' & st' & E' & H & _); [vm_compute in E; injection E as <-; vm_compute; discriminate|].
    by exists type', st'.
Defined.

(** Bytes that are no signature at all. *)
Lemma signatures_read_safely_witness :
  exists type st', ILTypeFromMethodDefSig [0x05; 0xC1; 0x45] 3 sample_state = Some (type, st') /\
    forall a, a < 0x2000 -> type_at (sig_heap st') a = sample_type a.
Proof.
  pose proof (signatures_read_safely [0x05; 0xC1; 0x45] 3 sample_state) as H.
  assert (Forall is_byte [0x05; 0xC1; 0x45]) as Hb by (repeat constructor; vm_compute; (discriminate || reflexivity)).
  specialize (H Hb ltac:(by split) ltac:(done) ltac:(by split)). exact (Forall_inv H).
Defined.

(** An array shape without its sizes: the parsers of fields and of local variables
    do not look at the error of the reader at their end, and give an array of
    rank 2; those of methods refuse it. *)
Lemma truncated_array_accepted :
  option_map fst (ILTypeFromFieldSig [0x06; 0x14; 0x08; 2] 4 sample_state) = Some 0x2030 /\
  option_map fst (ILTypeFromLocalVarSig [0x07; 1; 0x14; 0x08; 2] 5 sample_state) = Some 0x2000 /\
  option_map fst (ILTypeFromMethodDefSig [0x00; 1; 0x01; 0x14; 0x08; 2] 6 sample_state) = Some 0.
Proof. vm_compute. done. Qed.
