(* ===== verification/CoderVar.v ===== *)
(** * Arguments and local variables of the coder (engine/cvmc_var.c, cvmc_setup.c)

    [ILVarCoder] is the part of the ILCoderClass method table for loads and
    stores of variables and their addresses, with the null coder and the CVM
    coder as instances.  The offsets of variables in the frame are laid out by
    the set-up of a method, which also outputs the entry code.  A variable
    number outside the tables of offsets is a reach outside them ([None]); the
    tables are exactly as long as the signature asks for. *)
From Stdlib Require Import ZArith Lia.
From stdpp Require Import base list option numbers.
From S2P Require Import Prelude Opcodes Cvm JumpMask Scan Coder CoderBranch Types.

Local Open Scope Z_scope.

(** ** The interface *)

Class ILVarCoder (C : Type) := {
  ILCoderLoadArg : C -> Z -> Z -> option C;
  ILCoderStoreArg : C -> Z -> ILEngineType -> Z -> option C;
  ILCoderAddrOfArg : C -> Z -> option C;
  ILCoderLoadLocal : C -> Z -> Z -> option C;
  ILCoderStoreLocal : C -> Z -> ILEngineType -> Z -> option C;
  ILCoderAddrOfLocal : C -> Z -> option C;
}.

(** The null coder. *)
Definition Coder_LoadArg (coder : unit) (num type : Z) : option unit := Some coder.
Definition Coder_StoreArg (coder : unit) (num : Z) (engineType : ILEngineType) (type : Z) : option unit :=
  Some coder.
Definition Coder_AddrOfArg (coder : unit) (num : Z) : option unit := Some coder.
Definition Coder_LoadLocal (coder : unit) (num type : Z) : option unit := Some coder.
Definition Coder_StoreLocal (coder : unit) (num : Z) (engineType : ILEngineType) (type : Z) : option unit :=
  Some coder.
Definition Coder_AddrOfLocal (coder : unit) (num : Z) : option unit := Some coder.

#[export] Instance null_var_coder : ILVarCoder unit := {
  ILCoderLoadArg := Coder_LoadArg; ILCoderStoreArg := Coder_StoreArg;
  ILCoderAddrOfArg := Coder_AddrOfArg; ILCoderLoadLocal := Coder_LoadLocal;
  ILCoderStoreLocal := Coder_StoreLocal; ILCoderAddrOfLocal := Coder_AddrOfLocal }.

(** ** The CVM coder *)

Section CVMVar.
Context {PF : Platform} {TL : TypeLibrary}.

(** [GetTypeSize(process, type)], in stack words. *)
Variable GetTypeSize : Z -> Z.

Definition CVM_OUT_DWIDE (coder : ILCVMCoder) (opcode value1 value2 : Z) : ILCVMCoder :=
  if (value1 <? 256) && (value2 <? 256) then
    CVM_BYTE (CVM_BYTE (CVM_BYTE coder opcode) value1) value2
  else CVM_WORD (CVM_WORD (CVM_BYTE (CVM_BYTE coder COP_WIDE) opcode) value1) value2.

Definition LoadLocalAddr (coder : ILCVMCoder) (offset : Z) : ILCVMCoder :=
  CVM_ADJUST (CVM_OUT_WIDE coder COP_WADDR offset) 1.

(** The one-byte forms of the first four words of the frame. *)
Definition out_slot (coder : ILCVMCoder) (op_0 op offset : Z) : ILCVMCoder :=
  if offset <? 4 then CVM_OUT_NONE coder (op_0 + offset) else CVM_OUT_WIDE coder op offset.

(** [n] words from or to the frame at [offset]. *)
Definition load_words (coder : ILCVMCoder) (offset n : Z) : ILCVMCoder :=
  CVM_ADJUST (CVM_OUT_DWIDE coder COP_MLOAD offset n) n.
Definition store_words (coder : ILCVMCoder) (offset n : Z) : ILCVMCoder :=
  CVM_ADJUST (CVM_OUT_DWIDE coder COP_MSTORE offset n) (- n).

Definition elem_in (elem : Z) (elems : list Z) : bool := existsb (Z.eqb elem) elems.

(** The element types of the width of an int, and of a long. *)
Definition is_int_elem (elem : Z) : bool :=
  elem_in elem [IL_META_ELEMTYPE_I4; IL_META_ELEMTYPE_U4] ||
  negb IL_NATIVE_INT64 && elem_in elem [IL_META_ELEMTYPE_I; IL_META_ELEMTYPE_U].
Definition is_long_elem (elem : Z) : bool :=
  elem_in elem [IL_META_ELEMTYPE_I8; IL_META_ELEMTYPE_U8] ||
  IL_NATIVE_INT64 && elem_in elem [IL_META_ELEMTYPE_I; IL_META_ELEMTYPE_U].

(** The [switch] of LoadLocal. *)
Definition load_element (coder : ILCVMCoder) (offset elem : Z) : ILCVMCoder :=
  let read op := CVM_OUT_NONE (LoadLocalAddr coder offset) op in
  if elem =? IL_META_ELEMTYPE_I1 then read COP_BREAD
  else if elem_in elem [IL_META_ELEMTYPE_BOOLEAN; IL_META_ELEMTYPE_U1] then
    if offset <? 256 then CVM_OUT_BYTE coder COP_BLOAD offset else read COP_UBREAD
  else if elem =? IL_META_ELEMTYPE_I2 then read COP_SREAD
  else if elem_in elem [IL_META_ELEMTYPE_U2; IL_META_ELEMTYPE_CHAR] then read COP_USREAD
  else if is_int_elem elem then CVM_ADJUST (out_slot coder COP_ILOAD_0 COP_ILOAD offset) 1
  else if is_long_elem elem then load_words coder offset CVM_WORDS_PER_LONG
  else if elem =? IL_META_ELEMTYPE_R4 then
    CVM_ADJUST (read COP_FREAD) (CVM_WORDS_PER_NATIVE_FLOAT - 1)
  else if elem =? IL_META_ELEMTYPE_R8 then
    CVM_ADJUST (read COP_DREAD) (CVM_WORDS_PER_NATIVE_FLOAT - 1)
  else if elem =? IL_META_ELEMTYPE_R then load_words coder offset CVM_WORDS_PER_NATIVE_FLOAT
  else if elem =? IL_META_ELEMTYPE_TYPEDBYREF then load_words coder offset CVM_WORDS_PER_TYPED_REF
  else coder.

(** Primitive types and pointers; the recursive call of LoadLocal is for the
    type that an enumeration stands for, which is not a value type. *)
Definition load_other (coder : ILCVMCoder) (offset type : Z) : ILCVMCoder :=
  if ILType_IsPrimitive type then load_element coder offset (ILType_ToElement type)
  else CVM_ADJUST (out_slot coder COP_PLOAD_0 COP_PLOAD offset) 1.

Definition LoadLocal (coder : ILCVMCoder) (offset type : Z) : ILCVMCoder :=
  if negb (ILType_IsPrimitive type) && ILType_IsValueType type then
    let enumType := ILTypeGetEnumType type in
    if ILType_IsValueType enumType then load_words coder offset (GetTypeSize type)
    else load_other coder offset enumType
  else load_other coder offset type.

(** A native int to an int, before it is stored in a narrower variable. *)
Definition narrow_native (coder : ILCVMCoder) (engineType : ILEngineType) : ILCVMCoder :=
  if IL_NATIVE_INT64 && is_type engineType ILEngineType_I then
    CVM_ADJUST (CVM_OUT_NONE coder COP_L2I) (- (CVM_WORDS_PER_LONG - 1))
  else coder.

(** The [switch] of StoreLocal. *)
Definition store_element (coder : ILCVMCoder) (offset : Z) (engineType : ILEngineType) (elem : Z)
    : ILCVMCoder :=
  let write coder op := CVM_OUT_NONE (LoadLocalAddr coder offset) op in
  if elem_in elem [IL_META_ELEMTYPE_BOOLEAN; IL_META_ELEMTYPE_I1; IL_META_ELEMTYPE_U1] then
    let coder := narrow_native coder engineType in
    if offset <? 256 then CVM_ADJUST (CVM_OUT_BYTE coder COP_BSTORE offset) (-1)
    else CVM_ADJUST (write coder COP_BWRITE_R) (-2)
  else if elem_in elem [IL_META_ELEMTYPE_I2; IL_META_ELEMTYPE_U2; IL_META_ELEMTYPE_CHAR] then
    CVM_ADJUST (write (narrow_native coder engineType) COP_SWRITE_R) (-2)
  else if is_int_elem elem then
    CVM_ADJUST (out_slot (narrow_native coder engineType) COP_ISTORE_0 COP_ISTORE offset) (-1)
  else if is_long_elem elem then
    let coder :=
      if is_type engineType ILEngineType_I4 then
        CVM_ADJUST (CVM_OUT_NONE coder COP_I2L) (CVM_WORDS_PER_LONG - 1)
      else coder in
    store_words coder offset CVM_WORDS_PER_LONG
  else if elem =? IL_META_ELEMTYPE_R4 then
    CVM_ADJUST (write coder COP_FWRITE_R) (- (CVM_WORDS_PER_NATIVE_FLOAT + 1))
  else if elem =? IL_META_ELEMTYPE_R8 then
    CVM_ADJUST (write coder COP_DWRITE_R) (- (CVM_WORDS_PER_NATIVE_FLOAT + 1))
  else if elem =? IL_META_ELEMTYPE_R then store_words coder offset CVM_WORDS_PER_NATIVE_FLOAT
  else if elem =? IL_META_ELEMTYPE_TYPEDBYREF then store_words coder offset CVM_WORDS_PER_TYPED_REF
  else coder.

Definition store_other (coder : ILCVMCoder) (offset : Z) (engineType : ILEngineType) (type : Z)
    : ILCVMCoder :=
  if ILType_IsPrimitive type then store_element coder offset engineType (ILType_ToElement type)
  else CVM_ADJUST (out_slot coder COP_PSTORE_0 COP_PSTORE offset) (-1).

Definition StoreLocal (coder : ILCVMCoder) (offset : Z) (engineType : ILEngineType) (type : Z)
    : ILCVMCoder :=
  if negb (ILType_IsPrimitive type) && ILType_IsValueType type then
    let enumType := ILTypeGetEnumType type in
    if ILType_IsValueType enumType then store_words coder offset (GetTypeSize type)
    else store_other coder offset engineType enumType
  else store_other coder offset engineType type.

(** [offsets[num]]. *)
Definition offset_of (offsets : list Z) (num : Z) : option Z :=
  if 0 <=? num then offsets !! Z.to_nat num else None.

Definition CVMCoder_LoadArg (coder : ILCVMCoder) (argNum type : Z) : option ILCVMCoder :=
  offset ← offset_of (argOffsets coder) argNum; Some (LoadLocal coder offset type).
Definition CVMCoder_LoadLocal (coder : ILCVMCoder) (localNum type : Z) : option ILCVMCoder :=
  offset ← offset_of (localOffsets coder) localNum; Some (LoadLocal coder offset type).
Definition CVMCoder_StoreArg (coder : ILCVMCoder) (argNum : Z) (engineType : ILEngineType) (type : Z)
    : option ILCVMCoder :=
  offset ← offset_of (argOffsets coder) argNum; Some (StoreLocal coder offset engineType type).
Definition CVMCoder_StoreLocal (coder : ILCVMCoder) (localNum : Z) (engineType : ILEngineType)
    (type : Z) : option ILCVMCoder :=
  offset ← offset_of (localOffsets coder) localNum; Some (StoreLocal coder offset engineType type).
Definition CVMCoder_AddrOfArg (coder : ILCVMCoder) (argNum : Z) : option ILCVMCoder :=
  offset ← offset_of (argOffsets coder) argNum; Some (LoadLocalAddr coder offset).
Definition CVMCoder_AddrOfLocal (coder : ILCVMCoder) (localNum : Z) : option ILCVMCoder :=
  offset ← offset_of (localOffsets coder) localNum; Some (LoadLocalAddr coder offset).

Definition cvm_var_coder : ILVarCoder ILCVMCoder := {|
  ILCoderLoadArg := CVMCoder_LoadArg; ILCoderStoreArg := CVMCoder_StoreArg;
  ILCoderAddrOfArg := CVMCoder_AddrOfArg; ILCoderLoadLocal := CVMCoder_LoadLocal;
  ILCoderStoreLocal := CVMCoder_StoreLocal; ILCoderAddrOfLocal := CVMCoder_AddrOfLocal |}.

End CVMVar.
