(* ===== verification/CoderSetup.v ===== *)
(** * The set-up of a method in the CVM coder (engine/cvmc_setup.c)

    The offsets of arguments and local variables in the frame, the code output
    at the entry of a method and the patch of its height check at the end.
    For a method that is not a constructor and has no exception blocks, on a
    little-endian machine, without debugging or tracing.  Positions are
    relative to [coder->start]. *)
From Stdlib Require Import ZArith Lia.
From stdpp Require Import base list option numbers.
From S2P Require Import Prelude Opcodes Cvm JumpMask Scan Coder CoderBranch Types CoderVar.

Local Open Scope Z_scope.

(** What the set-up reads of the signature of a method and of the signature of
    its local variables. *)
Record MethodSig := mk_sig {
  HasThis : bool;
  Params : list Z;
  IsVararg : bool;
  localVarSig : option (list Z);
}.

(** The fields of CVMEntryContext that matter for methods written in IL. *)
Record CVMEntryContext := mk_ctx {
  thisAdjust : Z;
  numArgWords : Z;
  numLocalWords : Z;
  extraLocals : Z;
}.

Definition CVMEntryInit : CVMEntryContext := mk_ctx 0 0 0 0.

Section Setup.
Context {PF : Platform} {TL : TypeLibrary}.
Variable GetTypeSize : Z -> Z.

(** Slots for variables of these types from [offset] on, and the end. *)
Fixpoint alloc_slots (size_of : Z -> Z) (offset : Z) (types : list Z) : list Z * Z :=
  match types with
  | [] => ([], offset)
  | type :: types =>
    let '(offsets, final) := alloc_slots size_of (u32 (offset + size_of type)) types in
    (offset :: offsets, final)
  end.

(** The words of an argument; a float is expanded by the caller. *)
Definition arg_words (param : Z) : Z :=
  let type := ILTypeGetEnumType param in
  if (type =? ILType_Float32) || (type =? ILType_Float64) then CVM_WORDS_PER_NATIVE_FLOAT
  else GetTypeSize type.

Definition set_argOffsets (coder : ILCVMCoder) (offsets : list Z) : ILCVMCoder :=
  mk_coder (code coder) (height coder) (minHeight coder) (maxHeight coder)
    (labelList coder) (switchStart coder) offsets (localOffsets coder).
Definition set_localOffsets (coder : ILCVMCoder) (offsets : list Z) : ILCVMCoder :=
  mk_coder (code coder) (height coder) (minHeight coder) (maxHeight coder)
    (labelList coder) (switchStart coder) (argOffsets coder) offsets.

Definition CVMEntryAllocArgs (ctx : CVMEntryContext) (coder : ILCVMCoder) (signature : MethodSig)
    (suppressThis : bool) : CVMEntryContext * ILCVMCoder :=
  let this := HasThis signature && negb suppressThis in
  let '(offsets, offset) := alloc_slots arg_words (if this then 1 else 0) (Params signature) in
  let offsets := (if this then [0] else []) ++ offsets in
  let '(offsets, offset) :=
    if IsVararg signature then (offsets ++ [offset], u32 (offset + 1)) else (offsets, offset) in
  (mk_ctx (if this then 1 else 0) offset (numLocalWords ctx) (extraLocals ctx),
   set_argOffsets coder offsets).

Definition CVMEntryAllocLocals (ctx : CVMEntryContext) (coder : ILCVMCoder)
    (localVarSig : option (list Z)) : CVMEntryContext * ILCVMCoder :=
  match localVarSig with
  | None => (ctx, coder)
  | Some types =>
    let '(offsets, offset) := alloc_slots GetTypeSize (numArgWords ctx) types in
    (mk_ctx (thisAdjust ctx) (numArgWords ctx) (u32 (offset - numArgWords ctx)) (extraLocals ctx),
     set_localOffsets coder offsets)
  end.

(** The fix-up of an argument that is larger than its true type. *)
Definition fix_arg (coder : ILCVMCoder) (param offset : Z) : ILCVMCoder :=
  let type := ILTypeGetEnumType param in
  if type =? ILType_Float32 then CVM_OUT_WIDE coder COP_FFIXUP offset
  else if type =? ILType_Float64 then CVM_OUT_WIDE coder COP_DFIXUP offset
  else coder.

Fixpoint fix_args (coder : ILCVMCoder) (params offsets : list Z) : option ILCVMCoder :=
  match params, offsets with
  | [], _ => Some coder
  | param :: params, offset :: offsets => fix_args (fix_arg coder param offset) params offsets
  | _ :: _, [] => None
  end.

Definition CVM_OUT_CKHEIGHT (coder : ILCVMCoder) : ILCVMCoder :=
  CVM_WORD (CVM_BYTE coder COP_CKHEIGHT_N) 0.
Definition CVM_BACKPATCH_CKHEIGHT (c : list Z) (ckpc value : Z) : list Z :=
  if value <=? 8 then patch_byte c ckpc COP_CKHEIGHT else IL_WRITE_INT32 c (ckpc + 1) value.

Definition out_mk_local (coder : ILCVMCoder) (numLocals : Z) : ILCVMCoder :=
  if numLocals =? 1 then CVM_OUT_NONE coder COP_MK_LOCAL_1
  else if numLocals =? 2 then CVM_OUT_NONE coder COP_MK_LOCAL_2
  else if numLocals =? 3 then CVM_OUT_NONE coder COP_MK_LOCAL_3
  else if negb (numLocals =? 0) then CVM_OUT_WIDE coder COP_MK_LOCAL_N numLocals
  else coder.

Definition set_heights (coder : ILCVMCoder) (h : Z) : ILCVMCoder :=
  mk_coder (code coder) h h h (labelList coder) (switchStart coder) (argOffsets coder)
    (localOffsets coder).

(** The entry code, and the position of its height check ([stackCheck]).
    [unrollPossible] is what _ILCVMUnrollPossible says. *)
Definition CVMEntryGen (unrollPossible : bool) (ctx : CVMEntryContext) (coder : ILCVMCoder)
    (signature : MethodSig) : option (ILCVMCoder * Z) :=
  let coder := CVM_OUT_WIDE (set_code coder []) COP_SET_NUM_ARGS (numArgWords ctx) in
  coder ← fix_args coder (Params signature) (drop (Z.to_nat (thisAdjust ctx)) (argOffsets coder));
  let stackCheck := CVM_POSN coder in
  let coder := CVM_OUT_CKHEIGHT coder in
  let coder := if unrollPossible then CVMP_OUT_NONE coder COP_PREFIX_UNROLL_METHOD else coder in
  let numLocals := u32 (numLocalWords ctx + extraLocals ctx) in
  let coder := out_mk_local coder numLocals in
  Some (set_heights coder (u32 (numArgWords ctx + numLocals)), stackCheck).

Definition CVMCoder_Setup (unrollPossible : bool) (coder : ILCVMCoder) (signature : MethodSig)
    : option (ILCVMCoder * Z) :=
  let '(ctx, coder) := CVMEntryAllocArgs CVMEntryInit coder signature false in
  let '(ctx, coder) := CVMEntryAllocLocals ctx coder (localVarSig signature) in
  CVMEntryGen unrollPossible ctx coder signature.

(** The label list is dropped and the height check patched. *)
Definition CVMCoder_Finish (coder : ILCVMCoder) (stackCheck : Z) : ILCVMCoder :=
  set_labels (set_code coder (CVM_BACKPATCH_CKHEIGHT (code coder) stackCheck (maxHeight coder))) [].

End Setup.
