(* ===== verification/Verify.v ===== *)
(** * The verifier on straight-line code (engine/verify.c, verify_arith.c, ...)

    The second pass of [_ILVerify] between two jump targets, for the instruction categories of
    verify_const.c (numbers and null), verify_arith.c, verify_conv.c,
    verify_stack.c (dup and pop) and the comparisons of verify_branch.c, over
    any [ILCoder].  The evaluation stack is a list with its top first.
    Indexing a type inference matrix outside its 8 rows or columns is [Wild].
    [verify_dispatch] is the part of the [switch(opcode)] for these categories;
    the whole main loop, with labels, branches, variables and returns, is
    [method_loop] of VerifyBranch.v.  [verify_insn] and [verify_loop] are its
    restriction to straight-line code, where it does the same
    ([verify_loop_in_method] of MethodTotal.v): jump targets and instructions
    of other categories are [NotModelled] there; as none of these instructions
    is a prefix or a jump, the prefix flags and [lastWasJump] stay 0 and are
    left out. *)
From Stdlib Require Import ZArith Lia.
From stdpp Require Import base list option numbers.
From S2P Require Import Prelude Opcodes Cvm JumpMask Scan Coder.
Import OpTable.

Local Open Scope Z_scope.

(** ** Type inference matrices *)

Abbreviation T_I4 := ILEngineType_I4.
Abbreviation T_I8 := ILEngineType_I8.
Abbreviation T_I := ILEngineType_I.
Abbreviation T_F := ILEngineType_F.
Abbreviation T_M := ILEngineType_M.
Abbreviation T_O := ILEngineType_O.
Abbreviation T_T := ILEngineType_T.
Abbreviation T_MV := ILEngineType_MV.
Abbreviation T_NO := ILEngineType_Invalid.

Definition binaryNumericMatrix : list (list ILEngineType) :=
  [ (*        I4    I8    I     F     &     O     *     MV *)
   (* I4 *) [T_I4; T_NO; T_I; T_NO; T_NO; T_NO; T_NO; T_NO];
   (* I8 *) [T_NO; T_I8; T_NO; T_NO; T_NO; T_NO; T_NO; T_NO];
   (* I  *) [T_I; T_NO; T_I; T_NO; T_NO; T_NO; T_NO; T_NO];
   (* F  *) [T_NO; T_NO; T_NO; T_F; T_NO; T_NO; T_NO; T_NO];
   (* &  *) [T_NO; T_NO; T_NO; T_NO; T_NO; T_NO; T_NO; T_NO];
   (* O  *) [T_NO; T_NO; T_NO; T_NO; T_NO; T_NO; T_NO; T_NO];
   (* *  *) [T_NO; T_NO; T_NO; T_NO; T_NO; T_NO; T_NO; T_NO];
   (* MV *) [T_NO; T_NO; T_NO; T_NO; T_NO; T_NO; T_NO; T_NO]].

Definition binaryIntegerMatrix : list (list ILEngineType) :=
  [ (*        I4    I8    I     F     &     O     *     MV *)
   (* I4 *) [T_I4; T_NO; T_I; T_NO; T_NO; T_NO; T_NO; T_NO];
   (* I8 *) [T_NO; T_I8; T_NO; T_NO; T_NO; T_NO; T_NO; T_NO];
   (* I  *) [T_I; T_NO; T_I; T_NO; T_NO; T_NO; T_NO; T_NO];
   (* F  *) [T_NO; T_NO; T_NO; T_NO; T_NO; T_NO; T_NO; T_NO];
   (* &  *) [T_NO; T_NO; T_NO; T_NO; T_NO; T_NO; T_NO; T_NO];
   (* O  *) [T_NO; T_NO; T_NO; T_NO; T_NO; T_NO; T_NO; T_NO];
   (* *  *) [T_NO; T_NO; T_NO; T_NO; T_NO; T_NO; T_NO; T_NO];
   (* MV *) [T_NO; T_NO; T_NO; T_NO; T_NO; T_NO; T_NO; T_NO]].

Definition binaryShiftMatrix : list (list ILEngineType) :=
  [ (*        I4    I8    I     F     &     O     *     MV *)
   (* I4 *) [T_I4; T_NO; T_I4; T_NO; T_NO; T_NO; T_NO; T_NO];
   (* I8 *) [T_I8; T_NO; T_I8; T_NO; T_NO; T_NO; T_NO; T_NO];
   (* I  *) [T_I; T_NO; T_I; T_NO; T_NO; T_NO; T_NO; T_NO];
   (* F  *) [T_NO; T_NO; T_NO; T_NO; T_NO; T_NO; T_NO; T_NO];
   (* &  *) [T_NO; T_NO; T_NO; T_NO; T_NO; T_NO; T_NO; T_NO];
   (* O  *) [T_NO; T_NO; T_NO; T_NO; T_NO; T_NO; T_NO; T_NO];
   (* *  *) [T_NO; T_NO; T_NO; T_NO; T_NO; T_NO; T_NO; T_NO];
   (* MV *) [T_NO; T_NO; T_NO; T_NO; T_NO; T_NO; T_NO; T_NO]].

Definition addUnsafeMatrix : list (list ILEngineType) :=
  [ (*        I4    I8    I     F     &     O     *     MV *)
   (* I4 *) [T_I4; T_NO; T_I; T_NO; T_M; T_NO; T_T; T_NO];
   (* I8 *) [T_NO; T_I8; T_NO; T_NO; T_NO; T_NO; T_NO; T_NO];
   (* I  *) [T_I; T_NO; T_I; T_NO; T_M; T_NO; T_T; T_NO];
   (* F  *) [T_NO; T_NO; T_NO; T_F; T_NO; T_NO; T_NO; T_NO];
   (* &  *) [T_M; T_NO; T_M; T_NO; T_NO; T_NO; T_NO; T_NO];
   (* O  *) [T_NO; T_NO; T_NO; T_NO; T_NO; T_NO; T_NO; T_NO];
   (* *  *) [T_T; T_NO; T_T; T_NO; T_NO; T_NO; T_NO; T_NO];
   (* MV *) [T_NO; T_NO; T_NO; T_NO; T_NO; T_NO; T_NO; T_NO]].

Definition subUnsafeMatrix : list (list ILEngineType) :=
  [ (*        I4    I8    I     F     &     O     *     MV *)
   (* I4 *) [T_I4; T_NO; T_I; T_NO; T_NO; T_NO; T_NO; T_NO];
   (* I8 *) [T_NO; T_I8; T_NO; T_NO; T_NO; T_NO; T_NO; T_NO];
   (* I  *) [T_I; T_NO; T_I; T_NO; T_I; T_NO; T_I; T_NO];
   (* F  *) [T_NO; T_NO; T_NO; T_F; T_NO; T_NO; T_NO; T_NO];
   (* &  *) [T_M; T_NO; T_M; T_NO; T_I; T_NO; T_I; T_NO];
   (* O  *) [T_NO; T_NO; T_NO; T_NO; T_NO; T_NO; T_NO; T_NO];
   (* *  *) [T_T; T_NO; T_T; T_NO; T_I; T_NO; T_I; T_NO];
   (* MV *) [T_NO; T_NO; T_NO; T_NO; T_NO; T_NO; T_NO; T_NO]].

Definition binaryCompareMatrix : list (list ILEngineType) :=
  [ (*        I4    I8    I     F     &     O     *     MV *)
   (* I4 *) [T_I4; T_NO; T_I; T_NO; T_NO; T_NO; T_NO; T_NO];
   (* I8 *) [T_NO; T_I8; T_NO; T_NO; T_NO; T_NO; T_NO; T_NO];
   (* I  *) [T_I; T_NO; T_I; T_NO; T_NO; T_NO; T_NO; T_NO];
   (* F  *) [T_NO; T_NO; T_NO; T_F; T_NO; T_NO; T_NO; T_NO];
   (* &  *) [T_NO; T_NO; T_NO; T_NO; T_M; T_NO; T_T; T_NO];
   (* O  *) [T_NO; T_NO; T_NO; T_NO; T_NO; T_NO; T_NO; T_NO];
   (* *  *) [T_NO; T_NO; T_NO; T_NO; T_T; T_NO; T_T; T_NO];
   (* MV *) [T_NO; T_NO; T_NO; T_NO; T_NO; T_NO; T_NO; T_NO]].

Definition binaryEqualityMatrix : list (list ILEngineType) :=
  [ (*        I4    I8    I     F     &     O     *     MV *)
   (* I4 *) [T_I4; T_NO; T_I; T_NO; T_NO; T_NO; T_NO; T_NO];
   (* I8 *) [T_NO; T_I8; T_NO; T_NO; T_NO; T_NO; T_NO; T_NO];
   (* I  *) [T_I; T_NO; T_I; T_NO; T_NO; T_NO; T_NO; T_NO];
   (* F  *) [T_NO; T_NO; T_NO; T_F; T_NO; T_NO; T_NO; T_NO];
   (* &  *) [T_NO; T_NO; T_NO; T_NO; T_M; T_NO; T_T; T_NO];
   (* O  *) [T_NO; T_NO; T_NO; T_NO; T_NO; T_O; T_NO; T_NO];
   (* *  *) [T_NO; T_NO; T_NO; T_NO; T_T; T_NO; T_T; T_NO];
   (* MV *) [T_NO; T_NO; T_NO; T_NO; T_NO; T_NO; T_NO; T_NO]].

Definition unsafeEqualityMatrix : list (list ILEngineType) :=
  [ (*        I4    I8    I     F     &     O     *     MV *)
   (* I4 *) [T_I4; T_NO; T_I; T_NO; T_NO; T_NO; T_NO; T_NO];
   (* I8 *) [T_NO; T_I8; T_NO; T_NO; T_NO; T_NO; T_NO; T_NO];
   (* I  *) [T_I; T_NO; T_I; T_NO; T_M; T_NO; T_T; T_NO];
   (* F  *) [T_NO; T_NO; T_NO; T_F; T_NO; T_NO; T_NO; T_NO];
   (* &  *) [T_NO; T_NO; T_M; T_NO; T_M; T_NO; T_T; T_NO];
   (* O  *) [T_NO; T_NO; T_NO; T_NO; T_NO; T_O; T_NO; T_NO];
   (* *  *) [T_NO; T_NO; T_T; T_NO; T_T; T_NO; T_T; T_NO];
   (* MV *) [T_NO; T_NO; T_NO; T_NO; T_NO; T_NO; T_NO; T_NO]].

Definition negateMatrix : list ILEngineType :=
  [T_I4; T_I8; T_I; T_F; T_NO; T_NO; T_NO; T_NO].

Definition notMatrix : list ILEngineType :=
  [T_I4; T_I8; T_I; T_NO; T_NO; T_NO; T_NO; T_NO].

Definition infer2 (matrix : list (list ILEngineType)) (t1 t2 : ILEngineType) : vres ILEngineType :=
  row ← access (matrix !! engine_number t1); access (row !! engine_number t2).

Definition infer1 (matrix : list ILEngineType) (t : ILEngineType) : vres ILEngineType :=
  access (matrix !! engine_number t).

(** [STK_BINARY_2] and [STK_BINARY_1] with their type infos and the rest of
    the stack; [STK_UNARY] with its type info and the rest. *)
Definition top2 (stack : list ILEngineStackItem)
    : vres (ILEngineStackItem * ILEngineStackItem * list ILEngineStackItem) :=
  match stack with
  | i2 :: i1 :: rest => Ret (i1, i2, rest)
  | _ => Wild
  end.

Definition top1 (stack : list ILEngineStackItem)
    : vres (ILEngineStackItem * list ILEngineStackItem) :=
  match stack with
  | i :: rest => Ret (i, rest)
  | _ => Wild
  end.

(** [a && b] where [b] is evaluated only when [a] holds. *)
Definition and_then (a b : vres bool) : vres bool := x ← a; if (x : bool) then b else Ret false.

Section Verify.
Context {PF : Platform} {C : Type} {CC : ILCoder C}.

(** ** Constants (verify_const.c) *)

Definition push_constant (type : ILEngineType) (opcode : Z) (arg : list Z)
    (stack : list ILEngineStackItem) (coder : C) : vres (list ILEngineStackItem * C) :=
  coder ← access (ILCoderConstant coder opcode arg);
  Ret (mk_item type 0 :: stack, coder).

Definition verify_const (opcode : Z) (arg : list Z) (stack : list ILEngineStackItem) (coder : C)
    : vres (list ILEngineStackItem * C) :=
  if opcode =? IL_OP_LDNULL then push_constant ILEngineType_O opcode arg stack coder
  else if (IL_OP_LDC_I4_M1 <=? opcode) && (opcode <=? IL_OP_LDC_I4) then
    push_constant ILEngineType_I4 opcode arg stack coder
  else if opcode =? IL_OP_LDC_I8 then push_constant ILEngineType_I8 opcode arg stack coder
  else push_constant ILEngineType_F opcode arg stack coder.

(** ** Arithmetic (verify_arith.c) *)

(** The result of an operator of two operands that are not pointers. *)
Definition binary_result (commonType : ILEngineType) (rest : list ILEngineStackItem) (coder : C)
    : vres (list ILEngineStackItem * C) :=
  Ret (mk_item commonType 0 :: rest, coder).

Definition is_pointer (t : ILEngineType) : bool :=
  is_type t ILEngineType_M || is_type t ILEngineType_T.

Definition verify_add (unsafeAllowed : bool) (opcode : Z) (stack : list ILEngineStackItem)
    (coder : C) : vres (list ILEngineStackItem * C) :=
  '(i1, i2, rest) ← top2 stack;
  commonType ← infer2 (if unsafeAllowed then addUnsafeMatrix else binaryNumericMatrix)
                      (engineType i1) (engineType i2);
  if is_type commonType ILEngineType_F && (opcode =? IL_OP_ADD_OVF_UN) then Fail TYPE_ERROR
  else if is_pointer commonType then
    let coder := ILCoderBinaryPtr coder opcode (engineType i1) (engineType i2) in
    if is_pointer (engineType i1) then Ret (mk_item commonType (typeInfo i1) :: rest, coder)
    else Ret (mk_item commonType (typeInfo i2) :: rest, coder)
  else if negb (is_type commonType ILEngineType_Invalid) then
    binary_result commonType rest
      (ILCoderBinary coder opcode (engineType i1) (engineType i2))
  else Fail TYPE_ERROR.

Definition verify_sub (unsafeAllowed : bool) (opcode : Z) (stack : list ILEngineStackItem)
    (coder : C) : vres (list ILEngineStackItem * C) :=
  '(i1, i2, rest) ← top2 stack;
  commonType ← infer2 (if unsafeAllowed then subUnsafeMatrix else binaryNumericMatrix)
                      (engineType i1) (engineType i2);
  if is_type commonType ILEngineType_F && (opcode =? IL_OP_SUB_OVF_UN) then Fail TYPE_ERROR
  else if is_pointer commonType then
    Ret (mk_item commonType (typeInfo i1) :: rest,
         ILCoderBinaryPtr coder opcode (engineType i1) (engineType i2))
  else if negb (is_type commonType ILEngineType_Invalid) then
    binary_result commonType rest
      (ILCoderBinary coder opcode (engineType i1) (engineType i2))
  else Fail TYPE_ERROR.

(** mul, div and rem, and the operators on integers only. *)
Definition verify_binary (matrix : list (list ILEngineType)) (opcode : Z)
    (stack : list ILEngineStackItem) (coder : C) : vres (list ILEngineStackItem * C) :=
  '(i1, i2, rest) ← top2 stack;
  commonType ← infer2 matrix (engineType i1) (engineType i2);
  if negb (is_type commonType ILEngineType_Invalid) then
    binary_result commonType rest
      (ILCoderBinary coder opcode (engineType i1) (engineType i2))
  else Fail TYPE_ERROR.

Definition verify_numeric := verify_binary binaryNumericMatrix.
Definition verify_integer := verify_binary binaryIntegerMatrix.

Definition verify_shift (opcode : Z) (stack : list ILEngineStackItem) (coder : C)
    : vres (list ILEngineStackItem * C) :=
  '(i1, i2, rest) ← top2 stack;
  commonType ← infer2 binaryShiftMatrix (engineType i1) (engineType i2);
  if negb (is_type commonType ILEngineType_Invalid) then
    binary_result commonType rest
      (ILCoderShift coder opcode (engineType i1) (engineType i2))
  else Fail TYPE_ERROR.

Definition verify_unary (matrix : list ILEngineType) (opcode : Z)
    (stack : list ILEngineStackItem) (coder : C) : vres (list ILEngineStackItem * C) :=
  '(i, rest) ← top1 stack;
  commonType ← infer1 matrix (engineType i);
  if negb (is_type commonType ILEngineType_Invalid) then
    Ret (mk_item commonType 0 :: rest, ILCoderUnary coder opcode (engineType i))
  else Fail TYPE_ERROR.

Definition verify_neg := verify_unary negateMatrix.
Definition verify_not := verify_unary notMatrix.

Definition verify_ckfinite (opcode : Z) (stack : list ILEngineStackItem) (coder : C)
    : vres (list ILEngineStackItem * C) :=
  '(i, rest) ← top1 stack;
  if is_type (engineType i) ILEngineType_F then
    Ret (stack, ILCoderUnary coder opcode (engineType i))
  else Fail TYPE_ERROR.

(** ** Conversions (verify_conv.c) *)

(** The lines [VERIFY_CONV(name, resultType)] of verify_conv.c. *)
Definition conv_table : list (Z * ILEngineType) :=
  [(IL_OP_CONV_I1, ILEngineType_I4);
   (IL_OP_CONV_I2, ILEngineType_I4);
   (IL_OP_CONV_I4, ILEngineType_I4);
   (IL_OP_CONV_I8, ILEngineType_I8);
   (IL_OP_CONV_R4, ILEngineType_F);
   (IL_OP_CONV_R8, ILEngineType_F);
   (IL_OP_CONV_U4, ILEngineType_I4);
   (IL_OP_CONV_U8, ILEngineType_I8);
   (IL_OP_CONV_R_UN, ILEngineType_F);
   (IL_OP_CONV_OVF_I1_UN, ILEngineType_I4);
   (IL_OP_CONV_OVF_I2_UN, ILEngineType_I4);
   (IL_OP_CONV_OVF_I4_UN, ILEngineType_I4);
   (IL_OP_CONV_OVF_I8_UN, ILEngineType_I8);
   (IL_OP_CONV_OVF_U1_UN, ILEngineType_I4);
   (IL_OP_CONV_OVF_U2_UN, ILEngineType_I4);
   (IL_OP_CONV_OVF_U4_UN, ILEngineType_I4);
   (IL_OP_CONV_OVF_U8_UN, ILEngineType_I8);
   (IL_OP_CONV_OVF_I_UN, ILEngineType_I);
   (IL_OP_CONV_OVF_U_UN, ILEngineType_I);
   (IL_OP_CONV_OVF_I1, ILEngineType_I4);
   (IL_OP_CONV_OVF_U1, ILEngineType_I4);
   (IL_OP_CONV_OVF_I2, ILEngineType_I4);
   (IL_OP_CONV_OVF_U2, ILEngineType_I4);
   (IL_OP_CONV_OVF_I4, ILEngineType_I4);
   (IL_OP_CONV_OVF_U4, ILEngineType_I4);
   (IL_OP_CONV_OVF_I8, ILEngineType_I8);
   (IL_OP_CONV_OVF_U8, ILEngineType_I8);
   (IL_OP_CONV_U2, ILEngineType_I4);
   (IL_OP_CONV_U1, ILEngineType_I4);
   (IL_OP_CONV_I, ILEngineType_I);
   (IL_OP_CONV_OVF_I, ILEngineType_I);
   (IL_OP_CONV_OVF_U, ILEngineType_I);
   (IL_OP_CONV_U, ILEngineType_I)].

Definition verify_conv (unsafeAllowed : bool) (opcode : Z) (resultType : ILEngineType)
    (stack : list ILEngineStackItem) (coder : C) : vres (list ILEngineStackItem * C) :=
  '(i, rest) ← top1 stack;
  if Nat.leb (engine_number (engineType i)) (engine_number ILEngineType_F) then
    Ret (mk_item resultType 0 :: rest, ILCoderConv coder opcode (engineType i))
  else if unsafeAllowed &&
          ((is_type (engineType i) ILEngineType_M || is_type (engineType i) ILEngineType_O ||
            is_type (engineType i) ILEngineType_T) &&
           (is_type resultType ILEngineType_I8 || is_type resultType ILEngineType_I)) then
    Ret (mk_item resultType 0 :: rest, ILCoderConv coder opcode resultType)
  else Fail TYPE_ERROR.

(** ** The stack (verify_stack.c) *)

Definition verify_dup (stack : list ILEngineStackItem) (coder : C)
    : vres (list ILEngineStackItem * C) :=
  '(i, rest) ← top1 stack;
  Ret (i :: i :: rest, ILCoderDup coder (engineType i) (typeInfo i)).

Definition verify_pop (stack : list ILEngineStackItem) (coder : C)
    : vres (list ILEngineStackItem * C) :=
  '(i, rest) ← top1 stack;
  Ret (rest, ILCoderPop coder (engineType i) (typeInfo i)).

(** ** Comparisons (verify_branch.c) *)

(** Is the comparison at [offset] followed by "ldc.i4.1; xor", or by
    "ldc.i4.0; ceq", with no jump to the two instructions? *)
Definition not_jumped_to (jumpMask : list Z) (offset : Z) : vres bool :=
  t ← access (IsJumpTarget jumpMask offset); Ret (negb t).

Definition followed_by_xor (mem jumpMask : list Z) (offset : Z) : vres bool :=
  and_then (b ← rd mem (offset + 2); Ret (b =? IL_OP_LDC_I4_1))
  (and_then (b ← rd mem (offset + 3); Ret (b =? IL_OP_XOR))
  (and_then (not_jumped_to jumpMask (offset + 2)) (not_jumped_to jumpMask (offset + 3)))).

Definition followed_by_ceq (mem jumpMask : list Z) (offset : Z) : vres bool :=
  and_then (b ← rd mem (offset + 2); Ret (b =? IL_OP_LDC_I4_0))
  (and_then (b ← rd mem (offset + 3); Ret (b =? IL_OP_PREFIX))
  (and_then (b ← rd mem (offset + 4); Ret (b =? IL_PREFIX_OP_CEQ))
  (and_then (not_jumped_to jumpMask (offset + 2)) (not_jumped_to jumpMask (offset + 3))))).

(** The comparison with the logical not that follows it, if any: the new
    stack, the coder and the new [insnSize]. *)
Definition compare_code (mem jumpMask : list Z) (offset opcode insnSize : Z)
    (i1 i2 : ILEngineStackItem) (rest : list ILEngineStackItem) (coder : C)
    : vres (list ILEngineStackItem * C * Z) :=
  x ← followed_by_xor mem jumpMask offset;
  '(coder, insnSize) ←
    (if (x : bool) then
       Ret (ILCoderCompare coder opcode (engineType i1) (engineType i2) true, 4)
     else
       c ← followed_by_ceq mem jumpMask offset;
       if (c : bool) then
         Ret (ILCoderCompare coder opcode (engineType i1) (engineType i2) true, 5)
       else Ret (ILCoderCompare coder opcode (engineType i1) (engineType i2) false, insnSize));
  Ret (mk_item ILEngineType_I4 0 :: rest, coder, insnSize).

Definition verify_ceq (unsafeAllowed : bool) (mem jumpMask : list Z) (offset opcode insnSize : Z)
    (stack : list ILEngineStackItem) (coder : C) : vres (list ILEngineStackItem * C * Z) :=
  '(i1, i2, rest) ← top2 stack;
  commonType ← infer2 (if unsafeAllowed then unsafeEqualityMatrix else binaryEqualityMatrix)
                      (engineType i1) (engineType i2);
  if negb (is_type commonType ILEngineType_Invalid) then
    compare_code mem jumpMask offset opcode insnSize i1 i2 rest coder
  else Fail TYPE_ERROR.

Definition verify_compare (mem jumpMask : list Z) (offset opcode insnSize : Z)
    (stack : list ILEngineStackItem) (coder : C) : vres (list ILEngineStackItem * C * Z) :=
  '(i1, i2, rest) ← top2 stack;
  commonType ←
    (if (opcode =? IL_OP_PREFIX + IL_PREFIX_OP_CGT_UN) &&
        is_type (engineType i1) ILEngineType_O && is_type (engineType i2) ILEngineType_O
     then Ret ILEngineType_O
     else infer2 binaryCompareMatrix (engineType i1) (engineType i2));
  if negb (is_type commonType ILEngineType_Invalid) then
    compare_code mem jumpMask offset opcode insnSize i1 i2 rest coder
  else Fail TYPE_ERROR.

(** ** One turn of the main loop (verify.c) *)

Definition one_of (opcode : Z) (l : list Z) : bool := existsb (Z.eqb opcode) l.

(** The cases of verify_const.c, verify_arith.c, verify_conv.c and
    verify_stack.c. *)
Definition verify_simple (unsafeAllowed : bool) (opcode : Z) (arg : list Z)
    (stack : list ILEngineStackItem) (coder : C) : vres (list ILEngineStackItem * C) :=
  if one_of opcode [IL_OP_NOP; IL_OP_BREAK] then Ret (stack, coder)
  else if (IL_OP_LDNULL <=? opcode) && (opcode <=? IL_OP_LDC_R8) then
    verify_const opcode arg stack coder
  else if one_of opcode [IL_OP_ADD; IL_OP_ADD_OVF_UN] then
    verify_add unsafeAllowed opcode stack coder
  else if one_of opcode [IL_OP_SUB; IL_OP_SUB_OVF_UN] then
    verify_sub unsafeAllowed opcode stack coder
  else if one_of opcode [IL_OP_MUL; IL_OP_DIV; IL_OP_REM] then verify_numeric opcode stack coder
  else if one_of opcode [IL_OP_DIV_UN; IL_OP_REM_UN; IL_OP_ADD_OVF; IL_OP_SUB_OVF; IL_OP_MUL_OVF;
                         IL_OP_MUL_OVF_UN; IL_OP_AND; IL_OP_OR; IL_OP_XOR] then
    verify_integer opcode stack coder
  else if one_of opcode [IL_OP_SHL; IL_OP_SHR; IL_OP_SHR_UN] then verify_shift opcode stack coder
  else if opcode =? IL_OP_NEG then verify_neg opcode stack coder
  else if opcode =? IL_OP_NOT then verify_not opcode stack coder
  else if opcode =? IL_OP_CKFINITE then verify_ckfinite opcode stack coder
  else if opcode =? IL_OP_DUP then verify_dup stack coder
  else if opcode =? IL_OP_POP then verify_pop stack coder
  else match list_find (fun p => fst p = opcode) conv_table with
       | Some (_, (_, resultType)) => verify_conv unsafeAllowed opcode resultType stack coder
       | None => NotModelled
       end.

(** Fetch the instruction information block. *)
Definition insn_row (mem : list Z) (offset : Z) : vres (Z * ILOpcodeInfo) :=
  op ← rd mem offset;
  if negb (op =? IL_OP_PREFIX) then row ← table_row ILMainOpcodeTable op; Ret (op, row)
  else
    op ← rd mem (offset + 1);
    row ← table_row ILPrefixOpcodeTable op;
    Ret (op + IL_OP_PREFIX, row).

(** The stack height changes by the table. *)
Definition height_error (maxStack : Z) (insn : ILOpcodeInfo) (stack : list ILEngineStackItem) : bool :=
  let stackSize := Z.of_nat (length stack) in
  (stackSize <? popped insn) || (maxStack <? stackSize - popped insn + pushed insn).

(** The [switch(opcode)] for the categories of this file. *)
Definition verify_dispatch (unsafeAllowed : bool) (mem jumpMask : list Z) (offset opcode insnSize : Z)
    (stack : list ILEngineStackItem) (coder : C) : vres (list ILEngineStackItem * C * Z) :=
  if opcode =? IL_OP_PREFIX + IL_PREFIX_OP_CEQ then
    verify_ceq unsafeAllowed mem jumpMask offset opcode insnSize stack coder
  else if one_of opcode [IL_OP_PREFIX + IL_PREFIX_OP_CGT; IL_OP_PREFIX + IL_PREFIX_OP_CGT_UN;
                         IL_OP_PREFIX + IL_PREFIX_OP_CLT; IL_OP_PREFIX + IL_PREFIX_OP_CLT_UN] then
    verify_compare mem jumpMask offset opcode insnSize stack coder
  else
    '(stack, coder) ←
      verify_simple unsafeAllowed opcode (drop (Z.to_nat (offset + 1)) mem) stack coder;
    Ret (stack, coder, insnSize).

Definition verify_insn (unsafeAllowed : bool) (maxStack : Z) (mem jumpMask : list Z)
    (offset : Z) (stack : list ILEngineStackItem) (coder : C)
    : vres (list ILEngineStackItem * C * Z) :=
  '(opcode, insn) ← insn_row mem offset;
  target ← access (IsJumpTarget jumpMask offset);
  if (target : bool) then NotModelled
  else if height_error maxStack insn stack then Fail STACK_ERROR
  else verify_dispatch unsafeAllowed mem jumpMask offset opcode (size insn) stack coder.

(** The loop [while(len > 0)] on straight-line code, from [offset] with [len]
    bytes left. *)
Fixpoint verify_loop (fuel : nat) (unsafeAllowed : bool) (maxStack : Z) (mem jumpMask : list Z)
    (offset len : Z) (stack : list ILEngineStackItem) (coder : C)
    : vres (list ILEngineStackItem * C) :=
  if len =? 0 then Ret (stack, coder)
  else match fuel with
  | O => NoFuel
  | S fuel =>
    '(stack, coder, insnSize) ←
      verify_insn unsafeAllowed maxStack mem jumpMask offset stack coder;
    verify_loop fuel unsafeAllowed maxStack mem jumpMask (offset + insnSize)
      (u32 (len - insnSize)) stack coder
  end.

End Verify.
