(* ===== verification/VerifyVar.v ===== *)
(** * Loads and stores of variables in the verifier (engine/verify_var.c)

    ldarg, starg, ldloc, stloc, ldarga and ldloca in all their forms, over any
    coder with the methods of [ILVarCoder].  The optimisation of "ldarg.0;
    ldfld" for a "this" argument of a class type needs the fields of classes
    and is [NotModelled]. *)
From Stdlib Require Import ZArith Lia.
From stdpp Require Import base list option numbers.
From S2P Require Import Prelude Opcodes Cvm JumpMask Scan Coder CoderBranch Types CoderVar Verify.

Local Open Scope Z_scope.

(** ** The forms of the instructions *)

Inductive var_kind := LdArg | StArg | LdLoc | StLoc | LdArgA | LdLocA.

(** Where the number of the variable is: in the opcode, in one byte or in two. *)
Inductive var_form := Tiny (n : Z) | Short | Long.

Definition var_instructions : list (Z * (var_kind * var_form)) :=
  [(IL_OP_LDARG_0, (LdArg, Tiny 0)); (IL_OP_LDARG_1, (LdArg, Tiny 1));
   (IL_OP_LDARG_2, (LdArg, Tiny 2)); (IL_OP_LDARG_3, (LdArg, Tiny 3));
   (IL_OP_LDARG_S, (LdArg, Short)); (IL_OP_PREFIX + IL_PREFIX_OP_LDARG, (LdArg, Long));
   (IL_OP_STARG_S, (StArg, Short)); (IL_OP_PREFIX + IL_PREFIX_OP_STARG, (StArg, Long));
   (IL_OP_LDLOC_0, (LdLoc, Tiny 0)); (IL_OP_LDLOC_1, (LdLoc, Tiny 1));
   (IL_OP_LDLOC_2, (LdLoc, Tiny 2)); (IL_OP_LDLOC_3, (LdLoc, Tiny 3));
   (IL_OP_LDLOC_S, (LdLoc, Short)); (IL_OP_PREFIX + IL_PREFIX_OP_LDLOC, (LdLoc, Long));
   (IL_OP_STLOC_0, (StLoc, Tiny 0)); (IL_OP_STLOC_1, (StLoc, Tiny 1));
   (IL_OP_STLOC_2, (StLoc, Tiny 2)); (IL_OP_STLOC_3, (StLoc, Tiny 3));
   (IL_OP_STLOC_S, (StLoc, Short)); (IL_OP_PREFIX + IL_PREFIX_OP_STLOC, (StLoc, Long));
   (IL_OP_LDARGA_S, (LdArgA, Short)); (IL_OP_PREFIX + IL_PREFIX_OP_LDARGA, (LdArgA, Long));
   (IL_OP_LDLOCA_S, (LdLocA, Short)); (IL_OP_PREFIX + IL_PREFIX_OP_LDLOCA, (LdLocA, Long))].

Fixpoint find_var (opcode : Z) (table : list (Z * (var_kind * var_form)))
    : option (var_kind * var_form) :=
  match table with
  | [] => None
  | (op, r) :: table => if opcode =? op then Some r else find_var opcode table
  end.
Definition var_instruction (opcode : Z) : option (var_kind * var_form) :=
  find_var opcode var_instructions.

Definition var_number (mem : list Z) (offset : Z) (form : var_form) : vres Z :=
  match form with
  | Tiny n => Ret n
  | Short => rd mem (offset + 1)
  | Long => rd_uint16 mem (offset + 2)
  end.

(** The variables of the method: the types of the arguments as
    _ILCoderGetParamType gives them, those of the locals, and the class. *)
Record method_vars := mk_vars { argTypes : list Z; localTypes : list Z; owner : Z }.

Definition ILType_Ref {TL : TypeLibrary} (type : Z) : Z := refType__ type.

Section VerifyVar.
Context {PF : Platform} {TL : TypeLibrary} {C : Type} {CC : ILCoder C} {CV : ILVarCoder C}.

(** The bound of chains of type modifiers and of class parents. *)
Variable depth : nat.
Variables (unsafeAllowed : bool) (vars : method_vars).

(** [argNum >= numArgs] is an error; else the type of the variable. *)
Definition var_type (types : list Z) (num : Z) : vres Z :=
  if Z.of_nat (length types) <=? num then Fail INSN_ERROR
  else access (types !! Z.to_nat num).

Definition verify_ldarg (num : Z) (stack : list ILEngineStackItem) (coder : C)
    : vres (list ILEngineStackItem * C) :=
  type ← var_type (argTypes vars) num;
  if type =? ILType_Invalid then
    coder ← access (ILCoderLoadArg coder num (ILType_FromClass (owner vars)));
    Ret (mk_item ILEngineType_M (ILClassToType (owner vars)) :: stack, coder)
  else
    et ← TypeToEngineType depth type;
    if is_type et ILEngineType_M then
      coder ← access (ILCoderLoadArg coder num type);
      Ret (mk_item et (ILType_Ref type) :: stack, coder)
    else if negb (IsUnsafeType type) || unsafeAllowed then
      coder ← access (ILCoderLoadArg coder num type); Ret (mk_item et type :: stack, coder)
    else Fail TYPE_ERROR.

Definition verify_starg (num : Z) (stack : list ILEngineStackItem) (coder : C)
    : vres (list ILEngineStackItem * C) :=
  type ← var_type (argTypes vars) num;
  if type =? ILType_Invalid then Fail TYPE_ERROR
  else
    '(i, rest) ← top1 stack;
    ok ← AssignCompatible depth i type unsafeAllowed;
    if (ok : bool) then
      coder ← access (ILCoderStoreArg coder num (engineType i) type); Ret (rest, coder)
    else Fail TYPE_ERROR.

Definition verify_ldloc (num : Z) (stack : list ILEngineStackItem) (coder : C)
    : vres (list ILEngineStackItem * C) :=
  type ← var_type (localTypes vars) num;
  et ← TypeToEngineType depth type;
  if is_type et ILEngineType_M then
    coder ← access (ILCoderLoadLocal coder num type);
    Ret (mk_item et (ILType_Ref type) :: stack, coder)
  else if IsUnsafeType type && negb unsafeAllowed then Fail TYPE_ERROR
  else coder ← access (ILCoderLoadLocal coder num type); Ret (mk_item et type :: stack, coder).

Definition verify_stloc (num : Z) (stack : list ILEngineStackItem) (coder : C)
    : vres (list ILEngineStackItem * C) :=
  type ← var_type (localTypes vars) num;
  '(i, rest) ← top1 stack;
  ok ← AssignCompatible depth i type unsafeAllowed;
  if (ok : bool) then
    coder ← access (ILCoderStoreLocal coder num (engineType i) type); Ret (rest, coder)
  else Fail TYPE_ERROR.

Definition verify_ldarga (num : Z) (stack : list ILEngineStackItem) (coder : C)
    : vres (list ILEngineStackItem * C) :=
  type ← var_type (argTypes vars) num;
  if type =? ILType_Invalid then Fail TYPE_ERROR
  else coder ← access (ILCoderAddrOfArg coder num); Ret (mk_item ILEngineType_T type :: stack, coder).

Definition verify_ldloca (num : Z) (stack : list ILEngineStackItem) (coder : C)
    : vres (list ILEngineStackItem * C) :=
  type ← var_type (localTypes vars) num;
  coder ← access (ILCoderAddrOfLocal coder num); Ret (mk_item ILEngineType_T type :: stack, coder).

(** "ldarg.0" on an argument of a class type with "ldfld" behind it. *)
Definition this_field (mem jumpMask : list Z) (offset opcode : Z) : vres bool :=
  if opcode =? IL_OP_LDARG_0 then
    match argTypes vars with
    | type :: _ =>
      if ILType_IsClass type then
        b ← rd mem (offset + 1);
        if b =? IL_OP_LDFLD then not_jumped_to jumpMask (offset + 1) else Ret false
      else Ret false
    | [] => Ret false
    end
  else Ret false.

Definition verify_var (mem jumpMask : list Z) (offset opcode : Z) (kind : var_kind) (form : var_form)
    (stack : list ILEngineStackItem) (coder : C) : vres (list ILEngineStackItem * C) :=
  field ← this_field mem jumpMask offset opcode;
  if (field : bool) then NotModelled
  else
    num ← var_number mem offset form;
    match kind with
    | LdArg => verify_ldarg num stack coder
    | StArg => verify_starg num stack coder
    | LdLoc => verify_ldloc num stack coder
    | StLoc => verify_stloc num stack coder
    | LdArgA => verify_ldarga num stack coder
    | LdLocA => verify_ldloca num stack coder
    end.

End VerifyVar.
