(* ===== verification/VerifyBranch.v ===== *)
(** * Labels, branches and the whole main loop of the verifier

    engine/verify_branch.c: the list of labels with the stack recorded at each,
    the validation of a stack against them, and the branch and switch
    instructions; the return instruction of verify_call.c; and the main loop of
    engine/verify.c with its treatment of jump targets and of code behind a
    jump, for a method that is not synchronized and has no exception blocks.
    Stacks are lists with their top first. *)
From Stdlib Require Import ZArith Lia.
From stdpp Require Import base list option numbers.
From S2P Require Import Prelude Opcodes Cvm JumpMask Scan Coder CoderBranch Types CoderVar Verify VerifyVar.
Import OpTable.

Local Open Scope Z_scope.

(** ** Labels *)

Record BranchLabel := mk_branch_label { bl_address : Z; bl_stack : list ILEngineStackItem }.

Fixpoint FindLabel (labelList : list BranchLabel) (address : Z) : option BranchLabel :=
  match labelList with
  | [] => None
  | label :: labelList =>
    if bl_address label =? address then Some label else FindLabel labelList address
  end.

(** Store to the stack of the label that [FindLabel] returns. *)
Fixpoint set_label_stack (labelList : list BranchLabel) (address : Z)
    (stack : list ILEngineStackItem) : list BranchLabel :=
  match labelList with
  | [] => []
  | label :: labelList =>
    if bl_address label =? address then mk_branch_label address stack :: labelList
    else label :: set_label_stack labelList address stack
  end.

Section Labels.
Context {PF : Platform} {TL : TypeLibrary}.

(** The bound of the chain of parents of a class, and of type modifiers. *)
Variable depth : nat.

Fixpoint TryCommonType (fuel : nat) (type1 type2 : Z) : vres Z :=
  match fuel with
  | O => NoFuel
  | S fuel =>
    if type1 =? 0 then Ret type2
    else if type2 =? 0 then Ret type1
    else if ILTypeAssignCompatibleNonBoxing type1 type2 then Ret type2
    else
      classInfo ← access (ILClassFromType type2);
      match ILClass_ParentClass classInfo with
      | Some classInfo => TryCommonType fuel type1 (ILClassToType classInfo)
      | None => Ret type2
      end
  end.

Definition CommonType (type1 type2 : Z) : vres (option Z) :=
  ctype12 ← TryCommonType depth type1 type2;
  ctype21 ← TryCommonType depth type2 type1;
  if ILTypeAssignCompatibleNonBoxing ctype12 ctype21 then Ret (Some ctype12)
  else if ILTypeAssignCompatibleNonBoxing ctype21 ctype12 then Ret (Some ctype21)
  else Ret None.

(** The int32 or int64 that a native integer may meet at a label. *)
Definition native_item (t : ILEngineType) : bool :=
  (if IL_NATIVE_INT64 then is_type t ILEngineType_I8 else is_type t ILEngineType_I4)
  || is_type t ILEngineType_I.

(** One item of the label's stack and of the current stack, as both are left. *)
Definition ValidateItem (old new : ILEngineStackItem)
    : vres (ILEngineStackItem * ILEngineStackItem) :=
  if native_item (engineType new) && native_item (engineType old) then Ret (old, new)
  else if negb (is_type (engineType new) (engineType old)) then Fail STACK_ERROR
  else match engineType new with
  | ILEngineType_M | ILEngineType_T | ILEngineType_MV =>
    if ILTypeIdentical (typeInfo new) (typeInfo old) then Ret (old, new) else Fail STACK_ERROR
  | ILEngineType_O =>
    commonType ← CommonType (typeInfo new) (typeInfo old);
    match commonType with
    | Some commonType =>
      Ret (mk_item (engineType old) commonType, mk_item (engineType new) commonType)
    | None => Fail STACK_ERROR
    end
  | _ => Ret (old, new)
  end.

(** The items from the bottom up. *)
Fixpoint ValidateItems (old new : list ILEngineStackItem)
    : vres (list ILEngineStackItem * list ILEngineStackItem) :=
  match old, new with
  | [], [] => Ret ([], [])
  | o :: old, n :: new =>
    '(old, new) ← ValidateItems old new;
    '(o, n) ← ValidateItem o n;
    Ret (o :: old, n :: new)
  | _, _ => Fail STACK_ERROR
  end.

Definition ValidateStack (label : BranchLabel) (stack : list ILEngineStackItem)
    : vres (list ILEngineStackItem * list ILEngineStackItem) :=
  if negb (Nat.eqb (length stack) (length (bl_stack label))) then Fail STACK_ERROR
  else ValidateItems (bl_stack label) stack.

Definition VALIDATE_BRANCH_STACK (dest : Z) (labelList : list BranchLabel)
    (stack : list ILEngineStackItem) : vres (list BranchLabel * list ILEngineStackItem) :=
  match FindLabel labelList dest with
  | Some currLabel =>
    '(old, stack) ← ValidateStack currLabel stack;
    Ret (set_label_stack labelList dest old, stack)
  | None => Ret (mk_branch_label dest stack :: labelList, stack)
  end.

Definition VALIDATE_TARGET_STACK (address : Z) (lastWasJump : bool) (labelList : list BranchLabel)
    (stack : list ILEngineStackItem) : vres (list BranchLabel * list ILEngineStackItem) :=
  match FindLabel labelList address with
  | Some currLabel =>
    if lastWasJump then Ret (labelList, bl_stack currLabel)
    else
      '(old, stack) ← ValidateStack currLabel stack;
      Ret (set_label_stack labelList address old, stack)
  | None =>
    let stack := if lastWasJump then [] else stack in
    Ret (mk_branch_label address stack :: labelList, stack)
  end.

(** ** Branch instructions *)

Definition unsafeCompareMatrix : list (list ILEngineType) :=
  [ (*        I4    I8    I     F     &     O     *     MV *)
   (* I4 *) [T_I4; T_NO; T_I; T_NO; T_NO; T_NO; T_NO; T_NO];
   (* I8 *) [T_NO; T_I8; T_NO; T_NO; T_NO; T_NO; T_NO; T_NO];
   (* I  *) [T_I; T_NO; T_I; T_NO; T_M; T_NO; T_T; T_NO];
   (* F  *) [T_NO; T_NO; T_NO; T_F; T_NO; T_NO; T_NO; T_NO];
   (* &  *) [T_NO; T_NO; T_M; T_NO; T_M; T_NO; T_T; T_NO];
   (* O  *) [T_NO; T_NO; T_NO; T_NO; T_NO; T_NO; T_NO; T_NO];
   (* *  *) [T_NO; T_NO; T_T; T_NO; T_T; T_NO; T_T; T_NO];
   (* MV *) [T_NO; T_NO; T_NO; T_NO; T_NO; T_NO; T_NO; T_NO]].

Definition unaryBranchMatrix : list ILEngineType :=
  [T_I4; T_I8; T_I; T_F; T_M; T_O; T_T; T_NO].

Definition short_branches : list Z :=
  [IL_OP_BR_S; IL_OP_BRFALSE_S; IL_OP_BRTRUE_S; IL_OP_BEQ_S; IL_OP_BGE_S; IL_OP_BGT_S; IL_OP_BLE_S;
   IL_OP_BLT_S; IL_OP_BNE_UN_S; IL_OP_BGE_UN_S; IL_OP_BGT_UN_S; IL_OP_BLE_UN_S; IL_OP_BLT_UN_S].
Definition long_branches : list Z :=
  [IL_OP_BR; IL_OP_BRFALSE; IL_OP_BRTRUE; IL_OP_BEQ; IL_OP_BGE; IL_OP_BGT; IL_OP_BLE;
   IL_OP_BLT; IL_OP_BNE_UN; IL_OP_BGE_UN; IL_OP_BGT_UN; IL_OP_BLE_UN; IL_OP_BLT_UN].

Definition GET_SHORT_DEST (mem : list Z) (offset : Z) : vres Z :=
  b ← rd mem (offset + 1); Ret (u32 (offset + 2 + u32 (i8 b))).
Definition GET_LONG_DEST (mem : list Z) (offset : Z) : vres Z :=
  d ← rd_uint32 mem (offset + 1); Ret (u32 (offset + 5 + u32 (i32 d))).

Context {C : Type} {CC : ILCoder C} {CB : ILBranchCoder C} {CV : ILVarCoder C}.

(** The stack, the labels, [lastWasJump] and the coder. *)
Record vstate := mk_vstate {
  v_stack : list ILEngineStackItem; v_labels : list BranchLabel; v_jump : bool; v_coder : C }.

(** [ILCoderBranch], the operands off the stack and the branch to [dest]. *)
Definition branch_to (opcode dest : Z) (t1 t2 : ILEngineType) (rest : list ILEngineStackItem)
    (jump : bool) (st : vstate) : vres vstate :=
  let coder := ILCoderBranch (v_coder st) opcode dest t1 t2 in
  '(labels, stack) ← VALIDATE_BRANCH_STACK dest (v_labels st) rest;
  Ret (mk_vstate stack labels jump coder).

Definition verify_binary_branch (matrix : list (list ILEngineType)) (opcode dest : Z) (st : vstate)
    : vres vstate :=
  '(i1, i2, rest) ← top2 (v_stack st);
  commonType ← infer2 matrix (engineType i1) (engineType i2);
  if negb (is_type commonType ILEngineType_Invalid) then
    branch_to opcode dest (engineType i1) (engineType i2) rest false st
  else Fail TYPE_ERROR.

Definition verify_branch (unsafeAllowed : bool) (opcode dest : Z) (st : vstate) : vres vstate :=
  if opcode_in opcode IL_OP_BR_S IL_OP_BR then
    branch_to opcode dest ILEngineType_I4 ILEngineType_I4 (v_stack st) true st
  else if opcode_in opcode IL_OP_BRFALSE_S IL_OP_BRFALSE ||
          opcode_in opcode IL_OP_BRTRUE_S IL_OP_BRTRUE then
    '(i, rest) ← top1 (v_stack st);
    commonType ← infer1 unaryBranchMatrix (engineType i);
    if negb (is_type commonType ILEngineType_Invalid) then
      branch_to opcode dest commonType commonType rest false st
    else Fail TYPE_ERROR
  else if opcode_in opcode IL_OP_BEQ_S IL_OP_BEQ ||
          opcode_in opcode IL_OP_BNE_UN_S IL_OP_BNE_UN then
    verify_binary_branch (if unsafeAllowed then unsafeEqualityMatrix else binaryEqualityMatrix)
      opcode dest st
  else
    '(i1, i2, rest) ← top2 (v_stack st);
    if opcode_in opcode IL_OP_BGT_UN_S IL_OP_BGT_UN &&
       is_type (engineType i1) ILEngineType_O && is_type (engineType i2) ILEngineType_O then
      branch_to opcode dest (engineType i1) (engineType i2) rest false st
    else
      verify_binary_branch (if unsafeAllowed then unsafeCompareMatrix else binaryCompareMatrix)
        opcode dest st.

(** The entries of a switch from [argNum] on, [n] of them. *)
Fixpoint verify_switch_entries (n : nat) (mem : list Z) (offset insnSize argNum : Z) (st : vstate)
    : vres vstate :=
  match n with
  | O => Ret st
  | S n =>
    d ← rd_uint32 mem (offset + 5 + argNum * 4);
    let dest := u32 (u32 (offset + insnSize) + u32 (i32 d)) in
    let coder := ILCoderSwitchEntry (v_coder st) dest in
    '(labels, stack) ← VALIDATE_BRANCH_STACK dest (v_labels st) (v_stack st);
    verify_switch_entries n mem offset insnSize (argNum + 1)
      (mk_vstate stack labels (v_jump st) coder)
  end.

Definition verify_switch (mem : list Z) (offset : Z) (st : vstate) : vres (vstate * Z) :=
  '(i, rest) ← top1 (v_stack st);
  if is_type (engineType i) ILEngineType_I4 then
    numEntries ← rd_uint32 mem (offset + 1);
    let insnSize := u32 (5 + numEntries * 4) in
    let st := mk_vstate rest (v_labels st) false (ILCoderSwitchStart (v_coder st) numEntries) in
    st ← verify_switch_entries (Z.to_nat numEntries) mem offset insnSize 0 st;
    Ret (mk_vstate (v_stack st) (v_labels st) (v_jump st) (ILCoderSwitchEnd (v_coder st)), insnSize)
  else Fail TYPE_ERROR.

(** ** The return instruction (verify_call.c) *)

Definition verify_ret (unsafeAllowed : bool) (returnType : Z) (st : vstate) : vres vstate :=
  if negb (returnType =? ILType_Void) then
    match v_stack st with
    | [] => Fail STACK_ERROR
    | i :: rest =>
      ok ← AssignCompatible depth i returnType unsafeAllowed;
      if (ok : bool) then
        Ret (mk_vstate rest (v_labels st) true
               (ILCoderReturnInsn (v_coder st) (engineType i) returnType))
      else Fail TYPE_ERROR
    end
  else
    Ret (mk_vstate (v_stack st) (v_labels st) true
           (ILCoderReturnInsn (v_coder st) ILEngineType_Invalid ILType_Void)).

(** ** The main loop (verify.c) *)

(** What happens at [offset] before the instruction is looked at. *)
Definition enter_insn (jumpMask : list Z) (offset : Z) (st : vstate) : vres vstate :=
  target ← access (IsJumpTarget jumpMask offset);
  if (target : bool) then
    '(labels, stack) ← VALIDATE_TARGET_STACK offset (v_jump st) (v_labels st) (v_stack st);
    let coder := ILCoderStackRefresh (ILCoderLabel (v_coder st) offset) stack in
    Ret (mk_vstate stack labels (v_jump st) coder)
  else if v_jump st then
    '(labels, stack) ← VALIDATE_TARGET_STACK offset (v_jump st) (v_labels st) (v_stack st);
    Ret (mk_vstate stack labels (v_jump st) (ILCoderStackRefresh (v_coder st) stack))
  else Ret st.

(** The [switch(opcode)], from a state with [lastWasJump] cleared. *)
Definition verify_opcode (unsafeAllowed : bool) (returnType : Z) (vars : method_vars)
    (mem jumpMask : list Z) (offset opcode insnSize : Z) (st : vstate) : vres (vstate * Z) :=
  if one_of opcode short_branches then
    dest ← GET_SHORT_DEST mem offset;
    st ← verify_branch unsafeAllowed opcode dest st; Ret (st, insnSize)
  else if one_of opcode long_branches then
    dest ← GET_LONG_DEST mem offset;
    st ← verify_branch unsafeAllowed opcode dest st; Ret (st, insnSize)
  else if opcode =? IL_OP_SWITCH then verify_switch mem offset st
  else if opcode =? IL_OP_RET then
    st ← verify_ret unsafeAllowed returnType st; Ret (st, insnSize)
  else match var_instruction opcode with
  | Some (kind, form) =>
    '(stack, coder) ←
      verify_var depth unsafeAllowed vars mem jumpMask offset opcode kind form (v_stack st) (v_coder st);
    Ret (mk_vstate stack (v_labels st) (v_jump st) coder, insnSize)
  | None =>
    '(stack, coder, insnSize) ←
      verify_dispatch unsafeAllowed mem jumpMask offset opcode insnSize (v_stack st) (v_coder st);
    Ret (mk_vstate stack (v_labels st) (v_jump st) coder, insnSize)
  end.

Definition method_insn (unsafeAllowed : bool) (maxStack returnType : Z) (vars : method_vars)
    (mem jumpMask : list Z) (offset : Z) (st : vstate) : vres (vstate * Z) :=
  '(opcode, insn) ← insn_row mem offset;
  st ← enter_insn jumpMask offset st;
  if height_error maxStack insn (v_stack st) then Fail STACK_ERROR
  else
    verify_opcode unsafeAllowed returnType vars mem jumpMask offset opcode (size insn)
      (mk_vstate (v_stack st) (v_labels st) false (v_coder st)).

Fixpoint method_loop (fuel : nat) (unsafeAllowed : bool) (maxStack returnType : Z)
    (vars : method_vars) (mem jumpMask : list Z) (offset len : Z) (st : vstate) : vres vstate :=
  if len =? 0 then Ret st
  else match fuel with
  | O => NoFuel
  | S fuel =>
    '(st, insnSize) ← method_insn unsafeAllowed maxStack returnType vars mem jumpMask offset st;
    method_loop fuel unsafeAllowed maxStack returnType vars mem jumpMask (offset + insnSize)
      (u32 (len - insnSize)) st
  end.

(** [_ILVerify] from the scan to [ILCoderMarkEnd]: both passes over the
    [codeLen] bytes of code, and the check that the last instruction does not
    fall off the end. *)
Definition verify_method (unsafeAllowed : bool) (maxStack returnType : Z) (vars : method_vars)
    (mem : list Z) (codeLen : Z) (coder : C) : vres vstate :=
  '(jumpMask, hasRethrow) ←
    scan (Z.to_nat codeLen) mem codeLen 0 codeLen (new_mask codeLen) false;
  check_targets (Z.to_nat codeLen) jumpMask ;;
  st ← method_loop (S (length mem)) unsafeAllowed maxStack returnType vars mem jumpMask 0 codeLen
         (mk_vstate [] [] false coder);
  if v_jump st then Ret st else Fail INSN_ERROR.

End Labels.
Arguments vstate C : clear implicits.
