(* ===== verification/ILSpec.v ===== *)
(** * Reference semantics of the integer instructions of IL

    What ECMA-335 (Partition III) says the integer instructions compute, on
    mathematical values tagged with their stack type: [VI4] and [VI8] are the
    32- and 64-bit integers, [VI] the native ones, each held as its signed
    representative.  This is the specification that the coder and the
    interpreter are checked against; it mentions neither.  Where the standard
    leaves a result open (shift counts outside the width, the widening of an
    int32 met by a native int) the choice is the one the engine documents:
    counts are taken modulo the width, the int32 is zero-extended for the
    unsigned arithmetic operators and sign-extended for all others, for the
    comparisons and for the branches. *)
From Stdlib Require Import ZArith Lia.
From stdpp Require Import base list option numbers.
From S2P Require Import Prelude Opcodes Cvm Coder.

Local Open Scope Z_scope.

Inductive value := VI4 (z : Z) | VI8 (z : Z) | VI (z : Z).

Definition type_of (v : value) : ILEngineType :=
  match v with VI4 _ => ILEngineType_I4 | VI8 _ => ILEngineType_I8 | VI _ => ILEngineType_I end.

(** ** Arithmetic at a width *)

Inductive width := W32 | W64.

#[export] Instance width_eq_dec : EqDecision width.
Proof. solve_decision. Defined.

(** The exceptions.  A division by zero keeps the width at which it was done:
    the standard has one exception for both, the engine one for each
    ([cvm_exn] of CvmOps.v). *)
Inductive il_exn := Overflow | Arithmetic | DivideByZero (w : width).

Definition wrap (w : width) : Z -> Z := match w with W32 => i32 | W64 => i64 end.
Definition uns (w : width) : Z -> Z := match w with W32 => u32 | W64 => u64 end.
Definition in_signed (w : width) (z : Z) : bool := wrap w z =? z.
Definition in_unsigned (w : width) (z : Z) : bool := uns w z =? z.
Definition bits (w : width) : Z := match w with W32 => 32 | W64 => 64 end.

Definition checked (ok : bool) (z : Z) : il_exn + Z := if ok then inr z else inl Overflow.

(** Operators on two operands of the same width. *)
Definition int_binary (w : width) (opcode a b : Z) : option (il_exn + Z) :=
  if opcode =? IL_OP_ADD then Some (inr (wrap w (a + b)))
  else if opcode =? IL_OP_SUB then Some (inr (wrap w (a - b)))
  else if opcode =? IL_OP_MUL then Some (inr (wrap w (a * b)))
  else if opcode =? IL_OP_ADD_OVF then Some (checked (in_signed w (a + b)) (a + b))
  else if opcode =? IL_OP_SUB_OVF then Some (checked (in_signed w (a - b)) (a - b))
  else if opcode =? IL_OP_MUL_OVF then Some (checked (in_signed w (a * b)) (a * b))
  else if opcode =? IL_OP_ADD_OVF_UN then
    let r := uns w a + uns w b in Some (checked (in_unsigned w r) (wrap w r))
  else if opcode =? IL_OP_SUB_OVF_UN then
    let r := uns w a - uns w b in Some (checked (in_unsigned w r) (wrap w r))
  else if opcode =? IL_OP_MUL_OVF_UN then
    let r := uns w a * uns w b in Some (checked (in_unsigned w r) (wrap w r))
  else if opcode =? IL_OP_DIV then
    Some (if b =? 0 then inl (DivideByZero w)
          else if in_signed w (Z.quot a b) then inr (Z.quot a b) else inl Arithmetic)
  else if opcode =? IL_OP_DIV_UN then
    Some (if b =? 0 then inl (DivideByZero w) else inr (wrap w (uns w a / uns w b)))
  else if opcode =? IL_OP_REM then
    Some (if b =? 0 then inl (DivideByZero w)
          else if in_signed w (Z.quot a b) then inr (Z.rem a b) else inl Arithmetic)
  else if opcode =? IL_OP_REM_UN then
    Some (if b =? 0 then inl (DivideByZero w) else inr (wrap w (uns w a mod uns w b)))
  else if opcode =? IL_OP_AND then Some (inr (Z.land a b))
  else if opcode =? IL_OP_OR then Some (inr (Z.lor a b))
  else if opcode =? IL_OP_XOR then Some (inr (Z.lxor a b))
  else None.

(** Shift of [a] by [n] places. *)
Definition int_shift (w : width) (opcode a n : Z) : option Z :=
  let n := n mod bits w in
  if opcode =? IL_OP_SHL then Some (wrap w (a * 2 ^ n))
  else if opcode =? IL_OP_SHR then Some (a / 2 ^ n)
  else if opcode =? IL_OP_SHR_UN then Some (wrap w (uns w a / 2 ^ n))
  else None.

Definition int_unary (w : width) (opcode a : Z) : option Z :=
  if opcode =? IL_OP_NEG then Some (wrap w (- a))
  else if opcode =? IL_OP_NOT then Some (- a - 1)
  else None.

Definition int_compare (w : width) (opcode a b : Z) : option bool :=
  if opcode =? IL_OP_PREFIX + IL_PREFIX_OP_CEQ then Some (a =? b)
  else if opcode =? IL_OP_PREFIX + IL_PREFIX_OP_CGT then Some (b <? a)
  else if opcode =? IL_OP_PREFIX + IL_PREFIX_OP_CGT_UN then Some (uns w b <? uns w a)
  else if opcode =? IL_OP_PREFIX + IL_PREFIX_OP_CLT then Some (a <? b)
  else if opcode =? IL_OP_PREFIX + IL_PREFIX_OP_CLT_UN then Some (uns w a <? uns w b)
  else None.

(** ** Instructions on the evaluation stack *)

Inductive il_out := Values (vs : list value) | Raise (e : il_exn).

Definition unsigned_op (opcode : Z) : bool :=
  existsb (Z.eqb opcode)
    [IL_OP_ADD_OVF_UN; IL_OP_SUB_OVF_UN; IL_OP_MUL_OVF_UN; IL_OP_DIV_UN; IL_OP_REM_UN].

Section Spec.
Context {PF : Platform}.

Definition native : width := if IL_NATIVE_INT64 then W64 else W32.

(** A value in the range of its type. *)
Definition wf_value (v : value) : Prop :=
  match v with
  | VI4 z => i32 z = z
  | VI8 z => i64 z = z
  | VI z => wrap native z = z
  end.

Definition tag (t : ILEngineType) (z : Z) : value :=
  match t with ILEngineType_I4 => VI4 z | ILEngineType_I8 => VI8 z | _ => VI z end.

Definition out_of (t : ILEngineType) (r : il_exn + Z) : il_out :=
  match r with inr z => Values [tag t z] | inl e => Raise e end.

(** The common width, type and operands of a binary operator. *)
Definition widen (zero_extend : bool) (v1 v2 : value) : option (width * ILEngineType * Z * Z) :=
  let ext z := if zero_extend then wrap native (u32 z) else z in
  match v1, v2 with
  | VI4 a, VI4 b => Some (W32, ILEngineType_I4, a, b)
  | VI8 a, VI8 b => Some (W64, ILEngineType_I8, a, b)
  | VI a, VI b => Some (native, ILEngineType_I, a, b)
  | VI a, VI4 b => Some (native, ILEngineType_I, a, ext b)
  | VI4 a, VI b => Some (native, ILEngineType_I, ext a, b)
  | _, _ => None
  end.

Definition il_binary (opcode : Z) (v1 v2 : value) : option il_out :=
  '(w, t, a, b) ← widen (unsigned_op opcode) v1 v2;
  r ← int_binary w opcode a b;
  Some (out_of t r).

Definition il_compare (opcode : Z) (v1 v2 : value) : option bool :=
  '(w, _, a, b) ← widen false v1 v2;
  int_compare w opcode a b.

(** The width and the number of a value. *)
Definition width_of (v : value) : width :=
  match v with VI4 _ => W32 | VI8 _ => W64 | VI _ => native end.
Definition number (v : value) : Z := match v with VI4 z | VI8 z | VI z => z end.

Definition il_shift (opcode : Z) (v1 v2 : value) : option il_out :=
  match v2 with
  | VI8 _ => None
  | _ => r ← int_shift (width_of v1) opcode (number v1) (number v2);
         Some (Values [tag (type_of v1) r])
  end.

Definition il_unary (opcode : Z) (v : value) : option il_out :=
  r ← int_unary (width_of v) opcode (number v); Some (Values [tag (type_of v) r]).

(** Conversions: the bounds checked (for the .ovf forms), whether the operand
    is read as unsigned, the function of the operand and the result type. *)
Definition native_min : Z := if IL_NATIVE_INT64 then IL_MIN_INT64 else IL_MIN_INT32.
Definition native_max : Z := if IL_NATIVE_INT64 then IL_MAX_INT64 else IL_MAX_INT32.
Definition native_umax : Z := if IL_NATIVE_INT64 then IL_MAX_UINT64 else IL_MAX_UINT32.

Definition conv_plain : list (Z * (bool * (Z -> Z) * ILEngineType)) :=
  [(IL_OP_CONV_I1, (false, i8, ILEngineType_I4));
   (IL_OP_CONV_I2, (false, i16, ILEngineType_I4));
   (IL_OP_CONV_I4, (false, i32, ILEngineType_I4));
   (IL_OP_CONV_I8, (false, i64, ILEngineType_I8));
   (IL_OP_CONV_I, (false, wrap native, ILEngineType_I));
   (IL_OP_CONV_U1, (false, u8, ILEngineType_I4));
   (IL_OP_CONV_U2, (false, u16, ILEngineType_I4));
   (IL_OP_CONV_U4, (false, i32, ILEngineType_I4));
   (IL_OP_CONV_U8, (true, i64, ILEngineType_I8));
   (IL_OP_CONV_U, (true, wrap native, ILEngineType_I))].

Definition conv_checked : list (Z * (bool * Z * Z * ILEngineType)) :=
  [(IL_OP_CONV_OVF_I1, (false, -128, 127, ILEngineType_I4));
   (IL_OP_CONV_OVF_U1, (false, 0, 255, ILEngineType_I4));
   (IL_OP_CONV_OVF_I2, (false, -32768, 32767, ILEngineType_I4));
   (IL_OP_CONV_OVF_U2, (false, 0, 65535, ILEngineType_I4));
   (IL_OP_CONV_OVF_I4, (false, IL_MIN_INT32, IL_MAX_INT32, ILEngineType_I4));
   (IL_OP_CONV_OVF_U4, (false, 0, IL_MAX_UINT32, ILEngineType_I4));
   (IL_OP_CONV_OVF_I8, (false, IL_MIN_INT64, IL_MAX_INT64, ILEngineType_I8));
   (IL_OP_CONV_OVF_U8, (false, 0, IL_MAX_UINT64, ILEngineType_I8));
   (IL_OP_CONV_OVF_I, (false, native_min, native_max, ILEngineType_I));
   (IL_OP_CONV_OVF_U, (false, 0, native_umax, ILEngineType_I));
   (IL_OP_CONV_OVF_I1_UN, (true, -128, 127, ILEngineType_I4));
   (IL_OP_CONV_OVF_U1_UN, (true, 0, 255, ILEngineType_I4));
   (IL_OP_CONV_OVF_I2_UN, (true, -32768, 32767, ILEngineType_I4));
   (IL_OP_CONV_OVF_U2_UN, (true, 0, 65535, ILEngineType_I4));
   (IL_OP_CONV_OVF_I4_UN, (true, IL_MIN_INT32, IL_MAX_INT32, ILEngineType_I4));
   (IL_OP_CONV_OVF_U4_UN, (true, 0, IL_MAX_UINT32, ILEngineType_I4));
   (IL_OP_CONV_OVF_I8_UN, (true, IL_MIN_INT64, IL_MAX_INT64, ILEngineType_I8));
   (IL_OP_CONV_OVF_U8_UN, (true, 0, IL_MAX_UINT64, ILEngineType_I8));
   (IL_OP_CONV_OVF_I_UN, (true, native_min, native_max, ILEngineType_I));
   (IL_OP_CONV_OVF_U_UN, (true, 0, native_umax, ILEngineType_I))].

Fixpoint assoc {A} (k : Z) (l : list (Z * A)) : option A :=
  match l with
  | [] => None
  | (k', a) :: l => if k =? k' then Some a else assoc k l
  end.

Definition wrap_type (t : ILEngineType) (z : Z) : Z :=
  match t with
  | ILEngineType_I4 => i32 z
  | ILEngineType_I8 => i64 z
  | _ => wrap native z
  end.

Definition il_conv (opcode : Z) (v : value) : option il_out :=
  match assoc opcode conv_plain with
  | Some (from_unsigned, f, t) =>
    let z := if from_unsigned : bool then uns (width_of v) (number v) else number v in
    Some (Values [tag t (f z)])
  | None =>
    '(from_unsigned, lo, hi, t) ← assoc opcode conv_checked;
    let z := if from_unsigned : bool then uns (width_of v) (number v) else number v in
    Some (if (lo <=? z) && (z <=? hi) then Values [tag t (wrap_type t z)] else Raise Overflow)
  end.

(** The constant that a ldc instruction with argument bytes [arg] pushes. *)
Definition il_const (opcode : Z) (arg : list Z) : option value :=
  if (IL_OP_LDC_I4_M1 <=? opcode) && (opcode <=? IL_OP_LDC_I4_8) then
    Some (VI4 (opcode - IL_OP_LDC_I4_0))
  else if opcode =? IL_OP_LDC_I4_S then b ← arg !! 0%nat; Some (VI4 (i8 b))
  else if opcode =? IL_OP_LDC_I4 then
    match arg with
    | b0 :: b1 :: b2 :: b3 :: _ => Some (VI4 (i32 (b0 + 2 ^ 8 * b1 + 2 ^ 16 * b2 + 2 ^ 24 * b3)))
    | _ => None
    end
  else if opcode =? IL_OP_LDC_I8 then
    match arg with
    | b0 :: b1 :: b2 :: b3 :: b4 :: b5 :: b6 :: b7 :: _ =>
      Some (VI8 (i64 (b0 + 2 ^ 8 * b1 + 2 ^ 16 * b2 + 2 ^ 24 * b3 +
                      2 ^ 32 * b4 + 2 ^ 40 * b5 + 2 ^ 48 * b6 + 2 ^ 56 * b7)))
    | _ => None
    end
  else None.

(** The instructions on numbers, by their operands. *)
Definition binary_opcodes : list Z :=
  [IL_OP_ADD; IL_OP_SUB; IL_OP_MUL; IL_OP_ADD_OVF; IL_OP_SUB_OVF; IL_OP_MUL_OVF;
   IL_OP_ADD_OVF_UN; IL_OP_SUB_OVF_UN; IL_OP_MUL_OVF_UN; IL_OP_DIV; IL_OP_DIV_UN;
   IL_OP_REM; IL_OP_REM_UN; IL_OP_AND; IL_OP_OR; IL_OP_XOR].
Definition shift_opcodes : list Z := [IL_OP_SHL; IL_OP_SHR; IL_OP_SHR_UN].
Definition unary_opcodes : list Z := [IL_OP_NEG; IL_OP_NOT].
Definition compare_opcodes : list Z :=
  [IL_OP_PREFIX + IL_PREFIX_OP_CEQ; IL_OP_PREFIX + IL_PREFIX_OP_CGT;
   IL_OP_PREFIX + IL_PREFIX_OP_CGT_UN; IL_OP_PREFIX + IL_PREFIX_OP_CLT;
   IL_OP_PREFIX + IL_PREFIX_OP_CLT_UN].
Definition listed (opcode : Z) (l : list Z) : bool := existsb (Z.eqb opcode) l.

(** The result in place of the operands. *)
Definition above_rest (rest : list value) (o : option il_out) : option il_out :=
  match o with Some (Values ws) => Some (Values (ws ++ rest)) | o => o end.

(** One instruction on the stack, its top first; [None] when the instruction
    is not an integer one or the operands do not have the types it takes. *)
Definition il_exec (opcode : Z) (arg : list Z) (vs : list value) : option il_out :=
  if listed opcode [IL_OP_NOP; IL_OP_BREAK] then Some (Values vs)
  else if listed opcode binary_opcodes then
    match vs with
    | v2 :: v1 :: rest => above_rest rest (il_binary opcode v1 v2)
    | _ => None
    end
  else if listed opcode shift_opcodes then
    match vs with
    | v2 :: v1 :: rest => above_rest rest (il_shift opcode v1 v2)
    | _ => None
    end
  else if listed opcode compare_opcodes then
    match vs with
    | v2 :: v1 :: rest =>
      b ← il_compare opcode v1 v2; Some (Values (VI4 (b2z b) :: rest))
    | _ => None
    end
  else if listed opcode unary_opcodes then
    match vs with
    | v :: rest => above_rest rest (il_unary opcode v)
    | _ => None
    end
  else if opcode =? IL_OP_DUP then
    match vs with v :: rest => Some (Values (v :: v :: rest)) | [] => None end
  else if opcode =? IL_OP_POP then
    match vs with v :: rest => Some (Values rest) | [] => None end
  else match il_const opcode arg with
  | Some v => Some (Values (v :: vs))
  | None =>
    match vs with
    | v :: rest => above_rest rest (il_conv opcode v)
    | [] => None
    end
  end.

End Spec.
