(* ===== verification/CvmProps.v ===== *)
(** * What the CVM instructions do to the stack (proofs about engine/cvm*.c)

    The words at the top of the CVM stack seen as integers of 32 or 64 bits
    ([cell]), and the judgement [performs bs pre r]: wherever the bytes [bs]
    lie in the code and the stack ends with the cells [pre], running them ends
    behind [bs] with the cells [post] in place of [pre] and everything under
    them untouched ([r = inr post]), or raises an exception ([r = inl e]).
    The rules for sequences and for cells left alone are followed by one
    result per group of instructions. *)
From Stdlib Require Import ZArith Lia.
From stdpp Require Import base list option numbers.
From S2P Require Import Prelude MulLong Opcodes Cvm CvmArith CvmConv CvmCompare CvmStack CvmVar CvmBranch Interp Coder ILSpec.

Local Open Scope Z_scope.

(** The results on the instructions, for [eauto]. *)
Create HintDb performs.

Section Cells.
Context {PF : Platform}.

(** ** Cells *)

Definition cell : Type := width * Z.

(** The words, top first, that hold the number [n]. *)
Definition cell_words (w : width) (n : Z) (ws : list Z) : Prop :=
  match w with
  | W32 => exists x, ws = [x] /\ i32 x = n
  | W64 =>
    if CVM_WORDS_PER_LONG =? 1 then exists x, ws = [x] /\ i64 x = n
    else exists hi lo, ws = [hi; lo] /\ i64 (u32 lo + Z.shiftl (u32 hi) 32) = n
  end.

Definition words_of (w : width) : Z := match w with W32 => 1 | W64 => CVM_WORDS_PER_LONG end.

Fixpoint holds (cs : list cell) (ws : list Z) : Prop :=
  match cs with
  | [] => ws = []
  | (w, n) :: cs => exists ws1 ws2, ws = ws1 ++ ws2 /\ cell_words w n ws1 /\ holds cs ws2
  end.

Definition cells_size (cs : list cell) : Z := foldr (fun c s => words_of (fst c) + s) 0 cs.

Lemma words_per_long_cases :
  CVM_WORDS_PER_LONG = 1 \/ CVM_WORDS_PER_LONG = 2 /\ IL_NATIVE_INT64 = false.
Proof.
  unfold CVM_WORDS_PER_LONG. destruct sizeof_CVMWord_ok as [[-> ?]|[->| ->]]; auto.
Qed.

Lemma native_words_per_long : IL_NATIVE_INT64 = true -> CVM_WORDS_PER_LONG = 1.
Proof. intros. destruct words_per_long_cases as [?|[? ?]]; congruence. Qed.

Lemma words_of_pos w : 1 <= words_of w <= 2.
Proof. destruct w; simpl; [lia|]. destruct words_per_long_cases as [->|[-> _]]; lia. Qed.

Lemma cells_size_app cs cs' : cells_size (cs ++ cs') = cells_size cs + cells_size cs'.
Proof. induction cs as [|[w n] cs IH]; simpl; [lia|]. fold (cells_size cs). rewrite IH. lia. Qed.

Lemma cell_words_length w n ws : cell_words w n ws -> Z.of_nat (length ws) = words_of w.
Proof.
  destruct w; simpl; [intros (x & -> & _); easy|].
  destruct words_per_long_cases as [->|[-> _]]; simpl.
  - by intros (x & -> & _).
  - by intros (hi & lo & -> & _).
Qed.

Lemma holds_length cs ws : holds cs ws -> Z.of_nat (length ws) = cells_size cs.
Proof.
  revert ws; induction cs as [|[w n] cs IH]; simpl; intros ws; [by intros ->|].
  intros (ws1 & ws2 & -> & H1 & H2). rewrite length_app, Nat2Z.inj_add.
  rewrite (cell_words_length _ _ _ H1), (IH _ H2). reflexivity.
Qed.

Lemma holds_app cs cs' ws :
  holds (cs ++ cs') ws <-> exists ws1 ws2, ws = ws1 ++ ws2 /\ holds cs ws1 /\ holds cs' ws2.
Proof.
  revert ws; induction cs as [|[w n] cs IH]; intros ws; simpl.
  - split; [intros H; by exists [], ws|]. by intros (ws1 & ws2 & -> & -> & H).
  - split.
    + intros (ws1 & ws2 & -> & H1 & (ws3 & ws4 & -> & H3 & H4)%IH).
      exists (ws1 ++ ws3), ws4. rewrite <-app_assoc. split; [done|]. split; [|done].
      by exists ws1, ws3.
    + intros (ws1 & ws2 & -> & (ws3 & ws4 & -> & H3 & H4) & H2).
      exists ws3, (ws4 ++ ws2). rewrite app_assoc. split; [done|]. split; [done|].
      apply IH. by exists ws4, ws2.
Qed.

Lemma holds_single w n ws : holds [(w, n)] ws <-> cell_words w n ws.
Proof.
  simpl. split.
  - intros (ws1 & ws2 & -> & H & ->). by rewrite app_nil_r.
  - intros H. exists ws, []. by rewrite app_nil_r.
Qed.

Lemma cell_words_wrap w n ws : cell_words w n ws -> wrap w n = n.
Proof.
  destruct w; simpl.
  - intros (x & _ & <-). width_lia.
  - destruct (CVM_WORDS_PER_LONG =? 1).
    + intros (x & _ & <-). width_lia.
    + intros (hi & lo & _ & <-). width_lia.
Qed.

Lemma wrap_uns w z : wrap w (uns w z) = wrap w z.
Proof. destruct w; simpl; width_lia. Qed.

Lemma uns_wrap w z : uns w (wrap w z) = uns w z.
Proof. destruct w; simpl; width_lia. Qed.

Lemma set_low_32 w v : i32 (set_low 32 w v) = i32 v.
Proof. unfold set_low. change (2 ^ 32) with 0x100000000. width_lia. Qed.

Lemma set_low_64 w v : i64 (set_low 64 w v) = i64 v.
Proof. unfold set_low. change (2 ^ 64) with 0x10000000000000000. width_lia. Qed.

Lemma split_words v : i64 (u32 (u32 v) + Z.shiftl (u32 (u32 (Z.shiftr v 32))) 32) = i64 v.
Proof.
  rewrite shiftr_div, shiftl_mul by lia. change (2 ^ 32) with 0x100000000. width_lia.
Qed.

(** ** Access to the cells at the top of the stack *)

(** The members of a cell, by width and signedness. *)
Definition read (w : width) (sgn : bool) (st : cvm) (k : Z) : option Z :=
  match w, sgn with
  | W32, true => intValue st k
  | W32, false => uintValue st k
  | W64, true => ReadLong st k
  | W64, false => ReadULong st k
  end.

Definition write (w : width) (st : cvm) (k v : Z) : option cvm :=
  match w with W32 => set_intValue st k v | W64 => WriteLong st k v end.

Definition as_read (w : width) (sgn : bool) (n : Z) : Z := if sgn then n else uns w n.

Lemma word_below p fr pre x l ab k :
  k = - (Z.of_nat (length pre) + 1) -> word (mk_cvm p fr (pre ++ x :: l) ab) k = Some x.
Proof.
  intros ->. unfold word. rewrite (proj2 (Z.ltb_lt _ _)) by lia. simpl.
  replace (Z.to_nat _) with (length pre) by lia. by rewrite list_lookup_middle.
Qed.

Lemma set_word_below p fr pre x l ab k y :
  k = - (Z.of_nat (length pre) + 1) ->
  set_word (mk_cvm p fr (pre ++ x :: l) ab) k y = Some (mk_cvm p fr (pre ++ y :: l) ab).
Proof.
  intros ->. unfold set_word. rewrite (proj2 (Z.ltb_lt _ _)) by lia. simpl.
  replace (Z.to_nat _) with (length pre) by lia. unfold list_store.
  rewrite (proj2 (Nat.ltb_lt _ _)) by (rewrite length_app; simpl; lia). simpl.
  replace (length pre) with (length pre + 0)%nat by lia. by rewrite insert_app_r.
Qed.

Lemma read_below w sgn n pre ws l p fr ab k :
  cell_words w n ws -> k = - (Z.of_nat (length pre) + words_of w) ->
  read w sgn (mk_cvm p fr (pre ++ ws ++ l) ab) k = Some (as_read w sgn n).
Proof.
  intros H ->. destruct w; simpl in H.
  - destruct H as (x & -> & <-). destruct sgn; simpl; unfold intValue, uintValue;
      rewrite word_below by (simpl; lia); simpl; [done|]. f_equal. width_lia.
  - assert (ReadULong (mk_cvm p fr (pre ++ ws ++ l) ab)
             (- (Z.of_nat (length pre) + CVM_WORDS_PER_LONG)) = Some (u64 n)) as E.
    { unfold ReadULong. simpl.
      destruct (CVM_WORDS_PER_LONG =? 1) eqn:E1; bool_to_prop.
      - rewrite E1. destruct H as (x & -> & <-). cbn [app]. rewrite word_below by lia. simpl. f_equal. width_lia.
      - destruct words_per_long_cases as [?|[-> _]]; [lia|].
        destruct H as (hi & lo & -> & <-).
        replace (pre ++ [hi; lo] ++ l) with ((pre ++ [hi]) ++ lo :: l) by (by rewrite <-app_assoc).
        rewrite (word_below _ _ (pre ++ [hi]) _ _ _ (- (Z.of_nat (length pre) + 2)))
          by (rewrite length_app; simpl; lia). simpl.
        rewrite <-app_assoc. simpl. rewrite word_below by lia. simpl. f_equal.
        rewrite shiftl_mul by lia. change (2 ^ 32) with 0x100000000. width_lia. }
    destruct sgn; cbn [read words_of]; unfold ReadLong; rewrite E; [|done]. simpl. f_equal.
    pose proof (cell_words_wrap W64 n ws H) as W. simpl in W. rewrite i64_u64. done.
Qed.

Lemma read_top w sgn n ws l p fr ab :
  cell_words w n ws ->
  read w sgn (mk_cvm p fr (ws ++ l) ab) (- words_of w) = Some (as_read w sgn n).
Proof. intros H. by apply (read_below w sgn n [] ws). Qed.

Lemma write_below w n v pre ws l p fr ab k :
  cell_words w n ws -> k = - (Z.of_nat (length pre) + words_of w) ->
  exists ws', cell_words w (wrap w v) ws' /\
    write w (mk_cvm p fr (pre ++ ws ++ l) ab) k v = Some (mk_cvm p fr (pre ++ ws' ++ l) ab).
Proof.
  intros H ->. destruct w; simpl in *.
  - destruct H as (x & -> & _). exists [set_low 32 x v]. split; [exists (set_low 32 x v); split; [done|apply set_low_32]|].
    simpl. unfold set_intValue. rewrite word_below by (simpl; lia). simpl.
    by rewrite set_word_below by (simpl; lia).
  - unfold WriteLong, WriteULong.
    destruct (CVM_WORDS_PER_LONG =? 1) eqn:E1; bool_to_prop.
    + rewrite E1. destruct H as (x & -> & _). exists [set_low 64 x v].
      split; [exists (set_low 64 x v); split; [done|apply set_low_64]|].
      simpl. rewrite word_below by lia. simpl. by rewrite set_word_below by lia.
    + destruct words_per_long_cases as [?|[-> _]]; [lia|].
      destruct H as (hi & lo & -> & _). exists [u32 (Z.shiftr v 32); u32 v].
      split; [exists (u32 (Z.shiftr v 32)), (u32 v); split; [done|apply split_words]|].
      replace (pre ++ [hi; lo] ++ l) with ((pre ++ [hi]) ++ lo :: l) by (by rewrite <-app_assoc).
      rewrite set_word_below by (rewrite length_app; simpl; lia). simpl.
      rewrite <-app_assoc. simpl. by rewrite set_word_below by lia.
Qed.

Lemma move_stack_below p fr pre l ab k :
  k = - Z.of_nat (length pre) ->
  move_stack (mk_cvm p fr (pre ++ l) ab) k = Some (mk_cvm p fr l (rev pre ++ ab)).
Proof.
  intros ->. unfold move_stack. simpl. destruct (Z.ltb_spec (- Z.of_nat (length pre)) 0).
  - rewrite Z.opp_involutive, Nat2Z.id.
    rewrite (proj2 (Nat.leb_le _ _)) by (rewrite length_app; lia).
    by rewrite drop_app_length, take_app_length.
  - destruct pre; simpl in *; [done|lia].
Qed.

Lemma move_stack_above p fr l news ab k :
  k = Z.of_nat (length news) ->
  move_stack (mk_cvm p fr l (news ++ ab)) k = Some (mk_cvm p fr (rev news ++ l) ab).
Proof.
  intros ->. unfold move_stack. simpl. rewrite (proj2 (Z.ltb_ge _ _)) by lia.
  rewrite Nat2Z.id, (proj2 (Nat.leb_le _ _)) by (rewrite length_app; lia).
  by rewrite drop_app_length, take_app_length.
Qed.

(** ** Running code *)

(** The bytes [bs] lie at [p]. *)
Definition code_at (c : list Z) (p : Z) (bs : list Z) : Prop :=
  exists c1 c2, c = c1 ++ bs ++ c2 /\ p = Z.of_nat (length c1).

Lemma code_at_app c p bs1 bs2 :
  code_at c p (bs1 ++ bs2) ->
  code_at c p bs1 /\ code_at c (p + Z.of_nat (length bs1)) bs2.
Proof.
  intros (c1 & c2 & -> & ->). split.
  - exists c1, (bs2 ++ c2). by rewrite <-app_assoc.
  - exists (c1 ++ bs1), c2. rewrite <-!app_assoc, length_app. split; [done|lia].
Qed.

Lemma pc_at_code c p bs i b :
  code_at c p bs -> bs !! i = Some b -> pc_at c p (Z.of_nat i) = Some b.
Proof.
  intros (c1 & c2 & -> & ->) Hi. unfold pc_at. rewrite (proj2 (Z.leb_le _ _)) by lia.
  replace (Z.to_nat _) with (length c1 + i)%nat by lia.
  rewrite lookup_app_r by lia. replace (_ + _ - _)%nat with i by lia.
  by apply lookup_app_l_Some.
Qed.

(** [bs] starts with the opcode (and prefix) of the handler [h]. *)
Definition dispatch (h : handler) (bs : list Z) : Prop :=
  forall c st, code_at c (pc st) bs -> step c st = h c st.

Lemma dispatch_main h op bs : main_handler op = Some h -> dispatch h (op :: bs).
Proof.
  intros Hh c st Hc. unfold step. rewrite (pc_at_code _ _ _ 0 op Hc eq_refl : pc_at c (pc st) 0 = Some op).
  cbn [mbind option_bind]. by rewrite Hh.
Qed.

Lemma dispatch_prefix h op bs :
  find_handler op prefix_table = Some h -> dispatch h (COP_PREFIX :: op :: bs).
Proof.
  intros Hh c st Hc. rewrite (dispatch_main prefix_handler COP_PREFIX _ eq_refl c st Hc).
  unfold prefix_handler, CVM_ARG_SUB_OPCODE.
  rewrite (pc_at_code _ _ _ 1 op Hc eq_refl : pc_at c (pc st) 1 = Some op).
  cbn [mbind option_bind]. by rewrite Hh.
Qed.

Lemma run_app n m c st st' : run n c st = Some (Next st') -> run (n + m) c st = run m c st'.
Proof.
  revert st; induction n as [|n IH]; simpl; intros st H; [by injection H as ->|].
  destruct (step c st) as [[st1|]|]; try done. by apply IH.
Qed.

Definition performs (bs : list Z) (pre : list cell) (r : exn + list cell) : Prop :=
  forall c st ws l,
    code_at c (pc st) bs -> below st = ws ++ l -> holds pre ws ->
    match r with
    | inr post =>
      cells_size post <= cells_size pre + Z.of_nat (length (above st)) ->
      exists n ws' ab',
        run n c st = Some (Next (mk_cvm (pc st + Z.of_nat (length bs)) (frame st) (ws' ++ l) ab')) /\
        holds post ws' /\ (length ws' + length ab' = length ws + length (above st))%nat
    | inl e => exists n st', run n c st = Some (Throw e st')
    end.

Lemma performs_nil pre : performs [] pre (inr pre).
Proof.
  intros c [p fr bl ab] ws l _ Hb Hw _. simpl in *. subst bl. exists 0%nat, ws, ab.
  split; [|done]. simpl. by rewrite Z.add_0_r.
Qed.

Definition result_size (pre : list cell) (r : exn + list cell) : Z :=
  match r with inr post => cells_size post | inl _ => cells_size pre end.

Lemma performs_seq bs1 bs2 pre mid r :
  performs bs1 pre (inr mid) -> performs bs2 mid r ->
  cells_size mid <= Z.max (cells_size pre) (result_size pre r) ->
  performs (bs1 ++ bs2) pre r.
Proof.
  intros H1 H2 Hs c st ws l [Hc1 Hc2]%code_at_app Hb Hw.
  specialize (H1 c st ws l Hc1 Hb Hw).
  assert (forall (Hroom : result_size pre r <= cells_size pre + Z.of_nat (length (above st))),
    exists n ws' ab',
      run n c st = Some (Next (mk_cvm (pc st + Z.of_nat (length bs1)) (frame st) (ws' ++ l) ab')) /\
      holds mid ws' /\ (length ws' + length ab' = length ws + length (above st))%nat) as Hmid.
  { intros. apply H1. pose proof (holds_length _ _ Hw). lia. }
  destruct r as [e|post]; simpl in *; [|intros Hroom].
  - destruct Hmid as (n & ws' & ab' & Hn & Hw' & Hl); [lia|].
    destruct (H2 c (mk_cvm (pc st + Z.of_nat (length bs1)) (frame st) (ws' ++ l) ab') ws' l Hc2 eq_refl Hw') as (m & st' & Hm).
    exists (n + m)%nat, st'. by rewrite (run_app _ _ _ _ _ Hn).
  - destruct Hmid as (n & ws' & ab' & Hn & Hw' & Hl); [lia|].
    destruct (H2 c (mk_cvm (pc st + Z.of_nat (length bs1)) (frame st) (ws' ++ l) ab') ws' l Hc2 eq_refl Hw') as (m & ws2 & ab2 & Hm & Hw2 & Hl2).
    { pose proof (holds_length _ _ Hw). pose proof (holds_length _ _ Hw'). simpl. lia. }
    simpl in *. exists (n + m)%nat, ws2, ab2. rewrite (run_app _ _ _ _ _ Hn), Hm.
    rewrite length_app, Nat2Z.inj_add, Z.add_assoc.
    split; [done|]. split; [done|lia].
Qed.

Lemma performs_raise bs1 bs2 pre e : performs bs1 pre (inl e) -> performs (bs1 ++ bs2) pre (inl e).
Proof. intros H1 c st ws l [Hc1 _]%code_at_app. by apply H1. Qed.

(** The cells below [pre] stay. *)
Definition on_rest (rest : list cell) (r : exn + list cell) : exn + list cell :=
  match r with inr post => inr (post ++ rest) | inl e => inl e end.

Lemma performs_frame bs pre rest r :
  performs bs pre r -> performs bs (pre ++ rest) (on_rest rest r).
Proof.
  intros H c st ws l Hc Hb (ws1 & ws2 & -> & Hw1 & Hw2)%holds_app.
  rewrite <-app_assoc in Hb. specialize (H c st ws1 (ws2 ++ l) Hc Hb Hw1).
  destruct r as [e|post]; simpl; [done|].
  rewrite !cells_size_app. intros Hroom.
  destruct H as (n & ws' & ab' & Hn & Hw' & Hl); [lia|].
  exists n, (ws' ++ ws2), ab'. rewrite <-app_assoc. split; [done|].
  split; [apply holds_app; by exists ws', ws2|]. rewrite !length_app. lia.
Qed.

(** ** One instruction *)

(** Two results of an instruction are the same up to the machine state that
    an exception leaves behind. *)
Definition same_result (o o' : option outcome) : Prop :=
  match o' with
  | Some (Throw e _) => exists st, o = Some (Throw e st)
  | _ => o = o'
  end.

Lemma performs_step h bs pre r :
  dispatch h bs ->
  (forall c p fr ws l ab,
    code_at c p bs -> holds pre ws ->
    match r with
    | inr post =>
      cells_size post <= cells_size pre + Z.of_nat (length ab) ->
      exists ws' ab',
        h c (mk_cvm p fr (ws ++ l) ab) =
          Some (Next (mk_cvm (p + Z.of_nat (length bs)) fr (ws' ++ l) ab')) /\
        holds post ws' /\ (length ws' + length ab' = length ws + length ab)%nat
    | inl e => exists st', h c (mk_cvm p fr (ws ++ l) ab) = Some (Throw e st')
    end) ->
  performs bs pre r.
Proof.
  intros Hd Hh c [p fr bl ab] ws l Hc Hb Hw. simpl in *. subst bl.
  specialize (Hh c p fr ws l ab Hc Hw).
  destruct r as [e|post]; [|intros Hroom].
  - destruct Hh as (st' & E). exists 1%nat, st'. simpl. rewrite (Hd c (mk_cvm p fr (ws ++ l) ab) Hc), E. done.
  - destruct (Hh Hroom) as (ws' & ab' & E & Hr). exists 1%nat, ws', ab'. split; [|done].
    simpl. rewrite (Hd c (mk_cvm p fr (ws ++ l) ab) Hc), E. done.
Qed.

(** An instruction on two operands: it leaves [v] in place of them, or raises. *)
Lemma performs_binary h bs w1 w2 a b (r : exn + Z) :
  dispatch h bs ->
  (forall c st,
    read w1 true st (- (words_of w1 + words_of w2)) = Some a ->
    read w2 true st (- words_of w2) = Some b ->
    wrap w1 a = a -> wrap w2 b = b ->
    same_result (h c st)
      match r with
      | inl e => Some (Throw e st)
      | inr v =>
        st ← write w1 st (- (words_of w1 + words_of w2)) v;
        MODIFY_PC_AND_STACK st (Z.of_nat (length bs)) (- words_of w2)
      end) ->
  performs bs [(w2, b); (w1, a)]
    match r with inr v => inr [(w1, wrap w1 v)] | inl e => inl e end.
Proof.
  intros Hd Hform. apply (performs_step h); [done|].
  intros c p fr ws l ab _ (wsb & ws2 & -> & Hb & (wsa & ws3 & -> & Ha & ->)).
  specialize (Hform c (mk_cvm p fr ((wsb ++ wsa ++ []) ++ l) ab)).
  rewrite app_nil_r in *. rewrite <-app_assoc in *.
  pose proof (cell_words_length _ _ _ Ha) as La. pose proof (cell_words_length _ _ _ Hb) as Lb.
  specialize (Hform (read_below w1 true a wsb wsa l p fr ab
    (- (words_of w1 + words_of w2)) Ha ltac:(lia))).
  specialize (Hform (read_top w2 true b wsb (wsa ++ l) p fr ab Hb)).
  specialize (Hform (cell_words_wrap _ _ _ Ha) (cell_words_wrap _ _ _ Hb)). revert Hform.
  destruct r as [e|v]; [done|].
  destruct (write_below w1 a v wsb wsa l p fr ab (- (words_of w1 + words_of w2)))
    as (ws' & Hw' & ->); [done|lia|]. simpl.
  unfold MODIFY_PC_AND_STACK. rewrite (move_stack_below p fr wsb) by lia. simpl. intros ->.
  intros _. exists ws', (rev wsb ++ ab). split; [done|]. split; [by apply holds_single|].
  pose proof (cell_words_length _ _ _ Hw'). rewrite !length_app, length_rev. lia.
Qed.

Lemma move_stack_0 st : move_stack st 0 = Some st.
Proof. by destruct st. Qed.

(** An instruction that replaces its operand, or raises. *)
Lemma performs_unary h bs w a (r : exn + Z) :
  dispatch h bs ->
  (forall c st,
    read w true st (- words_of w) = Some a -> wrap w a = a ->
    same_result (h c st)
      match r with
      | inl e => Some (Throw e st)
      | inr v =>
        st ← write w st (- words_of w) v;
        MODIFY_PC_AND_STACK st (Z.of_nat (length bs)) 0
      end) ->
  performs bs [(w, a)] match r with inr v => inr [(w, wrap w v)] | inl e => inl e end.
Proof.
  intros Hd Hform. apply (performs_step h); [done|].
  intros c p fr ws l ab _ Ha%holds_single.
  specialize (Hform c _ (read_top w true a ws l p fr ab Ha) (cell_words_wrap _ _ _ Ha)).
  revert Hform. destruct r as [e|v]; [done|].
  destruct (write_below w a v [] ws l p fr ab (- words_of w)) as (ws' & Hw' & E); [done|simpl; lia|].
  simpl in E. rewrite E. simpl. unfold MODIFY_PC_AND_STACK. rewrite move_stack_0. simpl. intros -> _.
  exists ws', ab. split; [done|]. split; [by apply holds_single|].
  pose proof (cell_words_length _ _ _ Hw'). pose proof (cell_words_length _ _ _ Ha). lia.
Qed.

(** An instruction that only tests its operand. *)
Lemma performs_test h bs w a (ok : bool) :
  dispatch h bs ->
  (forall c st,
    read w true st (- words_of w) = Some a -> wrap w a = a ->
    same_result (h c st)
      (if ok then MODIFY_PC_AND_STACK st (Z.of_nat (length bs)) 0
       else Some (Throw OverflowException st))) ->
  performs bs [(w, a)] (if ok then inr [(w, a)] else inl OverflowException).
Proof.
  intros Hd Hform. apply (performs_step h); [done|].
  intros c p fr ws l ab _ Ha. pose proof (proj1 (holds_single _ _ _) Ha) as Ha1.
  specialize (Hform c _ (read_top w true a ws l p fr ab Ha1) (cell_words_wrap _ _ _ Ha1)).
  revert Hform. unfold MODIFY_PC_AND_STACK. rewrite move_stack_0. simpl.
  destruct ok; [|done]. intros -> _. by exists ws, ab.
Qed.

(** ** Reads and writes through the other members *)

Lemma uintValue_intValue st k : uintValue st k = (a ← intValue st k; Some (u32 a)).
Proof.
  unfold uintValue, intValue. destruct (word st k); simpl; [|done]. by rewrite u32_i32.
Qed.

Lemma ReadULong_ReadLong st k : ReadULong st k = (a ← ReadLong st k; Some (u64 a)).
Proof.
  unfold ReadLong. destruct (ReadULong st k) as [v|] eqn:E; simpl; [|done]. f_equal.
  rewrite u64_i64. symmetry. apply u64_id. revert E. unfold ReadULong.
  destruct (CVM_WORDS_PER_LONG =? 1); [destruct (word st k)|];
    [intros [= <-]; apply u64_range|done|].
  destruct (word st k) as [lo|]; [|done]. destruct (word st (k + 1)) as [hi|]; [|done].
  simpl. intros [= <-]. rewrite shiftl_mul by lia. change (2 ^ 32) with 0x100000000. width_lia.
Qed.

Lemma write_ext w st k v v' : wrap w v = wrap w v' -> write w st k v = write w st k v'.
Proof.
  destruct w; simpl; intros E; unfold set_intValue, WriteLong, WriteULong.
  - destruct (word st k) as [x|]; simpl; [|done]. f_equal.
    unfold set_low. change (2 ^ 32) with 0x100000000. revert E. width_lia.
  - change (2 ^ 64) with 0x10000000000000000. destruct (CVM_WORDS_PER_LONG =? 1).
    + destruct (word st k) as [x|]; simpl; [|done]. unfold set_low.
      change (2 ^ 64) with 0x10000000000000000. f_equal. revert E. width_lia.
    + rewrite !shiftr_div by lia. change (2 ^ 32) with 0x100000000.
      replace (u32 v') with (u32 v) by (revert E; width_lia).
      replace (u32 (v' / 0x100000000)) with (u32 (v / 0x100000000)) by (revert E; width_lia).
      done.
Qed.

Lemma set_intValue_defined st k a v :
  intValue st k = Some a -> exists st', set_intValue st k v = Some st'.
Proof.
  unfold intValue, set_intValue. destruct (word st k) as [x|] eqn:E; simpl; [|done]. intros _.
  revert E. unfold word, set_word, list_store. destruct (k <? 0); intros E%lookup_lt_Some.
  all: rewrite (proj2 (Nat.ltb_lt _ _)) by lia; simpl; by eexists.
Qed.

(** ** Comparing an instruction with its form *)

Lemma words_double : CVM_WORDS_PER_LONG + CVM_WORDS_PER_LONG = CVM_WORDS_PER_LONG * 2.
Proof. lia. Qed.

Lemma same_result_refl o : same_result o o.
Proof. destruct o as [[|]|]; simpl; eauto. Qed.

Lemma same_result_throw e st st' : same_result (Some (Throw e st)) (Some (Throw e st')).
Proof. simpl. eauto. Qed.

Lemma same_result_write_throw st k a v (f : cvm -> option outcome) e st0 :
  intValue st k = Some a -> (forall st', f st' = Some (Throw e st')) ->
  same_result (st' ← set_intValue st k v; f st') (Some (Throw e st0)).
Proof. intros H Hf. destruct (set_intValue_defined st k a v H) as [st' ->]. simpl. rewrite Hf. eauto. Qed.

Lemma same_result_write w st k v v' (f : cvm -> option outcome) :
  wrap w v = wrap w v' ->
  same_result (st ← write w st k v; f st) (st ← write w st k v'; f st).
Proof. intros E. rewrite (write_ext w st k v v' E). apply same_result_refl. Qed.

(** The same for a write that a helper function reports as a success. *)
Lemma same_result_write_pair {A} w st k v v' (x : A) (g : cvm * A -> option outcome)
    (f : cvm -> option outcome) :
  wrap w v = wrap w v' -> (forall st', g (st', x) = f st') ->
  same_result ((st ← write w st k v; Some (st, x)) ≫= g) (st ← write w st k v'; f st).
Proof.
  intros E Hg. rewrite (write_ext w st k v v' E). destruct (write w st k v'); simpl; [|done].
  rewrite Hg. apply same_result_refl.
Qed.

End Cells.

Ltac unfold_handler h := lazymatch h with ?f _ => unfold_handler f | _ => unfold h end.

(** Put the accesses of an instruction and of its form side by side. *)
Ltac same_form h :=
  intros c st; cbn [read write words_of]; rewrite ?words_double;
  change (- (1 + 1)) with (-2); change (- (1)) with (-1);
  intros; unfold_handler h; unfold LMulOvf, LUMulOvf, LDiv, LUDiv, LRem, LURem,
    LShiftLeft, LShiftRight, LUShiftRight, LCmp, LUCmp, OVERFLOW_EXCEPTION, ARITHMETIC_EXCEPTION, ZERO_DIV_EXCEPTION, WriteLong;
  rewrite ?uintValue_intValue, ?ReadULong_ReadLong;
  repeat match goal with H : ?x = Some _ |- context [?x] => rewrite !H end;
  cbn [mbind option_bind].

Ltac same_write :=
  first [ apply same_result_refl
        | apply same_result_throw
        | apply (same_result_write W32); cbn [wrap]
        | apply (same_result_write W64); cbn [wrap]
        | apply (same_result_write_pair W64); [cbn [wrap]|done]
        | eapply same_result_write_throw; [eassumption|done] ].
