(* ===== verification/CvmOps.v ===== *)
(** * The integer instructions of the CVM compute what IL means by them

    Each instruction of cvm_arith.c, cvm_compare.c, cvm_conv.c and cvm_stack.c
    that the coder uses, against the width-indexed reference operators of
    ILSpec.v, in the judgement [performs] of CvmProps.v. *)
From Stdlib Require Import ZArith Lia.
From stdpp Require Import base list option numbers.
From S2P Require Import Prelude MulLong Opcodes Cvm CvmArith CvmConv CvmCompare CvmStack Interp Coder ILSpec CvmProps.

Local Open Scope Z_scope.

(** The exception that the standard and the documentation of the instructions
    name, and the one that the CVM throws: the 32-bit divisions report a zero
    divisor as an ArithmeticException. *)
Definition documented_exn (e : il_exn) : exn :=
  match e with
  | Overflow => OverflowException
  | Arithmetic => ArithmeticException
  | DivideByZero _ => DivideByZeroException
  end.

Definition cvm_exn (e : il_exn) : exn :=
  match e with
  | DivideByZero W32 => ArithmeticException
  | _ => documented_exn e
  end.

Section Ops.
Context {PF : Platform}.

Definition to_result (w : width) (r : il_exn + Z) : exn + list cell :=
  match r with inr z => inr [(w, z)] | inl e => inl (cvm_exn e) end.

(** ** Ranges *)

Lemma wrap_range w z : wrap w z = z <-> - 2 ^ (bits w - 1) <= z < 2 ^ (bits w - 1).
Proof. destruct w; simpl; unfold i32, i64; Z.div_mod_to_equations; lia. Qed.

Lemma wrap_wrap w z : wrap w (wrap w z) = wrap w z.
Proof. destruct w; simpl; width_lia. Qed.

(** A number is in the signed range when all its high bits are equal. *)
Lemma wrap_shiftr w z :
  wrap w z = z <-> Z.shiftr z (bits w - 1) = 0 \/ Z.shiftr z (bits w - 1) = -1.
Proof.
  rewrite wrap_range, shiftr_div by (destruct w; simpl; lia).
  assert (0 < 2 ^ (bits w - 1)) by (destruct w; simpl; lia).
  pose proof (Z.div_mod z (2 ^ (bits w - 1)) ltac:(lia)).
  pose proof (Z.mod_pos_bound z (2 ^ (bits w - 1)) ltac:(lia)).
  split; nia.
Qed.

Lemma wrap_bitwise w (f : Z -> Z -> Z) a b :
  (forall n, Z.shiftr (f a b) n = f (Z.shiftr a n) (Z.shiftr b n)) ->
  (forall x y, x = 0 \/ x = -1 -> y = 0 \/ y = -1 -> f x y = 0 \/ f x y = -1) ->
  wrap w a = a -> wrap w b = b -> wrap w (f a b) = f a b.
Proof. rewrite !wrap_shiftr. intros -> Hf Ha Hb. auto. Qed.

Lemma wrap_land w a b : wrap w a = a -> wrap w b = b -> wrap w (Z.land a b) = Z.land a b.
Proof.
  apply (wrap_bitwise w Z.land); [intros; apply Z.shiftr_land|].
  intros x y [-> | ->] [-> | ->]; vm_compute; auto.
Qed.

Lemma wrap_lor w a b : wrap w a = a -> wrap w b = b -> wrap w (Z.lor a b) = Z.lor a b.
Proof.
  apply (wrap_bitwise w Z.lor); [intros; apply Z.shiftr_lor|].
  intros x y [-> | ->] [-> | ->]; vm_compute; auto.
Qed.

Lemma wrap_lxor w a b : wrap w a = a -> wrap w b = b -> wrap w (Z.lxor a b) = Z.lxor a b.
Proof.
  apply (wrap_bitwise w Z.lxor); [intros; apply Z.shiftr_lxor|].
  intros x y [-> | ->] [-> | ->]; vm_compute; auto.
Qed.

Lemma wrap_rem w a b : b <> 0 -> wrap w a = a -> wrap w b = b -> wrap w (Z.rem a b) = Z.rem a b.
Proof.
  rewrite !wrap_range. intros Hb Ha Hb'. destruct (Z.le_gt_cases 0 a).
  - pose proof (Z.rem_bound_pos_pos (Z.abs b) a). 
    pose proof (Z.rem_abs_r a b ltac:(lia)). pose proof (Z.rem_bound_pos a (Z.abs b)). lia.
  - pose proof (Z.rem_abs_r a b ltac:(lia)). pose proof (Z.rem_opp_l a (Z.abs b) ltac:(lia)).
    pose proof (Z.rem_bound_pos (- a) (Z.abs b)). lia.
Qed.

Lemma checked_inr ok z v : checked ok z = inr v -> ok = true /\ v = z.
Proof. unfold checked. destruct ok; intros [= <-]; done. Qed.

(** The results of the reference operators are in range. *)
Lemma int_binary_range w opcode a b v :
  wrap w a = a -> wrap w b = b -> int_binary w opcode a b = Some (inr v) -> wrap w v = v.
Proof.
  intros Ha Hb. unfold int_binary.
  repeat match goal with
  | |- context [if opcode =? ?o then _ else _] => destruct (opcode =? o)
  end; intros [= E];
    repeat match type of E with
    | (if ?x =? 0 then _ else _) = _ => destruct (Z.eqb_spec x 0); try discriminate E
    | (if ?x then _ else _) = _ => destruct x eqn:?; try discriminate E
    | checked _ _ = _ => apply checked_inr in E as [? ->]
    | inr _ = inr _ => injection E as <-
    end; unfold in_signed in *; bool_to_prop; subst;
    auto using wrap_wrap, wrap_land, wrap_lor, wrap_lxor, wrap_rem.
Qed.

(** ** Arithmetic *)

Lemma performs_wf bs pre r :
  (Forall (fun c => wrap (fst c) (snd c) = snd c) pre -> performs bs pre r) -> performs bs pre r.
Proof.
  intros H c st ws l Hc Hb Hw. apply H; try done. clear -Hw. revert ws Hw.
  induction pre as [|[w n] pre IH]; simpl; intros ws H; [done|].
  destruct H as (ws1 & ws2 & -> & H1 & H2). apply Forall_cons_2; [|by eapply IH].
  by eapply cell_words_wrap.
Qed.

Lemma performs_il_binary h op w opcode a b r :
  dispatch h [op] -> int_binary w opcode a b = Some r ->
  (forall c st,
    read w true st (- (words_of w + words_of w)) = Some a ->
    read w true st (- words_of w) = Some b ->
    wrap w a = a -> wrap w b = b ->
    same_result (h c st)
      match r with
      | inl e => Some (Throw (cvm_exn e) st)
      | inr v =>
        st ← write w st (- (words_of w + words_of w)) v;
        MODIFY_PC_AND_STACK st 1 (- words_of w)
      end) ->
  performs [op] [(w, b); (w, a)] (to_result w r).
Proof.
  intros Hd Hr Hform. apply performs_wf. intros Hwf. inversion Hwf as [|? ? Hb Hwf']; subst. inversion Hwf' as [|? ? Ha _]; subst.
  simpl in Ha, Hb.
  pose proof (performs_binary h [op] w w a b
    (match r with inl e => inl (cvm_exn e) | inr v => inr v end) Hd) as H.
  destruct r as [e|v]; [by apply H|].
  pose proof (int_binary_range _ _ _ _ _ Ha Hb Hr) as Hv. rewrite Hv in H. by apply H.
Qed.

Ltac il_binary h opcode :=
  intros Hr; eapply (performs_il_binary h _ _ opcode _ _ _); [by apply dispatch_main|exact Hr|];
  injection Hr as <-; same_form h.

(** The overflow tests on ints return the wrapped result and whether it is exact. *)
Lemma IAddOvf_exact a b : i32 a = a -> i32 b = b -> IAddOvf a b = (i32 (a + b), i32 (a + b) =? a + b).
Proof. unfold IAddOvf. intros Ha Hb. repeat case_cmp; simpl; f_equal; revert Ha Hb; width_lia. Qed.

Lemma ISubOvf_exact a b : i32 a = a -> i32 b = b -> ISubOvf a b = (i32 (a - b), i32 (a - b) =? a - b).
Proof. unfold ISubOvf. intros Ha Hb. repeat case_cmp; simpl; f_equal; revert Ha Hb; width_lia. Qed.

Lemma IUAddOvf_exact a b : u32 a = a -> u32 b = b -> IUAddOvf a b = (u32 (a + b), u32 (a + b) =? a + b).
Proof. unfold IUAddOvf. intros Ha Hb. f_equal. repeat case_cmp; revert Ha Hb; width_lia. Qed.

Lemma IUSubOvf_exact a b : u32 a = a -> u32 b = b -> IUSubOvf a b = (u32 (a - b), u32 (a - b) =? a - b).
Proof. unfold IUSubOvf. intros Ha Hb. f_equal. repeat case_cmp; revert Ha Hb; width_lia. Qed.

Lemma IMulOvf_exact a b :
  i32 a = a -> i32 b = b -> IMulOvf a b = if i32 (a * b) =? a * b then Some (a * b) else None.
Proof.
  unfold IMulOvf. intros Ha Hb.
  assert (-0x4000000000000000 <= a * b <= 0x4000000000000000) as R
    by (apply (wrap_range W32) in Ha, Hb; simpl in Ha, Hb; nia).
  rewrite i64_id by (revert R; width_lia). generalize dependent (a * b). intros.
  repeat case_cmp; simpl; try done; first [ f_equal; width_lia | exfalso; width_lia ].
Qed.

Lemma IUMulOvf_exact a b :
  u32 a = a -> u32 b = b -> IUMulOvf a b = if u32 (a * b) =? a * b then Some (a * b) else None.
Proof.
  unfold IUMulOvf. intros Ha Hb.
  assert (0 <= a * b <= 0xFFFFFFFE00000001) as R.
  { pose proof (u32_range a). pose proof (u32_range b). rewrite Ha, Hb in *.
    unfold IL_MAX_UINT32 in *. nia. }
  rewrite u64_id by (revert R; width_lia). generalize dependent (a * b). intros.
  repeat case_cmp; simpl; try done; first [ f_equal; width_lia | exfalso; width_lia ].
Qed.

Lemma u32_u32 z : u32 (u32 z) = u32 z.
Proof. width_lia. Qed.

Lemma u64_u64 z : u64 (u64 z) = u64 z.
Proof. width_lia. Qed.

Lemma performs_IADD a b r :
  int_binary W32 IL_OP_ADD a b = Some r ->
  performs [COP_IADD] [(W32, b); (W32, a)] (to_result W32 r).
Proof.
  il_binary exec_IADD IL_OP_ADD. same_write. width_lia.
Qed.

Lemma performs_IADD_OVF a b r :
  int_binary W32 IL_OP_ADD_OVF a b = Some r ->
  performs [COP_IADD_OVF] [(W32, b); (W32, a)] (to_result W32 r).
Proof.
  il_binary exec_IADD_OVF IL_OP_ADD_OVF.
  rewrite IAddOvf_exact by done. unfold checked, in_signed. cbn [wrap].
  destruct (_ =? _); same_write; width_lia.
Qed.

Lemma performs_IADD_OVF_UN a b r :
  int_binary W32 IL_OP_ADD_OVF_UN a b = Some r ->
  performs [COP_IADD_OVF_UN] [(W32, b); (W32, a)] (to_result W32 r).
Proof.
  il_binary exec_IADD_OVF_UN IL_OP_ADD_OVF_UN.
  rewrite IUAddOvf_exact by apply u32_u32. unfold checked, in_unsigned. cbn [uns].
  destruct (_ =? _); same_write; width_lia.
Qed.

Lemma performs_ISUB a b r :
  int_binary W32 IL_OP_SUB a b = Some r ->
  performs [COP_ISUB] [(W32, b); (W32, a)] (to_result W32 r).
Proof.
  il_binary exec_ISUB IL_OP_SUB. same_write. width_lia.
Qed.

Lemma performs_ISUB_OVF a b r :
  int_binary W32 IL_OP_SUB_OVF a b = Some r ->
  performs [COP_ISUB_OVF] [(W32, b); (W32, a)] (to_result W32 r).
Proof.
  il_binary exec_ISUB_OVF IL_OP_SUB_OVF.
  rewrite ISubOvf_exact by done. unfold checked, in_signed. cbn [wrap].
  destruct (_ =? _); same_write; width_lia.
Qed.

Lemma performs_ISUB_OVF_UN a b r :
  int_binary W32 IL_OP_SUB_OVF_UN a b = Some r ->
  performs [COP_ISUB_OVF_UN] [(W32, b); (W32, a)] (to_result W32 r).
Proof.
  il_binary exec_ISUB_OVF_UN IL_OP_SUB_OVF_UN.
  rewrite IUSubOvf_exact by apply u32_u32. unfold checked, in_unsigned. cbn [uns].
  destruct (_ =? _); same_write; width_lia.
Qed.

Lemma performs_IMUL a b r :
  int_binary W32 IL_OP_MUL a b = Some r ->
  performs [COP_IMUL] [(W32, b); (W32, a)] (to_result W32 r).
Proof.
  il_binary exec_IMUL IL_OP_MUL. same_write. width_lia.
Qed.

Lemma performs_IMUL_OVF a b r :
  int_binary W32 IL_OP_MUL_OVF a b = Some r ->
  performs [COP_IMUL_OVF] [(W32, b); (W32, a)] (to_result W32 r).
Proof.
  il_binary exec_IMUL_OVF IL_OP_MUL_OVF.
  rewrite IMulOvf_exact by done. unfold checked, in_signed. cbn [wrap].
  destruct (_ =? _); same_write.
Qed.

Lemma performs_IMUL_OVF_UN a b r :
  int_binary W32 IL_OP_MUL_OVF_UN a b = Some r ->
  performs [COP_IMUL_OVF_UN] [(W32, b); (W32, a)] (to_result W32 r).
Proof.
  il_binary exec_IMUL_OVF_UN IL_OP_MUL_OVF_UN.
  rewrite IUMulOvf_exact by apply u32_u32. unfold checked, in_unsigned. cbn [uns].
  destruct (_ =? _); same_write; width_lia.
Qed.

Lemma performs_IAND a b r :
  int_binary W32 IL_OP_AND a b = Some r ->
  performs [COP_IAND] [(W32, b); (W32, a)] (to_result W32 r).
Proof.
  il_binary exec_IAND IL_OP_AND. same_write.
Qed.

Lemma performs_IOR a b r :
  int_binary W32 IL_OP_OR a b = Some r ->
  performs [COP_IOR] [(W32, b); (W32, a)] (to_result W32 r).
Proof.
  il_binary exec_IOR IL_OP_OR. same_write.
Qed.

Lemma performs_IXOR a b r :
  int_binary W32 IL_OP_XOR a b = Some r ->
  performs [COP_IXOR] [(W32, b); (W32, a)] (to_result W32 r).
Proof.
  il_binary exec_IXOR IL_OP_XOR. same_write.
Qed.

(** The overflow tests on longs, given the two operands. *)
Ltac long_cases :=
  repeat (case_cmp; cbn [andb]); try reflexivity; first [ f_equal; width_lia | exfalso; width_lia ].

Definition long_ovf (st : cvm) (k : Z) (ok : bool) (v : Z) : option (cvm * bool) :=
  if ok then st ← WriteLong st k v; Some (st, true) else Some (st, false).

Lemma LAddOvf_exact st ka kb a b :
  ReadLong st ka = Some a -> ReadLong st kb = Some b -> i64 a = a -> i64 b = b ->
  LAddOvf st ka kb = long_ovf st ka (i64 (a + b) =? a + b) (i64 (a + b)).
Proof.
  intros Ha Hb Wa Wb. unfold LAddOvf, long_ovf. rewrite Ha, Hb. cbn [mbind option_bind]. long_cases.
Qed.

Lemma LSubOvf_exact st ka kb a b :
  ReadLong st ka = Some a -> ReadLong st kb = Some b -> i64 a = a -> i64 b = b ->
  LSubOvf st ka kb = long_ovf st ka (i64 (a - b) =? a - b) (i64 (a - b)).
Proof.
  intros Ha Hb Wa Wb. unfold LSubOvf, long_ovf. rewrite Ha, Hb. cbn [mbind option_bind]. long_cases.
Qed.

Lemma LUAddOvf_exact st ka kb a b :
  ReadLong st ka = Some a -> ReadLong st kb = Some b ->
  LUAddOvf st ka kb =
    long_ovf st ka (u64 (u64 a + u64 b) =? u64 a + u64 b) (u64 (u64 a + u64 b)).
Proof.
  intros Ha Hb. unfold LUAddOvf, long_ovf. rewrite !ReadULong_ReadLong, Ha, Hb.
  cbn [mbind option_bind]. pose proof (u64_range a). pose proof (u64_range b).
  generalize dependent (u64 a). generalize dependent (u64 b). intros. long_cases.
Qed.

Lemma LUSubOvf_exact st ka kb a b :
  ReadLong st ka = Some a -> ReadLong st kb = Some b ->
  LUSubOvf st ka kb =
    long_ovf st ka (u64 (u64 a - u64 b) =? u64 a - u64 b) (u64 (u64 a - u64 b)).
Proof.
  intros Ha Hb. unfold LUSubOvf, long_ovf. rewrite !ReadULong_ReadLong, Ha, Hb.
  cbn [mbind option_bind]. pose proof (u64_range a). pose proof (u64_range b).
  generalize dependent (u64 a). generalize dependent (u64 b). intros. long_cases.
Qed.

Lemma LMulOvf_exact a b :
  i64 a = a -> i64 b = b ->
  ILInt64MulOvf a b = if i64 (a * b) =? a * b then Some (a * b) else None.
Proof.
  intros Ha Hb. rewrite mul_ovf_signed by (revert Ha Hb; width_lia).
  generalize (a * b). intros. repeat (case_cmp; cbn [andb]); try done; exfalso; width_lia.
Qed.

Lemma LUMulOvf_exact a b :
  ILUInt64MulOvf (u64 a) (u64 b) =
    if u64 (u64 a * u64 b) =? u64 a * u64 b then Some (u64 a * u64 b) else None.
Proof.
  pose proof (u64_range a). pose proof (u64_range b).
  rewrite mul_ovf_unsigned by done. assert (0 <= u64 a * u64 b) as R by nia.
  generalize dependent (u64 a * u64 b). intros. repeat case_cmp; try done; exfalso; width_lia.
Qed.

Lemma performs_LADD a b r :
  int_binary W64 IL_OP_ADD a b = Some r ->
  performs [COP_LADD] [(W64, b); (W64, a)] (to_result W64 r).
Proof.
  il_binary exec_LADD IL_OP_ADD. same_write. width_lia.
Qed.

Lemma performs_LADD_OVF a b r :
  int_binary W64 IL_OP_ADD_OVF a b = Some r ->
  performs [COP_LADD_OVF] [(W64, b); (W64, a)] (to_result W64 r).
Proof.
  il_binary exec_LADD_OVF IL_OP_ADD_OVF.
  erewrite LAddOvf_exact by eassumption. unfold long_ovf, checked, in_signed. cbn [wrap].
  destruct (_ =? _); same_write; width_lia.
Qed.

Lemma performs_LADD_OVF_UN a b r :
  int_binary W64 IL_OP_ADD_OVF_UN a b = Some r ->
  performs [COP_LADD_OVF_UN] [(W64, b); (W64, a)] (to_result W64 r).
Proof.
  il_binary exec_LADD_OVF_UN IL_OP_ADD_OVF_UN.
  erewrite LUAddOvf_exact by eassumption. unfold long_ovf, checked, in_unsigned. cbn [uns].
  destruct (_ =? _); same_write; width_lia.
Qed.

Lemma performs_LSUB a b r :
  int_binary W64 IL_OP_SUB a b = Some r ->
  performs [COP_LSUB] [(W64, b); (W64, a)] (to_result W64 r).
Proof.
  il_binary exec_LSUB IL_OP_SUB. same_write. width_lia.
Qed.

Lemma performs_LSUB_OVF a b r :
  int_binary W64 IL_OP_SUB_OVF a b = Some r ->
  performs [COP_LSUB_OVF] [(W64, b); (W64, a)] (to_result W64 r).
Proof.
  il_binary exec_LSUB_OVF IL_OP_SUB_OVF.
  erewrite LSubOvf_exact by eassumption. unfold long_ovf, checked, in_signed. cbn [wrap].
  destruct (_ =? _); same_write; width_lia.
Qed.

Lemma performs_LSUB_OVF_UN a b r :
  int_binary W64 IL_OP_SUB_OVF_UN a b = Some r ->
  performs [COP_LSUB_OVF_UN] [(W64, b); (W64, a)] (to_result W64 r).
Proof.
  il_binary exec_LSUB_OVF_UN IL_OP_SUB_OVF_UN.
  erewrite LUSubOvf_exact by eassumption. unfold long_ovf, checked, in_unsigned. cbn [uns].
  destruct (_ =? _); same_write; width_lia.
Qed.

Lemma performs_LMUL a b r :
  int_binary W64 IL_OP_MUL a b = Some r ->
  performs [COP_LMUL] [(W64, b); (W64, a)] (to_result W64 r).
Proof.
  il_binary exec_LMUL IL_OP_MUL. same_write. width_lia.
Qed.

Lemma performs_LMUL_OVF a b r :
  int_binary W64 IL_OP_MUL_OVF a b = Some r ->
  performs [COP_LMUL_OVF] [(W64, b); (W64, a)] (to_result W64 r).
Proof.
  il_binary exec_LMUL_OVF IL_OP_MUL_OVF.
  rewrite LMulOvf_exact by done. unfold checked, in_signed. cbn [wrap].
  destruct (_ =? _); same_write; done.
Qed.

Lemma performs_LMUL_OVF_UN a b r :
  int_binary W64 IL_OP_MUL_OVF_UN a b = Some r ->
  performs [COP_LMUL_OVF_UN] [(W64, b); (W64, a)] (to_result W64 r).
Proof.
  il_binary exec_LMUL_OVF_UN IL_OP_MUL_OVF_UN.
  rewrite LUMulOvf_exact. unfold checked, in_unsigned. cbn [uns].
  destruct (_ =? _); same_write; width_lia.
Qed.

Lemma performs_LAND a b r :
  int_binary W64 IL_OP_AND a b = Some r ->
  performs [COP_LAND] [(W64, b); (W64, a)] (to_result W64 r).
Proof.
  il_binary exec_LAND IL_OP_AND. same_write.
Qed.

Lemma performs_LOR a b r :
  int_binary W64 IL_OP_OR a b = Some r ->
  performs [COP_LOR] [(W64, b); (W64, a)] (to_result W64 r).
Proof.
  il_binary exec_LOR IL_OP_OR. same_write.
Qed.

Lemma performs_LXOR a b r :
  int_binary W64 IL_OP_XOR a b = Some r ->
  performs [COP_LXOR] [(W64, b); (W64, a)] (to_result W64 r).
Proof.
  il_binary exec_LXOR IL_OP_XOR. same_write.
Qed.

(** A quotient is out of range only for the least number divided by -1. *)
Lemma quot_in_signed w a b :
  b <> 0 -> wrap w a = a -> wrap w b = b ->
  in_signed w (Z.quot a b) = negb (b =? -1) || negb (a =? - 2 ^ (bits w - 1)).
Proof.
  intros Hb Ha%wrap_range _. unfold in_signed. apply eq_true_iff_eq.
  rewrite Z.eqb_eq, wrap_range, orb_true_iff, !negb_true_iff, !Z.eqb_neq.
  assert (0 < 2 ^ (bits w - 1)) as Hp by (destruct w; simpl; lia).
  generalize dependent (2 ^ (bits w - 1)). intros m Hm Hp.
  destruct (Z.eq_dec b (-1)) as [->|Hb1].
  - change (-1) with (- (1)). rewrite Z.quot_opp_r, Z.quot_1_r by lia. lia.
  - split; [lia|]. intros _. destruct (Z.eq_dec b 1) as [->|]; [rewrite Z.quot_1_r; lia|].
    assert (Z.abs (Z.quot a b) * 2 <= Z.abs a); [|lia].
    rewrite <-Z.quot_abs, Z.quot_div_nonneg by lia.
    pose proof (Z.mul_div_le (Z.abs a) (Z.abs b) ltac:(lia)).
    pose proof (Z.div_pos (Z.abs a) (Z.abs b) ltac:(lia) ltac:(lia)). nia.
Qed.

Lemma uns_0 w b : wrap w b = b -> (uns w b =? 0) = (b =? 0).
Proof. intros H. repeat case_cmp; try done; revert H; destruct w; simpl in *; width_lia. Qed.

Lemma performs_IDIV a b r :
  int_binary W32 IL_OP_DIV a b = Some r ->
  performs [COP_IDIV] [(W32, b); (W32, a)] (to_result W32 r).
Proof.
  il_binary exec_IDIV IL_OP_DIV.
  destruct (Z.eqb_spec b 0); cbn [negb]; [same_write|]. rewrite quot_in_signed by done.
  change (- 2 ^ (bits W32 - 1)) with IL_MIN_INT32. destruct (_ || _); same_write.
Qed.

Lemma performs_IREM a b r :
  int_binary W32 IL_OP_REM a b = Some r ->
  performs [COP_IREM] [(W32, b); (W32, a)] (to_result W32 r).
Proof.
  il_binary exec_IREM IL_OP_REM.
  destruct (Z.eqb_spec b 0); cbn [negb]; [same_write|]. rewrite quot_in_signed by done.
  change (- 2 ^ (bits W32 - 1)) with IL_MIN_INT32. destruct (_ || _); same_write.
Qed.

Lemma performs_LDIV a b r :
  int_binary W64 IL_OP_DIV a b = Some r ->
  performs [COP_LDIV] [(W64, b); (W64, a)] (to_result W64 r).
Proof.
  il_binary exec_LDIV IL_OP_DIV.
  destruct (Z.eqb_spec b 0); [same_write|]. rewrite quot_in_signed, <-negb_andb by done.
  change (- 2 ^ (bits W64 - 1)) with IL_MIN_INT64. destruct (_ && _); same_write; done.
Qed.

Lemma performs_LREM a b r :
  int_binary W64 IL_OP_REM a b = Some r ->
  performs [COP_LREM] [(W64, b); (W64, a)] (to_result W64 r).
Proof.
  il_binary exec_LREM IL_OP_REM.
  destruct (Z.eqb_spec b 0); [same_write|]. rewrite quot_in_signed, <-negb_andb by done.
  change (- 2 ^ (bits W64 - 1)) with IL_MIN_INT64. destruct (_ && _); same_write; done.
Qed.

Lemma performs_IDIV_UN a b r :
  int_binary W32 IL_OP_DIV_UN a b = Some r ->
  performs [COP_IDIV_UN] [(W32, b); (W32, a)] (to_result W32 r).
Proof.
  il_binary exec_IDIV_UN IL_OP_DIV_UN.
  change u32 with (uns W32). rewrite uns_0 by done.
  destruct (b =? 0); cbn [negb]; same_write. exact (eq_sym (wrap_wrap W32 _)).
Qed.

Lemma performs_LDIV_UN a b r :
  int_binary W64 IL_OP_DIV_UN a b = Some r ->
  performs [COP_LDIV_UN] [(W64, b); (W64, a)] (to_result W64 r).
Proof.
  il_binary exec_LDIV_UN IL_OP_DIV_UN.
  change u64 with (uns W64). rewrite uns_0 by done.
  destruct (b =? 0); same_write. exact (eq_sym (wrap_wrap W64 _)).
Qed.

Lemma performs_IREM_UN a b r :
  int_binary W32 IL_OP_REM_UN a b = Some r ->
  performs [COP_IREM_UN] [(W32, b); (W32, a)] (to_result W32 r).
Proof.
  il_binary exec_IREM_UN IL_OP_REM_UN.
  change u32 with (uns W32). rewrite uns_0 by done.
  destruct (b =? 0); cbn [negb]; same_write. exact (eq_sym (wrap_wrap W32 _)).
Qed.

Lemma performs_LREM_UN a b r :
  int_binary W64 IL_OP_REM_UN a b = Some r ->
  performs [COP_LREM_UN] [(W64, b); (W64, a)] (to_result W64 r).
Proof.
  il_binary exec_LREM_UN IL_OP_REM_UN.
  change u64 with (uns W64). rewrite uns_0 by done.
  destruct (b =? 0); same_write. exact (eq_sym (wrap_wrap W64 _)).
Qed.

(** ** Negation, complement and shifts *)

Lemma performs_INEG a : performs [COP_INEG] [(W32, a)] (inr [(W32, i32 (- a))]).
Proof.
  apply (performs_unary exec_INEG [COP_INEG] W32 a (inr (- a))); [by apply dispatch_main|].
  same_form exec_INEG. same_write.
Qed.

Lemma performs_LNEG a : performs [COP_LNEG] [(W64, a)] (inr [(W64, i64 (- a))]).
Proof.
  apply (performs_unary exec_LNEG [COP_LNEG] W64 a (inr (- a))); [by apply dispatch_main|].
  same_form exec_LNEG. same_write.
Qed.

Lemma lnot_sub a : Z.lnot a = - a - 1.
Proof. unfold Z.lnot. lia. Qed.

Lemma performs_INOT a : performs [COP_INOT] [(W32, a)] (inr [(W32, i32 (- a - 1))]).
Proof.
  apply (performs_unary exec_INOT [COP_INOT] W32 a (inr (- a - 1))); [by apply dispatch_main|].
  same_form exec_INOT. rewrite lnot_sub. same_write.
Qed.

Lemma performs_LNOT a : performs [COP_LNOT] [(W64, a)] (inr [(W64, i64 (- a - 1))]).
Proof.
  apply (performs_unary exec_LNOT [COP_LNOT] W64 a (inr (- a - 1))); [by apply dispatch_main|].
  same_form exec_LNOT. rewrite lnot_sub. same_write.
Qed.

Lemma shift_31 n : Z.land (u32 n) 0x1F = n mod 32.
Proof. rewrite land_1F. width_lia. Qed.

Lemma shift_63 n : Z.land (u32 n) 0x3F = n mod 64.
Proof. rewrite land_3F. width_lia. Qed.

(** A shift instruction, from the operation on the value it reads. *)
Lemma performs_il_shift h op w opcode a n r :
  dispatch h [op] -> int_shift w opcode a n = Some r -> wrap w r = r ->
  (forall c st,
    read w true st (- (words_of w + words_of W32)) = Some a ->
    read W32 true st (- words_of W32) = Some n ->
    wrap w a = a -> wrap W32 n = n ->
    same_result (h c st)
      (st ← write w st (- (words_of w + words_of W32)) r;
       MODIFY_PC_AND_STACK st 1 (- words_of W32))) ->
  performs [op] [(W32, n); (w, a)] (inr [(w, r)]).
Proof.
  intros Hd _ Hr Hform. pose proof (performs_binary h [op] w W32 a n (inr r) Hd Hform) as H.
  simpl in H. by rewrite Hr in H.
Qed.

Lemma count_nonneg n m : 0 < m -> 0 <= n mod m.
Proof. intros. apply Z.mod_pos_bound. lia. Qed.

Ltac il_shift h opcode w a n :=
  intros Hr; pose proof Hr as Hr'; injection Hr' as <-;
  eapply (performs_il_shift h _ w opcode a n); [by apply dispatch_main|exact Hr|cbn [wrap]|same_form h];
  cbn [bits wrap uns].

Lemma wrap_div_pow2 w a k : 0 <= k -> wrap w a = a -> wrap w (a / 2 ^ k) = a / 2 ^ k.
Proof.
  intros Hk. rewrite !wrap_range.
  assert (0 < 2 ^ (bits w - 1)) by (destruct w; simpl; lia).
  assert (0 < 2 ^ k) by lia. intros Ha.
  pose proof (Z.div_mod a (2 ^ k) ltac:(lia)). pose proof (Z.mod_pos_bound a (2 ^ k) ltac:(lia)).
  split; nia.
Qed.

Lemma performs_ISHL a n r :
  int_shift W32 IL_OP_SHL a n = Some r ->
  performs [COP_ISHL] [(W32, n); (W32, a)] (inr [(W32, r)]).
Proof.
  il_shift exec_ISHL IL_OP_SHL W32 a n; [apply (wrap_wrap W32)|].
  rewrite shift_31, shiftl_mul by (apply count_nonneg; lia). same_write.
  exact (eq_sym (wrap_wrap W32 _)).
Qed.

Lemma performs_ISHR a n r :
  wrap W32 a = a -> int_shift W32 IL_OP_SHR a n = Some r ->
  performs [COP_ISHR] [(W32, n); (W32, a)] (inr [(W32, r)]).
Proof.
  intros Ha. il_shift exec_ISHR IL_OP_SHR W32 a n;
    [by apply (wrap_div_pow2 W32); [apply count_nonneg|]|].
  rewrite shift_31, shiftr_div by (apply count_nonneg; lia). same_write.
Qed.

Lemma performs_ISHR_UN a n r :
  int_shift W32 IL_OP_SHR_UN a n = Some r ->
  performs [COP_ISHR_UN] [(W32, n); (W32, a)] (inr [(W32, r)]).
Proof.
  il_shift exec_ISHR_UN IL_OP_SHR_UN W32 a n; [apply (wrap_wrap W32)|].
  rewrite shift_31, shiftr_div by (apply count_nonneg; lia). same_write.
  exact (eq_sym (wrap_wrap W32 _)).
Qed.

Lemma performs_LSHL a n r :
  int_shift W64 IL_OP_SHL a n = Some r ->
  performs [COP_LSHL] [(W32, n); (W64, a)] (inr [(W64, r)]).
Proof.
  il_shift exec_LSHL IL_OP_SHL W64 a n; [apply (wrap_wrap W64)|].
  rewrite shift_63, shiftl_mul by (apply count_nonneg; lia). same_write.
  exact (eq_sym (wrap_wrap W64 _)).
Qed.

Lemma performs_LSHR a n r :
  wrap W64 a = a -> int_shift W64 IL_OP_SHR a n = Some r ->
  performs [COP_LSHR] [(W32, n); (W64, a)] (inr [(W64, r)]).
Proof.
  intros Ha. il_shift exec_LSHR IL_OP_SHR W64 a n;
    [by apply (wrap_div_pow2 W64); [apply count_nonneg|]|].
  rewrite shift_63, shiftr_div by (apply count_nonneg; lia). same_write.
Qed.

Lemma performs_LSHR_UN a n r :
  int_shift W64 IL_OP_SHR_UN a n = Some r ->
  performs [COP_LSHR_UN] [(W32, n); (W64, a)] (inr [(W64, r)]).
Proof.
  il_shift exec_LSHR_UN IL_OP_SHR_UN W64 a n; [apply (wrap_wrap W64)|].
  rewrite shift_63, shiftr_div by (apply count_nonneg; lia). same_write.
  exact (eq_sym (wrap_wrap W64 _)).
Qed.

(** ** Comparisons *)

(** The three-way result the comparison instructions leave. *)
Definition three_way (a b : Z) : Z := if a <? b then -1 else if b <? a then 1 else 0.

Lemma i32_three_way a b : i32 (three_way a b) = three_way a b.
Proof. unfold three_way. by repeat case_cmp. Qed.

Lemma performs_ICMP a b :
  performs [COP_PREFIX; COP_PREFIX_ICMP] [(W32, b); (W32, a)] (inr [(W32, three_way a b)]).
Proof.
  rewrite <-i32_three_way.
  apply (performs_binary exec_PREFIX_ICMP _ W32 W32 a b (inr (three_way a b)));
    [by apply dispatch_prefix|]. same_form exec_PREFIX_ICMP. same_write.
Qed.

Lemma performs_ICMP_UN a b :
  performs [COP_PREFIX; COP_PREFIX_ICMP_UN] [(W32, b); (W32, a)]
    (inr [(W32, three_way (u32 a) (u32 b))]).
Proof.
  rewrite <-i32_three_way.
  apply (performs_binary exec_PREFIX_ICMP_UN _ W32 W32 a b (inr (three_way (u32 a) (u32 b))));
    [by apply dispatch_prefix|]. same_form exec_PREFIX_ICMP_UN. same_write.
Qed.

(** The comparisons of longs leave an int in the place of the first. *)
Lemma performs_long_compare h bs a b r :
  dispatch h bs -> length bs = 2%nat ->
  (forall c st,
    ReadLong st (- (CVM_WORDS_PER_LONG * 2)) = Some a ->
    ReadLong st (- CVM_WORDS_PER_LONG) = Some b ->
    h c st =
      (st ← set_intValue st (- (CVM_WORDS_PER_LONG * 2)) r;
       MODIFY_PC_AND_STACK st 2 (- (CVM_WORDS_PER_LONG * 2) + 1))) ->
  performs bs [(W64, b); (W64, a)] (inr [(W32, i32 r)]).
Proof.
  intros Hd Hlen Hform. apply (performs_step h); [done|].
  intros c p fr ws l ab _ (wsb & ws2 & -> & Hb & (wsa & ws3 & -> & Ha & ->)).
  specialize (Hform c (mk_cvm p fr ((wsb ++ wsa ++ []) ++ l) ab)).
  rewrite app_nil_r in *. rewrite <-app_assoc in *.
  pose proof (cell_words_length _ _ _ Ha) as La. pose proof (cell_words_length _ _ _ Hb) as Lb.
  simpl in La, Lb.
  assert (exists wsa0 x, wsa = wsa0 ++ [x]) as (wsa0 & x & ->).
  { destruct (exists_last (l := wsa)) as (y & x & ->); [|by eexists _, _].
    intros ->. pose proof (words_of_pos W64). simpl in *. lia. }
  rewrite Hform; clear Hform.
  - unfold set_intValue. rewrite length_app in La. simpl in La.
    replace (wsb ++ (wsa0 ++ [x]) ++ l) with ((wsb ++ wsa0) ++ x :: l) by (by rewrite <-!app_assoc).
    rewrite word_below by (rewrite length_app; lia). simpl.
    rewrite set_word_below by (rewrite length_app; lia). simpl. unfold MODIFY_PC_AND_STACK.
    rewrite move_stack_below by (rewrite length_app; lia). simpl. intros _.
    exists [set_low 32 x r], (rev (wsb ++ wsa0) ++ ab). rewrite Hlen. split; [done|].
    split; [apply (proj2 (holds_single W32 (i32 r) _)); exists (set_low 32 x r); by rewrite set_low_32|].
    rewrite !length_app, length_rev, length_app. simpl. lia.
  - apply (read_below W64 true a wsb (wsa0 ++ [x])); [done|simpl; lia].
  - by apply (read_top W64 true b wsb).
Qed.

Lemma performs_LCMP a b :
  performs [COP_PREFIX; COP_PREFIX_LCMP] [(W64, b); (W64, a)] (inr [(W32, three_way a b)]).
Proof.
  rewrite <-i32_three_way.
  apply (performs_long_compare exec_PREFIX_LCMP); [by apply dispatch_prefix|done|].
  same_form exec_PREFIX_LCMP. done.
Qed.

Lemma performs_LCMP_UN a b :
  performs [COP_PREFIX; COP_PREFIX_LCMP_UN] [(W64, b); (W64, a)]
    (inr [(W32, three_way (u64 a) (u64 b))]).
Proof.
  rewrite <-i32_three_way.
  apply (performs_long_compare exec_PREFIX_LCMP_UN); [by apply dispatch_prefix|done|].
  same_form exec_PREFIX_LCMP_UN. done.
Qed.

(** The tests on the three-way result. *)
Definition set_tests : list (Z * (Z -> bool)) :=
  [(COP_PREFIX_SETEQ, fun a => a =? 0); (COP_PREFIX_SETNE, fun a => negb (a =? 0));
   (COP_PREFIX_SETLT, fun a => a <? 0); (COP_PREFIX_SETLE, fun a => a <=? 0);
   (COP_PREFIX_SETGT, fun a => 0 <? a); (COP_PREFIX_SETGE, fun a => 0 <=? a)].

Lemma i32_b2z b : i32 (b2z b) = b2z b.
Proof. by destruct b. Qed.

Lemma performs_set h op a (t : bool) :
  dispatch h [COP_PREFIX; op] ->
  (forall c st, intValue st (-1) = Some a ->
    h c st = (st ← set_intValue st (-1) (b2z t); MODIFY_PC_AND_STACK st 2 0)) ->
  performs [COP_PREFIX; op] [(W32, a)] (inr [(W32, b2z t)]).
Proof.
  intros Hd Hform. rewrite <-i32_b2z. apply (performs_unary h _ W32 a (inr (b2z t))); [done|].
  intros c st Ha _. rewrite (Hform c st Ha). apply same_result_refl.
Qed.

Lemma performs_set_test op t a :
  (op, t) ∈ set_tests -> performs [COP_PREFIX; op] [(W32, a)] (inr [(W32, b2z (t a))]).
Proof.
  unfold set_tests. rewrite !elem_of_cons, elem_of_nil.
  intros [[= -> ->]|[[= -> ->]|[[= -> ->]|[[= -> ->]|[[= -> ->]|[[= -> ->]|[]]]]]]].
  all: eapply performs_set; [by apply dispatch_prefix|intros c st Ha].
  all: match goal with |- ?h _ _ = _ => unfold_handler h end; by rewrite Ha.
Qed.

End Ops.

#[export] Hint Resolve
  performs_IADD performs_IADD_OVF performs_IADD_OVF_UN performs_ISUB performs_ISUB_OVF
  performs_ISUB_OVF_UN performs_IMUL performs_IMUL_OVF performs_IMUL_OVF_UN performs_IAND
  performs_IOR performs_IXOR performs_LADD performs_LADD_OVF performs_LADD_OVF_UN performs_LSUB
  performs_LSUB_OVF performs_LSUB_OVF_UN performs_LMUL performs_LMUL_OVF performs_LMUL_OVF_UN
  performs_LAND performs_LOR performs_LXOR performs_IDIV performs_IREM performs_LDIV
  performs_LREM performs_IDIV_UN performs_LDIV_UN performs_IREM_UN performs_LREM_UN
  performs_INEG performs_LNEG performs_INOT performs_LNOT performs_ISHL performs_ISHR
  performs_ISHR_UN performs_LSHL performs_LSHR performs_LSHR_UN performs_ICMP performs_ICMP_UN
  performs_LCMP performs_LCMP_UN : performs.
