(* ===== verification/CvmConvOps.v ===== *)
(** * The conversion, constant and stack instructions of the CVM

    The results of the instructions of cvm_conv.c, cvm_const.c and cvm_stack.c
    that the coder uses on integers, in the judgement of CvmProps.v. *)
From Stdlib Require Import ZArith Lia.
From stdpp Require Import base list option numbers.
From S2P Require Import Prelude Opcodes Cvm CvmConv CvmStack Interp Coder ILSpec CvmProps CvmOps.

Local Open Scope Z_scope.

Definition in_range (lo hi a : Z) : bool := (lo <=? a) && (a <=? hi).

Definition check_range (w : width) (lo hi a : Z) : exn + list (width * Z) :=
  if in_range lo hi a then inr [(w, a)] else inl OverflowException.

Section ConvOps.
Context {PF : Platform}.

(** ** Tests *)

(** The tests on ints, with the bounds they check. *)
Definition int_tests : list (Z * (Z * Z)) :=
  [(COP_PREFIX_I2B_OVF, (-128, 127)); (COP_PREFIX_I2UB_OVF, (0, 255));
   (COP_PREFIX_IU2B_OVF, (0, 127)); (COP_PREFIX_IU2UB_OVF, (0, 255));
   (COP_PREFIX_I2S_OVF, (-32768, 32767)); (COP_PREFIX_I2US_OVF, (0, 65535));
   (COP_PREFIX_IU2S_OVF, (0, 32767)); (COP_PREFIX_IU2US_OVF, (0, 65535));
   (COP_PREFIX_I2IU_OVF, (0, IL_MAX_INT32)); (COP_PREFIX_IU2I_OVF, (0, IL_MAX_INT32))].

Lemma in_range_0_max w hi a :
  hi = 2 ^ (bits w - 1) - 1 -> wrap w a = a -> in_range 0 hi a = (0 <=? a).
Proof.
  rewrite wrap_range. unfold in_range. intros ->. intros. repeat case_cmp; try done; lia.
Qed.

Lemma performs_int_test op lo hi a :
  (op, (lo, hi)) ∈ int_tests ->
  performs [COP_PREFIX; op] [(W32, a)] (check_range W32 lo hi a).
Proof.
  unfold int_tests. rewrite !elem_of_cons, elem_of_nil. intros Hop.
  repeat destruct Hop as [[= -> -> ->]|Hop]; [..|done].
  all: unfold check_range; eapply performs_test; [by apply dispatch_prefix|].
  all: intros c st Ha Wa; match goal with |- same_result (?h _ _) _ => unfold_handler h end.
  all: cbn [read words_of] in Ha; change (- (1)) with (-1) in Ha; rewrite Ha; cbn [mbind option_bind].
  all: try rewrite (in_range_0_max W32 IL_MAX_INT32 a eq_refl Wa); apply same_result_refl.
Qed.

Lemma performs_L2UL_OVF a :
  performs [COP_PREFIX; COP_PREFIX_L2UL_OVF] [(W64, a)] (check_range W64 0 IL_MAX_INT64 a).
Proof.
  apply (performs_test exec_PREFIX_L2UL_OVF); [by apply dispatch_prefix|].
  same_form exec_PREFIX_L2UL_OVF. rewrite (in_range_0_max W64 IL_MAX_INT64) by done. apply same_result_refl.
Qed.

Lemma performs_LU2L_OVF a :
  performs [COP_PREFIX; COP_PREFIX_LU2L_OVF] [(W64, a)] (check_range W64 0 IL_MAX_INT64 a).
Proof.
  apply (performs_test exec_PREFIX_LU2L_OVF); [by apply dispatch_prefix|].
  same_form exec_PREFIX_LU2L_OVF. rewrite (in_range_0_max W64 IL_MAX_INT64) by done.
  replace (u64 a <=? IL_MAX_INT64) with (0 <=? a); [apply same_result_refl|].
  repeat case_cmp; try done; exfalso; match goal with H : wrap W64 a = a |- _ => simpl in H end;
    width_lia.
Qed.

(** ** Truncations *)

Lemma performs_trunc h op a v :
  dispatch h [op] -> i32 v = v ->
  (forall c st, intValue st (-1) = Some a ->
    h c st = (st ← set_intValue st (-1) v; MODIFY_PC_AND_STACK st 1 0)) ->
  performs [op] [(W32, a)] (inr [(W32, v)]).
Proof.
  intros Hd Hv Hform. rewrite <-Hv. apply (performs_unary h [op] W32 a (inr v)); [done|].
  intros c st Ha _. rewrite (Hform c st Ha). apply same_result_refl.
Qed.

Lemma performs_I2B a : performs [COP_I2B] [(W32, a)] (inr [(W32, i8 a)]).
Proof.
  apply (performs_trunc exec_I2B); [by apply dispatch_main|width_lia|].
  intros c st Ha. unfold exec_I2B. by rewrite Ha.
Qed.

Lemma performs_I2UB a : performs [COP_I2UB] [(W32, a)] (inr [(W32, u8 a)]).
Proof.
  apply (performs_trunc exec_I2UB); [by apply dispatch_main|width_lia|].
  intros c st Ha. unfold exec_I2UB. by rewrite Ha.
Qed.

Lemma performs_I2S a : performs [COP_I2S] [(W32, a)] (inr [(W32, i16 a)]).
Proof.
  apply (performs_trunc exec_I2S); [by apply dispatch_main|width_lia|].
  intros c st Ha. unfold exec_I2S. by rewrite Ha.
Qed.

Lemma performs_I2US a : performs [COP_I2US] [(W32, a)] (inr [(W32, u16 a)]).
Proof.
  apply (performs_trunc exec_I2US); [by apply dispatch_main|width_lia|].
  intros c st Ha. unfold exec_I2US. by rewrite Ha.
Qed.

(** ** Between ints and longs *)

(** The int is widened in place; with two words per long the second word is
    the first one above the old top. *)
Lemma performs_widen h bs a (r : exn + Z) :
  dispatch h bs ->
  (forall c st, intValue st (-1) = Some a -> i32 a = a ->
    same_result (h c st)
      match r with
      | inl e => Some (Throw e st)
      | inr v =>
        st ← WriteLong st (-1) v;
        MODIFY_PC_AND_STACK st (Z.of_nat (length bs)) (CVM_WORDS_PER_LONG - 1)
      end) ->
  performs bs [(W32, a)] match r with inr v => inr [(W64, i64 v)] | inl e => inl e end.
Proof.
  intros Hd Hform. apply (performs_step h); [done|].
  intros c p fr ws l ab _ (x & -> & Wx)%holds_single. simpl app.
  specialize (Hform c (mk_cvm p fr (x :: l) ab)). unfold intValue in Hform. simpl in Hform.
  rewrite Wx in Hform. specialize (Hform eq_refl ltac:(by rewrite <-Wx; apply (wrap_wrap W32))).
  destruct r as [e|v]; [done|]. intros Hroom.
  destruct words_per_long_cases as [E|[E _]]; simpl in Hroom; rewrite E in *.
  - revert Hform. unfold WriteLong, WriteULong. rewrite E. simpl. intros ->.
    exists [set_low 64 x v], ab. split; [done|]. split; [|done].
    apply (proj2 (holds_single W64 _ _)). simpl. rewrite E. exists (set_low 64 x v).
    by rewrite set_low_64.
  - destruct ab as [|y ab]; [simpl in Hroom; lia|]. revert Hform.
    unfold WriteLong, WriteULong. rewrite E. simpl. intros ->.
    exists [u32 (Z.shiftr v 32); u32 v], ab. split; [done|]. split; [|done].
    apply (proj2 (holds_single W64 _ _)). simpl. rewrite E. exists (u32 (Z.shiftr v 32)), (u32 v).
    by rewrite split_words.
Qed.

(** The long is narrowed into its first word. *)
Lemma performs_narrow h bs a (r : exn + Z) :
  dispatch h bs ->
  (forall c st, ReadLong st (- CVM_WORDS_PER_LONG) = Some a -> i64 a = a ->
    same_result (h c st)
      match r with
      | inl e => Some (Throw e st)
      | inr v =>
        st ← set_intValue st (- CVM_WORDS_PER_LONG) v;
        MODIFY_PC_AND_STACK st (Z.of_nat (length bs)) (1 - CVM_WORDS_PER_LONG)
      end) ->
  performs bs [(W64, a)] match r with inr v => inr [(W32, i32 v)] | inl e => inl e end.
Proof.
  intros Hd Hform. apply (performs_step h); [done|].
  intros c p fr ws l ab _ Ha%holds_single.
  specialize (Hform c _ (read_top W64 true a ws l p fr ab Ha) (cell_words_wrap _ _ _ Ha)).
  destruct r as [e|v]; [done|]. intros _.
  pose proof (cell_words_length _ _ _ Ha) as La. simpl in La.
  assert (exists ws0 x, ws = ws0 ++ [x]) as (ws0 & x & ->).
  { destruct (exists_last (l := ws)) as (y & x & ->); [|by eexists _, _].
    intros ->. pose proof (words_of_pos W64). simpl in *. lia. }
  rewrite length_app in La. simpl in La. revert Hform. unfold set_intValue, MODIFY_PC_AND_STACK.
  rewrite <-!app_assoc. simpl. rewrite word_below by lia. simpl.
  rewrite set_word_below by lia. simpl. rewrite move_stack_below by lia. simpl. intros ->.
  exists [set_low 32 x v], (rev ws0 ++ ab). split; [done|].
  split; [apply (proj2 (holds_single W32 _ _)); exists (set_low 32 x v); by rewrite set_low_32|].
  rewrite !length_app, length_rev. simpl. lia.
Qed.

Lemma performs_I2L a : performs [COP_I2L] [(W32, a)] (inr [(W64, a)]).
Proof.
  apply performs_wf. intros Wa. inversion Wa as [|? ? Wa' _]; subst. simpl in Wa'.
  pose proof (performs_widen exec_I2L [COP_I2L] a (inr a)) as H. simpl in H.
  replace (i64 a) with a in H by (revert Wa'; width_lia). apply H; [by apply dispatch_main|].
  same_form exec_I2L. apply same_result_refl.
Qed.

Lemma performs_IU2L a : performs [COP_IU2L] [(W32, a)] (inr [(W64, u32 a)]).
Proof.
  pose proof (performs_widen exec_IU2L [COP_IU2L] a (inr (u32 a))) as H. simpl in H.
  replace (i64 (u32 a)) with (u32 a) in H by width_lia. apply H; [by apply dispatch_main|].
  same_form exec_IU2L. apply same_result_refl.
Qed.

Lemma performs_I2UL_OVF a :
  performs [COP_PREFIX; COP_PREFIX_I2UL_OVF] [(W32, a)]
    (if 0 <=? a then inr [(W64, a)] else inl OverflowException).
Proof.
  apply performs_wf. intros Wa. inversion Wa as [|? ? Wa' _]; subst. simpl in Wa'.
  pose proof (performs_widen exec_PREFIX_I2UL_OVF [COP_PREFIX; COP_PREFIX_I2UL_OVF] a
    (if 0 <=? a then inr a else inl OverflowException) ltac:(by apply dispatch_prefix)) as H.
  revert H. destruct (0 <=? a) eqn:E; simpl; intros H.
  - replace (i64 a) with a in H by (revert Wa'; width_lia). apply H.
    same_form exec_PREFIX_I2UL_OVF. rewrite E. apply same_result_refl.
  - apply H. same_form exec_PREFIX_I2UL_OVF. rewrite E. by eexists.
Qed.

Lemma performs_L2I a : performs [COP_L2I] [(W64, a)] (inr [(W32, i32 a)]).
Proof.
  apply (performs_narrow exec_L2I [COP_L2I] a (inr a)); [by apply dispatch_main|].
  same_form exec_L2I. replace (1 - CVM_WORDS_PER_LONG) with (- (CVM_WORDS_PER_LONG - 1)) by lia.
  same_write. apply (wrap_wrap W32).
Qed.

(** A narrowing with a test: the value read, and whether it is in range. *)
Lemma performs_narrow_test h op a lo hi z :
  dispatch h [COP_PREFIX; op] ->
  (forall c st, ReadLong st (- CVM_WORDS_PER_LONG) = Some a -> i64 a = a ->
    same_result (h c st)
      (if in_range lo hi z then
         st ← set_intValue st (- CVM_WORDS_PER_LONG) z;
         MODIFY_PC_AND_STACK st 2 (1 - CVM_WORDS_PER_LONG)
       else Some (Throw OverflowException st))) ->
  performs [COP_PREFIX; op] [(W64, a)]
    (if in_range lo hi z then inr [(W32, i32 z)] else inl OverflowException).
Proof.
  intros Hd Hform.
  pose proof (performs_narrow h _ a (if in_range lo hi z then inr z else inl OverflowException) Hd) as H.
  destruct (in_range lo hi z); by apply H.
Qed.

Ltac narrow_test h :=
  apply (performs_narrow_test h); [by apply dispatch_prefix|];
  same_form h; unfold in_range, L2IOvf, L2UIOvf, LU2IOvf, LU2UIOvf;
  rewrite ?ReadULong_ReadLong;
  repeat match goal with H : ReadLong _ _ = Some _ |- _ => rewrite H; clear H end;
  cbn [mbind option_bind].

Lemma performs_L2I_OVF a :
  performs [COP_PREFIX; COP_PREFIX_L2I_OVF] [(W64, a)]
    (if in_range IL_MIN_INT32 IL_MAX_INT32 a then inr [(W32, i32 a)] else inl OverflowException).
Proof.
  narrow_test exec_PREFIX_L2I_OVF. destruct (_ && _); [|by eexists].
  apply (same_result_write_pair W32); [apply (wrap_wrap W32)|done].
Qed.

Lemma performs_L2UI_OVF a :
  performs [COP_PREFIX; COP_PREFIX_L2UI_OVF] [(W64, a)]
    (if in_range 0 IL_MAX_UINT32 a then inr [(W32, i32 a)] else inl OverflowException).
Proof.
  narrow_test exec_PREFIX_L2UI_OVF. destruct (_ && _); [|by eexists].
  apply (same_result_write_pair W32); [apply (wrap_uns W32)|done].
Qed.

Lemma u64_nonneg a : (0 <=? u64 a) = true.
Proof. apply Z.leb_le, u64_range. Qed.

Lemma performs_LU2I_OVF a :
  performs [COP_PREFIX; COP_PREFIX_LU2I_OVF] [(W64, a)]
    (if in_range 0 IL_MAX_INT32 (u64 a) then inr [(W32, i32 (u64 a))] else inl OverflowException).
Proof.
  narrow_test exec_PREFIX_LU2I_OVF. rewrite u64_nonneg. cbn [andb].
  destruct (_ <=? _); [|by eexists].
  apply (same_result_write_pair W32); [apply (wrap_wrap W32)|done].
Qed.

Lemma performs_LU2IU_OVF a :
  performs [COP_PREFIX; COP_PREFIX_LU2IU_OVF] [(W64, a)]
    (if in_range 0 IL_MAX_UINT32 (u64 a) then inr [(W32, i32 (u64 a))] else inl OverflowException).
Proof.
  narrow_test exec_PREFIX_LU2IU_OVF. rewrite u64_nonneg. cbn [andb].
  destruct (_ <=? _); [|by eexists].
  apply (same_result_write_pair W32); [apply (wrap_uns W32)|done].
Qed.

(** ** The int under a long (64-bit native ints)

    [fix_i4_i] and [fix_i4_u] widen the int that lies under a long; one word
    holds a long. *)
Lemma performs_fix h op v a b :
  IL_NATIVE_INT64 = true -> dispatch h [COP_PREFIX; op] -> i64 v = v ->
  (forall c p fr x y l ab, i64 x = b -> i32 y = a ->
    exists x' y', i64 x' = b /\ i64 y' = v /\
    h c (mk_cvm p fr (x :: y :: l) ab) = Some (Next (mk_cvm (p + 2) fr (x' :: y' :: l) ab))) ->
  performs [COP_PREFIX; op] [(W64, b); (W32, a)] (inr [(W64, b); (W64, v)]).
Proof.
  intros Hn Hd Hv Hh. pose proof (native_words_per_long Hn) as E.
  apply (performs_step h); [done|].
  intros c p fr ws l ab _ (wsb & ws2 & -> & Hb & (wsa & ws3 & -> & Ha & ->)) _.
  simpl in Ha, Hb. rewrite E in Hb. destruct Hb as (x & -> & Hx), Ha as (y & -> & Hy).
  destruct (Hh c p fr x y l ab Hx Hy) as (x' & y' & Hx' & Hy' & Eh).
  exists [x'; y'], ab. simpl. split; [exact Eh|]. split; [|done]. rewrite E.
  exists [x'], [y']. split; [done|]. split; [by exists x'|]. exists [y'], []. split; [done|].
  split; [by exists y'|done].
Qed.

Lemma performs_FIX_I4_I a b :
  IL_NATIVE_INT64 = true ->
  performs [COP_PREFIX; COP_PREFIX_FIX_I4_I] [(W64, b); (W32, a)] (inr [(W64, b); (W64, a)]).
Proof.
  intros Hn. apply performs_wf. intros Hwf. inversion Hwf as [|? ? _ Hwf']; subst.
  inversion Hwf' as [|? ? Wa _]; subst. simpl in Wa.
  apply (performs_fix exec_PREFIX_FIX_I4_I); [done|by apply dispatch_prefix|revert Wa; width_lia|].
  intros c p fr x y l ab Hx Hy. unfold exec_PREFIX_FIX_I4_I, ReadLong, ReadULong, WriteLong, WriteULong.
  rewrite Hn, (native_words_per_long Hn). simpl.
  exists (set_low 64 x (i64 (u64 x))), (set_low 64 y (i32 y)). rewrite !set_low_64.
  split; [revert Hx; width_lia|]. split; [revert Hy Wa; width_lia|done].
Qed.

Lemma performs_FIX_I4_U a b :
  IL_NATIVE_INT64 = true ->
  performs [COP_PREFIX; COP_PREFIX_FIX_I4_U] [(W64, b); (W32, a)] (inr [(W64, b); (W64, u32 a)]).
Proof.
  intros Hn. apply (performs_fix exec_PREFIX_FIX_I4_U); [done|by apply dispatch_prefix|width_lia|].
  intros c p fr x y l ab Hx Hy. unfold exec_PREFIX_FIX_I4_U, ReadULong, WriteULong.
  rewrite Hn, (native_words_per_long Hn). simpl.
  exists (set_low 64 x (u64 x)), (set_low 64 y (u32 y)). rewrite !set_low_64.
  split; [revert Hx; width_lia|]. split; [revert Hy; width_lia|done].
Qed.

(** ** Constants *)

Lemma performs_push h bs w v :
  dispatch h bs ->
  (forall c st, code_at c (pc st) bs ->
    h c st = (st ← write w st 0 v; MODIFY_PC_AND_STACK st (Z.of_nat (length bs)) (words_of w))) ->
  performs bs [] (inr [(w, wrap w v)]).
Proof.
  intros Hd Hform. apply (performs_step h); [done|].
  intros c p fr ws l ab Hc -> Hroom. simpl app.
  rewrite (Hform c (mk_cvm p fr l ab) Hc). clear Hform. destruct w; simpl in *.
  - destruct ab as [|y ab]; [simpl in Hroom; lia|]. exists [set_low 32 y v], ab.
    split; [done|]. split; [|done]. apply (proj2 (holds_single W32 _ _)).
    exists (set_low 32 y v). by rewrite set_low_32.
  - unfold WriteLong, WriteULong. destruct words_per_long_cases as [E|[E _]]; rewrite E in *.
    + destruct ab as [|y ab]; [simpl in Hroom; lia|]. exists [set_low 64 y v], ab.
      split; [done|]. split; [|done]. exists [set_low 64 y v], []. split; [done|].
      split; [|done]. exists (set_low 64 y v). by rewrite set_low_64.
    + destruct ab as [|y0 [|y1 ab]]; [simpl in Hroom; lia..|].
      exists [u32 (Z.shiftr v 32); u32 v], ab. split; [done|]. split; [|done].
      exists [u32 (Z.shiftr v 32); u32 v], []. split; [done|]. split; [|done].
      exists (u32 (Z.shiftr v 32)), (u32 v). by rewrite split_words.
Qed.

Lemma performs_LDC_I4_VALUE op v :
  dispatch (exec_LDC_I4_VALUE v) [op] -> performs [op] [] (inr [(W32, i32 v)]).
Proof.
  intros Hd. pose proof (performs_push (exec_LDC_I4_VALUE v) [op] W32 (i32 v)) as H.
  simpl in H. rewrite (wrap_wrap W32 v : i32 (i32 v) = i32 v) in H. by apply H.
Qed.

Lemma performs_LDC_I4_S b : performs [COP_LDC_I4_S; b] [] (inr [(W32, i8 b)]).
Proof.
  pose proof (performs_push exec_LDC_I4_S [COP_LDC_I4_S; b] W32 (i8 b)) as H.
  simpl in H. replace (i32 (i8 b)) with (i8 b) in H by width_lia.
  apply H; [by apply dispatch_main|]. intros c st Hc.
  unfold exec_LDC_I4_S, CVM_ARG_SBYTE.
  by rewrite (pc_at_code _ _ _ 1 b Hc eq_refl : pc_at c (pc st) 1 = Some b).
Qed.

Ltac read_code Hc i :=
  match goal with |- context [pc_at ?c ?p ?k] =>
    rewrite (pc_at_code _ _ _ i _ Hc eq_refl : pc_at c p k = Some _)
  end.

Lemma performs_LDC_I4 b0 b1 b2 b3 :
  performs [COP_LDC_I4; b0; b1; b2; b3] [] (inr [(W32, i32 (IL_READ_UINT32 b0 b1 b2 b3))]).
Proof.
  pose proof (performs_push exec_LDC_I4 [COP_LDC_I4; b0; b1; b2; b3] W32
    (i32 (IL_READ_UINT32 b0 b1 b2 b3))) as H.
  simpl in H. rewrite (wrap_wrap W32 _ : i32 (i32 _) = i32 _) in H.
  apply H; [by apply dispatch_main|]. intros c st Hc. unfold exec_LDC_I4, CVM_ARG_WORD, pc_uint32.
  change (1 + 1) with 2. change (1 + 2) with 3. change (1 + 3) with 4.
  read_code Hc 1%nat. cbn [mbind option_bind]. read_code Hc 2%nat. cbn [mbind option_bind].
  read_code Hc 3%nat. cbn [mbind option_bind]. read_code Hc 4%nat. done.
Qed.

Lemma performs_LDC_I8 b0 b1 b2 b3 b4 b5 b6 b7 :
  performs [COP_LDC_I8; b0; b1; b2; b3; b4; b5; b6; b7] []
    (inr [(W64, IL_READ_INT64 b0 b1 b2 b3 b4 b5 b6 b7)]).
Proof.
  pose proof (performs_push exec_LDC_I8 [COP_LDC_I8; b0; b1; b2; b3; b4; b5; b6; b7] W64
    (IL_READ_INT64 b0 b1 b2 b3 b4 b5 b6 b7)) as H.
  simpl in H. unfold IL_READ_INT64 in *. rewrite (wrap_wrap W64 _ : i64 (i64 _) = i64 _) in H.
  apply H; [by apply dispatch_main|]. intros c st Hc. unfold exec_LDC_I8, CVM_ARG_LONG, pc_int64.
  change (1 + 1) with 2. change (1 + 2) with 3. change (1 + 3) with 4. change (1 + 4) with 5.
  change (1 + 5) with 6. change (1 + 6) with 7. change (1 + 7) with 8.
  read_code Hc 1%nat. cbn [mbind option_bind]. read_code Hc 2%nat. cbn [mbind option_bind].
  read_code Hc 3%nat. cbn [mbind option_bind]. read_code Hc 4%nat. cbn [mbind option_bind].
  read_code Hc 5%nat. cbn [mbind option_bind]. read_code Hc 6%nat. cbn [mbind option_bind].
  read_code Hc 7%nat. cbn [mbind option_bind]. read_code Hc 8%nat. done.
Qed.

(** ** Duplication and removal *)

Lemma performs_dup w n :
  performs [if words_of w =? 1 then COP_DUP else COP_DUP2] [(w, n)] (inr [(w, n); (w, n)]).
Proof.
  apply (performs_step (if words_of w =? 1 then exec_DUP else exec_DUP2));
    [destruct (words_of w =? 1); by apply dispatch_main|].
  intros c p fr ws l ab _ Ha Hroom. pose proof (holds_length _ _ Ha) as Hl. simpl in Hl, Hroom.
  assert (forall ws', ws' = ws ++ ws -> holds [(w, n); (w, n)] ws') as Hh
    by (intros ws' ->; apply (holds_app [(w, n)] [(w, n)]); by exists ws, ws).
  pose proof (words_of_pos w) as Hw. destruct (Z.eqb_spec (words_of w) 1).
  - destruct ws as [|x [|]]; simpl in Hl; try lia. destruct ab as [|y ab]; [simpl in Hroom; lia|].
    exists [x; x], ab. split; [done|]. split; [by apply Hh|done].
  - destruct ws as [|x [|x' [|]]]; simpl in Hl; try lia.
    destruct ab as [|y [|y' ab]]; [simpl in Hroom; lia..|].
    exists [x; x'; x; x'], ab. split; [done|]. split; [by apply Hh|done].
Qed.

Lemma performs_pop w n :
  performs [if words_of w =? 1 then COP_POP else COP_POP2] [(w, n)] (inr []).
Proof.
  apply (performs_step (if words_of w =? 1 then exec_POP else exec_POP2));
    [destruct (words_of w =? 1); by apply dispatch_main|].
  intros c p fr ws l ab _ Ha _. pose proof (holds_length _ _ Ha) as Hl. simpl in Hl.
  pose proof (words_of_pos w) as Hw. exists [], (rev ws ++ ab). rewrite length_app, length_rev.
  split; [|done].
  assert (words_of w = 1 \/ words_of w = 2) as [E|E] by lia; rewrite E; simpl;
    unfold exec_POP, exec_POP2, MODIFY_PC_AND_STACK; by rewrite move_stack_below by lia.
Qed.

End ConvOps.

#[export] Hint Resolve
  performs_L2UL_OVF performs_LU2L_OVF performs_I2B performs_I2UB performs_I2S performs_I2US
  performs_I2L performs_IU2L performs_I2UL_OVF performs_L2I performs_L2I_OVF performs_L2UI_OVF
  performs_LU2I_OVF performs_LU2IU_OVF performs_FIX_I4_I performs_FIX_I4_U performs_LDC_I4_S
  performs_LDC_I4 performs_LDC_I8 : performs.
