(* ===== verification/CoderProps.v ===== *)
(** * The CVM coder is correct on integers (proofs about engine/cvmc_*.c)

    For each operation of the coder on integer operands: the bytes it outputs,
    run by the interpreter on a stack that holds the operands, leave the
    result that the reference semantics of ILSpec.v gives, or raise the
    exception it gives ([compiles]). *)
From Stdlib Require Import ZArith Lia.
From stdpp Require Import base list option numbers.
From S2P Require Import Prelude Opcodes Cvm CvmStack Interp Coder ILSpec CvmProps CvmOps CvmConvOps.

Local Open Scope Z_scope.

(** The opcodes are bytes. *)
Ltac norm_u8 :=
  repeat match goal with |- context [u8 ?c] => change (u8 c) with c end.

Lemma emitted_2 (l' l : list Z) a b : l' = (l ++ [a]) ++ [b] -> l' = l ++ [a; b].
Proof. intros ->. by rewrite <-app_assoc. Qed.

Lemma emitted_3 (l' l : list Z) a b c : l' = ((l ++ [a]) ++ [b]) ++ [c] -> l' = l ++ [a; b; c].
Proof. intros ->. by rewrite <-!app_assoc. Qed.

Lemma emitted_4 (l' l : list Z) a b c d :
  l' = (((l ++ [a]) ++ [b]) ++ [c]) ++ [d] -> l' = l ++ [a; b; c; d].
Proof. intros ->. by rewrite <-!app_assoc. Qed.

Lemma emitted_5 (l' l : list Z) a b c d e :
  l' = ((((l ++ [a]) ++ [b]) ++ [c]) ++ [d]) ++ [e] -> l' = l ++ [a; b; c; d; e].
Proof. intros ->. by rewrite <-!app_assoc. Qed.

Lemma emitted_9 (l' l : list Z) a b c d e f g h i :
  l' = ((((((((l ++ [a]) ++ [b]) ++ [c]) ++ [d]) ++ [e]) ++ [f]) ++ [g]) ++ [h]) ++ [i] ->
  l' = l ++ [a; b; c; d; e; f; g; h; i].
Proof. intros ->. by rewrite <-!app_assoc. Qed.

(** The bytes an operation with known arguments outputs. *)
Ltac emitted :=
  first [ symmetry; apply app_nil_r | reflexivity | eapply emitted_2; reflexivity
        | eapply emitted_3; reflexivity | eapply emitted_4; reflexivity ].

Section CoderProps.
Context {PF : Platform}.

Definition cell_of (v : value) : cell := (width_of v, number v).
Definition cells (vs : list value) : list cell := map cell_of vs.

(** Running [bs] on the values [pre] has the outcome [out]. *)
Definition runs (bs : list Z) (pre : list value) (out : il_out) : Prop :=
  match out with
  | Values post => performs bs (cells pre) (inr (cells post))
  | Raise e => performs bs (cells pre) (inl (cvm_exn e))
  end.

(** From [coder] to [coder'], code with the outcome [out] is output. *)
Definition compiles (coder coder' : ILCVMCoder) (pre : list value) (out : il_out) : Prop :=
  exists bs, Coder.code coder' = Coder.code coder ++ bs /\ runs bs pre out.

(** ** Output *)

Lemma code_byte coder b : Coder.code (CVM_BYTE coder b) = Coder.code coder ++ [u8 b].
Proof. done. Qed.

Lemma code_adjust coder n : Coder.code (CVM_ADJUST coder n) = Coder.code coder.
Proof. done. Qed.

(** ** Adjustment of mixed operands *)

Definition width_type (w : width) : ILEngineType :=
  match w with W32 => ILEngineType_I4 | W64 => ILEngineType_I8 end.

Lemma native_W64 : IL_NATIVE_INT64 = true -> native = W64.
Proof. unfold native. by intros ->. Qed.

Lemma native_W32 : IL_NATIVE_INT64 = false -> native = W32.
Proof. unfold native. by intros ->. Qed.

Lemma performs_eq bs pre r r' : performs bs pre r -> r = r' -> performs bs pre r'.
Proof. by intros ? <-. Qed.

(** Two operands are brought to their common width. *)
Lemma adjust_mixed_performs coder un v1 v2 w t a b :
  widen un v1 v2 = Some (w, t, a, b) ->
  exists coder' bs,
    AdjustMixedBinary coder un (type_of v1) (type_of v2) =
      (coder', width_type w, width_type w) /\
    Coder.code coder' = Coder.code coder ++ bs /\
    performs bs (cells [v2; v1]) (inr [(w, b); (w, a)]).
Proof.
  assert (forall n, i32 n = n -> wrap W32 (u32 n) = n) as Hu by (intros n; simpl; width_lia).
  assert (forall n, i64 (u32 n) = u32 n) as Hl by (intros n; width_lia).
  intros Hw. destruct IL_NATIVE_INT64 eqn:HN;
    [pose proof (native_W64 HN) as HW|pose proof (native_W32 HN) as HW];
    destruct v1, v2; simpl in Hw; try discriminate Hw; injection Hw as <- <- <- <-;
    rewrite ?HW; unfold AdjustMixedBinary, cells, cell_of; rewrite HN; simpl; rewrite ?HW;
    (eexists _, _; split; [reflexivity|]); (split; [first [symmetry; apply app_nil_r | reflexivity | cbn; rewrite <-app_assoc; reflexivity]|]).
  all: try apply performs_nil.
  - destruct un; rewrite ?Hl; [by apply performs_FIX_I4_U|by apply performs_FIX_I4_I].
  - destruct un; rewrite ?Hl;
      [exact (performs_frame _ [_] [_] _ (performs_IU2L z0))|
       exact (performs_frame _ [_] [_] _ (performs_I2L z0))].
  - apply performs_wf. intros Hwf. inversion Hwf as [|? ? _ Hwf']; subst.
    inversion Hwf' as [|? ? Wz _]; subst. simpl in Wz, Hu. rewrite Hu by done.
    destruct un; apply performs_nil.
  - apply performs_wf. intros Hwf. inversion Hwf as [|? ? Wz _]; subst. simpl in Wz, Hu.
    rewrite Hu by done. destruct un; apply performs_nil.
Qed.

(** ** Binary operators *)

Lemma runs_result w t r pre bs :
  (forall z, cell_of (tag t z) = (w, z)) ->
  performs bs (cells pre) (to_result w r) -> runs bs pre (out_of t r).
Proof.
  intros Ht. destruct r as [e|z]; simpl; [done|]. by rewrite Ht.
Qed.

(** The instruction that an operator becomes at each width. *)
Lemma binary_op_performs coder opcode w a b r :
  int_binary w opcode a b = Some r ->
  exists op,
    Coder.code (match binary_add_sub_mul coder opcode (width_type w) with
                | Some coder => coder
                | None => default coder (binary_div_bits coder opcode (width_type w))
                end) = Coder.code coder ++ [op] /\
    performs [op] [(w, b); (w, a)] (to_result w r).
Proof.
  intros Hr. pose proof Hr as Hop. revert Hop. unfold int_binary at 1.
  repeat match goal with
  | |- context [if opcode =? ?o then _ else _] =>
      destruct (Z.eqb_spec opcode o) as [->|_];
        [intros _; destruct w; (eexists; split; [reflexivity|]); norm_u8; by auto with performs|]
  end.
  done.
Qed.

Lemma widen_size un v1 v2 w t a b :
  widen un v1 v2 = Some (w, t, a, b) ->
  cells_size [(w, b); (w, a)] = cells_size (cells [v2; v1]).
Proof.
  intros Hw. destruct IL_NATIVE_INT64 eqn:HN;
    [pose proof (native_W64 HN) as HW; pose proof (native_words_per_long HN) as HL
    |pose proof (native_W32 HN) as HW];
    destruct v1, v2; simpl in Hw; try discriminate Hw; injection Hw as <- <- <- <-;
    simpl; rewrite ?HW; simpl; lia.
Qed.

Lemma tag_width un v1 v2 w t a b z :
  widen un v1 v2 = Some (w, t, a, b) -> cell_of (tag t z) = (w, z).
Proof. destruct v1, v2; simpl; intros [= <- <- <- <-]; done. Qed.

Lemma CVMCoder_Binary_compiles coder opcode v1 v2 out :
  il_binary opcode v1 v2 = Some out ->
  compiles coder (CVMCoder_Binary coder opcode (type_of v1) (type_of v2)) [v2; v1] out.
Proof.
  unfold il_binary. intros Ho.
  destruct (widen _ v1 v2) as [[[[w t] a] b]|] eqn:Hw; [|done]. simpl in Ho.
  destruct (int_binary w opcode a b) as [r|] eqn:Hr; [|done]. injection Ho as <-.
  destruct (adjust_mixed_performs coder _ _ _ _ _ _ _ Hw) as (coder' & bs & Ha & Hc & Hp).
  destruct (binary_op_performs coder' opcode w a b r Hr) as (op & Hc' & Hp').
  exists (bs ++ [op]). split.
  - unfold CVMCoder_Binary. change (IS_UNSIGNED_OPCODE opcode) with (IS_UNSIGNED_OPCODE opcode).
    replace (IS_UNSIGNED_OPCODE opcode) with (unsigned_op opcode) by
      (unfold unsigned_op, IS_UNSIGNED_OPCODE; simpl; by rewrite orb_false_r, !orb_assoc).
    rewrite Ha, Hc', Hc. by rewrite app_assoc.
  - apply (runs_result w); [by intros z; apply (tag_width _ _ _ _ _ _ _ z Hw)|].
    eapply performs_seq; [exact Hp|exact Hp'|].
    rewrite (widen_size _ _ _ _ _ _ _ Hw). lia.
Qed.

(** ** Shifts *)

Lemma int_shift_count w opcode a n : int_shift w opcode a (i32 n) = int_shift w opcode a n.
Proof.
  unfold int_shift. replace (i32 n mod bits w) with (n mod bits w); [done|].
  destruct w; simpl; width_lia.
Qed.

Lemma shift_op_performs coder opcode w a n r :
  wrap w a = a -> int_shift w opcode a n = Some r ->
  exists op,
    Coder.code
      (if opcode =? IL_OP_SHL then CVM_OUT_NONE coder (if is_type (width_type w) ILEngineType_I4 then COP_ISHL else COP_LSHL)
       else if opcode =? IL_OP_SHR then CVM_OUT_NONE coder (if is_type (width_type w) ILEngineType_I4 then COP_ISHR else COP_LSHR)
       else if opcode =? IL_OP_SHR_UN then
         CVM_OUT_NONE coder (if is_type (width_type w) ILEngineType_I4 then COP_ISHR_UN else COP_LSHR_UN)
       else coder) = Coder.code coder ++ [op] /\
    performs [op] [(W32, n); (w, a)] (inr [(w, r)]).
Proof.
  intros Ha Hr. pose proof Hr as Hop. revert Hop. unfold int_shift at 1. cbv zeta.
  repeat match goal with
  | |- context [if opcode =? ?o then Some _ else _] =>
      destruct (Z.eqb_spec opcode o) as [->|_];
        [intros _; destruct w; (eexists; split; [reflexivity|]); norm_u8; by auto with performs|]
  end.
  done.
Qed.

Lemma tag_type_of v z : cell_of (tag (type_of v) z) = (width_of v, z).
Proof. by destruct v. Qed.

(** The type of a value, with the native one resolved. *)
Lemma resolved_type v :
  (if is_type (type_of v) ILEngineType_I
   then if IL_NATIVE_INT64 then ILEngineType_I8 else ILEngineType_I4
   else type_of v) = width_type (width_of v).
Proof. destruct v; try done. simpl. unfold native. by destruct IL_NATIVE_INT64. Qed.

(** The count becomes an int. *)
Lemma shift_count_performs coder v :
  type_of v <> ILEngineType_I8 ->
  exists bs,
    Coder.code (if IL_NATIVE_INT64 && is_type (type_of v) ILEngineType_I
                then CVM_ADJUST (CVM_OUT_NONE coder COP_L2I) (- (CVM_WORDS_PER_LONG - 1))
                else coder) = Coder.code coder ++ bs /\
    performs bs [cell_of v] (inr [(W32, i32 (number v))]) /\
    1 <= cells_size [cell_of v].
Proof.
  intros Ht.
  assert (forall n, performs [] [(W32, n)] (inr [(W32, i32 n)])) as Hnil.
  { intros n. apply performs_wf. intros Hwf. inversion Hwf as [|? ? Wn _]; subst. simpl in Wn.
    rewrite Wn. apply performs_nil. }
  destruct v as [n| |n]; [|done|].
  - exists []. rewrite andb_false_r, app_nil_r. split; [done|]. split; [apply Hnil|done].
  - unfold cell_of. simpl. destruct IL_NATIVE_INT64 eqn:HN.
    + rewrite (native_W64 HN). exists [COP_L2I]. split; [done|]. split; [apply performs_L2I|].
      simpl. rewrite (native_words_per_long HN). lia.
    + rewrite (native_W32 HN). exists []. rewrite app_nil_r. split; [done|]. split; [apply Hnil|done].
Qed.

Lemma CVMCoder_Shift_compiles coder opcode v1 v2 out :
  wf_value v1 -> il_shift opcode v1 v2 = Some out ->
  compiles coder (CVMCoder_Shift coder opcode (type_of v1) (type_of v2)) [v2; v1] out.
Proof.
  intros W1 Ho. unfold il_shift in Ho.
  assert (exists r, int_shift (width_of v1) opcode (number v1) (number v2) = Some r /\
    out = Values [tag (type_of v1) r] /\ type_of v2 <> ILEngineType_I8) as (r & Hr & -> & Ht).
  { destruct v2; [|done|]; destruct (int_shift _ _ _ _) as [r|]; try done;
      injection Ho as <-; by exists r. }
  clear Ho. assert (wrap (width_of v1) (number v1) = number v1) as Wn by (destruct v1; done).
  set (c1 := if IL_NATIVE_INT64 && is_type (type_of v2) ILEngineType_I
             then CVM_ADJUST (CVM_OUT_NONE coder COP_L2I) (- (CVM_WORDS_PER_LONG - 1)) else coder).
  rewrite <-int_shift_count in Hr.
  destruct (shift_op_performs c1 opcode _ _ _ _ Wn Hr) as (op & Hc & Hp).
  destruct (shift_count_performs coder v2 Ht) as (bs & Hc1 & Hp1 & Hs). fold c1 in Hc1.
  exists (bs ++ [op]). split.
  - unfold CVMCoder_Shift. fold c1. rewrite resolved_type, code_adjust, Hc, Hc1. by rewrite app_assoc.
  - unfold runs, cells, map. rewrite tag_type_of.
    eapply (performs_seq _ _ _ [(W32, i32 (number v2)); cell_of v1]);
      [exact (performs_frame _ [_] [_] _ Hp1)|exact Hp|]. simpl in *. lia.
Qed.

(** ** Unary operators *)

Lemma CVMCoder_Unary_compiles coder opcode v out :
  il_unary opcode v = Some out ->
  compiles coder (CVMCoder_Unary coder opcode (type_of v)) [v] out.
Proof.
  unfold il_unary. destruct (int_unary _ _ _) as [r|] eqn:Hr; [|done]. intros [= <-].
  unfold compiles, runs, cells, map. rewrite tag_type_of. revert Hr. unfold int_unary.
  replace (CVMCoder_Unary coder opcode (type_of v)) with
    (CVMCoder_Unary coder opcode (width_type (width_of v)))
    by (destruct v; try done; unfold CVMCoder_Unary; simpl; unfold native; by destruct IL_NATIVE_INT64).
  unfold cell_of. generalize (width_of v) (number v). intros w n.
  destruct (Z.eqb_spec opcode IL_OP_NEG) as [->|_]; [|destruct (Z.eqb_spec opcode IL_OP_NOT) as [->|_]; [|done]].
  - intros [= <-]. destruct w; (eexists; split; [reflexivity|]); norm_u8; by auto with performs.
  - intros Hr. injection Hr as <-.
    destruct w; (eexists; split; [reflexivity|]); norm_u8; apply performs_wf; intros Hwf;
      inversion Hwf as [|? ? Wn _]; subst; simpl in Wn;
      [eapply performs_eq; [apply performs_INOT|]|eapply performs_eq; [apply performs_LNOT|]];
      repeat f_equal; revert Wn; width_lia.
Qed.

(** ** Comparisons *)

Lemma three_way_tests a b :
  (three_way a b =? 0) = (a =? b) /\ (0 <? three_way a b) = (b <? a) /\
  (three_way a b <? 0) = (a <? b) /\ (three_way a b <=? 0) = negb (b <? a) /\
  (0 <=? three_way a b) = negb (a <? b).
Proof.
  unfold three_way. destruct (Z.ltb_spec a b), (Z.ltb_spec b a); try lia;
    (destruct (Z.eqb_spec a b); [lia|done]) || (destruct (Z.eqb_spec a b); [done|lia]).
Qed.

(** Comparison at a width, then the test of the three-way result. *)
Lemma compare_test_performs (w : width) cmp test (t : Z -> bool) a b x y :
  performs [COP_PREFIX; cmp] [(w, b); (w, a)] (inr [(W32, three_way x y)]) ->
  (test, t) ∈ set_tests ->
  performs ([COP_PREFIX; cmp] ++ [COP_PREFIX; test]) [(w, b); (w, a)]
    (inr [(W32, b2z (t (three_way x y)))]).
Proof.
  intros Hc Ht. eapply performs_seq; [exact Hc|by apply performs_set_test|]. simpl.
  pose proof (words_of_pos w). lia.
Qed.

Lemma uns_eq w a b : wrap w a = a -> wrap w b = b -> (uns w a =? uns w b) = (a =? b).
Proof. destruct w; simpl; intros Ha Hb; repeat case_cmp; try done; exfalso; width_lia. Qed.

(** The two instructions of a comparison, for operands already of one width. *)
Lemma compare_ops_performs coder opcode w a b r inv :
  int_compare w opcode a b = Some r ->
  exists bs,
    Coder.code
      (if opcode =? IL_OP_PREFIX + IL_PREFIX_OP_CEQ then
         OutputCondCompare coder COP_PREFIX_ICMP COP_PREFIX_LCMP COP_PREFIX_FCMPL COP_PREFIX_FCMPL
           COP_PREFIX_SETEQ COP_PREFIX_SETNE (width_type w) inv
       else if opcode =? IL_OP_PREFIX + IL_PREFIX_OP_CGT then
         OutputCondCompare coder COP_PREFIX_ICMP COP_PREFIX_LCMP COP_PREFIX_FCMPL COP_PREFIX_FCMPG
           COP_PREFIX_SETGT COP_PREFIX_SETLE (width_type w) inv
       else if opcode =? IL_OP_PREFIX + IL_PREFIX_OP_CGT_UN then
         OutputCondCompare coder COP_PREFIX_ICMP_UN COP_PREFIX_LCMP_UN COP_PREFIX_FCMPG
           COP_PREFIX_FCMPG COP_PREFIX_SETGT COP_PREFIX_SETLE (width_type w) inv
       else if opcode =? IL_OP_PREFIX + IL_PREFIX_OP_CLT then
         OutputCondCompare coder COP_PREFIX_ICMP COP_PREFIX_LCMP COP_PREFIX_FCMPG COP_PREFIX_FCMPL
           COP_PREFIX_SETLT COP_PREFIX_SETGE (width_type w) inv
       else if opcode =? IL_OP_PREFIX + IL_PREFIX_OP_CLT_UN then
         OutputCondCompare coder COP_PREFIX_ICMP_UN COP_PREFIX_LCMP_UN COP_PREFIX_FCMPL
           COP_PREFIX_FCMPL COP_PREFIX_SETLT COP_PREFIX_SETGE (width_type w) inv
       else coder) = Coder.code coder ++ bs /\
    performs bs [(w, b); (w, a)] (inr [(W32, b2z (xorb inv r))]).
Proof.
  unfold int_compare. intros Hr.
  repeat match type of Hr with
  | (if opcode =? ?o then _ else _) = _ =>
      destruct (Z.eqb_spec opcode o) as [->|_];
        [injection Hr as <-; destruct inv, w; (eexists; split; [eapply emitted_4; reflexivity|]); norm_u8|]
  end; [..|done].
  all: cbn iota; destruct (three_way_tests a b) as (T1 & T2 & T3 & T4 & T5);
    destruct (three_way_tests (uns W32 a) (uns W32 b)) as (_ & U2 & U3 & U4 & U5);
    destruct (three_way_tests (uns W64 a) (uns W64 b)) as (_ & V2 & V3 & V4 & V5).
  all: match goal with |- performs [COP_PREFIX; ?cmp; COP_PREFIX; ?test] [(?w, _); _] _ =>
      eapply performs_eq;
        [eapply (compare_test_performs w cmp test);
          [by auto with performs
          |unfold set_tests; repeat first [apply list_elem_of_here | apply list_elem_of_further]]
        |cbv beta; do 4 f_equal; unfold xorb]
    end; first [assumption | by rewrite T1].
Qed.

Lemma CVMCoder_Compare_compiles coder opcode v1 v2 r inv :
  il_compare opcode v1 v2 = Some r ->
  compiles coder (CVMCoder_Compare coder opcode (type_of v1) (type_of v2) inv) [v2; v1]
    (Values [VI4 (b2z (xorb inv r))]).
Proof.
  unfold il_compare. intros Ho.
  destruct (widen false v1 v2) as [[[[w t] a] b]|] eqn:Hw; [|done]. simpl in Ho.
  destruct (adjust_mixed_performs coder _ _ _ _ _ _ _ Hw) as (coder' & bs & Ha & Hc & Hp).
  destruct (compare_ops_performs coder' opcode w a b r inv Ho) as (bs' & Hc' & Hp').
  exists (bs ++ bs'). split.
  - unfold CVMCoder_Compare. rewrite Ha. cbv beta iota. rewrite app_assoc, <-Hc, <-Hc'.
    unfold int_compare in Ho.
    repeat match type of Ho with
    | (if opcode =? ?o then _ else _) = _ => destruct (opcode =? o); [done|]
    end. done.
  - eapply performs_seq; [exact Hp|exact Hp'|]. rewrite (widen_size _ _ _ _ _ _ _ Hw). lia.
Qed.

(** ** Constants *)

Lemma read_int64_bytes b0 b1 b2 b3 b4 b5 b6 b7 :
  Forall is_byte [b0; b1; b2; b3; b4; b5; b6; b7] ->
  IL_READ_INT64 b0 b1 b2 b3 b4 b5 b6 b7 =
    i64 (b0 + 2 ^ 8 * b1 + 2 ^ 16 * b2 + 2 ^ 24 * b3 +
         2 ^ 32 * b4 + 2 ^ 40 * b5 + 2 ^ 48 * b6 + 2 ^ 56 * b7).
Proof.
  rewrite !Forall_cons_iff. intros (? & ? & ? & ? & ? & ? & ? & ? & _). unfold IL_READ_INT64.
  rewrite !read_uint32_bytes by done. unfold is_byte in *.
  rewrite Z.lor_comm, lor_shiftl_add by lia.
  generalize dependent (b0 + 2 ^ 8 * b1 + 2 ^ 16 * b2 + 2 ^ 24 * b3). intros lo.
  set (hi := b4 + 2 ^ 8 * b5 + 2 ^ 16 * b6 + 2 ^ 24 * b7).
  replace (lo + 2 ^ 32 * b4 + 2 ^ 40 * b5 + 2 ^ 48 * b6 + 2 ^ 56 * b7)
    with (hi * 2 ^ 32 + lo) by (unfold hi; lia).
  change (2 ^ 32) with 0x100000000. clearbody hi. width_lia.
Qed.

Lemma performs_ldc_value opcode :
  (IL_OP_LDC_I4_M1 <=? opcode) && (opcode <=? IL_OP_LDC_I4_8) = true ->
  performs [u8 (opcode - IL_OP_LDNULL + COP_LDNULL)] []
    (inr [(W32, opcode - IL_OP_LDC_I4_0)]).
Proof.
  intros H. bool_to_prop.
  assert (exists k, opcode = IL_OP_LDC_I4_M1 + k /\ (k = 0 \/ k = 1 \/ k = 2 \/ k = 3 \/ k = 4 \/ k = 5 \/
    k = 6 \/ k = 7 \/ k = 8 \/ k = 9)) as (k & -> & Hk).
  { exists (opcode - IL_OP_LDC_I4_M1). unfold IL_OP_LDC_I4_M1, IL_OP_LDC_I4_8 in *. lia. }
  repeat destruct Hk as [->|Hk]; try subst k;
    match goal with |- performs [?op] [] (inr [(W32, ?v)]) =>
      exact (performs_LDC_I4_VALUE op v (dispatch_main _ op [] eq_refl))
    end.
Qed.

(** The argument starts with the bytes of the constant. *)
Lemma CVMCoder_Constant_compiles coder opcode arg v :
  Forall is_byte arg -> il_const opcode arg = Some v ->
  exists coder', CVMCoder_Constant coder opcode arg = Some coder' /\
    compiles coder coder' [] (Values [v]).
Proof.
  intros Hb. unfold il_const, CVMCoder_Constant.
  destruct ((IL_OP_LDC_I4_M1 <=? opcode) && (opcode <=? IL_OP_LDC_I4_8)) eqn:E.
  { pose proof (performs_ldc_value opcode E) as Hp. bool_to_prop.
    intros [= <-]. rewrite (proj2 (Z.leb_le IL_OP_LDNULL opcode)) by
      (unfold IL_OP_LDNULL, IL_OP_LDC_I4_M1 in *; lia).
    rewrite (proj2 (Z.leb_le opcode IL_OP_LDC_I4_8)) by done. simpl andb.
    eexists. split; [reflexivity|]. eexists. split; [reflexivity|exact Hp]. }
  destruct (Z.eqb_spec opcode IL_OP_LDC_I4_S) as [->|_].
  { simpl andb. cbv iota. destruct arg as [|b arg]; [done|]. simpl. intros [= <-].
    eexists. split; [reflexivity|]. eexists. split; [eapply emitted_2; reflexivity|].
    eapply performs_eq; [apply performs_LDC_I4_S|]. unfold cells, cell_of. simpl. do 3 f_equal. width_lia. }
  destruct (Z.eqb_spec opcode IL_OP_LDC_I4) as [->|_].
  { simpl andb. cbv iota. destruct arg as [|b0 [|b1 [|b2 [|b3 arg]]]]; try done. simpl. intros [= <-].
    eexists. split; [reflexivity|]. eexists. split; [eapply emitted_5; reflexivity|].
    rewrite <-read_uint32_bytes by (repeat (apply Forall_cons_iff in Hb as [? Hb]); done).
    eapply performs_eq; [apply performs_LDC_I4|]. rewrite word_bytes by apply u32_range. done. }
  destruct (Z.eqb_spec opcode IL_OP_LDC_I8) as [->|_]; [|done].
  simpl andb. cbv iota. destruct arg as [|b0 [|b1 [|b2 [|b3 [|b4 [|b5 [|b6 [|b7 arg]]]]]]]]; try done.
  intros [= <-]. eexists. split; [reflexivity|]. eexists. split; [eapply emitted_9; reflexivity|].
  repeat (apply Forall_cons_iff in Hb as [? Hb]).
  rewrite !u8_id by done. rewrite <-read_int64_bytes by (repeat (apply Forall_cons_2; [done|]); done).
  apply performs_LDC_I8.
Qed.

(** ** Duplication and removal *)

Lemma words_of_native : words_of native = CVM_WORDS_PER_NATIVE_INT.
Proof. unfold native, CVM_WORDS_PER_NATIVE_INT. by destruct IL_NATIVE_INT64. Qed.

Variable GetTypeSize : Z -> Z.

Lemma CVMCoder_Dup_words coder v ti :
  CVMCoder_Dup GetTypeSize coder (type_of v) ti = DupWords coder (words_of (width_of v)).
Proof. destruct v; simpl; try done. by rewrite words_of_native. Qed.

Lemma CVMCoder_Pop_words coder v ti :
  CVMCoder_Pop GetTypeSize coder (type_of v) ti = PopWords coder (words_of (width_of v)).
Proof. destruct v; simpl; try done. by rewrite words_of_native. Qed.

Lemma CVMCoder_Dup_compiles coder v ti :
  compiles coder (CVMCoder_Dup GetTypeSize coder (type_of v) ti) [v] (Values [v; v]).
Proof.
  rewrite CVMCoder_Dup_words. eexists. split; [|apply performs_dup].
  unfold DupWords. rewrite code_adjust. pose proof (words_of_pos (width_of v)).
  assert (words_of (width_of v) = 1 \/ words_of (width_of v) = 2) as [-> | ->] by lia; done.
Qed.

Lemma CVMCoder_Pop_compiles coder v ti :
  compiles coder (CVMCoder_Pop GetTypeSize coder (type_of v) ti) [v] (Values []).
Proof.
  rewrite CVMCoder_Pop_words. eexists. split; [|apply performs_pop].
  unfold PopWords. rewrite code_adjust. pose proof (words_of_pos (width_of v)).
  assert (words_of (width_of v) = 1 \/ words_of (width_of v) = 2) as [-> | ->] by lia; done.
Qed.

End CoderProps.
