(* ===== verification/CoderConv.v ===== *)
(** * The CVM coder is correct on conversions (proofs about engine/cvmc_conv.c)

    The instructions each conversion outputs, read as tests and functions of
    the number at the top of the stack, against the conversions of ILSpec.v. *)
From Stdlib Require Import ZArith Lia.
From stdpp Require Import base list option numbers.
From S2P Require Import Prelude Opcodes Cvm Interp Coder ILSpec CvmProps CvmOps CvmConvOps CoderProps.

Local Open Scope Z_scope.

Section CoderConv.
Context {PF : Platform}.

(** ** Conversions

    The instructions of a conversion, each as a test and a function of the
    cell at the top. *)
Inductive conv_insn := Plain (op : Z) | Prefixed (op : Z).

Definition insn_bytes (i : conv_insn) : list Z :=
  match i with Plain op => [op] | Prefixed op => [COP_PREFIX; op] end.

Definition plain_int : list (Z * (Z -> cell)) :=
  [(COP_I2B, fun a => (W32, i8 a)); (COP_I2UB, fun a => (W32, u8 a));
   (COP_I2S, fun a => (W32, i16 a)); (COP_I2US, fun a => (W32, u16 a));
   (COP_I2L, fun a => (W64, a)); (COP_IU2L, fun a => (W64, u32 a))].

Definition prefixed_long : list (Z * (Z -> bool * cell)) :=
  [(COP_PREFIX_L2I_OVF, fun a => (in_range IL_MIN_INT32 IL_MAX_INT32 a, (W32, i32 a)));
   (COP_PREFIX_L2UI_OVF, fun a => (in_range 0 IL_MAX_UINT32 a, (W32, i32 a)));
   (COP_PREFIX_LU2I_OVF, fun a => (in_range 0 IL_MAX_INT32 (u64 a), (W32, i32 (u64 a))));
   (COP_PREFIX_LU2IU_OVF, fun a => (in_range 0 IL_MAX_UINT32 (u64 a), (W32, i32 (u64 a))));
   (COP_PREFIX_L2UL_OVF, fun a => (in_range 0 IL_MAX_INT64 a, (W64, a)));
   (COP_PREFIX_LU2L_OVF, fun a => (in_range 0 IL_MAX_INT64 a, (W64, a)))].

Definition conv_insn_result (i : conv_insn) (c : cell) : option (bool * cell) :=
  match i, c with
  | Plain op, (W32, a) => f ← assoc op plain_int; Some (true, f a)
  | Plain op, (W64, a) => if op =? COP_L2I then Some (true, (W32, i32 a)) else None
  | Prefixed op, (W32, a) =>
    if op =? COP_PREFIX_I2UL_OVF then Some (0 <=? a, (W64, a))
    else '(lo, hi) ← assoc op int_tests; Some (in_range lo hi a, (W32, a))
  | Prefixed op, (W64, a) => f ← assoc op prefixed_long; Some (f a)
  end.

Fixpoint conv_result (insns : list conv_insn) (c : cell) : option (bool * cell) :=
  match insns with
  | [] => Some (true, c)
  | i :: insns =>
    '(ok, c) ← conv_insn_result i c;
    '(ok', c) ← conv_result insns c;
    Some (ok && ok', c)
  end.

Definition if_ok (r : bool * cell) : exn + list cell :=
  if fst r then inr [snd r] else inl OverflowException.

Lemma assoc_in {A} k (l : list (Z * A)) a : assoc k l = Some a -> (k, a) ∈ l.
Proof.
  induction l as [|[k' a'] l IH]; simpl; [done|]. rewrite elem_of_cons.
  destruct (Z.eqb_spec k k') as [->|]; [intros [= ->]; by left|auto].
Qed.

Lemma conv_insn_performs i c r :
  conv_insn_result i c = Some r -> performs (insn_bytes i) [c] (if_ok r).
Proof.
  destruct i as [op|op], c as [[] a]; cbn [conv_insn_result insn_bytes].
  - destruct (assoc op plain_int) as [f|] eqn:E; [|done]. intros [= <-]. apply assoc_in in E.
    unfold plain_int in E. rewrite !elem_of_cons, elem_of_nil in E. unfold if_ok; simpl.
    repeat destruct E as [[= -> ->]|E]; try done; by auto with performs.
  - destruct (Z.eqb_spec op COP_L2I) as [->|]; [|done]. intros [= <-]. apply performs_L2I.
  - destruct (Z.eqb_spec op COP_PREFIX_I2UL_OVF) as [->|].
    + intros [= <-]. unfold if_ok; simpl. eapply performs_eq; [apply performs_I2UL_OVF|done].
    + destruct (assoc op int_tests) as [[lo hi]|] eqn:E; [|done]. intros [= <-].
      by apply performs_int_test, assoc_in.
  - destruct (assoc op prefixed_long) as [f|] eqn:E; [|done]. intros [= <-]. apply assoc_in in E.
    unfold prefixed_long in E. rewrite !elem_of_cons, elem_of_nil in E. unfold if_ok; simpl.
    repeat destruct E as [[= -> ->]|E]; try done.
    all: cbn [fst snd];
      first [by auto with performs | apply performs_L2UL_OVF | apply performs_LU2L_OVF].
Qed.

(** One instruction, and two with an int between them. *)
Lemma conv_performs_1 i c r out :
  conv_insn_result i c = Some r -> if_ok r = out -> performs (insn_bytes i) [c] out.
Proof. intros H <-. by apply conv_insn_performs. Qed.

Lemma conv_performs_2 i j c ok x r out :
  conv_insn_result i c = Some (ok, (W32, x)) -> conv_insn_result j (W32, x) = Some r ->
  if_ok (ok && fst r, snd r) = out -> performs (insn_bytes i ++ insn_bytes j) [c] out.
Proof.
  intros Hi%conv_insn_performs Hj%conv_insn_performs <-. destruct ok; [|by apply performs_raise].
  unfold if_ok in *. simpl in *. eapply performs_seq; [exact Hi|exact Hj|].
  destruct c as [w a]. simpl. pose proof (words_of_pos w). lia.
Qed.

Lemma runs_if bs pre (ok : bool) v :
  performs bs (cells pre) (if ok then inr [cell_of v] else inl OverflowException) ->
  runs bs pre (if ok then Values [v] else Raise Overflow).
Proof. by destruct ok. Qed.

(** The conversions of a number of a width, with its type resolved. *)
Definition canonical (v : value) : value :=
  match width_of v with W32 => VI4 (number v) | W64 => VI8 (number v) end.

Lemma il_conv_canonical opcode v : il_conv opcode v = il_conv opcode (canonical v).
Proof. unfold canonical. destruct v; simpl; try done. by destruct native eqn:E; unfold il_conv; simpl; rewrite E. Qed.

Lemma cell_canonical v : cell_of (canonical v) = cell_of v.
Proof. unfold canonical, cell_of. destruct v; simpl; try done. by destruct native. Qed.

Lemma conv_canonical coder opcode v :
  CVMCoder_Conv coder opcode (type_of v) = CVMCoder_Conv coder opcode (type_of (canonical v)).
Proof.
  unfold canonical, CVMCoder_Conv. destruct v; try done. simpl. unfold native.
  by destruct IL_NATIVE_INT64.
Qed.

End CoderConv.

(** Run the one or two instructions of a conversion. *)
Ltac conv_run :=
  norm_u8;
  lazymatch goal with
  | |- performs [] _ _ => eapply performs_eq; [apply performs_nil|]
  | |- performs [COP_PREFIX; ?a; COP_PREFIX; ?b] _ _ =>
    eapply (conv_performs_2 (Prefixed a) (Prefixed b)); [reflexivity|reflexivity|]
  | |- performs [COP_PREFIX; ?a] _ _ => eapply (conv_performs_1 (Prefixed a)); [reflexivity|]
  | |- performs [?a; ?b] _ _ =>
    eapply (conv_performs_2 (Plain a) (Plain b)); [reflexivity|reflexivity|]
  | |- performs [?a] _ _ => eapply (conv_performs_1 (Plain a)); [reflexivity|]
  end.

Lemma single_result (w : width) x y :
  x = y -> (inr [(w, x)] : exn + list (width * Z)) = inr [(w, y)].
Proof. by intros ->. Qed.

(** The numbers on both sides are equal, case by case of the tests. *)
Ltac conv_equal :=
  unfold if_ok, in_range, cells, cell_of; cbn; unfold native in *; cbn in *;
  repeat (case_cmp; cbn [andb]); try reflexivity;
  first [ solve [apply single_result; width_lia] | exfalso; width_lia ].

(** The conversion of [v] to a type, its opcode known to be in a table. *)
Ltac conv_cases Ha :=
  rewrite !elem_of_cons, elem_of_nil in Ha;
  repeat (destruct Ha as [Ha|Ha]; [injection Ha; clear Ha; intros; subst|]); try done.

Lemma conv_plain_compiles {PF : Platform} coder opcode (un : bool) f t v n :
  v = VI4 n \/ v = VI8 n ->
  assoc opcode conv_plain = Some (un, f, t) ->
  compiles coder (CVMCoder_Conv coder opcode (type_of v)) [v]
    (Values [tag t (f (if un then uns (width_of v) n else n))]).
Proof.
  destruct PF as [[] sw sf Hsw Hsf]; intros [-> | ->] Ha%assoc_in; unfold conv_plain in Ha;
    conv_cases Ha; unfold compiles, runs; (eexists; split; [emitted|]); cbn [app];
    apply performs_wf; intros Hwf; inversion Hwf as [|? ? Wn _]; subst; cbn in Wn;
    conv_run; conv_equal.
Qed.

Lemma conv_checked_compiles {PF : Platform} coder opcode (un : bool) lo hi t v n z :
  v = VI4 n \/ v = VI8 n ->
  assoc opcode conv_checked = Some (un, lo, hi, t) ->
  z = (if un then uns (width_of v) n else n) ->
  compiles coder (CVMCoder_Conv coder opcode (type_of v)) [v]
    (if (lo <=? z) && (z <=? hi) then Values [tag t (wrap_type t z)] else Raise Overflow).
Proof.
  destruct PF as [[] sw sf Hsw Hsf]; intros [-> | ->] Ha%assoc_in Hz; unfold conv_checked in Ha;
    conv_cases Ha; unfold compiles; (eexists; split; [emitted|]); apply runs_if; cbn [app];
    apply performs_wf; intros Hwf; inversion Hwf as [|? ? Wn _]; subst; cbn in Wn;
    conv_run; conv_equal.
Qed.

Section CoderConv2.
Context {PF : Platform}.

Lemma compiles_canonical coder coder' v out :
  compiles coder coder' [canonical v] out -> compiles coder coder' [v] out.
Proof. unfold compiles, runs, cells. simpl. by rewrite cell_canonical. Qed.

Lemma CVMCoder_Conv_compiles coder opcode v out :
  il_conv opcode v = Some out ->
  compiles coder (CVMCoder_Conv coder opcode (type_of v)) [v] out.
Proof.
  rewrite il_conv_canonical, conv_canonical. intros Ho. apply compiles_canonical.
  assert (exists n, canonical v = VI4 n \/ canonical v = VI8 n) as (n & Hn)
    by (exists (number v); unfold canonical; destruct (width_of v); auto).
  assert (number (canonical v) = n) as Hnum by (destruct Hn as [-> | ->]; done).
  revert Ho. unfold il_conv. rewrite Hnum.
  destruct (assoc opcode conv_plain) as [[[un f] t]|] eqn:E.
  - intros [= <-]. by apply conv_plain_compiles.
  - destruct (assoc opcode conv_checked) as [[[[un lo] hi] t]|] eqn:E'; [|done].
    intros [= <-]. by eapply conv_checked_compiles.
Qed.

End CoderConv2.
