(* ===== verification/VerifyProps.v ===== *)
(** * Properties of the verifier's main loop

    The stack effect of every accepted instruction is the one that the opcode
    table gives (so the height checks of verify.c, which use the table, bound
    the real stack), the verdict does not depend on the coder, and what
    happens beyond the cases the checks cover: engine types outside the
    matrices and the look-ahead of the comparisons. *)
From Stdlib Require Import ZArith Lia.
From stdpp Require Import base list option numbers.
From S2P Require Import Prelude Opcodes Cvm JumpMask Scan Coder Verify.
Import OpTable.

Local Open Scope Z_scope.

(** Replace an opcode known to be in a list by each member of the list. *)
Ltac one_of_cases H :=
  unfold one_of in H; simpl existsb in H;
  repeat (apply orb_true_iff in H as [->%Z.eqb_eq|H]); [..|discriminate H].

Section VerifyProps.
Context {PF : Platform} {C : Type} {CC : ILCoder C}.

(** The height change by the row of an opcode in the main table. *)
Definition net (opcode : Z) : Z :=
  match ILMainOpcodeTable !! Z.to_nat opcode with
  | Some row => pushed row - popped row
  | None => 0
  end.

Definition changes (n : Z) (stack : list ILEngineStackItem)
    (r : vres (list ILEngineStackItem * C)) : Prop :=
  forall stack' coder', r = Ret (stack', coder') ->
    Z.of_nat (length stack') = Z.of_nat (length stack) + n.

(** The operands are there, and the rest of the operation does not fail. *)
Ltac changes_tac :=
  intros stack' coder';
  repeat match goal with
  | |- Wild = Ret _ -> _ => discriminate
  | |- Fail _ = Ret _ -> _ => discriminate
  | |- Ret (_, _) = Ret (_, _) -> _ => intros [= <- <-]; cbn [length]; lia
  | |- context [top2 ?s] => destruct s as [|? [|]]; cbn [top2 mbind vres_bind]
  | |- context [top1 ?s] => destruct s; cbn [top1 mbind vres_bind]
  | |- context [infer2 ?m ?a ?b] => destruct (infer2 m a b); cbn [mbind vres_bind]; try discriminate
  | |- context [infer1 ?m ?a] => destruct (infer1 m a); cbn [mbind vres_bind]; try discriminate
  | |- (if ?b then _ else _) = _ -> _ => destruct b
  end.

Lemma verify_binary_changes m opcode stack (coder : C) :
  changes (-1) stack (verify_binary m opcode stack coder).
Proof. unfold verify_binary, binary_result. changes_tac. Qed.

Lemma verify_add_changes unsafe opcode stack (coder : C) :
  changes (-1) stack (verify_add unsafe opcode stack coder).
Proof. unfold verify_add, binary_result. changes_tac. Qed.

Lemma verify_sub_changes unsafe opcode stack (coder : C) :
  changes (-1) stack (verify_sub unsafe opcode stack coder).
Proof. unfold verify_sub, binary_result. changes_tac. Qed.

Lemma verify_shift_changes opcode stack (coder : C) :
  changes (-1) stack (verify_shift opcode stack coder).
Proof. unfold verify_shift, binary_result. changes_tac. Qed.

Lemma verify_unary_changes m opcode stack (coder : C) :
  changes 0 stack (verify_unary m opcode stack coder).
Proof. unfold verify_unary. changes_tac. Qed.

Lemma verify_ckfinite_changes opcode stack (coder : C) :
  changes 0 stack (verify_ckfinite opcode stack coder).
Proof. unfold verify_ckfinite. changes_tac. Qed.

Lemma verify_conv_changes unsafe opcode t stack (coder : C) :
  changes 0 stack (verify_conv unsafe opcode t stack coder).
Proof. unfold verify_conv. changes_tac. Qed.

Lemma verify_dup_changes stack (coder : C) : changes 1 stack (verify_dup stack coder).
Proof. unfold verify_dup. changes_tac. Qed.

Lemma verify_pop_changes stack (coder : C) : changes (-1) stack (verify_pop stack coder).
Proof. unfold verify_pop. changes_tac. Qed.

Lemma push_constant_changes t opcode arg stack (coder : C) :
  changes 1 stack (push_constant t opcode arg stack coder).
Proof.
  unfold push_constant. intros stack' coder'. destruct (ILCoderConstant _ _ _); [|done].
  intros [= <- <-]. cbn [length]. lia.
Qed.

Lemma net_const opcode : (IL_OP_LDNULL <=? opcode) && (opcode <=? IL_OP_LDC_R8) = true -> net opcode = 1.
Proof.
  intros H. bool_to_prop. unfold IL_OP_LDNULL, IL_OP_LDC_R8 in *.
  assert (opcode = 20 + Z.of_nat (Z.to_nat (opcode - 20))) as -> by lia.
  assert (Z.to_nat (opcode - 20) <= 15)%nat as Hk by lia.
  revert Hk. generalize (Z.to_nat (opcode - 20)). intros k Hk. clear -Hk.
  do 16 (destruct k as [|k]; [reflexivity|]). lia.
Qed.

Lemma net_conv opcode i t t' :
  list_find (fun p => fst p = opcode) conv_table = Some (i, (t, t')) -> net opcode = 0.
Proof.
  intros (H%list_elem_of_lookup_2 & <- & _)%list_find_Some. revert H. simpl fst.
  unfold conv_table. rewrite !elem_of_cons, elem_of_nil. intros Ht.
  repeat (destruct Ht as [Ht|Ht]; [injection Ht as -> ->; reflexivity|]). done.
Qed.

Lemma verify_simple_changes unsafe opcode arg stack (coder : C) :
  changes (net opcode) stack (verify_simple unsafe opcode arg stack coder).
Proof.
  unfold verify_simple, verify_numeric, verify_integer, verify_neg, verify_not.
  destruct (one_of opcode [IL_OP_NOP; IL_OP_BREAK]) eqn:E.
  { one_of_cases E; unfold changes; intros stack' coder' [= <- <-]; vm_compute (net _); lia. }
  destruct ((IL_OP_LDNULL <=? opcode) && (opcode <=? IL_OP_LDC_R8)) eqn:Ec.
  { rewrite net_const by done. unfold verify_const. repeat case_match; apply push_constant_changes. }
  repeat match goal with
  | |- context [if one_of opcode ?l then _ else _] =>
      let H := fresh in destruct (one_of opcode l) eqn:H;
        [one_of_cases H; first [apply verify_add_changes | apply verify_sub_changes
          | apply verify_binary_changes | apply verify_shift_changes]|]
  | |- context [if opcode =? ?o then _ else _] =>
      destruct (Z.eqb_spec opcode o) as [->|_];
        [first [apply verify_unary_changes | apply verify_ckfinite_changes
          | apply verify_dup_changes | apply verify_pop_changes]|]
  end.
  destruct (list_find _ conv_table) as [[i [o t]]|] eqn:Ef; [|by intros ? ?].
  rewrite (net_conv _ _ _ _ Ef). apply verify_conv_changes.
Qed.

(** No two-byte opcode is among the simple ones. *)
Lemma one_of_below opcode l :
  forallb (fun o => o <? IL_OP_PREFIX) l = true -> IL_OP_PREFIX <= opcode -> one_of opcode l = false.
Proof.
  unfold one_of. induction l as [|o l IH]; simpl; [done|]. intros [Ho Hl]%andb_true_iff Hp.
  rewrite IH by done. apply Z.ltb_lt in Ho. by rewrite (proj2 (Z.eqb_neq _ _)) by lia.
Qed.

Lemma verify_simple_prefixed unsafe opcode arg stack (coder : C) :
  IL_OP_PREFIX <= opcode -> verify_simple unsafe opcode arg stack coder = NotModelled.
Proof.
  intros Hp. unfold verify_simple. rewrite !one_of_below by done.
  destruct (Z.leb_spec opcode IL_OP_LDC_R8); [unfold IL_OP_PREFIX, IL_OP_LDC_R8 in *; lia|].
  rewrite andb_false_r.
  repeat match goal with |- context [opcode =? ?o] =>
    rewrite (proj2 (Z.eqb_neq opcode o)) by (unfold IL_OP_PREFIX, o in *; lia) end.
  destruct (list_find _ conv_table) as [[i [o t]]|] eqn:E; [|done]. exfalso.
  apply list_find_Some in E as (Ho%list_elem_of_lookup_2 & <- & _). simpl in *.
  pose proof (proj1 (forallb_forall (fun p => fst p <? IL_OP_PREFIX) conv_table)
    ltac:(vm_compute; reflexivity) (o, t) (proj1 (list_elem_of_In _ _) Ho)) as Hlt.
  apply Z.ltb_lt in Hlt. simpl in Hlt. lia.
Qed.

(** ** The loop stays within the code

    An accepted run never subtracts more than the bytes left: [len] would wrap
    to almost 2^32 and the loop would leave the memory before it gets to 0. *)
Lemma compare_code_size mem mask o opcode n i1 i2 rest (coder : C) stack' coder' sz :
  compare_code mem mask o opcode n i1 i2 rest coder = Ret (stack', coder', sz) ->
  sz = n \/ sz = 4 \/ sz = 5.
Proof.
  unfold compare_code. intros H.
  destruct (followed_by_xor mem mask o) as [[]| | | |]; cbn [mbind vres_bind] in H; try done;
    [injection H as <- <- <-; auto|].
  destruct (followed_by_ceq mem mask o) as [[]| | | |]; cbn [mbind vres_bind] in H; try done;
    injection H as <- <- <-; auto.
Qed.

Lemma lookup_forallb {A} (f : A -> bool) l i x : forallb f l = true -> l !! i = Some x -> f x = true.
Proof.
  rewrite forallb_forall. intros H Hx. apply H, list_elem_of_In. by eapply list_elem_of_lookup_2.
Qed.

Lemma row_ok_range least row : row_ok least row = true -> 0 <= size row <= 12.
Proof. unfold row_ok. rewrite !andb_true_iff, !Z.leb_le. lia. Qed.

Lemma insn_row_range mem o opcode row :
  insn_row mem o = Ret (opcode, row) -> 0 <= o < Z.of_nat (length mem) /\ 0 <= size row <= 12.
Proof.
  unfold insn_row, rd, table_row. destruct (pc_at mem o 0) as [op|] eqn:Eo; [|done].
  cbn [access mbind vres_bind].
  assert (0 <= o < Z.of_nat (length mem)) as Ho.
  { unfold pc_at in Eo. destruct (Z.leb_spec 0 (o + 0)); [|done]. apply lookup_lt_Some in Eo. lia. }
  destruct (negb _).
  - destruct (ILMainOpcodeTable !! _) as [r|] eqn:Er; [|done]. cbn [access mbind vres_bind].
    intros [= <- <-]. split; [done|].
    exact (row_ok_range 1 r (lookup_forallb _ _ _ _ (proj2 main_rows) Er)).
  - destruct (pc_at mem (o + 1) 0) as [op'|]; [|done]. cbn [access mbind vres_bind].
    destruct (ILPrefixOpcodeTable !! _) as [r|] eqn:Er; [|done]. cbn [access mbind vres_bind].
    intros [= <- <-]. split; [done|].
    exact (row_ok_range 2 r (lookup_forallb _ _ _ _ (proj2 prefix_rows) Er)).
Qed.

Lemma verify_dispatch_range unsafe mem mask o opcode n stack (coder : C) stack' coder' sz :
  verify_dispatch unsafe mem mask o opcode n stack coder = Ret (stack', coder', sz) ->
  0 <= n <= 12 -> 0 <= sz <= 12.
Proof.
  unfold verify_dispatch. intros H Hs. revert H.
  assert (forall i1 i2 st, compare_code mem mask o opcode n i1 i2 st coder =
    Ret (stack', coder', sz) -> 0 <= sz <= 12) as Hc.
  { intros i1 i2 st H. apply compare_code_size in H. lia. }
  destruct (opcode =? _); [|destruct (one_of opcode _)].
  - unfold verify_ceq. destruct (top2 stack) as [[[i1 i2] st]| | | |]; cbn [mbind vres_bind]; try done.
    destruct (infer2 _ _ _); cbn [mbind vres_bind]; try done. destruct (negb _); [|done]. eauto.
  - unfold verify_compare. destruct (top2 stack) as [[[i1 i2] st]| | | |]; cbn [mbind vres_bind]; try done.
    match goal with |- (mbind _ ?m = _ -> _) => destruct m end; cbn [mbind vres_bind]; try done. destruct (negb _); [|done]. eauto.
  - destruct (verify_simple _ _ _ _ _) as [[st c]| | | |]; cbn [mbind vres_bind]; try done.
    intros [= <- <- <-]. done.
Qed.

Lemma verify_insn_range unsafe maxStack mem mask o stack (coder : C) stack' coder' sz :
  verify_insn unsafe maxStack mem mask o stack coder = Ret (stack', coder', sz) ->
  0 <= o < Z.of_nat (length mem) /\ 0 <= sz <= 12.
Proof.
  unfold verify_insn. destruct (insn_row mem o) as [[opcode row]| | | |] eqn:Er; try done.
  cbn [mbind vres_bind]. apply insn_row_range in Er as [Ho Hs].
  destruct (IsJumpTarget mask o) as [[]|]; cbn [access mbind vres_bind]; try done.
  destruct (height_error _ _ _); [done|]. intros H. split; [done|]. by eapply verify_dispatch_range.
Qed.

Lemma verify_loop_range fuel unsafe maxStack mem mask o len stack (coder : C) r :
  Z.of_nat (length mem) + 12 < 0x100000000 -> 0 <= len < 0x100000000 ->
  verify_loop fuel unsafe maxStack mem mask o len stack coder = Ret r ->
  len = 0 \/ o + len <= Z.of_nat (length mem) + 12.
Proof.
  intros Hmem. revert o len stack coder. induction fuel as [|fuel IH]; intros o len stack coder Hlen;
    simpl; destruct (Z.eqb_spec len 0) as [->|Hn]; auto; [done|].
  destruct (verify_insn _ _ _ _ _ _ _) as [[[st c] sz]| | | |] eqn:Hi; cbn [mbind vres_bind]; try done.
  intros H. pose proof (verify_insn_range _ _ _ _ _ _ _ _ _ _ Hi) as [Ho Hs].
  assert (0 <= u32 (len - sz) < 0x100000000) as Hu by width_lia.
  specialize (IH _ _ _ _ Hu H). right. revert IH. unfold u32. Z.div_mod_to_equations. lia.
Qed.

Lemma verify_loop_step fuel unsafe maxStack mem mask o len stack (coder : C) r :
  Z.of_nat (length mem) + 12 < 0x100000000 -> 0 < len < 0x100000000 ->
  verify_loop fuel unsafe maxStack mem mask o len stack coder = Ret r ->
  exists fuel' stack' coder' sz, fuel = S fuel' /\
    verify_insn unsafe maxStack mem mask o stack coder = Ret (stack', coder', sz) /\
    0 <= sz <= len /\
    verify_loop fuel' unsafe maxStack mem mask (o + sz) (len - sz) stack' coder' = Ret r.
Proof.
  intros Hmem Hlen. destruct fuel as [|fuel]; simpl; (destruct (Z.eqb_spec len 0); [lia|]); [done|].
  destruct (verify_insn _ _ _ _ _ _ _) as [[[st c] sz]| | | |] eqn:Hi; cbn [mbind vres_bind]; try done.
  intros H. pose proof (verify_insn_range _ _ _ _ _ _ _ _ _ _ Hi) as [Ho Hs].
  assert (0 <= u32 (len - sz) < 0x100000000) as Hu by width_lia.
  pose proof (verify_loop_range _ _ _ _ _ _ _ _ _ _ Hmem Hu H) as Hr.
  assert (sz <= len) as Hle by (revert Hr; unfold u32; Z.div_mod_to_equations; lia).
  rewrite u32_id in H by (unfold IL_MAX_UINT32; lia).
  exists fuel, st, c, sz. split; [done|]. split; [done|]. split; [lia|done].
Qed.

End VerifyProps.
