(* ===== verification/Refine.v ===== *)
(** * The verifier accepts what the CVM then executes as IL says

    The verifier of Verify.v run with the CVM coder, on stacks of integers:
    each accepted instruction has a result in the reference semantics, leaves
    values of the types the verifier recorded, and the bytes output for it
    make the interpreter compute that result. *)
From Stdlib Require Import ZArith Lia.
From stdpp Require Import base list option numbers.
From S2P Require Import Prelude Opcodes Cvm Interp JumpMask Scan Coder Verify ILSpec CvmProps CvmOps CoderProps CoderConv.
Import OpTable.

Local Open Scope Z_scope.

(** Replace an opcode known to be in a list by each member of the list. *)
Ltac opcode_cases H :=
  unfold listed, binary_opcodes, shift_opcodes, compare_opcodes, unary_opcodes in H;
  simpl existsb in H; repeat (apply orb_true_iff in H as [->%Z.eqb_eq|H]); [..|discriminate H].

Section Typed.
Context {PF : Platform}.

(** The values [vs] have the types that the verifier has recorded. *)
Definition typed (stack : list ILEngineStackItem) (vs : list value) : Prop :=
  map engineType stack = map type_of vs /\ Forall wf_value vs.

Lemma typed_2 stack v2 v1 rest :
  typed stack (v2 :: v1 :: rest) ->
  exists i2 i1 stack', stack = i2 :: i1 :: stack' /\ engineType i2 = type_of v2 /\
    engineType i1 = type_of v1 /\ typed stack' rest /\ wf_value v2 /\ wf_value v1.
Proof.
  intros [Ht Hwf]. destruct stack as [|i2 [|i1 stack']]; try done. injection Ht as E2 E1 Ht.
  inversion Hwf as [|? ? W2 Hwf']; subst. inversion Hwf'; subst. by exists i2, i1, stack'.
Qed.

Lemma typed_1 stack v rest :
  typed stack (v :: rest) ->
  exists i stack', stack = i :: stack' /\ engineType i = type_of v /\ typed stack' rest /\ wf_value v.
Proof.
  intros [Ht Hwf]. destruct stack as [|i stack']; [done|]. injection Ht as E Ht.
  inversion Hwf; subst. by exists i, stack'.
Qed.

End Typed.

(** The two stack operands of an accepted instruction. *)
Ltac two_operands Hs v2 v1 rest i2 i1 st :=
  lazymatch type of Hs with typed ?stack ?vs =>
    destruct vs as [|v2 [|v1 rest]];
    [destruct Hs as [Hs _]; destruct stack as [|? [|]]; done
    |destruct Hs as [Ht _]; destruct stack as [|? [|]]; done
    |destruct (typed_2 _ _ _ _ Hs) as (i2 & i1 & st & -> & E2 & E1 & Hs' & W2 & W1)]
  end; cbn [mbind vres_bind top2];
  repeat match goal with
  | H : engineType ?i = type_of _ |- context [engineType ?i] => rewrite !H
  end.

Ltac one_operand Hs v rest i st :=
  lazymatch type of Hs with typed ?stack ?vs =>
    destruct vs as [|v rest];
    [destruct Hs as [Hs _]; destruct stack; done
    |destruct (typed_1 _ _ _ Hs) as (i & st & -> & E & Hs' & W)]
  end; cbn [mbind vres_bind top1];
  repeat match goal with
  | H : engineType ?i = type_of _ |- context [engineType ?i] => rewrite !H
  end.

Section Refine.
Context {PF : Platform}.
(** The values left are typed; and some values are, when there are none. *)
Definition result_typed (stack : list ILEngineStackItem) (out : il_out) : Prop :=
  (forall vs, out = Values vs -> typed stack vs) /\ exists vs, typed stack vs.

Lemma result_typed_values stack vs : typed stack vs -> result_typed stack (Values vs).
Proof. intros H. split; [by intros vs' [= <-]|by exists vs]. Qed.

(** An accepted instruction: its outcome, the code for it and the new types. *)
Definition sound (opcode : Z) (arg : list Z) (vs : list value) (coder coder' : ILCVMCoder)
    (stack' : list ILEngineStackItem) : Prop :=
  exists out, il_exec opcode arg vs = Some out /\ compiles coder coder' vs out /\
    result_typed stack' out.

Definition frame_out (rest : list value) (out : il_out) : il_out :=
  match out with Values ws => Values (ws ++ rest) | Raise e => Raise e end.

Lemma above_rest_frame rest out : above_rest rest (Some out) = Some (frame_out rest out).
Proof. by destruct out. Qed.

Lemma compiles_frame coder coder' pre rest out :
  compiles coder coder' pre out -> compiles coder coder' (pre ++ rest) (frame_out rest out).
Proof.
  intros (bs & Hc & Hr). exists bs. split; [done|]. unfold runs in *. unfold cells in *.
  destruct out as [post|e]; simpl; rewrite !map_app; exact (performs_frame _ _ (map cell_of rest) _ Hr).
Qed.

(** ** Values in range *)

Lemma wf_value_wrap v : wf_value v <-> wrap (width_of v) (number v) = number v.
Proof. by destruct v. Qed.

Lemma wf_tag_type_of v z : wrap (width_of v) z = z -> wf_value (tag (type_of v) z).
Proof. by destruct v. Qed.

Lemma wf_tag_widen un v1 v2 w t a b z :
  widen un v1 v2 = Some (w, t, a, b) -> wrap w z = z -> wf_value (tag t z).
Proof. destruct v1, v2; simpl; intros [= <- <- <- <-]; done. Qed.

Lemma widen_range un v1 v2 w t a b :
  wf_value v1 -> wf_value v2 -> widen un v1 v2 = Some (w, t, a, b) ->
  wrap w a = a /\ wrap w b = b.
Proof.
  intros W1 W2. destruct v1, v2; simpl in *; intros [= <- <- <- <-]; try done; split; try done.
  all: destruct un; [by apply (wrap_wrap native)|].
  all: unfold native in *; destruct IL_NATIVE_INT64; simpl in *; try done; width_lia.
Qed.

Lemma type_of_tag_widen un v1 v2 w t a b z :
  widen un v1 v2 = Some (w, t, a, b) -> type_of (tag t z) = t.
Proof. destruct v1, v2; simpl; intros [= <- <- <- <-]; done. Qed.

Lemma type_of_tag_type_of v z : type_of (tag (type_of v) z) = type_of v.
Proof. by destruct v. Qed.

Lemma il_binary_wf opcode v1 v2 out t :
  wf_value v1 -> wf_value v2 -> il_binary opcode v1 v2 = Some out ->
  (exists w a b, widen (unsigned_op opcode) v1 v2 = Some (w, t, a, b)) ->
  match out with Values vs => exists v, vs = [v] /\ type_of v = t /\ wf_value v | Raise _ => True end.
Proof.
  intros W1 W2 Ho (w & a & b & Hw). unfold il_binary in Ho. rewrite Hw in Ho. simpl in Ho.
  destruct (int_binary w opcode a b) as [r|] eqn:Hr; [|done]. injection Ho as <-.
  destruct r as [e|z]; simpl; [done|]. exists (tag t z). split; [done|].
  split; [by eapply type_of_tag_widen|]. eapply wf_tag_widen; [exact Hw|].
  destruct (widen_range _ _ _ _ _ _ _ W1 W2 Hw). by apply (int_binary_range w opcode a b).
Qed.

(** ** The type inference matrices on integers *)

(** The common type of two integer operands. *)
Definition join (t1 t2 : ILEngineType) : ILEngineType :=
  match t1, t2 with
  | T_I4, T_I4 => T_I4
  | T_I8, T_I8 => T_I8
  | T_I, T_I | T_I, T_I4 | T_I4, T_I => T_I
  | _, _ => T_NO
  end.

Definition joins (m : list (list ILEngineType)) : Prop :=
  forall v1 v2, infer2 m (type_of v1) (type_of v2) = Ret (join (type_of v1) (type_of v2)).

Lemma numeric_joins : joins binaryNumericMatrix.
Proof. by intros [] []. Qed.
Lemma integer_joins : joins binaryIntegerMatrix.
Proof. by intros [] []. Qed.
Lemma add_unsafe_joins : joins addUnsafeMatrix.
Proof. by intros [] []. Qed.
Lemma sub_unsafe_joins : joins subUnsafeMatrix.
Proof. by intros [] []. Qed.
Lemma compare_joins : joins binaryCompareMatrix.
Proof. by intros [] []. Qed.
Lemma equality_joins : joins binaryEqualityMatrix.
Proof. by intros [] []. Qed.
Lemma unsafe_equality_joins : joins unsafeEqualityMatrix.
Proof. by intros [] []. Qed.

Lemma widen_join un v1 v2 :
  join (type_of v1) (type_of v2) <> T_NO ->
  exists w a b, widen un v1 v2 = Some (w, join (type_of v1) (type_of v2), a, b).
Proof. destruct v1, v2; simpl; intros H; try done; by eexists _, _, _. Qed.

Lemma join_not_pointer v1 v2 : is_pointer (join (type_of v1) (type_of v2)) = false.
Proof. by destruct v1, v2. Qed.

Lemma join_not_float v1 v2 : is_type (join (type_of v1) (type_of v2)) T_F = false.
Proof. by destruct v1, v2. Qed.

Lemma int_binary_total w opcode a b :
  listed opcode binary_opcodes = true -> exists r, int_binary w opcode a b = Some r.
Proof.
  unfold listed, binary_opcodes, int_binary. simpl existsb. intros H.
  repeat match goal with
  | |- context [if opcode =? ?o then _ else _] => destruct (opcode =? o) eqn:?; [by eexists|]
  end. discriminate H.
Qed.

(** ** The reference semantics by operand *)

Lemma il_exec_binary opcode arg v2 v1 rest :
  listed opcode binary_opcodes = true ->
  il_exec opcode arg (v2 :: v1 :: rest) = above_rest rest (il_binary opcode v1 v2).
Proof. intros H. opcode_cases H; reflexivity. Qed.

Lemma il_exec_shift opcode arg v2 v1 rest :
  listed opcode shift_opcodes = true ->
  il_exec opcode arg (v2 :: v1 :: rest) = above_rest rest (il_shift opcode v1 v2).
Proof. intros H. opcode_cases H; reflexivity. Qed.

Lemma il_exec_compare opcode arg v2 v1 rest :
  listed opcode compare_opcodes = true ->
  il_exec opcode arg (v2 :: v1 :: rest) =
    (b ← il_compare opcode v1 v2; Some (Values (VI4 (b2z b) :: rest))).
Proof. intros H. opcode_cases H; reflexivity. Qed.

Lemma il_exec_unary opcode arg v rest :
  listed opcode unary_opcodes = true ->
  il_exec opcode arg (v :: rest) = above_rest rest (il_unary opcode v).
Proof. intros H. opcode_cases H; reflexivity. Qed.

(** ** Soundness of the operations *)

Lemma typed_cons v stack vs ti :
  wf_value v -> typed stack vs -> typed (mk_item (type_of v) ti :: stack) (v :: vs).
Proof. intros Hv [Ht Hwf]. split; [simpl; by rewrite Ht|by apply Forall_cons_2]. Qed.

(** The type of a value that there is. *)
Definition int_type (t : ILEngineType) : Prop := exists v, type_of v = t /\ wf_value v.

Lemma int_type_of v : int_type (type_of v).
Proof.
  exists (tag (type_of v) 0). split; [apply type_of_tag_type_of|].
  apply wf_tag_type_of. unfold width_of. destruct v; try done. by destruct native.
Qed.

Lemma join_int v1 v2 : join (type_of v1) (type_of v2) <> T_NO -> int_type (join (type_of v1) (type_of v2)).
Proof.
  destruct v1, v2; simpl; intros H; try done;
    first [apply (int_type_of (VI4 0)) | apply (int_type_of (VI8 0)) | apply (int_type_of (VI 0))].
Qed.

Lemma typed_values stack rest (out : il_out) t ti :
  typed stack rest -> int_type t ->
  match out with Values vs => exists v, vs = [v] /\ type_of v = t /\ wf_value v | Raise _ => True end ->
  result_typed (mk_item t ti :: stack) (frame_out rest out).
Proof.
  intros Hr (v0 & <- & Hv0) Ho. split; [|exists (v0 :: rest); by apply typed_cons].
  intros vs' E. destruct out as [vs|e]; [|done]. destruct Ho as (v & -> & <- & Hv).
  injection E as <-. by apply typed_cons.
Qed.

Lemma int_unary_ok w opcode a :
  listed opcode unary_opcodes = true -> wrap w a = a ->
  exists r, int_unary w opcode a = Some r /\ wrap w r = r.
Proof.
  intros H Ha. opcode_cases H; eexists; (split; [reflexivity|]); [apply wrap_wrap|].
  revert Ha. destruct w; simpl; width_lia.
Qed.

Variable GetTypeSize : Z -> Z.

#[local] Instance CC : ILCoder ILCVMCoder := cvm_coder GetTypeSize.

(** An operator that the verifier passes to ILCoderBinary. *)
Lemma binary_sound opcode arg coder stack v1 v2 rest :
  listed opcode binary_opcodes = true ->
  typed stack rest -> wf_value v1 -> wf_value v2 ->
  join (type_of v1) (type_of v2) <> T_NO ->
  sound opcode arg (v2 :: v1 :: rest) coder
    (ILCoderBinary coder opcode (type_of v1) (type_of v2))
    (mk_item (join (type_of v1) (type_of v2)) 0 :: stack).
Proof.
  intros Hop Hs W1 W2 Hj. destruct (widen_join (unsigned_op opcode) v1 v2 Hj) as (w & a & b & Hw).
  destruct (int_binary_total w opcode a b Hop) as [r Hr].
  assert (il_binary opcode v1 v2 = Some (out_of (join (type_of v1) (type_of v2)) r)) as Ho
    by (unfold il_binary; by rewrite Hw; simpl; rewrite Hr).
  exists (frame_out rest (out_of (join (type_of v1) (type_of v2)) r)). split.
  - by rewrite il_exec_binary, Ho, above_rest_frame by done.
  - split; [by apply (compiles_frame _ _ [v2; v1]), CVMCoder_Binary_compiles|].
    apply typed_values; [done|by apply join_int|].
    apply (il_binary_wf opcode v1 v2); [done..|by exists w, a, b].
Qed.

Lemma is_type_spec a b : is_type a b = true <-> a = b.
Proof. apply bool_decide_eq_true. Qed.

Lemma verify_binary_sound m opcode arg stack vs coder stack' coder' :
  joins m -> listed opcode binary_opcodes = true -> typed stack vs ->
  verify_binary m opcode stack coder = Ret (stack', coder') ->
  sound opcode arg vs coder coder' stack'.
Proof.
  intros Hm Hop Hs. unfold verify_binary.
  destruct vs as [|v2 [|v1 rest]].
  1,2: destruct Hs as [Ht _]; destruct stack as [|? [|]]; done.
  destruct (typed_2 _ _ _ _ Hs) as (i2 & i1 & st & -> & E2 & E1 & Hs' & W2 & W1).
  cbn [mbind vres_bind top2]. rewrite E1, E2, Hm. cbn [mbind vres_bind].
  destruct (is_type _ T_NO) eqn:Ej; [done|]. intros [= <- <-].
  apply binary_sound; try done. intros E. by rewrite E in Ej.
Qed.

Lemma verify_add_sound unsafe opcode arg stack vs coder stack' coder' :
  listed opcode binary_opcodes = true -> typed stack vs ->
  verify_add unsafe opcode stack coder = Ret (stack', coder') ->
  sound opcode arg vs coder coder' stack'.
Proof.
  intros Hop Hs. unfold verify_add. two_operands Hs v2 v1 rest i2 i1 st.
  assert (joins (if unsafe then addUnsafeMatrix else binaryNumericMatrix)) as Hm
    by (destruct unsafe; [apply add_unsafe_joins|apply numeric_joins]).
  rewrite Hm. cbn [mbind vres_bind]. rewrite join_not_float, join_not_pointer. cbn [andb].
  destruct (is_type _ T_NO) eqn:Ej; [done|]. intros [= <- <-].
  apply binary_sound; try done. intros E. by rewrite E in Ej.
Qed.

Lemma verify_sub_sound unsafe opcode arg stack vs coder stack' coder' :
  listed opcode binary_opcodes = true -> typed stack vs ->
  verify_sub unsafe opcode stack coder = Ret (stack', coder') ->
  sound opcode arg vs coder coder' stack'.
Proof.
  intros Hop Hs. unfold verify_sub. two_operands Hs v2 v1 rest i2 i1 st.
  assert (joins (if unsafe then subUnsafeMatrix else binaryNumericMatrix)) as Hm
    by (destruct unsafe; [apply sub_unsafe_joins|apply numeric_joins]).
  rewrite Hm. cbn [mbind vres_bind]. rewrite join_not_float, join_not_pointer. cbn [andb].
  destruct (is_type _ T_NO) eqn:Ej; [done|]. intros [= <- <-].
  apply binary_sound; try done. intros E. by rewrite E in Ej.
Qed.

(** Shifts. *)
Lemma int_shift_range w opcode a n r :
  wrap w a = a -> int_shift w opcode a n = Some r -> wrap w r = r.
Proof.
  intros Ha. unfold int_shift. cbv zeta.
  repeat case_match; intros [= <-]; try apply wrap_wrap.
  apply wrap_div_pow2; [|done]. apply count_nonneg. by destruct w.
Qed.

Lemma int_shift_total w opcode a n :
  listed opcode shift_opcodes = true -> exists r, int_shift w opcode a n = Some r.
Proof.
  unfold listed, shift_opcodes, int_shift. simpl existsb. intros H. cbv zeta.
  repeat match goal with
  | |- context [if opcode =? ?o then _ else _] => destruct (opcode =? o) eqn:?; [by eexists|]
  end. discriminate H.
Qed.

Lemma verify_shift_sound opcode arg stack vs coder stack' coder' :
  listed opcode shift_opcodes = true -> typed stack vs ->
  verify_shift opcode stack coder = Ret (stack', coder') ->
  sound opcode arg vs coder coder' stack'.
Proof.
  intros Hop Hs. unfold verify_shift. two_operands Hs v2 v1 rest i2 i1 st.
  assert (infer2 binaryShiftMatrix (type_of v1) (type_of v2) =
    Ret (if is_type (type_of v2) T_I8 then T_NO else type_of v1)) as -> by (by destruct v1, v2).
  cbn [mbind vres_bind]. destruct (is_type (type_of v2) T_I8) eqn:E8; [done|].
  assert (is_type (type_of v1) T_NO = false) as -> by (by destruct v1). cbn [negb].
  intros [= <- <-].
  destruct (int_shift_total (width_of v1) opcode (number v1) (number v2) Hop) as [r Hr].
  assert (il_shift opcode v1 v2 = Some (Values [tag (type_of v1) r])) as Ho
    by (destruct v2; try done; unfold il_shift; by rewrite Hr).
  exists (frame_out rest (Values [tag (type_of v1) r])). split; [|split].
  - by rewrite il_exec_shift, Ho, above_rest_frame by done.
  - by apply (compiles_frame _ _ [v2; v1]), CVMCoder_Shift_compiles.
  - apply typed_values; [done|apply int_type_of|]. eexists. split; [reflexivity|].
    split; [apply type_of_tag_type_of|]. apply wf_tag_type_of.
    eapply int_shift_range; [by apply wf_value_wrap|exact Hr].
Qed.

(** Unary operators. *)
Lemma verify_unary_sound m opcode arg stack vs coder stack' coder' :
  (forall v, infer1 m (type_of v) = Ret (type_of v)) ->
  listed opcode unary_opcodes = true -> typed stack vs ->
  verify_unary m opcode stack coder = Ret (stack', coder') ->
  sound opcode arg vs coder coder' stack'.
Proof.
  intros Hm Hop Hs. unfold verify_unary. one_operand Hs v rest i st. rewrite Hm. cbn [mbind vres_bind].
  assert (is_type (type_of v) T_NO = false) as -> by (by destruct v). cbn [negb]. intros [= <- <-].
  destruct (int_unary_ok (width_of v) opcode (number v) Hop ltac:(by apply wf_value_wrap))
    as (r & Hr & Wr).
  assert (il_unary opcode v = Some (Values [tag (type_of v) r])) as Ho
    by (unfold il_unary; by rewrite Hr).
  exists (frame_out rest (Values [tag (type_of v) r])). split; [|split].
  - by rewrite il_exec_unary, Ho, above_rest_frame by done.
  - by apply (compiles_frame _ _ [v]), CVMCoder_Unary_compiles.
  - apply typed_values; [done|apply int_type_of|]. eexists. split; [reflexivity|].
    split; [apply type_of_tag_type_of|by apply wf_tag_type_of].
Qed.

(** Conversions. *)
Lemma il_exec_conv opcode t arg v rest :
  (opcode, t) ∈ conv_table -> t <> T_F ->
  il_exec opcode arg (v :: rest) = above_rest rest (il_conv opcode v).
Proof.
  unfold conv_table. rewrite !elem_of_cons, elem_of_nil. intros H Ht.
  repeat (destruct H as [H|H]; [injection H as -> ->; first [done | reflexivity]|]). done.
Qed.

Lemma il_conv_typed opcode t v :
  (opcode, t) ∈ conv_table -> t <> T_F -> wf_value v ->
  exists out, il_conv opcode v = Some out /\
    match out with Values vs => exists v, vs = [v] /\ type_of v = t /\ wf_value v | Raise _ => True end.
Proof.
  intros H Ht Hw. unfold conv_table in H. rewrite !elem_of_cons, elem_of_nil in H.
  repeat (destruct H as [H|H];
    [injection H as -> ->; first [done | eexists; split; [reflexivity|]]|]); [..|done].
  all: try (destruct (_ && _); [|done]).
  all: eexists; (split; [reflexivity|]); (split; [reflexivity|]).
  all: first [apply (wrap_wrap native) | simpl; width_lia].
Qed.

Lemma int_conv_type opcode t : (opcode, t) ∈ conv_table -> t <> T_F -> int_type t.
Proof.
  intros H Ht. unfold conv_table in H. rewrite !elem_of_cons, elem_of_nil in H.
  repeat (destruct H as [H|H]; [injection H as -> ->;
    first [done | apply (int_type_of (VI4 0)) | apply (int_type_of (VI8 0))
          | apply (int_type_of (VI 0))]|]). done.
Qed.

Lemma find_conv opcode i t t' :
  list_find (fun p => fst p = opcode) conv_table = Some (i, (t, t')) -> (opcode, t') ∈ conv_table.
Proof. intros (H & <- & _)%list_find_Some. by eapply list_elem_of_lookup_2. Qed.

Lemma verify_conv_sound unsafe opcode t arg stack vs coder stack' coder' :
  (opcode, t) ∈ conv_table -> t <> T_F -> typed stack vs ->
  verify_conv unsafe opcode t stack coder = Ret (stack', coder') ->
  sound opcode arg vs coder coder' stack'.
Proof.
  intros Hop Ht Hs. unfold verify_conv. one_operand Hs v rest i st.
  assert (Nat.leb (engine_number (type_of v)) (engine_number T_F) = true) as -> by (by destruct v).
  intros [= <- <-]. destruct (il_conv_typed _ _ v Hop Ht W) as (out & Ho & Hty).
  exists (frame_out rest out). split; [|split].
  - by rewrite (il_exec_conv _ _ _ _ _ Hop Ht), Ho, above_rest_frame.
  - by apply (compiles_frame _ _ [v]), CVMCoder_Conv_compiles.
  - apply typed_values; [done| |done]. by eapply int_conv_type.
Qed.

(** Constants. *)
Lemma il_const_typed opcode arg coder coder' :
  (IL_OP_LDC_I4_M1 <=? opcode) && (opcode <=? IL_OP_LDC_I4) || (opcode =? IL_OP_LDC_I8) = true ->
  CVMCoder_Constant coder opcode arg = Some coder' ->
  exists v, il_const opcode arg = Some v /\ wf_value v /\
    type_of v = if opcode =? IL_OP_LDC_I8 then T_I8 else T_I4.
Proof.
  intros Hop. destruct (Z.eqb_spec opcode IL_OP_LDC_I8) as [->|Hn].
  - unfold CVMCoder_Constant, il_const. simpl andb. cbv iota.
    change (IL_OP_LDC_I8 =? IL_OP_LDC_I4_S) with false. change (IL_OP_LDC_I8 =? IL_OP_LDC_I4) with false.
    change (IL_OP_LDC_I8 =? IL_OP_LDC_R4) with false. change (IL_OP_LDC_I8 =? IL_OP_LDC_I8) with true.
    cbv iota. destruct arg as [|b0 [|b1 [|b2 [|b3 [|b4 [|b5 [|b6 [|b7 arg]]]]]]]]; try done.
    intros _. eexists. split; [reflexivity|]. split; [apply (wrap_wrap W64)|done].
  - rewrite orb_false_r in Hop. bool_to_prop. unfold il_const, CVMCoder_Constant.
    destruct (Z.leb_spec opcode IL_OP_LDC_I4_8).
    + rewrite (proj2 (Z.leb_le IL_OP_LDC_I4_M1 opcode)) by done. intros _. eexists.
      split; [reflexivity|]. split; [|done]. simpl.
      unfold IL_OP_LDC_I4_M1, IL_OP_LDC_I4_8, IL_OP_LDC_I4_0 in *. width_lia.
    + rewrite !andb_false_r. unfold IL_OP_LDC_I4_M1, IL_OP_LDC_I4_8, IL_OP_LDC_I4 in *.
      assert (opcode = IL_OP_LDC_I4_S \/ opcode = IL_OP_LDC_I4) as [-> | ->]
        by (unfold IL_OP_LDC_I4_S, IL_OP_LDC_I4; lia).
      * simpl. destruct arg as [|b arg]; [done|]. intros _. eexists. split; [reflexivity|].
        split; [simpl; width_lia|done].
      * simpl. destruct arg as [|b0 [|b1 [|b2 [|b3 arg]]]]; try done. intros _. eexists.
        split; [reflexivity|]. split; [apply (wrap_wrap W32)|done].
Qed.

Lemma il_exec_const opcode arg v vs :
  il_const opcode arg = Some v -> il_exec opcode arg vs = Some (Values (v :: vs)).
Proof.
  intros H. assert (IL_OP_LDC_I4_M1 <= opcode <= IL_OP_LDC_I8) as Hr.
  { revert H. unfold il_const. destruct (_ && _) eqn:E.
    - intros _. bool_to_prop. unfold IL_OP_LDC_I4_8, IL_OP_LDC_I8 in *. lia.
    - repeat match goal with |- context [opcode =? ?o] => destruct (Z.eqb_spec opcode o) as [->|_] end;
        done. }
  unfold il_exec. rewrite H.
  assert (forall l, Forall (fun o => o < IL_OP_LDC_I4_M1 \/ IL_OP_LDC_I8 < o) l -> listed opcode l = false) as Hl.
  { intros l. unfold listed. induction 1 as [|o l Ho _ IH]; [done|]. simpl. rewrite IH, orb_false_r.
    apply Z.eqb_neq. lia. }
  rewrite !Hl by (repeat (apply Forall_cons_2; [vm_compute; auto|]); apply Forall_nil_2).
  rewrite (proj2 (Z.eqb_neq opcode IL_OP_DUP)), (proj2 (Z.eqb_neq opcode IL_OP_POP));
    [done|unfold IL_OP_LDC_I8, IL_OP_POP in *; lia|unfold IL_OP_LDC_I8, IL_OP_DUP in *; lia].
Qed.

Lemma push_constant_sound opcode arg stack vs coder stack' coder' t :
  Forall is_byte arg -> typed stack vs ->
  (IL_OP_LDC_I4_M1 <=? opcode) && (opcode <=? IL_OP_LDC_I4) || (opcode =? IL_OP_LDC_I8) = true ->
  t = (if opcode =? IL_OP_LDC_I8 then T_I8 else T_I4) ->
  push_constant t opcode arg stack coder = Ret (stack', coder') ->
  sound opcode arg vs coder coder' stack'.
Proof.
  intros Hb Hs Hop -> Hr. unfold push_constant in Hr.
  change (ILCoderConstant coder opcode arg) with (CVMCoder_Constant coder opcode arg) in Hr.
  destruct (CVMCoder_Constant coder opcode arg) as [c|] eqn:Ec; [|done].
  cbn [access mbind vres_bind] in Hr. injection Hr as <- <-.
  destruct (il_const_typed _ _ _ _ Hop Ec) as (v & Hv & Wv & Tv).
  destruct (CVMCoder_Constant_compiles coder opcode arg v Hb Hv) as (c' & Ec' & Hc).
  rewrite Ec in Ec'. injection Ec' as <-.
  exists (Values (v :: vs)). split; [by apply il_exec_const|]. split.
  - exact (compiles_frame _ _ [] vs _ Hc).
  - apply result_typed_values. rewrite <-Tv. by apply typed_cons.
Qed.

Lemma verify_const_sound opcode arg stack vs coder stack' coder' :
  Forall is_byte arg -> typed stack vs -> (IL_OP_LDNULL <=? opcode) && (opcode <=? IL_OP_LDC_R8) = true ->
  opcode <> IL_OP_LDNULL -> opcode <> IL_OP_LDC_R4 -> opcode <> IL_OP_LDC_R8 ->
  verify_const opcode arg stack coder = Ret (stack', coder') ->
  sound opcode arg vs coder coder' stack'.
Proof.
  intros Hb Hs Hr Hn Hn1 Hn2. unfold verify_const. rewrite (proj2 (Z.eqb_neq _ _) Hn).
  destruct ((IL_OP_LDC_I4_M1 <=? opcode) && (opcode <=? IL_OP_LDC_I4)) eqn:E4.
  - apply push_constant_sound; try done; [by rewrite E4|].
    bool_to_prop. rewrite (proj2 (Z.eqb_neq opcode IL_OP_LDC_I8)); [done|].
    unfold IL_OP_LDC_I4, IL_OP_LDC_I8 in *. lia.
  - destruct (opcode =? IL_OP_LDC_I8) eqn:E8.
    + apply push_constant_sound; try done; [by rewrite E8, orb_true_r|by rewrite E8].
    + exfalso. bool_to_prop. rewrite !Z.leb_gt in E4. clear Hb Hs.
      unfold IL_OP_LDNULL, IL_OP_LDC_R8, IL_OP_LDC_R4, IL_OP_LDC_I8, IL_OP_LDC_I4, IL_OP_LDC_I4_M1 in *.
      lia.
Qed.

(** Stack operations. *)
Lemma item_eta i t : engineType i = t -> i = mk_item t (typeInfo i).
Proof. intros <-. by destruct i. Qed.

Lemma verify_dup_sound arg stack vs coder stack' coder' :
  typed stack vs -> verify_dup stack coder = Ret (stack', coder') ->
  sound IL_OP_DUP arg vs coder coder' stack'.
Proof.
  intros Hs. unfold verify_dup. destruct vs as [|v rest].
  { destruct Hs as [Hs _]. by destruct stack. }
  destruct (typed_1 _ _ _ Hs) as (i & st & -> & E & Hs' & W). cbn [mbind vres_bind top1].
  intros [= <- <-]. rewrite E. exists (Values (v :: v :: rest)). split; [done|]. split.
  - exact (compiles_frame _ _ [v] rest _ (CVMCoder_Dup_compiles GetTypeSize coder v (typeInfo i))).
  - apply result_typed_values. rewrite (item_eta i _ E). by repeat apply typed_cons.
Qed.

Lemma verify_pop_sound arg stack vs coder stack' coder' :
  typed stack vs -> verify_pop stack coder = Ret (stack', coder') ->
  sound IL_OP_POP arg vs coder coder' stack'.
Proof.
  intros Hs. unfold verify_pop. destruct vs as [|v rest].
  { destruct Hs as [Hs _]. by destruct stack. }
  destruct (typed_1 _ _ _ Hs) as (i & st & -> & E & Hs' & W). cbn [mbind vres_bind top1].
  intros [= <- <-]. rewrite E. exists (Values rest). split; [done|]. split.
  - exact (compiles_frame _ _ [v] rest _ (CVMCoder_Pop_compiles GetTypeSize coder v (typeInfo i))).
  - by apply result_typed_values.
Qed.

Lemma compiles_nothing coder vs : compiles coder coder vs (Values vs).
Proof. exists []. rewrite app_nil_r. split; [done|apply performs_nil]. Qed.

Lemma verify_ckfinite_int opcode stack vs coder r :
  typed stack vs -> verify_ckfinite opcode stack coder = Ret r -> False.
Proof.
  intros Hs. unfold verify_ckfinite. one_operand Hs v rest i st. by destruct v.
Qed.

(** The opcodes that neither take nor make anything but integers. *)
Definition integer_opcode (opcode : Z) : bool :=
  negb (listed opcode [IL_OP_LDNULL; IL_OP_LDC_R4; IL_OP_LDC_R8; IL_OP_CONV_R4; IL_OP_CONV_R8;
                       IL_OP_CONV_R_UN; IL_OP_LDARGA_S; IL_OP_LDLOCA_S;
                       IL_OP_PREFIX + IL_PREFIX_OP_LDARGA; IL_OP_PREFIX + IL_PREFIX_OP_LDLOCA]).

Lemma listed_incl opcode l l' :
  forallb (fun o => listed o l') l = true -> listed opcode l = true -> listed opcode l' = true.
Proof.
  unfold listed. rewrite forallb_forall, !existsb_exists. intros H (o & Ho & ->%Z.eqb_eq).
  apply (proj1 (existsb_exists _ _)), H. done.
Qed.

Lemma integer_opcode_spec opcode :
  integer_opcode opcode = true ->
  opcode <> IL_OP_LDNULL /\ opcode <> IL_OP_LDC_R4 /\ opcode <> IL_OP_LDC_R8 /\
  opcode <> IL_OP_CONV_R4 /\ opcode <> IL_OP_CONV_R8 /\ opcode <> IL_OP_CONV_R_UN.
Proof.
  unfold integer_opcode, listed. simpl. intros H%negb_true_iff.
  repeat apply orb_false_iff in H as [?%Z.eqb_neq H]. done.
Qed.

Lemma integer_conv_type opcode t :
  integer_opcode opcode = true -> (opcode, t) ∈ conv_table -> t <> T_F.
Proof.
  intros H. apply integer_opcode_spec in H as (_ & _ & _ & H4 & H5 & H6).
  unfold conv_table. rewrite !elem_of_cons, elem_of_nil. intros Ht.
  repeat (destruct Ht as [Ht|Ht]; [injection Ht as -> ->; done|]). done.
Qed.

Lemma verify_simple_sound unsafe opcode arg stack vs coder stack' coder' :
  Forall is_byte arg -> integer_opcode opcode = true -> typed stack vs ->
  verify_simple unsafe opcode arg stack coder = Ret (stack', coder') ->
  sound opcode arg vs coder coder' stack'.
Proof.
  intros Hb Hi Hs. pose proof (integer_opcode_spec _ Hi) as (N1 & N2 & N3 & _).
  unfold verify_simple. change one_of with listed.
  destruct (listed opcode [IL_OP_NOP; IL_OP_BREAK]) eqn:E0.
  { intros [= <- <-]. exists (Values vs). split; [unfold il_exec; by rewrite E0|].
    split; [apply compiles_nothing|by apply result_typed_values]. }
  destruct (_ && _) eqn:E1; [by apply verify_const_sound|].
  destruct (listed _ [IL_OP_ADD; _]) eqn:E2.
  { apply verify_add_sound; [|done]. eapply listed_incl; [|exact E2]; reflexivity. }
  destruct (listed _ [IL_OP_SUB; _]) eqn:E3.
  { apply verify_sub_sound; [|done]. eapply listed_incl; [|exact E3]; reflexivity. }
  destruct (listed _ [IL_OP_MUL; _; _]) eqn:E4.
  { apply verify_binary_sound; [apply numeric_joins| |done]. eapply listed_incl; [|exact E4]; reflexivity. }
  destruct (listed _ (IL_OP_DIV_UN :: _)) eqn:E5.
  { apply verify_binary_sound; [apply integer_joins| |done]. eapply listed_incl; [|exact E5]; reflexivity. }
  destruct (listed _ [IL_OP_SHL; _; _]) eqn:E6; [by apply verify_shift_sound|].
  destruct (Z.eqb_spec opcode IL_OP_NEG) as [->|_].
  { apply verify_unary_sound; [by intros []|done..]. }
  destruct (Z.eqb_spec opcode IL_OP_NOT) as [->|_].
  { apply verify_unary_sound; [by intros []|done..]. }
  destruct (opcode =? IL_OP_CKFINITE).
  { intros H. by destruct (verify_ckfinite_int _ _ _ _ _ Hs H). }
  destruct (Z.eqb_spec opcode IL_OP_DUP) as [->|_]; [by apply verify_dup_sound|].
  destruct (Z.eqb_spec opcode IL_OP_POP) as [->|_]; [by apply verify_pop_sound|].
  destruct (list_find _ conv_table) as [[i [o t]]|] eqn:E; [|done]. intros Hr.
  apply find_conv in E. eapply verify_conv_sound; [exact E|by eapply integer_conv_type|done|exact Hr].
Qed.

End Refine.
