(* ===== verification/RefineBlock.v ===== *)
(** * Blocks of integer code: from IL to the run of the CVM

    IL code as a sequence of instructions in memory with its reference
    execution ([il_block]), and the refinement: a block that the verifier
    accepts with the CVM coder has an outcome in the reference semantics, and
    the bytecode output for it makes the interpreter reach that outcome.  The
    comparisons that the verifier merges with a following logical not are the
    case where one step of the verifier is up to three instructions of IL. *)
From Stdlib Require Import ZArith Lia.
From stdpp Require Import base list option numbers.
From S2P Require Import Prelude Opcodes Cvm Interp JumpMask Scan Coder Verify VerifyProps ILSpec CvmProps CvmOps CoderProps Refine.
Import OpTable.

Local Open Scope Z_scope.

(** ** IL code in memory *)

(** The opcode and the table row at [o], for the opcodes that are assigned and
    whose instructions have a fixed size. *)
Definition il_fetch (mem : list Z) (o : Z) : option (Z * ILOpcodeInfo) :=
  op ← pc_at mem o 0;
  '(opcode, row) ←
    (if negb (op =? IL_OP_PREFIX) then row ← ILMainOpcodeTable !! Z.to_nat op; Some (op, row)
     else
       op ← pc_at mem (o + 1) 0;
       row ← ILPrefixOpcodeTable !! Z.to_nat op;
       Some (op + IL_OP_PREFIX, row));
  if computed_size (args row) then None else Some (opcode, row).

Definition il_arg (mem : list Z) (o : Z) : list Z := drop (Z.to_nat (o + 1)) mem.

(** The instructions from [o] on end exactly at [e] and all satisfy [ok]. *)
Fixpoint walk_code (ok : Z -> bool) (fuel : nat) (mem : list Z) (o e : Z) : bool :=
  if o =? e then true
  else match fuel with
  | O => false
  | S fuel =>
    match il_fetch mem o with
    | Some (opcode, row) => ok opcode && walk_code ok fuel mem (o + size row) e
    | None => false
    end
  end.

(** Code of integer instructions only. *)
Definition integer_code : nat -> list Z -> Z -> Z -> bool := walk_code integer_opcode.

(** [q] is reached from [o] by the sizes of the instructions. *)
Inductive on_walk (mem : list Z) : Z -> Z -> Prop :=
  | walk_here o : on_walk mem o o
  | walk_next o opcode row q :
      il_fetch mem o = Some (opcode, row) -> on_walk mem (o + size row) q -> on_walk mem o q.

(** Execution of the instructions from [o] up to [e]. *)
Inductive il_block {PF : Platform} (mem : list Z) (e : Z) : Z -> list value -> il_out -> Prop :=
  | block_end vs : il_block mem e e vs (Values vs)
  | block_next o vs opcode row vs' out :
      il_fetch mem o = Some (opcode, row) -> o + size row <= e ->
      il_exec opcode (il_arg mem o) vs = Some (Values vs') ->
      il_block mem e (o + size row) vs' out -> il_block mem e o vs out
  | block_raise o vs opcode row x :
      il_fetch mem o = Some (opcode, row) -> o + size row <= e ->
      il_exec opcode (il_arg mem o) vs = Some (Raise x) -> il_block mem e o vs (Raise x).

(** ** Facts about the opcode tables *)

Lemma row_ok_size least row :
  row_ok least row = true -> computed_size (args row) = false -> least <= size row <= 12.
Proof.
  unfold row_ok. intros Hr Hc. rewrite Hc in Hr. simpl in Hr.
  rewrite !andb_true_iff, !Z.leb_le in Hr. lia.
Qed.

(** ** Fetching *)

Lemma pc_at_bounds mem o b : pc_at mem o 0 = Some b -> 0 <= o < Z.of_nat (length mem).
Proof.
  unfold pc_at. destruct (Z.leb_spec 0 (o + 0)); [|done]. intros Hl%lookup_lt_Some. lia.
Qed.

Lemma il_fetch_row mem o opcode row :
  il_fetch mem o = Some (opcode, row) -> insn_row mem o = Ret (opcode, row).
Proof.
  unfold il_fetch, insn_row, table_row, rd.
  destruct (pc_at mem o 0) as [op|]; cbn [mbind option_bind vres_bind access]; [|done].
  destruct (negb (op =? IL_OP_PREFIX)).
  - destruct (ILMainOpcodeTable !! Z.to_nat op) as [r|]; cbn [mbind option_bind vres_bind access]; [|done].
    destruct (computed_size (args r)); [done|]. by intros [= <- <-].
  - destruct (pc_at mem (o + 1) 0) as [op'|]; cbn [mbind option_bind vres_bind access]; [|done].
    destruct (ILPrefixOpcodeTable !! Z.to_nat op') as [r|]; cbn [mbind option_bind vres_bind access]; [|done].
    destruct (computed_size (args r)); [done|]. by intros [= <- <-].
Qed.

(** What a fetched row is: of the main table, or of the other one. *)
Lemma il_fetch_cases mem o opcode row :
  Forall is_byte mem -> il_fetch mem o = Some (opcode, row) ->
  0 <= o < Z.of_nat (length mem) /\ 1 <= size row <= 12 /\
  (opcode <> IL_OP_PREFIX /\ is_byte opcode /\ ILMainOpcodeTable !! Z.to_nat opcode = Some row /\
     computed_size (args row) = false /\ pc_at mem o 0 = Some opcode \/
   exists op, opcode = op + IL_OP_PREFIX /\ is_byte op /\ ILPrefixOpcodeTable !! Z.to_nat op = Some row).
Proof.
  intros Hb. unfold il_fetch. destruct (pc_at mem o 0) as [op|] eqn:Eo; [|done].
  pose proof (pc_at_bounds _ _ _ Eo) as Ho. cbn [mbind option_bind].
  assert (forall i b, pc_at mem i 0 = Some b -> is_byte b) as Hbyte.
  { intros i b H. unfold pc_at in H. destruct (0 <=? i + 0); [|done].
    by eapply Forall_lookup_1 in H. }
  destruct (Z.eqb_spec op IL_OP_PREFIX) as [Ep|Ep]; cbn [negb].
  - destruct (pc_at mem (o + 1) 0) as [op'|] eqn:Eo'; [|done]. cbn [mbind option_bind].
    destruct (ILPrefixOpcodeTable !! Z.to_nat op') as [r|] eqn:Er; [|done]. cbn [mbind option_bind].
    destruct (computed_size (args r)) eqn:Ec; [done|]. intros [= <- <-]. split; [done|].
    pose proof (row_ok_size _ _ (lookup_forallb _ _ _ _ (proj2 prefix_rows) Er) Ec).
    split; [lia|]. right. exists op'. split; [done|]. split; [by apply (Hbyte (o + 1))|]. done.
  - destruct (ILMainOpcodeTable !! Z.to_nat op) as [r|] eqn:Er; [|done]. cbn [mbind option_bind].
    destruct (computed_size (args r)) eqn:Ec; [done|]. intros [= <- <-]. split; [done|].
    pose proof (row_ok_size _ _ (lookup_forallb _ _ _ _ (proj2 main_rows) Er) Ec).
    split; [lia|]. left. split; [done|]. split; [by apply (Hbyte o)|]. done.
Qed.

(** A comparison is two bytes long and takes two operands. *)
Lemma il_fetch_compare mem o opcode row :
  Forall is_byte mem -> il_fetch mem o = Some (opcode, row) ->
  listed opcode compare_opcodes = true -> size row = 2 /\ popped row = 2 /\ pushed row = 1.
Proof.
  intros Hb Hf Hl. destruct (il_fetch_cases _ _ _ _ Hb Hf) as (_ & _ & Hcases).
  destruct Hcases as [(Hp & Hbyte & Hrow & Ha & _)|(op & -> & Hbyte & Hrow)].
  - exfalso. opcode_cases Hl; revert Hbyte Hrow Ha; unfold is_byte;
      first [ intros [_ Hlt]; vm_compute in Hlt; discriminate
            | vm_compute; intros _ [= <-]; done ].
  - assert (op = 1 \/ op = 2 \/ op = 3 \/ op = 4 \/ op = 5) as Hop.
    { unfold listed, compare_opcodes in Hl. simpl existsb in Hl.
      repeat (apply orb_true_iff in Hl as [Hl%Z.eqb_eq|Hl]);
        [unfold IL_PREFIX_OP_CEQ, IL_PREFIX_OP_CGT, IL_PREFIX_OP_CGT_UN, IL_PREFIX_OP_CLT,
           IL_PREFIX_OP_CLT_UN in Hl; lia..|done]. }
    destruct Hop as [->|[->|[->|[->| ->]]]]; vm_compute in Hrow; injection Hrow as <-; done.
Qed.

(** ** One step of the verifier *)

Section Block.
Context {PF : Platform}.
Variable GetTypeSize : Z -> Z.
#[local] Instance CC : ILCoder ILCVMCoder := cvm_coder GetTypeSize.

(** The [size] bytes at [o], from the values [vs]: what the verifier records,
    the code output, and the execution in the reference semantics. *)
Definition step_sound (mem : list Z) (o size : Z) (vs : list value) (coder coder' : ILCVMCoder)
    (stack' : list ILEngineStackItem) : Prop :=
  exists out, compiles coder coder' vs out /\ result_typed stack' out /\
    forall e, o + size <= e ->
      (forall vs' out', out = Values vs' -> il_block mem e (o + size) vs' out' ->
        il_block mem e o vs out') /\
      (forall x, out = Raise x -> il_block mem e o vs (Raise x)).

Lemma sound_step mem o opcode row vs coder coder' stack' :
  il_fetch mem o = Some (opcode, row) ->
  sound opcode (il_arg mem o) vs coder coder' stack' ->
  step_sound mem o (size row) vs coder coder' stack'.
Proof.
  intros Hf (out & He & Hc & Ht). exists out. split; [done|]. split; [done|]. intros e Hle. split.
  - intros vs' out' -> Hb. by eapply block_next.
  - intros x ->. by eapply block_raise.
Qed.

(** A comparison followed by a logical not, written in either way. *)
Lemma xor_1 b : Z.lxor (b2z b) 1 = b2z (negb b).
Proof. by destruct b. Qed.

Lemma fetch_main mem o op row :
  pc_at mem o 0 = Some op -> op <> IL_OP_PREFIX ->
  ILMainOpcodeTable !! Z.to_nat op = Some row -> computed_size (args row) = false ->
  il_fetch mem o = Some (op, row).
Proof.
  intros Ho Hn Hr Hc. unfold il_fetch. rewrite Ho. cbn [mbind option_bind].
  rewrite (proj2 (Z.eqb_neq _ _) Hn). cbn [negb]. rewrite Hr. cbn [mbind option_bind]. by rewrite Hc.
Qed.

Lemma block_xor mem e o r vs out :
  pc_at mem o 0 = Some IL_OP_LDC_I4_1 -> pc_at mem (o + 1) 0 = Some IL_OP_XOR -> o + 2 <= e ->
  il_block mem e (o + 2) (VI4 (b2z (negb r)) :: vs) out ->
  il_block mem e o (VI4 (b2z r) :: vs) out.
Proof.
  intros H0 H1 He Hb.
  assert (exists row, ILMainOpcodeTable !! Z.to_nat IL_OP_LDC_I4_1 = Some row /\
    computed_size (args row) = false /\ size row = 1) as (r0 & Hr0 & Hc0 & Hs0)
    by (eexists; split; [vm_compute; reflexivity|done]).
  assert (exists row, ILMainOpcodeTable !! Z.to_nat IL_OP_XOR = Some row /\
    computed_size (args row) = false /\ size row = 1) as (r1 & Hr1 & Hc1 & Hs1)
    by (eexists; split; [vm_compute; reflexivity|done]).
  eapply (block_next mem e o); [exact (fetch_main mem _ IL_OP_LDC_I4_1 r0 H0 ltac:(discriminate) Hr0 Hc0)|lia|reflexivity|].
  rewrite Hs0.
  eapply (block_next mem e _); [exact (fetch_main mem _ IL_OP_XOR r1 H1 ltac:(discriminate) Hr1 Hc1)|lia|reflexivity|].
  rewrite xor_1, Hs1. by replace (o + 1 + 1) with (o + 2) by lia.
Qed.

Lemma block_ceq mem e o r vs out :
  pc_at mem o 0 = Some IL_OP_LDC_I4_0 -> pc_at mem (o + 1) 0 = Some IL_OP_PREFIX ->
  pc_at mem (o + 2) 0 = Some IL_PREFIX_OP_CEQ -> o + 3 <= e ->
  il_block mem e (o + 3) (VI4 (b2z (negb r)) :: vs) out ->
  il_block mem e o (VI4 (b2z r) :: vs) out.
Proof.
  intros H0 H1 H2 He Hb.
  assert (exists row, ILMainOpcodeTable !! Z.to_nat IL_OP_LDC_I4_0 = Some row /\
    computed_size (args row) = false /\ size row = 1) as (r0 & Hr0 & Hc0 & Hs0)
    by (eexists; split; [vm_compute; reflexivity|done]).
  assert (exists row, ILPrefixOpcodeTable !! Z.to_nat IL_PREFIX_OP_CEQ = Some row /\
    computed_size (args row) = false /\ size row = 2) as (r1 & Hr1 & Hc1 & Hs1)
    by (eexists; split; [vm_compute; reflexivity|done]).
  eapply (block_next mem e o); [exact (fetch_main mem _ IL_OP_LDC_I4_0 r0 H0 ltac:(discriminate) Hr0 Hc0)|lia|reflexivity|]. rewrite Hs0.
  assert (il_fetch mem (o + 1) = Some (IL_PREFIX_OP_CEQ + IL_OP_PREFIX, r1)) as Hf.
  { unfold il_fetch. rewrite H1. cbn [mbind option_bind]. simpl negb. cbv iota.
    replace (o + 1 + 1) with (o + 2) by lia. rewrite H2. cbn [mbind option_bind]. rewrite Hr1.
    cbn [mbind option_bind]. by rewrite Hc1. }
  eapply (block_next mem e _); [exact Hf|lia|reflexivity|].
  rewrite Hs1. replace (o + 1 + 2) with (o + 3) by lia.
  by replace (b2z (b2z r =? IL_OP_LDC_I4_0 - IL_OP_LDC_I4_0)) with (b2z (negb r)) by (by destruct r).
Qed.

(** The look-ahead: what the memory holds when it says yes. *)
Lemma and_then_true a b : and_then a b = Ret true -> a = Ret true /\ b = Ret true.
Proof. unfold and_then. destruct a as [[]| | | |]; done. Qed.

Lemma rd_eqb mem i v :
  (b ← rd mem i; Ret (b =? v)) = Ret true -> pc_at mem i 0 = Some v.
Proof.
  unfold rd. destruct (pc_at mem i 0) as [b|]; [|done]. cbn [access mbind vres_bind].
  intros [= ->%Z.eqb_eq]. done.
Qed.

Lemma followed_by_xor_true mem mask o :
  followed_by_xor mem mask o = Ret true ->
  pc_at mem (o + 2) 0 = Some IL_OP_LDC_I4_1 /\ pc_at mem (o + 3) 0 = Some IL_OP_XOR.
Proof.
  unfold followed_by_xor. intros [H1 [H2 _]%and_then_true]%and_then_true.
  split; by apply rd_eqb.
Qed.

Lemma followed_by_ceq_true mem mask o :
  followed_by_ceq mem mask o = Ret true ->
  pc_at mem (o + 2) 0 = Some IL_OP_LDC_I4_0 /\ pc_at mem (o + 3) 0 = Some IL_OP_PREFIX /\
  pc_at mem (o + 4) 0 = Some IL_PREFIX_OP_CEQ.
Proof.
  unfold followed_by_ceq. intros [H1 [H2 [H3 _]%and_then_true]%and_then_true]%and_then_true.
  split; [by apply rd_eqb|]. split; by apply rd_eqb.
Qed.

(** The three ways a comparison is output. *)
Lemma compare_code_cases mem mask o opcode i1 i2 rest (coder : ILCVMCoder) stack' coder' sz :
  compare_code mem mask o opcode 2 i1 i2 rest coder = Ret (stack', coder', sz) ->
  stack' = mk_item T_I4 0 :: rest /\ exists inv,
    coder' = CVMCoder_Compare coder opcode (engineType i1) (engineType i2) inv /\
    (inv = true /\ followed_by_xor mem mask o = Ret true /\ sz = 4 \/
     inv = true /\ followed_by_ceq mem mask o = Ret true /\ sz = 5 \/
     inv = false /\ sz = 2).
Proof.
  unfold compare_code. destruct (followed_by_xor mem mask o) as [[]| | | |]; cbn [mbind vres_bind]; try done.
  - intros [= <- <- <-]. split; [done|]. exists true. auto.
  - destruct (followed_by_ceq mem mask o) as [[]| | | |]; cbn [mbind vres_bind]; try done;
      intros [= <- <- <-]; (split; [done|]); [exists true|exists false]; auto 6.
Qed.

Lemma int_compare_total w opcode a b :
  listed opcode compare_opcodes = true -> exists r, int_compare w opcode a b = Some r.
Proof. intros H. opcode_cases H; by eexists. Qed.

Lemma compare_step mem mask o opcode row i1 i2 st v1 v2 rest coder stack' coder' sz :
  il_fetch mem o = Some (opcode, row) -> size row = 2 -> listed opcode compare_opcodes = true ->
  typed st rest -> engineType i1 = type_of v1 -> engineType i2 = type_of v2 ->
  join (type_of v1) (type_of v2) <> T_NO ->
  compare_code mem mask o opcode 2 i1 i2 st coder = Ret (stack', coder', sz) ->
  step_sound mem o sz (v2 :: v1 :: rest) coder coder' stack'.
Proof.
  intros Hf Hsz Hop Hs E1 E2 Hj Hc.
  destruct (widen_join false v1 v2 Hj) as (w & a & b & Hw).
  destruct (int_compare_total w opcode a b Hop) as [r Hr].
  assert (il_compare opcode v1 v2 = Some r) as Hcmp by (unfold il_compare; by rewrite Hw).
  assert (il_exec opcode (il_arg mem o) (v2 :: v1 :: rest) = Some (Values (VI4 (b2z r) :: rest))) as Hx
    by (by rewrite il_exec_compare, Hcmp).
  destruct (compare_code_cases _ _ _ _ _ _ _ _ _ _ _ Hc) as (-> & inv & -> & Hcases).
  exists (Values (VI4 (b2z (xorb inv r)) :: rest)). rewrite E1, E2. split; [|split].
  - apply (compiles_frame _ _ [v2; v1] rest (Values [_])). by apply CVMCoder_Compare_compiles.
  - apply result_typed_values, (typed_cons (VI4 _)); [|done]. by destruct (xorb inv r).
  - intros e Hle. split; [|done]. intros vs' out' [= <-] Hb.
    assert (o + size row <= e) as Hle' by (destruct Hcases as [(_ & _ & ->)|[(_ & _ & ->)|(_ & ->)]]; lia).
    eapply (block_next mem e o); [exact Hf|exact Hle'|exact Hx|]. rewrite Hsz.
    destruct Hcases as [(-> & Hx4 & ->)|[(-> & Hc5 & ->)|(-> & ->)]]; [..|by destruct r].
    + apply followed_by_xor_true in Hx4 as [H2 H3].
      apply block_xor; [done|by replace (o + 2 + 1) with (o + 3) by lia|lia|].
      by replace (o + 2 + 2) with (o + 4) by lia.
    + apply followed_by_ceq_true in Hc5 as (H2 & H3 & H4).
      apply block_ceq; [done|by replace (o + 2 + 1) with (o + 3) by lia
        |by replace (o + 2 + 2) with (o + 4) by lia|lia|].
      by replace (o + 2 + 3) with (o + 5) by lia.
Qed.

(** *** The walk over the instructions *)

Lemma walk_code_step ok fuel mem o e :
  walk_code ok fuel mem o e = true -> o <> e ->
  exists opcode row fuel', il_fetch mem o = Some (opcode, row) /\ ok opcode = true /\
    walk_code ok fuel' mem (o + size row) e = true.
Proof.
  intros H Ho. destruct fuel as [|fuel]; simpl in H; rewrite (proj2 (Z.eqb_neq _ _) Ho) in H; [done|].
  destruct (il_fetch mem o) as [[opcode row]|]; [|done]. apply andb_true_iff in H as [? ?].
  by exists opcode, row, fuel.
Qed.

Lemma walk_code_le ok fuel mem o e :
  Forall is_byte mem -> walk_code ok fuel mem o e = true -> o <= e.
Proof.
  intros Hb. revert o. induction fuel as [|fuel IH]; intros o; simpl; destruct (Z.eqb_spec o e) as [->|]; try done.
  destruct (il_fetch mem o) as [[opcode row]|] eqn:Hf; [|done]. intros [_ H%IH]%andb_true_iff.
  destruct (il_fetch_cases _ _ _ _ Hb Hf) as (_ & Hs & _). lia.
Qed.

Lemma on_walk_trans mem o p q : on_walk mem o p -> on_walk mem p q -> on_walk mem o q.
Proof. induction 1 as [|o opcode row p Hf _ IH]; [done|]. intros H. by eapply walk_next; [|apply IH]. Qed.

Lemma on_walk_ge mem o q : Forall is_byte mem -> on_walk mem o q -> o <= q.
Proof.
  intros Hb. induction 1 as [|o opcode row q Hf _ IH]; [lia|].
  destruct (il_fetch_cases _ _ _ _ Hb Hf) as (_ & Hs & _). lia.
Qed.

Lemma walk_one mem o opcode row : il_fetch mem o = Some (opcode, row) -> on_walk mem o (o + size row).
Proof. intros Hf. eapply walk_next; [exact Hf|constructor]. Qed.

Lemma walk_more mem o n m :
  on_walk mem o (o + n) -> on_walk mem (o + n) (o + n + m) -> on_walk mem o (o + (n + m)).
Proof. rewrite Z.add_assoc. apply on_walk_trans. Qed.

(** The walk up to [e] passes every offset on it. *)
Lemma on_walk_code ok walk mem o q e :
  Forall is_byte mem -> on_walk mem o q -> walk_code ok walk mem o e = true -> q <= e ->
  exists walk', walk_code ok walk' mem q e = true.
Proof.
  intros Hb Ho. revert walk. induction Ho as [o|o op r q Hf Ho IH]; intros walk Hw He; [by exists walk|].
  pose proof (on_walk_ge _ _ _ Hb Ho). destruct (il_fetch_cases _ _ _ _ Hb Hf) as (_ & ? & _).
  destruct (walk_code_step _ _ _ _ _ Hw ltac:(lia)) as (op' & r' & w' & Hf' & _ & Hw').
  rewrite Hf in Hf'. injection Hf' as <- <-. by eapply IH.
Qed.

Lemma walk_compare mem mask o opcode row i1 i2 st coder stack' coder' sz :
  il_fetch mem o = Some (opcode, row) -> size row = 2 ->
  compare_code mem mask o opcode 2 i1 i2 st coder = Ret (stack', coder', sz) ->
  on_walk mem o (o + sz) /\ 2 <= sz <= 5.
Proof.
  intros Hf Hsz Hc. pose proof (walk_one _ _ _ _ Hf) as H2. rewrite Hsz in H2.
  assert (forall p op, pc_at mem p 0 = Some op -> op = IL_OP_LDC_I4_1 \/ op = IL_OP_XOR \/ op = IL_OP_LDC_I4_0 ->
    on_walk mem p (p + 1)) as Hone.
  { intros p op Hp Hop.
    assert (exists row, ILMainOpcodeTable !! Z.to_nat op = Some row /\
      computed_size (args row) = false /\ size row = 1 /\ op <> IL_OP_PREFIX) as (r & Hr & Hcr & <- & Hn)
      by (destruct Hop as [->|[->| ->]]; eexists; (split; [vm_compute; reflexivity|done])).
    eapply walk_one, fetch_main; done. }
  destruct (compare_code_cases _ _ _ _ _ _ _ _ _ _ _ Hc) as (_ & inv & _ & Hcases).
  destruct Hcases as [(_ & Hx & ->)|[(_ & Hx & ->)|(_ & ->)]]; [..|split; [done|lia]]; (split; [|lia]).
  - apply followed_by_xor_true in Hx as [Hx2 Hx3].
    apply (walk_more mem o 2 2); [done|]. apply (walk_more mem _ 1 1); [by eapply Hone; eauto|].
    replace (o + 2 + 1) with (o + 3) by lia. by eapply Hone; eauto.
  - apply followed_by_ceq_true in Hx as (Hx2 & Hx3 & Hx4).
    apply (walk_more mem o 2 3); [done|]. apply (walk_more mem _ 1 2); [by eapply Hone; eauto|].
    replace (o + 2 + 1) with (o + 3) by lia.
    assert (exists row, il_fetch mem (o + 3) = Some (IL_PREFIX_OP_CEQ + IL_OP_PREFIX, row) /\
      size row = 2) as (r & Hr & <-); [|by eapply walk_one].
    unfold il_fetch. rewrite Hx3. cbn [mbind option_bind]. simpl negb. cbv iota.
    replace (o + 3 + 1) with (o + 4) by lia. rewrite Hx4. eexists. split; [vm_compute; reflexivity|done].
Qed.

(** *** One instruction *)

Lemma compare_sound mem mask o opcode row i1 i2 st v1 v2 rest coder stack' coder' sz maxStack :
  il_fetch mem o = Some (opcode, row) -> size row = 2 -> popped row = 2 -> pushed row = 1 ->
  Z.of_nat (length (i2 :: i1 :: st)) - popped row + pushed row <= maxStack ->
  listed opcode compare_opcodes = true ->
  typed st rest -> engineType i1 = type_of v1 -> engineType i2 = type_of v2 ->
  join (type_of v1) (type_of v2) <> T_NO ->
  compare_code mem mask o opcode 2 i1 i2 st coder = Ret (stack', coder', sz) ->
  step_sound mem o sz (v2 :: v1 :: rest) coder coder' stack' /\ on_walk mem o (o + sz) /\
  1 <= sz <= 12 /\ Z.of_nat (length stack') <= maxStack.
Proof.
  intros Hf Hsz Hpop Hpush Hmax Hop Hs E1 E2 Hj Hc.
  destruct (walk_compare _ _ _ _ _ _ _ _ _ _ _ _ Hf Hsz Hc) as [Hw Hr].
  destruct (compare_code_cases _ _ _ _ _ _ _ _ _ _ _ Hc) as (Hst & _).
  split; [by eapply compare_step|]. split; [done|]. split; [lia|].
  subst stack'. cbn [length] in *. lia.
Qed.

Lemma verify_dispatch_sound unsafe maxStack mem mask o opcode row stack vs coder stack' coder' sz :
  Forall is_byte mem -> il_fetch mem o = Some (opcode, row) -> integer_opcode opcode = true ->
  height_error maxStack row stack = false -> typed stack vs ->
  verify_dispatch unsafe mem mask o opcode (size row) stack coder = Ret (stack', coder', sz) ->
  step_sound mem o sz vs coder coder' stack' /\ on_walk mem o (o + sz) /\ 1 <= sz <= 12 /\
  Z.of_nat (length stack') <= maxStack.
Proof.
  intros Hb Hf Hi [_ Hh%Z.ltb_ge]%orb_false_iff Hs. unfold verify_dispatch.
  destruct (il_fetch_cases _ _ _ _ Hb Hf) as (Ho & Hsize & Hrow).
  destruct (Z.eqb_spec opcode (IL_OP_PREFIX + IL_PREFIX_OP_CEQ)) as [Hop|_].
  { assert (listed opcode compare_opcodes = true) as Hl by (by rewrite Hop).
    destruct (il_fetch_compare _ _ _ _ Hb Hf Hl) as (Hsz & Hpop & Hpush). rewrite Hsz.
    unfold verify_ceq. two_operands Hs v2 v1 rest i2 i1 st.
    assert (joins (if unsafe then unsafeEqualityMatrix else binaryEqualityMatrix)) as Hm
      by (destruct unsafe; [apply unsafe_equality_joins|apply equality_joins]).
    rewrite Hm. cbn [mbind vres_bind].
    destruct (is_type _ T_NO) eqn:Ej; [done|]. cbn [negb]. intros Hc.
    eapply compare_sound; try done. intros E. by rewrite E in Ej. }
  destruct (one_of opcode _) eqn:Hcmp.
  { assert (listed opcode compare_opcodes = true) as Hl
      by (eapply listed_incl; [|exact Hcmp]; reflexivity).
    destruct (il_fetch_compare _ _ _ _ Hb Hf Hl) as (Hsz & Hpop & Hpush). rewrite Hsz.
    unfold verify_compare. two_operands Hs v2 v1 rest i2 i1 st.
    assert (is_type (type_of v1) T_O = false) as -> by (by destruct v1).
    rewrite andb_false_r. cbn [andb]. rewrite compare_joins. cbn [mbind vres_bind].
    destruct (is_type _ T_NO) eqn:Ej; [done|]. cbn [negb]. intros Hc.
    eapply compare_sound; try done. intros E. by rewrite E in Ej. }
  destruct Hrow as [(Hp & Hbyte & Hmain & _)|(op & -> & Hbyte & _)].
  - destruct (verify_simple _ _ _ _ _) as [[st' c']| | | |] eqn:Hv; try done. intros [= <- <- <-].
    split; [eapply sound_step; [done|]; eapply verify_simple_sound; try done|].
    { unfold il_arg. by apply Forall_drop. }
    split; [by eapply walk_one|]. split; [done|].
    pose proof (verify_simple_changes _ _ _ _ _ _ _ Hv) as Hn. unfold net in Hn.
    rewrite Hmain in Hn. lia.
  - rewrite verify_simple_prefixed by (unfold is_byte in Hbyte; lia). done.
Qed.

Lemma verify_insn_sound unsafe maxStack mem mask o opcode row stack vs coder stack' coder' sz :
  Forall is_byte mem -> il_fetch mem o = Some (opcode, row) -> integer_opcode opcode = true ->
  typed stack vs ->
  verify_insn unsafe maxStack mem mask o stack coder = Ret (stack', coder', sz) ->
  step_sound mem o sz vs coder coder' stack' /\ on_walk mem o (o + sz) /\ 1 <= sz <= 12 /\
  Z.of_nat (length stack') <= maxStack.
Proof.
  intros Hb Hf Hi Hs. unfold verify_insn. rewrite (il_fetch_row _ _ _ _ Hf). cbn [mbind vres_bind].
  destruct (IsJumpTarget mask o) as [[]|]; cbn [access mbind vres_bind]; try done.
  destruct (height_error _ _ _) eqn:Hh; [done|]. by apply verify_dispatch_sound.
Qed.

(** ** Blocks *)

(** Running [bs] from the values [pre], where the stack area has [room] words
    from the base of the values on. *)
Definition block_runs (bs : list Z) (pre : list value) (out : il_out) (room : Z) : Prop :=
  forall c st ws base,
    code_at c (pc st) bs -> below st = ws ++ base -> holds (cells pre) ws ->
    room <= Z.of_nat (length ws) + Z.of_nat (length (above st)) ->
    match out with
    | Values post => exists n ws' ab',
        run n c st =
          Some (Next (mk_cvm (pc st + Z.of_nat (length bs)) (frame st) (ws' ++ base) ab')) /\
        holds (cells post) ws' /\
        (length ws' + length ab' = length ws + length (above st))%nat
    | Raise e => exists n st', run n c st = Some (Throw (cvm_exn e) st')
    end.

Lemma cells_size_bound vs : cells_size (cells vs) <= CVM_WORDS_PER_LONG * Z.of_nat (length vs).
Proof.
  pose proof (words_of_pos W64) as Hl. simpl in Hl.
  induction vs as [|v vs IH]; simpl; [lia|]. fold (cells_size (cells vs)).
  assert (words_of (width_of v) <= CVM_WORDS_PER_LONG) by (destruct (width_of v); simpl; lia). lia.
Qed.

Lemma block_runs_nil vs room : block_runs [] vs (Values vs) room.
Proof.
  intros c [p fr bl ab] ws base _ Hb Hh _. simpl in *. subst bl. exists 0%nat, ws, ab. simpl.
  by rewrite Z.add_0_r.
Qed.

Lemma block_runs_next bs1 bs2 pre mid out room :
  runs bs1 pre (Values mid) -> cells_size (cells mid) <= room ->
  block_runs bs2 mid out room -> block_runs (bs1 ++ bs2) pre out room.
Proof.
  intros H1 Hmid H2 c st ws base [Hc1 Hc2]%code_at_app Hb Hh Hroom.
  destruct (H1 c st ws base Hc1 Hb Hh) as (n & ws1 & ab1 & Hn & Hh1 & Hl1).
  { pose proof (holds_length _ _ Hh). lia. }
  specialize (H2 c (mk_cvm (pc st + Z.of_nat (length bs1)) (frame st) (ws1 ++ base) ab1) ws1 base
    Hc2 eq_refl Hh1 ltac:(simpl; lia)).
  destruct out as [post|e]; simpl in H2.
  - destruct H2 as (m & ws2 & ab2 & Hm & Hh2 & Hl2). exists (n + m)%nat, ws2, ab2.
    rewrite (run_app _ _ _ _ _ Hn), Hm, length_app, Nat2Z.inj_add, Z.add_assoc.
    split; [done|]. split; [done|lia].
  - destruct H2 as (m & st' & Hm). exists (n + m)%nat, st'.
    by rewrite (run_app _ _ _ _ _ Hn).
Qed.

Lemma block_runs_raise bs1 bs2 pre e room :
  runs bs1 pre (Raise e) -> block_runs (bs1 ++ bs2) pre (Raise e) room.
Proof.
  intros H1 c st ws base [Hc1 _]%code_at_app Hb Hh _.
  destruct (H1 c st ws base Hc1 Hb Hh) as (n & st' & Hn). by exists n, st'.
Qed.

Lemma typed_length stack vs : typed stack vs -> length stack = length vs.
Proof. intros [H _]. by rewrite <-(length_map engineType), H, length_map. Qed.

(** [P] is any invariant of the accepted steps from which the stack area is
    known to be large enough. *)
Lemma verify_loop_sound_in (P : list ILEngineStackItem -> ILCVMCoder -> Prop)
    unsafe maxStack mem mask walk fuel o len stack vs coder stack' coder' room :
  (forall o st c st2 c2 sz, P st c ->
    verify_insn unsafe maxStack mem mask o st c = Ret (st2, c2, sz) -> P st2 c2) ->
  (forall fuel o len st c vs, P st c -> typed st vs -> Z.of_nat (length st) <= maxStack ->
    verify_loop fuel unsafe maxStack mem mask o len st c = Ret (stack', coder') ->
    cells_size (cells vs) <= room) ->
  Forall is_byte mem -> Z.of_nat (length mem) + 12 < 0x100000000 -> 0 <= len < 0x100000000 ->
  integer_code walk mem o (o + len) = true -> typed stack vs -> P stack coder ->
  verify_loop fuel unsafe maxStack mem mask o len stack coder = Ret (stack', coder') ->
  exists out bs,
    il_block mem (o + len) o vs out /\ result_typed stack' out /\
    Coder.code coder' = Coder.code coder ++ bs /\ block_runs bs vs out room.
Proof.
  intros HP Hfit Hb Hmem. revert walk o len stack vs coder.
  induction fuel as [|fuel IH]; intros walk o len stack vs coder Hlen Hw Hs Hinv Hv.
  all: destruct (Z.eq_dec len 0) as [->|Hn].
  1,3: simpl in Hv; injection Hv as <- <-; rewrite Z.add_0_r in *;
    exists (Values vs), []; rewrite app_nil_r;
    (split; [constructor|]); (split; [by apply result_typed_values|]);
    (split; [done|apply block_runs_nil]).
  { simpl in Hv. by rewrite (proj2 (Z.eqb_neq _ _) Hn) in Hv. }
  assert (0 < len < 0x100000000) as Hlen' by lia.
  destruct (verify_loop_step _ _ _ _ _ _ _ _ _ _ Hmem Hlen' Hv)
    as (fuel' & st1 & c1 & sz & [= <-] & Hi & Hsz & Hv').
  pose proof (HP _ _ _ _ _ _ Hinv Hi) as Hinv1.
  destruct (walk_code_step _ _ _ _ _ Hw ltac:(lia)) as (opcode & row & walk1 & Hf & Hint & _).
  destruct (verify_insn_sound _ _ _ _ _ _ _ _ _ _ _ _ _ Hb Hf Hint Hs Hi)
    as ((out1 & (bs1 & Hc1 & Hr1) & (Ht1 & vs0 & Ht0) & Hstep) & Hwalk & Hpos & Hmax).
  destruct (on_walk_code _ _ _ _ _ _ Hb Hwalk Hw ltac:(lia)) as [walk2 Hw2].
  replace (o + len) with (o + sz + (len - sz)) in * by lia.
  destruct (Hstep (o + sz + (len - sz)) ltac:(lia)) as [Hnext Hraise].
  destruct out1 as [vs1|e].
  - destruct (IH walk2 (o + sz) (len - sz) st1 vs1 c1 ltac:(lia) Hw2 (Ht1 _ eq_refl) Hinv1 Hv')
      as (out & bs2 & Hblock & Hres & Hc2 & Hruns).
    exists out, (bs1 ++ bs2). split; [by eapply Hnext|]. split; [done|].
    split; [by rewrite Hc2, Hc1, app_assoc|]. eapply block_runs_next; [exact Hr1| |exact Hruns].
    by eapply Hfit; [|apply Ht1|..].
  - destruct (IH walk2 (o + sz) (len - sz) st1 vs0 c1 ltac:(lia) Hw2 Ht0 Hinv1 Hv')
      as (out & bs2 & _ & Hres & Hc2 & _).
    exists (Raise e), (bs1 ++ bs2). split; [by apply Hraise|].
    split; [split; [done|exact (proj2 Hres)]|]. split; [by rewrite Hc2, Hc1, app_assoc|].
    by apply block_runs_raise.
Qed.

(** The room is bounded by the largest number of items that the method's
    header declares. *)
Lemma verify_loop_sound unsafe maxStack mem mask walk fuel o len stack vs coder stack' coder' :
  Forall is_byte mem -> Z.of_nat (length mem) + 12 < 0x100000000 -> 0 <= len < 0x100000000 ->
  integer_code walk mem o (o + len) = true -> typed stack vs ->
  verify_loop fuel unsafe maxStack mem mask o len stack coder = Ret (stack', coder') ->
  exists out bs,
    il_block mem (o + len) o vs out /\ result_typed stack' out /\
    Coder.code coder' = Coder.code coder ++ bs /\
    block_runs bs vs out (CVM_WORDS_PER_LONG * maxStack).
Proof.
  intros Hb Hmem Hlen Hw Hs Hv.
  eapply (verify_loop_sound_in (fun _ _ => True)); [done| |by eauto..].
  intros _ _ _ st _ vs1 _ Ht Hmax _. rewrite (typed_length _ _ Ht) in Hmax.
  pose proof (cells_size_bound vs1). pose proof (words_of_pos W64) as Hp. simpl in Hp. nia.
Qed.

End Block.
