(* ===== verification/ILVars.v ===== *)
(** * Reference semantics of arguments and local variables in IL

    Variables of the integer types, as ECMA-335 gives them: a load pushes the
    value of the variable, a store narrows the value to the type of the
    variable.  A variable holds what a load of it pushes. *)
From Stdlib Require Import ZArith Lia.
From stdpp Require Import base list option numbers.
From S2P Require Import Prelude Opcodes Cvm Coder ILSpec CvmProps CvmOps CoderProps Refine RefineBlock Scan.

Local Open Scope Z_scope.

(** ** Types and values of variables *)

(** bool and uint8, int32 and uint32, int64 and uint64, native ints. *)
Inductive vtype := V_U1 | V_I4 | V_I8 | V_I.

Record il_sig := mk_il_sig { sig_void : bool; sig_args : list vtype; sig_locals : list vtype }.
Record il_vars := mk_il_vars { il_args : list value; il_locals : list value }.

Section Vars.
Context {PF : Platform}.

Definition store_value (t : vtype) (v : value) : option value :=
  match t, v with
  | V_U1, VI4 n | V_U1, VI n => Some (VI4 (u8 n))
  | V_I4, VI4 n | V_I4, VI n => Some (VI4 (i32 n))
  | V_I8, VI8 n => Some (VI8 n)
  | V_I, VI4 n | V_I, VI n => Some (VI n)
  | _, _ => None
  end.

(** The value of a variable that nothing was stored in. *)
Definition zero_value (t : vtype) : value :=
  match t with V_U1 | V_I4 => VI4 0 | V_I8 => VI8 0 | V_I => VI 0 end.

(** Is [v] a value that a variable of type [t] can hold? *)
Definition var_value (t : vtype) (v : value) : Prop :=
  wf_value v /\
  match t, v with
  | V_U1, VI4 n => 0 <= n < 256
  | V_I4, VI4 _ | V_I8, VI8 _ | V_I, VI _ => True
  | _, _ => False
  end.

Definition vars_typed (sg : il_sig) (fr : il_vars) : Prop :=
  Forall2 var_value (sig_args sg) (il_args fr) /\ Forall2 var_value (sig_locals sg) (il_locals fr).

(** ** Accesses *)

Record var_ref := mk_access { acc_store : bool; acc_arg : bool; acc_num : Z }.

Definition tiny_access (opcode first last : Z) (store arg : bool) : option var_ref :=
  if (first <=? opcode) && (opcode <=? last) then Some (mk_access store arg (opcode - first)) else None.

(** The access that the instruction at [o] makes. *)
Definition il_access (mem : list Z) (o opcode : Z) : option var_ref :=
  match tiny_access opcode IL_OP_LDARG_0 IL_OP_LDARG_3 false true with Some a => Some a | None =>
  match tiny_access opcode IL_OP_LDLOC_0 IL_OP_LDLOC_3 false false with Some a => Some a | None =>
  match tiny_access opcode IL_OP_STLOC_0 IL_OP_STLOC_3 true false with Some a => Some a | None =>
  let short store arg := n ← pc_at mem (o + 1) 0; Some (mk_access store arg n) in
  let long store arg :=
    n0 ← pc_at mem (o + 2) 0; n1 ← pc_at mem (o + 3) 0; Some (mk_access store arg (n0 + 2 ^ 8 * n1)) in
  if opcode =? IL_OP_LDARG_S then short false true
  else if opcode =? IL_OP_STARG_S then short true true
  else if opcode =? IL_OP_LDLOC_S then short false false
  else if opcode =? IL_OP_STLOC_S then short true false
  else if opcode =? IL_OP_PREFIX + IL_PREFIX_OP_LDARG then long false true
  else if opcode =? IL_OP_PREFIX + IL_PREFIX_OP_STARG then long true true
  else if opcode =? IL_OP_PREFIX + IL_PREFIX_OP_LDLOC then long false false
  else if opcode =? IL_OP_PREFIX + IL_PREFIX_OP_STLOC then long true false
  else None
  end end end.

Definition var_list (arg : bool) (fr : il_vars) : list value :=
  if arg then il_args fr else il_locals fr.
Definition type_list (arg : bool) (sg : il_sig) : list vtype :=
  if arg then sig_args sg else sig_locals sg.
Definition set_var (arg : bool) (n : Z) (v : value) (fr : il_vars) : il_vars :=
  if arg then mk_il_vars (<[Z.to_nat n := v]> (il_args fr)) (il_locals fr)
  else mk_il_vars (il_args fr) (<[Z.to_nat n := v]> (il_locals fr)).

Definition il_load (arg : bool) (n : Z) (fr : il_vars) : option value :=
  if 0 <=? n then var_list arg fr !! Z.to_nat n else None.
Definition il_type (sg : il_sig) (arg : bool) (n : Z) : option vtype :=
  if 0 <=? n then type_list arg sg !! Z.to_nat n else None.

Definition il_exec_var (sg : il_sig) (a : var_ref) (fr : il_vars) (vs : list value)
    : option (il_vars * list value) :=
  if acc_store a then
    match vs with
    | v :: rest =>
      t ← il_type sg (acc_arg a) (acc_num a);
      v ← store_value t v;
      Some (set_var (acc_arg a) (acc_num a) v fr, rest)
    | [] => None
    end
  else v ← il_load (acc_arg a) (acc_num a) fr; Some (fr, v :: vs).

(** ** Properties *)

Lemma store_value_agree t v v' r r' :
  width_of v = width_of v' -> number v = number v' ->
  store_value t v = Some r -> store_value t v' = Some r' -> r = r'.
Proof. destruct t, v, v'; simpl; intros _ -> [= <-] [= <-]; done. Qed.

Lemma store_value_var t v r : wf_value v -> store_value t v = Some r -> var_value t r.
Proof.
  destruct t, v; simpl; intros W [= <-]; (split; [|try done; width_lia]).
  all: try done; try (simpl; width_lia).
  revert W. unfold wf_value. unfold native. destruct IL_NATIVE_INT64; simpl; [width_lia|done].
Qed.

Lemma zero_value_typed t : var_value t (zero_value t).
Proof. split; destruct t; try done. unfold wf_value. simpl. by destruct native. Qed.

Lemma il_load_typed sg fr arg n v :
  vars_typed sg fr -> il_load arg n fr = Some v ->
  exists t, il_type sg arg n = Some t /\ var_value t v.
Proof.
  intros [Ha Hl]. unfold il_load, il_type. destruct (0 <=? n); [|done]. intros Hv.
  destruct arg; simpl in *; [by eapply Forall2_lookup_r in Ha|by eapply Forall2_lookup_r in Hl].
Qed.

Lemma il_load_exists sg fr arg n t :
  vars_typed sg fr -> il_type sg arg n = Some t -> exists v, il_load arg n fr = Some v /\ var_value t v.
Proof.
  intros [Ha Hl]. unfold il_load, il_type. destruct (0 <=? n); [|done]. intros Hv.
  destruct arg; simpl in *; [by eapply Forall2_lookup_l in Ha|by eapply Forall2_lookup_l in Hl].
Qed.

Lemma Forall2_insert_r {A B} (P : A -> B -> Prop) l k i x y :
  Forall2 P l k -> l !! i = Some x -> P x y -> Forall2 P l (<[i := y]> k).
Proof.
  intros Hf Hi Hp. rewrite <-(list_insert_id l i x Hi). by apply Forall2_insert.
Qed.

Lemma set_var_typed sg fr arg n t v :
  vars_typed sg fr -> il_type sg arg n = Some t -> var_value t v -> vars_typed sg (set_var arg n v fr).
Proof.
  intros [Ha Hl]. unfold il_type, set_var. destruct (0 <=? n); [|done]. intros Hv Ht.
  destruct arg; (split; [|done]) || (split; [done|]); by eapply Forall2_insert_r.
Qed.

Lemma il_exec_var_typed sg a fr vs fr' vs' :
  vars_typed sg fr -> Forall wf_value vs -> il_exec_var sg a fr vs = Some (fr', vs') ->
  vars_typed sg fr' /\ Forall wf_value vs'.
Proof.
  intros Hv W. unfold il_exec_var. destruct (acc_store a).
  - destruct vs as [|v rest]; [done|]. apply Forall_cons_iff in W as [W1 W].
    destruct (il_type sg (acc_arg a) (acc_num a)) as [t|] eqn:Et; [|done]. cbn [mbind option_bind].
    destruct (store_value t v) as [r|] eqn:Es; [|done]. intros [= <- <-]. split; [|done].
    eapply set_var_typed; [done|done|]. by eapply store_value_var.
  - destruct (il_load _ _ _) as [v|] eqn:El; [|done]. intros [= <- <-]. split; [done|].
    destruct (il_load_typed _ _ _ _ _ Hv El) as (t & _ & [Wv _]). by apply Forall_cons_2.
Qed.

End Vars.

(** ** Reference semantics of control flow in IL

    Execution of a method body instruction by instruction: the integer
    instructions of ILSpec.v, the branches with their targets and tests as
    ECMA-335 gives them, and the return.  A configuration is an offset in the
    code and the evaluation stack, its top first.

    Where control meets at a label the engine lets a native int stand for the
    int of the same width, so a stack is known up to [same_words]: the widths
    and numbers of the values.  A run may read each of its stacks under any
    types with these widths; [il_run_agree] shows that all readings that do
    not get stuck agree.  The choice the standard leaves open (the widening of
    an int32 that an unsigned branch compares with a native int) is the
    engine's: zero extension. *)

Import OpTable.


(** ** Branches *)

Definition goto_opcodes : list Z := [IL_OP_BR_S; IL_OP_BR].
Definition true_opcodes : list Z := [IL_OP_BRTRUE_S; IL_OP_BRTRUE].
Definition false_opcodes : list Z := [IL_OP_BRFALSE_S; IL_OP_BRFALSE].

(** The tests of the branches on two operands, with the operand on top last. *)
Definition int_branch (w : width) (opcode a b : Z) : option bool :=
  if listed opcode [IL_OP_BEQ_S; IL_OP_BEQ] then Some (a =? b)
  else if listed opcode [IL_OP_BNE_UN_S; IL_OP_BNE_UN] then Some (negb (a =? b))
  else if listed opcode [IL_OP_BGT_S; IL_OP_BGT] then Some (b <? a)
  else if listed opcode [IL_OP_BGT_UN_S; IL_OP_BGT_UN] then Some (uns w b <? uns w a)
  else if listed opcode [IL_OP_BGE_S; IL_OP_BGE] then Some (b <=? a)
  else if listed opcode [IL_OP_BGE_UN_S; IL_OP_BGE_UN] then Some (uns w b <=? uns w a)
  else if listed opcode [IL_OP_BLT_S; IL_OP_BLT] then Some (a <? b)
  else if listed opcode [IL_OP_BLT_UN_S; IL_OP_BLT_UN] then Some (uns w a <? uns w b)
  else if listed opcode [IL_OP_BLE_S; IL_OP_BLE] then Some (a <=? b)
  else if listed opcode [IL_OP_BLE_UN_S; IL_OP_BLE_UN] then Some (uns w a <=? uns w b)
  else None.

Definition unsigned_branch (opcode : Z) : bool :=
  listed opcode
    [IL_OP_BNE_UN_S; IL_OP_BNE_UN; IL_OP_BGT_UN_S; IL_OP_BGT_UN; IL_OP_BGE_UN_S; IL_OP_BGE_UN;
     IL_OP_BLT_UN_S; IL_OP_BLT_UN; IL_OP_BLE_UN_S; IL_OP_BLE_UN].

(** The branches of one byte of offset, and those of four. *)
Definition short_branch_opcodes : list Z :=
  [IL_OP_BR_S; IL_OP_BRFALSE_S; IL_OP_BRTRUE_S; IL_OP_BEQ_S; IL_OP_BGE_S; IL_OP_BGT_S; IL_OP_BLE_S;
   IL_OP_BLT_S; IL_OP_BNE_UN_S; IL_OP_BGE_UN_S; IL_OP_BGT_UN_S; IL_OP_BLE_UN_S; IL_OP_BLT_UN_S].
Definition long_branch_opcodes : list Z :=
  [IL_OP_BR; IL_OP_BRFALSE; IL_OP_BRTRUE; IL_OP_BEQ; IL_OP_BGE; IL_OP_BGT; IL_OP_BLE;
   IL_OP_BLT; IL_OP_BNE_UN; IL_OP_BGE_UN; IL_OP_BGT_UN; IL_OP_BLE_UN; IL_OP_BLT_UN].
Definition branch_opcode (opcode : Z) : bool :=
  listed opcode short_branch_opcodes || listed opcode long_branch_opcodes.

(** The target: a signed displacement from the end of the instruction. *)
Definition branch_target (mem : list Z) (o opcode : Z) : option Z :=
  if listed opcode short_branch_opcodes then d ← pc_at mem (o + 1) 0; Some (o + 2 + i8 d)
  else
    b0 ← pc_at mem (o + 1) 0; b1 ← pc_at mem (o + 2) 0;
    b2 ← pc_at mem (o + 3) 0; b3 ← pc_at mem (o + 4) 0;
    Some (o + 5 + i32 (b0 + 2 ^ 8 * b1 + 2 ^ 16 * b2 + 2 ^ 24 * b3)).

Section Flow.
Context {PF : Platform}.

(** Is the branch taken, and what is left on the stack?  An int32 that meets a
    native int is sign-extended, as for the comparisons. *)
Definition il_branch (opcode : Z) (vs : list value) : option (bool * list value) :=
  if listed opcode goto_opcodes then Some (true, vs)
  else if listed opcode true_opcodes then
    match vs with v :: rest => Some (negb (number v =? 0), rest) | [] => None end
  else if listed opcode false_opcodes then
    match vs with v :: rest => Some (number v =? 0, rest) | [] => None end
  else
    match vs with
    | v2 :: v1 :: rest =>
      '(w, _, a, b) ← widen false v1 v2;
      taken ← int_branch w opcode a b;
      Some (taken, rest)
    | _ => None
    end.

(** An unsigned branch (bne.un among them) on operands of two widths: an int32
    and a native int of 64 bits.  The coder zero-extends the int32 there. *)
Definition mixed_branch (opcode : Z) (vs : list value) : bool :=
  match vs with
  | v2 :: v1 :: _ => unsigned_branch opcode && negb (bool_decide (width_of v1 = width_of v2))
  | _ => false
  end.

(** ** Steps and runs *)

(** What an instruction leads to.  [Mixed] ends a run in front of a
    [mixed_branch], where the engine is known to leave the standard. *)
Inductive il_event :=
  | Goes (o : Z) (fr : il_vars) (vs : list value)
  | Returns (result : option value)
  | Raises (e : il_exn)
  | Mixed.

(** The instruction at [o] of a method that returns a value or ([void]) none. *)
Definition il_next (sg : il_sig) (mem : list Z) (o : Z) (fr : il_vars) (vs : list value)
    : option il_event :=
  '(opcode, row) ← il_fetch mem o;
  if branch_opcode opcode then
    '(taken, rest) ← il_branch opcode vs;
    target ← branch_target mem o opcode;
    Some (if mixed_branch opcode vs then Mixed
          else Goes (if taken : bool then target else o + size row) fr rest)
  else if opcode =? IL_OP_RET then
    if sig_void sg then Some (Returns None)
    else match vs with v :: _ => Some (Returns (Some v)) | [] => None end
  else match il_access mem o opcode with
  | Some a => '(fr, vs) ← il_exec_var sg a fr vs; Some (Goes (o + size row) fr vs)
  | None =>
    out ← il_exec opcode (il_arg mem o) vs;
    Some match out with Values vs => Goes (o + size row) fr vs | Raise e => Raises e end
  end.

Definition same_word (v v' : value) : Prop := width_of v = width_of v' /\ number v = number v'.
Definition same_words : list value -> list value -> Prop := Forall2 same_word.

Definition ends (ev : il_event) : bool := match ev with Goes _ _ _ => false | _ => true end.

(** [il_run n o fr vs ev]: [n] instructions from [o] with the variables [fr] on
    the stack [vs]. *)
Inductive il_run (sg : il_sig) (mem : list Z)
    : nat -> Z -> il_vars -> list value -> il_event -> Prop :=
  | run_here o fr vs : il_run sg mem 0 o fr vs (Goes o fr vs)
  | run_next n o fr vs vs0 o' fr' vs' ev :
      same_words vs vs0 -> il_next sg mem o fr vs0 = Some (Goes o' fr' vs') ->
      il_run sg mem n o' fr' vs' ev -> il_run sg mem (S n) o fr vs ev
  | run_end o fr vs vs0 ev :
      same_words vs vs0 -> il_next sg mem o fr vs0 = Some ev -> ends ev = true ->
      il_run sg mem 1 o fr vs ev.

(** The run that reads every stack as it is: at most [fuel] instructions. *)
Fixpoint il_eval (fuel : nat) (sg : il_sig) (mem : list Z) (o : Z) (fr : il_vars)
    (vs : list value) : option (nat * il_event) :=
  match fuel with
  | O => Some (0%nat, Goes o fr vs)
  | S fuel =>
    match il_next sg mem o fr vs with
    | Some (Goes o fr vs) => '(n, ev) ← il_eval fuel sg mem o fr vs; Some (S n, ev)
    | Some ev => Some (1%nat, ev)
    | None => None
    end
  end.

(** ** Agreement of the readings *)

Lemma same_word_refl v : same_word v v.
Proof. done. Qed.

#[export] Instance same_word_equiv : Equivalence same_word.
Proof.
  split; [by intros v|by intros v v' [E1 E2]|].
  intros v1 v2 v3 [E1 E2] [E3 E4]. split; congruence.
Qed.

#[export] Instance same_words_equiv : Equivalence same_words := _.

Lemma il_eval_run fuel sg mem o fr vs n ev :
  il_eval fuel sg mem o fr vs = Some (n, ev) -> il_run sg mem n o fr vs ev.
Proof.
  revert o fr vs n. induction fuel as [|fuel IH]; intros o fr vs n; simpl; [intros [= <- <-]; constructor|].
  destruct (il_next sg mem o fr vs) as [[o' fr' vs'| | |]|] eqn:E; try done.
  - destruct (il_eval fuel sg mem o' fr' vs') as [[n' ev']|] eqn:E'; [|done]. intros [= <- <-].
    by eapply run_next; [reflexivity|exact E|apply IH].
  - intros [= <- <-]. by eapply run_end; [reflexivity|exact E|].
  - intros [= <- <-]. by eapply run_end; [reflexivity|exact E|].
  - intros [= <- <-]. by eapply run_end; [reflexivity|exact E|].
Qed.

Definition same_event (ev ev' : il_event) : Prop :=
  match ev, ev' with
  | Goes o fr vs, Goes o' fr' vs' => o = o' /\ fr = fr' /\ same_words vs vs'
  | Returns (Some v), Returns (Some v') => same_word v v'
  | Returns None, Returns None => True
  | Raises e, Raises e' => e = e'
  | Mixed, Mixed => True
  | _, _ => False
  end.

Definition wf_event (sg : il_sig) (ev : il_event) : Prop :=
  match ev with
  | Goes _ fr vs => vars_typed sg fr /\ Forall wf_value vs
  | Returns (Some v) => wf_value v
  | _ => True
  end.

(** The operands of two readings become the same numbers of the same width. *)
Lemma widen_agree un v1 v2 v1' v2' w t a b w' t' a' b' :
  wf_value v1 -> wf_value v2 -> same_word v1 v1' -> same_word v2 v2' ->
  widen un v1 v2 = Some (w, t, a, b) -> widen un v1' v2' = Some (w', t', a', b') ->
  w = w' /\ a = a' /\ b = b' /\ forall z, same_word (tag t z) (tag t' z).
Proof.
  unfold same_word. intros W1 W2 [E1 N1] [E2 N2].
  assert (native = W32 -> forall n, i32 n = n -> wrap native (u32 n) = n) as Hu
    by (intros -> n Hn; simpl; width_lia).
  destruct v1, v2; simpl in *; intros [= <- <- <- <-]; subst;
    destruct v1', v2'; simpl in *; subst; intros [= <- <- <- <-]; simpl; try done; auto.
  all: try congruence.
  all: assert (native = W32) as Hn by congruence; rewrite Hn in *; simpl in *.
  all: destruct un; rewrite ?Hu by auto; auto.
Qed.

Definition same_out (out out' : il_out) : Prop :=
  match out, out' with
  | Values vs, Values vs' => same_words vs vs'
  | Raise e, Raise e' => e = e'
  | _, _ => False
  end.

Lemma above_rest_agree rest rest' o o' out out' :
  same_words rest rest' ->
  (forall r r', o = Some r -> o' = Some r' -> same_out r r') ->
  above_rest rest o = Some out -> above_rest rest' o' = Some out' -> same_out out out'.
Proof.
  intros Hr H. destruct o as [r|], o' as [r'|]; try done. specialize (H _ _ eq_refl eq_refl).
  destruct r, r'; simpl in *; try done; intros [= <-] [= <-]; simpl; [|done]. by apply Forall2_app.
Qed.

Lemma tag_agree v v' z : same_word v v' -> same_word (tag (type_of v) z) (tag (type_of v') z).
Proof. unfold same_word. intros [E _]. destruct v, v'; simpl in *; done. Qed.

Lemma il_binary_agree opcode v1 v2 v1' v2' r r' :
  wf_value v1 -> wf_value v2 -> same_word v1 v1' -> same_word v2 v2' ->
  il_binary opcode v1 v2 = Some r -> il_binary opcode v1' v2' = Some r' -> same_out r r'.
Proof.
  intros W1 W2 S1 S2. unfold il_binary.
  destruct (widen _ v1 v2) as [[[[w t] a] b]|] eqn:E; [|done].
  destruct (widen _ v1' v2') as [[[[w' t'] a'] b']|] eqn:E'; [|done].
  destruct (widen_agree _ _ _ _ _ _ _ _ _ _ _ _ _ W1 W2 S1 S2 E E') as (-> & -> & -> & Ht). simpl.
  destruct (int_binary _ _ _ _) as [[e|z]|]; simpl; intros [= <-] [= <-]; [done|].
  repeat constructor; apply Ht.
Qed.

Lemma il_compare_agree opcode v1 v2 v1' v2' r r' :
  wf_value v1 -> wf_value v2 -> same_word v1 v1' -> same_word v2 v2' ->
  il_compare opcode v1 v2 = Some r -> il_compare opcode v1' v2' = Some r' -> r = r'.
Proof.
  intros W1 W2 S1 S2. unfold il_compare.
  destruct (widen _ v1 v2) as [[[[w t] a] b]|] eqn:E; [|done].
  destruct (widen _ v1' v2') as [[[[w' t'] a'] b']|] eqn:E'; [|done].
  destruct (widen_agree _ _ _ _ _ _ _ _ _ _ _ _ _ W1 W2 S1 S2 E E') as (-> & -> & -> & _). simpl.
  congruence.
Qed.

Lemma il_shift_agree opcode v1 v2 v1' v2' r r' :
  same_word v1 v1' -> same_word v2 v2' ->
  il_shift opcode v1 v2 = Some r -> il_shift opcode v1' v2' = Some r' -> same_out r r'.
Proof.
  intros S1 [_ N2]. pose proof S1 as [E1 N1]. unfold il_shift. rewrite <-E1, <-N1, <-N2.
  assert (forall o : option Z, (x ← o; Some (Values [tag (type_of v1) x])) = Some r ->
    (x ← o; Some (Values [tag (type_of v1') x])) = Some r' -> same_out r r') as H.
  { intros [z|]; simpl; [|done]. intros [= <-] [= <-]. repeat constructor; by apply tag_agree. }
  destruct v2, v2'; try done; apply H.
Qed.

Lemma il_unary_agree opcode v v' r r' :
  same_word v v' ->
  il_unary opcode v = Some r -> il_unary opcode v' = Some r' -> same_out r r'.
Proof.
  intros S. pose proof S as [E N]. unfold il_unary. rewrite <-E, <-N.
  destruct (int_unary _ _ _); simpl; intros [= <-] [= <-]. repeat constructor; by apply tag_agree.
Qed.

Lemma il_conv_agree opcode v v' : same_word v v' -> il_conv opcode v = il_conv opcode v'.
Proof. intros [E N]. unfold il_conv. by rewrite E, N. Qed.

(** Case analysis on two stacks that are the same up to [same_words]. *)
Ltac same_stacks :=
  repeat match goal with
  | H : same_words [] ?vs |- _ => inversion H; subst; clear H
  | H : same_words (_ :: _) ?vs |- _ => inversion H; subst; clear H
  | H : Forall2 same_word ?x ?y |- _ => change (same_words x y) in H
  end.

Lemma il_exec_agree opcode arg vs vs' out out' :
  Forall wf_value vs -> same_words vs vs' ->
  il_exec opcode arg vs = Some out -> il_exec opcode arg vs' = Some out' -> same_out out out'.
Proof.
  intros W S. unfold il_exec.
  destruct (listed _ _); [by intros [= <-] [= <-]|].
  destruct (listed _ binary_opcodes).
  { destruct vs as [|v2 [|v1 rest]]; try done. same_stacks.
    apply Forall_cons_iff in W as [W2 W]. apply Forall_cons_iff in W as [W1 W].
    eapply above_rest_agree; [done|]. intros. by eapply (il_binary_agree opcode v1 v2). }
  destruct (listed _ shift_opcodes).
  { destruct vs as [|v2 [|v1 rest]]; try done. same_stacks.
    eapply above_rest_agree; [done|]. intros. by eapply (il_shift_agree opcode v1 v2). }
  destruct (listed _ compare_opcodes).
  { destruct vs as [|v2 [|v1 rest]]; try done. same_stacks.
    apply Forall_cons_iff in W as [W2 W]. apply Forall_cons_iff in W as [W1 W].
    destruct (il_compare opcode v1 v2) eqn:E; [|done].
    match goal with |- context [il_compare ?o ?x ?y] => destruct (il_compare o x y) eqn:E'; [|done] end.
    simpl. intros [= <-] [= <-].
    assert (b = b0) as -> by (eapply (il_compare_agree opcode v1 v2); eauto).
    by apply Forall2_cons. }
  destruct (listed _ unary_opcodes).
  { destruct vs as [|v rest]; try done. same_stacks.
    eapply above_rest_agree; [done|]. intros. by eapply (il_unary_agree opcode v). }
  destruct (opcode =? IL_OP_DUP).
  { destruct vs as [|v rest]; try done. same_stacks. intros [= <-] [= <-]. by repeat apply Forall2_cons. }
  destruct (opcode =? IL_OP_POP).
  { destruct vs as [|v rest]; try done. same_stacks. by intros [= <-] [= <-]. }
  destruct (il_const opcode arg).
  { intros [= <-] [= <-]. by apply Forall2_cons. }
  destruct vs as [|v rest]; try done. same_stacks.
  eapply above_rest_agree; [done|]. intros r r' Hr. erewrite <-il_conv_agree by done. rewrite Hr.
  intros [= <-]. destruct r; simpl; [|done]. reflexivity.
Qed.

(** ** Values stay in range *)

Definition wf_out (out : il_out) : Prop :=
  match out with Values vs => Forall wf_value vs | Raise _ => True end.

Lemma above_rest_wf rest o out :
  Forall wf_value rest -> (forall r, o = Some r -> wf_out r) ->
  above_rest rest o = Some out -> wf_out out.
Proof.
  intros Hr H. destruct o as [r|]; [|done]. specialize (H _ eq_refl).
  destruct r; simpl in *; intros [= <-]; simpl; [|done]. by apply Forall_app.
Qed.

Lemma wf_single v : wf_value v -> wf_out (Values [v]).
Proof. intros H. by apply Forall_cons_2. Qed.

Lemma il_conv_wf opcode v r : il_conv opcode v = Some r -> wf_out r.
Proof.
  unfold il_conv. assert (forall t z, wf_out (Values [tag t (wrap_type t z)])) as Ht.
  { intros t z. apply wf_single. destruct t; simpl; first [apply wrap_wrap | apply (wrap_wrap W32) | apply (wrap_wrap W64)]. }
  destruct (assoc opcode conv_plain) as [[[fu f] t]|] eqn:E.
  - intros [= <-]. apply wf_single. revert E.
    generalize (if fu then uns (width_of v) (number v) else number v). intros z.
    unfold conv_plain, assoc.
    repeat case_match; intros [= <- <- <-]; first [apply (wrap_wrap native) | simpl; width_lia].
  - destruct (assoc opcode conv_checked) as [[[[fu lo] hi] t]|]; [|done].
    cbn [mbind option_bind]. destruct (_ && _); intros [= <-]; [apply Ht|done].
Qed.

Lemma il_const_wf opcode arg v : il_const opcode arg = Some v -> wf_value v.
Proof.
  unfold il_const. destruct (_ && _) eqn:E.
  { intros [= <-]. bool_to_prop. unfold IL_OP_LDC_I4_M1, IL_OP_LDC_I4_8, IL_OP_LDC_I4_0 in *.
    simpl. width_lia. }
  repeat case_match; try done.
  - destruct (arg !! 0%nat); [|done]. intros [= <-]. simpl. width_lia.
  - intros [= <-]. apply (wrap_wrap W32).
  - intros [= <-]. apply (wrap_wrap W64).
Qed.

Lemma il_exec_wf opcode arg vs out :
  Forall wf_value vs -> il_exec opcode arg vs = Some out -> wf_out out.
Proof.
  intros W. unfold il_exec.
  destruct (listed _ _); [by intros [= <-]|].
  destruct (listed _ binary_opcodes).
  { destruct vs as [|v2 [|v1 rest]]; try done.
    apply Forall_cons_iff in W as [W2 W]. apply Forall_cons_iff in W as [W1 W].
    apply above_rest_wf; [done|]. intros r Hr. pose proof Hr as Hw. unfold il_binary in Hw.
    destruct (widen _ v1 v2) as [[[[w t] a] b]|] eqn:E; [|done].
    pose proof (il_binary_wf opcode v1 v2 r t W1 W2 Hr ltac:(by exists w, a, b)) as H.
    destruct r; [|done]. destruct H as (v & -> & _ & Hv). by apply wf_single. }
  destruct (listed _ shift_opcodes).
  { destruct vs as [|v2 [|v1 rest]]; try done.
    apply Forall_cons_iff in W as [W2 W]. apply Forall_cons_iff in W as [W1 W].
    apply above_rest_wf; [done|]. intros r Hr.
    assert (exists z, int_shift (width_of v1) opcode (number v1) (number v2) = Some z /\
      r = Values [tag (type_of v1) z]) as (z & Hz & ->).
    { unfold il_shift in Hr. destruct v2; try done; destruct (int_shift _ _ _ _); try done;
        injection Hr as <-; by eexists. }
    apply wf_single, wf_tag_type_of. eapply int_shift_range; [by apply wf_value_wrap|exact Hz]. }
  destruct (listed _ compare_opcodes).
  { destruct vs as [|v2 [|v1 rest]]; try done.
    apply Forall_cons_iff in W as [W2 W]. apply Forall_cons_iff in W as [W1 W].
    destruct (il_compare opcode v1 v2) as [b|]; [|done]. intros [= <-].
    apply Forall_cons_2; [by destruct b|done]. }
  destruct (listed opcode unary_opcodes) eqn:Hu.
  { destruct vs as [|v rest]; try done. apply Forall_cons_iff in W as [W1 W].
    apply above_rest_wf; [done|]. intros r. unfold il_unary.
    destruct (int_unary_ok (width_of v) opcode (number v) Hu ltac:(by apply wf_value_wrap))
      as (z & -> & Hz). intros [= <-]. by apply wf_single, wf_tag_type_of. }
  destruct (opcode =? IL_OP_DUP).
  { destruct vs as [|v rest]; [done|]. intros [= <-]. apply Forall_cons_iff in W as [W1 W].
    by repeat apply Forall_cons_2. }
  destruct (opcode =? IL_OP_POP).
  { destruct vs as [|v rest]; [done|]. intros [= <-]. by apply Forall_cons_iff in W as [_ W]. }
  destruct (il_const opcode arg) as [v|] eqn:Ec.
  { intros [= <-]. apply Forall_cons_2; [by eapply il_const_wf|done]. }
  destruct vs as [|v rest]; [done|]. apply Forall_cons_iff in W as [W1 W].
  apply above_rest_wf; [done|]. apply il_conv_wf.
Qed.

Lemma il_branch_wf opcode vs taken rest :
  Forall wf_value vs -> il_branch opcode vs = Some (taken, rest) -> Forall wf_value rest.
Proof.
  intros W. unfold il_branch. destruct (listed _ _); [by intros [= <- <-]|].
  repeat (destruct (listed opcode _);
    [destruct vs; [done|]; intros [= <- <-]; by apply Forall_cons_iff in W as [_ W]|]).
  destruct vs as [|v2 [|v1 rest']]; try done. destruct (widen _ _ _) as [[[[w t] a] b]|]; [|done].
  simpl. destruct (int_branch _ _ _ _); [|done]. intros [= <- <-].
  apply Forall_cons_iff in W as [_ W]. by apply Forall_cons_iff in W as [_ W].
Qed.

Lemma mixed_branch_agree opcode vs vs' : same_words vs vs' -> mixed_branch opcode vs = mixed_branch opcode vs'.
Proof.
  intros S. destruct S as [|v2 v2' r r' [E2 _] S]; [done|]. destruct S as [|v1 v1' r r' [E1 _] S]; [done|].
  simpl. by rewrite E1, E2.
Qed.

Lemma il_branch_agree opcode vs vs' taken rest taken' rest' :
  Forall wf_value vs -> same_words vs vs' ->
  il_branch opcode vs = Some (taken, rest) -> il_branch opcode vs' = Some (taken', rest') ->
  taken = taken' /\ same_words rest rest'.
Proof.
  intros W S. unfold il_branch. destruct (listed _ _); [by intros [= <- <-] [= <- <-]|].
  repeat (destruct (listed opcode _);
    [destruct vs; [done|]; same_stacks; intros [= <- <-] [= <- <-]; split; [|done];
     match goal with H : same_word _ _ |- _ => by rewrite (proj2 H) end|]).
  destruct vs as [|v2 [|v1 rest1]]; try done. same_stacks.
  apply Forall_cons_iff in W as [W2 W]. apply Forall_cons_iff in W as [W1 W].
  destruct (widen _ v1 v2) as [[[[w t] a] b]|] eqn:E; [|done].
  match goal with |- context [widen _ ?x ?y] =>
    destruct (widen false x y) as [[[[w' t'] a'] b']|] eqn:E'; [|done] end.
  destruct (widen_agree _ _ _ _ _ _ _ _ _ _ _ _ _ W1 W2 ltac:(eassumption) ltac:(eassumption) E E') as (-> & -> & -> & _).
  simpl. destruct (int_branch _ _ _ _); [|done]. by intros [= <- <-] [= <- <-].
Qed.

(** ** Agreement of runs *)

Lemma il_exec_var_agree sg a fr vs vs' r r' :
  same_words vs vs' -> il_exec_var sg a fr vs = Some r -> il_exec_var sg a fr vs' = Some r' ->
  fst r = fst r' /\ same_words (snd r) (snd r').
Proof.
  intros S. unfold il_exec_var. destruct (acc_store a).
  - destruct vs as [|v rest]; [done|]. same_stacks.
    match goal with H : same_word _ _ |- _ => destruct H as [E N] end.
    destruct (il_type _ _ _) as [t|]; [|done]. cbn [mbind option_bind].
    destruct (store_value t v) as [x|] eqn:Ex; [|done].
    match goal with |- context [store_value t ?y] => destruct (store_value t y) as [x'|] eqn:Ex'; [|done] end.
    cbn [mbind option_bind]. rewrite (store_value_agree _ _ _ _ _ E N Ex Ex'). by intros [= <-] [= <-].
  - destruct (il_load _ _ _) as [v|]; [|done]. intros [= <-] [= <-]. split; [done|].
    by apply Forall2_cons.
Qed.

Lemma il_next_wf sg mem o fr vs ev :
  vars_typed sg fr -> Forall wf_value vs -> il_next sg mem o fr vs = Some ev -> wf_event sg ev.
Proof.
  intros V W. unfold il_next. destruct (il_fetch mem o) as [[opcode row]|]; [|done].
  cbn [mbind option_bind]. destruct (branch_opcode opcode).
  { destruct (il_branch _ _) as [[taken rest]|] eqn:E; [|done]. cbn [mbind option_bind].
    destruct (branch_target _ _ _); [|done]. intros [= <-]. destruct (mixed_branch _ _); [done|].
    split; [done|by eapply il_branch_wf]. }
  destruct (opcode =? _).
  { destruct (sig_void sg); [by intros [= <-]|]. destruct vs; [done|]. intros [= <-].
    by apply Forall_cons_iff in W as [W _]. }
  destruct (il_access mem o opcode) as [a|].
  { destruct (il_exec_var sg a fr vs) as [[fr' vs']|] eqn:E; [|done]. intros [= <-].
    by eapply il_exec_var_typed. }
  destruct (il_exec _ _ _) as [out|] eqn:E; [|done]. apply il_exec_wf in E; [|done].
  intros [= <-]. by destruct out.
Qed.

Lemma il_next_agree sg mem o fr vs vs' ev ev' :
  Forall wf_value vs -> same_words vs vs' ->
  il_next sg mem o fr vs = Some ev -> il_next sg mem o fr vs' = Some ev' -> same_event ev ev'.
Proof.
  intros W S. unfold il_next. destruct (il_fetch mem o) as [[opcode row]|]; [|done].
  cbn [mbind option_bind]. destruct (branch_opcode opcode).
  { destruct (il_branch _ vs) as [[taken rest]|] eqn:E; [|done]. cbn [mbind option_bind].
    destruct (il_branch _ vs') as [[taken' rest']|] eqn:E'; [|done]. cbn [mbind option_bind].
    destruct (il_branch_agree _ _ _ _ _ _ _ W S E E') as [-> Hr].
    rewrite (mixed_branch_agree _ _ _ S).
    destruct (branch_target _ _ _); [|done]. intros [= <-] [= <-]. by destruct (mixed_branch _ _). }
  destruct (opcode =? _).
  { destruct (sig_void sg); [by intros [= <-] [= <-]|]. destruct vs; [done|]. same_stacks.
    by intros [= <-] [= <-]. }
  destruct (il_access mem o opcode) as [a|].
  { destruct (il_exec_var sg a fr vs) as [[fr1 vs1]|] eqn:E; [|done].
    destruct (il_exec_var sg a fr vs') as [[fr1' vs1']|] eqn:E'; [|done].
    destruct (il_exec_var_agree _ _ _ _ _ _ _ S E E') as [E1 E2]. by intros [= <-] [= <-]. }
  destruct (il_exec _ _ vs) as [out|] eqn:E; [|done]. destruct (il_exec _ _ vs') as [out'|] eqn:E'; [|done].
  pose proof (il_exec_agree _ _ _ _ _ _ W S E E') as Ha. intros [= <-] [= <-].
  destruct out, out'; simpl in *; done.
Qed.

Lemma same_words_wf vs vs' : same_words vs vs' -> Forall wf_value vs -> Forall wf_value vs'.
Proof.
  induction 1 as [|v v' vs vs' [E N] _ IH]; [done|]. rewrite !Forall_cons_iff, !wf_value_wrap.
  rewrite E, N. intros [? ?]. auto.
Qed.

Lemma same_event_ends ev ev' : same_event ev ev' -> ends ev = ends ev'.
Proof. destruct ev as [| [] | |], ev' as [| [] | |]; done. Qed.

(** The next events of two readings of the same stack. *)
Lemma il_next_read sg mem o fr vs vs' vs1 vs1' ev ev' :
  vars_typed sg fr -> Forall wf_value vs -> same_words vs vs' -> same_words vs vs1 ->
  same_words vs' vs1' -> il_next sg mem o fr vs1 = Some ev -> il_next sg mem o fr vs1' = Some ev' ->
  same_event ev ev' /\ wf_event sg ev.
Proof.
  intros V W S S1 S1' E E'. pose proof (same_words_wf _ _ S1 W) as W1. split.
  - eapply il_next_agree; [exact W1| |exact E|exact E']. by rewrite <-S1, S.
  - by eapply il_next_wf.
Qed.

Lemma il_run_agrees sg mem n o fr vs vs' ev ev' :
  vars_typed sg fr -> Forall wf_value vs -> same_words vs vs' ->
  il_run sg mem n o fr vs ev -> il_run sg mem n o fr vs' ev' -> same_event ev ev'.
Proof.
  revert o fr vs vs'. induction n as [|n IH]; intros o fr vs vs' V W S H H'.
  { inversion H; subst. inversion H'; subst. done. }
  inversion H as [|? ? ? ? vs1 o1 fr1 vs2 ? S1 E1 R1|? ? ? vs1 ? S1 E1 D1]; subst;
    inversion H' as [|? ? ? ? vs1' o1' fr1' vs2' ? S1' E1' R1'|? ? ? vs1' ? S1' E1' D1']; subst;
    destruct (il_next_read _ _ _ _ _ _ _ _ _ _ V W S S1 S1' E1 E1') as [Hev Hwf]; [| | |done].
  - destruct Hev as (<- & <- & Hs). destruct Hwf. by eapply IH.
  - apply same_event_ends in Hev. rewrite D1' in Hev. done.
  - apply same_event_ends in Hev. rewrite D1 in Hev. done.
Qed.

(** A run that ends is the longest. *)
Lemma il_run_longest sg mem n m o fr vs vs' ev ev' :
  vars_typed sg fr -> Forall wf_value vs -> same_words vs vs' -> ends ev = true ->
  il_run sg mem n o fr vs ev -> il_run sg mem m o fr vs' ev' -> (m <= n)%nat.
Proof.
  revert m o fr vs vs'. induction n as [|n IH]; intros m o fr vs vs' V W S D H H'.
  { inversion H; subst. done. }
  inversion H' as [|m' ? ? ? vs1' o1' fr1' vs2' ? S1' E1' R1'|? ? ? vs1' ? S1' E1' D1']; subst; [lia| |lia].
  inversion H as [|? ? ? ? vs1 o1 fr1 vs2 ? S1 E1 R1|? ? ? vs1 ? S1 E1 D1]; subst;
    destruct (il_next_read _ _ _ _ _ _ _ _ _ _ V W S S1 S1' E1 E1') as [Hev Hwf].
  - destruct Hev as (<- & <- & Hs), Hwf as [V' W'].
    pose proof (IH m' o1 fr1 vs2 vs2' V' W' Hs D R1 R1'). lia.
  - apply same_event_ends in Hev. rewrite D in Hev. done.
Qed.

(** A run goes through a configuration with a next step after every smaller
    number of instructions. *)
Lemma il_run_prefix sg mem n k o fr vs ev :
  il_run sg mem k o fr vs ev -> (n < k)%nat ->
  exists o' fr' vs' vs0 ev', il_run sg mem n o fr vs (Goes o' fr' vs') /\ same_words vs' vs0 /\
    il_next sg mem o' fr' vs0 = Some ev'.
Proof.
  revert k o fr vs. induction n as [|n IH]; intros k o fr vs H Hk;
    inversion H as [|k' ? ? ? vs1 o1 fr1 vs2 ? S1 E1 R1|? ? ? vs1 ? S1 E1 D1]; subst; try lia.
  - eexists o, fr, vs, vs1, _. split; [constructor|]. by split.
  - eexists o, fr, vs, vs1, _. split; [constructor|]. by split.
  - destruct (IH k' o1 fr1 vs2 R1 ltac:(lia)) as (o' & fr' & vs' & vs0 & ev' & Hr & Hs & Hn).
    exists o', fr', vs', vs0, ev'. split; [by eapply run_next|done].
Qed.

(** ** From blocks to runs *)

Lemma exec_not_jump opcode arg vs out :
  il_exec opcode arg vs = Some out -> branch_opcode opcode = false /\ (opcode =? IL_OP_RET) = false.
Proof.
  intros H. split; apply not_true_is_false; intros Hb; revert H.
  - unfold branch_opcode in Hb. apply orb_true_iff in Hb. unfold short_branch_opcodes, long_branch_opcodes in Hb.
    destruct Hb as [Hb|Hb]; opcode_cases Hb; destruct vs; done.
  - apply Z.eqb_eq in Hb as ->. by destruct vs.
Qed.

Lemma exec_no_access mem o opcode arg vs out :
  il_exec opcode arg vs = Some out -> il_access mem o opcode = None.
Proof.
  intros H. destruct (il_access mem o opcode) as [a|] eqn:Ea; [exfalso|done].
  assert (opcode ∈ [IL_OP_LDARG_0; IL_OP_LDARG_1; IL_OP_LDARG_2; IL_OP_LDARG_3; IL_OP_LDLOC_0; IL_OP_LDLOC_1;
    IL_OP_LDLOC_2; IL_OP_LDLOC_3; IL_OP_STLOC_0; IL_OP_STLOC_1; IL_OP_STLOC_2; IL_OP_STLOC_3; IL_OP_LDARG_S;
    IL_OP_STARG_S; IL_OP_LDLOC_S; IL_OP_STLOC_S; IL_OP_PREFIX + IL_PREFIX_OP_LDARG;
    IL_OP_PREFIX + IL_PREFIX_OP_STARG; IL_OP_PREFIX + IL_PREFIX_OP_LDLOC;
    IL_OP_PREFIX + IL_PREFIX_OP_STLOC]) as Hin.
  { revert Ea. unfold il_access, tiny_access.
    repeat match goal with
    | |- context [if (?a <=? opcode) && (opcode <=? ?b) then _ else _] =>
        destruct ((a <=? opcode) && (opcode <=? b)) eqn:?
    | |- context [if opcode =? ?a then _ else _] => destruct (Z.eqb_spec opcode a)
    end; intros; bool_to_prop; subst; rewrite !elem_of_cons; try done; auto 30.
    all: unfold IL_OP_LDARG_0, IL_OP_LDARG_1, IL_OP_LDARG_2, IL_OP_LDARG_3, IL_OP_LDLOC_0, IL_OP_LDLOC_1,
      IL_OP_LDLOC_2, IL_OP_LDLOC_3, IL_OP_STLOC_0, IL_OP_STLOC_1, IL_OP_STLOC_2, IL_OP_STLOC_3 in *; lia. }
  clear Ea. rewrite !elem_of_cons, elem_of_nil in Hin.
  repeat (destruct Hin as [->|Hin]; [destruct vs; discriminate H|]). done.
Qed.

Lemma next_exec sg mem o fr opcode row vs out :
  il_fetch mem o = Some (opcode, row) -> il_exec opcode (il_arg mem o) vs = Some out ->
  il_next sg mem o fr vs =
    Some match out with Values vs' => Goes (o + size row) fr vs' | Raise e => Raises e end.
Proof.
  intros Hf Hx. destruct (exec_not_jump _ _ _ _ Hx) as [Hb Hr]. unfold il_next.
  rewrite Hf. cbn [mbind option_bind]. by rewrite Hb, Hr, (exec_no_access _ _ _ _ _ _ Hx), Hx.
Qed.

(** A block, then a run from its end. *)
Lemma block_run sg mem e o fr vs out :
  il_block mem e o vs out ->
  match out with
  | Values vs' => forall m ev, il_run sg mem m e fr vs' ev ->
      exists n, (m <= n)%nat /\ (o < e -> (m < n)%nat) /\ il_run sg mem n o fr vs ev
  | Raise x => exists n, il_run sg mem n o fr vs (Raises x)
  end.
Proof.
  induction 1 as [vs|o vs opcode row vs' out Hf Hle Hx _ IH|o vs opcode row x Hf Hle Hx].
  - intros m ev Hr. exists m. split; [done|]. split; [lia|done].
  - pose proof (next_exec sg _ _ fr _ _ _ _ Hf Hx) as Hn. destruct out as [vs2|x].
    + intros m ev Hr. destruct (IH m ev Hr) as (n & Hn1 & _ & Hr'). exists (S n).
      split; [lia|]. split; [lia|].
      eapply run_next; [reflexivity|exact Hn|exact Hr'].
    + destruct IH as [n Hr]. exists (S n). eapply run_next; [reflexivity|exact Hn|exact Hr].
  - pose proof (next_exec sg _ _ fr _ _ _ _ Hf Hx) as Hn. exists 1%nat.
    eapply run_end; [reflexivity|exact Hn|done].
Qed.

End Flow.
