(* ===== verification/WalkTargets.v ===== *)
(** * Jump targets on the walk over the instructions

    The offsets that the first pass marks as instruction starts are exactly
    those of the walk from the start of the code by the sizes of the opcode
    tables, and an accepted branch goes to one of them. *)
From Stdlib Require Import ZArith Lia.
From stdpp Require Import base list option numbers.
From S2P Require Import Prelude Opcodes Cvm JumpMask Scan Coder CoderBranch Types Verify VerifyBranch VerifyProps ILSpec CvmProps CoderProps Refine RefineBlock ILVars CvmOps.
Import OpTable.

Local Open Scope Z_scope.

(** Behind [o] the walk goes on at the next instruction. *)
Lemma on_walk_next mem o opcode row q :
  il_fetch mem o = Some (opcode, row) -> on_walk mem o q -> q = o \/ on_walk mem (o + size row) q.
Proof.
  intros Hf H. destruct H as [|o opcode' row' q Hf' H]; [by left|]. right.
  rewrite Hf in Hf'. by injection Hf' as <- <-.
Qed.

Section Walk.
Context {PF : Platform}.
Variables (mem : list Z) (codeLen : Z).
Hypothesis Hbytes : bytes mem.
Hypothesis Hlen : codeLen = Z.of_nat (length mem).
Hypothesis Hsize : codeLen * 3 <= 0x100000000.

(** ** The first pass *)

Lemma fetch_insn_row posn len h opcode row op n ty r :
  il_fetch mem posn = Some (opcode, row) ->
  fetch_insn mem posn len h = Ret (op, n, ty, r) -> op = opcode /\ n = size row /\ ty = args row.
Proof.
  unfold il_fetch, fetch_insn, rd, table_row.
  destruct (pc_at mem posn 0) as [b|]; cbn [mbind option_bind vres_bind access]; [|done].
  destruct (negb (b =? IL_OP_PREFIX)).
  - destruct (ILMainOpcodeTable !! Z.to_nat b) as [rw|]; cbn [mbind option_bind vres_bind access]; [|done].
    destruct (computed_size (args rw)); [done|]. intros [= <- <-]. destruct (len <? size rw); [done|].
    by intros [= <- <- <-].
  - destruct (len <? 2); [done|].
    destruct (pc_at mem (posn + 1) 0) as [b'|]; cbn [mbind option_bind vres_bind access]; [|done].
    destruct (ILPrefixOpcodeTable !! Z.to_nat b') as [rw|]; cbn [mbind option_bind vres_bind access]; [|done].
    destruct (computed_size (args rw)); [done|]. intros [= <- <-]. destruct (len <? size rw); [done|].
    by intros [= <- <- <-].
Qed.

Lemma il_fetch_fixed posn opcode row :
  il_fetch mem posn = Some (opcode, row) -> computed_size (args row) = false.
Proof.
  unfold il_fetch. destruct (pc_at mem posn 0) as [b|]; cbn [mbind option_bind]; [|done].
  match goal with |- context [mbind ?f ?o] => destruct o as [[op rw]|]; cbn [mbind option_bind]; [|done] end.
  destruct (computed_size (args rw)) eqn:E; [done|]. by intros [= <- <-].
Qed.

Lemma scan_args_size posn len opcode n ty m m' n' :
  computed_size ty = false ->
  scan_args mem codeLen posn len opcode n ty m = Ret (m', n') -> n' = n.
Proof.
  unfold computed_size, scan_args. intros [[[E1 E2]%orb_false_iff E3]%orb_false_iff E4]%orb_false_iff.
  rewrite E1, E2, E3, E4. unfold mbind, vres_bind. intros H. repeat case_match; by simplify_eq.
Qed.

Lemma scan_insn_size posn len m h opcode row m' h' n :
  il_fetch mem posn = Some (opcode, row) ->
  scan_insn mem codeLen posn len m h = Ret (m', h', n) -> n = size row.
Proof.
  intros Hf. unfold scan_insn.
  destruct (MarkInsnStart m (u32 posn)); cbn [mbind vres_bind access]; [|done].
  destruct (fetch_insn mem posn len h) as [[[[op n0] ty] r]| | | |] eqn:E; cbn [mbind vres_bind]; try done.
  destruct (fetch_insn_row _ _ _ _ _ _ _ _ _ Hf E) as (-> & -> & ->).
  destruct (scan_args _ _ _ _ _ _ _ _) as [[m1 n1]| | | |] eqn:Ea; cbn [mbind vres_bind]; try done.
  intros [= <- <- <-]. eapply scan_args_size; [|exact Ea]. by eapply il_fetch_fixed.
Qed.

Lemma scan_walk ok walk fuel posn len m h m' h' :
  walk_code ok walk mem posn codeLen = true -> posn + len = codeLen -> 0 <= posn -> 0 <= len ->
  mask_ok codeLen m -> jumps_marked mem codeLen m ->
  scan fuel mem codeLen posn len m h = Ret (m', h') ->
  mask_ok codeLen m' /\ jumps_marked mem codeLen m' /\
  forall o, 0 <= o < codeLen ->
    IsInsnStart m' o = Some true <-> IsInsnStart m o = Some true \/ on_walk mem posn o.
Proof.
  revert walk posn len m h. induction fuel as [|fuel IH]; intros walk posn len m h Hw Hpl Hp Hl Hm Hj.
  all: cbn [scan]; destruct (Z.eqb_spec len 0) as [->|Hn]; [|try done].
  1,2: intros [= <- <-]; (split; [done|]); (split; [done|]); intros o Ho;
    (split; [by left|]); intros [H|H%on_walk_ge]; [done|lia|done].
  destruct (walk_code_step _ _ _ _ _ Hw ltac:(lia)) as (opcode & row & walk' & Hf & _ & Hw').
  destruct (scan_insn mem codeLen posn len m h) as [[[m1 h1] n]| | | |] eqn:Hi; cbn [mbind vres_bind]; try done.
  pose proof (scan_insn_fine mem codeLen Hbytes Hlen Hsize posn len m h Hm Hj Hp ltac:(lia) Hpl) as Hfine.
  rewrite Hi in Hfine. destruct Hfine as (Hm1 & Hj1 & Hn1 & _ & HI).
  rewrite (scan_insn_size _ _ _ _ _ _ _ _ _ Hf Hi) in *.
  rewrite u32_id by (unfold IL_MAX_UINT32; lia). intros Hs.
  destruct (IH walk' (posn + size row) (len - size row) m1 h1 Hw' ltac:(lia) ltac:(lia) ltac:(lia) Hm1 Hj1 Hs)
    as (Hm' & Hj' & HI'). split; [done|]. split; [done|]. intros o Ho. rewrite HI', HI by done.
  split.
  - intros [H|H]; [|right; by eapply walk_next]. destruct (Z.eqb_spec o posn) as [->|]; [right; constructor|by left].
  - intros [H|H]; [left; by destruct (o =? posn)|].
    destruct (on_walk_next _ _ _ _ _ Hf H) as [->|]; [left; by rewrite Z.eqb_refl|by right].
Qed.

(** ** Branches *)

Lemma branch_args posn opcode row :
  il_fetch mem posn = Some (opcode, row) -> branch_opcode opcode = true ->
  listed opcode short_branch_opcodes = true /\ size row = 2 /\ args row = IL_OPCODE_ARGS_SHORT_JUMP \/
  listed opcode short_branch_opcodes = false /\ listed opcode long_branch_opcodes = true /\
    size row = 5 /\ args row = IL_OPCODE_ARGS_LONG_JUMP.
Proof.
  intros Hf Hb. destruct (il_fetch_cases _ _ _ _ Hbytes Hf) as (_ & _ & Hcases).
  unfold branch_opcode in Hb. apply orb_true_iff in Hb.
  destruct Hcases as [(_ & _ & Hrow & _)|(op & -> & [H0 _] & _)].
  - unfold short_branch_opcodes, long_branch_opcodes in *. destruct Hb as [Hb|Hb]; opcode_cases Hb;
      vm_compute in Hrow; injection Hrow as <-; first [by left|by right].
  - exfalso. unfold short_branch_opcodes, long_branch_opcodes, listed in Hb. simpl existsb in Hb.
    destruct Hb as [Hb|Hb]; repeat (apply orb_true_iff in Hb as [Hb%Z.eqb_eq|Hb]);
      first [discriminate Hb | unfold IL_OP_PREFIX in Hb; revert Hb;
        match goal with |- _ = ?x -> _ => intros Hb; assert (x < 0xFE) by reflexivity; lia end].
Qed.

Lemma jump_dest_target posn opcode row d :
  0 <= posn < codeLen -> il_fetch mem posn = Some (opcode, row) -> branch_opcode opcode = true ->
  jump_dest mem posn opcode (size row) (args row) = Ret d -> d < codeLen ->
  branch_target mem posn opcode = Some d.
Proof.
  intros Hp Hf Hb. unfold jump_dest, branch_target.
  destruct (branch_args _ _ _ Hf Hb) as [(-> & -> & ->)|(-> & _ & -> & ->)]; simpl.
  - unfold rd. destruct (pc_at mem (posn + 1) 0) as [b|]; [|done]. simpl. intros [= <-] Hd. do 2 f_equal.
    revert Hd. rewrite Hlen in *. width_lia.
  - unfold rd_uint32, rd. change (posn + 1 + 1) with (posn + 1 + 1).
    replace (posn + 2) with (posn + 1 + 1) by lia. replace (posn + 3) with (posn + 1 + 2) by lia.
    replace (posn + 4) with (posn + 1 + 3) by lia.
    destruct (pc_at mem (posn + 1) 0) as [b0|] eqn:E0; [|done].
    destruct (pc_at mem (posn + 1 + 1) 0) as [b1|] eqn:E1; [|done].
    destruct (pc_at mem (posn + 1 + 2) 0) as [b2|] eqn:E2; [|done].
    destruct (pc_at mem (posn + 1 + 3) 0) as [b3|] eqn:E3; [|done].
    simpl. intros [= <-] Hd. do 2 f_equal.
    assert (forall i b, pc_at mem i 0 = Some b -> is_byte b) as Hbyte.
    { intros i b H. unfold pc_at in H. destruct (0 <=? i + 0); [|done]. by eapply Forall_lookup_1 in H. }
    rewrite read_uint32_bytes in * by (by eapply Hbyte).
    set (x := b0 + 2 ^ 8 * b1 + 2 ^ 16 * b2 + 2 ^ 24 * b3) in *. clearbody x.
    revert Hd. rewrite Hlen in *. width_lia.
Qed.

(** The verdict of the first pass on the branches of the walk. *)
Definition targets_fine (jumpMask : list Z) : Prop :=
  forall o opcode row, on_walk mem 0 o -> 0 <= o < codeLen ->
    il_fetch mem o = Some (opcode, row) -> branch_opcode opcode = true ->
    exists d, branch_target mem o opcode = Some d /\ 0 <= d < codeLen /\
      IsJumpTarget jumpMask d = Some true /\ on_walk mem 0 d.

Lemma scan_targets_fine ok walk h m h' :
  walk_code ok walk mem 0 codeLen = true ->
  scan (Z.to_nat codeLen) mem codeLen 0 codeLen (new_mask codeLen) h = Ret (m, h') ->
  check_targets (Z.to_nat codeLen) m = Ret () -> targets_fine m.
Proof.
  intros Hw Hs Hc o opcode row Ho Hor Hf Hb.
  destruct (scan_walk _ _ _ 0 codeLen _ _ _ _ Hw ltac:(lia) ltac:(lia) ltac:(lia)
    (new_mask_ok mem codeLen Hlen) (new_mask_jumps mem codeLen Hsize) Hs) as (Hm & Hj & HI).
  assert (IsInsnStart m o = Some true) as Hstart by (apply HI; [done|by right]).
  assert (0 < size row) as Hrow by (destruct (il_fetch_cases _ _ _ _ Hbytes Hf) as (_ & ? & _); lia).
  assert (o + size row <= codeLen) as Hfit.
  { assert (exists w', walk_code ok w' mem o codeLen = true) as [w' Hw'].
    { by eapply on_walk_code; [..|lia]. }
    destruct (walk_code_step _ _ _ _ _ Hw' ltac:(lia)) as (op' & r' & w2 & Hf' & _ & Hw2).
    rewrite Hf in Hf'. injection Hf' as <- <-. by apply (walk_code_le _ _ _ _ _ Hbytes Hw2). }
  assert (exists h', fetch_insn mem o (codeLen - o) false = Ret (opcode, size row, args row, h')) as [h2 Hfetch].
  { clear -Hf Hfit Hrow Hbytes. revert Hf. unfold il_fetch, fetch_insn, rd, table_row.
    destruct (pc_at mem o 0) as [b|]; cbn [mbind option_bind vres_bind access]; [|done].
    destruct (negb (b =? IL_OP_PREFIX)).
    - destruct (ILMainOpcodeTable !! Z.to_nat b) as [rw|]; cbn [mbind option_bind vres_bind access]; [|done].
      destruct (computed_size (args rw)); [done|]. intros [= <- <-].
      rewrite (proj2 (Z.ltb_ge _ _)) by lia. by eexists.
    - destruct (pc_at mem (o + 1) 0) as [b'|]; cbn [mbind option_bind vres_bind access]; [|done].
      destruct (ILPrefixOpcodeTable !! Z.to_nat b') as [rw|] eqn:Er; cbn [mbind option_bind vres_bind access]; [|done].
      destruct (computed_size (args rw)) eqn:Ec; [done|]. intros [= <- <-].
      pose proof (row_ok_size _ _ (lookup_forallb _ _ _ _ (proj2 prefix_rows) Er) Ec).
      rewrite !(proj2 (Z.ltb_ge _ _)) by lia. by eexists. }
  destruct (Hj o false opcode _ _ h2 Hor Hstart Hfetch) as (d & Hd & Hdr & Ht).
  { destruct (branch_args _ _ _ Hf Hb) as [(_ & _ & ->)|(_ & _ & _ & ->)]; auto. }
  exists d. split; [by eapply jump_dest_target; [..|lia]|]. split; [done|]. split; [done|].
  assert (IsInsnStart m d = Some true) as Hsd.
  { apply (check_targets_sound mem codeLen (Z.to_nat codeLen)); try done; lia. }
  apply HI in Hsd; [|done]. destruct Hsd as [Hsd|]; [|done].
  destruct (new_mask_clear codeLen d Hdr Hsize) as (E & _). congruence.
Qed.

End Walk.

(** ** Stacks of integers at labels (proofs about engine/verify_branch.c)

    On stacks of integers the validation against a label changes neither
    stack, so the stack of a label is fixed when the label is made.  It may
    differ from a stack that arrives in native ints and ints of their width,
    which hold the same words. *)

Import OpTable.


Section Stacks.
Context {PF : Platform} {TL : TypeLibrary}.
Variable depth : nat.

(** A stack of integers. *)
Definition int_stack (stack : list ILEngineStackItem) : Prop := exists vs, typed stack vs.

(** The types of an item that arrives at a label and of the label's. *)
Definition meets (t t' : ILEngineType) : Prop :=
  t = t' \/ exists w, w = native /\ (t = width_type w \/ t = T_I) /\ (t' = width_type w \/ t' = T_I).

Definition stack_meets (stack stack' : list ILEngineStackItem) : Prop :=
  Forall2 (fun i i' => meets (engineType i) (engineType i')) stack stack'.

Lemma meets_value v t :
  wf_value v -> meets (type_of v) t -> exists v', type_of v' = t /\ wf_value v' /\ same_word v v'.
Proof.
  intros Hv [<-|(w & -> & Ht & Ht')]; [by exists v|].
  assert (width_of v = native) as Hw.
  { destruct Ht as [Ht|Ht]; destruct v; try done; unfold native in *;
      destruct IL_NATIVE_INT64; done. }
  assert (type_of (tag t (number v)) = t /\ width_of (tag t (number v)) = native /\
    number (tag t (number v)) = number v) as (E1 & E2 & E3).
  { destruct Ht' as [-> | ->]; [|done]. unfold native. destruct IL_NATIVE_INT64; done. }
  exists (tag t (number v)). split; [done|]. split.
  - apply wf_value_wrap. rewrite E2, E3, <-Hw. by apply wf_value_wrap.
  - split; congruence.
Qed.

Lemma stack_meets_values stack stack' vs :
  stack_meets stack stack' -> typed stack vs -> exists vs', typed stack' vs' /\ same_words vs vs'.
Proof.
  intros H. revert vs. induction H as [|i i' stack stack' Hi _ IH]; intros vs Hvs.
  - exists vs. split; [done|reflexivity].
  - destruct vs as [|v vs]; [by destruct Hvs|].
    destruct (typed_1 _ _ _ Hvs) as (? & ? & [= <- <-] & E & Hs & W). rewrite E in Hi.
    destruct (IH vs Hs) as (vs' & Ht' & Hw'). destruct (meets_value v _ W Hi) as (v' & Ev & W' & Sv).
    exists (v' :: vs'). split; [|by apply Forall2_cons].
    destruct Ht' as [Ht' Hf]. split; [simpl; by rewrite Ev, Ht'|by apply Forall_cons_2].
Qed.

Lemma stack_meets_refl stack : stack_meets stack stack.
Proof. apply Forall_Forall2_diag, Forall_true. intros. by left. Qed.

Lemma stack_meets_sym stack stack' : stack_meets stack stack' -> stack_meets stack' stack.
Proof.
  induction 1 as [|i i' stack stack' Hi _ IH]; constructor; [|done].
  destruct Hi as [->|(w & ? & ? & ?)]; [by left|]. right. by exists w.
Qed.

Lemma int_stack_meets stack stack' : stack_meets stack stack' -> int_stack stack -> int_stack stack'.
Proof. intros H (vs & Hvs). destruct (stack_meets_values _ _ _ H Hvs) as (vs' & ? & _). by exists vs'. Qed.

Lemma int_stack_nil : int_stack [].
Proof. by exists []. Qed.

Lemma int_stack_cons i stack :
  int_stack (i :: stack) -> (exists v, engineType i = type_of v) /\ int_stack stack.
Proof.
  intros (vs & Hvs). destruct vs as [|v vs]; [by destruct Hvs|].
  destruct (typed_1 _ _ _ Hvs) as (? & ? & [= <- <-] & E & Hs & _). split; [by exists v|by exists vs].
Qed.

(** ** Validation *)

Lemma native_item_spec t : native_item t = true -> t = width_type native \/ t = T_I.
Proof.
  unfold native_item, native, is_type. intros H%orb_true_iff.
  destruct IL_NATIVE_INT64; destruct H as [H|H]; apply bool_decide_eq_true in H; auto.
Qed.

Lemma ValidateItem_int old new v r :
  engineType new = type_of v -> ValidateItem depth old new = Ret r ->
  r = (old, new) /\ meets (engineType new) (engineType old).
Proof.
  intros Ev. unfold ValidateItem. destruct (_ && _) eqn:En.
  { intros [= <-]. split; [done|]. apply andb_true_iff in En as [H1%native_item_spec H2%native_item_spec].
    right. by exists native. }
  destruct (negb _) eqn:Et; [done|]. apply negb_false_iff, is_type_spec in Et. rewrite Ev.
  destruct v; intros [= <-]; (split; [done|]); left; congruence.
Qed.

Lemma ValidateItems_int old new r :
  int_stack new -> ValidateItems depth old new = Ret r -> r = (old, new) /\ stack_meets new old.
Proof.
  revert new r. induction old as [|o old IH]; intros [|n new] r Hi; simpl; try done.
  - intros [= <-]. split; [done|constructor].
  - apply int_stack_cons in Hi as [[v Hv] Hi].
    destruct (ValidateItems depth old new) as [[o1 n1]| | | |] eqn:E; cbn [mbind vres_bind]; try done.
    destruct (IH _ _ Hi E) as [[= -> ->] Hm].
    destruct (ValidateItem depth o n) as [[o1 n1]| | | |] eqn:E1; cbn [mbind vres_bind]; try done.
    destruct (ValidateItem_int _ _ _ _ Hv E1) as [[= -> ->] Hm1].
    intros [= <-]. split; [done|by constructor].
Qed.

Lemma ValidateStack_int label stack r :
  int_stack stack -> ValidateStack depth label stack = Ret r ->
  r = (bl_stack label, stack) /\ stack_meets stack (bl_stack label).
Proof. unfold ValidateStack. destruct (negb _); [done|]. apply ValidateItems_int. Qed.

(** ** Labels *)

(** The labels [labels'] have those of [labels], with their stacks. *)
Definition labels_extend (labels labels' : list BranchLabel) : Prop :=
  forall a l, FindLabel labels a = Some l -> FindLabel labels' a = Some l.

#[export] Instance labels_extend_preorder : PreOrder labels_extend.
Proof. split; [by intros l a|]. intros l1 l2 l3 H1 H2 a l H. by apply H2, H1. Qed.

Definition int_labels (maxStack : Z) (labels : list BranchLabel) : Prop :=
  forall a l, FindLabel labels a = Some l ->
    int_stack (bl_stack l) /\ Z.of_nat (length (bl_stack l)) <= maxStack.

Lemma set_label_stack_same labels a l :
  FindLabel labels a = Some l -> set_label_stack labels a (bl_stack l) = labels.
Proof.
  induction labels as [|l' labels IH]; simpl; [done|].
  destruct (Z.eqb_spec (bl_address l') a) as [<-|]; [intros [= ->]; by destruct l|].
  intros H. by rewrite IH.
Qed.

Lemma FindLabel_new labels a stack b :
  FindLabel (mk_branch_label a stack :: labels) b =
    if a =? b then Some (mk_branch_label a stack) else FindLabel labels b.
Proof. done. Qed.

Lemma labels_extend_new labels a stack :
  FindLabel labels a = None -> labels_extend labels (mk_branch_label a stack :: labels).
Proof. intros Hn b l Hb. rewrite FindLabel_new. destruct (Z.eqb_spec a b); [congruence|done]. Qed.

Lemma int_labels_new maxStack labels a stack :
  int_labels maxStack labels -> int_stack stack -> Z.of_nat (length stack) <= maxStack ->
  int_labels maxStack (mk_branch_label a stack :: labels).
Proof.
  intros Hl Hs Hm b l. rewrite FindLabel_new. destruct (a =? b); [by intros [= <-]|apply Hl].
Qed.

(** What the labels are after a validation: those before, and one at [a] that
    the stack meets. *)
Definition label_made (maxStack a : Z) (stack : list ILEngineStackItem)
    (labels labels' : list BranchLabel) : Prop :=
  labels_extend labels labels' /\ int_labels maxStack labels' /\
  exists l, FindLabel labels' a = Some l /\ stack_meets stack (bl_stack l).

Lemma label_made_old maxStack a stack labels l :
  int_labels maxStack labels -> FindLabel labels a = Some l -> stack_meets stack (bl_stack l) ->
  label_made maxStack a stack labels labels.
Proof. intros Hi Hf Hm. split; [reflexivity|]. split; [done|by exists l]. Qed.

Lemma label_made_new maxStack a stack labels :
  int_labels maxStack labels -> FindLabel labels a = None -> int_stack stack ->
  Z.of_nat (length stack) <= maxStack ->
  label_made maxStack a stack labels (mk_branch_label a stack :: labels).
Proof.
  intros Hi Hf Hs Hm. split; [by apply labels_extend_new|]. split; [by apply int_labels_new|].
  exists (mk_branch_label a stack). rewrite FindLabel_new, Z.eqb_refl. split; [done|apply stack_meets_refl].
Qed.

Lemma VALIDATE_BRANCH_STACK_int maxStack dest labels stack labels' stack' :
  int_labels maxStack labels -> int_stack stack -> Z.of_nat (length stack) <= maxStack ->
  VALIDATE_BRANCH_STACK depth dest labels stack = Ret (labels', stack') ->
  stack' = stack /\ label_made maxStack dest stack labels labels'.
Proof.
  intros Hl Hs Hm. unfold VALIDATE_BRANCH_STACK. destruct (FindLabel labels dest) as [l|] eqn:Hf.
  - destruct (ValidateStack depth l stack) as [[old new]| | | |] eqn:Hv; cbn [mbind vres_bind]; try done.
    destruct (ValidateStack_int _ _ _ Hs Hv) as [[= -> ->] Hmeet]. intros [= <- <-].
    rewrite (set_label_stack_same _ _ _ Hf). split; [done|by eapply label_made_old].
  - intros [= <- <-]. split; [done|by apply label_made_new].
Qed.

Lemma VALIDATE_TARGET_STACK_int maxStack o jump labels stack labels' stack' :
  0 <= maxStack ->
  int_labels maxStack labels -> int_stack stack -> Z.of_nat (length stack) <= maxStack ->
  VALIDATE_TARGET_STACK depth o jump labels stack = Ret (labels', stack') ->
  label_made maxStack o stack' labels labels' /\ int_stack stack' /\
  Z.of_nat (length stack') <= maxStack /\ (jump = false -> stack' = stack).
Proof.
  intros H0 Hl Hs Hm. unfold VALIDATE_TARGET_STACK. destruct (FindLabel labels o) as [l|] eqn:Hf.
  - destruct (Hl _ _ Hf) as [Hli Hlm]. destruct jump.
    + intros [= <- <-]. split; [eapply label_made_old; [done..|apply stack_meets_refl]|done].
    + destruct (ValidateStack depth l stack) as [[old new]| | | |] eqn:Hv; cbn [mbind vres_bind]; try done.
      destruct (ValidateStack_int _ _ _ Hs Hv) as [[= -> ->] Hmeet]. intros [= <- <-].
      rewrite (set_label_stack_same _ _ _ Hf). split; [by eapply label_made_old|done].
  - intros [= <- <-]. destruct jump; (split; [apply label_made_new; try done; apply int_stack_nil|]);
      (split; [try done; apply int_stack_nil|done]).
Qed.

End Stacks.
