(* ===== verification/BranchLayout.v ===== *)
(** * The code that the CVM coder lays out (proofs about engine/cvmc_branch.c)

    What is output for a method as a list of chunks: bytes, and branches to IL
    addresses.  A branch takes six bytes whether it is a placeholder, short or
    long, so positions do not depend on the labels; its bytes do.  [laid] is
    the invariant of the coder: its code is the layout of the chunks under the
    labels that have positions, and each label that has none lists exactly the
    branches that wait for it.  Defining a label patches exactly those. *)
From Stdlib Require Import ZArith Lia.
From stdpp Require Import base list option numbers.
From S2P Require Import Prelude Opcodes Cvm Coder CoderBranch.

Local Open Scope Z_scope.

(** ** Chunks *)

Inductive chunk := Bytes (bs : list Z) | Br (op dest : Z).

Definition chunk_len (ch : chunk) : Z :=
  match ch with Bytes bs => Z.of_nat (length bs) | Br _ _ => 6 end.
Definition chunks_len (chs : list chunk) : Z := foldr (fun ch n => chunk_len ch + n) 0 chs.

Definition placeholder (op : Z) : list Z := [u8 op; u8 op; 0; 0; 0; 0].
Definition branch_bytes (op rel : Z) : list Z :=
  if is_short rel then [u8 op; u8 rel; 0; 0; 0; 0]
  else [COP_BR_LONG; u8 op; u8 rel; u8 (Z.shiftr rel 8); u8 (Z.shiftr rel 16); u8 (Z.shiftr rel 24)].

(** The bytes of a chunk at [pos], where [L] gives the positions of labels. *)
Definition render (L : Z -> option Z) (pos : Z) (ch : chunk) : list Z :=
  match ch with
  | Bytes bs => bs
  | Br op dest =>
    match L dest with
    | None => placeholder op
    | Some d => branch_bytes op (i32 (d - pos))
    end
  end.

Fixpoint layout (L : Z -> option Z) (pos : Z) (chs : list chunk) : list Z :=
  match chs with
  | [] => []
  | ch :: chs => render L pos ch ++ layout L (pos + chunk_len ch) chs
  end.

(** The positions of the branches to [a]. *)
Fixpoint refs_of (a pos : Z) (chs : list chunk) : list Z :=
  match chs with
  | [] => []
  | ch :: chs =>
    match ch with
    | Br _ dest => if dest =? a then [pos] else []
    | Bytes _ => []
    end ++ refs_of a (pos + chunk_len ch) chs
  end.

Lemma length_branch_bytes op rel : length (branch_bytes op rel) = 6%nat.
Proof. unfold branch_bytes. by destruct (is_short rel). Qed.

Lemma length_render L pos ch : Z.of_nat (length (render L pos ch)) = chunk_len ch.
Proof. destruct ch as [|op dest]; simpl; [done|]. destruct (L dest); [by rewrite length_branch_bytes|done]. Qed.

Lemma length_layout L pos chs : Z.of_nat (length (layout L pos chs)) = chunks_len chs.
Proof.
  revert pos. induction chs as [|ch chs IH]; intros pos; simpl; [done|].
  rewrite length_app, Nat2Z.inj_add, length_render, IH. done.
Qed.

Lemma chunk_len_nonneg ch : 0 <= chunk_len ch.
Proof. destruct ch; simpl; lia. Qed.

Lemma chunks_len_nonneg chs : 0 <= chunks_len chs.
Proof. induction chs as [|ch chs IH]; simpl; [done|]. pose proof (chunk_len_nonneg ch). lia. Qed.

Lemma chunks_len_app chs1 chs2 : chunks_len (chs1 ++ chs2) = chunks_len chs1 + chunks_len chs2.
Proof. induction chs1 as [|ch chs1 IH]; simpl; [done|]. rewrite IH. lia. Qed.

Lemma layout_app L pos chs1 chs2 :
  layout L pos (chs1 ++ chs2) = layout L pos chs1 ++ layout L (pos + chunks_len chs1) chs2.
Proof.
  revert pos. induction chs1 as [|ch chs1 IH]; intros pos; simpl; [by rewrite Z.add_0_r|].
  by rewrite IH, <-app_assoc, Z.add_assoc.
Qed.

Lemma refs_of_app a pos chs1 chs2 :
  refs_of a pos (chs1 ++ chs2) = refs_of a pos chs1 ++ refs_of a (pos + chunks_len chs1) chs2.
Proof.
  revert pos. induction chs1 as [|ch chs1 IH]; intros pos; simpl; [by rewrite Z.add_0_r|].
  by rewrite IH, <-app_assoc, Z.add_assoc.
Qed.

Lemma refs_of_range a pos chs q : q ∈ refs_of a pos chs -> pos <= q < pos + chunks_len chs.
Proof.
  revert pos. induction chs as [|ch chs IH]; intros pos; simpl; [by intros ?%elem_of_nil|].
  rewrite elem_of_app. pose proof (chunk_len_nonneg ch). pose proof (chunks_len_nonneg chs).
  intros [Hq|Hq%IH]; [|lia]. destruct ch as [|op dest]; [by apply elem_of_nil in Hq|]. simpl in *.
  destruct (dest =? a); [|by apply elem_of_nil in Hq]. apply list_elem_of_singleton in Hq. lia.
Qed.

Lemma render_ext L L' pos ch :
  (forall a, L a = L' a) -> render L pos ch = render L' pos ch.
Proof. intros H. destruct ch; simpl; [done|]. by rewrite H. Qed.

Lemma layout_ext L L' pos chs : (forall a, L a = L' a) -> layout L pos chs = layout L' pos chs.
Proof.
  intros H. revert pos. induction chs as [|ch chs IH]; intros pos; simpl; [done|].
  by rewrite (render_ext L L'), IH.
Qed.

(** ** Patching *)

Lemma patch_byte_at pre bs post pos (k : nat) v :
  pos = Z.of_nat (length pre) -> (k < length bs)%nat ->
  patch_byte (pre ++ bs ++ post) (pos + Z.of_nat k) v = pre ++ <[k := u8 v]> bs ++ post.
Proof.
  intros -> Hk. unfold patch_byte.
  replace (Z.to_nat _) with (length pre + k)%nat by lia. by rewrite insert_app_r, insert_app_l.
Qed.

(** A placeholder becomes the branch to the label's position. *)
Lemma backpatch_placeholder pre op post pos posn :
  pos = Z.of_nat (length pre) ->
  backpatch posn (pre ++ placeholder op ++ post) (mk_ref None pos) =
  pre ++ branch_bytes op (i32 (posn - pos)) ++ post.
Proof.
  intros Hp. unfold backpatch, branch_bytes. cbn [ref_address ref_offset].
  destruct (is_short _); [exact (patch_byte_at pre (placeholder op) post pos 1 _ Hp ltac:(simpl; lia))|].
  unfold CVM_BACKPATCH_BRANCH_LONG, IL_WRITE_INT32.
  pose proof (fun bs (k : nat) v Hk => patch_byte_at pre bs post pos k v Hp Hk) as Hat.
  rewrite <-!Z.add_assoc.
  pose proof (Hat (placeholder op) 0%nat COP_BR_LONG ltac:(simpl; lia)) as H0.
  rewrite Z.add_0_r in H0. rewrite H0. cbn [insert list_insert placeholder].
  erewrite (Hat _ 2%nat) by (simpl; lia). cbn [insert list_insert].
  erewrite (Hat _ 3%nat) by (simpl; lia). cbn [insert list_insert].
  erewrite (Hat _ 4%nat) by (simpl; lia). cbn [insert list_insert].
  erewrite (Hat _ 5%nat) by (simpl; lia). reflexivity.
Qed.

(** Patching every branch to [a] is laying out with [a] at [posn]. *)
Definition with_label (L : Z -> option Z) (a posn : Z) (b : Z) : option Z :=
  if b =? a then Some posn else L b.

Lemma backpatch_layout L a posn chs pre pos :
  L a = None -> pos = Z.of_nat (length pre) ->
  foldr (fun q c => backpatch posn c (mk_ref None q)) (pre ++ layout L pos chs) (refs_of a pos chs) =
  pre ++ layout (with_label L a posn) pos chs.
Proof.
  intros HL. revert pre pos. induction chs as [|ch chs IH]; intros pre pos Hp; simpl; [done|].
  rewrite foldr_app, app_assoc, IH by (rewrite length_app, Nat2Z.inj_add, length_render; lia).
  destruct ch as [bs|op dest]; simpl; [by rewrite app_assoc|].
  unfold with_label at 2. destruct (Z.eqb_spec dest a) as [->|Hne]; simpl.
  - rewrite HL, <-app_assoc. by apply backpatch_placeholder.
  - by rewrite app_assoc.
Qed.

(** ** The labels of the coder *)

Definition labelled (coder : ILCVMCoder) (a : Z) : option Z :=
  label ← find_label (labelList coder) a; label_offset label.
Definition waiting (coder : ILCVMCoder) (a : Z) : list ILCVMRef :=
  match find_label (labelList coder) a with Some label => nextRef label | None => [] end.

Lemma find_store_label labels new b :
  is_Some (find_label labels (label_address new)) ->
  find_label (store_label labels new) b =
    if b =? label_address new then Some new else find_label labels b.
Proof.
  induction labels as [|l labels IH]; simpl; [by intros [? ?]|].
  destruct (Z.eqb_spec (label_address l) (label_address new)) as [E|E]; simpl; intros H.
  - rewrite E, (Z.eqb_sym b). by destruct (label_address new =? b).
  - rewrite IH by done. destruct (Z.eqb_spec (label_address l) b) as [Hb|Hb]; [|done].
    by rewrite <-Hb, (proj2 (Z.eqb_neq _ _) E).
Qed.

Lemma GetLabel_spec coder a coder' label :
  GetLabel coder a = (coder', label) ->
  Coder.code coder' = Coder.code coder /\
  (forall b, find_label (labelList coder') b =
     if b =? a then Some label else find_label (labelList coder) b) /\
  label_offset label = labelled coder a /\ nextRef label = waiting coder a.
Proof.
  unfold GetLabel, labelled, waiting.
  destruct (find_label (labelList coder) a) as [l|] eqn:E; intros [= <- <-];
    (split; [done|]); (split; [|done]); intros b; simpl.
  - by destruct (Z.eqb_spec b a) as [->|].
  - by rewrite Z.eqb_sym.
Qed.

(** Storing to the label that [GetLabel] returned. *)
Lemma GetLabel_store coder a coder' label new b :
  GetLabel coder a = (coder', label) -> label_address new = a ->
  find_label (store_label (labelList coder') new) b =
    if b =? a then Some new else find_label (labelList coder) b.
Proof.
  intros H <-. destruct (GetLabel_spec _ _ _ _ H) as (_ & Hf & _).
  rewrite find_store_label by (rewrite Hf, Z.eqb_refl; by eexists).
  rewrite Hf. by destruct (b =? label_address new).
Qed.

Record laid (coder : ILCVMCoder) (chs : list chunk) : Prop := {
  laid_code : Coder.code coder = layout (labelled coder) 0 chs;
  laid_waiting : forall a, labelled coder a = None ->
    waiting coder a = map (mk_ref None) (reverse (refs_of a 0 chs));
}.

Lemma laid_posn coder chs : laid coder chs -> CVM_POSN coder = chunks_len chs.
Proof. intros [Hc _]. unfold CVM_POSN. by rewrite Hc, length_layout. Qed.

(** *** Straight-line output *)

Lemma laid_bytes coder coder' chs bs :
  laid coder chs -> Coder.code coder' = Coder.code coder ++ bs -> labelList coder' = labelList coder ->
  laid coder' (chs ++ [Bytes bs]).
Proof.
  intros [Hc Hw] Hb Hl. assert (forall a, labelled coder' a = labelled coder a) as HL
    by (intros a; unfold labelled; by rewrite Hl). split.
  - rewrite Hb, Hc, layout_app. simpl. rewrite app_nil_r. f_equal. by apply layout_ext.
  - intros a Ha. rewrite HL in Ha. unfold waiting. rewrite Hl, refs_of_app. simpl.
    rewrite app_nil_r. by apply Hw.
Qed.

Lemma laid_same coder coder' chs :
  laid coder chs -> Coder.code coder' = Coder.code coder -> labelList coder' = labelList coder ->
  laid coder' chs.
Proof.
  intros [Hc Hw] Hb Hl. assert (forall a, labelled coder' a = labelled coder a) as HL
    by (intros a; unfold labelled; by rewrite Hl). split.
  - rewrite Hb, Hc. by apply layout_ext.
  - intros a Ha. rewrite HL in Ha. unfold waiting. rewrite Hl. by apply Hw.
Qed.

(** *** A branch *)

Lemma code_out_branch coder op rel :
  Coder.code (if is_short rel then CVM_OUT_BRANCH coder op rel else CVM_OUT_BRANCH_LONG coder op rel) =
  Coder.code coder ++ branch_bytes op rel.
Proof.
  unfold branch_bytes. destruct (is_short rel); cbn -[u8 Z.shiftr]; rewrite <-!app_assoc; reflexivity.
Qed.

Lemma labels_out_branch coder op rel :
  labelList (if is_short rel then CVM_OUT_BRANCH coder op rel else CVM_OUT_BRANCH_LONG coder op rel) =
  labelList coder.
Proof. by destruct (is_short rel). Qed.

Lemma OutputBranch_laid coder chs op dest :
  laid coder chs -> CVM_POSN coder < 0x80000000 ->
  laid (OutputBranch coder op dest) (chs ++ [Br op dest]) /\
  forall a, labelled (OutputBranch coder op dest) a = labelled coder a.
Proof.
  intros Hlaid Hmax. pose proof (laid_posn _ _ Hlaid) as Hposn. destruct Hlaid as [Hc Hw].
  assert (0 <= CVM_POSN coder) as Hmin by (rewrite Hposn; apply chunks_len_nonneg).
  unfold OutputBranch. destruct (GetLabel coder dest) as [coder1 label] eqn:Eg.
  destruct (GetLabel_spec _ _ _ _ Eg) as (Hc1 & Hf & Ho & Hn). rewrite Ho.
  assert (forall q, CVM_POSN (set_labels coder1 q) = CVM_POSN coder) as Hp1
    by (intros; unfold CVM_POSN; simpl; by rewrite Hc1).
  destruct (labelled coder dest) as [d|] eqn:El.
  - assert (forall a, find_label (labelList coder1) a = find_label (labelList coder) a \/
      a = dest /\ labelled coder a = Some d) as Hsame.
    { intros a. rewrite Hf. destruct (Z.eqb_spec a dest) as [->|]; auto. }
    assert (CVM_POSN coder1 = CVM_POSN coder) as -> by (unfold CVM_POSN; by rewrite Hc1).
    set (rel := i32 (d - CVM_POSN coder)).
    assert (forall a, labelled (if is_short rel then CVM_OUT_BRANCH coder1 op rel
      else CVM_OUT_BRANCH_LONG coder1 op rel) a = labelled coder a) as HL.
    { intros a. unfold labelled at 1. rewrite labels_out_branch, Hf.
      destruct (Z.eqb_spec a dest) as [->|]; [|done]. simpl. congruence. }
    split; [|done]. split.
    + rewrite code_out_branch, Hc1, Hc, (layout_ext _ _ _ _ HL), layout_app. simpl.
      rewrite El, app_nil_r, Z.add_0_l, <-Hposn. done.
    + intros a Ha. rewrite HL in Ha. unfold waiting. rewrite labels_out_branch, refs_of_app. simpl.
      destruct (Hsame a) as [->|[-> ?]]; [|congruence].
      destruct (Z.eqb_spec dest a) as [->|]; [congruence|]. simpl. rewrite app_nil_r. by apply Hw.
  - cbn zeta. set (new := mk_label dest None _).
    set (coder2 := CVM_OUT_BRANCH_PLACEHOLDER _ _).
    assert (forall a, find_label (labelList coder2) a =
      if a =? dest then Some new else find_label (labelList coder) a) as Hf2
      by (intros a; exact (GetLabel_store _ _ _ _ new a Eg eq_refl)).
    assert (forall a, labelled coder2 a = labelled coder a) as HL.
    { intros a. unfold labelled. rewrite Hf2. destruct (Z.eqb_spec a dest) as [->|]; [|done].
      simpl. symmetry. exact El. }
    split; [|done]. split.
    + assert (Coder.code coder2 = Coder.code coder ++ placeholder op) as ->
        by (unfold coder2; cbn -[u8 Z.shiftr]; rewrite Hc1, <-!app_assoc; reflexivity).
      rewrite Hc, (layout_ext _ _ _ _ HL), layout_app. simpl. by rewrite El, app_nil_r.
    + intros a Ha. rewrite HL in Ha. unfold waiting. rewrite Hf2, refs_of_app, reverse_app, map_app. simpl.
      rewrite (Z.eqb_sym dest a). destruct (Z.eqb_spec a dest) as [->|].
      * unfold new. cbn [nextRef]. rewrite Hn, Hw by done. cbn [reverse].
        assert (u32 (CVM_POSN coder1) = chunks_len chs) as ->
          by (unfold CVM_POSN at 1; rewrite Hc1; fold (CVM_POSN coder); rewrite u32_id;
              [done|unfold IL_MAX_UINT32; lia]).
        done.
      * simpl. by apply Hw.
Qed.

(** *** A label *)

Lemma foldl_map_reverse {A B C} (f : A -> C -> A) (g : B -> C) x l :
  foldl f x (map g (reverse l)) = foldr (fun q c => f c (g q)) x l.
Proof.
  induction l as [|q l IH]; [done|]. by rewrite reverse_cons, map_app, foldl_app, IH.
Qed.

Lemma CVMCoder_Label_laid coder chs o :
  laid coder chs -> labelled coder o = None -> CVM_POSN coder < 0x80000000 ->
  laid (CVMCoder_Label coder o) chs /\
  forall a, labelled (CVMCoder_Label coder o) a = with_label (labelled coder) o (CVM_POSN coder) a.
Proof.
  intros Hlaid Ho Hmax. pose proof (laid_posn _ _ Hlaid) as Hposn. destruct Hlaid as [Hc Hw].
  assert (0 <= CVM_POSN coder) as Hmin by (rewrite Hposn; apply chunks_len_nonneg).
  unfold CVMCoder_Label. set (coder0 := set_height coder (minHeight coder)).
  destruct (GetLabel coder0 o) as [coder1 label] eqn:Eg.
  destruct (GetLabel_spec _ _ _ _ Eg) as (Hc1 & _ & _ & Hn).
  change (waiting coder0 o) with (waiting coder o) in Hn. change (Coder.code coder0) with (Coder.code coder) in Hc1.
  assert (u32 (CVM_POSN coder1) = CVM_POSN coder) as ->
    by (unfold CVM_POSN at 1; rewrite Hc1; apply u32_id; unfold IL_MAX_UINT32, CVM_POSN in *; lia).
  set (new := mk_label o (Some (CVM_POSN coder)) []). set (coder2 := set_code _ _).
  assert (forall a, find_label (labelList coder2) a =
    if a =? o then Some new else find_label (labelList coder) a) as Hf2
    by (intros a; exact (GetLabel_store _ _ _ _ new a Eg eq_refl)).
  assert (forall a, labelled coder2 a = with_label (labelled coder) o (CVM_POSN coder) a) as HL
    by (intros a; unfold labelled at 1, with_label; rewrite Hf2; by destruct (a =? o)).
  split; [|done]. split.
  - rewrite (layout_ext _ _ _ _ HL). unfold coder2. cbn [Coder.code set_code].
    rewrite Hn, Hw, foldl_map_reverse, Hc1, Hc by done.
    exact (backpatch_layout _ _ _ chs [] 0 Ho eq_refl).
  - intros a. rewrite HL. unfold with_label, waiting. rewrite Hf2.
    destruct (a =? o); [done|]. apply Hw.
Qed.

(** The branches under the final labels are the only ones that run. *)
Lemma layout_chunk L chs1 ch chs2 :
  layout L 0 (chs1 ++ ch :: chs2) =
  layout L 0 chs1 ++ render L (chunks_len chs1) ch ++ layout L (chunks_len chs1 + chunk_len ch) chs2.
Proof. by rewrite layout_app. Qed.
