(* ===== verification/CoderLabels.v ===== *)
(** * Straight-line output leaves the labels alone

    The operations of the coder behind the instructions of Verify.v do not
    touch the label list and the offsets of variables of the CVM coder: a relation that every operation of
    an [ILCoder] respects is respected by an accepted instruction. *)
From Stdlib Require Import ZArith Lia.
From stdpp Require Import base list option numbers.
From S2P Require Import Prelude Opcodes Cvm JumpMask Scan Coder CoderBranch Verify.
Import OpTable.

Local Open Scope Z_scope.

(** ** Any coder *)

Class KeptBy {C : Type} (CC : ILCoder C) (R : C -> C -> Prop) : Prop := {
  kept_refl c : R c c;
  kept_constant c opcode arg c' : ILCoderConstant c opcode arg = Some c' -> R c c';
  kept_binary c opcode t1 t2 : R c (ILCoderBinary c opcode t1 t2);
  kept_binary_ptr c opcode t1 t2 : R c (ILCoderBinaryPtr c opcode t1 t2);
  kept_shift c opcode t1 t2 : R c (ILCoderShift c opcode t1 t2);
  kept_unary c opcode t : R c (ILCoderUnary c opcode t);
  kept_conv c opcode t : R c (ILCoderConv c opcode t);
  kept_compare c opcode t1 t2 inv : R c (ILCoderCompare c opcode t1 t2 inv);
  kept_dup c t ti : R c (ILCoderDup c t ti);
  kept_pop c t ti : R c (ILCoderPop c t ti);
}.

Section Kept.
Context {PF : Platform} {C : Type} {CC : ILCoder C} {R : C -> C -> Prop} {HR : KeptBy CC R}.

Ltac kept :=
  first [ apply kept_refl | apply kept_binary | apply kept_binary_ptr | apply kept_shift
        | apply kept_unary | apply kept_conv | apply kept_compare | apply kept_dup | apply kept_pop
        | by eapply kept_constant ].

(** Follow an operation of the verifier to its results. *)
Ltac kept_tac :=
  repeat match goal with
  | |- Wild = Ret _ -> _ => discriminate
  | |- Fail _ = Ret _ -> _ => discriminate
  | |- NotModelled = Ret _ -> _ => discriminate
  | |- Ret _ = Ret _ -> _ => injection 1; intros; subst; kept
  | |- context [top2 ?s] => destruct s as [|? [|]]; cbn [top2 mbind vres_bind]
  | |- context [top1 ?s] => destruct s; cbn [top1 mbind vres_bind]
  | |- context [infer2 ?m ?a ?b] => destruct (infer2 m a b); cbn [mbind vres_bind]; try discriminate
  | |- context [infer1 ?m ?a] => destruct (infer1 m a); cbn [mbind vres_bind]; try discriminate
  | |- (if ?b then _ else _) = _ -> _ => destruct b
  end.

Lemma kept_push t opcode arg stack c stack' c' :
  push_constant t opcode arg stack c = Ret (stack', c') -> R c c'.
Proof.
  unfold push_constant. destruct (ILCoderConstant _ _ _) eqn:E; [|done]. simpl. intros [= <- <-].
  kept.
Qed.

Lemma kept_simple unsafe opcode arg stack c stack' c' :
  verify_simple unsafe opcode arg stack c = Ret (stack', c') -> R c c'.
Proof.
  unfold verify_simple, verify_const, verify_add, verify_sub, verify_numeric, verify_integer,
    verify_shift, verify_neg, verify_not, verify_binary, verify_unary, binary_result,
    verify_ckfinite, verify_dup, verify_pop.
  destruct (one_of opcode _); [by kept_tac|].
  destruct (_ && _); [repeat case_match; apply kept_push|].
  repeat match goal with
  | |- (if one_of opcode ?l then _ else _) = _ -> _ => destruct (one_of opcode l); [kept_tac|]
  | |- (if opcode =? ?o then _ else _) = _ -> _ => destruct (opcode =? o); [kept_tac|]
  end.
  destruct (list_find _ conv_table) as [[i [o t]]|]; [|done]. unfold verify_conv. kept_tac.
Qed.

Lemma kept_compare_code mem mask o opcode n i1 i2 rest c stack' c' sz :
  compare_code mem mask o opcode n i1 i2 rest c = Ret (stack', c', sz) -> R c c'.
Proof.
  unfold compare_code.
  destruct (followed_by_xor mem mask o) as [[]| | | |]; cbn [mbind vres_bind]; try done.
  - kept_tac.
  - destruct (followed_by_ceq mem mask o) as [[]| | | |]; cbn [mbind vres_bind]; try done; kept_tac.
Qed.

Lemma kept_dispatch unsafe mem mask o opcode n stack c stack' c' sz :
  verify_dispatch unsafe mem mask o opcode n stack c = Ret (stack', c', sz) -> R c c'.
Proof.
  unfold verify_dispatch, verify_ceq, verify_compare.
  destruct (opcode =? _); [|destruct (one_of opcode _)].
  - destruct (top2 stack) as [[[i1 i2] st]| | | |]; cbn [mbind vres_bind]; try done.
    destruct (infer2 _ _ _); cbn [mbind vres_bind]; try done. destruct (negb _); [|done].
    apply kept_compare_code.
  - destruct (top2 stack) as [[[i1 i2] st]| | | |]; cbn [mbind vres_bind]; try done.
    match goal with |- mbind _ ?m = _ -> _ => destruct m end; cbn [mbind vres_bind]; try done.
    destruct (negb _); [|done]. apply kept_compare_code.
  - destruct (verify_simple _ _ _ _ _) as [[st c1]| | | |] eqn:E; cbn [mbind vres_bind]; try done.
    intros [= <- <- <-]. by eapply kept_simple.
Qed.

End Kept.

(** ** The CVM coder *)

Definition same_labels (c c' : ILCVMCoder) : Prop :=
  labelList c' = labelList c /\ switchStart c' = switchStart c /\
  argOffsets c' = argOffsets c /\ localOffsets c' = localOffsets c.

Section Labels.
Context {PF : Platform}.
Variable GetTypeSize : Z -> Z.

Lemma same_labels_refl c : same_labels c c.
Proof. done. Qed.

Lemma out_arg_labels n c arg c' : out_arg n c arg = Some c' -> same_labels c c'.
Proof.
  revert c arg. induction n as [|n IH]; intros c arg; [destruct arg; by intros [= <-]|].
  destruct arg as [|b arg]; [done|]. intros H. exact (IH (CVM_BYTE c b) arg H).
Qed.

Ltac labels := repeat case_match; solve [repeat split].

Lemma adjust_mixed_labels c un t1 t2 :
  same_labels c (AdjustMixedBinary c un t1 t2).1.1.
Proof. unfold AdjustMixedBinary. labels. Qed.

Lemma constant_labels c opcode arg c' : CVMCoder_Constant c opcode arg = Some c' -> same_labels c c'.
Proof.
  unfold CVMCoder_Constant. destruct (_ && _); [by intros [= <-]|].
  destruct (opcode =? _). { destruct (arg !! 0%nat); [|done]. by intros [= <-]. }
  destruct (opcode =? _).
  { destruct (arg !! 0%nat); [|done]. destruct (arg !! 1%nat); [|done].
    destruct (arg !! 2%nat); [|done]. destruct (arg !! 3%nat); [|done]. by intros [= <-]. }
  unfold CVM_OUT_FLOAT, CVM_OUT_LONG, CVM_OUT_DOUBLE.
  repeat (destruct (opcode =? _);
    [destruct (out_arg _ _ _) eqn:E; [|done]; intros [= <-]; exact (out_arg_labels _ _ _ _ E)|]).
  by intros [= <-].
Qed.

Lemma binary_labels c opcode t1 t2 : same_labels c (CVMCoder_Binary c opcode t1 t2).
Proof.
  unfold CVMCoder_Binary. pose proof (adjust_mixed_labels c (IS_UNSIGNED_OPCODE opcode) t1 t2) as H.
  destruct (AdjustMixedBinary _ _ _ _) as [[c1 t] t']. simpl in H.
  assert (forall t i l f, same_labels c1 (out_ilf c1 t i l f)) as H1 by (intros; unfold out_ilf; labels).
  assert (forall t i l, same_labels c1 (out_il c1 t i l)) as H2 by (intros; unfold out_il; labels).
  assert (forall x, binary_add_sub_mul c1 opcode t = Some x \/ binary_div_bits c1 opcode t = Some x ->
    same_labels c1 x) as Hop.
  { unfold binary_add_sub_mul, binary_div_bits. intros x [Hx|Hx]; revert Hx;
      repeat match goal with
      | |- (if opcode =? ?o then _ else _) = _ -> _ =>
          destruct (opcode =? o); [intros [= <-]; solve [auto]|]
      end; done. }
  unfold same_labels in *. destruct H as (E1 & E2 & E3 & E4).
  destruct (binary_add_sub_mul _ _ _) as [x|], (binary_div_bits _ _ _) as [y|]; simpl; rewrite <-?E1, <-?E2, <-?E3, <-?E4;
    auto.
Qed.

Lemma conv_labels c opcode t : same_labels c (CVMCoder_Conv c opcode t).
Proof.
  unfold CVMCoder_Conv. set (t' := if is_type t _ then _ else _). clearbody t'.
  assert (forall o1 o2 : option ILCVMCoder, same_labels c (default c o1) -> same_labels c (default c o2) ->
    same_labels c (default c (union o1 o2))) as H by (by intros [] []).
  assert (forall f g h : ILCVMCoder -> ILCVMCoder, same_labels c (f c) -> same_labels c (g c) ->
    same_labels c (h c) -> same_labels c (by_type c t' f g h)) as Hb
    by (intros; unfold by_type; by repeat case_match).
  repeat apply H; unfold conv_signed, conv_unsigned, conv_ovf_signed_un, conv_ovf_unsigned_un,
    conv_ovf_small, conv_ovf_large;
    repeat match goal with
    | |- context [if ?b then _ else _] => destruct b; [solve [simpl; auto; apply Hb; repeat split]|]
    end; repeat split.
Qed.

Lemma compare_labels c opcode t1 t2 inv : same_labels c (CVMCoder_Compare c opcode t1 t2 inv).
Proof.
  unfold CVMCoder_Compare. pose proof (adjust_mixed_labels c false t1 t2) as H.
  destruct (AdjustMixedBinary _ _ _ _) as [[c1 t] t']. simpl in H.
  assert (forall a b d e f g, same_labels c (OutputCondCompare c1 a b d e f g t inv)) as Ho.
  { intros. destruct H as (H1 & H2 & H3 & H4). unfold OutputCondCompare. repeat case_match; by repeat split. }
  repeat match goal with
  | |- context [if opcode =? ?o then _ else _] => destruct (opcode =? o); [apply Ho|]
  end. repeat split.
Qed.

#[export] Instance cvm_kept : KeptBy (cvm_coder GetTypeSize) same_labels.
Proof.
  split; cbn [ILCoderConstant ILCoderBinary ILCoderBinaryPtr ILCoderShift ILCoderUnary ILCoderConv
    ILCoderCompare ILCoderDup ILCoderPop cvm_coder].
  - apply same_labels_refl.
  - apply constant_labels.
  - apply binary_labels.
  - intros. unfold CVMCoder_BinaryPtr, out_ptr_op. labels.
  - intros. unfold CVMCoder_Shift. labels.
  - intros. unfold CVMCoder_Unary. labels.
  - apply conv_labels.
  - apply compare_labels.
  - intros. unfold CVMCoder_Dup, DupWords, CVM_OUT_WIDE. labels.
  - intros. unfold CVMCoder_Pop, PopWords, CVM_OUT_WIDE. labels.
Qed.

End Labels.

(** ** The offsets of variables

    Neither labels and branches nor returns touch them. *)
Definition same_offsets (c c' : ILCVMCoder) : Prop :=
  argOffsets c' = argOffsets c /\ localOffsets c' = localOffsets c.

#[export] Instance same_offsets_preorder : PreOrder same_offsets.
Proof. split; [done|]. intros c1 c2 c3 [E1 E2] [E3 E4]. split; congruence. Qed.

Lemma same_labels_offsets c c' : same_labels c c' -> same_offsets c c'.
Proof. by intros (_ & _ & ? & ?). Qed.

Section Offsets.
Context {PF : Platform}.
Variable GetTypeSize : Z -> Z.

Lemma GetLabel_offsets c address : same_offsets c (GetLabel c address).1.
Proof. unfold GetLabel. by destruct (find_label _ _). Qed.

Lemma Label_offsets c address : same_offsets c (CVMCoder_Label c address).
Proof.
  unfold CVMCoder_Label. pose proof (GetLabel_offsets (set_height c (minHeight c)) address) as H.
  by destruct (GetLabel _ _) as [c1 l].
Qed.

Lemma StackRefresh_offsets c stack : same_offsets c (CVMCoder_StackRefresh GetTypeSize c stack).
Proof. unfold CVMCoder_StackRefresh. repeat case_match; by split. Qed.

Lemma OutputBranch_offsets c opcode dest : same_offsets c (OutputBranch c opcode dest).
Proof.
  unfold OutputBranch. pose proof (GetLabel_offsets c dest) as H. destruct (GetLabel c dest) as [c1 l].
  simpl in H. repeat case_match; exact H.
Qed.

Lemma OutputBranch_after c c1 opcode dest : same_offsets c c1 -> same_offsets c (OutputBranch c1 opcode dest).
Proof. intros H. etrans; [exact H|apply OutputBranch_offsets]. Qed.

Lemma OutputCondBranch_offsets c c1 a b d e t dest :
  same_offsets c c1 -> same_offsets c (OutputCondBranch c1 a b d e t dest).
Proof.
  intros H. unfold OutputCondBranch.
  repeat match goal with |- context [if ?x then _ else _] => destruct x end; simpl;
    first [exact H | by apply (OutputBranch_after c)].
Qed.

Lemma unary_branch_offsets c a b dest t : same_offsets c (unary_branch c a b dest t).
Proof.
  unfold unary_branch.
  repeat match goal with |- context [if ?x then _ else _] => destruct x end; simpl;
    by apply (OutputBranch_after c).
Qed.

Lemma Branch_offsets c opcode dest t1 t2 : same_offsets c (CVMCoder_Branch c opcode dest t1 t2).
Proof.
  unfold CVMCoder_Branch.
  assert (forall u a b d e, same_offsets c (let '(c1, t, _) := AdjustMixedBinary c u t1 t2 in
    OutputCondBranch c1 a b d e t dest)) as H.
  { intros. pose proof (same_labels_offsets _ _ (adjust_mixed_labels c u t1 t2)) as H.
    destruct (AdjustMixedBinary c u t1 t2) as [[c1 t] t']. by apply OutputCondBranch_offsets. }
  repeat match goal with |- context [if ?x then _ else _] => destruct x;
    [first [apply OutputBranch_offsets | apply unary_branch_offsets | apply H]|] end. reflexivity.
Qed.

End Offsets.
