(* ===== verification/CoderHeight.v ===== *)
(** * The stack height that the CVM coder tracks (cvmc.c CVM_ADJUST, cvmc_stack.c)

    The coder keeps the height of the CVM stack in [height] by relative
    adjustments, and recomputes it from the verifier's stack only at
    CVMCoder_StackRefresh; [maxHeight] becomes the argument of the height
    check at the method's entry.  Here: the adjustments agree with
    ComputeStackSize on verifiable code, and where they do not. *)
From Stdlib Require Import ZArith Lia.
From stdpp Require Import base list option numbers.
From S2P Require Import Prelude Opcodes Cvm JumpMask Scan Coder Verify VerifyProps ILSpec CvmProps Refine CoderProps RefineBlock.
Import OpTable.

Local Open Scope Z_scope.

(** The operation moves the height by [n] and keeps the maximum above it. *)
Definition moves (n : Z) (coder coder' : ILCVMCoder) : Prop :=
  height coder' = height coder + n /\ minHeight coder' = minHeight coder /\
  maxHeight coder <= maxHeight coder' /\
  (height coder <= maxHeight coder -> height coder' <= maxHeight coder').

Lemma adjust_moves coder n m : n = m -> moves m coder (CVM_ADJUST coder n).
Proof. intros <-. unfold moves, CVM_ADJUST. simpl. case_cmp; lia. Qed.

Lemma moves_0 coder : moves 0 coder coder.
Proof. unfold moves. lia. Qed.

Lemma moves_byte n coder coder' b : moves n coder coder' -> moves n coder (CVM_BYTE coder' b).
Proof. done. Qed.

Lemma moves_adjust n m coder coder' :
  moves n coder coder' -> moves (n + m) coder (CVM_ADJUST coder' m).
Proof. unfold moves, CVM_ADJUST. simpl. intros. case_cmp; lia. Qed.

Lemma moves_eq n m coder coder' : moves n coder coder' -> n = m -> moves m coder coder'.
Proof. by intros ? <-. Qed.

Lemma moves_trans n m k c1 c2 c3 : moves n c1 c2 -> moves m c2 c3 -> k = n + m -> moves k c1 c3.
Proof. unfold moves. intros. lia. Qed.

(** The words of an item whose size does not depend on its class. *)
Definition type_words {PF : Platform} (t : ILEngineType) : Z :=
  item_words (fun _ => 0) (mk_item t 0).

Lemma item_words_type {PF : Platform} GetTypeSize t ti :
  t <> T_MV -> item_words GetTypeSize (mk_item t ti) = type_words t.
Proof. by destruct t. Qed.

(** On heights an output counts for nothing, so only the adjustments matter. *)
Arguments CVM_BYTE : simpl never.
Arguments CVM_ADJUST : simpl never.

Ltac heights :=
  unfold type_words, item_words, out_ilf, out_il, out_ptr_op, outp, out, adjust, nothing,
    CVMP_OUT_NONE, CVM_OUT_NONE, CVM_OUT_BYTE, CVM_OUT_WORD, CVM_OUT_WIDE, CVM_WORD,
    LONG_TO_WORD, FLOAT_TO_WORD, FLOAT_TO_LONG, CVM_WORDS_PER_NATIVE_INT in *;
  simpl in *;
  repeat match goal with
  | H : IL_NATIVE_INT64 = _ |- context [IL_NATIVE_INT64] => rewrite H; simpl
  end;
  repeat (case_match; simpl in * );
  (eapply moves_eq;
   [repeat first [apply moves_byte | apply moves_adjust]; first [apply moves_0 | eassumption]
   |bool_to_prop; try lia]).

Section Height.
Context {PF : Platform}.

Lemma words_native64 : IL_NATIVE_INT64 = true -> CVM_WORDS_PER_LONG = 1.
Proof. apply native_words_per_long. Qed.

(** ** Arithmetic *)

Lemma binary_moves m opcode t1 t2 t coder :
  one_of opcode [IL_OP_ADD; IL_OP_SUB; IL_OP_MUL; IL_OP_DIV; IL_OP_REM] = true /\
    m = binaryNumericMatrix \/
  one_of opcode [IL_OP_DIV_UN; IL_OP_REM_UN; IL_OP_ADD_OVF; IL_OP_SUB_OVF; IL_OP_MUL_OVF;
    IL_OP_MUL_OVF_UN; IL_OP_AND; IL_OP_OR; IL_OP_XOR; IL_OP_ADD_OVF_UN; IL_OP_SUB_OVF_UN] = true /\
    m = binaryIntegerMatrix ->
  infer2 m t1 t2 = Ret t -> t <> T_NO ->
  moves (type_words t - type_words t1 - type_words t2) coder (CVMCoder_Binary coder opcode t1 t2).
Proof.
  intros Ho Ht Hn. pose proof words_native64 as HN.
  destruct Ho as [[Ho ->]|[Ho ->]];
  destruct t1, t2; try discriminate Ht; vm_compute in Ht; injection Ht as <-; try done;
  one_of_cases Ho; unfold CVMCoder_Binary, AdjustMixedBinary; destruct IL_NATIVE_INT64 eqn:E; simpl;
    try specialize (HN eq_refl); heights.
Qed.

Lemma shift_moves opcode t1 t2 t coder :
  infer2 binaryShiftMatrix t1 t2 = Ret t -> t <> T_NO ->
  moves (type_words t - type_words t1 - type_words t2) coder (CVMCoder_Shift coder opcode t1 t2).
Proof.
  intros Ht Hn. pose proof words_native64 as HN.
  destruct t1, t2; try discriminate Ht; vm_compute in Ht; injection Ht as <-; try done;
  unfold CVMCoder_Shift; destruct IL_NATIVE_INT64 eqn:E; simpl;
    try specialize (HN eq_refl); heights.
Qed.

Lemma unary_moves opcode t coder : moves 0 coder (CVMCoder_Unary coder opcode t).
Proof. unfold CVMCoder_Unary. heights. Qed.

Lemma compare_moves opcode t1 t2 t inv coder :
  listed opcode compare_opcodes = true ->
  infer2 binaryEqualityMatrix t1 t2 = Ret t \/ infer2 binaryCompareMatrix t1 t2 = Ret t \/
    t1 = T_O /\ t2 = T_O ->
  t <> T_NO ->
  moves (1 - type_words t1 - type_words t2) coder (CVMCoder_Compare coder opcode t1 t2 inv).
Proof.
  intros Ho Ht Hn. pose proof words_native64 as HN.
  assert (forall a b c d e f c', moves (1 - type_words t1 - type_words t2) coder
    (OutputCondCompare (AdjustMixedBinary coder false t1 t2).1.1 a b c d e f
       (AdjustMixedBinary coder false t1 t2).1.2 c')) as H.
  { intros. destruct t1, t2; vm_compute in Ht;
    try (exfalso; destruct Ht as [H|[H|[H1 H2]]]; congruence);
    unfold OutputCondCompare, AdjustMixedBinary; destruct IL_NATIVE_INT64 eqn:E; simpl;
    try specialize (HN eq_refl); heights. }
  unfold CVMCoder_Compare. destruct (AdjustMixedBinary coder false t1 t2) as [[adj t1'] t2'].
  simpl in H. opcode_cases Ho; simpl; apply H.
Qed.

(** ** Conversions

    conv.ovf.i8 and conv.ovf.u8 are the exception: from an I4 (the first one)
    the move to two words is not counted, and from an F the height drops to
    one word. *)
Lemma conv_moves opcode t t' i coder :
  list_find (fun p => fst p = opcode) conv_table = Some (i, (opcode, t')) ->
  CVM_WORDS_PER_LONG = 1 \/ one_of opcode [IL_OP_CONV_OVF_I8; IL_OP_CONV_OVF_U8] = false ->
  (engine_number t <= 3)%nat ->
  moves (type_words t' - type_words t) coder (CVMCoder_Conv coder opcode t).
Proof.
  intros Hf Hx Ht. pose proof words_native64 as HN.
  assert (t = T_I4 \/ t = T_I8 \/ t = T_I \/ t = T_F) as Ht'
    by (destruct t; simpl in Ht; auto; lia). clear Ht.
  apply list_find_Some in Hf as (Hf%list_elem_of_lookup_2 & _). unfold conv_table in Hf.
  rewrite !elem_of_cons, elem_of_nil in Hf.
  repeat (destruct Hf as [Hf|Hf]; [injection Hf as -> ->;
    unfold CVMCoder_Conv, conv_signed, conv_unsigned, conv_ovf_signed_un, conv_ovf_unsigned_un,
      conv_ovf_small, conv_ovf_large, case_native32, case_native64, by_type;
    destruct IL_NATIVE_INT64 eqn:E; try specialize (HN eq_refl);
    destruct Ht' as [->|[->|[->| ->]]]; simpl in *; (destruct Hx as [Hx|Hx]; [|try discriminate Hx]); heights|]).
  done.
Qed.

End Height.

(** ** The tracked height over a block of code

    What the verifier's stack and the coder's height have to do with each
    other after every accepted instruction and after a whole block. *)

Import OpTable.


(** Evaluate the tests of a goal on a literal opcode. *)
Ltac const_tests :=
  repeat match goal with
  | |- context [20 + Z.of_nat ?n] => let v := eval vm_compute in (20 + Z.of_nat n) in
      change (20 + Z.of_nat n) with v
  | |- context [if ?b then _ else _] => let v := eval vm_compute in b in
      progress change b with v; cbv iota
  end.

Section HeightBlock.
Context {PF : Platform}.
Variable GetTypeSize : Z -> Z.
#[local] Instance CH : ILCoder ILCVMCoder := cvm_coder GetTypeSize.

(** ** Constants and the stack *)

Lemma CVM_BYTE_moves n coder coder' b : moves n (CVM_BYTE coder b) coder' -> moves n coder coder'.
Proof. done. Qed.

Lemma out_arg_moves n coder arg coder' : out_arg n coder arg = Some coder' -> moves 0 coder coder'.
Proof.
  revert coder arg. induction n as [|n IH]; intros coder [|b arg]; simpl; try done;
    try (intros [= <-]; apply moves_0).
  intros H%IH. by eapply CVM_BYTE_moves.
Qed.

Lemma constant_moves opcode arg coder coder' :
  (IL_OP_LDNULL <=? opcode) && (opcode <=? IL_OP_LDC_R8) = true ->
  CVMCoder_Constant coder opcode arg = Some coder' ->
  moves (type_words (if opcode =? IL_OP_LDNULL then T_O
    else if opcode <=? IL_OP_LDC_I4 then T_I4 else if opcode =? IL_OP_LDC_I8 then T_I8 else T_F))
    coder coder'.
Proof.
  intros Hr. bool_to_prop. unfold IL_OP_LDNULL, IL_OP_LDC_R8 in *.
  assert (exists k, (k <= 15)%nat /\ opcode = 20 + Z.of_nat k) as (k & Hk & ->)
    by (exists (Z.to_nat (opcode - 20)); lia).
  unfold CVMCoder_Constant, CVM_OUT_FLOAT, CVM_OUT_LONG, CVM_OUT_DOUBLE.
  do 16 (destruct k as [|k]; [clear; const_tests;
    try (destruct (out_arg _ _ _) eqn:E; [|done]; apply out_arg_moves, CVM_BYTE_moves in E; cbn [mbind option_bind]);
    repeat match goal with |- (arg !! ?i ≫= _) = _ -> _ =>
      destruct (arg !! i); [|done]; cbn [mbind option_bind] end; intros [= <-]; heights|]).
  lia.
Qed.

Lemma dup_moves t ti coder :
  t <> ILEngineType_CM -> moves (item_words GetTypeSize (mk_item t ti)) coder (CVMCoder_Dup GetTypeSize coder t ti).
Proof. intros H. unfold CVMCoder_Dup, DupWords. destruct t; try done; heights. Qed.

Lemma pop_moves t ti coder :
  t <> ILEngineType_CM -> moves (- item_words GetTypeSize (mk_item t ti)) coder (CVMCoder_Pop GetTypeSize coder t ti).
Proof. intros H. unfold CVMCoder_Pop, PopWords. destruct t; try done; heights. Qed.

(** ** The stack of the verifier and the height of the coder *)

(** No item is a controlled-mutability pointer, whose duplication is not
    output at all. *)
Definition no_cm (stack : list ILEngineStackItem) : Prop :=
  Forall (fun i => engineType i <> ILEngineType_CM) stack.

(** [stack'] and [coder'] are as far from [stack] and [coder]. *)
Definition tracks (stack stack' : list ILEngineStackItem) (coder coder' : ILCVMCoder) : Prop :=
  no_cm stack' /\
  moves (ComputeStackSize GetTypeSize stack' - ComputeStackSize GetTypeSize stack) coder coder'.

Lemma size_cons i stack :
  ComputeStackSize GetTypeSize (i :: stack) = item_words GetTypeSize i + ComputeStackSize GetTypeSize stack.
Proof. done. Qed.

Lemma tracks_refl stack coder : no_cm stack -> tracks stack stack coder coder.
Proof. intros H. split; [done|]. rewrite Z.sub_diag. apply moves_0. Qed.

Lemma tracks_trans s1 s2 s3 c1 c2 c3 : tracks s1 s2 c1 c2 -> tracks s2 s3 c2 c3 -> tracks s1 s3 c1 c3.
Proof. intros [_ H1] [Hn H2]. split; [done|]. eapply moves_trans; [exact H1|exact H2|lia]. Qed.

Lemma no_cm_cons t ti stack : t <> ILEngineType_CM -> no_cm stack -> no_cm (mk_item t ti :: stack).
Proof. intros. by constructor. Qed.

(** The matrices of safe code accept neither value types nor what is no
    engine type at all, and give neither. *)
Definition plain (t : ILEngineType) : Prop := t <> ILEngineType_CM /\ t <> T_MV.

Lemma safe_matrix m t1 t2 t :
  m = binaryNumericMatrix \/ m = binaryIntegerMatrix \/ m = binaryShiftMatrix \/
  m = binaryEqualityMatrix \/ m = binaryCompareMatrix ->
  infer2 m t1 t2 = Ret t -> t <> T_NO -> plain t1 /\ plain t2 /\ plain t.
Proof.
  unfold plain. intros Hm Ht Hn.
  repeat (destruct Hm as [->|Hm]); [..|subst m]; destruct t1, t2; try discriminate Ht;
    vm_compute in Ht; injection Ht as <-; by try done.
Qed.

Lemma safe_vector m t1 t :
  m = negateMatrix \/ m = notMatrix -> infer1 m t1 = Ret t -> t <> T_NO -> plain t1 /\ t = t1.
Proof.
  unfold plain. intros [->| ->] Ht Hn; destruct t1; try discriminate Ht; vm_compute in Ht;
    injection Ht as <-; by try done.
Qed.

Lemma numeric_not_float t1 t2 t :
  infer2 binaryNumericMatrix t1 t2 = Ret t -> t <> T_F -> t <> T_NO ->
  infer2 binaryIntegerMatrix t1 t2 = Ret t.
Proof.
  intros Ht Hf Hn. destruct t1, t2; try discriminate Ht; vm_compute in Ht; injection Ht as <-; done.
Qed.

Lemma is_type_false a b : is_type a b = false -> a <> b.
Proof. unfold is_type. by intros H%bool_decide_eq_false. Qed.

Lemma two_operands_track i1 i2 rest t ti coder coder' :
  no_cm (i2 :: i1 :: rest) -> plain t -> plain (engineType i1) -> plain (engineType i2) ->
  moves (type_words t - type_words (engineType i1) - type_words (engineType i2)) coder coder' ->
  tracks (i2 :: i1 :: rest) (mk_item t ti :: rest) coder coder'.
Proof.
  intros Hc [Ht Hm] [_ H1] [_ H2] Hmv. inversion Hc as [|? ? _ Hc1]; subst. inversion Hc1; subst.
  split; [by apply no_cm_cons|]. rewrite !size_cons. destruct i1 as [t1 x1], i2 as [t2 x2]. simpl in *.
  rewrite !item_words_type by done. eapply moves_trans; [exact Hmv|apply moves_0|lia].
Qed.

Lemma one_operand_tracks i rest t ti coder coder' :
  no_cm (i :: rest) -> plain t -> plain (engineType i) ->
  moves (type_words t - type_words (engineType i)) coder coder' ->
  tracks (i :: rest) (mk_item t ti :: rest) coder coder'.
Proof.
  intros Hc [Ht Hm] [_ H1] Hmv. inversion Hc; subst.
  split; [by apply no_cm_cons|]. rewrite !size_cons. destruct i as [t1 x1]. simpl in *.
  rewrite !item_words_type by done. eapply moves_trans; [exact Hmv|apply moves_0|lia].
Qed.

(** ** The operations of safe code *)

Definition tracked (stack : list ILEngineStackItem) (coder : ILCVMCoder)
    (r : vres (list ILEngineStackItem * ILCVMCoder)) : Prop :=
  forall stack' coder', r = Ret (stack', coder') -> tracks stack stack' coder coder'.

Ltac operands stack :=
  destruct stack as [|?i2 [|?i1 ?rest]]; cbn [top2 mbind vres_bind]; [by intros|by intros|].

Lemma verify_binary_tracked m opcode stack coder :
  one_of opcode [IL_OP_ADD; IL_OP_SUB; IL_OP_MUL; IL_OP_DIV; IL_OP_REM] = true /\
    m = binaryNumericMatrix \/
  one_of opcode [IL_OP_DIV_UN; IL_OP_REM_UN; IL_OP_ADD_OVF; IL_OP_SUB_OVF; IL_OP_MUL_OVF;
    IL_OP_MUL_OVF_UN; IL_OP_AND; IL_OP_OR; IL_OP_XOR; IL_OP_ADD_OVF_UN; IL_OP_SUB_OVF_UN] = true /\
    m = binaryIntegerMatrix ->
  no_cm stack -> tracked stack coder (verify_binary m opcode stack coder).
Proof.
  intros Ho Hc. unfold verify_binary, binary_result. operands stack. intros stack' coder'.
  destruct (infer2 m _ _) as [t| | | |] eqn:Ht; try done. cbn [mbind vres_bind].
  destruct (is_type t T_NO) eqn:En; [done|]. apply is_type_false in En. intros [= <- <-].
  destruct (safe_matrix m _ _ _ ltac:(tauto) Ht En) as (H1 & H2 & H).
  apply two_operands_track; [done..|]. by eapply binary_moves.
Qed.

Ltac like_binary stack :=
  unfold verify_binary; operands stack;
  destruct (infer2 binaryNumericMatrix _ _) as [t| | | |] eqn:Ht; try done; cbn [mbind vres_bind];
  destruct (is_type t T_F && _) eqn:Ef; [done|];
  destruct (is_pointer t) eqn:Ep;
    [match type of Ht with infer2 _ ?a ?b = _ => destruct a, b end; try discriminate Ht; vm_compute in Ht;
      injection Ht as <-; discriminate Ep|];
  destruct (is_type t T_NO) eqn:En; [done|]; apply is_type_false in En; intros [= <-];
  match goal with H : _ \/ _ |- _ => destruct H as [->| ->] end; simpl Z.eqb; cbv iota;
    [|rewrite andb_true_r in Ef; apply is_type_false in Ef; apply numeric_not_float in Ht; [|done..]];
    rewrite Ht; cbn [mbind vres_bind]; destruct t; done.

Lemma verify_add_safe opcode stack coder r :
  opcode = IL_OP_ADD \/ opcode = IL_OP_ADD_OVF_UN ->
  verify_add false opcode stack coder = Ret r ->
  verify_binary (if opcode =? IL_OP_ADD then binaryNumericMatrix else binaryIntegerMatrix)
    opcode stack coder = Ret r.
Proof. unfold verify_add. intros Ho. like_binary stack. Qed.

Lemma verify_sub_safe opcode stack coder r :
  opcode = IL_OP_SUB \/ opcode = IL_OP_SUB_OVF_UN ->
  verify_sub false opcode stack coder = Ret r ->
  verify_binary (if opcode =? IL_OP_SUB then binaryNumericMatrix else binaryIntegerMatrix)
    opcode stack coder = Ret r.
Proof. unfold verify_sub. intros Ho. like_binary stack. Qed.

Lemma verify_shift_tracked opcode stack coder :
  no_cm stack -> tracked stack coder (verify_shift opcode stack coder).
Proof.
  intros Hc. unfold verify_shift, binary_result. operands stack. intros stack' coder'.
  destruct (infer2 _ _ _) as [t| | | |] eqn:Ht; try done. cbn [mbind vres_bind].
  destruct (is_type t T_NO) eqn:En; [done|]. apply is_type_false in En. intros [= <- <-].
  destruct (safe_matrix binaryShiftMatrix _ _ _ ltac:(tauto) Ht En) as (H1 & H2 & H).
  apply two_operands_track; [done..|]. by eapply shift_moves.
Qed.

Lemma verify_unary_tracked m opcode stack coder :
  m = negateMatrix \/ m = notMatrix ->
  no_cm stack -> tracked stack coder (verify_unary m opcode stack coder).
Proof.
  intros Hm Hc stack' coder'. unfold verify_unary. destruct stack as [|i rest]; [done|].
  cbn [top1 mbind vres_bind].
  destruct (infer1 _ _) as [t| | | |] eqn:Ht; try done. cbn [mbind vres_bind].
  destruct (is_type t T_NO) eqn:En; [done|]. apply is_type_false in En. intros [= <- <-].
  destruct (safe_vector _ _ _ Hm Ht En) as [H1 ->].
  apply one_operand_tracks; [done..|]. rewrite Z.sub_diag. apply unary_moves.
Qed.

Lemma verify_ckfinite_tracked opcode stack coder :
  no_cm stack -> tracked stack coder (verify_ckfinite opcode stack coder).
Proof.
  intros Hc stack' coder'. unfold verify_ckfinite. destruct stack as [|i rest]; [done|].
  cbn [top1 mbind vres_bind]. destruct (is_type _ _); [|done]. intros [= <- <-].
  split; [done|]. rewrite Z.sub_diag. apply unary_moves.
Qed.

Lemma verify_conv_tracked opcode t i stack coder :
  list_find (fun p => fst p = opcode) conv_table = Some (i, (opcode, t)) -> plain t ->
  CVM_WORDS_PER_LONG = 1 \/ one_of opcode [IL_OP_CONV_OVF_I8; IL_OP_CONV_OVF_U8] = false ->
  no_cm stack -> tracked stack coder (verify_conv false opcode t stack coder).
Proof.
  intros Hf Hp Hx Hc stack' coder'. unfold verify_conv. destruct stack as [|i1 rest]; [done|].
  cbn [top1 mbind vres_bind andb]. destruct (Nat.leb_spec (engine_number (engineType i1)) (engine_number T_F)) as [Ht|]; [|done].
  intros [= <- <-]. apply one_operand_tracks; [done..| |by eapply conv_moves].
  destruct (engineType i1); simpl in Ht; first [lia | by split].
Qed.

Lemma verify_dup_tracked stack coder : no_cm stack -> tracked stack coder (verify_dup stack coder).
Proof.
  intros Hc stack' coder'. unfold verify_dup. destruct stack as [|i rest]; [done|].
  intros [= <- <-]. inversion Hc; subst. split; [by constructor|]. rewrite !size_cons.
  destruct i as [t x]. eapply moves_trans; [by apply dup_moves|apply moves_0|simpl; lia].
Qed.

Lemma verify_pop_tracked stack coder : no_cm stack -> tracked stack coder (verify_pop stack coder).
Proof.
  intros Hc stack' coder'. unfold verify_pop. destruct stack as [|i rest]; [done|].
  intros [= <- <-]. inversion Hc; subst. split; [done|]. rewrite !size_cons.
  destruct i as [t x]. eapply moves_trans; [by apply pop_moves|apply moves_0|simpl; lia].
Qed.

Lemma push_constant_tracked t opcode arg stack coder :
  plain t ->
  (forall coder', CVMCoder_Constant coder opcode arg = Some coder' -> moves (type_words t) coder coder') ->
  no_cm stack -> tracked stack coder (push_constant t opcode arg stack coder).
Proof.
  intros [Ht Hm] Hmv Hc stack' coder'. unfold push_constant. simpl ILCoderConstant.
  destruct (CVMCoder_Constant coder opcode arg) as [c|]; [|done]. intros [= <- <-].
  split; [by apply no_cm_cons|]. rewrite size_cons, item_words_type by done.
  eapply moves_trans; [by apply Hmv|apply moves_0|lia].
Qed.

Lemma verify_const_tracked opcode arg stack coder :
  (IL_OP_LDNULL <=? opcode) && (opcode <=? IL_OP_LDC_R8) = true ->
  no_cm stack -> tracked stack coder (verify_const opcode arg stack coder).
Proof.
  intros Hr Hc. unfold verify_const. pose proof (fun c => constant_moves opcode arg coder c Hr) as H.
  apply andb_true_iff in Hr as [Hr%Z.leb_le _].
  destruct (Z.eqb_spec opcode IL_OP_LDNULL) as [->|Hn]; [by apply push_constant_tracked|].
  assert ((IL_OP_LDC_I4_M1 <=? opcode) = true) as ->
    by (apply Z.leb_le; unfold IL_OP_LDC_I4_M1, IL_OP_LDNULL in *; lia). cbn [andb].
  destruct (opcode <=? IL_OP_LDC_I4); [by apply push_constant_tracked|].
  destruct (opcode =? IL_OP_LDC_I8); by apply push_constant_tracked.
Qed.

Lemma verify_simple_tracked opcode arg stack coder :
  CVM_WORDS_PER_LONG = 1 \/ one_of opcode [IL_OP_CONV_OVF_I8; IL_OP_CONV_OVF_U8] = false ->
  no_cm stack -> tracked stack coder (verify_simple false opcode arg stack coder).
Proof.
  intros Hx Hc. unfold verify_simple, verify_numeric, verify_integer, verify_neg, verify_not.
  destruct (one_of opcode [IL_OP_NOP; IL_OP_BREAK]).
  { intros stack' coder' [= <- <-]. by apply tracks_refl. }
  destruct (_ && _) eqn:Ec; [by apply verify_const_tracked|].
  destruct (one_of opcode [IL_OP_ADD; _]) eqn:E.
  { intros st c H. one_of_cases E; apply verify_add_safe in H; auto;
      (eapply verify_binary_tracked; [|exact Hc|exact H]); simpl; auto. }
  clear E. destruct (one_of opcode [IL_OP_SUB; _]) eqn:E.
  { intros st c H. one_of_cases E; apply verify_sub_safe in H; auto;
      (eapply verify_binary_tracked; [|exact Hc|exact H]); simpl; auto. }
  clear E. destruct (one_of opcode [IL_OP_MUL; _; _]) eqn:E.
  { apply verify_binary_tracked; [left|done]. by one_of_cases E. }
  clear E. destruct (one_of opcode (IL_OP_DIV_UN :: _)) eqn:E.
  { apply verify_binary_tracked; [right|done]. by one_of_cases E. }
  destruct (one_of opcode [IL_OP_SHL; _; _]); [by apply verify_shift_tracked|].
  destruct (opcode =? _); [apply verify_unary_tracked; auto|].
  destruct (opcode =? _); [apply verify_unary_tracked; auto|].
  destruct (opcode =? _); [by apply verify_ckfinite_tracked|].
  destruct (opcode =? _); [by apply verify_dup_tracked|].
  destruct (opcode =? _); [by apply verify_pop_tracked|].
  destruct (list_find _ conv_table) as [[i [o t]]|] eqn:Ef; [|by intros ??].
  pose proof (proj1 (list_find_Some _ _ _ _) Ef) as (Hl & Ho & _).
  change (o = opcode) in Ho. subst o. eapply verify_conv_tracked; [exact Ef| |done|done].
  pose proof (lookup_forallb (fun p : Z * ILEngineType =>
    negb (is_type p.2 ILEngineType_CM || is_type p.2 T_MV)) conv_table _ _ eq_refl Hl) as Hp.
  split; intros ->; discriminate Hp.
Qed.

(** ** Blocks *)

Lemma compare_code_tracked mem mask o opcode n i1 i2 rest coder stack' coder' sz t :
  listed opcode compare_opcodes = true ->
  infer2 binaryEqualityMatrix (engineType i1) (engineType i2) = Ret t \/
  infer2 binaryCompareMatrix (engineType i1) (engineType i2) = Ret t \/
    engineType i1 = T_O /\ engineType i2 = T_O ->
  t <> T_NO -> no_cm (i2 :: i1 :: rest) ->
  compare_code mem mask o opcode n i1 i2 rest coder = Ret (stack', coder', sz) ->
  tracks (i2 :: i1 :: rest) stack' coder coder'.
Proof.
  intros Ho Ht Hn Hc H.
  assert (exists inv, stack' = mk_item T_I4 0 :: rest /\
    coder' = CVMCoder_Compare coder opcode (engineType i1) (engineType i2) inv) as (inv & -> & ->).
  { revert H. unfold compare_code.
    destruct (followed_by_xor mem mask o) as [[]| | | |]; cbn [mbind vres_bind]; try done.
    - intros [= <- <- <-]. by eexists.
    - destruct (followed_by_ceq mem mask o) as [[]| | | |]; cbn [mbind vres_bind]; try done;
        intros [= <- <- <-]; by eexists. }
  assert (plain (engineType i1) /\ plain (engineType i2)) as [H1 H2].
  { destruct Ht as [Ht|[Ht|[-> ->]]]; [..|done];
      (eapply safe_matrix in Ht; [|auto|done]); tauto. }
  apply two_operands_track; [done..|]. by eapply compare_moves.
Qed.

(** No byte of the code is the opcode of conv.ovf.i8 or conv.ovf.u8. *)
Definition without_ovf_i8 (mem : list Z) : bool :=
  forallb (fun b => negb (one_of b [IL_OP_CONV_OVF_I8; IL_OP_CONV_OVF_U8])) mem.

Lemma insn_row_opcode mem o opcode row :
  insn_row mem o = Ret (opcode, row) -> Forall is_byte mem ->
  opcode ∈ mem \/ IL_OP_PREFIX <= opcode.
Proof.
  unfold insn_row, rd, table_row. intros H Hb.
  assert (forall i b, pc_at mem i 0 = Some b -> b ∈ mem) as Hin.
  { intros i b Hp. unfold pc_at in Hp. destruct (0 <=? i + 0); [|done]. by eapply list_elem_of_lookup_2. }
  destruct (pc_at mem o 0) as [op|] eqn:Eo; [|done]. cbn [access mbind vres_bind] in H.
  destruct (negb _).
  - destruct (ILMainOpcodeTable !! _); [|done]. injection H as <- <-. left. by eapply Hin.
  - destruct (pc_at mem (o + 1) 0) as [op'|] eqn:Eo'; [|done]. cbn [access mbind vres_bind] in H.
    destruct (ILPrefixOpcodeTable !! _); [|done]. injection H as <- <-. right.
    unfold pc_at in Eo'. destruct (0 <=? _); [|done].
    pose proof (Forall_lookup_1 _ _ _ _ Hb Eo') as Hbyte. unfold is_byte in Hbyte. lia.
Qed.

Lemma verify_insn_tracked maxStack mem mask o stack coder stack' coder' sz :
  Forall is_byte mem -> CVM_WORDS_PER_LONG = 1 \/ without_ovf_i8 mem = true -> no_cm stack ->
  verify_insn false maxStack mem mask o stack coder = Ret (stack', coder', sz) ->
  tracks stack stack' coder coder'.
Proof.
  intros Hb Hx Hc. unfold verify_insn, height_error, verify_dispatch. destruct (insn_row mem o) as [[opcode row]| | | |] eqn:Er; try done.
  cbn [mbind vres_bind].
  destruct (IsJumpTarget mask o) as [[]|]; cbn [access mbind vres_bind]; try done.
  destruct (_ || _); [done|].
  destruct (Z.eqb_spec opcode (IL_OP_PREFIX + IL_PREFIX_OP_CEQ)) as [Hop|_]; [|destruct (one_of opcode _) eqn:Hl].
  - unfold verify_ceq. operands stack.
    destruct (infer2 _ _ _) as [t| | | |] eqn:Ht; cbn [mbind vres_bind]; try done.
    destruct (is_type t T_NO) eqn:En; [done|]. apply is_type_false in En.
    eapply compare_code_tracked; [by rewrite Hop|by left|done|done].
  - unfold verify_compare. operands stack.
    assert (listed opcode compare_opcodes = true) as Hl' by (eapply listed_incl; [|exact Hl]; reflexivity).
    destruct (_ && _ && _) eqn:Eo; cbn [mbind vres_bind].
    + apply andb_true_iff in Eo as [[_ E1]%andb_true_iff E2].
      apply bool_decide_eq_true in E1, E2. simpl negb. cbv iota.
      eapply (compare_code_tracked _ _ _ _ _ _ _ _ _ _ _ _ T_O); [done| |done|done]. auto.
    + destruct (infer2 _ _ _) as [t| | | |] eqn:Ht; cbn [mbind vres_bind]; try done.
      destruct (is_type t T_NO) eqn:En; [done|]. apply is_type_false in En.
      eapply compare_code_tracked; [done|by right; left|done|done].
  - destruct (verify_simple _ _ _ _ _) as [[st c]| | | |] eqn:Hv; try done. intros [= <- <- <-].
    destruct (insn_row_opcode _ _ _ _ Er Hb) as [Hin|Hp];
      [|by rewrite verify_simple_prefixed in Hv].
    eapply verify_simple_tracked; [|done|exact Hv]. destruct Hx as [Hx|Hx]; [by left|right].
    apply negb_true_iff. unfold without_ovf_i8 in Hx. rewrite forallb_forall in Hx.
    by apply Hx, list_elem_of_In.
Qed.

Lemma verify_loop_tracked fuel maxStack mem mask o len stack coder stack' coder' :
  Forall is_byte mem -> CVM_WORDS_PER_LONG = 1 \/ without_ovf_i8 mem = true -> no_cm stack ->
  verify_loop fuel false maxStack mem mask o len stack coder = Ret (stack', coder') ->
  tracks stack stack' coder coder'.
Proof.
  intros Hb Hx. revert o len stack coder.
  induction fuel as [|fuel IH]; intros o len stack coder Hc; simpl;
    destruct (len =? 0); try done; try (intros [= <- <-]; by apply tracks_refl).
  destruct (verify_insn _ _ _ _ _ _ _) as [[[st c] sz]| | | |] eqn:Hi; cbn [mbind vres_bind]; try done.
  intros H. apply verify_insn_tracked in Hi; [|done..]. eapply tracks_trans; [exact Hi|].
  eapply IH; [apply Hi|exact H].
Qed.

(** ** The room that a verified block needs *)

Lemma typed_words stack vs :
  typed stack vs -> ComputeStackSize GetTypeSize stack = cells_size (cells vs).
Proof.
  intros [Ht _]. revert stack Ht. induction vs as [|v vs IH]; intros [|[t x] stack] Ht; try done.
  injection Ht as E1 Ht. rewrite size_cons, (IH _ Ht). cbn [cells map cells_size foldr].
  change (foldr _ 0 (map cell_of vs)) with (cells_size (cells vs)). f_equal. subst t.
  destruct v; unfold cell_of, item_words; simpl; try done. unfold native, words_of. by destruct IL_NATIVE_INT64.
Qed.

Lemma typed_no_cm stack vs : typed stack vs -> no_cm stack.
Proof.
  intros [Ht _]. revert stack Ht. induction vs as [|v vs IH]; intros [|[t x] stack] Ht; try discriminate Ht; [constructor|].
  injection Ht as -> Ht. apply no_cm_cons; [by destruct v|]. by apply IH.
Qed.

Lemma verify_loop_room maxStack mem mask walk fuel o len stack vs coder stack' coder' :
  Forall is_byte mem -> Z.of_nat (length mem) + 12 < 0x100000000 -> 0 <= len < 0x100000000 ->
  CVM_WORDS_PER_LONG = 1 \/ without_ovf_i8 mem = true ->
  integer_code walk mem o (o + len) = true -> typed stack vs ->
  height coder = minHeight coder + ComputeStackSize GetTypeSize stack ->
  height coder <= maxHeight coder ->
  verify_loop fuel false maxStack mem mask o len stack coder = Ret (stack', coder') ->
  exists out bs,
    il_block mem (o + len) o vs out /\ result_typed stack' out /\
    Coder.code coder' = Coder.code coder ++ bs /\
    block_runs bs vs out (maxHeight coder' - minHeight coder').
Proof.
  intros Hb Hmem Hlen Hx Hw Hs Hh Hmax Hv.
  eapply (verify_loop_sound_in GetTypeSize (fun st c => no_cm st /\ minHeight c = minHeight coder /\
    height c = minHeight c + ComputeStackSize GetTypeSize st /\ height c <= maxHeight c));
    [| |done..| |exact Hv].
  - intros o1 st c st2 c2 sz (Hc & H1 & H2 & H3) Hi.
    destruct (verify_insn_tracked _ _ _ _ _ _ _ _ _ Hb Hx Hc Hi) as [Hc2 Hm].
    unfold moves in Hm. split; [done|lia].
  - intros fuel1 o1 len1 st c vs1 (Hc & H1 & H2 & H3) Ht _ Hl.
    destruct (verify_loop_tracked _ _ _ _ _ _ _ _ _ _ Hb Hx Hc Hl) as [_ Hm].
    rewrite <-(typed_words _ _ Ht). unfold moves in Hm. lia.
  - split; [by eapply typed_no_cm|done].
Qed.

End HeightBlock.
