(* ===== verification/Verdict.v ===== *)
(** * The steps of the verifier

    Over any coder: the stack has after every accepted instruction the number
    of items that the opcode table gives, and never more than the method
    declares; every accepted instruction advances; one step ends, and stops
    outside the model only at an instruction of a category left out.  At the
    end, the properties of single steps of the interpreter. *)
From Stdlib Require Import ZArith Lia.
From stdpp Require Import base list option numbers.
From S2P Require Import Prelude Opcodes Cvm JumpMask Scan Coder Verify VerifyProps ILSpec Refine RefineBlock MulLong CvmArith CvmConv CvmCompare CvmStack CvmVar CvmBranch Interp CvmProps CoderProps.
Import OpTable.

Local Open Scope Z_scope.

(** ** The stack effect and the advance of one instruction *)

(** ** Computations that end

    A result that is not for want of fuel; that it stops at something outside
    the model has [P] for its reason. *)
Definition settles {A} (P : Prop) (r : vres A) : Prop :=
  match r with NoFuel => False | NotModelled => P | _ => True end.

Lemma settles_bind {A B} P (r : vres A) (f : A -> vres B) :
  settles P r -> (forall a, settles P (f a)) -> settles P (r ≫= f).
Proof. intros H Hf. destruct r; simpl; try done; apply Hf. Qed.

Lemma settles_access {A} P (x : option A) : settles P (access x).
Proof. by destruct x. Qed.

Lemma settles_impl {A} (P Q : Prop) (r : vres A) : (P -> Q) -> settles P r -> settles Q r.
Proof. intros H. destruct r; simpl; auto. Qed.

Ltac settles_tac :=
  repeat first
    [ exact I
    | apply settles_bind; [|intros]
    | apply settles_access
    | match goal with
      | |- settles _ (let '(_, _) := ?p in _) => destruct p
      | |- settles _ (if ?b then _ else _) => destruct b
      | |- settles _ (match ?b with _ => _ end) => destruct b
      end ].

(** The instructions of the categories that are modelled. *)
Definition simple_opcode (opcode : Z) : bool :=
  one_of opcode [IL_OP_NOP; IL_OP_BREAK] || (IL_OP_LDNULL <=? opcode) && (opcode <=? IL_OP_LDC_R8)
  || one_of opcode
       [IL_OP_ADD; IL_OP_ADD_OVF_UN; IL_OP_SUB; IL_OP_SUB_OVF_UN; IL_OP_MUL; IL_OP_DIV; IL_OP_REM;
        IL_OP_DIV_UN; IL_OP_REM_UN; IL_OP_ADD_OVF; IL_OP_SUB_OVF; IL_OP_MUL_OVF; IL_OP_MUL_OVF_UN;
        IL_OP_AND; IL_OP_OR; IL_OP_XOR; IL_OP_SHL; IL_OP_SHR; IL_OP_SHR_UN; IL_OP_NEG; IL_OP_NOT;
        IL_OP_CKFINITE; IL_OP_DUP; IL_OP_POP]
  || one_of opcode (map fst conv_table).

Definition dispatched_opcode (opcode : Z) : bool :=
  one_of opcode
    [IL_OP_PREFIX + IL_PREFIX_OP_CEQ; IL_OP_PREFIX + IL_PREFIX_OP_CGT; IL_OP_PREFIX + IL_PREFIX_OP_CGT_UN;
     IL_OP_PREFIX + IL_PREFIX_OP_CLT; IL_OP_PREFIX + IL_PREFIX_OP_CLT_UN]
  || simple_opcode opcode.

Section Effect.
Context {PF : Platform} {C : Type} {CC : ILCoder C}.

Lemma verify_insn_effect unsafe maxStack mem mask o opcode row stack (coder : C) stack' coder' sz :
  Forall is_byte mem -> il_fetch mem o = Some (opcode, row) ->
  verify_insn unsafe maxStack mem mask o stack coder = Ret (stack', coder', sz) ->
  popped row <= Z.of_nat (length stack) /\
  Z.of_nat (length stack') = Z.of_nat (length stack) - popped row + pushed row /\
  Z.of_nat (length stack') <= maxStack.
Proof.
  intros Hb Hf. unfold verify_insn, height_error, verify_dispatch. rewrite (il_fetch_row _ _ _ _ Hf). cbn [mbind vres_bind].
  destruct (IsJumpTarget mask o) as [[]|]; cbn [access mbind vres_bind]; try done.
  destruct (_ || _) eqn:Hh; [done|]. apply orb_false_iff in Hh as [Hlo%Z.ltb_ge Hhi%Z.ltb_ge].
  destruct (il_fetch_cases _ _ _ _ Hb Hf) as (_ & _ & Hrow).
  assert (forall i1 i2 rest n, compare_code mem mask o opcode n i1 i2 rest coder =
    Ret (stack', coder', sz) -> length stack' = S (length rest)) as Hcc.
  { intros i1 i2 rest n. unfold compare_code.
    destruct (followed_by_xor mem mask o) as [[]| | | |]; cbn [mbind vres_bind]; try done;
      [by intros [= <- <- <-]|].
    destruct (followed_by_ceq mem mask o) as [[]| | | |]; cbn [mbind vres_bind]; try done;
      by intros [= <- <- <-]. }
  assert (listed opcode compare_opcodes = true ->
    (exists i1 i2 rest n, stack = i2 :: i1 :: rest /\
      compare_code mem mask o opcode n i1 i2 rest coder = Ret (stack', coder', sz)) ->
    popped row <= Z.of_nat (length stack) /\
    Z.of_nat (length stack') = Z.of_nat (length stack) - popped row + pushed row /\
    Z.of_nat (length stack') <= maxStack) as Hcmp.
  { intros Hl (i1 & i2 & rest & n & -> & Hc). apply Hcc in Hc. rewrite Hc. cbn [length] in *.
    destruct (il_fetch_compare _ _ _ _ Hb Hf Hl) as (_ & Hp & Hq). lia. }
  destruct (Z.eqb_spec opcode (IL_OP_PREFIX + IL_PREFIX_OP_CEQ)) as [Hop|_]; [|destruct (one_of opcode _) eqn:Hl].
  - unfold verify_ceq. destruct stack as [|i2 [|i1 rest]]; cbn [top2 mbind vres_bind]; try done.
    destruct (infer2 _ _ _); cbn [mbind vres_bind]; try done. destruct (negb _); [|done].
    intros Hc. apply Hcmp; [by rewrite Hop|by repeat eexists].
  - unfold verify_compare. destruct stack as [|i2 [|i1 rest]]; cbn [top2 mbind vres_bind]; try done.
    match goal with |- (mbind _ ?m = _ -> _) => destruct m end; cbn [mbind vres_bind]; try done.
    destruct (negb _); [|done].
    intros Hc. apply Hcmp; [eapply listed_incl; [|exact Hl]; reflexivity|by repeat eexists].
  - destruct (verify_simple _ _ _ _ _) as [[st c]| | | |] eqn:Hv; cbn [mbind vres_bind]; try done.
    intros [= <- <- <-]. destruct Hrow as [(Hp & Hbyte & Hmain & _)|(op & -> & Hbyte & _)].
    + pose proof (verify_simple_changes _ _ _ _ _ _ _ Hv) as Hn. unfold net in Hn.
      rewrite Hmain in Hn. lia.
    + rewrite verify_simple_prefixed in Hv by (unfold is_byte in Hbyte; lia). done.
Qed.

(** The rows with no size are of opcodes that take the variable-length path
    or none. *)
Lemma main_sizes n row :
  ILMainOpcodeTable !! n = Some row -> 1 <= size row \/ forall unsafe arg stack (coder : C),
    verify_simple unsafe (Z.of_nat n) arg stack coder = NotModelled.
Proof.
  intros H. destruct (Z_le_gt_dec 1 (size row)) as [|Hz]; [by left|right].
  assert (Hn : (n < 256)%nat) by (by apply lookup_lt_Some in H).
  assert (In n (List.filter (fun n => match ILMainOpcodeTable !! n with
    Some r => size r <? 1 | None => false end) (seq 0 256))) as Hin.
  { apply filter_In. split; [apply in_seq; lia|]. rewrite H. apply Z.ltb_lt. lia. }
  vm_compute in Hin. repeat (destruct Hin as [<-|Hin]; [reflexivity|]). done.
Qed.

Lemma insn_row_cases mem o opcode row :
  Forall is_byte mem -> insn_row mem o = Ret (opcode, row) ->
  is_byte opcode /\ ILMainOpcodeTable !! Z.to_nat opcode = Some row \/
  exists op, is_byte op /\ opcode = op + IL_OP_PREFIX /\ ILPrefixOpcodeTable !! Z.to_nat op = Some row.
Proof.
  intros Hb. unfold insn_row, rd, table_row.
  assert (forall i b, pc_at mem i 0 = Some b -> is_byte b) as Hbyte.
  { intros i b H. unfold pc_at in H. destruct (0 <=? i + 0); [|done]. by eapply Forall_lookup_1 in H. }
  destruct (pc_at mem o 0) as [op|] eqn:Eo; [|done]. cbn [access mbind vres_bind].
  destruct (negb _).
  - destruct (ILMainOpcodeTable !! _) eqn:Er; [|done]. intros [= <- <-]. left. eauto.
  - destruct (pc_at mem (o + 1) 0) as [op'|] eqn:Eo'; [|done]. cbn [access mbind vres_bind].
    destruct (ILPrefixOpcodeTable !! _) eqn:Er; [|done]. intros [= <- <-]. right. eauto.
Qed.

Lemma compare_size mem o opcode row :
  Forall is_byte mem -> insn_row mem o = Ret (opcode, row) ->
  listed opcode compare_opcodes = true -> 1 <= size row.
Proof.
  intros Hb Hf Hl. destruct (insn_row_cases _ _ _ _ Hb Hf) as [[Hbyte Hrow]|(op & Hbyte & -> & Hrow)].
  - opcode_cases Hl; revert Hbyte Hrow; unfold is_byte;
      first [ intros [_ Hlt]; vm_compute in Hlt; discriminate
            | vm_compute; intros _ [= <-]; done ].
  - assert (op = 1 \/ op = 2 \/ op = 3 \/ op = 4 \/ op = 5) as Hop.
    { unfold listed, compare_opcodes in Hl. simpl existsb in Hl.
      repeat (apply orb_true_iff in Hl as [Hl%Z.eqb_eq|Hl]);
        [unfold IL_PREFIX_OP_CEQ, IL_PREFIX_OP_CGT, IL_PREFIX_OP_CGT_UN, IL_PREFIX_OP_CLT,
           IL_PREFIX_OP_CLT_UN in Hl; lia..|done]. }
    destruct Hop as [->|[->|[->|[->| ->]]]]; vm_compute in Hrow; injection Hrow as <-; done.
Qed.

Lemma dispatch_advances unsafe mem mask o opcode row stack (coder : C) stack' coder' sz :
  Forall is_byte mem -> insn_row mem o = Ret (opcode, row) ->
  verify_dispatch unsafe mem mask o opcode (size row) stack coder = Ret (stack', coder', sz) -> 1 <= sz.
Proof.
  intros Hb Er. unfold verify_dispatch.
  assert (listed opcode compare_opcodes = true -> forall i1 i2 st,
    compare_code mem mask o opcode (size row) i1 i2 st coder = Ret (stack', coder', sz) -> 1 <= sz) as Hc.
  { intros Hl i1 i2 st H. apply compare_code_size in H. pose proof (compare_size _ _ _ _ Hb Er Hl). lia. }
  destruct (Z.eqb_spec opcode (IL_OP_PREFIX + IL_PREFIX_OP_CEQ)) as [Hop|_]; [|destruct (one_of opcode _) eqn:Hl].
  - unfold verify_ceq. destruct (top2 stack) as [[[i1 i2] st]| | | |]; cbn [mbind vres_bind]; try done.
    destruct (infer2 _ _ _); cbn [mbind vres_bind]; try done. destruct (negb _); [|done].
    apply Hc. by rewrite Hop.
  - unfold verify_compare. destruct (top2 stack) as [[[i1 i2] st]| | | |]; cbn [mbind vres_bind]; try done.
    match goal with |- (mbind _ ?m = _ -> _) => destruct m end; cbn [mbind vres_bind]; try done.
    destruct (negb _); [|done]. apply Hc. eapply listed_incl; [|exact Hl]; reflexivity.
  - destruct (verify_simple _ _ _ _ _) as [[st c]| | | |] eqn:Hv; cbn [mbind vres_bind]; try done.
    intros [= <- <- <-].
    destruct (insn_row_cases _ _ _ _ Hb Er) as [[Hbyte Hrow]|(op & Hbyte & -> & Hrow)].
    + destruct (main_sizes _ _ Hrow) as [|Hm]; [done|].
      rewrite Z2Nat.id in Hm by (unfold is_byte in Hbyte; lia). by rewrite Hm in Hv.
    + by rewrite verify_simple_prefixed in Hv by (unfold is_byte in Hbyte; lia).
Qed.

Lemma verify_insn_advances unsafe maxStack mem mask o stack (coder : C) stack' coder' sz :
  Forall is_byte mem ->
  verify_insn unsafe maxStack mem mask o stack coder = Ret (stack', coder', sz) -> 1 <= sz.
Proof.
  intros Hb. unfold verify_insn. destruct (insn_row mem o) as [[opcode row]| | | |] eqn:Er; try done.
  cbn [mbind vres_bind].
  destruct (IsJumpTarget mask o) as [[]|]; cbn [access mbind vres_bind]; try done.
  destruct (height_error _ _ _); [done|]. by eapply dispatch_advances.
Qed.

(** One step always ends, and stops only at an instruction of another category. *)
Lemma verify_simple_ends unsafe opcode arg stack (coder : C) :
  settles (simple_opcode opcode = false) (verify_simple unsafe opcode arg stack coder).
Proof.
  unfold verify_simple.
  repeat match goal with
  | |- settles _ (if ?b then _ else _) => destruct b eqn:?
  end.
  all: try (unfold verify_numeric, verify_integer, verify_neg, verify_not, verify_const, verify_add, verify_sub,
    verify_binary, verify_shift, verify_unary, verify_ckfinite, verify_dup, verify_pop, push_constant, binary_result,
    infer1, infer2, top1, top2; solve [settles_tac]).
  destruct (list_find _ conv_table) as [[i [op t]]|] eqn:Hf.
  { unfold verify_conv, top1. settles_tac. }
  assert (one_of opcode (map fst conv_table) = false) as Hc.
  { apply not_true_iff_false. unfold one_of. rewrite existsb_exists. intros (op & Hin & <-%Z.eqb_eq).
    apply in_map_iff in Hin as (x & <- & Hin).
    apply list_find_None in Hf. rewrite Forall_forall in Hf. by eapply Hf. }
  unfold settles, simple_opcode. rewrite Hc. unfold one_of in *. cbn [existsb] in *.
  repeat match goal with H : _ || _ = false |- _ => apply orb_false_iff in H as [? H] end.
  repeat match goal with H : ?b = false |- _ => rewrite H; clear H end. reflexivity.
Qed.

Lemma compare_code_ends P mem mask o opcode n i1 i2 rest (coder : C) :
  settles P (compare_code mem mask o opcode n i1 i2 rest coder).
Proof.
  unfold compare_code, followed_by_xor, followed_by_ceq, not_jumped_to, and_then, rd. settles_tac.
Qed.

Lemma dispatch_ends unsafe mem mask o opcode n stack (coder : C) :
  settles (dispatched_opcode opcode = false) (verify_dispatch unsafe mem mask o opcode n stack coder).
Proof.
  unfold verify_dispatch, verify_ceq, verify_compare, infer2, top2.
  destruct (opcode =? _) eqn:E1; [|destruct (one_of opcode _) eqn:E2].
  1,2: repeat first [apply compare_code_ends | progress settles_tac].
  apply settles_bind; [|by intros []]. eapply settles_impl; [|apply verify_simple_ends].
  intros Hs. unfold dispatched_opcode. rewrite Hs, orb_false_r. unfold one_of in *. cbn [existsb] in *. by rewrite E1, E2.
Qed.

Lemma insn_row_ends P mem o : settles P (insn_row mem o).
Proof. unfold insn_row, rd, table_row. settles_tac. Qed.

Lemma verify_insn_ends unsafe maxStack mem mask o stack (coder : C) :
  settles True (verify_insn unsafe maxStack mem mask o stack coder).
Proof.
  unfold verify_insn.
  repeat first [apply insn_row_ends | (eapply settles_impl; [|apply dispatch_ends]; exact (fun _ => I)) | progress settles_tac].
Qed.

(** One unit of fuel for each byte of memory is enough. *)
Lemma verify_loop_fuel fuel unsafe maxStack mem mask o len stack (coder : C) :
  Forall is_byte mem -> Z.of_nat (length mem) < o + Z.of_nat fuel -> (0 < fuel)%nat ->
  verify_loop fuel unsafe maxStack mem mask o len stack coder <> NoFuel.
Proof.
  intros Hb. revert o len stack coder. induction fuel as [|fuel IH]; intros o len stack coder Hf Hp; [lia|].
  simpl. destruct (len =? 0); [done|].
  pose proof (verify_insn_ends unsafe maxStack mem mask o stack coder) as Hn.
  destruct (verify_insn _ _ _ _ _ _ _) as [[[st c] sz]| | | |] eqn:Hi; cbn [mbind vres_bind]; try done.
  pose proof (verify_insn_advances _ _ _ _ _ _ _ _ _ _ Hb Hi) as Ha.
  pose proof (verify_insn_range _ _ _ _ _ _ _ _ _ _ Hi) as [Ho _].
  destruct fuel as [|fuel]; [lia|apply IH; lia].
Qed.

End Effect.

(** ** Properties of single steps of the interpreter

    No instruction changes the size of the stack area, the long branches go
    where the short ones go, and a local variable keeps what is stored in it. *)

(** ** The stack area

    [total] is the number of words between the base of the stack area and
    [stackmax]. *)
Definition total (st : cvm) : nat := (length (below st) + length (above st))%nat.

(** Results that hold a machine state. *)
Class HasState (A : Type) := state_of : A -> cvm.
#[export] Instance cvm_state : HasState cvm := fun st => st.
#[export] Instance pair_state {B} : HasState (cvm * B) := fst.
#[export] Instance outcome_state : HasState outcome :=
  fun o => match o with Next st => st | Throw _ st => st end.

Definition keeps {A} `{HasState A} (n : nat) (r : option A) : Prop :=
  forall x, r = Some x -> total (state_of x) = n.

Lemma keeps_some {A} `{HasState A} n (x : A) : total (state_of x) = n -> keeps n (Some x).
Proof. intros H' y [= <-]. done. Qed.

Lemma keeps_none {A} `{HasState A} n : keeps n (None : option A).
Proof. by intros y. Qed.

Lemma keeps_read {A B} `{HasState B} n (m : option A) (f : A -> option B) :
  (forall a, keeps n (f a)) -> keeps n (m ≫= f).
Proof. intros Hf. destruct m; [apply Hf|apply keeps_none]. Qed.

Lemma keeps_bind {A B} `{HasState A, HasState B} n (m : option A) (f : A -> option B) :
  keeps n m -> (forall a, total (state_of a) = n -> keeps n (f a)) -> keeps n (m ≫= f).
Proof. intros Hm Hf. destruct m as [a|]; [apply Hf, Hm; done|apply keeps_none]. Qed.

Section Keeps.
Context `{Platform}.

Lemma keeps_set_word n st k w : total st = n -> keeps n (set_word st k w).
Proof.
  unfold set_word, list_store, total. intros <-.
  destruct (k <? 0); case_match; cbn [mbind option_bind]; try apply keeps_none;
    apply keeps_some; unfold state_of, cvm_state, total; simpl; by rewrite length_insert.
Qed.

Lemma keeps_move_stack n st k : total st = n -> keeps n (move_stack st k).
Proof.
  unfold move_stack, total. intros <-.
  destruct (k <? 0).
  - destruct (Nat.leb_spec (Z.to_nat (- k)) (length (below st))); [|apply keeps_none].
    apply keeps_some. unfold state_of, cvm_state, total; simpl.
    rewrite length_drop, length_app, length_rev, length_take. lia.
  - destruct (Nat.leb_spec (Z.to_nat k) (length (above st))); [|apply keeps_none].
    apply keeps_some. unfold state_of, cvm_state, total; simpl.
    rewrite length_drop, length_app, length_rev, length_take. lia.
Qed.

End Keeps.

(** Every write goes through [set_word], and every move of [stacktop] through
    [move_stack]. *)
Ltac keeps_tac :=
  repeat match goal with
  | |- total (state_of _) = _ => done
  | |- total _ = _ => done
  | |- keeps _ (Some _) => apply keeps_some
  | |- keeps _ None => apply keeps_none
  | |- keeps _ (set_word _ _ _) => apply keeps_set_word
  | |- keeps _ (move_stack _ _) => apply keeps_move_stack
  | |- keeps _ (@mbind _ _ cvm _ _ _) => apply keeps_bind; [|intros ? ?]
  | |- keeps _ (@mbind _ _ (cvm * _)%type _ _ _) => apply keeps_bind; [|intros [? ?] ?]
  | |- keeps _ (mbind _ _) => apply keeps_read; intros ?
  | |- keeps _ (if ?b then _ else _) => destruct b
  | |- keeps _ (match ?b with _ => _ end) => destruct b
  end.

Section Moves.
Context `{Platform}.

Lemma keeps_memcpy m n st d s : total st = n -> keeps n (memcpy_words m st d s).
Proof.
  revert st d s. induction m as [|m IH]; intros st d s Hn; simpl; keeps_tac. by apply IH.
Qed.

Lemma keeps_memzero m n st d : total st = n -> keeps n (memzero_words m st d).
Proof.
  revert st d. induction m as [|m IH]; intros st d Hn; simpl; keeps_tac. by apply IH.
Qed.

Lemma keeps_modify n st p s : total st = n -> keeps n (MODIFY_PC_AND_STACK st p s).
Proof. intros Hn. unfold MODIFY_PC_AND_STACK. keeps_tac. Qed.

Lemma keeps_branch_if n c d k st : total st = n -> keeps n (branch_if c d k st).
Proof.
  intros Hn. unfold branch_if. destruct c; [|by apply keeps_modify]. keeps_tac.
Qed.

End Moves.

(** Unfold the handler or helper at the head and go on. *)
Ltac handler_keeps :=
  repeat first
    [ progress keeps_tac
    | match goal with
      | |- keeps _ (memcpy_words _ _ _ _) => apply keeps_memcpy
      | |- keeps _ (memzero_words _ _ _) => apply keeps_memzero
      | |- keeps _ (MODIFY_PC_AND_STACK _ _ _) => apply keeps_modify
      | |- keeps _ (branch_if _ _ _ _) => apply keeps_branch_if
      | |- @keeps ?A ?HA ?n ?r => let r' := eval red in r in change (@keeps A HA n r')
      end ].

Ltac table_tac :=
  repeat (apply Forall_cons; [intros c st; cbn [snd]; handler_keeps|]); apply Forall_nil.

Section Tables.
Context `{Platform}.

Definition table_keeps (table : list (Z * handler)) : Prop :=
  Forall (fun p => forall c st, keeps (total st) (snd p c st)) table.

Lemma find_handler_keeps table op h c st :
  table_keeps table -> find_handler op table = Some h -> keeps (total st) (h c st).
Proof.
  intros Ht. induction Ht as [|[k h'] table Hh _ IH]; simpl; [done|].
  destruct (op =? k); [intros [= <-]; apply Hh|done].
Qed.

Lemma br_long_keeps : table_keeps br_long_table.
Proof. unfold br_long_table. table_tac. Qed.

Lemma wide_keeps : table_keeps wide_table.
Proof. unfold wide_table. table_tac. Qed.

Lemma prefix_keeps : table_keeps prefix_table.
Proof. unfold prefix_table. table_tac. Qed.

Lemma wide_handler_keeps c st : keeps (total st) (wide_handler c st).
Proof.
  unfold wide_handler. apply keeps_read. intros op.
  destruct (find_handler op wide_table) eqn:E; [by eapply find_handler_keeps; [apply wide_keeps|]|].
  destruct (in_list _ _); [apply keeps_none|by apply keeps_modify].
Qed.

Lemma prefix_handler_keeps c st : keeps (total st) (prefix_handler c st).
Proof.
  unfold prefix_handler. apply keeps_read. intros op.
  destruct (find_handler op prefix_table) eqn:E; [by eapply find_handler_keeps; [apply prefix_keeps|]|].
  destruct (unassigned_prefix _); [by apply keeps_modify|apply keeps_none].
Qed.

Lemma br_long_handler_keeps c st : keeps (total st) (exec_BR_LONG c st).
Proof.
  unfold exec_BR_LONG. apply keeps_read. intros op. destruct (op =? COP_JSR); [apply keeps_none|].
  destruct (list_find _ br_long_table) as [[i [k h]]|] eqn:E.
  - apply list_find_Some in E as [E _]. exact (Forall_lookup_1 _ _ _ _ br_long_keeps E c st).
  - unfold exec_BR_LONG_BR. apply keeps_read. intros d. by apply keeps_some.
Qed.

Lemma main_keeps : table_keeps main_table.
Proof.
  unfold main_table.
  repeat (apply Forall_cons; [intros c st; cbn [snd];
    first [apply wide_handler_keeps | apply prefix_handler_keeps | apply br_long_handler_keeps
          | handler_keeps]|]).
  apply Forall_nil.
Qed.

Lemma step_keeps c st : keeps (total st) (step c st).
Proof.
  unfold step. apply keeps_read. intros op. destruct (main_handler op) as [h|] eqn:E;
    [|apply keeps_none]. cbn [mbind option_bind]. revert E. unfold main_handler.
  destruct (find_handler op main_table) eqn:E.
  - intros [= <-]. by eapply find_handler_keeps; [apply main_keeps|].
  - destruct (in_list _ _); [|done]. intros [= <-]. by apply keeps_modify.
Qed.

Lemma run_keeps n c st : keeps (total st) (run n c st).
Proof.
  revert st. induction n as [|n IH]; intros st; simpl; [by apply keeps_some|].
  pose proof (step_keeps c st) as Hs.
  destruct (step c st) as [[st1|e st1]|] eqn:E; [|by apply keeps_some, (Hs _ eq_refl)|apply keeps_none].
  specialize (Hs _ eq_refl). intros x Hx. rewrite (IH st1 x Hx). exact Hs.
Qed.
End Tables.

(** ** Conditional branches

    What each branch on two ints tests: whether the operands are read as
    signed, and the comparison. *)
Definition int_branches : list (Z * (bool * (Z -> Z -> bool))) :=
  [(COP_BEQ, (true, Z.eqb));
   (COP_BNE, (true, fun a b => negb (a =? b)));
   (COP_BLT, (true, Z.ltb));
   (COP_BLT_UN, (false, Z.ltb));
   (COP_BLE, (true, Z.leb));
   (COP_BLE_UN, (false, Z.leb));
   (COP_BGT, (true, fun a b => b <? a));
   (COP_BGT_UN, (false, fun a b => b <? a));
   (COP_BGE, (true, fun a b => b <=? a));
   (COP_BGE_UN, (false, fun a b => b <=? a))].

(** The branch on the operands [x] (below) and [y] (top) from [p] to [d]. *)
Definition branched (test : bool * (Z -> Z -> bool)) (p d : Z) (fr x y : Z) (l ab : list Z) : cvm :=
  let value := if fst test then i32 else u32 in
  mk_cvm (if snd test (value x) (value y) then d else p + CVM_LEN_BRANCH) fr l (x :: y :: ab).

Section Branches.
Context `{Platform}.

Definition short_form (h : handler) (test : bool * (Z -> Z -> bool)) : Prop :=
  forall code p d fr x y l ab, CVM_ARG_BRANCH_SHORT code p = Some d ->
    h code (mk_cvm p fr (y :: x :: l) ab) = Some (Next (branched test p d fr x y l ab)).
Definition long_form (h : handler) (test : bool * (Z -> Z -> bool)) : Prop :=
  forall code p d fr x y l ab, CVM_ARG_BRANCH_LONG code p = Some d ->
    h code (mk_cvm p fr (y :: x :: l) ab) = Some (Next (branched test p d fr x y l ab)).

Lemma branch_if_2 c d p fr x y l ab :
  branch_if c (Some d) 2 (mk_cvm p fr (y :: x :: l) ab) =
  Some (Next (mk_cvm (if c then d else p + CVM_LEN_BRANCH) fr l (x :: y :: ab))).
Proof. by destruct c. Qed.

Lemma int_branch_handlers op test :
  (op, test) ∈ int_branches ->
  (exists h, main_handler op = Some h /\ short_form h test) /\
  (exists i h, list_find (fun p => fst p = op) br_long_table = Some (i, (op, h)) /\
    long_form h test) /\ op <> COP_JSR.
Proof.
  unfold int_branches. rewrite !elem_of_cons, elem_of_nil. intros Hop.
  repeat (destruct Hop as [Hop|Hop]; [injection Hop as -> ->; split;
    [eexists; split; [reflexivity|intros code p d fr x y l ab Hd]
    |split; [do 2 eexists; split; [reflexivity|intros code p d fr x y l ab Hd]|done]];
    unfold branched; rewrite <-branch_if_2, <-Hd; reflexivity|]).
  done.
Qed.

Lemma step_int_branch op test code st d x y l :
  (op, test) ∈ int_branches -> below st = y :: x :: l ->
  pc_at code (pc st) 0 = Some op /\ CVM_ARG_BRANCH_SHORT code (pc st) = Some d \/
  pc_at code (pc st) 0 = Some COP_BR_LONG /\ pc_at code (pc st) 1 = Some op /\
    CVM_ARG_BRANCH_LONG code (pc st) = Some d ->
  step code st = Some (Next (branched test (pc st) d (frame st) x y l (above st))).
Proof.
  intros Hop Hb Hc. destruct (int_branch_handlers _ _ Hop) as ((h & Hh & Hs) & (i & h' & Hl & Hs') & Hj).
  destruct st as [p fr bl ab]. cbn [pc frame below above] in *. subst bl. unfold step. cbn [pc].
  destruct Hc as [[Hp Hd]|(Hp & Hp1 & Hd)]; rewrite Hp; cbn [mbind option_bind].
  - rewrite Hh. by apply Hs.
  - change (main_handler COP_BR_LONG) with (Some exec_BR_LONG). cbn [mbind option_bind].
    unfold exec_BR_LONG, CVM_ARG_SUB_OPCODE. cbn [pc]. rewrite Hp1. cbn [mbind option_bind].
    rewrite (proj2 (Z.eqb_neq _ _) Hj), Hl. by apply Hs'.
Qed.
End Branches.

(** ** Local variables *)

Section Locals.
Context `{Platform}.

(** Access to the local [n] by the shortest of the three forms: the opcode for
    0 to 3, a byte, or a word after [wide]. *)
Definition local_bytes (op_0 op n : Z) : list Z :=
  if n <? 4 then [op_0 + n]
  else if n <? 256 then [op; n]
  else [COP_WIDE; op; u8 n; u8 (Z.shiftr n 8); u8 (Z.shiftr n 16); u8 (Z.shiftr n 24)].

(** The word that [frame[n]] is, counted from the base of the stack area. *)
Definition from_base (st : cvm) (i : Z) : option Z := rev (below st) !! Z.to_nat i.

Lemma rev_reverse {A} (l : list A) : rev l = reverse l.
Proof. apply rev_alt. Qed.

Lemma rev_insert_lookup {A} (l : list A) i j x :
  (i < length l)%nat -> (j < length l)%nat ->
  rev (<[(length l - 1 - i)%nat := x]> l) !! j = if Nat.eqb i j then Some x else rev l !! j.
Proof.
  intros Hi Hj. rewrite !rev_reverse.
  rewrite !reverse_lookup by (rewrite ?length_insert; lia). rewrite length_insert.
  destruct (Nat.eqb_spec i j) as [->|Hn].
  - replace (length l - 1 - j)%nat with (length l - S j)%nat by lia.
    rewrite list_lookup_insert_eq; [done|lia].
  - rewrite list_lookup_insert_ne by lia. done.
Qed.

Lemma word_local p fr l ab n x :
  0 <= fr + n < Z.of_nat (length l) ->
  rev l !! Z.to_nat (fr + n) = Some x ->
  word (mk_cvm p fr l ab) (frame_at (mk_cvm p fr l ab) n) = Some x.
Proof.
  intros Hr Hx. unfold word, frame_at. simpl. rewrite (proj2 (Z.ltb_lt _ _)) by lia.
  rewrite rev_reverse, reverse_lookup in Hx by lia.
  by replace (Z.to_nat _) with (length l - S (Z.to_nat (fr + n)))%nat by lia.
Qed.

(** What the three forms of a store do, up to the length. *)
Lemma store_int_body p fr v l ab n len :
  0 <= fr + n < Z.of_nat (length l) ->
  exists x, i32 x = i32 v /\
    (v' ← intValue (mk_cvm p fr (v :: l) ab) (-1);
     st ← set_intValue (mk_cvm p fr (v :: l) ab) (frame_at (mk_cvm p fr (v :: l) ab) n) v';
     MODIFY_PC_AND_STACK st len (-1)) =
    Some (Next (mk_cvm (p + len) fr (<[(length l - 1 - Z.to_nat (fr + n))%nat := x]> l) (v :: ab))).
Proof.
  intros Hr. destruct (lookup_lt_is_Some_2 l (length l - 1 - Z.to_nat (fr + n))) as [old Hold]; [lia|].
  exists (set_low 32 old (i32 v)). split.
  { unfold set_low. change (2 ^ 32) with 0x100000000. width_lia. }
  unfold intValue, set_intValue. simpl word at 1. cbn [mbind option_bind].
  rewrite (word_local _ _ _ _ _ old); [|simpl; lia|].
  2:{ simpl rev. rewrite lookup_app_l by (rewrite length_rev; lia).
      rewrite rev_reverse, reverse_lookup by lia. by replace (length l - S _)%nat with
        (length l - 1 - Z.to_nat (fr + n))%nat by lia. }
  cbn [mbind option_bind]. unfold set_word, frame_at. simpl below. simpl frame. cbn [length].
  rewrite (proj2 (Z.ltb_lt _ _)) by lia.
  replace (Z.to_nat _) with (S (length l - 1 - Z.to_nat (fr + n))) by lia.
  unfold list_store. rewrite (proj2 (Nat.ltb_lt _ _)) by (simpl; lia). reflexivity.
Qed.

Lemma load_int_body p fr l w ab n len x :
  0 <= fr + n < Z.of_nat (length l) -> rev l !! Z.to_nat (fr + n) = Some x ->
  exists y, i32 y = i32 x /\
    (v ← intValue (mk_cvm p fr l (w :: ab)) (frame_at (mk_cvm p fr l (w :: ab)) n);
     st ← set_intValue (mk_cvm p fr l (w :: ab)) 0 v;
     MODIFY_PC_AND_STACK st len 1) =
    Some (Next (mk_cvm (p + len) fr (y :: l) ab)).
Proof.
  intros Hr Hx. exists (set_low 32 w (i32 x)). split.
  { unfold set_low. change (2 ^ 32) with 0x100000000. width_lia. }
  unfold intValue. rewrite (word_local _ _ _ _ _ x) by done. reflexivity.
Qed.

Lemma step_main c st op h bs :
  code_at c (pc st) (op :: bs) -> main_handler op = Some h -> step c st = h c st.
Proof.
  intros Hc Hh. unfold step.
  rewrite (pc_at_code _ _ _ 0 op Hc eq_refl : pc_at c (pc st) 0 = Some op).
  cbn [mbind option_bind]. by rewrite Hh.
Qed.

Lemma wide_arg c p op n bs :
  0 <= n <= IL_MAX_UINT32 ->
  bs = [COP_WIDE; op; u8 n; u8 (Z.shiftr n 8); u8 (Z.shiftr n 16); u8 (Z.shiftr n 24)] ->
  code_at c p bs -> CVM_ARG_SUB_OPCODE c p = Some op /\ CVM_ARG_WIDE_LARGE c p = Some n.
Proof.
  intros Hn -> Hc. unfold CVM_ARG_SUB_OPCODE, CVM_ARG_WIDE_LARGE, pc_uint32.
  pose proof (fun i b => pc_at_code _ _ _ i b Hc) as Hat.
  rewrite (Hat 1%nat _ eq_refl : pc_at c p 1 = _), (Hat 2%nat _ eq_refl : pc_at c p 2 = _),
    (Hat 3%nat _ eq_refl : pc_at c p (2 + 1) = _), (Hat 4%nat _ eq_refl : pc_at c p (2 + 2) = _),
    (Hat 5%nat _ eq_refl : pc_at c p (2 + 3) = _). cbn [mbind option_bind].
  split; [done|]. by rewrite word_bytes.
Qed.

Lemma byte_arg c p op n bs :
  0 <= n < 256 -> code_at c p (op :: n :: bs) -> CVM_ARG_WIDE_SMALL c p = Some n.
Proof.
  intros Hn Hc. unfold CVM_ARG_WIDE_SMALL, CVM_ARG_BYTE.
  rewrite (pc_at_code _ _ _ 1 n Hc eq_refl : pc_at c p 1 = Some n). simpl. f_equal. width_lia.
Qed.

Lemma step_store c st n v l :
  code_at c (pc st) (local_bytes COP_ISTORE_0 COP_ISTORE n) -> below st = v :: l ->
  0 <= n <= IL_MAX_UINT32 -> 0 <= frame st + n < Z.of_nat (length l) ->
  exists x, i32 x = i32 v /\
    step c st = Some (Next (mk_cvm (pc st + Z.of_nat (length (local_bytes COP_ISTORE_0 COP_ISTORE n)))
      (frame st) (<[(length l - 1 - Z.to_nat (frame st + n))%nat := x]> l) (v :: above st))).
Proof.
  destruct st as [p fr bl ab]. cbn [pc frame below above]. intros Hc -> Hn Hr.
  unfold local_bytes in *. destruct (Z.ltb_spec n 4); [|destruct (Z.ltb_spec n 256)].
  - destruct (store_int_body p fr v l ab n CVM_LEN_NONE Hr) as (x & Hx & E). exists x. split; [done|].
    rewrite (step_main _ (mk_cvm p fr (v :: l) ab) _ (exec_ISTORE_n n) _ Hc); [exact E|].
    assert (n = 0 \/ n = 1 \/ n = 2 \/ n = 3) as [->|[->|[->| ->]]] by lia; reflexivity.
  - destruct (store_int_body p fr v l ab n CVM_LEN_WIDE_SMALL Hr) as (x & Hx & E). exists x. split; [done|].
    rewrite (step_main _ (mk_cvm p fr (v :: l) ab) _ exec_ISTORE _ Hc eq_refl). unfold exec_ISTORE. cbn [pc].
    rewrite (byte_arg _ _ _ n _ ltac:(lia) Hc). exact E.
  - destruct (store_int_body p fr v l ab n CVM_LEN_WIDE_LARGE Hr) as (x & Hx & E). exists x. split; [done|].
    destruct (wide_arg _ _ _ _ _ Hn eq_refl Hc) as [Hop Harg].
    rewrite (step_main _ (mk_cvm p fr (v :: l) ab) _ wide_handler _ Hc eq_refl). unfold wide_handler. cbn [pc].
    rewrite Hop. cbn [mbind option_bind].
    change (find_handler COP_ISTORE wide_table) with (Some exec_ISTORE_WIDE). cbv iota.
    unfold exec_ISTORE_WIDE. cbn [pc]. rewrite Harg. exact E.
Qed.

Lemma step_load c st n x w ab :
  code_at c (pc st) (local_bytes COP_ILOAD_0 COP_ILOAD n) -> above st = w :: ab ->
  0 <= n <= IL_MAX_UINT32 -> 0 <= frame st + n < Z.of_nat (length (below st)) ->
  rev (below st) !! Z.to_nat (frame st + n) = Some x ->
  exists y, i32 y = i32 x /\
    step c st = Some (Next (mk_cvm (pc st + Z.of_nat (length (local_bytes COP_ILOAD_0 COP_ILOAD n)))
      (frame st) (y :: below st) ab)).
Proof.
  destruct st as [p fr l ab']. cbn [pc frame below above]. intros Hc -> Hn Hr Hx.
  unfold local_bytes in *. destruct (Z.ltb_spec n 4); [|destruct (Z.ltb_spec n 256)].
  - destruct (load_int_body p fr l w ab n CVM_LEN_NONE x Hr Hx) as (y & Hy & E). exists y. split; [done|].
    rewrite (step_main _ (mk_cvm p fr l (w :: ab)) _ (exec_ILOAD_n n) _ Hc); [exact E|].
    assert (n = 0 \/ n = 1 \/ n = 2 \/ n = 3) as [->|[->|[->| ->]]] by lia; reflexivity.
  - destruct (load_int_body p fr l w ab n CVM_LEN_WIDE_SMALL x Hr Hx) as (y & Hy & E). exists y. split; [done|].
    rewrite (step_main _ (mk_cvm p fr l (w :: ab)) _ exec_ILOAD _ Hc eq_refl). unfold exec_ILOAD. cbn [pc].
    rewrite (byte_arg _ _ _ n _ ltac:(lia) Hc). exact E.
  - destruct (load_int_body p fr l w ab n CVM_LEN_WIDE_LARGE x Hr Hx) as (y & Hy & E). exists y. split; [done|].
    destruct (wide_arg _ _ _ _ _ Hn eq_refl Hc) as [Hop Harg].
    rewrite (step_main _ (mk_cvm p fr l (w :: ab)) _ wide_handler _ Hc eq_refl). unfold wide_handler. cbn [pc].
    rewrite Hop. cbn [mbind option_bind].
    change (find_handler COP_ILOAD wide_table) with (Some exec_ILOAD_WIDE). cbv iota.
    unfold exec_ILOAD_WIDE. cbn [pc]. rewrite Harg. exact E.
Qed.

(** A store and the load behind it. *)
Lemma run_store_load c st n v l :
  code_at c (pc st)
    (local_bytes COP_ISTORE_0 COP_ISTORE n ++ local_bytes COP_ILOAD_0 COP_ILOAD n) ->
  below st = v :: l -> 0 <= n <= IL_MAX_UINT32 -> 0 <= frame st + n < Z.of_nat (length l) ->
  exists st', run 2 c st = Some (Next st') /\ frame st' = frame st /\
    exists y l', below st' = y :: l' /\ i32 y = i32 v /\ length l' = length l /\
      forall j, 0 <= j < Z.of_nat (length l) ->
        if j =? frame st + n then exists x, rev l' !! Z.to_nat j = Some x /\ i32 x = i32 v
        else rev l' !! Z.to_nat j = rev l !! Z.to_nat j.
Proof.
  intros [Hc1 Hc2]%code_at_app Hb Hn Hr.
  destruct (step_store _ _ _ _ _ Hc1 Hb Hn Hr) as (x & Hx & Hs).
  set (l' := <[(length l - 1 - Z.to_nat (frame st + n))%nat := x]> l) in *.
  assert (length l' = length l) as Hlen by apply length_insert.
  assert (forall j, 0 <= j < Z.of_nat (length l) -> rev l' !! Z.to_nat j =
    if Nat.eqb (Z.to_nat (frame st + n)) (Z.to_nat j) then Some x else rev l !! Z.to_nat j) as Hl'
    by (intros j Hj; apply rev_insert_lookup; lia).
  edestruct (step_load c (mk_cvm (pc st + Z.of_nat (length (local_bytes COP_ISTORE_0 COP_ISTORE n)))
    (frame st) l' (v :: above st)) n x v (above st))
    as (y & Hy & Hs2); [exact Hc2|done|done|simpl; lia| |].
  { simpl. rewrite Hl' by lia. by rewrite Nat.eqb_refl. }
  eexists. split; [simpl; rewrite Hs; simpl; rewrite Hs2; reflexivity|]. split; [done|].
  exists y, l'. split; [done|]. split; [congruence|]. split; [done|]. intros j Hj. rewrite Hl' by done.
  destruct (Z.eqb_spec j (frame st + n)) as [->|Hne].
  - rewrite Nat.eqb_refl. by exists x.
  - by rewrite (proj2 (Nat.eqb_neq _ _)) by lia.
Qed.
End Locals.
