(* ===== verification/BranchRun.v ===== *)
(** * Branches of the CVM coder on integers

    [reaches bs pre post room]: running [bs] with the cells [pre] on top of
    the stack, where the stack area has [room] words from their base on, ends
    behind [bs] with the cells [post] in their place.  Each conditional branch
    of IL is output as code that reaches the operands of one CVM branch, whose
    test then has the result that ILVars.v gives. *)
From Stdlib Require Import ZArith Lia.
From stdpp Require Import base list option numbers.
From S2P Require Import Prelude Opcodes Cvm CvmBranch Interp Coder CoderBranch ILSpec CvmProps CvmOps CvmConvOps CoderProps Refine RefineBlock BranchLayout CoderLabels ILVars Verdict.

Local Open Scope Z_scope.

Section Run.
Context {PF : Platform}.

(** ** Reaching cells *)

Definition reaches (bs : list Z) (pre post : list cell) (room : Z) : Prop :=
  forall c st ws base,
    code_at c (pc st) bs -> below st = ws ++ base -> holds pre ws ->
    room <= Z.of_nat (length ws) + Z.of_nat (length (above st)) ->
    exists n ws' ab',
      run n c st = Some (Next (mk_cvm (pc st + Z.of_nat (length bs)) (frame st) (ws' ++ base) ab')) /\
      holds post ws' /\ (length ws' + length ab' = length ws + length (above st))%nat.

Lemma performs_reaches bs pre post rest room :
  performs bs pre (inr post) -> cells_size (post ++ rest) <= room ->
  reaches bs (pre ++ rest) (post ++ rest) room.
Proof.
  intros Hp Hr c st ws base Hc Hb Hw Hroom. apply (performs_frame _ _ rest _ Hp c st ws base Hc Hb Hw).
  pose proof (holds_length _ _ Hw). lia.
Qed.

Lemma reaches_seq bs1 bs2 pre mid post room :
  reaches bs1 pre mid room -> reaches bs2 mid post room -> reaches (bs1 ++ bs2) pre post room.
Proof.
  intros H1 H2 c st ws base [Hc1 Hc2]%code_at_app Hb Hw Hroom.
  destruct (H1 c st ws base Hc1 Hb Hw Hroom) as (n & ws1 & ab1 & Hn & Hw1 & Hl1).
  destruct (H2 c (mk_cvm (pc st + Z.of_nat (length bs1)) (frame st) (ws1 ++ base) ab1) ws1 base
    Hc2 eq_refl Hw1 ltac:(simpl; lia)) as (m & ws2 & ab2 & Hm & Hw2 & Hl2).
  exists (n + m)%nat, ws2, ab2. rewrite (run_app _ _ _ _ _ Hn), Hm, length_app, Nat2Z.inj_add, Z.add_assoc.
  simpl in *. split; [done|]. split; [done|lia].
Qed.

(** ** One CVM branch *)

Definition branch_at (c : list Z) (p op d : Z) : Prop :=
  pc_at c p 0 = Some op /\ CVM_ARG_BRANCH_SHORT c p = Some d \/
  pc_at c p 0 = Some COP_BR_LONG /\ pc_at c p 1 = Some op /\ CVM_ARG_BRANCH_LONG c p = Some d.

Lemma branch_bytes_at c p op rel :
  is_byte op -> -0x80000000 <= rel < 0x80000000 -> code_at c p (branch_bytes op rel) ->
  branch_at c p op (p + rel).
Proof.
  intros Hop Hrel Hc. pose proof (fun i b => pc_at_code _ _ _ i b Hc) as Hat. clear Hc.
  unfold branch_bytes in Hat. destruct (is_short rel) eqn:Hs.
  - left. split; [rewrite <-(u8_id op Hop); exact (Hat 0%nat _ eq_refl)|].
    unfold CVM_ARG_BRANCH_SHORT, CVM_ARG_SBYTE. rewrite (Hat 1%nat _ eq_refl : pc_at c p 1 = _).
    simpl. do 2 f_equal. unfold is_short in Hs. bool_to_prop. width_lia.
  - right. split; [exact (Hat 0%nat _ eq_refl)|].
    split; [rewrite <-(u8_id op Hop); exact (Hat 1%nat _ eq_refl)|].
    unfold CVM_ARG_BRANCH_LONG, pc_uint32.
    rewrite (Hat 2%nat _ eq_refl : pc_at c p 2 = _), (Hat 3%nat _ eq_refl : pc_at c p (2 + 1) = _),
      (Hat 4%nat _ eq_refl : pc_at c p (2 + 2) = _), (Hat 5%nat _ eq_refl : pc_at c p (2 + 3) = _).
    cbn [mbind option_bind]. do 2 f_equal. rewrite !read_uint32_bytes, !shiftr_div by (apply u8_range || lia).
    change (2 ^ 8) with 0x100. change (2 ^ 16) with 0x10000. change (2 ^ 24) with 0x1000000.
    revert Hrel. width_lia.
Qed.

(** [op] pops the cells [pre] and goes to its target when [taken]. *)
Definition branches (op : Z) (pre : list cell) (taken : bool) : Prop :=
  forall c st ws base d,
    branch_at c (pc st) op d -> below st = ws ++ base -> holds pre ws ->
    exists ab', (length ab' = length ws + length (above st))%nat /\
      step c st = Some (Next (mk_cvm (if taken then d else pc st + CVM_LEN_BRANCH) (frame st) base ab')).

Lemma branches_always : branches COP_BR [] true.
Proof.
  intros c [p fr bl ab] ws base d Hat Hb Hw. simpl in *. subst ws bl. exists ab. split; [done|].
  unfold step. cbn [pc]. destruct Hat as [[Hp Hd]|(Hp & Hp1 & Hd)]; rewrite Hp; cbn [mbind option_bind].
  - change (main_handler COP_BR) with (Some exec_BR). cbn [mbind option_bind].
    unfold exec_BR. cbn [pc]. by rewrite Hd.
  - change (main_handler COP_BR_LONG) with (Some exec_BR_LONG). cbn [mbind option_bind].
    unfold exec_BR_LONG, CVM_ARG_SUB_OPCODE. cbn [pc]. rewrite Hp1. cbn [mbind option_bind].
    change (COP_BR =? COP_JSR) with false. cbv iota.
    change (list_find (fun p => fst p = COP_BR) br_long_table) with (None (A := nat * (Z * (list Z -> cvm -> option outcome)))).
    unfold exec_BR_LONG_BR. cbn [pc]. by rewrite Hd.
Qed.

Lemma branches_test op (test : bool) n :
  op = (if test then COP_BRTRUE else COP_BRFALSE) ->
  branches op [(W32, n)] (xorb test (n =? 0)).
Proof.
  intros -> c [p fr bl ab] ws base d Hat Hb (x & -> & Hx)%holds_single. simpl in *. subst bl.
  assert (forall c' dest, branch_if c' (Some dest) 1 (mk_cvm p fr (x :: base) ab) =
    Some (Next (mk_cvm (if c' then dest else p + CVM_LEN_BRANCH) fr base (x :: ab)))) as Hif by (by intros []).
  exists (x :: ab). split; [simpl; lia|]. subst n.
  assert (forall v, (if test then negb (v =? 0) else v =? 0) = xorb test (v =? 0)) as Ht
    by (intros v; destruct test; [done|by rewrite xorb_false_l]).
  rewrite <-Ht. unfold step. cbn [pc].
  destruct Hat as [[Hp Hd]|(Hp & Hp1 & Hd)]; rewrite Hp; cbn [mbind option_bind].
  - destruct test; [change (main_handler COP_BRTRUE) with (Some exec_BRTRUE)
                   |change (main_handler COP_BRFALSE) with (Some exec_BRFALSE)]; cbn [mbind option_bind];
      unfold exec_BRTRUE, exec_BRFALSE; rewrite <-Hif, <-Hd; reflexivity.
  - change (main_handler COP_BR_LONG) with (Some exec_BR_LONG). cbn [mbind option_bind].
    unfold exec_BR_LONG, CVM_ARG_SUB_OPCODE. cbn [pc]. rewrite Hp1. cbn [mbind option_bind].
    destruct test; rewrite <-Hif, <-Hd; reflexivity.
Qed.

Lemma branches_int op (test : bool * (Z -> Z -> bool)) a b :
  (op, test) ∈ int_branches ->
  branches op [(W32, b); (W32, a)] (snd test (if fst test then a else u32 a) (if fst test then b else u32 b)).
Proof.
  intros Hop c st ws base d Hat Hb (w1 & w2 & -> & (y & -> & <-) & (x & -> & <-)%holds_single).
  simpl in Hb. exists (x :: y :: above st). split; [simpl; lia|].
  rewrite (step_int_branch _ _ _ _ _ _ _ _ Hop Hb Hat). unfold branched.
  destruct (fst test); [done|]. by rewrite !u32_i32.
Qed.

(** ** The output of a branch of IL *)

(** From [coder] to [coder'], code for a branch to [dest] is output that pops
    the cells [pre], with a word of the largest kind to spare, and is [taken]
    or not. *)
Definition compiles_branch (coder coder' : ILCVMCoder) (dest : Z) (pre : list cell) (taken : bool)
    : Prop :=
  exists c1 bs op operands,
    Coder.code c1 = Coder.code coder ++ bs /\ same_labels coder c1 /\ is_byte op /\
    Coder.code coder' = Coder.code (OutputBranch c1 op dest) /\
    labelList coder' = labelList (OutputBranch c1 op dest) /\
    branches op operands taken /\
    forall rest room, cells_size (pre ++ rest) + CVM_WORDS_PER_LONG <= room ->
      reaches bs (pre ++ rest) (operands ++ rest) room.

Lemma POSN_OutputBranch c op dest : CVM_POSN (OutputBranch c op dest) = CVM_POSN c + 6.
Proof.
  unfold OutputBranch. destruct (GetLabel c dest) as [c1 l] eqn:E.
  destruct (GetLabel_spec _ _ _ _ E) as (Hc & _). unfold CVM_POSN.
  destruct (label_offset l); [rewrite code_out_branch, length_app, length_branch_bytes, Hc; lia|].
  cbn -[u8 Z.shiftr]. rewrite !length_app, Hc. simpl. lia.
Qed.

(** The output of a branch, as chunks. *)
Lemma branch_laid c c1 c' chs bs op dest :
  laid c chs -> Coder.code c1 = Coder.code c ++ bs -> same_labels c c1 ->
  Coder.code c' = Coder.code (OutputBranch c1 op dest) -> labelList c' = labelList (OutputBranch c1 op dest) ->
  CVM_POSN c' < 0x80000000 ->
  laid c' (chs ++ [Bytes bs; Br op dest]) /\ forall a, labelled c' a = labelled c a.
Proof.
  intros Hl Hc1 [Hl1 _] Hc' Hl' Hp.
  assert (CVM_POSN c' = CVM_POSN c1 + 6) as Hp' by (rewrite <-(POSN_OutputBranch c1 op dest); unfold CVM_POSN; by rewrite Hc').
  pose proof (laid_bytes _ _ _ _ Hl Hc1 Hl1) as Hlaid1.
  destruct (OutputBranch_laid _ _ op dest Hlaid1 ltac:(lia)) as [H2 HL].
  rewrite <-app_assoc in H2. split; [by eapply laid_same|].
  intros a. transitivity (labelled (OutputBranch c1 op dest) a); [unfold labelled; by rewrite Hl'|].
  rewrite HL. unfold labelled. by rewrite Hl1.
Qed.

Lemma reaches_nil pre room : reaches [] pre pre room.
Proof.
  intros c [p fr bl ab] ws base _ Hb Hw _. simpl in *. subst bl. exists 0%nat, ws, ab.
  simpl. by rewrite Z.add_0_r.
Qed.

Lemma goto_compiles coder dest :
  compiles_branch coder (OutputBranch coder COP_BR dest) dest [] true.
Proof.
  exists coder, [], COP_BR, []. rewrite app_nil_r. split; [done|]. split; [done|].
  split; [done|]. split; [done|]. split; [done|]. split; [apply branches_always|].
  intros rest room _. apply reaches_nil.
Qed.

Lemma performs_zero : performs [COP_LDC_I4_0] [] (inr [(W32, 0)]).
Proof. exact (performs_ldc_value IL_OP_LDC_I4_0 eq_refl). Qed.

(** A comparison with 0 behind one of two longs. *)
Lemma compared_reaches w bs lop a b x y rest room pre :
  performs bs pre (inr [(w, b); (w, a)]) ->
  performs [COP_PREFIX; lop] [(w, b); (w, a)] (inr [(W32, three_way x y)]) ->
  cells_size [(w, b); (w, a)] <= cells_size pre ->
  cells_size (pre ++ rest) + CVM_WORDS_PER_LONG <= room ->
  reaches (bs ++ [COP_PREFIX; lop] ++ [COP_LDC_I4_0]) (pre ++ rest)
    ([(W32, 0); (W32, three_way x y)] ++ rest) room.
Proof.
  intros H1 H2 Hs Hr. rewrite cells_size_app in Hr. pose proof (words_of_pos w) as Hw.
  pose proof (words_of_pos W64) as Hl. simpl in Hs, Hl.
  eapply reaches_seq; [apply (performs_reaches _ _ _ rest _ H1)|
    eapply reaches_seq; [apply (performs_reaches _ _ _ rest _ H2)|]].
  - rewrite cells_size_app. simpl. lia.
  - rewrite cells_size_app. simpl. lia.
  - apply (performs_reaches _ [] _ ([(W32, three_way x y)] ++ rest) _ performs_zero).
    simpl. fold (cells_size rest). lia.
Qed.

Lemma OutputCondBranch_compiles coder un v1 v2 w t a b taken iop lop fop cmpop dest
    (itest ctest : bool * (Z -> Z -> bool)) x y :
  widen un v1 v2 = Some (w, t, a, b) ->
  (iop, itest) ∈ int_branches -> (cmpop, ctest) ∈ int_branches -> fst ctest = true ->
  (w = W32 -> snd itest (if fst itest then a else u32 a) (if fst itest then b else u32 b) = taken) ->
  (w = W64 -> performs [COP_PREFIX; lop] [(w, b); (w, a)] (inr [(W32, three_way x y)]) /\ u8 lop = lop /\
    snd ctest (three_way x y) 0 = taken) ->
  compiles_branch coder
    (let '(c, t1, _) := AdjustMixedBinary coder un (type_of v1) (type_of v2) in
     OutputCondBranch c iop lop fop cmpop t1 dest) dest (cells [v2; v1]) taken.
Proof.
  intros Hw Hi Hc Hct H32 H64.
  destruct (adjust_mixed_performs coder _ _ _ _ _ _ _ Hw) as (c0 & bs & Ha & Hbs & Hp).
  pose proof (adjust_mixed_labels coder un (type_of v1) (type_of v2)) as Hl. rewrite Ha in *. simpl in Hl.
  pose proof (widen_size _ _ _ _ _ _ _ Hw) as Hs.
  assert (forall op test, (op, test) ∈ int_branches -> is_byte op) as Hbyte.
  { intros op test. unfold int_branches. rewrite !elem_of_cons, elem_of_nil. unfold is_byte.
    intros H. repeat (destruct H as [H|H]; [injection H as -> _; split; [discriminate|reflexivity]|]). done. }
  destruct w.
  - exists c0, bs, iop, [(W32, b); (W32, a)]. split; [done|]. split; [done|]. split; [by eapply Hbyte|].
    split; [done|]. split; [done|]. split; [rewrite <-(H32 eq_refl); by apply branches_int|].
    intros rest room Hr. apply (performs_reaches _ _ _ rest _ Hp).
    rewrite cells_size_app in *. rewrite Hs. pose proof (words_of_pos W64) as Hl'. simpl in Hl'. lia.
  - destruct (H64 eq_refl) as (Hlop & Hu & Htk).
    exists (out_compared c0 lop (- (CVM_WORDS_PER_LONG * 2) + 1)), (bs ++ [COP_PREFIX; lop] ++ [COP_LDC_I4_0]),
      cmpop, [(W32, 0); (W32, three_way x y)].
    split; [cbn -[u8]; rewrite Hbs, Hu, <-!app_assoc; done|].
    split; [done|]. split; [by eapply Hbyte|]. split; [done|]. split; [done|]. split.
    + pose proof (branches_int cmpop ctest (three_way x y) 0 Hc) as Hb. rewrite Hct in Hb. by rewrite <-Htk.
    + intros rest room Hr. eapply compared_reaches; [exact Hp|exact Hlop|lia|exact Hr].
Qed.

Lemma three_way_0 n : (three_way n 0 =? 0) = (n =? 0).
Proof. by destruct (three_way_tests n 0) as [-> _]. Qed.

(** brtrue and brfalse. *)
Lemma unary_branch_compiles coder op null_op dest v (test : bool) :
  op = (if test then COP_BRTRUE else COP_BRFALSE) ->
  compiles_branch coder (unary_branch coder op null_op dest (type_of v)) dest (cells [v])
    (xorb test (number v =? 0)).
Proof.
  intros Hop. assert (is_byte op) as Hbyte by (by destruct test; subst op).
  pose proof (words_of_pos W64) as Hl. simpl in Hl.
  assert (unary_branch coder op null_op dest (type_of v) =
    match width_of v with
    | W32 => CVM_ADJUST (OutputBranch coder op dest) (-1)
    | W64 =>
      CVM_ADJUST (OutputBranch
        (CVM_ADJUST (CVMP_OUT_NONE (CVM_ADJUST (CVM_OUT_NONE (CVM_OUT_NONE coder COP_LDC_I4_0) COP_I2L)
           CVM_WORDS_PER_LONG) COP_PREFIX_LCMP) (- (CVM_WORDS_PER_LONG * 2) + 1)) op dest) (-1)
    end) as ->.
  { unfold unary_branch. destruct v; cbn [width_of type_of]; unfold native;
      destruct IL_NATIVE_INT64; reflexivity. }
  unfold cells, map, cell_of. destruct (width_of v).
  - exists coder, [], op, [(W32, number v)]. rewrite app_nil_r. split; [done|]. split; [done|].
    split; [done|]. split; [done|]. split; [done|]. split; [by apply branches_test|].
    intros rest room _. apply reaches_nil.
  - lazymatch goal with |- context [OutputBranch ?c op dest] => exists c end.
    exists ([COP_LDC_I4_0] ++ [COP_I2L] ++ [COP_PREFIX; COP_PREFIX_LCMP]), op,
      [(W32, three_way (number v) 0)].
    split; [cbn -[u8]; rewrite <-!app_assoc; reflexivity|]. split; [repeat split|].
    split; [done|]. split; [done|]. split; [done|].
    split; [rewrite <-three_way_0; by apply branches_test|].
    intros rest room Hr. rewrite cells_size_app in Hr. simpl in Hr. fold (cells_size rest) in Hr.
    eapply reaches_seq; [|eapply reaches_seq].
    + apply (performs_reaches _ [] _ ([(W64, number v)] ++ rest) _ performs_zero). simpl.
      fold (cells_size rest). lia.
    + apply (performs_reaches _ [_] _ ([(W64, number v)] ++ rest) _ (performs_I2L 0)). simpl.
      fold (cells_size rest). lia.
    + apply (performs_reaches _ [_; _] _ rest _ (performs_LCMP (number v) 0)). simpl.
      fold (cells_size rest). lia.
Qed.

Lemma unary_branch_cases opcode coder dest t1 t2 :
  (listed opcode true_opcodes = true ->
   CVMCoder_Branch coder opcode dest t1 t2 = unary_branch coder COP_BRTRUE COP_BRNONNULL dest t1) /\
  (listed opcode false_opcodes = true ->
   CVMCoder_Branch coder opcode dest t1 t2 = unary_branch coder COP_BRFALSE COP_BRNULL dest t1).
Proof.
  unfold listed, true_opcodes, false_opcodes. simpl existsb. split; intros H;
    repeat (apply orb_true_iff in H as [->%Z.eqb_eq|H]); done.
Qed.

Lemma goto_branch opcode coder dest t1 t2 :
  listed opcode goto_opcodes = true ->
  CVMCoder_Branch coder opcode dest t1 t2 = OutputBranch coder COP_BR dest.
Proof.
  unfold listed, goto_opcodes. simpl existsb. intros H.
  repeat (apply orb_true_iff in H as [->%Z.eqb_eq|H]); done.
Qed.

(** Where the widths are the same, the way of widening does not matter. *)
Lemma widen_unmixed opcode v1 v2 rest r :
  wf_value v1 -> wf_value v2 -> mixed_branch opcode (v2 :: v1 :: rest) = false ->
  widen false v1 v2 = Some r -> widen (unsigned_branch opcode) v1 v2 = Some r.
Proof.
  intros W1 W2. unfold mixed_branch. destruct (unsigned_branch opcode); [|done]. cbn [andb].
  intros E%negb_false_iff%bool_decide_eq_true. destruct v1 as [a|a|a], v2 as [b|b|b]; try done; simpl in *;
    unfold native in *; (destruct IL_NATIVE_INT64; [done|]); simpl in *; by rewrite i32_u32, ?W1, ?W2.
Qed.

(** The branches on two operands. *)
Lemma binary_branch_compiles coder opcode dest v1 v2 w t a b taken :
  widen (unsigned_branch opcode) v1 v2 = Some (w, t, a, b) -> int_branch w opcode a b = Some taken ->
  compiles_branch coder (CVMCoder_Branch coder opcode dest (type_of v1) (type_of v2)) dest
    (cells [v2; v1]) taken.
Proof.
  intros Hw. unfold int_branch.
  destruct (three_way_tests a b) as (E1 & E2 & E3 & E4 & E5).
  destruct (three_way_tests (u64 a) (u64 b)) as (_ & U2 & U3 & U4 & U5).
  pose proof (performs_LCMP a b) as HL. pose proof (performs_LCMP_UN a b) as HU.
  repeat match goal with
  | |- (if listed opcode ?l then _ else _) = _ -> _ =>
      destruct (listed opcode l) eqn:H;
        [apply orb_true_iff in H as [->%Z.eqb_eq|[->%Z.eqb_eq|H]%orb_true_iff]; [..|discriminate H];
         intros [= <-];
         (eapply OutputCondBranch_compiles;
          [exact Hw
          |unfold int_branches; repeat first [apply list_elem_of_here | apply list_elem_of_further]
          |unfold int_branches; repeat first [apply list_elem_of_here | apply list_elem_of_further]
          |reflexivity
          |intros ->; reflexivity
          |intros ->; split; [first [exact HL|exact HU]|split; [reflexivity|cbn [snd uns]]]])
        |clear H]
  end; [..|done].
  all: rewrite ?E1, ?E2, ?E3, ?E4, ?E5, ?U2, ?U3, ?U4, ?U5, ?Z.leb_antisym; try reflexivity.
Qed.

End Run.
