(* ===== verification/Frame.v ===== *)
(** * Variables in the frame of the CVM

    Loads and stores of integer variables: what the instructions of cvm_var.c
    that the coder outputs do to the words of the frame, and that the code of
    LoadLocal and StoreLocal moves a value between the evaluation stack and
    the slot of the variable.  Of the frame only the slot changes. *)
From Stdlib Require Import ZArith Lia.
From stdpp Require Import base list option numbers.
From S2P Require Import Prelude Opcodes Cvm CvmVar Interp JumpMask Scan Coder CoderBranch Types CoderVar ILSpec CvmProps CvmOps CvmConvOps CoderProps CoderLabels Refine ILVars Verdict.

Local Open Scope Z_scope.

(** ** Slots *)

Section Frame.
Context {PF : Platform}.

Definition vt_width (t : vtype) : width :=
  match t with V_U1 | V_I4 => W32 | V_I8 => W64 | V_I => native end.
Definition vt_words (t : vtype) : Z := words_of (vt_width t).

(** The words of a slot, top first; of a byte only the low bits count. *)
Definition slot_words (t : vtype) (v : value) (ws : list Z) : Prop :=
  match t with
  | V_U1 => exists w, ws = [w] /\ v = VI4 (u8 w)
  | _ => cell_words (vt_width t) (number v) ws
  end.

Lemma var_value_width t v : var_value t v -> width_of v = vt_width t.
Proof. intros [_ H]. destruct t, v; done. Qed.

Lemma slot_words_length t v ws : slot_words t v ws -> Z.of_nat (length ws) = vt_words t.
Proof.
  destruct t; [by intros (w & -> & _)|exact (cell_words_length _ _ _)..].
Qed.

(** ** The instructions *)

Lemma step_wide c st op h bs :
  code_at c (pc st) (COP_WIDE :: op :: bs) -> find_handler op wide_table = Some h -> step c st = h c st.
Proof.
  intros Hc Hh. rewrite (step_main _ _ _ wide_handler _ Hc eq_refl). unfold wide_handler, CVM_ARG_SUB_OPCODE.
  rewrite (pc_at_code _ _ _ 1 op Hc eq_refl : pc_at c (pc st) 1 = Some op).
  cbn [mbind option_bind]. by rewrite Hh.
Qed.

(** The body of each of the three forms of a load or store of an int. *)
Definition int_load (n len : Z) (st : cvm) : option outcome :=
  v ← intValue st (frame_at st n); st ← set_intValue st 0 v; MODIFY_PC_AND_STACK st len 1.
Definition int_store (n len : Z) (st : cvm) : option outcome :=
  v ← intValue st (-1); st ← set_intValue st (frame_at st n) v; MODIFY_PC_AND_STACK st len (-1).

Lemma step_int_slot c st n :
  0 <= n <= IL_MAX_UINT32 ->
  (code_at c (pc st) (local_bytes COP_ILOAD_0 COP_ILOAD n) ->
   step c st = int_load n (Z.of_nat (length (local_bytes COP_ILOAD_0 COP_ILOAD n))) st) /\
  (code_at c (pc st) (local_bytes COP_ISTORE_0 COP_ISTORE n) ->
   step c st = int_store n (Z.of_nat (length (local_bytes COP_ISTORE_0 COP_ISTORE n))) st).
Proof.
  intros Hn. unfold local_bytes. destruct (Z.ltb_spec n 4); [|destruct (Z.ltb_spec n 256)].
  - assert (n = 0 \/ n = 1 \/ n = 2 \/ n = 3) as [->|[->|[->| ->]]] by lia;
      (split; intros Hc; (rewrite (step_main _ _ _ _ _ Hc eq_refl); reflexivity)).
  - split; intros Hc; rewrite (step_main _ _ _ _ _ Hc eq_refl); unfold exec_ILOAD, exec_ISTORE;
      rewrite (byte_arg _ _ _ n _ ltac:(lia) Hc); reflexivity.
  - split; intros Hc; destruct (wide_arg _ _ _ _ _ Hn eq_refl Hc) as [_ Harg];
      rewrite (step_wide _ _ _ _ _ Hc eq_refl); unfold exec_ILOAD_WIDE, exec_ISTORE_WIDE;
      rewrite Harg; reflexivity.
Qed.

(** The two forms of a copy of [k] words. *)
Definition words_load (n k len : Z) (st : cvm) : option outcome :=
  st ← memcpy_words (Z.to_nat k) st 0 (frame_at st n); MODIFY_PC_AND_STACK st len k.
Definition words_store (n k len : Z) (st : cvm) : option outcome :=
  st ← move_stack st (- k);
  st ← memcpy_words (Z.to_nat k) st (frame_at st n) 0; MODIFY_PC_AND_STACK st len 0.

Definition word_bytes (n : Z) : list Z :=
  [u8 n; u8 (Z.shiftr n 8); u8 (Z.shiftr n 16); u8 (Z.shiftr n 24)].
Definition dwide_bytes (op n k : Z) : list Z :=
  if (n <? 256) && (k <? 256) then [op; n; k] else COP_WIDE :: op :: word_bytes n ++ word_bytes k.

Lemma dwide_args c p op n k :
  0 <= n <= IL_MAX_UINT32 -> 0 <= k <= IL_MAX_UINT32 ->
  code_at c p (COP_WIDE :: op :: word_bytes n ++ word_bytes k) ->
  CVM_ARG_DWIDE1_LARGE c p = Some n /\ CVM_ARG_DWIDE2_LARGE c p = Some k.
Proof.
  intros Hn Hk Hc. pose proof (fun i b => pc_at_code _ _ _ i b Hc) as Hat.
  unfold CVM_ARG_DWIDE1_LARGE, CVM_ARG_DWIDE2_LARGE, pc_uint32.
  rewrite (Hat 2%nat _ eq_refl : pc_at c p 2 = _), (Hat 3%nat _ eq_refl : pc_at c p (2 + 1) = _),
    (Hat 4%nat _ eq_refl : pc_at c p (2 + 2) = _), (Hat 5%nat _ eq_refl : pc_at c p (2 + 3) = _),
    (Hat 6%nat _ eq_refl : pc_at c p 6 = _), (Hat 7%nat _ eq_refl : pc_at c p (6 + 1) = _),
    (Hat 8%nat _ eq_refl : pc_at c p (6 + 2) = _), (Hat 9%nat _ eq_refl : pc_at c p (6 + 3) = _).
  cbn [mbind option_bind]. by rewrite !Prelude.word_bytes.
Qed.

Lemma dwide_small_args c p op n k bs :
  0 <= n < 256 -> 0 <= k < 256 -> code_at c p (op :: n :: k :: bs) ->
  CVM_ARG_DWIDE1_SMALL c p = Some n /\ CVM_ARG_DWIDE2_SMALL c p = Some k.
Proof.
  intros Hn Hk Hc. unfold CVM_ARG_DWIDE1_SMALL, CVM_ARG_DWIDE2_SMALL, CVM_ARG_BYTE, CVM_ARG_BYTE2.
  rewrite (pc_at_code _ _ _ 1 n Hc eq_refl : pc_at c p 1 = _).
  rewrite (pc_at_code _ _ _ 2 k Hc eq_refl : pc_at c p 2 = _). simpl. split; f_equal; width_lia.
Qed.

Lemma step_words_slot c st n k :
  0 <= n <= IL_MAX_UINT32 -> 0 <= k < 256 ->
  (code_at c (pc st) (dwide_bytes COP_MLOAD n k) ->
   step c st = words_load n k (Z.of_nat (length (dwide_bytes COP_MLOAD n k))) st) /\
  (code_at c (pc st) (dwide_bytes COP_MSTORE n k) ->
   step c st = words_store n k (Z.of_nat (length (dwide_bytes COP_MSTORE n k))) st).
Proof.
  intros Hn Hk. unfold dwide_bytes. rewrite (proj2 (Z.ltb_lt k 256)) by lia. rewrite andb_true_r.
  destruct (Z.ltb_spec n 256).
  - split; intros Hc; destruct (dwide_small_args _ _ _ n k _ ltac:(lia) ltac:(lia) Hc) as [A1 A2];
      rewrite (step_main _ _ _ _ _ Hc eq_refl); unfold exec_MLOAD, exec_MSTORE; rewrite A1, A2; reflexivity.
  - split; intros Hc; destruct (dwide_args _ _ _ n k ltac:(lia) ltac:(unfold IL_MAX_UINT32; lia) Hc) as [A1 A2];
      rewrite (step_wide _ _ _ _ _ Hc eq_refl); unfold exec_MLOAD_WIDE, exec_MSTORE_WIDE;
      rewrite A1, A2; reflexivity.
Qed.

(** ** Their effect

    The machine with the words [pre] on top of those [sw] of the variable [n]
    of the frame, and [l2] below. *)
Lemma frame_at_slot p fr pre (sw l2 ab : list Z) n :
  Z.of_nat (length l2) = fr + n ->
  frame_at (mk_cvm p fr (pre ++ sw ++ l2) ab) n = - (Z.of_nat (length pre) + Z.of_nat (length sw)).
Proof. intros E. unfold frame_at. simpl. rewrite !length_app. lia. Qed.

Lemma set_word_above p fr l x ab y :
  set_word (mk_cvm p fr l (x :: ab)) 0 y = Some (mk_cvm p fr l (y :: ab)).
Proof. done. Qed.

Lemma int_load_slot p fr pre x l2 w ab n len :
  Z.of_nat (length l2) = fr + n ->
  exists y, i32 y = i32 x /\
    int_load n len (mk_cvm p fr (pre ++ [x] ++ l2) (w :: ab)) =
    Some (Next (mk_cvm (p + len) fr (y :: pre ++ [x] ++ l2) ab)).
Proof.
  intros E. exists (set_low 32 w (i32 x)). split; [rewrite set_low_32; width_lia|].
  unfold int_load. rewrite (frame_at_slot _ _ _ [x]) by done.
  rewrite (read_below W32 true (i32 x) pre [x] l2 p fr (w :: ab) _ ltac:(by exists x) eq_refl
    : intValue _ (- (Z.of_nat (length pre) + Z.of_nat (length [x]))) = _). reflexivity.
Qed.

Lemma word_slot p fr pre x l2 ab n :
  Z.of_nat (length l2) = fr + n ->
  let st := mk_cvm p fr (pre ++ [x] ++ l2) ab in
  word st (frame_at st n) = Some x /\
  forall y, set_word st (frame_at st n) y = Some (mk_cvm p fr (pre ++ [y] ++ l2) ab).
Proof.
  intros E st. unfold st. rewrite (frame_at_slot _ _ _ [x]) by done. simpl length.
  split; [|intros y]; [apply (word_below p fr pre x l2)|apply (set_word_below p fr pre x l2)]; simpl; lia.
Qed.

Lemma int_store_slot p fr v pre x l2 ab n len :
  Z.of_nat (length l2) = fr + n ->
  exists y, i32 y = i32 v /\
    int_store n len (mk_cvm p fr (v :: pre ++ [x] ++ l2) ab) =
    Some (Next (mk_cvm (p + len) fr (pre ++ [y] ++ l2) (v :: ab))).
Proof.
  intros E. exists (set_low 32 x (i32 v)). split; [rewrite set_low_32; width_lia|].
  destruct (word_slot p fr (v :: pre) x l2 ab n E) as [Hw Hs].
  change (v :: pre ++ [x] ++ l2) with ((v :: pre) ++ [x] ++ l2).
  unfold int_store, intValue, set_intValue.
  change (word (mk_cvm p fr ((v :: pre) ++ [x] ++ l2) ab) (-1)) with (Some v). cbn [mbind option_bind].
  rewrite Hw. cbn [mbind option_bind]. rewrite Hs. reflexivity.
Qed.

(** The words of a pair, from the lower one. *)
Lemma word_pair p fr pre x y l2 ab k :
  k = - (Z.of_nat (length pre) + 2) ->
  let st x y := mk_cvm p fr (pre ++ x :: y :: l2) ab in
  word (st x y) k = Some y /\ word (st x y) (k + 1) = Some x /\
  (forall z, set_word (st x y) k z = Some (st x z)) /\
  (forall z, set_word (st x y) (k + 1) z = Some (st z y)).
Proof.
  intros Hk st. assert (forall x y, st x y = mk_cvm p fr ((pre ++ [x]) ++ y :: l2) ab) as E
    by (intros; unfold st; by rewrite <-app_assoc).
  split; [|split; [|split; intros z]].
  - rewrite E. apply word_below. rewrite length_app. simpl. lia.
  - apply word_below. lia.
  - rewrite !E. apply set_word_below. rewrite length_app. simpl. lia.
  - apply set_word_below. lia.
Qed.

Lemma words_load_slot p fr pre sw l2 old ab n k len :
  Z.of_nat (length l2) = fr + n -> Z.of_nat (length sw) = k -> 1 <= k <= 2 -> length old = length sw ->
  words_load n k len (mk_cvm p fr (pre ++ sw ++ l2) (old ++ ab)) =
    Some (Next (mk_cvm (p + len) fr (sw ++ pre ++ sw ++ l2) ab)).
Proof.
  intros E Hk Hr Hold. unfold words_load. rewrite frame_at_slot, Hk by done.
  destruct sw as [|x [|y [|]]], old as [|o1 [|o2 [|]]]; simpl in Hk, Hold; try lia; subst k.
  - simpl memcpy_words. rewrite (word_below p fr pre x l2) by (simpl; lia). reflexivity.
  - change (Z.to_nat _) with 2%nat. cbn [memcpy_words app].
    rewrite (proj1 (word_pair p fr pre x y l2 _ _ eq_refl)). cbn [mbind option_bind].
    rewrite set_word_above. cbn [mbind option_bind].
    rewrite (proj1 (proj2 (word_pair p fr pre x y l2 _ _ eq_refl))). reflexivity.
Qed.

Lemma words_store_slot p fr ws pre sw l2 ab n k len :
  Z.of_nat (length l2) = fr + n -> Z.of_nat (length sw) = k -> 1 <= k <= 2 -> length ws = length sw ->
  words_store n k len (mk_cvm p fr (ws ++ pre ++ sw ++ l2) ab) =
    Some (Next (mk_cvm (p + len) fr (pre ++ ws ++ l2) (rev ws ++ ab))).
Proof.
  intros E Hk Hr Hold. unfold words_store. rewrite move_stack_below by lia. cbn [mbind option_bind].
  rewrite frame_at_slot, Hk by done.
  destruct sw as [|x [|y [|]]], ws as [|o1 [|o2 [|]]]; simpl in Hk, Hold; try lia; subst k.
  - simpl memcpy_words. rewrite (set_word_below p fr pre x l2) by (simpl; lia). simpl.
    unfold MODIFY_PC_AND_STACK. simpl. reflexivity.
  - change (Z.to_nat _) with 2%nat. cbn [memcpy_words app rev].
    set (ab2 := o2 :: o1 :: ab).
    change (word (mk_cvm p fr (pre ++ x :: y :: l2) ab2) 0) with (Some o2). cbn [mbind option_bind].
    rewrite (proj1 (proj2 (proj2 (word_pair p fr pre x y l2 ab2 _ eq_refl)))). cbn [mbind option_bind].
    change (word (mk_cvm p fr (pre ++ x :: o2 :: l2) ab2) (0 + 1)) with (Some o1). cbn [mbind option_bind].
    rewrite (proj2 (proj2 (proj2 (word_pair p fr pre x o2 l2 ab2 _ eq_refl)))). reflexivity.
Qed.

(** The byte forms. *)
Lemma byte_load_slot c p fr pre x l2 w ab n bs :
  code_at c p (COP_BLOAD :: n :: bs) -> 0 <= n < 256 -> Z.of_nat (length l2) = fr + n ->
  exists y, i32 y = u8 x /\
    step c (mk_cvm p fr (pre ++ [x] ++ l2) (w :: ab)) =
    Some (Next (mk_cvm (p + 2) fr (y :: pre ++ [x] ++ l2) ab)).
Proof.
  intros Hc Hn E. exists (set_low 32 w (u8 x)). split; [rewrite set_low_32; width_lia|].
  rewrite (step_main _ (mk_cvm p fr _ _) _ _ _ Hc eq_refl). unfold exec_BLOAD. cbn [pc].
  rewrite (byte_arg _ _ _ n _ Hn Hc : CVM_ARG_BYTE c p = Some n). cbn [mbind option_bind].
  destruct (word_slot p fr pre x l2 (w :: ab) n E) as [-> _]. reflexivity.
Qed.

Lemma byte_store_slot c p fr v pre x l2 ab n bs :
  code_at c p (COP_BSTORE :: n :: bs) -> 0 <= n < 256 -> Z.of_nat (length l2) = fr + n ->
  exists y, u8 y = u8 v /\
    step c (mk_cvm p fr (v :: pre ++ [x] ++ l2) ab) =
    Some (Next (mk_cvm (p + 2) fr (pre ++ [y] ++ l2) (v :: ab))).
Proof.
  intros Hc Hn E. exists (set_low 8 x (u8 (i32 v))). split.
  { unfold set_low. change (2 ^ 8) with 0x100. width_lia. }
  rewrite (step_main _ (mk_cvm p fr _ _) _ _ _ Hc eq_refl). unfold exec_BSTORE. cbn [pc].
  rewrite (byte_arg _ _ _ n _ Hn Hc : CVM_ARG_BYTE c p = Some n). cbn [mbind option_bind].
  destruct (word_slot p fr (v :: pre) x l2 ab n E) as [Hw Hs].
  change (v :: pre ++ [x] ++ l2) with ((v :: pre) ++ [x] ++ l2). unfold intValue.
  change (word (mk_cvm p fr ((v :: pre) ++ [x] ++ l2) ab) (-1)) with (Some v). cbn [mbind option_bind].
  rewrite Hw. cbn [mbind option_bind]. rewrite Hs. reflexivity.
Qed.

(** ** The code of the coder *)

Lemma code_out_slot coder op_0 op n :
  0 <= n -> (forall i, 0 <= i < 4 -> u8 (op_0 + i) = op_0 + i) -> u8 op = op ->
  Coder.code (out_slot coder op_0 op n) = Coder.code coder ++ local_bytes op_0 op n.
Proof.
  intros Hn H0 Hop. unfold out_slot, local_bytes, CVM_OUT_NONE, CVM_OUT_WIDE.
  destruct (Z.ltb_spec n 4); [simpl; by rewrite H0 by lia|].
  destruct (Z.ltb_spec n 256); cbn -[u8 Z.shiftr]; rewrite <-!app_assoc, Hop; [|reflexivity].
  simpl app. repeat f_equal. width_lia.
Qed.

Lemma code_dwide coder op n k :
  0 <= n -> 0 <= k -> u8 op = op ->
  Coder.code (CVM_OUT_DWIDE coder op n k) = Coder.code coder ++ dwide_bytes op n k.
Proof.
  intros Hn Hk Hop. unfold CVM_OUT_DWIDE, dwide_bytes.
  destruct ((n <? 256) && (k <? 256)) eqn:E; cbn -[u8 Z.shiftr]; rewrite <-!app_assoc, Hop; [|reflexivity].
  bool_to_prop. simpl app. assert (u8 n = n) as -> by width_lia. by assert (u8 k = k) as -> by width_lia.
Qed.

(** The variables of integer types. *)
Definition elem_vtype (elem : Z) : option vtype :=
  if elem_in elem [IL_META_ELEMTYPE_BOOLEAN; IL_META_ELEMTYPE_U1] then Some V_U1
  else if elem_in elem [IL_META_ELEMTYPE_I4; IL_META_ELEMTYPE_U4] then Some V_I4
  else if elem_in elem [IL_META_ELEMTYPE_I8; IL_META_ELEMTYPE_U8] then Some V_I8
  else if elem_in elem [IL_META_ELEMTYPE_I; IL_META_ELEMTYPE_U] then Some V_I
  else None.
Definition vtype_of (type : Z) : option vtype :=
  if ILType_IsPrimitive type then elem_vtype (ILType_ToElement type) else None.

Lemma elem_vtype_cases elem t :
  elem_vtype elem = Some t ->
  t = V_U1 /\ (elem = IL_META_ELEMTYPE_BOOLEAN \/ elem = IL_META_ELEMTYPE_U1) \/
  t = V_I4 /\ (elem = IL_META_ELEMTYPE_I4 \/ elem = IL_META_ELEMTYPE_U4) \/
  t = V_I8 /\ (elem = IL_META_ELEMTYPE_I8 \/ elem = IL_META_ELEMTYPE_U8) \/
  t = V_I /\ (elem = IL_META_ELEMTYPE_I \/ elem = IL_META_ELEMTYPE_U).
Proof.
  unfold elem_vtype, elem_in. simpl existsb. rewrite !orb_false_r.
  repeat match goal with
  | |- (if ?a || ?b then _ else _) = _ -> _ => destruct (a || b) eqn:?
  end; intros [= <-]; repeat match goal with
  | H : _ || _ = true |- _ => apply orb_true_iff in H as [H%Z.eqb_eq|H%Z.eqb_eq]
  end; auto 10.
Qed.

(** The bytes [bs] load the variable of type [t] at [n]. *)
Definition loads (bs : list Z) (n : Z) (t : vtype) : Prop :=
  forall v c st pre sw l2,
    var_value t v -> code_at c (pc st) bs -> below st = pre ++ sw ++ l2 ->
    Z.of_nat (length l2) = frame st + n -> slot_words t v sw ->
    vt_words t <= Z.of_nat (length (above st)) ->
    exists ws' ab', run 1 c st = Some (Next (mk_cvm (pc st + Z.of_nat (length bs)) (frame st)
        (ws' ++ below st) ab')) /\
      holds [cell_of v] ws' /\ (length ws' + length ab' = length (above st))%nat.

Lemma run_1 c st o : step c st = Some (Next o) -> run 1 c st = Some (Next o).
Proof. intros H. simpl. by rewrite H. Qed.

Lemma loads_int n t :
  vt_width t = W32 -> t <> V_U1 -> 0 <= n <= IL_MAX_UINT32 -> loads (local_bytes COP_ILOAD_0 COP_ILOAD n) n t.
Proof.
  intros Hw Ht Hn v c [p fr bl ab] pre sw l2 Hv Hc Hb El Hs Hr. simpl in *. subst bl.
  pose proof (var_value_width _ _ Hv) as Hvw.
  assert (exists x, sw = [x] /\ i32 x = number v) as (x & -> & Hx)
    by (destruct t; simpl in *; try done; rewrite Hw in Hs; done).
  unfold vt_words in Hr. rewrite Hw in Hr. destruct ab as [|w ab]; simpl in Hr; [lia|].
  destruct (int_load_slot p fr pre x l2 w ab n (Z.of_nat (length (local_bytes COP_ILOAD_0 COP_ILOAD n))) El)
    as (y & Hy & Hrun).
  exists [y], ab. split; [|split; [|done]].
  - apply run_1. rewrite (proj1 (step_int_slot _ (mk_cvm p fr _ _) _ Hn) Hc). exact Hrun.
  - unfold cell_of. rewrite Hvw, Hw. apply holds_single. exists y. split; [done|]. congruence.
Qed.

Lemma loads_words n t :
  vt_width t = W64 -> 0 <= n <= IL_MAX_UINT32 -> loads (dwide_bytes COP_MLOAD n CVM_WORDS_PER_LONG) n t.
Proof.
  intros Hw Hn v c [p fr bl ab] pre sw l2 Hv Hc Hb El Hs Hr. simpl in *. subst bl.
  pose proof (slot_words_length _ _ _ Hs) as Hlen. unfold vt_words in *. rewrite Hw in *.
  pose proof (words_of_pos W64 : 1 <= CVM_WORDS_PER_LONG <= 2) as Hp.
  change (words_of W64) with CVM_WORDS_PER_LONG in *.
  assert (exists old ab2, ab = old ++ ab2 /\ length old = length sw) as (old & ab2 & -> & Hold).
  { exists (take (length sw) ab), (drop (length sw) ab). rewrite take_drop, length_take. split; [done|lia]. }
  assert (0 <= CVM_WORDS_PER_LONG < 256) as Hk by lia.
  exists sw, ab2. split; [|split; [|rewrite length_app; lia]].
  - apply run_1. rewrite (proj1 (step_words_slot _ (mk_cvm p fr _ _) n CVM_WORDS_PER_LONG Hn Hk) Hc).
    by apply words_load_slot.
  - unfold cell_of. rewrite (var_value_width _ _ Hv), Hw. apply holds_single. destruct t; try done; simpl in Hw, Hs;
      by rewrite Hw in Hs.
Qed.

Lemma loads_byte n : 0 <= n < 256 -> loads [COP_BLOAD; n] n V_U1.
Proof.
  intros Hn v c [p fr bl ab] pre sw l2 Hv Hc Hb El (x & -> & ->) Hr. simpl in *. subst bl.
  unfold vt_words in Hr. destruct ab as [|w ab]; simpl in Hr; [lia|].
  destruct (byte_load_slot c p fr pre x l2 w ab n [] Hc Hn El) as (y & Hy & Hrun).
  exists [y], ab. split; [|split; [|done]]; [by apply run_1|]. apply (holds_single W32). by exists y.
Qed.

(** The bytes [bs] store the number [m] of width [w] on top of the stack, as
    the value [r], in the variable of type [t] at [n]. *)
Definition stores (bs : list Z) (w : width) (m n : Z) (t : vtype) (r : value) : Prop :=
  forall c st ws pre sw l2,
    code_at c (pc st) bs -> below st = ws ++ pre ++ sw ++ l2 -> holds [(w, m)] ws ->
    Z.of_nat (length l2) = frame st + n -> Z.of_nat (length sw) = vt_words t ->
    exists k sw' ab', run k c st = Some (Next (mk_cvm (pc st + Z.of_nat (length bs)) (frame st)
        (pre ++ sw' ++ l2) ab')) /\
      slot_words t r sw' /\ (length ab' = length ws + length (above st))%nat.

Lemma stores_int n m t r :
  vt_width t = W32 -> t <> V_U1 -> number r = m -> 0 <= n <= IL_MAX_UINT32 ->
  stores (local_bytes COP_ISTORE_0 COP_ISTORE n) W32 m n t r.
Proof.
  intros Hw Ht Hr Hn c [p fr bl ab] ws pre sw l2 Hc Hb (v & -> & Hv)%holds_single El Hs. simpl in *. subst bl.
  unfold vt_words in Hs. rewrite Hw in Hs. destruct sw as [|x [|]]; simpl in Hs; try lia.
  destruct (int_store_slot p fr v pre x l2 ab n (Z.of_nat (length (local_bytes COP_ISTORE_0 COP_ISTORE n))) El)
    as (y & Hy & Hrun).
  exists 1%nat, [y], (v :: ab). split; [|split; [|done]].
  - apply run_1. rewrite (proj2 (step_int_slot _ (mk_cvm p fr _ _) _ Hn) Hc). exact Hrun.
  - assert (cell_words W32 (number r) [y]) as H by (exists y; split; congruence).
    destruct t; try done; simpl in Hw |- *; by rewrite ?Hw.
Qed.

Lemma stores_words n m t r :
  vt_width t = W64 -> number r = m -> 0 <= n <= IL_MAX_UINT32 ->
  stores (dwide_bytes COP_MSTORE n CVM_WORDS_PER_LONG) W64 m n t r.
Proof.
  intros Hw Hr Hn c [p fr bl ab] ws pre sw l2 Hc Hb Hcell%holds_single El Hs. simpl in *. subst bl.
  pose proof (cell_words_length W64 _ _ Hcell) as Hlen. unfold vt_words in *. rewrite Hw in *.
  pose proof (words_of_pos W64 : 1 <= CVM_WORDS_PER_LONG <= 2) as Hp.
  change (words_of W64) with CVM_WORDS_PER_LONG in *.
  assert (0 <= CVM_WORDS_PER_LONG < 256) as Hk by lia.
  exists 1%nat, ws, (rev ws ++ ab). split; [|split; [|rewrite length_app, length_rev; lia]].
  - apply run_1. rewrite (proj2 (step_words_slot _ (mk_cvm p fr _ _) n CVM_WORDS_PER_LONG Hn Hk) Hc).
    apply words_store_slot; try done. lia.
  - change (cell_words W64 m ws) in Hcell. rewrite <-Hr in Hcell.
    destruct t; try done; simpl in Hw |- *; by rewrite ?Hw.
Qed.

Lemma stores_byte n m : 0 <= n < 256 -> stores [COP_BSTORE; n] W32 m n V_U1 (VI4 (u8 m)).
Proof.
  intros Hn c [p fr bl ab] ws pre sw l2 Hc Hb (v & -> & Hv)%holds_single El Hs. simpl in *. subst bl.
  unfold vt_words in Hs. destruct sw as [|x [|]]; simpl in Hs; try lia.
  destruct (byte_store_slot c p fr v pre x l2 ab n [] Hc Hn El) as (y & Hy & Hrun).
  exists 1%nat, [y], (v :: ab). split; [by apply run_1|]. split; [|done].
  exists y. split; [done|]. rewrite Hy, <-Hv. f_equal. width_lia.
Qed.

(** An adjustment of the width in front of the store. *)
Lemma stores_after bs1 bs w1 m1 w m n t r :
  performs bs1 [(w1, m1)] (inr [(w, m)]) -> words_of w <= words_of w1 ->
  stores bs w m n t r -> stores (bs1 ++ bs) w1 m1 n t r.
Proof.
  intros H1 Hw H2 c st ws pre sw l2 [Hc1 Hc2]%code_at_app Hb Hh El Hs.
  destruct (H1 c st ws (pre ++ sw ++ l2) Hc1 Hb Hh) as (k & ws' & ab' & Hk & Hh' & Hl); [simpl; lia|].
  destruct (H2 c (mk_cvm (pc st + Z.of_nat (length bs1)) (frame st) (ws' ++ pre ++ sw ++ l2) ab')
    ws' pre sw l2 Hc2 eq_refl Hh' El Hs) as (k2 & sw' & ab2 & Hk2 & Hsw & Hl2).
  exists (k + k2)%nat, sw', ab2. rewrite (run_app _ _ _ _ _ Hk), Hk2, length_app, Nat2Z.inj_add, Z.add_assoc.
  simpl in *. split; [done|]. split; [done|lia].
Qed.

End Frame.

(** ** LoadLocal and StoreLocal *)

Section Coder.
Context {PF : Platform} {TL : TypeLibrary}.
Variable GetTypeSize : Z -> Z.

(** Code [bs] is output, and the tables stay. *)
Definition outputs (coder coder' : ILCVMCoder) (bs : list Z) : Prop :=
  Coder.code coder' = Coder.code coder ++ bs /\ same_labels coder coder'.

Lemma outputs_adjust coder coder' bs k :
  outputs coder coder' bs -> outputs coder (CVM_ADJUST coder' k) bs.
Proof. done. Qed.

Lemma outputs_trans coder c1 c2 bs1 bs2 :
  outputs coder c1 bs1 -> outputs c1 c2 bs2 -> outputs coder c2 (bs1 ++ bs2).
Proof.
  intros [E1 L1] [E2 L2]. split; [by rewrite E2, E1, app_assoc|].
  destruct L1 as (?&?&?&?), L2 as (?&?&?&?). repeat split; congruence.
Qed.

Lemma outputs_slot coder op_0 op n :
  0 <= n -> (forall i, 0 <= i < 4 -> u8 (op_0 + i) = op_0 + i) -> u8 op = op ->
  outputs coder (out_slot coder op_0 op n) (local_bytes op_0 op n).
Proof.
  intros. split; [by apply code_out_slot|]. unfold out_slot, CVM_OUT_WIDE. by repeat case_match.
Qed.

Lemma outputs_dwide coder op n k :
  0 <= n -> 0 <= k -> u8 op = op -> outputs coder (CVM_OUT_DWIDE coder op n k) (dwide_bytes op n k).
Proof.
  intros. split; [by apply code_dwide|]. unfold CVM_OUT_DWIDE. by case_match.
Qed.

Lemma outputs_byte coder op n : u8 op = op -> 0 <= n < 256 -> outputs coder (CVM_OUT_BYTE coder op n) [op; n].
Proof.
  intros Hop Hn. split; [|done]. cbn -[u8]. rewrite <-app_assoc, Hop.
  by replace (u8 n) with n by width_lia.
Qed.

(** The place of a variable: bytes are in the first 256 words. *)
Definition slot_place (t : vtype) (n : Z) : Prop :=
  0 <= n <= IL_MAX_UINT32 /\ (t = V_U1 -> n < 256).

Lemma LoadLocal_loads coder n type t :
  vtype_of type = Some t -> slot_place t n ->
  exists bs, outputs coder (LoadLocal GetTypeSize coder n type) bs /\ loads bs n t.
Proof.
  intros Ht [Hn Hb]. unfold vtype_of in Ht. destruct (ILType_IsPrimitive type) eqn:Hp; [|done].
  unfold LoadLocal, load_other. rewrite Hp. cbn [negb andb].
  pose proof (words_of_pos W64 : 1 <= CVM_WORDS_PER_LONG <= 2) as Hwl.
  assert (forall c, outputs c (CVM_ADJUST (out_slot c COP_ILOAD_0 COP_ILOAD n) 1)
    (local_bytes COP_ILOAD_0 COP_ILOAD n)) as Hi.
  { intros c. apply outputs_adjust, outputs_slot; [lia|intros i Hi; unfold COP_ILOAD_0; width_lia|done]. }
  assert (forall c, outputs c (load_words c n CVM_WORDS_PER_LONG) (dwide_bytes COP_MLOAD n CVM_WORDS_PER_LONG))
    as Hw by (intros c; apply outputs_adjust, outputs_dwide; [lia|lia|done]).
  destruct (elem_vtype_cases _ _ Ht) as [[-> E]|[[-> E]|[[-> E]|[-> E]]]].
  - specialize (Hb eq_refl). exists [COP_BLOAD; n]. split; [|by apply loads_byte; lia].
    unfold load_element. destruct E as [-> | ->]; simpl; rewrite (proj2 (Z.ltb_lt _ _)) by lia;
      by apply outputs_byte; [|lia].
  - exists (local_bytes COP_ILOAD_0 COP_ILOAD n). split; [|by apply loads_int].
    by destruct E as [-> | ->]; apply Hi.
  - exists (dwide_bytes COP_MLOAD n CVM_WORDS_PER_LONG). split; [|by apply loads_words].
    unfold load_element, is_int_elem, is_long_elem. destruct E as [-> | ->]; simpl;
      rewrite andb_false_r; apply Hw.
  - unfold load_element, is_int_elem, is_long_elem. destruct IL_NATIVE_INT64 eqn:HN.
    + exists (dwide_bytes COP_MLOAD n CVM_WORDS_PER_LONG).
      split; [by destruct E as [-> | ->]; apply Hw|]. apply loads_words; [|done].
      simpl. by apply native_W64.
    + exists (local_bytes COP_ILOAD_0 COP_ILOAD n).
      split; [by destruct E as [-> | ->]; apply Hi|]. apply loads_int; [|done|done].
      simpl. by apply native_W32.
Qed.

Lemma narrow_native_performs coder v :
  (type_of v = ILEngineType_I4 \/ type_of v = ILEngineType_I) -> wf_value v ->
  exists bs, outputs coder (narrow_native coder (type_of v)) bs /\
    performs bs [cell_of v] (inr [(W32, i32 (number v))]).
Proof.
  intros Ht Wv. unfold narrow_native. destruct (IL_NATIVE_INT64 && is_type (type_of v) ILEngineType_I) eqn:E.
  - apply andb_true_iff in E as [HN E]. destruct v as [|m|m]; try done. exists [COP_L2I].
    split; [done|]. unfold cell_of. simpl. rewrite (native_W64 HN). apply performs_L2I.
  - exists []. split; [split; [by rewrite app_nil_r|apply same_labels_refl]|].
    assert (cell_of v = (W32, i32 (number v))) as ->; [|apply performs_nil].
    unfold cell_of. apply wf_value_wrap in Wv.
    destruct v as [m|m|m]; simpl in *; [by rewrite Wv|by destruct Ht|].
    rewrite andb_true_r in E. rewrite (native_W32 E) in *. simpl in Wv. by rewrite Wv.
Qed.

Lemma StoreLocal_stores coder n type t v r :
  vtype_of type = Some t -> slot_place t n -> wf_value v -> store_value t v = Some r ->
  exists bs, outputs coder (StoreLocal GetTypeSize coder n (type_of v) type) bs /\
    stores bs (width_of v) (number v) n t r.
Proof.
  intros Ht [Hn Hb] Wv Hr. unfold vtype_of in Ht. destruct (ILType_IsPrimitive type) eqn:Hp; [|done].
  unfold StoreLocal, store_other. rewrite Hp. cbn [negb andb].
  pose proof (words_of_pos W64 : 1 <= CVM_WORDS_PER_LONG <= 2) as Hwl.
  assert (forall c, outputs c (CVM_ADJUST (out_slot c COP_ISTORE_0 COP_ISTORE n) (-1))
    (local_bytes COP_ISTORE_0 COP_ISTORE n)) as Hi.
  { intros c. apply outputs_adjust, outputs_slot; [lia|intros i Hi; unfold COP_ISTORE_0; width_lia|done]. }
  assert (forall c, outputs c (store_words c n CVM_WORDS_PER_LONG) (dwide_bytes COP_MSTORE n CVM_WORDS_PER_LONG))
    as Hw by (intros c; apply outputs_adjust, outputs_dwide; [lia|lia|done]).
  unfold store_element, is_int_elem, is_long_elem.
  destruct (elem_vtype_cases _ _ Ht) as [[-> E]|[[-> E]|[[-> E]|[-> E]]]].
  - specialize (Hb eq_refl).
    destruct (narrow_native_performs coder v) as (bs & Ho & Hps); [destruct v; try done; auto|done|].
    exists (bs ++ [COP_BSTORE; n]). split.
    + eapply outputs_trans; [exact Ho|].
      destruct E as [-> | ->]; simpl; rewrite (proj2 (Z.ltb_lt _ _)) by lia;
        by apply outputs_adjust, outputs_byte; [|lia].
    + eapply stores_after; [exact Hps|pose proof (words_of_pos (width_of v)); simpl; lia|].
      assert (r = VI4 (u8 (i32 (number v)))) as ->; [|by apply stores_byte; lia].
      destruct v; simpl in Hr; try discriminate Hr; injection Hr as <-; f_equal; simpl; width_lia.
  - destruct (narrow_native_performs coder v) as (bs & Ho & Hps); [destruct v; try done; auto|done|].
    exists (bs ++ local_bytes COP_ISTORE_0 COP_ISTORE n). split.
    + eapply outputs_trans; [exact Ho|]. by destruct E as [-> | ->]; apply Hi.
    + eapply stores_after; [exact Hps|pose proof (words_of_pos (width_of v)); simpl; lia|].
      apply stores_int; try done. by destruct v; simpl in Hr; try discriminate Hr; injection Hr as <-.
  - destruct v as [|m|]; try done. injection Hr as <-. exists (dwide_bytes COP_MSTORE n CVM_WORDS_PER_LONG).
    split; [|by apply stores_words]. destruct E as [-> | ->]; simpl; rewrite andb_false_r; apply Hw.
  - assert (number r = number v) as Hnum by (by destruct v; simpl in Hr; try discriminate Hr; injection Hr as <-).
    destruct IL_NATIVE_INT64 eqn:HN.
    + destruct v as [m|m|m]; try done.
      * exists ([COP_I2L] ++ dwide_bytes COP_MSTORE n CVM_WORDS_PER_LONG). split.
        { eapply outputs_trans with (c1 := CVM_ADJUST (CVM_OUT_NONE coder COP_I2L) (CVM_WORDS_PER_LONG - 1)); [done|].
          by destruct E as [-> | ->]; apply Hw. }
        eapply stores_after; [apply performs_I2L|rewrite (native_words_per_long HN : words_of W64 = 1); simpl; lia|].
        by apply stores_words; [simpl; by apply native_W64|..].
      * exists (dwide_bytes COP_MSTORE n CVM_WORDS_PER_LONG). split; [by destruct E as [-> | ->]; apply Hw|].
        simpl. rewrite (native_W64 HN). by apply stores_words; [simpl; by apply native_W64|..].
    + exists (local_bytes COP_ISTORE_0 COP_ISTORE n). split.
      { unfold narrow_native. rewrite HN. cbn [andb]. by destruct E as [-> | ->]; apply Hi. }
      assert (width_of v = W32) as -> by (destruct v; try done; by apply native_W32).
      apply stores_int; try done. simpl. by apply native_W32.
Qed.

End Coder.
