(* ===== verification/FrameVars.v ===== *)
(** * The variables of a method in its frame

    Which slot each variable of the reference semantics has, when the frame
    holds the values of all of them, and that a store to one changes nothing
    but its slot. *)
From Stdlib Require Import ZArith Lia.
From stdpp Require Import base list option numbers.
From S2P Require Import Prelude Opcodes Cvm Interp JumpMask Scan Coder CoderBranch Types CoderVar ILSpec CvmProps CvmOps CoderProps CoderLabels Refine ILVars Frame.

Local Open Scope Z_scope.

Section Vars.
Context {PF : Platform}.

(** ** Slots in the words below the evaluation stack *)

Definition slot_at (base : list Z) (i : Z) (t : vtype) (v : value) : Prop :=
  exists pre sw l2, base = pre ++ sw ++ l2 /\ Z.of_nat (length l2) = i /\ slot_words t v sw.

Lemma app_suffix {A} (a b c d : list A) :
  a ++ b = c ++ d -> (length d <= length b)%nat -> exists x, b = x ++ d /\ c = a ++ x.
Proof.
  revert c. induction a as [|y a IH]; intros c E Hl; [by exists c|].
  destruct c as [|z c]; simpl in E.
  - apply (f_equal length) in E. simpl in E. rewrite length_app in E. lia.
  - injection E as <- E. destruct (IH c E Hl) as (x & -> & ->). by exists x.
Qed.

(** Other words are not in the way of a slot. *)
Lemma slot_at_replace pre (sw sw' l2 : list Z) j t v :
  slot_at (pre ++ sw ++ l2) j t v -> length sw' = length sw ->
  j + vt_words t <= Z.of_nat (length l2) \/ Z.of_nat (length l2) + Z.of_nat (length sw) <= j ->
  slot_at (pre ++ sw' ++ l2) j t v.
Proof.
  intros (pre2 & sw2 & l2' & E & Hj & Hs) Hlen Hd. pose proof (slot_words_length _ _ _ Hs) as Hw.
  destruct Hd as [Hd|Hd].
  - rewrite app_assoc in E. destruct (app_suffix _ _ _ _ E) as (x & -> & _); [rewrite length_app; lia|].
    exists (pre ++ sw' ++ x), sw2, l2'. by rewrite <-!app_assoc.
  - rewrite (app_assoc pre2) in E. symmetry in E.
    destruct (app_suffix _ _ _ _ E) as (x & -> & ->); [rewrite length_app; lia|].
    exists pre2, sw2, (x ++ sw' ++ l2). rewrite <-!app_assoc, <-Hj, !length_app, Hlen. done.
Qed.

(** The word [i] of the stack area from its base is the same. *)
Lemma replace_lookup pre (sw sw' l2 : list Z) (i : nat) :
  length sw' = length sw -> (i < length l2 \/ length l2 + length sw <= i)%nat ->
  reverse (pre ++ sw' ++ l2) !! i = reverse (pre ++ sw ++ l2) !! i.
Proof.
  intros Hlen Hi. rewrite !reverse_app, <-!app_assoc. destruct Hi as [Hi|Hi].
  - by rewrite !lookup_app_l by (rewrite length_reverse; lia).
  - rewrite !(lookup_app_r (reverse l2)) by (rewrite length_reverse; lia).
    rewrite !lookup_app_r by (rewrite !length_reverse; lia). rewrite !length_reverse. by rewrite Hlen.
Qed.

(** ** The layout of the variables *)

Variable sg : il_sig.

Definition offsets (arg : bool) (coder : ILCVMCoder) : list Z :=
  if arg then argOffsets coder else localOffsets coder.

(** The variable [n], of type [t], is at [off]. *)
Definition placed (coder : ILCVMCoder) (arg : bool) (n : Z) (t : vtype) (off : Z) : Prop :=
  il_type sg arg n = Some t /\ offset_of (offsets arg coder) n = Some off.

Record frame_layout (coder : ILCVMCoder) : Prop := {
  fl_place arg n t : il_type sg arg n = Some t ->
    exists off, offset_of (offsets arg coder) n = Some off /\ slot_place t off;
  fl_disjoint arg n t off arg' n' t' off' :
    placed coder arg n t off -> placed coder arg' n' t' off' -> (arg, n) <> (arg', n') ->
    off + vt_words t <= off' \/ off' + vt_words t' <= off;
}.

Definition frame_holds (coder : ILCVMCoder) (fr : Z) (vars : il_vars) (base : list Z) : Prop :=
  forall arg n t off, placed coder arg n t off ->
    exists v, il_load arg n vars = Some v /\ var_value t v /\ slot_at base (fr + off) t v.

(** The words that belong to no variable are the same. *)
Definition same_outside (coder : ILCVMCoder) (fr : Z) (base base' : list Z) : Prop :=
  length base' = length base /\
  forall i : nat,
    (forall arg n t off, placed coder arg n t off ->
       Z.of_nat i < fr + off \/ fr + off + vt_words t <= Z.of_nat i) ->
    reverse base' !! i = reverse base !! i.

#[export] Instance same_outside_preorder coder fr : PreOrder (same_outside coder fr).
Proof.
  split; [by intros b|]. intros b1 b2 b3 [L1 H1] [L2 H2]. split; [congruence|].
  intros i Hi. by rewrite H2, H1.
Qed.

Lemma placed_same c c' arg n t off : same_labels c c' -> placed c' arg n t off <-> placed c arg n t off.
Proof.
  intros (_ & _ & Ea & El). unfold placed, offsets. destruct arg; by rewrite ?Ea, ?El.
Qed.

Lemma il_load_set arg n v vars arg' n' :
  is_Some (il_load arg n vars) ->
  il_load arg' n' (set_var arg n v vars) =
    if bool_decide ((arg', n') = (arg, n)) then Some v else il_load arg' n' vars.
Proof.
  intros [x Hx]. unfold il_load in *. destruct (Z.leb_spec 0 n) as [Hn|]; [|done].
  destruct (Z.leb_spec 0 n') as [Hn'|]; [|case_bool_decide as E; [injection E; lia|done]].
  assert (forall l : list value, is_Some (l !! Z.to_nat n) ->
    <[Z.to_nat n := v]> l !! Z.to_nat n' = if decide (n' = n) then Some v else l !! Z.to_nat n') as Hl.
  { intros l Hi%lookup_lt_is_Some_1. destruct (decide (n' = n)) as [->|Hne].
    - by apply list_lookup_insert_eq.
    - apply list_lookup_insert_ne. lia. }
  destruct arg, arg'; simpl in *; rewrite ?Hl by eauto; repeat case_bool_decide; repeat case_decide; congruence.
Qed.

(** A store changes the slot and what the frame holds. *)
Lemma frame_store coder fr vars pre (sw sw' l2 : list Z) arg n t off r :
  frame_layout coder -> frame_holds coder fr vars (pre ++ sw ++ l2) -> placed coder arg n t off ->
  Z.of_nat (length l2) = fr + off -> Z.of_nat (length sw) = vt_words t ->
  slot_words t r sw' -> var_value t r ->
  frame_holds coder fr (set_var arg n r vars) (pre ++ sw' ++ l2) /\
  same_outside coder fr (pre ++ sw ++ l2) (pre ++ sw' ++ l2).
Proof.
  intros [_ Hdis] Hh Hp Hl2 Hsw Hs' Hr. pose proof (slot_words_length _ _ _ Hs') as Hsw'.
  assert (length sw' = length sw) as Hlen by lia. split.
  - intros arg' n' t' off' Hp'. destruct (Hh _ _ _ _ Hp) as (x & Hx & _).
    rewrite (il_load_set _ _ _ _ _ _ (mk_is_Some _ _ Hx)). case_bool_decide as Heq.
    + injection Heq as -> ->. destruct Hp as [Ht Ho], Hp' as [Ht' Ho'].
      rewrite Ht in Ht'. rewrite Ho in Ho'. injection Ht' as <-. injection Ho' as <-.
      exists r. split; [done|]. split; [done|]. by exists pre, sw', l2.
    + destruct (Hh _ _ _ _ Hp') as (v & Hv & Hvt & Hslot). exists v. split; [done|]. split; [done|].
      eapply slot_at_replace; [exact Hslot|done|].
      destruct (Hdis _ _ _ _ _ _ _ _ Hp' Hp Heq); [left|right]; lia.
  - split; [rewrite !length_app; lia|]. intros i Hi. apply replace_lookup; [done|].
    destruct (Hi _ _ _ _ Hp); [left|right]; lia.
Qed.

(** ** A frame for the variables

    With slots that do not overlap there are words that hold any values. *)

Lemma cell_words_exist w n : wrap w n = n -> exists ws, cell_words w n ws.
Proof.
  destruct w; simpl; intros Hn; [by exists [n], n|].
  destruct (CVM_WORDS_PER_LONG =? 1); [by exists [n], n|].
  exists [n / 2 ^ 32; n], (n / 2 ^ 32), n. split; [done|]. rewrite <-Hn, shiftl_mul by lia.
  change (2 ^ 32) with 0x100000000. width_lia.
Qed.

Lemma slot_words_exist t v : var_value t v -> exists ws, slot_words t v ws.
Proof.
  intros [Wv Hv]. pose proof Wv as Hw%wf_value_wrap. destruct t, v as [n|n|n]; try done.
  - exists [n]. exists n. split; [done|]. f_equal. width_lia.
  - exact (cell_words_exist W32 n Hw).
  - exact (cell_words_exist W64 n Hw).
  - exact (cell_words_exist native n Hw).
Qed.

(** Room for the words [ws] at [i]. *)
Lemma slot_split (base : list Z) (i : Z) (k : nat) :
  0 <= i -> i + Z.of_nat k <= Z.of_nat (length base) ->
  exists pre sw l2, base = pre ++ sw ++ l2 /\ Z.of_nat (length l2) = i /\ length sw = k.
Proof.
  intros Hi Hk. set (m := (length base - Z.to_nat i - k)%nat).
  exists (take m base), (take k (drop m base)), (drop k (drop m base)).
  rewrite !take_drop. split; [done|]. rewrite length_take, !length_drop. lia.
Qed.

Lemma frame_exists coder lv :
  frame_layout coder -> vars_typed sg lv -> exists base, frame_holds coder 0 lv base.
Proof.
  intros Hlay Hlv.
  set (all := ((fun n => (true, Z.of_nat n)) <$> seq 0 (length (sig_args sg))) ++
              ((fun n => (false, Z.of_nat n)) <$> seq 0 (length (sig_locals sg)))).
  assert (forall L : list (bool * Z), exists base : list Z, length base = Z.to_nat 0x100000010 /\
    forall arg n t off, (arg, n) ∈ L -> placed coder arg n t off ->
      exists v, il_load arg n lv = Some v /\ var_value t v /\ slot_at base off t v) as H.
  { induction L as [|[arg n] L IH].
    { exists (repeat 0 (Z.to_nat 0x100000010)). split; [apply repeat_length|]. intros ? ? ? ? []%not_elem_of_nil. }
    destruct IH as (base & Hlen & Hb). destruct (decide ((arg, n) ∈ L)) as [Hin|Hout].
    { exists base. split; [done|]. intros arg' n' t off [[= -> ->]|Hin']%elem_of_cons; by eapply Hb. }
    destruct (il_type sg arg n) as [t|] eqn:Et.
    2: { exists base. split; [done|]. intros arg' n' t off [[= -> ->]|Hin']%elem_of_cons Hp; [|by eapply Hb].
         destruct Hp. congruence. }
    destruct (fl_place _ Hlay _ _ _ Et) as (off & Ho & Hp1 & _).
    destruct (il_load_exists _ _ _ _ _ Hlv Et) as (v & Hv & Hvt).
    destruct (slot_words_exist _ _ Hvt) as [ws Hws]. pose proof (slot_words_length _ _ _ Hws) as Hwl.
    assert (vt_words t <= 2) by (pose proof (words_of_pos (vt_width t)); unfold vt_words; lia).
    destruct (slot_split base off (length ws)) as (pre & sw & l2 & -> & Hl2 & Hsw);
      [lia|rewrite Hlen; unfold IL_MAX_UINT32 in *; lia|].
    exists (pre ++ ws ++ l2). split; [rewrite <-Hlen, !length_app; lia|].
    intros arg' n' t' off' Hin Hp'. destruct (decide ((arg', n') = (arg, n))) as [[= -> ->]|Hne].
    - destruct Hp' as [Et' Ho']. rewrite Et in Et'. rewrite Ho in Ho'. injection Et' as <-. injection Ho' as <-.
      exists v. split; [done|]. split; [done|]. by exists pre, ws, l2.
    - apply elem_of_cons in Hin as [?|Hin]; [done|]. destruct (Hb _ _ _ _ Hin Hp') as (v' & Hv' & Hvt' & Hs').
      exists v'. split; [done|]. split; [done|]. eapply slot_at_replace; [exact Hs'|done|].
      destruct (fl_disjoint _ Hlay _ _ _ _ _ _ _ _ Hp' (conj Et Ho) Hne); [left|right]; lia. }
  destruct (H all) as (base & _ & Hb). exists base. intros arg n t off Hp. apply (Hb arg n t off); [|done].
  pose proof (proj1 Hp) as Ht. unfold il_type in Ht. destruct (Z.leb_spec 0 n); [|done].
  apply lookup_lt_Some in Ht. apply elem_of_app. destruct arg; [left|right]; apply list_elem_of_fmap;
    exists (Z.to_nat n); (split; [by rewrite Z2Nat.id|]); apply elem_of_seq; simpl in Ht; lia.
Qed.

End Vars.
