(* ===== verification/VarSound.v ===== *)
(** * An accepted load or store of a variable

    The loads and stores of integer variables that verify_var.c accepts, with
    the CVM coder: which variable the instruction names, that the values on
    the stack have the types that the verifier records, and the code that
    moves the value. *)
From Stdlib Require Import ZArith Lia.
From stdpp Require Import base list option numbers.
From S2P Require Import Prelude Opcodes Cvm Interp JumpMask Scan Coder CoderBranch Types CoderVar Verify VerifyVar ILSpec CvmProps CvmOps CoderProps Refine RefineBlock ILVars CoderLabels Frame FrameVars.
Import OpTable.

Local Open Scope Z_scope.

(** ** The opcode table and the number of the variable *)

Definition is_load (kind : var_kind) : bool := match kind with LdArg | LdLoc => true | _ => false end.
Definition is_store (kind : var_kind) : bool := match kind with StArg | StLoc => true | _ => false end.
Definition is_arg (kind : var_kind) : bool :=
  match kind with LdArg | StArg | LdArgA => true | _ => false end.

(** A property of the table holds of what is found in it. *)
Lemma var_instruction_forall (P : Z -> var_kind -> var_form -> Prop) opcode kind form :
  Forall (fun r => P (fst r) (fst (snd r)) (snd (snd r))) var_instructions ->
  var_instruction opcode = Some (kind, form) -> P opcode kind form.
Proof.
  unfold var_instruction. generalize var_instructions as table.
  induction table as [|[op [k f]] table IH]; intros H; [done|]. apply Forall_cons_iff in H as [H1 H].
  simpl. destruct (Z.eqb_spec opcode op) as [->|_]; [intros [= <- <-]; exact H1|by apply IH].
Qed.

(** Neither branches, switch nor return. *)
Lemma var_not_jump opcode kind form :
  var_instruction opcode = Some (kind, form) -> branch_opcode opcode = false /\ (opcode =? IL_OP_RET) = false.
Proof.
  apply (var_instruction_forall (fun opcode _ _ => branch_opcode opcode = false /\ (opcode =? IL_OP_RET) = false)).
  repeat (apply Forall_cons_2; [done|]). apply Forall_nil_2.
Qed.

(** Address loads make managed pointers. *)
Lemma var_integer opcode kind form :
  var_instruction opcode = Some (kind, form) -> integer_opcode opcode = true ->
  is_load kind = true \/ is_store kind = true.
Proof.
  apply (var_instruction_forall (fun opcode kind _ => integer_opcode opcode = true ->
    is_load kind = true \/ is_store kind = true)).
  repeat (apply Forall_cons_2; [simpl; first [by auto | discriminate]|]). apply Forall_nil_2.
Qed.

Lemma lookup_row mem o opcode row :
  Forall is_byte mem -> il_fetch mem o = Some (opcode, row) ->
  opcode < 254 \/ 256 <= opcode ->
  (if opcode <? 254 then ILMainOpcodeTable !! Z.to_nat opcode
   else ILPrefixOpcodeTable !! Z.to_nat (opcode - IL_OP_PREFIX)) = Some row.
Proof.
  intros Hb Hf Hr. destruct (il_fetch_cases _ _ _ _ Hb Hf) as (_ & _ & [(_ & [H0 H1] & Hrow & _)|(op & -> & [H0 H1] & Hrow)]).
  - by rewrite (proj2 (Z.ltb_lt _ _)) by lia.
  - unfold IL_OP_PREFIX in *. rewrite (proj2 (Z.ltb_ge _ _)) by lia. by rewrite Z.add_simpl_r.
Qed.

(** A load pushes one item. *)
Definition load_row (opcode : Z) (kind : var_kind) (form : var_form) : Prop :=
  is_load kind = true ->
  (opcode < 254 \/ 256 <= opcode) /\
  forall row, (if opcode <? 254 then ILMainOpcodeTable !! Z.to_nat opcode
     else ILPrefixOpcodeTable !! Z.to_nat (opcode - IL_OP_PREFIX)) = Some row -> popped row = 0 /\ pushed row = 1.

Lemma var_row mem o opcode row kind form :
  Forall is_byte mem -> il_fetch mem o = Some (opcode, row) -> var_instruction opcode = Some (kind, form) ->
  is_load kind = true -> popped row = 0 /\ pushed row = 1.
Proof.
  intros Hb Hf Hv Hl. assert (load_row opcode kind form) as H; [|destruct (H Hl) as [Hr Hrow]; by eapply Hrow, lookup_row].
  clear Hf Hl. revert Hv. apply (var_instruction_forall load_row). unfold load_row.
  repeat (apply Forall_cons_2; [simpl fst; simpl snd; first [by intros [=] | intros _; split; [by (first [left; done | right; done])|intros ? Hr; vm_compute in Hr; injection Hr as <-; done]]|]).
  apply Forall_nil_2.
Qed.

Lemma rd_bytes mem i b : rd mem i = Ret b -> pc_at mem i 0 = Some b.
Proof. unfold rd. destruct (pc_at mem i 0); [|done]. by intros [= ->]. Qed.

Lemma rd_uint16_bytes mem i n :
  Forall is_byte mem -> rd_uint16 mem i = Ret n ->
  exists b0 b1, pc_at mem i 0 = Some b0 /\ pc_at mem (i + 1) 0 = Some b1 /\ n = b0 + 2 ^ 8 * b1.
Proof.
  intros Hb. assert (forall i b, pc_at mem i 0 = Some b -> is_byte b) as Hbyte.
  { intros j b H. unfold pc_at in H. destruct (0 <=? j + 0); [|done]. by eapply Forall_lookup_1 in H. }
  unfold rd_uint16, rd. destruct (pc_at mem i 0) as [b0|] eqn:E0; [|done].
  destruct (pc_at mem (i + 1) 0) as [b1|] eqn:E1; [|done]. cbn [access mbind vres_bind].
  intros [= <-]. exists b0, b1. split; [done|]. split; [done|].
  apply read_uint16_bytes; by eapply Hbyte.
Qed.

(** The reference semantics and the verifier agree on the variable. *)
Lemma var_access mem o opcode kind form num :
  Forall is_byte mem -> var_instruction opcode = Some (kind, form) -> is_load kind = true \/ is_store kind = true ->
  var_number mem o form = Ret num ->
  il_access mem o opcode = Some (mk_access (is_store kind) (is_arg kind) num).
Proof.
  intros Hb. revert num. intros num Hv. revert Hv.
  apply (var_instruction_forall (fun opcode kind form => is_load kind = true \/ is_store kind = true ->
    var_number mem o form = Ret num ->
    il_access mem o opcode = Some (mk_access (is_store kind) (is_arg kind) num))).
  unfold var_number.
  repeat (apply Forall_cons_2; [simpl fst; simpl snd; intros [Hk|Hk]; try discriminate Hk; clear Hk; intros Hn|]);
    [..|apply Forall_nil_2].
  all: first [by injection Hn as <- | apply rd_bytes in Hn; unfold il_access; simpl; by rewrite Hn
    | apply (rd_uint16_bytes _ _ _ Hb) in Hn as (b0 & b1 & E0 & E1 & ->); unfold il_access; simpl;
      rewrite E0; replace (o + 3) with (o + 2 + 1) by lia; by rewrite E1].
Qed.

(** ** Types *)

Section Types.
Context {PF : Platform} {TL : TypeLibrary}.

(** Signatures of methods are no integer types. *)
Record method_types_apart : Prop := {
  mt_signature m type t : vtype_of type = Some t -> ILTypeIdentical (ILMethod_Signature m) type = false;
  mt_method mtype type t :
    vtype_of type = Some t -> ILType_IsMethod mtype = true -> ILTypeIdentical mtype type = false;
}.

Definition vt_type (t : vtype) : ILEngineType :=
  match t with V_U1 | V_I4 => T_I4 | V_I8 => T_I8 | V_I => T_I end.

Lemma var_value_type t v : var_value t v -> type_of v = vt_type t.
Proof. intros [_ H]. by destruct t, v. Qed.

Lemma primitive_simple type :
  ILType_IsPrimitive type = true ->
  ILTypeGetEnumType type = type /\ is_complex type = false /\ (type =? ILType_Invalid) = false.
Proof.
  unfold ILType_IsPrimitive. intros Hp%Z.eqb_eq.
  unfold ILTypeGetEnumType, ILType_IsWith, is_complex, ILType_IsComplex, ILType_IsValueType. rewrite Hp.
  rewrite andb_false_r. cbn [andb]. split; [done|]. split; [done|].
  apply Z.eqb_neq. intros ->. done.
Qed.

Lemma vtype_primitive type t :
  vtype_of type = Some t -> ILType_IsPrimitive type = true /\ elem_vtype (ILType_ToElement type) = Some t.
Proof. unfold vtype_of. destruct (ILType_IsPrimitive type); [done|done]. Qed.

Lemma vtype_engine_type depth type t et :
  vtype_of type = Some t -> TypeToEngineType depth type = Ret et -> et = vt_type t.
Proof.
  intros [Hp He]%vtype_primitive. destruct depth as [|depth]; [done|]. simpl.
  destruct (primitive_simple _ Hp) as (-> & _). rewrite Hp. intros [= <-].
  destruct (elem_vtype_cases _ _ He) as [[-> E]|[[-> E]|[[-> E]|[-> E]]]]; by destruct E as [-> | ->].
Qed.

(** The types of the variables, as numbers. *)
Lemma from_to_element type : ILType_IsPrimitive type = true -> type = ILType_FromElement (ILType_ToElement type).
Proof.
  unfold ILType_IsPrimitive, ILType_FromElement, ILType_ToElement. intros H%Z.eqb_eq.
  change 3 with (Z.ones 2) in H. rewrite Z.land_ones in H by lia. change (2 ^ 2) with 4 in H.
  rewrite Z.shiftl_mul_pow2, Z.shiftr_div_pow2 by lia. change (2 ^ 2) with 4.
  rewrite (lor_add _ 1 2) by (lia || apply Z.mod_mul; lia). pose proof (Z.div_mod type 4). lia.
Qed.

(** What the verifier lets be stored has a value of the type. *)
Lemma assign_stores depth unsafe i type t v :
  method_types_apart -> vtype_of type = Some t -> engineType i = type_of v -> wf_value v ->
  AssignCompatible depth i type unsafe = Ret true ->
  exists r, store_value t v = Some r /\ var_value t r.
Proof.
  intros Happart Ht Hi Wv. pose proof (vtype_primitive _ _ Ht) as [Hp He].
  destruct (primitive_simple _ Hp) as (Hen & Hc & _).
  unfold AssignCompatible, assign_native_pointer. rewrite Hc.
  assert (match MethodRefToMethod (typeInfo i) with
    | Some methodRef => ILTypeIdentical (ILMethod_Signature methodRef) type
    | None => ILType_IsMethod (typeInfo i) && ILTypeIdentical (typeInfo i) type end = false) as ->.
  { destruct (MethodRefToMethod (typeInfo i)); [by eapply mt_signature|].
    destruct (ILType_IsMethod (typeInfo i)) eqn:E; [|done]. by eapply mt_method. }
  rewrite !andb_false_r, Hi, Hen. cbn [andb orb]. rewrite (from_to_element _ Hp).
  intros Ha. assert (is_Some (store_value t v)) as [r Hr].
  { destruct (elem_vtype_cases _ _ He) as [[-> E]|[[-> E]|[[-> E]|[-> E]]]]; destruct v; try by eexists.
    all: exfalso; revert Ha; destruct E as [-> | ->]; simpl; rewrite ?andb_false_r; discriminate. }
  exists r. split; [done|]. by eapply store_value_var.
Qed.

End Types.

(** ** The instruction *)

Section Insn.
Context {PF : Platform} {TL : TypeLibrary}.
Variable GetTypeSize : Z -> Z.
Variables (depth : nat) (unsafeAllowed : bool) (vars : method_vars) (sg : il_sig) (coder0 : ILCVMCoder).

#[local] Instance CC : ILCoder ILCVMCoder := cvm_coder GetTypeSize.
#[local] Instance CV : ILVarCoder ILCVMCoder := cvm_var_coder GetTypeSize.

(** The variables are those of the signature, of integer types, and their
    offsets are laid out. *)
Record vars_fine : Prop := {
  vf_args : Forall2 (fun type t => vtype_of type = Some t) (argTypes vars) (sig_args sg);
  vf_locals : Forall2 (fun type t => vtype_of type = Some t) (localTypes vars) (sig_locals sg);
  vf_layout : frame_layout sg coder0;
  vf_types : method_types_apart;
}.

Hypothesis Hvars : vars_fine.

Definition types_of (arg : bool) : list Z := if arg then argTypes vars else localTypes vars.

Lemma var_type_fine arg n type :
  0 <= n -> var_type (types_of arg) n = Ret type ->
  exists t off, vtype_of type = Some t /\ placed sg coder0 arg n t off /\ slot_place t off.
Proof.
  intros Hn. unfold var_type. destruct (Z.of_nat _ <=? n); [done|].
  destruct (types_of arg !! Z.to_nat n) as [ty|] eqn:E; [|done]. intros [= <-].
  assert (exists t, type_list arg sg !! Z.to_nat n = Some t /\ vtype_of ty = Some t) as (t & Ht & Hty).
  { destruct Hvars as [Ha Hl _ _]. destruct arg; simpl in E |- *.
    - destruct (Forall2_lookup_l _ _ _ _ _ Ha E) as (t & ? & ?). by exists t.
    - destruct (Forall2_lookup_l _ _ _ _ _ Hl E) as (t & ? & ?). by exists t. }
  assert (il_type sg arg n = Some t) as Hit by (unfold il_type; by rewrite (proj2 (Z.leb_le 0 n))).
  destruct (fl_place _ _ (vf_layout Hvars) _ _ _ Hit) as (off & Ho & Hp).
  exists t, off. split; [done|]. by split.
Qed.

(** What an accepted access is. *)
Inductive access_sound (mem : list Z) (o opcode : Z) (vs : list value) (coder coder' : ILCVMCoder)
    (stack' : list ILEngineStackItem) : Prop :=
  | sound_load arg n t off bs :
      il_access mem o opcode = Some (mk_access false arg n) ->
      placed sg coder0 arg n t off -> outputs coder coder' bs -> loads bs off t ->
      (forall v, var_value t v -> typed stack' (v :: vs)) ->
      access_sound mem o opcode vs coder coder' stack'
  | sound_store arg n t off bs v rest r :
      il_access mem o opcode = Some (mk_access true arg n) -> vs = v :: rest ->
      placed sg coder0 arg n t off -> outputs coder coder' bs ->
      store_value t v = Some r -> var_value t r -> stores bs (width_of v) (number v) off t r ->
      typed stack' rest -> access_sound mem o opcode vs coder coder' stack'.

Lemma access_outputs mem o opcode vs coder coder' stack' :
  access_sound mem o opcode vs coder coder' stack' -> exists bs, outputs coder coder' bs.
Proof. intros [? ? ? ? bs|? ? ? ? bs]; by exists bs. Qed.

Lemma typed_load stack vs t type v :
  typed stack vs -> var_value t v -> typed (mk_item (vt_type t) type :: stack) (v :: vs).
Proof.
  intros Hs Hv. rewrite <-(var_value_type _ _ Hv). destruct Hv. by apply typed_cons.
Qed.

Section Access.
Variables (mem : list Z) (o opcode : Z) (vs : list value) (coder : ILCVMCoder).
Variables (stack : list ILEngineStackItem).
Hypothesis Hoffsets : same_offsets coder0 coder.
Hypothesis Hstack : typed stack vs.

Lemma offsets_same arg : offsets arg coder = offsets arg coder0.
Proof. destruct Hoffsets as [E1 E2]. by destruct arg. Qed.

Lemma load_sound arg n t off type coder' :
  il_access mem o opcode = Some (mk_access false arg n) ->
  vtype_of type = Some t -> placed sg coder0 arg n t off -> slot_place t off ->
  (offset ← offset_of (offsets arg coder) n; Some (LoadLocal GetTypeSize coder offset type)) = Some coder' ->
  access_sound mem o opcode vs coder coder' (mk_item (vt_type t) type :: stack).
Proof.
  intros Ha Ht Hp Hs. rewrite offsets_same, (proj2 Hp). intros [= <-].
  destruct (LoadLocal_loads GetTypeSize coder _ _ _ Ht Hs) as (bs & Ho & Hl).
  eapply sound_load; try done. intros v Hv. by apply typed_load.
Qed.

Lemma store_sound arg n t off type i rest coder' :
  il_access mem o opcode = Some (mk_access true arg n) -> stack = i :: rest ->
  vtype_of type = Some t -> placed sg coder0 arg n t off -> slot_place t off ->
  AssignCompatible depth i type unsafeAllowed = Ret true ->
  (offset ← offset_of (offsets arg coder) n;
   Some (StoreLocal GetTypeSize coder offset (engineType i) type)) = Some coder' ->
  access_sound mem o opcode vs coder coder' rest.
Proof.
  intros Ha E Ht Hp Hs Hok. rewrite offsets_same, (proj2 Hp). intros [= <-]. rewrite E in Hstack.
  destruct vs as [|v vs']; [by destruct Hstack|].
  destruct (typed_1 _ _ _ Hstack) as (? & ? & [= <- <-] & Ei & Hrest & Wv).
  destruct (assign_stores _ _ _ _ _ _ (vf_types Hvars) Ht Ei Wv Hok) as (r & Hr & Hv).
  destruct (StoreLocal_stores GetTypeSize coder _ _ _ _ _ Ht Hs Wv Hr) as (bs & Ho & Hst).
  rewrite Ei. by eapply sound_store.
Qed.

Lemma top1_ret (l : list ILEngineStackItem) x rest : top1 l = Ret (x, rest) -> l = x :: rest.
Proof. destruct l; [done|]. by intros [= <- <-]. Qed.

Lemma access_ret {A} (x : option A) y : access x = Ret y -> x = Some y.
Proof. destruct x; [|done]. by intros [= ->]. Qed.

(** The four instructions, once the number of the variable is known. *)
Lemma verify_load_sound arg n stack' coder' :
  0 <= n -> il_access mem o opcode = Some (mk_access false arg n) ->
  (if arg then verify_ldarg depth unsafeAllowed vars n stack coder
   else verify_ldloc depth unsafeAllowed vars n stack coder) = Ret (stack', coder') ->
  access_sound mem o opcode vs coder coder' stack'.
Proof.
  intros Hn Ha.
  assert (forall ty t, vtype_of ty = Some t -> (ty =? ILType_Invalid) = false /\ IsUnsafeType ty = false /\
    is_type (vt_type t) ILEngineType_M = false) as Hf.
  { intros ty t Ht. destruct (primitive_simple _ (proj1 (vtype_primitive _ _ Ht))) as (_ & Hc & Hi).
    split; [done|]. unfold IsUnsafeType. rewrite Hc. split; [done|]. by destruct t. }
  destruct arg; [unfold verify_ldarg|unfold verify_ldloc].
  - destruct (var_type (argTypes vars) n) as [ty| | | |] eqn:E; cbn [mbind vres_bind]; try done.
    destruct (var_type_fine true n ty Hn E) as (t & off & Ht & Hp & Hs). destruct (Hf _ _ Ht) as (-> & -> & Hm).
    destruct (TypeToEngineType depth ty) as [et| | | |] eqn:Et; cbn [mbind vres_bind]; try done.
    rewrite (vtype_engine_type _ _ _ _ Ht Et), Hm. cbn [negb orb].
    destruct (access _) as [c| | | |] eqn:Ec; cbn [mbind vres_bind]; try done. intros [= <- <-].
    apply access_ret in Ec. by apply (load_sound true n t off).
  - destruct (var_type (localTypes vars) n) as [ty| | | |] eqn:E; cbn [mbind vres_bind]; try done.
    destruct (var_type_fine false n ty Hn E) as (t & off & Ht & Hp & Hs). destruct (Hf _ _ Ht) as (_ & -> & Hm).
    destruct (TypeToEngineType depth ty) as [et| | | |] eqn:Et; cbn [mbind vres_bind]; try done.
    rewrite (vtype_engine_type _ _ _ _ Ht Et), Hm. cbn [negb andb].
    destruct (access _) as [c| | | |] eqn:Ec; cbn [mbind vres_bind]; try done. intros [= <- <-].
    apply access_ret in Ec. by apply (load_sound false n t off).
Qed.

Lemma verify_store_sound arg n stack' coder' :
  0 <= n -> il_access mem o opcode = Some (mk_access true arg n) ->
  (if arg then verify_starg depth unsafeAllowed vars n stack coder
   else verify_stloc depth unsafeAllowed vars n stack coder) = Ret (stack', coder') ->
  access_sound mem o opcode vs coder coder' stack'.
Proof.
  intros Hn Ha. destruct arg; [unfold verify_starg|unfold verify_stloc].
  - destruct (var_type (argTypes vars) n) as [ty| | | |] eqn:E; cbn [mbind vres_bind]; try done.
    destruct (var_type_fine true n ty Hn E) as (t & off & Ht & Hp & Hs).
    destruct (primitive_simple _ (proj1 (vtype_primitive _ _ Ht))) as (_ & _ & ->).
    destruct (top1 stack) as [[i rest]| | | |] eqn:Es; cbn [mbind vres_bind]; try done.
    apply top1_ret in Es.
    destruct (AssignCompatible depth i ty unsafeAllowed) as [[]| | | |] eqn:Eok; cbn [mbind vres_bind]; try done.
    destruct (access _) as [c| | | |] eqn:Ec; cbn [mbind vres_bind]; try done. intros [= <- <-].
    apply access_ret in Ec. by apply (store_sound true n t off ty i rest).
  - destruct (var_type (localTypes vars) n) as [ty| | | |] eqn:E; cbn [mbind vres_bind]; try done.
    destruct (var_type_fine false n ty Hn E) as (t & off & Ht & Hp & Hs).
    destruct (top1 stack) as [[i rest]| | | |] eqn:Es; cbn [mbind vres_bind]; try done.
    apply top1_ret in Es.
    destruct (AssignCompatible depth i ty unsafeAllowed) as [[]| | | |] eqn:Eok; cbn [mbind vres_bind]; try done.
    destruct (access _) as [c| | | |] eqn:Ec; cbn [mbind vres_bind]; try done. intros [= <- <-].
    apply access_ret in Ec. by apply (store_sound false n t off ty i rest).
Qed.

Lemma var_number_nonneg kind form num :
  Forall is_byte mem -> var_instruction opcode = Some (kind, form) -> var_number mem o form = Ret num -> 0 <= num.
Proof.
  intros Hb Hv. assert (forall i b, pc_at mem i 0 = Some b -> is_byte b) as Hbyte.
  { intros j b H. unfold pc_at in H. destruct (0 <=? j + 0); [|done]. by eapply Forall_lookup_1 in H. }
  assert (match form with Tiny n => 0 <= n | _ => True end) as Ht.
  { revert Hv. apply (var_instruction_forall (fun _ _ form => match form with Tiny n => 0 <= n | _ => True end)).
    repeat (apply Forall_cons_2; [done|]). apply Forall_nil_2. }
  destruct form; simpl.
  - by intros [= <-].
  - intros H%rd_bytes%Hbyte. unfold is_byte in H. lia.
  - intros (b0 & b1 & H0%Hbyte & H1%Hbyte & ->)%rd_uint16_bytes; [|done]. unfold is_byte in *. lia.
Qed.

Lemma verify_var_sound mask kind form stack' coder' :
  Forall is_byte mem -> var_instruction opcode = Some (kind, form) -> integer_opcode opcode = true ->
  verify_var depth unsafeAllowed vars mem mask o opcode kind form stack coder = Ret (stack', coder') ->
  access_sound mem o opcode vs coder coder' stack'.
Proof.
  intros Hb Hv Hi. unfold verify_var.
  destruct (this_field vars mem mask o opcode) as [[]| | | |]; cbn [mbind vres_bind]; try done.
  destruct (var_number mem o form) as [num| | | |] eqn:En; cbn [mbind vres_bind]; try done.
  pose proof (var_integer _ _ _ Hv Hi) as Hk. pose proof (var_number_nonneg _ _ _ Hb Hv En) as Hn.
  pose proof (var_access _ _ _ _ _ _ Hb Hv Hk En) as Ha.
  destruct kind; simpl in Ha; [apply (verify_load_sound true num)|apply (verify_store_sound true num)
    |apply (verify_load_sound false num)|apply (verify_store_sound false num)|..]; try done.
  all: by destruct Hk.
Qed.

(** The reference semantics loads only where the verifier does. *)
Lemma verify_var_load mask kind form r arg n :
  Forall is_byte mem -> var_instruction opcode = Some (kind, form) -> integer_opcode opcode = true ->
  verify_var depth unsafeAllowed vars mem mask o opcode kind form stack coder = Ret r ->
  il_access mem o opcode = Some (mk_access false arg n) -> is_load kind = true.
Proof.
  intros Hb Hv Hi. unfold verify_var.
  destruct (this_field vars mem mask o opcode) as [[]| | | |]; cbn [mbind vres_bind]; try done.
  destruct (var_number mem o form) as [num| | | |] eqn:En; cbn [mbind vres_bind]; try done. intros _ Ha.
  destruct (var_integer _ _ _ Hv Hi) as [Hl|Hs]; [done|].
  rewrite (var_access _ _ _ _ _ _ Hb Hv (or_intror Hs) En) in Ha. by destruct kind.
Qed.

End Access.
End Insn.
