(* ===== verification/SetupFrame.v ===== *)
(** * The frame that the set-up of a method lays out

    For a method with arguments and local variables of integer types and
    without a "this" argument: the offsets of CVMCoder_Setup do not overlap
    and are in the order of the signature, and the entry code turns the
    arguments that the caller left on the stack into a frame with all local
    variables zero, or throws when the stack area is too small. *)
From Stdlib Require Import ZArith Lia.
From stdpp Require Import base list option numbers.
From S2P Require Import Prelude Opcodes Cvm CvmStack CvmVar Interp JumpMask Scan Coder CoderBranch Types CoderVar CoderSetup ILSpec CvmProps CvmOps CoderProps BranchLayout Refine ILVars CoderLabels Frame FrameVars VarSound Verdict.

Local Open Scope Z_scope.

(** ** Offsets *)

Section Layout.
Context {PF : Platform}.

Definition slots_size (ts : list vtype) : Z := foldr (fun t n => vt_words t + n) 0 ts.

Lemma vt_words_pos t : 1 <= vt_words t <= 2.
Proof. apply words_of_pos. Qed.

Lemma slots_size_nonneg ts : 0 <= slots_size ts.
Proof. induction ts as [|t ts IH]; simpl; [done|]. pose proof (vt_words_pos t). lia. Qed.

Lemma slots_size_app ts ts' : slots_size (ts ++ ts') = slots_size ts + slots_size ts'.
Proof. induction ts as [|t ts IH]; simpl; [done|]. lia. Qed.

Lemma slots_size_take ts i j t :
  ts !! i = Some t -> (i < j)%nat -> slots_size (take i ts) + vt_words t <= slots_size (take j ts).
Proof.
  intros Hi Hj. assert (take j ts = take i ts ++ t :: drop (S i) (take j ts)) as ->.
  { symmetry. etrans; [|apply (take_drop_middle (take j ts) i t)]; [|by rewrite lookup_take_lt by lia].
    rewrite take_take. by replace (i `min` j)%nat with i by lia. }
  rewrite slots_size_app. simpl. pose proof (slots_size_nonneg (drop (S i) (take j ts))). lia.
Qed.

Lemma slots_size_lookup ts i t :
  ts !! i = Some t -> slots_size (take i ts) + vt_words t <= slots_size ts.
Proof.
  intros Hi. rewrite <-(firstn_all ts) at 2. apply slots_size_take; [done|]. by eapply lookup_lt_Some.
Qed.

Lemma alloc_slots_spec size_of types ts offset offs fin :
  Forall2 (fun type t => size_of type = vt_words t) types ts -> 0 <= offset ->
  offset + slots_size ts <= IL_MAX_UINT32 -> alloc_slots size_of offset types = (offs, fin) ->
  fin = offset + slots_size ts /\ length offs = length ts /\
  forall i t, ts !! i = Some t -> offs !! i = Some (offset + slots_size (take i ts)).
Proof.
  intros Hf. revert offset offs. induction Hf as [|type t types ts Ht _ IH]; intros offset offs H0 Hmax.
  { simpl. intros [= <- <-]. split; [lia|]. split; [done|]. by intros i t. }
  change (slots_size (t :: ts)) with (vt_words t + slots_size ts) in *. pose proof (vt_words_pos t). pose proof (slots_size_nonneg ts).
  simpl. rewrite Ht, u32_id by lia. destruct (alloc_slots size_of (offset + vt_words t) types) as [offs' fin'] eqn:E.
  intros [= <- <-]. assert (0 <= offset + vt_words t) as H2 by lia.
  assert (offset + vt_words t + slots_size ts <= IL_MAX_UINT32) as H3 by lia.
  destruct (IH _ _ H2 H3 E) as (-> & Hlen & Hoffs).
  split; [lia|]. split; [simpl; by rewrite Hlen|]. intros [|i] t'; cbn [lookup list_lookup take]; [intros _; f_equal; unfold slots_size; simpl; lia|].
  intros Hi. etrans; [exact (Hoffs _ _ Hi)|]. f_equal. change (slots_size (t :: take i ts)) with (vt_words t + slots_size (take i ts)). lia.
Qed.

(** The place of each variable of a signature: the arguments, then the local
    variables. *)
Definition place (sg : il_sig) (arg : bool) (n : Z) : Z :=
  if arg then slots_size (take (Z.to_nat n) (sig_args sg))
  else slots_size (sig_args sg) + slots_size (take (Z.to_nat n) (sig_locals sg)).

Definition frame_size (sg : il_sig) : Z := slots_size (sig_args sg) + slots_size (sig_locals sg).

Lemma place_in_frame sg arg n t :
  il_type sg arg n = Some t -> 0 <= place sg arg n /\ place sg arg n + vt_words t <= frame_size sg.
Proof.
  unfold il_type, place, frame_size. destruct (0 <=? n); [|done]. intros Ht.
  pose proof (slots_size_nonneg (sig_args sg)). pose proof (slots_size_nonneg (sig_locals sg)).
  destruct arg; simpl in Ht; pose proof (slots_size_lookup _ _ _ Ht);
    pose proof (slots_size_nonneg (take (Z.to_nat n) (sig_args sg)));
    pose proof (slots_size_nonneg (take (Z.to_nat n) (sig_locals sg))); lia.
Qed.

Lemma place_disjoint sg arg n t arg' n' t' :
  il_type sg arg n = Some t -> il_type sg arg' n' = Some t' -> (arg, n) <> (arg', n') ->
  place sg arg n + vt_words t <= place sg arg' n' \/ place sg arg' n' + vt_words t' <= place sg arg n.
Proof.
  unfold il_type, place. destruct (Z.leb_spec 0 n), (Z.leb_spec 0 n'); try done. intros Ht Ht' Hne.
  pose proof (slots_size_nonneg (take (Z.to_nat n) (sig_locals sg))).
  pose proof (slots_size_nonneg (take (Z.to_nat n') (sig_locals sg))).
  assert (arg = arg' -> (Z.to_nat n < Z.to_nat n')%nat \/ (Z.to_nat n' < Z.to_nat n)%nat) as Hcases.
  { intros <-. assert (n <> n') by congruence. lia. }
  destruct arg, arg'; simpl in Ht, Ht'.
  - destruct (Hcases eq_refl) as [Hlt|Hlt]; [left|right]; by apply slots_size_take.
  - left. pose proof (slots_size_lookup _ _ _ Ht). lia.
  - right. pose proof (slots_size_lookup _ _ _ Ht'). lia.
  - destruct (Hcases eq_refl) as [Hlt|Hlt]; [left|right];
      [pose proof (slots_size_take _ _ _ _ Ht Hlt)|pose proof (slots_size_take _ _ _ _ Ht' Hlt)]; lia.
Qed.

End Layout.

(** ** The set-up *)

Section Setup.
Context {PF : Platform} {TL : TypeLibrary}.
Variable GetTypeSize : Z -> Z.

(** Integers take as many words as their slots. *)
Definition sizes_fine : Prop :=
  forall type t, vtype_of type = Some t -> GetTypeSize type = vt_words t.

(** A signature of integers, whose frame fits; bytes are in the first 256
    words of it. *)
Record sig_fine (signature : MethodSig) (sg : il_sig) : Prop := {
  sf_this : HasThis signature = false;
  sf_vararg : IsVararg signature = false;
  sf_params : Forall2 (fun type t => vtype_of type = Some t) (Params signature) (sig_args sg);
  sf_locals :
    Forall2 (fun type t => vtype_of type = Some t) (default [] (localVarSig signature)) (sig_locals sg);
  sf_size : frame_size sg <= IL_MAX_UINT32;
  sf_bytes arg n : il_type sg arg n = Some V_U1 -> frame_size sg <= 256;
}.

(** The entry code. *)
Definition wide_bytes (op n : Z) : list Z :=
  if n <? 256 then [op; n] else COP_WIDE :: op :: word_bytes n.
Definition mk_local_bytes (n : Z) : list Z :=
  if n =? 1 then [COP_MK_LOCAL_1] else if n =? 2 then [COP_MK_LOCAL_2]
  else if n =? 3 then [COP_MK_LOCAL_3] else if n =? 0 then [] else wide_bytes COP_MK_LOCAL_N n.
Definition num_args_bytes (sg : il_sig) : list Z := wide_bytes COP_SET_NUM_ARGS (slots_size (sig_args sg)).
Definition entry_bytes (sg : il_sig) (check_bytes : list Z) : list Z :=
  num_args_bytes sg ++ check_bytes ++ mk_local_bytes (slots_size (sig_locals sg)).

Lemma code_wide coder op n :
  0 <= n -> u8 op = op -> Coder.code (CVM_OUT_WIDE coder op n) = Coder.code coder ++ wide_bytes op n.
Proof.
  intros Hn Hop. unfold CVM_OUT_WIDE, wide_bytes.
  destruct (Z.ltb_spec n 256); cbn -[u8 Z.shiftr]; rewrite <-!app_assoc, Hop; [|reflexivity].
  simpl app. by assert (u8 n = n) as -> by width_lia.
Qed.

Lemma code_mk_local coder n :
  0 <= n -> Coder.code (out_mk_local coder n) = Coder.code coder ++ mk_local_bytes n.
Proof.
  intros Hn. unfold out_mk_local, mk_local_bytes.
  repeat (destruct (n =? _); [cbn; by rewrite ?app_nil_r|]).
  by apply code_wide.
Qed.

Lemma vtype_arg_words type t :
  sizes_fine -> vtype_of type = Some t -> arg_words GetTypeSize type = vt_words t.
Proof.
  intros Hs Ht. unfold arg_words. pose proof (vtype_primitive _ _ Ht) as [Hp He].
  destruct (primitive_simple _ Hp) as (-> & _).
  assert ((type =? ILType_Float32) || (type =? ILType_Float64) = false) as ->; [|by apply Hs].
  rewrite (from_to_element _ Hp).
  by destruct (elem_vtype_cases _ _ He) as [[_ [-> | ->]]|[[_ [-> | ->]]|[[_ [-> | ->]]|[_ [-> | ->]]]]].
Qed.

Lemma fix_args_integers coder params ts offsets :
  Forall2 (fun type t => vtype_of type = Some t) params ts -> (length ts <= length offsets)%nat ->
  fix_args coder params offsets = Some coder.
Proof.
  intros Hf. revert offsets. induction Hf as [|type t params ts Ht _ IH]; intros offsets Hl; [done|].
  destruct offsets as [|offset offsets]; simpl in Hl; [lia|]. simpl.
  assert (fix_arg coder type offset = coder) as ->; [|apply IH; lia].
  unfold fix_arg. pose proof (vtype_primitive _ _ Ht) as [Hp He]. destruct (primitive_simple _ Hp) as (-> & _).
  rewrite (from_to_element _ Hp).
  by destruct (elem_vtype_cases _ _ He) as [[_ [-> | ->]]|[[_ [-> | ->]]|[[_ [-> | ->]]|[_ [-> | ->]]]]].
Qed.

(** What the set-up leaves. *)
Record setup_done (sg : il_sig) (coder : ILCVMCoder) (ck : Z) : Prop := {
  sd_code : Coder.code coder = entry_bytes sg [COP_CKHEIGHT_N; 0; 0; 0; 0];
  sd_check : ck = Z.of_nat (length (num_args_bytes sg));
  sd_height : height coder = frame_size sg /\ minHeight coder = frame_size sg /\ maxHeight coder = frame_size sg;
  sd_offsets arg n t : il_type sg arg n = Some t -> offset_of (offsets arg coder) n = Some (place sg arg n);
}.

Lemma wide_offsets coder op n : same_offsets coder (CVM_OUT_WIDE coder op n).
Proof. unfold CVM_OUT_WIDE. by case_match. Qed.

Lemma mk_local_offsets coder n : same_offsets coder (out_mk_local coder n).
Proof. unfold out_mk_local, CVM_OUT_WIDE. by repeat case_match. Qed.

Lemma setup_sound coder0 signature sg :
  sizes_fine -> sig_fine signature sg ->
  exists coder ck, CVMCoder_Setup GetTypeSize false coder0 signature = Some (coder, ck) /\
    setup_done sg coder ck /\ labelList coder = labelList coder0.
Proof.
  intros Hs [Hthis Hvar Hpar Hloc Hsize _]. unfold frame_size in Hsize.
  pose proof (slots_size_nonneg (sig_args sg)) as Ha0. pose proof (slots_size_nonneg (sig_locals sg)) as Hl0.
  unfold CVMCoder_Setup, CVMEntryAllocArgs. rewrite Hthis, Hvar. cbn [andb].
  destruct (alloc_slots (arg_words GetTypeSize) 0 (Params signature)) as [aoffs afin] eqn:Ea.
  assert (Forall2 (fun type t => arg_words GetTypeSize type = vt_words t) (Params signature) (sig_args sg)) as Hpw
    by (eapply Forall2_impl; [|exact Hpar]; intros; by apply vtype_arg_words).
  destruct (alloc_slots_spec _ _ _ 0 _ _ Hpw ltac:(lia) ltac:(lia) Ea) as (-> & Halen & Haoffs).
  simpl app. rewrite Z.add_0_l.
  set (coder1 := set_argOffsets coder0 aoffs).
  assert (exists loffs, CVMEntryAllocLocals GetTypeSize
      (mk_ctx 0 (slots_size (sig_args sg)) (numLocalWords CVMEntryInit) (extraLocals CVMEntryInit)) coder1
      (localVarSig signature) =
    (mk_ctx 0 (slots_size (sig_args sg)) (slots_size (sig_locals sg)) 0, set_localOffsets coder1 loffs) /\
    forall i t, sig_locals sg !! i = Some t -> loffs !! i = Some (slots_size (sig_args sg) + slots_size (take i (sig_locals sg))))
    as (loffs & -> & Hloffs).
  { destruct (localVarSig signature) as [types|]; simpl in Hloc |- *.
    - destruct (alloc_slots GetTypeSize (slots_size (sig_args sg)) types) as [loffs lfin] eqn:El.
      assert (Forall2 (fun type t => GetTypeSize type = vt_words t) types (sig_locals sg)) as Hlw
        by (eapply Forall2_impl; [|exact Hloc]; intros; by apply Hs).
      destruct (alloc_slots_spec _ _ _ _ _ _ Hlw Ha0 ltac:(lia) El) as (-> & _ & Hloffs).
      exists loffs. split; [|exact Hloffs]. rewrite Z.add_simpl_l, u32_id by lia. done.
    - apply Forall2_nil_inv_l in Hloc. rewrite Hloc. exists (localOffsets coder1). by split. }
  unfold CVMEntryGen. cbn [numArgWords thisAdjust numLocalWords extraLocals].
  rewrite (fix_args_integers _ _ (sig_args sg)); [|done|rewrite (proj1 (wide_offsets _ _ _)); change (Z.to_nat 0) with 0%nat; rewrite drop_0; simpl; lia].
  cbn [mbind option_bind].
  rewrite Z.add_0_r, (u32_id (slots_size (sig_locals sg))), 
    (u32_id (slots_size (sig_args sg) + slots_size (sig_locals sg))) by lia.
  eexists _, _. split; [reflexivity|]. split; [split|].
  - unfold set_heights. cbn [Coder.code]. rewrite code_mk_local by done. cbn [Coder.code CVM_OUT_CKHEIGHT CVM_WORD CVM_BYTE].
    rewrite code_wide by done. unfold entry_bytes, num_args_bytes. simpl. by rewrite <-!app_assoc.
  - unfold CVM_POSN. rewrite code_wide by done. reflexivity.
  - done.
  - intros arg n t. unfold il_type, offset_of, offsets, place. destruct (0 <=? n); [|done].
    destruct arg; simpl; intros Ht.
    + rewrite (proj1 (mk_local_offsets _ _)). simpl. rewrite (proj1 (wide_offsets _ _ _)). by eapply Haoffs.
    + rewrite (proj2 (mk_local_offsets _ _)). simpl. rewrite (proj2 (wide_offsets _ _ _)). by eapply Hloffs.
  - simpl. unfold out_mk_local, CVM_OUT_WIDE. by repeat case_match.
Qed.

(** The layout of the frame. *)
Lemma setup_layout signature sg coder ck :
  sig_fine signature sg -> setup_done sg coder ck -> frame_layout sg coder.
Proof.
  intros [_ _ _ _ Hsize Hbytes] [_ _ _ Hoff]. split.
  - intros arg n t Ht. exists (place sg arg n). split; [by eapply Hoff|].
    destruct (place_in_frame _ _ _ _ Ht) as [H0 H1]. pose proof (vt_words_pos t). split; [lia|].
    intros ->. apply Hbytes in Ht. lia.
  - intros arg n t off arg' n' t' off' [Ht Ho] [Ht' Ho'] Hne.
    rewrite (Hoff _ _ _ Ht) in Ho. rewrite (Hoff _ _ _ Ht') in Ho'. injection Ho as <-. injection Ho' as <-.
    by apply place_disjoint.
Qed.

End Setup.

(** ** The entry of a method *)

Section Entry.
Context {PF : Platform}.

(** The height check, for the maximum height of the method. *)
Definition check_bytes (maxHeight : Z) : list Z :=
  if maxHeight <=? 8 then [COP_CKHEIGHT; 0; 0; 0; 0] else COP_CKHEIGHT_N :: word_bytes maxHeight.

Lemma finish_code coder ck pre post :
  Coder.code coder = pre ++ [COP_CKHEIGHT_N; 0; 0; 0; 0] ++ post -> ck = Z.of_nat (length pre) ->
  Coder.code (CVMCoder_Finish coder ck) = pre ++ check_bytes (maxHeight coder) ++ post.
Proof.
  intros Hc Hck. unfold CVMCoder_Finish. cbn [Coder.code set_labels set_code]. rewrite Hc.
  unfold CVM_BACKPATCH_CKHEIGHT, check_bytes.
  pose proof (fun bs (k : nat) v Hk => patch_byte_at pre bs post ck k v Hck Hk) as Hat.
  destruct (maxHeight coder <=? 8).
  - specialize (Hat [COP_CKHEIGHT_N; 0; 0; 0; 0] 0%nat COP_CKHEIGHT ltac:(simpl; lia)).
    rewrite Z.add_0_r in Hat. exact Hat.
  - unfold IL_WRITE_INT32. replace (ck + 1 + 1) with (ck + 2) by lia. replace (ck + 1 + 2) with (ck + 3) by lia.
    replace (ck + 1 + 3) with (ck + 4) by lia.
    rewrite (Hat _ 1%nat), (Hat _ 2%nat), (Hat _ 3%nat), (Hat _ 4%nat) by (simpl; lia). reflexivity.
Qed.

Lemma step_num_args c st n :
  code_at c (pc st) (wide_bytes COP_SET_NUM_ARGS n) -> 0 <= n <= IL_MAX_UINT32 ->
  step c st = Some (Next (mk_cvm (pc st + Z.of_nat (length (wide_bytes COP_SET_NUM_ARGS n)))
    (Z.of_nat (length (below st)) - n) (below st) (above st))).
Proof.
  unfold wide_bytes. destruct (Z.ltb_spec n 256); intros Hc Hn.
  - rewrite (step_main _ _ _ _ _ Hc eq_refl). unfold exec_SET_NUM_ARGS.
    rewrite (byte_arg _ _ _ n _ ltac:(lia) Hc). reflexivity.
  - rewrite (step_wide _ _ _ _ _ Hc eq_refl). unfold exec_SET_NUM_ARGS_WIDE.
    destruct (wide_arg _ _ _ _ _ Hn eq_refl Hc) as [_ ->]. reflexivity.
Qed.

Lemma step_check c st n :
  code_at c (pc st) (check_bytes n) -> Z.of_nat (length (above st)) <= IL_MAX_UINT32 -> n <= IL_MAX_UINT32 ->
  step c st =
    if Z.max 8 n <? Z.of_nat (length (above st))
    then Some (Next (mk_cvm (pc st + Z.of_nat (length (check_bytes n))) (frame st) (below st) (above st)))
    else Some (Throw StackOverflowException st).
Proof.
  unfold check_bytes. intros Hc Hab Hn. destruct (Z.leb_spec n 8).
  - rewrite (step_main _ _ _ _ _ Hc eq_refl), Z.max_l by lia. unfold exec_CKHEIGHT. rewrite u32_id by lia. by case_match.
  - rewrite (step_main _ _ _ _ _ Hc eq_refl), Z.max_r by lia. unfold exec_CKHEIGHT_N, CVM_ARG_WORD, pc_uint32.
    pose proof (fun i b => pc_at_code _ _ _ i b Hc) as Hat. unfold word_bytes in Hat.
    rewrite (Hat 1%nat _ eq_refl : pc_at c (pc st) 1 = _), (Hat 2%nat _ eq_refl : pc_at c (pc st) (1 + 1) = _),
      (Hat 3%nat _ eq_refl : pc_at c (pc st) (1 + 2) = _), (Hat 4%nat _ eq_refl : pc_at c (pc st) (1 + 3) = _).
    cbn [mbind option_bind]. rewrite Prelude.word_bytes by lia. rewrite u32_id by lia. by case_match.
Qed.

Lemma memzero_above p fr l zs n old ab :
  length old = n ->
  memzero_words n (mk_cvm p fr l (zs ++ old ++ ab)) (Z.of_nat (length zs)) =
    Some (mk_cvm p fr l (zs ++ repeat 0 n ++ ab)).
Proof.
  revert zs old. induction n as [|n IH]; intros zs [|x old] Hold; try discriminate Hold; [done|].
  simpl. injection Hold as Hold. unfold set_word. rewrite (proj2 (Z.ltb_ge _ _)) by lia. cbn [above below pc frame].
  unfold list_store. rewrite (proj2 (Nat.ltb_lt _ _)) by (rewrite length_app; simpl; lia).
  cbn [mbind option_bind]. rewrite Nat2Z.id, insert_app_r_alt, Nat.sub_diag by done.
  cbn [insert list_insert app]. specialize (IH (zs ++ [0]) old Hold). rewrite length_app, Nat2Z.inj_add in IH.
  rewrite <-!app_assoc in IH. exact IH.
Qed.

Lemma zero_words p fr l old ab :
  memzero_words (length old) (mk_cvm p fr l (old ++ ab)) 0 = Some (mk_cvm p fr l (repeat 0 (length old) ++ ab)).
Proof. exact (memzero_above p fr l [] (length old) old ab eq_refl). Qed.

Lemma rev_repeat {A} (x : A) n : rev (repeat x n) = repeat x n.
Proof.
  induction n as [|n IH]; [done|]. simpl. rewrite IH. symmetry. exact (repeat_cons n x).
Qed.

Lemma run_mk_local c p fr l old ab n :
  code_at c p (mk_local_bytes n) -> n = Z.of_nat (length old) -> n <= IL_MAX_UINT32 ->
  exists k, run k c (mk_cvm p fr l (old ++ ab)) =
    Some (Next (mk_cvm (p + Z.of_nat (length (mk_local_bytes n))) fr (repeat 0 (length old) ++ l) ab)).
Proof.
  intros Hc Hn Hmax. set (st := mk_cvm p fr l (old ++ ab)).
  assert (forall len, (st' ← memzero_words (length old) st 0; MODIFY_PC_AND_STACK st' len n) =
    Some (Next (mk_cvm (p + len) fr (repeat 0 (length old) ++ l) ab))) as Hz.
  { intros len. unfold st. rewrite zero_words. cbn [mbind option_bind]. unfold MODIFY_PC_AND_STACK.
    rewrite move_stack_above, rev_repeat by (by rewrite repeat_length). reflexivity. }
  revert Hc. unfold mk_local_bytes.
  destruct (Z.eqb_spec n 1) as [->|_]; [|destruct (Z.eqb_spec n 2) as [->|_]; [|destruct (Z.eqb_spec n 3) as [->|_];
    [|destruct (Z.eqb_spec n 0) as [->|_]]]].
  1-3: intros Hc; exists 1%nat; apply run_1; rewrite (step_main _ st _ _ _ Hc eq_refl);
    (etrans; [|exact (Hz 1)]); unfold exec_MK_LOCAL_1, exec_MK_LOCAL_2, exec_MK_LOCAL_3.
  1: by replace (length old) with 1%nat by lia.
  1: by replace (length old) with 2%nat by lia.
  1: by replace (length old) with 3%nat by lia.
  - intros _. exists 0%nat. destruct old; [|simpl in Hn; lia]. simpl. by rewrite Z.add_0_r.
  - assert (Z.to_nat n = length old) as Hnat by lia. assert (0 <= n <= IL_MAX_UINT32) as Hrange by lia.
    unfold wide_bytes. destruct (Z.ltb_spec n 256); intros Hc; exists 1%nat; apply run_1.
    + rewrite (step_main _ st _ _ _ Hc eq_refl). unfold exec_MK_LOCAL_N.
      rewrite (byte_arg _ (pc st) _ n _ ltac:(lia) Hc). cbn [mbind option_bind]. rewrite Hnat. apply Hz.
    + rewrite (step_wide _ st _ _ _ Hc eq_refl). unfold exec_MK_LOCAL_N_WIDE.
      destruct (wide_arg _ (pc st) _ _ _ Hrange eq_refl Hc) as [_ ->]. cbn [mbind option_bind].
      rewrite Hnat. apply Hz.
Qed.

End Entry.

(** ** The frame behind the entry *)

Section Frame.
Context {PF : Platform}.

(** The words of variables in the order of their places: the first is the
    lowest. *)
Fixpoint slots (ts : list vtype) (vs : list value) (ws : list Z) : Prop :=
  match ts, vs with
  | [], [] => ws = []
  | t :: ts, v :: vs => exists w ws', ws = ws' ++ w /\ slot_words t v w /\ slots ts vs ws'
  | _, _ => False
  end.

Lemma slots_length ts vs ws : slots ts vs ws -> Z.of_nat (length ws) = slots_size ts.
Proof.
  revert vs ws. induction ts as [|t ts IH]; intros [|v vs] ws; try done; simpl; [by intros ->|].
  intros (w & ws' & -> & Hw & Hs). apply IH in Hs. apply slot_words_length in Hw. rewrite length_app.
  change (foldr _ 0 ts) with (slots_size ts). lia.
Qed.

Lemma slots_at ts vs ws i t :
  slots ts vs ws -> ts !! i = Some t ->
  exists v, vs !! i = Some v /\
    forall pre rest, slot_at (pre ++ ws ++ rest) (Z.of_nat (length rest) + slots_size (take i ts)) t v.
Proof.
  revert vs ws i. induction ts as [|t' ts IH]; intros [|v vs] ws i; try done.
  intros (w & ws' & -> & Hw & Hs). destruct i as [|i]; simpl.
  - intros [= ->]. exists v. split; [done|]. intros pre rest. exists (pre ++ ws'), w, rest.
    rewrite <-!app_assoc. split; [done|]. split; [lia|done].
  - intros Ht. destruct (IH _ _ _ Hs Ht) as (v' & Hv' & Hat). exists v'. split; [done|]. intros pre rest.
    specialize (Hat pre (w ++ rest)). rewrite <-!app_assoc. rewrite length_app in Hat.
    apply slot_words_length in Hw. change (foldr _ 0 (take i ts)) with (slots_size (take i ts)).
    by replace (Z.of_nat (length rest) + _) with (Z.of_nat (length w + length rest) + slots_size (take i ts)) by lia.
Qed.

Lemma zero_slot_words t : slot_words t (zero_value t) (repeat 0 (Z.to_nat (vt_words t))).
Proof.
  assert (forall w, cell_words w 0 (repeat 0 (Z.to_nat (words_of w)))) as H.
  { intros []; [by exists 0|]. unfold cell_words, words_of.
    pose proof (words_of_pos W64 : 1 <= CVM_WORDS_PER_LONG <= 2).
    destruct (Z.eqb_spec CVM_WORDS_PER_LONG 1) as [->|]; [by exists 0|].
    replace CVM_WORDS_PER_LONG with 2 by lia. by exists 0, 0. }
  destruct t; [by exists 0|apply (H W32)|apply (H W64)|apply (H native)].
Qed.

Lemma zero_slots ts : slots ts (zero_value <$> ts) (repeat 0 (Z.to_nat (slots_size ts))).
Proof.
  induction ts as [|t ts IH]; [done|]. simpl. change (foldr _ 0 ts) with (slots_size ts).
  exists (repeat 0 (Z.to_nat (vt_words t))), (repeat 0 (Z.to_nat (slots_size ts))). split; [|split; [apply zero_slot_words|exact IH]].
  pose proof (vt_words_pos t). pose proof (slots_size_nonneg ts). rewrite <-repeat_app. f_equal. lia.
Qed.

(** The variables at the entry. *)
Definition entry_vars (sg : il_sig) (args : list value) : il_vars :=
  mk_il_vars args (zero_value <$> sig_locals sg).

Lemma entry_vars_typed sg args : Forall2 var_value (sig_args sg) args -> vars_typed sg (entry_vars sg args).
Proof.
  intros Ha. split; [done|]. simpl. induction (sig_locals sg) as [|t ts IH]; constructor; [apply zero_value_typed|done].
Qed.

Lemma entry_frame sg coder ck args argws rest :
  setup_done sg coder ck -> Forall2 var_value (sig_args sg) args -> slots (sig_args sg) args argws ->
  frame_holds sg coder (Z.of_nat (length rest)) (entry_vars sg args)
    (repeat 0 (Z.to_nat (slots_size (sig_locals sg))) ++ argws ++ rest).
Proof.
  intros [_ _ _ Hoff] Hargs Hs arg n t off [Ht Ho]. rewrite (Hoff _ _ _ Ht) in Ho. injection Ho as <-.
  destruct (il_load_exists _ _ _ _ _ (entry_vars_typed _ _ Hargs) Ht) as (v & Hv & Hvt).
  exists v. split; [done|]. split; [done|].
  unfold il_type, il_load, place in *. destruct (0 <=? n); [|done]. destruct arg; simpl in *.
  - destruct (slots_at _ _ _ _ _ Hs Ht) as (v' & Hv' & Hat). rewrite Hv in Hv'. injection Hv' as <-. apply Hat.
  - destruct (slots_at _ _ _ _ _ (zero_slots (sig_locals sg)) Ht) as (v' & Hv' & Hat).
    rewrite Hv in Hv'. injection Hv' as <-. specialize (Hat [] (argws ++ rest)).
    rewrite length_app, Nat2Z.inj_add, (slots_length _ _ _ Hs) in Hat. rewrite app_nil_l in Hat.
    by replace (Z.of_nat (length rest) + _) with (slots_size (sig_args sg) + Z.of_nat (length rest) + slots_size (take (Z.to_nat n) (sig_locals sg))) by lia.
Qed.

(** The entry code on the arguments [argws]. *)
Lemma entry_runs c p fr sg args argws rest ab maxHeight :
  code_at c p (entry_bytes sg (check_bytes maxHeight)) -> frame_size sg <= IL_MAX_UINT32 ->
  slots (sig_args sg) args argws -> Z.of_nat (length ab) <= IL_MAX_UINT32 -> maxHeight <= IL_MAX_UINT32 ->
  slots_size (sig_locals sg) <= Z.of_nat (length ab) ->
  let m := mk_cvm p fr (argws ++ rest) ab in
  if Z.max 8 maxHeight <? Z.of_nat (length ab) then
    exists k, run k c m = Some (Next (mk_cvm (p + Z.of_nat (length (entry_bytes sg (check_bytes maxHeight))))
      (Z.of_nat (length rest)) (repeat 0 (Z.to_nat (slots_size (sig_locals sg))) ++ argws ++ rest)
      (drop (Z.to_nat (slots_size (sig_locals sg))) ab)))
  else exists m', run 2 c m = Some (Throw StackOverflowException m').
Proof.
  intros [Hc1 [Hc2 Hc3]%code_at_app]%code_at_app Hsize Hs Hab Hmax Hroom m. unfold frame_size in Hsize.
  pose proof (slots_size_nonneg (sig_args sg)) as Ha0. pose proof (slots_size_nonneg (sig_locals sg)) as Hl0.
  pose proof (step_num_args c m _ Hc1 ltac:(lia)) as H1. cbn [pc below above m] in H1.
  rewrite length_app, Nat2Z.inj_add, (slots_length _ _ _ Hs), Z.add_simpl_l in H1.
  set (m1 := mk_cvm _ (Z.of_nat (length rest)) _ ab) in H1.
  pose proof (step_check c m1 maxHeight Hc2 Hab Hmax) as H2. cbn [pc frame below above m1] in H2.
  destruct (Z.max 8 maxHeight <? Z.of_nat (length ab)).
  - set (m2 := mk_cvm _ (Z.of_nat (length rest)) _ ab) in H2.
    set (l := Z.to_nat (slots_size (sig_locals sg))) in *.
    assert (length (take l ab) = l) as Hold by (rewrite length_take; lia).
    destruct (run_mk_local c (pc m2) (Z.of_nat (length rest)) (argws ++ rest) (take l ab) (drop l ab) _ Hc3)
      as [k Hk]; [lia|lia|]. rewrite take_drop, Hold in Hk. exists (2 + k)%nat.
    assert (run 2 c m = Some (Next m2)) as H12 by (simpl; by rewrite H1, H2).
    rewrite (run_app _ _ _ _ _ H12). etrans; [exact Hk|]. do 3 f_equal. unfold entry_bytes, num_args_bytes.
    rewrite !length_app, !Nat2Z.inj_add. unfold m2. simpl. unfold num_args_bytes. lia.
  - eexists. simpl. rewrite H1, H2. reflexivity.
Qed.

End Frame.
