(* ===== verification/MethodFlow.v ===== *)
(** * One instruction of a method with branches

    The main loop of VerifyBranch.v with the CVM coder on stacks of integers:
    what entering an instruction and accepting it do to the labels, the stack
    and the code, and how the accepted instruction runs. *)
From Stdlib Require Import ZArith Lia.
From stdpp Require Import base list option numbers.
From S2P Require Import Prelude Opcodes Cvm Interp JumpMask Scan Coder CoderBranch Types CoderVar Verify VerifyVar VerifyBranch VerifyProps ILSpec CvmProps CvmOps CoderProps Refine RefineBlock ILVars WalkTargets BranchLayout CoderLabels BranchRun Frame FrameVars VarSound Verdict.
Import OpTable.

Local Open Scope Z_scope.

(** The instruction that returns [result]. *)
Definition return_op {PF : Platform} (result : option value) : Z :=
  match result with
  | None => COP_RETURN
  | Some v => if words_of (width_of v) =? 1 then COP_RETURN_1 else COP_RETURN_2
  end.

Section Method.
Context {PF : Platform} {TL : TypeLibrary}.
Variable GetTypeSize : Z -> Z.
Variable depth : nat.
Variables (unsafeAllowed : bool) (maxStack returnType : Z).
Variables (vars : method_vars) (sg : il_sig) (coder0 : ILCVMCoder).
Hypothesis HmaxStack : 0 <= maxStack.
Hypothesis Hvoid : sig_void sg = (returnType =? ILType_Void).
Hypothesis Hvars : vars_fine vars sg coder0.

#[local] Instance CC : ILCoder ILCVMCoder := cvm_coder GetTypeSize.
#[local] Instance CB : ILBranchCoder ILCVMCoder := cvm_branch_coder GetTypeSize.
#[local] Instance CV : ILVarCoder ILCVMCoder := cvm_var_coder GetTypeSize.

Definition state : Type := vstate ILCVMCoder.

(** The stack and the labels hold integers and stay within the height, and the
    offsets of variables are those of the start. *)
Record int_state (st : state) : Prop := {
  is_stack : int_stack (v_stack st);
  is_height : Z.of_nat (length (v_stack st)) <= maxStack;
  is_labels : int_labels maxStack (v_labels st);
  is_offsets : same_offsets coder0 (v_coder st);
}.

(** ** Entering an instruction *)

Record entered (mask : list Z) (o : Z) (st st1 : state) : Prop := {
  en_state : int_state st1;
  en_extend : labels_extend (v_labels st) (v_labels st1);
  en_stack : v_jump st = false -> v_stack st1 = v_stack st;
  en_target : IsJumpTarget mask o = Some true ->
    exists l, FindLabel (v_labels st1) o = Some l /\ stack_meets (v_stack st1) (bl_stack l);
  en_coder :
    IsJumpTarget mask o = Some true /\
      Coder.code (v_coder st1) = Coder.code (CVMCoder_Label (v_coder st) o) /\
      labelList (v_coder st1) = labelList (CVMCoder_Label (v_coder st) o) \/
    IsJumpTarget mask o = Some false /\
      Coder.code (v_coder st1) = Coder.code (v_coder st) /\
      labelList (v_coder st1) = labelList (v_coder st);
}.

Lemma enter_insn_int mask o st st1 :
  int_state st -> enter_insn depth mask o st = Ret st1 -> entered mask o st st1.
Proof.
  intros [Hs Hh Hl Ho]. unfold enter_insn. destruct (IsJumpTarget mask o) as [target|] eqn:Et; [|done].
  cbn [access mbind vres_bind].
  destruct (if target : bool then true else v_jump st) eqn:Eb.
  - destruct (VALIDATE_TARGET_STACK depth o (v_jump st) (v_labels st) (v_stack st))
      as [[labels stack]| | | |] eqn:Hv; cbn [mbind vres_bind]; [|by destruct target, (v_jump st)..].
    destruct (VALIDATE_TARGET_STACK_int _ _ _ _ _ _ _ _ HmaxStack Hl Hs Hh Hv)
      as ((He & Hi & l & Hf & Hm) & Hs' & Hh' & Hj).
    assert (forall c, same_offsets (v_coder st) c -> int_state (mk_vstate stack labels (v_jump st) c)) as Hst
      by (intros c Hc; split; try done; by etrans).
    destruct target; [|simpl in Eb; rewrite Eb]; intros [= <-].
    + split; cbn [v_stack v_labels v_coder]; [|done|done|intros _; by exists l|by left].
      apply Hst. etrans; [apply Label_offsets|apply StackRefresh_offsets].
    + split; cbn [v_stack v_labels v_coder]; [|done|congruence|congruence|by right].
      rewrite Eb in Hst. apply Hst, StackRefresh_offsets.
  - destruct target; [done|]. simpl in Eb. rewrite Eb. intros [= <-].
    split; [done|reflexivity|done|congruence|by right].
Qed.

(** ** An accepted instruction *)

(** The [size] bytes at [o] on the values [vs]: from [st1], behind the entry,
    to [st']. *)
Inductive insn_sound (mem : list Z) (o size : Z) (vs : list value) (st1 st' : state) : Prop :=
  | sound_straight :
      step_sound mem o size vs (v_coder st1) (v_coder st') (v_stack st') ->
      v_labels st' = v_labels st1 -> v_jump st' = false ->
      same_labels (v_coder st1) (v_coder st') -> insn_sound mem o size vs st1 st'
  | sound_branch dest pre taken rest :
      vs = pre ++ rest -> typed (v_stack st') rest ->
      (forall fr, il_next sg mem o fr vs = Some (Goes (if taken : bool then dest else o + size) fr rest) \/
         il_next sg mem o fr vs = Some Mixed) ->
      compiles_branch (v_coder st1) (v_coder st') dest (cells pre) taken ->
      label_made maxStack dest (v_stack st') (v_labels st1) (v_labels st') ->
      (v_jump st' = true -> taken = true) ->
      (exists opcode row, il_fetch mem o = Some (opcode, row) /\ branch_opcode opcode = true /\
         branch_target mem o opcode = Some dest) ->
      insn_sound mem o size vs st1 st'
  | sound_return result :
      (forall fr, il_next sg mem o fr vs = Some (Returns result)) ->
      int_stack (v_stack st') ->
      Coder.code (v_coder st') = Coder.code (v_coder st1) ++ [return_op result] ->
      v_labels st' = v_labels st1 -> v_jump st' = true ->
      same_labels (v_coder st1) (v_coder st') -> insn_sound mem o size vs st1 st'
  | sound_access opcode :
      (forall a fr, il_access mem o opcode = Some a -> il_next sg mem o fr vs =
         ('(fr', vs') ← il_exec_var sg a fr vs; Some (Goes (o + size) fr' vs'))) ->
      access_sound sg coder0 mem o opcode vs (v_coder st1) (v_coder st') (v_stack st') ->
      v_labels st' = v_labels st1 -> v_jump st' = false -> insn_sound mem o size vs st1 st'.

(** An accepted jump, with the state behind it. *)
Definition jump_sound (mem : list Z) (o size : Z) (vs : list value) (st1 st' : state) : Prop :=
  insn_sound mem o size vs st1 st' /\ int_state st' /\
  labels_extend (v_labels st1) (v_labels st').

(** *** Branches *)

Lemma unsafe_compare_joins : joins unsafeCompareMatrix.
Proof. by intros [] []. Qed.

Lemma int_branch_total w opcode a b :
  branch_opcode opcode = true -> listed opcode goto_opcodes = false ->
  listed opcode true_opcodes = false -> listed opcode false_opcodes = false ->
  exists taken, int_branch w opcode a b = Some taken.
Proof.
  intros Hb Hg Ht Hf. apply orb_true_iff in Hb. unfold short_branch_opcodes, long_branch_opcodes in Hb.
  destruct Hb as [Hb|Hb]; opcode_cases Hb; first [discriminate Hg | discriminate Ht | discriminate Hf | by eexists].
Qed.

(** The verifier's read of a destination. *)
Lemma get_dest mem o opcode d :
  Forall is_byte mem -> 0 <= d <= IL_MAX_UINT32 -> branch_target mem o opcode = Some d ->
  (if listed opcode short_branch_opcodes then GET_SHORT_DEST mem o else GET_LONG_DEST mem o) = Ret d.
Proof.
  intros Hb Hd. unfold branch_target, GET_SHORT_DEST, GET_LONG_DEST, rd_uint32, rd.
  unfold IL_MAX_UINT32 in Hd. destruct (listed opcode short_branch_opcodes).
  - destruct (pc_at mem (o + 1) 0) as [b|]; [|done]. simpl. intros [= <-]. f_equal. width_lia.
  - replace (o + 1 + 1) with (o + 2) by lia. replace (o + 1 + 2) with (o + 3) by lia.
    replace (o + 1 + 3) with (o + 4) by lia.
    assert (forall i b, pc_at mem i 0 = Some b -> is_byte b) as Hbyte.
    { intros i b H. unfold pc_at in H. destruct (0 <=? i + 0); [|done]. by eapply Forall_lookup_1 in H. }
    destruct (pc_at mem (o + 1) 0) as [b0|] eqn:E0; [|done].
    destruct (pc_at mem (o + 2) 0) as [b1|] eqn:E1; [|done].
    destruct (pc_at mem (o + 3) 0) as [b2|] eqn:E2; [|done].
    destruct (pc_at mem (o + 4) 0) as [b3|] eqn:E3; [|done]. cbn [access mbind vres_bind option_bind].
    rewrite read_uint32_bytes by (by eapply Hbyte). intros [= <-]. f_equal.
    set (x := b0 + 2 ^ 8 * b1 + 2 ^ 16 * b2 + 2 ^ 24 * b3) in *. clearbody x. width_lia.
Qed.

(** Accepting [branch_to] once the operands are off the stack. *)
Lemma branch_to_int opcode dest t1 t2 rest jump st1 st' :
  int_labels maxStack (v_labels st1) -> int_stack rest -> Z.of_nat (length rest) <= maxStack ->
  branch_to depth opcode dest t1 t2 rest jump st1 = Ret st' ->
  v_stack st' = rest /\ v_jump st' = jump /\
  v_coder st' = CVMCoder_Branch (v_coder st1) opcode dest t1 t2 /\
  label_made maxStack dest rest (v_labels st1) (v_labels st').
Proof.
  intros Hl Hs Hh. unfold branch_to.
  destruct (VALIDATE_BRANCH_STACK depth dest (v_labels st1) rest) as [[labels stack]| | | |] eqn:Hv;
    cbn [mbind vres_bind]; try done.
  destruct (VALIDATE_BRANCH_STACK_int _ _ _ _ _ _ _ Hl Hs Hh Hv) as [-> Hm]. by intros [= <-].
Qed.

(** The next event at a branch. *)
Lemma next_branch mem o opcode row fr vs taken rest d :
  il_fetch mem o = Some (opcode, row) -> branch_opcode opcode = true ->
  il_branch opcode vs = Some (taken, rest) -> branch_target mem o opcode = Some d ->
  il_next sg mem o fr vs =
    Some (if mixed_branch opcode vs then Mixed else Goes (if taken then d else o + size row) fr rest).
Proof.
  intros Hf Hb Hg Hd. unfold il_next. rewrite Hf. cbn [mbind option_bind]. by rewrite Hb, Hg, Hd.
Qed.

Lemma typed_int_stack stack vs : typed stack vs -> int_stack stack.
Proof. by exists vs. Qed.

Section Insn.
Variables (mem : list Z) (o : Z) (opcode : Z) (row : ILOpcodeInfo).
Hypothesis Hbytes : Forall is_byte mem.
Hypothesis Hfetch : il_fetch mem o = Some (opcode, row).

Section Branch.
Variable d : Z.
Hypothesis Hbranch : branch_opcode opcode = true.
Hypothesis Hd : branch_target mem o opcode = Some d.

(** A branch on the operands [pre], as the verifier accepts it. *)
Lemma branch_to_sound t1 t2 jump st1 st' vs pre rest taken stack :
  int_state st1 -> typed stack rest -> Z.of_nat (length stack) <= maxStack ->
  vs = pre ++ rest ->
  (exists std, il_branch opcode vs = Some (std, rest) /\ (mixed_branch opcode vs = false -> std = taken)) ->
  compiles_branch (v_coder st1) (CVMCoder_Branch (v_coder st1) opcode d t1 t2) d (cells pre) taken ->
  (jump = true -> taken = true) ->
  branch_to depth opcode d t1 t2 stack jump st1 = Ret st' ->
  jump_sound mem o (size row) vs st1 st'.
Proof.
  intros [_ _ Hl Ho] Hs Hh -> (std & Hb & Hstd) Hc Hj Hr.
  destruct (branch_to_int _ _ _ _ _ _ _ _ Hl (typed_int_stack _ _ Hs) Hh Hr) as (E1 & E2 & E3 & E4).
  pose proof E4 as (He & Hi & _). split; [|split; [|exact He]].
  - apply (sound_branch _ _ _ _ _ _ d pre taken rest); rewrite ?E1, ?E2, ?E3; try done.
    + intros fr. rewrite (next_branch _ _ _ _ _ _ _ _ _ Hfetch Hbranch Hb Hd).
      destruct (mixed_branch _ _); [by right|left; by rewrite Hstd].
    + by exists opcode, row.
  - split; [rewrite E1; by eapply typed_int_stack|by rewrite E1|done|].
    rewrite E3. etrans; [exact Ho|apply Branch_offsets].
Qed.

Lemma verify_binary_branch_sound m st1 st' vs :
  joins m -> listed opcode goto_opcodes = false -> listed opcode true_opcodes = false ->
  listed opcode false_opcodes = false -> int_state st1 -> typed (v_stack st1) vs ->
  verify_binary_branch depth m opcode d st1 = Ret st' ->
  jump_sound mem o (size row) vs st1 st'.
Proof.
  intros Hm Hg Ht Hf Hst Hs. pose proof Hst as [_ Hh _ _]. unfold verify_binary_branch.
  destruct (v_stack st1) as [|i2 [|i1 st]] eqn:Est; try done.
  destruct vs as [|v2 [|v1 rest]]; try (by destruct Hs).
  destruct (typed_2 _ _ _ _ Hs) as (? & ? & ? & [= <- <- <-] & E2 & E1 & Hs' & W2 & W1).
  cbn [top2 mbind vres_bind]. rewrite E1, E2, Hm. cbn [mbind vres_bind].
  destruct (is_type _ T_NO) eqn:Ej; [done|]. cbn [negb].
  assert (join (type_of v1) (type_of v2) <> T_NO) as Hj by (intros E; by rewrite E in Ej).
  destruct (widen_join (unsigned_branch opcode) v1 v2 Hj) as (w & a & b & Hw).
  destruct (widen_join false v1 v2 Hj) as (w' & a' & b' & Hw').
  destruct (int_branch_total w opcode a b Hbranch Hg Ht Hf) as [taken Htk].
  destruct (int_branch_total w' opcode a' b' Hbranch Hg Ht Hf) as [std Hstd].
  simpl in Hh. apply (branch_to_sound _ _ _ _ _ _ [v2; v1] rest taken); [done|done|lia|done| |..|done].
  - exists std. split; [unfold il_branch; by rewrite Hg, Ht, Hf, Hw'; simpl; rewrite Hstd|].
    intros Hm'. pose proof (widen_unmixed _ _ _ _ _ W1 W2 Hm' Hw') as E. rewrite Hw in E.
    injection E as -> -> ->. congruence.
  - by eapply binary_branch_compiles.
Qed.

Lemma verify_branch_sound st1 st' vs :
  int_state st1 -> typed (v_stack st1) vs ->
  verify_branch depth unsafeAllowed opcode d st1 = Ret st' ->
  jump_sound mem o (size row) vs st1 st'.
Proof.
  intros Hst Hs. pose proof Hst as [_ Hh _ _]. unfold verify_branch.
  assert (forall a b, opcode_in opcode a b = listed opcode [a; b]) as Hin
    by (intros; unfold opcode_in, listed; simpl; by rewrite orb_false_r).
  rewrite !Hin. change [IL_OP_BR_S; IL_OP_BR] with goto_opcodes.
  change [IL_OP_BRTRUE_S; IL_OP_BRTRUE] with true_opcodes.
  change [IL_OP_BRFALSE_S; IL_OP_BRFALSE] with false_opcodes.
  destruct (listed opcode goto_opcodes) eqn:Hg.
  { apply (branch_to_sound _ _ _ _ _ _ [] vs true); try done.
    - exists true. split; [unfold il_branch; by rewrite Hg|done].
    - rewrite goto_branch by done. apply goto_compiles. }
  destruct (listed opcode false_opcodes || listed opcode true_opcodes) eqn:Hu.
  { destruct (v_stack st1) as [|i st] eqn:Est; try done. destruct vs as [|v rest]; [by destruct Hs|].
    destruct (typed_1 _ _ _ Hs) as (? & ? & [= <- <-] & E & Hs' & W). cbn [top1 mbind vres_bind].
    rewrite E. assert (infer1 unaryBranchMatrix (type_of v) = Ret (type_of v)) as -> by (by destruct v).
    cbn [mbind vres_bind]. destruct (negb _); [|done]. simpl in Hh.
    destruct (unary_branch_cases opcode (v_coder st1) d (type_of v) (type_of v)) as [Ct Cf].
    assert (listed opcode true_opcodes = false \/ listed opcode false_opcodes = false) as Hor.
    { destruct (listed opcode true_opcodes) eqn:Et; [right|by left]. clear -Et.
      unfold true_opcodes in Et. opcode_cases Et; reflexivity. }
    destruct (listed opcode true_opcodes) eqn:Et.
    - apply (branch_to_sound _ _ _ _ _ _ [v] rest (xorb true (number v =? 0))); [done|done|lia|done| |..|done].
      + eexists. split; [unfold il_branch; by rewrite Hg, Et|done].
      + rewrite Ct by done. by apply unary_branch_compiles.
    - rewrite orb_false_r in Hu.
      apply (branch_to_sound _ _ _ _ _ _ [v] rest (xorb false (number v =? 0))); [done|done|lia|done| |..|done].
      + eexists. split; [unfold il_branch; by rewrite Hg, Et, Hu|by destruct (number v =? 0)].
      + rewrite Cf by done. by apply unary_branch_compiles. }
  apply orb_false_iff in Hu as [Hf Ht].
  destruct (listed _ _ || listed _ _).
  { apply verify_binary_branch_sound; try done.
    destruct unsafeAllowed; [apply unsafe_equality_joins|apply equality_joins]. }
  destruct (v_stack st1) as [|i2 [|i1 st]] eqn:Est; try done.
  cbn [top2 mbind vres_bind]. rewrite <-Est in Hs.
  assert (is_type (engineType i1) T_O = false) as ->.
  { rewrite Est in Hs. destruct vs as [|v2 [|v1 rest]]; try (by destruct Hs).
    destruct (typed_2 _ _ _ _ Hs) as (? & ? & ? & [= <- <- <-] & _ & -> & _). by destruct v1. }
  rewrite andb_false_r. cbn [andb]. apply verify_binary_branch_sound; try done.
  destruct unsafeAllowed; [apply unsafe_compare_joins|apply compare_joins].
Qed.

End Branch.
(** *** The return *)

Lemma return_code coder v ti :
  Coder.code (CVMCoder_ReturnInsn GetTypeSize coder (type_of v) ti) =
    Coder.code coder ++ [return_op (Some v)] /\
  same_labels coder (CVMCoder_ReturnInsn GetTypeSize coder (type_of v) ti).
Proof.
  assert (CVMCoder_ReturnInsn GetTypeSize coder (type_of v) ti =
    CVM_ADJUST (CVM_OUT_RETURN coder (words_of (width_of v))) (- words_of (width_of v))) as ->.
  { destruct v; [done|done|]. simpl. unfold native. by destruct IL_NATIVE_INT64. }
  unfold return_op, CVM_OUT_RETURN. pose proof (words_of_pos (width_of v)) as Hw.
  assert (words_of (width_of v) = 1 \/ words_of (width_of v) = 2) as [-> | ->] by lia; done.
Qed.

Lemma verify_ret_sound st1 st' vs :
  opcode = IL_OP_RET -> int_state st1 -> typed (v_stack st1) vs ->
  verify_ret depth unsafeAllowed returnType st1 = Ret st' ->
  jump_sound mem o (size row) vs st1 st'.
Proof.
  intros Hop Hst Hs. unfold verify_ret.
  assert (forall result, (if sig_void sg then Some (Returns None)
      else match vs with v :: _ => Some (Returns (Some v)) | [] => None end) = Some (Returns result) ->
    forall fr, il_next sg mem o fr vs = Some (Returns result)) as Hnext.
  { intros result H fr. unfold il_next. rewrite Hfetch, Hop. exact H. }
  rewrite Hvoid in Hnext. destruct (returnType =? ILType_Void) eqn:Hv; cbn [negb].
  - intros [= <-]. split; [|by destruct Hst].
    eapply (sound_return _ _ _ _ _ _ None); try done; [by apply Hnext|exact (is_stack _ Hst)|..].
  - destruct (v_stack st1) as [|i st] eqn:Est; [done|]. destruct vs as [|v rest]; [by destruct Hs|].
    destruct (typed_1 _ _ _ Hs) as (? & ? & [= <- <-] & E & Hs' & W).
    destruct (AssignCompatible depth i returnType unsafeAllowed) as [[]| | | |]; cbn [mbind vres_bind]; try done.
    intros [= <-]. rewrite E. destruct (return_code (v_coder st1) v returnType) as [Hc Hl].
    split; [eapply (sound_return _ _ _ _ _ _ (Some v)); try done; [by apply Hnext|by eapply typed_int_stack]|].
    destruct Hst as [_ Hh Hlab Ho]. rewrite Est in Hh. simpl in Hh.
    split; [split; [by eapply typed_int_stack|simpl; lia|done|]|reflexivity].
    etrans; [exact Ho|by apply same_labels_offsets].
Qed.

(** *** Any instruction *)

Lemma fetch_not_switch : opcode <> IL_OP_SWITCH.
Proof.
  intros E. destruct (il_fetch_cases _ _ _ _ Hbytes Hfetch) as (_ & _ & Hcases).
  destruct Hcases as [(_ & _ & Hrow & Hc & _)|(op & E' & [H0 _] & _)].
  - rewrite E in Hrow. vm_compute in Hrow. injection Hrow as <-. discriminate Hc.
  - rewrite E in E'. unfold IL_OP_SWITCH, IL_OP_PREFIX in E'. lia.
Qed.

(** The bytes taken by an instruction: its own, or those of a logical not
    behind a comparison. *)
Definition insn_bytes (mask : list Z) (sz : Z) : Prop :=
  sz = size row \/
  size row = 2 /\ (followed_by_xor mem mask o = Ret true /\ sz = 4 \/
                   followed_by_ceq mem mask o = Ret true /\ sz = 5).

Lemma compare_bytes mask n i1 i2 rest (coder : ILCVMCoder) stack' coder' sz :
  compare_code mem mask o opcode n i1 i2 rest coder = Ret (stack', coder', sz) ->
  sz = n \/ followed_by_xor mem mask o = Ret true /\ sz = 4 \/ followed_by_ceq mem mask o = Ret true /\ sz = 5.
Proof.
  unfold compare_code. destruct (followed_by_xor mem mask o) as [[]| | | |]; cbn [mbind vres_bind]; try done.
  - intros [= _ _ <-]. auto.
  - destruct (followed_by_ceq mem mask o) as [[]| | | |]; cbn [mbind vres_bind]; try done;
      intros [= _ _ <-]; auto.
Qed.

Lemma dispatch_bytes mask stack (coder : ILCVMCoder) stack' coder' sz :
  verify_dispatch unsafeAllowed mem mask o opcode (size row) stack coder = Ret (stack', coder', sz) ->
  insn_bytes mask sz.
Proof.
  unfold verify_dispatch. intros H.
  assert (forall l, one_of opcode l = true -> forallb (fun o => listed o compare_opcodes) l = true ->
    (exists i1 i2 st, compare_code mem mask o opcode (size row) i1 i2 st coder = Ret (stack', coder', sz)) ->
    insn_bytes mask sz) as Hc.
  { intros l Hl Hf (i1 & i2 & st & Hc). destruct (il_fetch_compare _ _ _ _ Hbytes Hfetch
      (listed_incl _ _ _ Hf Hl)) as (Hsz & _).
    destruct (compare_bytes _ _ _ _ _ _ _ _ _ Hc) as [->|H1]; [by left|by right]. }
  revert H. destruct (opcode =? _) eqn:E1; [|destruct (one_of opcode _) eqn:E2].
  - unfold verify_ceq. destruct (top2 stack) as [[[i1 i2] st]| | | |]; cbn [mbind vres_bind]; try done.
    destruct (infer2 _ _ _); cbn [mbind vres_bind]; try done. destruct (negb _); [|done]. intros H.
    apply (Hc [IL_OP_PREFIX + IL_PREFIX_OP_CEQ]); [by unfold one_of; simpl; rewrite E1|done|by eauto].
  - unfold verify_compare. destruct (top2 stack) as [[[i1 i2] st]| | | |]; cbn [mbind vres_bind]; try done.
    match goal with |- mbind _ ?m = _ -> _ => destruct m end; cbn [mbind vres_bind]; try done.
    destruct (negb _); [|done]. intros H. by eapply Hc; [exact E2| |eauto].
  - destruct (verify_simple _ _ _ _ _) as [[st c]| | | |]; cbn [mbind vres_bind]; try done.
    intros [= _ _ <-]. by left.
Qed.

Record opcode_done (mask : list Z) (sz : Z) (vs : list value) (st1 st' : state) : Prop := {
  od_sound : insn_sound mem o sz vs st1 st';
  od_bytes : insn_bytes mask sz;
  od_walk : on_walk mem o (o + sz);
  od_size : 1 <= sz <= 12;
  od_state : int_state st';
  od_extend : labels_extend (v_labels st1) (v_labels st');
}.

Lemma jump_done mask vs st1 st' :
  jump_sound mem o (size row) vs st1 st' -> opcode_done mask (size row) vs st1 st'.
Proof.
  intros (Hs & Hi & He). destruct (il_fetch_cases _ _ _ _ Hbytes Hfetch) as (_ & Hsz & _).
  split; try done; [by left|by eapply walk_one].
Qed.

(** Accesses to variables. *)
Lemma access_typed coder coder' stack' vs :
  access_sound sg coder0 mem o opcode vs coder coder' stack' ->
  int_stack stack' /\ same_offsets coder coder'.
Proof.
  intros [arg n t off bs _ _ [_ Ho] _ Hs|arg n t off bs v rest r _ _ _ [_ Ho] _ _ _ Hs].
  - split; [|by apply same_labels_offsets]. exists (zero_value t :: vs). apply Hs, zero_value_typed.
  - split; [by exists rest|by apply same_labels_offsets].
Qed.

Lemma verify_access_sound mask kind form st1 stack coder vs :
  integer_opcode opcode = true -> var_instruction opcode = Some (kind, form) ->
  int_state st1 -> v_jump st1 = false -> typed (v_stack st1) vs ->
  height_error maxStack row (v_stack st1) = false ->
  verify_var depth unsafeAllowed vars mem mask o opcode kind form (v_stack st1) (v_coder st1) = Ret (stack, coder) ->
  opcode_done mask (size row) vs st1 (mk_vstate stack (v_labels st1) (v_jump st1) coder).
Proof.
  intros Hi Hvar Hst Hj Hs [Hpop Hpush%Z.ltb_ge]%orb_false_iff Hv. pose proof Hst as [_ Hh Hl Ho].
  pose proof (verify_var_sound GetTypeSize _ _ _ _ _ Hvars _ _ _ _ _ _ Ho Hs _ _ _ _ _ Hbytes Hvar Hi Hv) as Ha.
  destruct (access_typed _ _ _ _ Ha) as [Hint Hoff].
  destruct (var_not_jump _ _ _ Hvar) as [Hb Hr].
  destruct (il_fetch_cases _ _ _ _ Hbytes Hfetch) as (_ & Hsz & _).
  split; [|by left|by eapply walk_one|done| |reflexivity].
  - apply (sound_access _ _ _ _ _ _ opcode); try done. intros a fr Hacc. unfold il_next.
    rewrite Hfetch. cbn [mbind option_bind]. by rewrite Hb, Hr, Hacc.
  - split; try done; [|by etrans]. cbn [v_stack].
    destruct Ha as [arg n t off bs Hacc _ _ _ Hty|arg n t off bs v rest r _ -> _ _ _ _ _ Hty].
    + destruct (var_row _ _ _ _ _ _ Hbytes Hfetch Hvar) as [E1 E2].
      { by eapply verify_var_load. }
      rewrite E1, E2 in Hpush.
      rewrite (typed_length _ _ (Hty _ (zero_value_typed t))). rewrite (typed_length _ _ Hs) in Hpush. simpl. lia.
    + rewrite (typed_length _ _ Hty). rewrite (typed_length _ _ Hs) in Hh. simpl in Hh. lia.
Qed.

Lemma verify_opcode_sound mask sz st1 st' vs :
  integer_opcode opcode = true ->
  (branch_opcode opcode = true -> exists d, branch_target mem o opcode = Some d /\ 0 <= d <= IL_MAX_UINT32) ->
  int_state st1 -> v_jump st1 = false -> typed (v_stack st1) vs ->
  height_error maxStack row (v_stack st1) = false ->
  verify_opcode depth unsafeAllowed returnType vars mem mask o opcode (size row) st1 = Ret (st', sz) ->
  opcode_done mask sz vs st1 st'.
Proof.
  intros Hi Htarget Hst Hj Hs Hh. unfold verify_opcode.
  change (one_of opcode short_branches) with (listed opcode short_branch_opcodes).
  change (one_of opcode long_branches) with (listed opcode long_branch_opcodes).
  assert (branch_opcode opcode = true -> forall d,
    (if listed opcode short_branch_opcodes then GET_SHORT_DEST mem o else GET_LONG_DEST mem o) = Ret d ->
    forall st', verify_branch depth unsafeAllowed opcode d st1 = Ret st' ->
    opcode_done mask (size row) vs st1 st') as Hbr.
  { intros Hb d Hget st2 Hv. destruct (Htarget Hb) as (d' & Hd & Hdr).
    rewrite (get_dest _ _ _ _ Hbytes Hdr Hd) in Hget. injection Hget as ->.
    apply jump_done. by eapply verify_branch_sound. }
  unfold branch_opcode in Hbr. destruct (listed opcode short_branch_opcodes).
  { destruct (GET_SHORT_DEST mem o) as [d| | | |]; cbn [mbind vres_bind]; try done.
    destruct (verify_branch _ _ _ _ _) as [st2| | | |] eqn:Hv; cbn [mbind vres_bind]; try done.
    intros [= <- <-]. by apply (Hbr eq_refl d). }
  destruct (listed opcode long_branch_opcodes).
  { destruct (GET_LONG_DEST mem o) as [d| | | |]; cbn [mbind vres_bind]; try done.
    destruct (verify_branch _ _ _ _ _) as [st2| | | |] eqn:Hv; cbn [mbind vres_bind]; try done.
    intros [= <- <-]. by apply (Hbr eq_refl d). }
  rewrite (proj2 (Z.eqb_neq _ _) fetch_not_switch).
  destruct (Z.eqb_spec opcode IL_OP_RET) as [Hop|_].
  { destruct (verify_ret _ _ _ _) as [st2| | | |] eqn:Hv; cbn [mbind vres_bind]; try done.
    intros [= <- <-]. apply jump_done. by eapply verify_ret_sound. }
  destruct (var_instruction opcode) as [[kind form]|] eqn:Evar.
  { destruct (verify_var _ _ _ _ _ _ _ _ _ _ _) as [[stack coder]| | | |] eqn:Hv; cbn [mbind vres_bind]; try done.
    intros [= <- <-]. by eapply verify_access_sound. }
  destruct (verify_dispatch _ _ _ _ _ _ _ _) as [[[stack coder] sz']| | | |] eqn:Hv;
    cbn [mbind vres_bind]; try done.
  intros [= <- <-].
  destruct (verify_dispatch_sound GetTypeSize unsafeAllowed maxStack mem mask o opcode row _ _ _ _ _ _
    Hbytes Hfetch Hi Hh Hs Hv) as (Hstep & Hwalk & Hsz & Hlen).
  pose proof (kept_dispatch (R := same_labels) _ _ _ _ _ _ _ _ _ _ _ Hv) as Hlab.
  destruct Hstep as (out & Hc & Ht & Hblock). pose proof Hst as [_ _ Hl Ho].
  split; [|by eapply dispatch_bytes|done|done| |reflexivity].
  - apply sound_straight; try done. by exists out.
  - split; [exact (proj2 Ht)|done|done|]. etrans; [exact Ho|by apply same_labels_offsets].
Qed.

End Insn.
End Method.
