(* ===== verification/MethodLoop.v ===== *)
(** * A verified method, from its entry on

    The states that the main loop of VerifyBranch.v passes, the labels and
    code that they share at the end, and the simulation: from a state that the
    loop passed, an execution of IL and the run of the code go on together to
    another such state, to the return or to an exception. *)
From Stdlib Require Import ZArith Lia.
From stdpp Require Import base list option numbers.
From S2P Require Import Prelude Opcodes Cvm Interp JumpMask Scan Coder CoderBranch Types CoderVar Verify VerifyVar VerifyBranch VerifyProps ILSpec CvmProps CvmOps CoderProps Refine RefineBlock ILVars WalkTargets BranchLayout CoderLabels BranchRun Frame FrameVars VarSound MethodFlow Verdict.
Import OpTable.

Local Open Scope Z_scope.

Section Loop.
Context {PF : Platform} {TL : TypeLibrary}.
Variable GetTypeSize : Z -> Z.
Variable depth : nat.
Variables (unsafeAllowed : bool) (maxStack returnType : Z).
Variables (vars : method_vars) (sg : il_sig) (coder0 : ILCVMCoder).
Hypothesis HmaxStack : 0 <= maxStack.
Hypothesis Hvoid : sig_void sg = (returnType =? ILType_Void).
Hypothesis Hvars : vars_fine vars sg coder0.

#[local] Instance CC : ILCoder ILCVMCoder := cvm_coder GetTypeSize.
#[local] Instance CB : ILBranchCoder ILCVMCoder := cvm_branch_coder GetTypeSize.
#[local] Instance CV : ILVarCoder ILCVMCoder := cvm_var_coder GetTypeSize.

Variables (mem mask : list Z) (codeLen : Z) (walk : nat).
Hypothesis Hbytes : Forall is_byte mem.
Hypothesis Hlen : codeLen = Z.of_nat (length mem).
Hypothesis Hsize : codeLen * 3 <= 0x100000000.
Hypothesis Hwalk : integer_code walk mem 0 codeLen = true.
Hypothesis Htargets : targets_fine mem codeLen mask.

Abbreviation state := (vstate ILCVMCoder).
Abbreviation insn := (method_insn depth unsafeAllowed maxStack returnType vars mem mask).
Abbreviation loop := (fun fuel => method_loop depth fuel unsafeAllowed maxStack returnType vars mem mask).
Abbreviation int_state := (int_state maxStack coder0).

(** The state behind the entry, as the instruction sees it. *)
Definition cleared (st1 : state) : state :=
  mk_vstate (v_stack st1) (v_labels st1) false (v_coder st1).

(** ** One turn of the loop *)

Record turn (o : Z) (st st1 st' : state) (sz : Z) : Prop := {
  tn_insn : insn o st = Ret (st', sz);
  tn_entered : entered maxStack coder0 mask o st st1;
  tn_done : exists row opcode, il_fetch mem o = Some (opcode, row) /\
    insn_bytes mem o row mask sz /\
    forall vs, typed (v_stack st1) vs ->
      opcode_done maxStack sg coder0 mem o row mask sz vs (cleared st1) st';
}.

Lemma insn_turn o st st' sz :
  on_walk mem 0 o -> 0 <= o < codeLen -> int_state st -> insn o st = Ret (st', sz) ->
  exists st1, turn o st st1 st' sz.
Proof.
  intros Ho Hor Hst Hinsn. pose proof Hinsn as H. revert H. unfold method_insn.
  destruct (on_walk_code _ _ _ _ _ _ Hbytes Ho Hwalk ltac:(lia)) as [w Hw].
  destruct (walk_code_step _ _ _ _ _ Hw ltac:(lia)) as (opcode & row & _ & Hf & Hi & _).
  rewrite (il_fetch_row _ _ _ _ Hf). cbn [mbind vres_bind].
  destruct (enter_insn depth mask o st) as [st1| | | |] eqn:He; cbn [mbind vres_bind]; try done.
  assert (entered maxStack coder0 mask o st st1) as Hen by (by eapply enter_insn_int).
  destruct (height_error maxStack row (v_stack st1)) eqn:Hh; [done|]. intros Hv.
  assert (int_state (cleared st1)) as Hst1 by (by destruct (en_state _ _ _ _ _ _ Hen)).
  assert (forall vs, typed (v_stack st1) vs ->
      opcode_done maxStack sg coder0 mem o row mask sz vs (cleared st1) st') as Hdone.
  { intros vs Hvs. eapply (verify_opcode_sound GetTypeSize depth unsafeAllowed); try done.
    intros Hb. destruct (Htargets o opcode row Ho Hor Hf Hb) as (d & Hd & Hdr & _).
    exists d. split; [done|]. unfold IL_MAX_UINT32. lia. }
  exists st1. split; [done|done|]. exists row, opcode. split; [done|]. split; [|done].
  destruct (is_stack _ _ _ Hst1) as [vs Hvs]. by destruct (Hdone vs Hvs).
Qed.

(** The state behind is again one of integers, on the walk. *)
Lemma turn_done o st st1 st' sz :
  turn o st st1 st' sz ->
  on_walk mem o (o + sz) /\ 1 <= sz <= 12 /\ int_state st' /\
  labels_extend (v_labels st) (v_labels st').
Proof.
  intros [_ Hen (row & opcode & Hf & Hby & Hd)]. destruct (is_stack _ _ _ (en_state _ _ _ _ _ _ Hen)) as [vs Hvs].
  destruct (Hd vs Hvs) as [_ _ Hw Hsz Hst He]. split; [done|]. split; [done|]. split; [done|].
  etrans; [by eapply en_extend|exact He].
Qed.

(** No turn leaves the code. *)
Lemma turn_fits o st st1 st' sz :
  on_walk mem 0 o -> 0 <= o < codeLen -> turn o st st1 st' sz -> o + sz <= codeLen.
Proof.
  intros Ho Hor [_ _ (row & opcode & Hf & Hby & _)].
  destruct (on_walk_code _ _ _ _ _ _ Hbytes Ho Hwalk ltac:(lia)) as [w Hw].
  destruct (walk_code_step _ _ _ _ _ Hw ltac:(lia)) as (op' & row' & w2 & Hf' & _ & Hw2).
  rewrite Hf in Hf'. injection Hf' as <- <-. pose proof (walk_code_le _ _ _ _ _ Hbytes Hw2).
  destruct Hby as [->|(Hsz & [[Hx ->]|[Hx ->]])]; [done|..].
  - apply followed_by_xor_true in Hx as [_ Hx%pc_at_bounds]. lia.
  - apply followed_by_ceq_true in Hx as (_ & _ & Hx%pc_at_bounds). lia.
Qed.

(** Offsets of the walk that a turn passes over are no jump targets. *)
Lemma followed_not_target o :
  followed_by_xor mem mask o = Ret true \/ followed_by_ceq mem mask o = Ret true ->
  IsJumpTarget mask (o + 2) = Some false /\ IsJumpTarget mask (o + 3) = Some false.
Proof.
  assert (forall q, not_jumped_to mask q = Ret true -> IsJumpTarget mask q = Some false) as Hn.
  { intros q. unfold not_jumped_to. destruct (IsJumpTarget mask q) as [[]|]; done. }
  unfold followed_by_xor, followed_by_ceq. intros [H|H].
  - apply and_then_true in H as [_ [_ [H1 H2]%and_then_true]%and_then_true]. auto.
  - apply and_then_true in H as [_ [_ [_ [H1 H2]%and_then_true]%and_then_true]%and_then_true]. auto.
Qed.

Lemma fetch_one p b :
  pc_at mem p 0 = Some b -> b = IL_OP_LDC_I4_1 \/ b = IL_OP_XOR \/ b = IL_OP_LDC_I4_0 ->
  exists row, il_fetch mem p = Some (b, row) /\ size row = 1.
Proof.
  intros Hp Hop.
  assert (exists row, ILMainOpcodeTable !! Z.to_nat b = Some row /\
    computed_size (args row) = false /\ size row = 1 /\ b <> IL_OP_PREFIX) as (r & Hr & Hcr & Hs & Hn)
    by (destruct Hop as [->|[->| ->]]; eexists; (split; [vm_compute; reflexivity|done])).
  exists r. split; [by apply fetch_main|done].
Qed.

Lemma fetch_ceq p :
  pc_at mem p 0 = Some IL_OP_PREFIX -> pc_at mem (p + 1) 0 = Some IL_PREFIX_OP_CEQ ->
  exists op row, il_fetch mem p = Some (op, row) /\ size row = 2.
Proof.
  intros H0 H1. unfold il_fetch. rewrite H0. cbn [mbind option_bind]. simpl negb. cbv iota. rewrite H1.
  eexists _, _. split; [vm_compute; reflexivity|done].
Qed.

Lemma turn_passes o st st1 st' sz q :
  turn o st st1 st' sz -> on_walk mem o q -> IsJumpTarget mask q = Some true ->
  q = o \/ on_walk mem (o + sz) q.
Proof.
  intros [_ _ (row & opcode & Hf & Hby & _)] Hq Ht.
  destruct (on_walk_next _ _ _ _ _ Hf Hq) as [->|Hq2]; [by left|]. right.
  destruct Hby as [->|(Hsz & Hby)]; [done|]. rewrite Hsz in Hq2.
  destruct (followed_not_target o) as [N2 N3]; [destruct Hby as [[? _]|[? _]]; auto|].
  destruct Hby as [[Hx ->]|[Hx ->]].
  - apply followed_by_xor_true in Hx as [Hx2 Hx3].
    destruct (fetch_one _ _ Hx2) as (r2 & Hf2 & Hs2); [auto|]. destruct (fetch_one _ _ Hx3) as (r3 & Hf3 & Hs3); [auto|].
    destruct (on_walk_next _ _ _ _ _ Hf2 Hq2) as [->|Hq3]; [congruence|].
    rewrite Hs2 in Hq3. replace (o + 2 + 1) with (o + 3) in Hq3 by lia.
    destruct (on_walk_next _ _ _ _ _ Hf3 Hq3) as [->|Hq4]; [congruence|].
    rewrite Hs3 in Hq4. by replace (o + 4) with (o + 3 + 1) by lia.
  - apply followed_by_ceq_true in Hx as (Hx2 & Hx3 & Hx4).
    destruct (fetch_one _ _ Hx2) as (r2 & Hf2 & Hs2); [auto|].
    destruct (fetch_ceq (o + 3)) as (op3 & r3 & Hf3 & Hs3); [done|by replace (o + 3 + 1) with (o + 4) by lia|].
    destruct (on_walk_next _ _ _ _ _ Hf2 Hq2) as [->|Hq3]; [congruence|].
    rewrite Hs2 in Hq3. replace (o + 2 + 1) with (o + 3) in Hq3 by lia.
    destruct (on_walk_next _ _ _ _ _ Hf3 Hq3) as [->|Hq4]; [congruence|].
    rewrite Hs3 in Hq4. by replace (o + 5) with (o + 3 + 2) by lia.
Qed.

(** ** The code grows *)

Lemma length_patch c p v : length (patch_byte c p v) = length c.
Proof. apply length_insert. Qed.

Lemma length_backpatches posn c refs : length (foldl (backpatch posn) c refs) = length c.
Proof.
  revert c. induction refs as [|ref refs IH]; intros c; simpl; [done|]. rewrite IH.
  unfold backpatch, CVM_BACKPATCH_BRANCH, CVM_BACKPATCH_BRANCH_LONG, CVM_BACKPATCH_SWENTRY, IL_WRITE_INT32.
  destruct (ref_address ref); [|destruct (is_short _)]; by rewrite !length_patch.
Qed.

Lemma POSN_Label c o : CVM_POSN (CVMCoder_Label c o) = CVM_POSN c.
Proof.
  unfold CVMCoder_Label. destruct (GetLabel (set_height c (minHeight c)) o) as [c1 l] eqn:E.
  destruct (GetLabel_spec _ _ _ _ E) as (Hc & _). unfold CVM_POSN. cbn [Coder.code set_code].
  by rewrite length_backpatches, Hc.
Qed.

Lemma POSN_code c c' bs : Coder.code c' = Coder.code c ++ bs -> CVM_POSN c' = CVM_POSN c + Z.of_nat (length bs).
Proof. intros E. unfold CVM_POSN. rewrite E, length_app. lia. Qed.

Lemma entered_POSN o st st1 :
  entered maxStack coder0 mask o st st1 -> CVM_POSN (v_coder st1) = CVM_POSN (v_coder st).
Proof.
  intros H. destruct (en_coder _ _ _ _ _ _ H) as [(_ & Hc & _)|(_ & Hc & _)]; unfold CVM_POSN; rewrite Hc;
    [apply POSN_Label|done].
Qed.

Lemma turn_grows o st st1 st' sz :
  turn o st st1 st' sz -> CVM_POSN (v_coder st) <= CVM_POSN (v_coder st').
Proof.
  intros [_ Hen (row & opcode & Hf & Hby & Hd)]. rewrite <-(entered_POSN _ _ _ Hen).
  destruct (is_stack _ _ _ (en_state _ _ _ _ _ _ Hen)) as [vs Hvs].
  destruct (od_sound _ _ _ _ _ _ _ _ _ _ _ (Hd vs Hvs))
    as [(out & (bs & Hc & _) & _) _ _ _|dest pre tk rest _ _ _ (c1 & bs & op & operands & Hc1 & _ & _ & Hc' & _) _ _ _
       |result _ _ Hc _ _ _|op _ Ha _ _]; cbn [cleared v_coder] in *.
  - rewrite (POSN_code _ _ _ Hc). lia.
  - assert (CVM_POSN (v_coder st') = CVM_POSN (OutputBranch c1 op dest)) as -> by (unfold CVM_POSN; by rewrite Hc').
    rewrite POSN_OutputBranch, (POSN_code _ _ _ Hc1). lia.
  - rewrite (POSN_code _ _ _ Hc). lia.
  - destruct (access_outputs _ _ _ _ _ _ _ _ _ Ha) as (bs & Hc & _). rewrite (POSN_code _ _ _ Hc). lia.
Qed.

(** ** The labels and the layout *)

(** Only labels at or behind [o] have a position. *)
Definition behind (o : Z) (c : ILCVMCoder) : Prop := forall a p, labelled c a = Some p -> a < o.

Definition positions_extend (c c' : ILCVMCoder) : Prop :=
  forall a p, labelled c a = Some p -> labelled c' a = Some p.

#[local] Instance positions_extend_preorder : PreOrder positions_extend.
Proof. split; [by intros c a|]. intros c1 c2 c3 H1 H2 a p H. by apply H2, H1. Qed.

Lemma positions_same c c' : labelList c' = labelList c -> positions_extend c c'.
Proof. intros E a p. unfold labelled. by rewrite E. Qed.

Lemma entered_laid o st st1 chs :
  entered maxStack coder0 mask o st st1 -> laid (v_coder st) chs -> behind o (v_coder st) ->
  CVM_POSN (v_coder st) < 0x80000000 ->
  laid (v_coder st1) chs /\ positions_extend (v_coder st) (v_coder st1) /\
  behind (o + 1) (v_coder st1) /\
  (IsJumpTarget mask o = Some true -> labelled (v_coder st1) o = Some (chunks_len chs)).
Proof.
  intros Hen Hl Hb Hp. assert (labelled (v_coder st) o = None) as Hno.
  { destruct (labelled (v_coder st) o) eqn:E; [|done]. apply Hb in E. lia. }
  destruct (en_coder _ _ _ _ _ _ Hen) as [(Ht & Hc & Hll)|(Ht & Hc & Hll)].
  - destruct (CVMCoder_Label_laid _ _ _ Hl Hno Hp) as [Hl1 HL].
    assert (forall a, labelled (v_coder st1) a = with_label (labelled (v_coder st)) o (CVM_POSN (v_coder st)) a) as HL1
      by (intros a; rewrite <-HL; unfold labelled; by rewrite Hll).
    split; [by eapply laid_same|]. split; [|split].
    + intros a p Ha. rewrite HL1. unfold with_label. destruct (Z.eqb_spec a o) as [->|]; [congruence|done].
    + intros a p. rewrite HL1. unfold with_label. destruct (Z.eqb_spec a o) as [->|]; [lia|].
      intros Ha%Hb. lia.
    + intros _. rewrite HL1, <-(laid_posn _ _ Hl). unfold with_label. by rewrite Z.eqb_refl.
  - split; [by eapply laid_same|]. split; [by apply positions_same|]. split; [|congruence].
    intros a p. unfold labelled. rewrite Hll. intros Ha%Hb. lia.
Qed.

Lemma done_laid o sz vs st1 st' chs :
  insn_sound maxStack sg coder0 mem o sz vs st1 st' -> laid (v_coder st1) chs ->
  CVM_POSN (v_coder st') < 0x80000000 ->
  exists ch, laid (v_coder st') (chs ++ ch) /\ forall a, labelled (v_coder st') a = labelled (v_coder st1) a.
Proof.
  intros Hs Hl Hp.
  destruct Hs as [(out & (bs & Hc & _) & _) _ _ [Hll _]|dest pre tk rest _ _ _ (c1 & bs & op & operands & Hc1 & Hll & _ & Hc' & Hl' & _) _ _ _
       |result _ _ Hc _ _ [Hll _]|op _ Ha _ _].
  - exists [Bytes bs]. split; [by eapply laid_bytes|]. intros a. unfold labelled. by rewrite Hll.
  - exists [Bytes bs; Br op dest]. by eapply branch_laid.
  - eexists [Bytes _]. split; [by eapply laid_bytes|]. intros a. unfold labelled. by rewrite Hll.
  - destruct (access_outputs _ _ _ _ _ _ _ _ _ Ha) as (bs & Hc & Hll & _).
    exists [Bytes bs]. split; [by eapply laid_bytes|]. intros a. unfold labelled. by rewrite Hll.
Qed.

Lemma turn_laid o st st1 st' sz chs :
  turn o st st1 st' sz -> laid (v_coder st) chs -> behind o (v_coder st) ->
  CVM_POSN (v_coder st') < 0x80000000 ->
  (exists ch, laid (v_coder st') (chs ++ ch)) /\ positions_extend (v_coder st1) (v_coder st') /\
  positions_extend (v_coder st) (v_coder st') /\ behind (o + sz) (v_coder st').
Proof.
  intros Ht Hl Hb Hp. pose proof (turn_grows _ _ _ _ _ Ht) as Hg.
  destruct (turn_done _ _ _ _ _ Ht) as (_ & Hsz & _). destruct Ht as [_ Hen (row & opcode & Hf & Hby & Hd)].
  destruct (entered_laid _ _ _ _ Hen Hl Hb ltac:(lia)) as (Hl1 & Hx1 & Hb1 & _).
  destruct (is_stack _ _ _ (en_state _ _ _ _ _ _ Hen)) as [vs Hvs].
  destruct (done_laid _ _ _ _ _ chs (od_sound _ _ _ _ _ _ _ _ _ _ _ (Hd vs Hvs)) Hl1 Hp) as (ch & Hch & HL).
  assert (positions_extend (v_coder st1) (v_coder st')) as Hx by (intros a p Ha; by rewrite HL).
  split; [by exists ch|]. split; [done|]. split; [by etrans|].
  intros a p. rewrite HL. intros Ha%Hb1. lia.
Qed.

(** ** The states that the loop passes on its way to [stf] *)

(** The states of the loop that starts with [st0]. *)
Inductive loop_passes (st0 : state) : Z -> state -> Prop :=
  | passes_here : loop_passes st0 0 st0
  | passes_next o st st' sz :
      loop_passes st0 o st -> insn o st = Ret (st', sz) -> loop_passes st0 (o + sz) st'.

Section Passed.
Variables st0 stf : state.
Hypothesis Hjump : v_jump stf = true.
Hypothesis Hposn : CVM_POSN (v_coder stf) < 0x80000000.

Lemma loop_turn fuel o st :
  on_walk mem 0 o -> 0 <= o <= codeLen -> int_state st -> loop fuel o (codeLen - o) st = Ret stf ->
  o = codeLen /\ st = stf \/
  o < codeLen /\ exists fuel' st1 st' sz, fuel = S fuel' /\ turn o st st1 st' sz /\
    on_walk mem 0 (o + sz) /\ o + sz <= codeLen /\ int_state st' /\
    loop fuel' (o + sz) (codeLen - (o + sz)) st' = Ret stf.
Proof.
  intros Ho Hor Hst. destruct fuel as [|fuel]; simpl; destruct (Z.eqb_spec (codeLen - o) 0) as [E|E]; try done.
  1,2: intros [= <-]; left; split; [lia|done].
  destruct (insn o st) as [[st' sz]| | | |] eqn:Hi; cbn [mbind vres_bind]; try done. intros Hloop. right.
  destruct (insn_turn _ _ _ _ Ho ltac:(lia) Hst Hi) as [st1 Ht].
  destruct (turn_done _ _ _ _ _ Ht) as (Hw & Hsz & Hst' & _).
  pose proof (turn_fits _ _ _ _ _ Ho ltac:(lia) Ht) as Hfit.
  rewrite u32_id in Hloop by (unfold IL_MAX_UINT32; lia).
  split; [lia|]. exists fuel, st1, st', sz. split; [done|]. split; [done|].
  split; [by eapply on_walk_trans|]. split; [done|]. split; [done|].
  by replace (codeLen - (o + sz)) with (codeLen - o - sz) by lia.
Qed.

(** From [o] and [st] the loop gets to [stf]; the code so far is [chs]. *)
Definition passed (o : Z) (st : state) (chs : list chunk) : Prop :=
  on_walk mem 0 o /\ 0 <= o <= codeLen /\ int_state st /\
  loop_passes st0 o st /\ laid (v_coder st) chs /\ behind o (v_coder st) /\
  CVM_POSN (v_coder st0) <= CVM_POSN (v_coder st) /\
  exists fuel, loop fuel o (codeLen - o) st = Ret stf.

Lemma loop_grows fuel o st :
  on_walk mem 0 o -> 0 <= o <= codeLen -> int_state st -> loop fuel o (codeLen - o) st = Ret stf ->
  CVM_POSN (v_coder st) <= CVM_POSN (v_coder stf).
Proof.
  revert o st. induction fuel as [|fuel IH]; intros o st Ho Hor Hst Hl;
    destruct (loop_turn _ _ _ Ho Hor Hst Hl) as [[_ ->]|(_ & fuel' & st1 & st' & sz & E & Ht & Ho' & Hor' & Hst' & Hl')];
    try done.
  injection E as <-. destruct (turn_done _ _ _ _ _ Ht) as (_ & Hsz & _).
  pose proof (turn_grows _ _ _ _ _ Ht). pose proof (IH _ _ Ho' ltac:(lia) Hst' Hl'). lia.
Qed.

Lemma passed_turn o st st1 st' sz chs ch fuel :
  passed o st chs -> turn o st st1 st' sz -> o + sz <= codeLen -> int_state st' ->
  loop fuel (o + sz) (codeLen - (o + sz)) st' = Ret stf ->
  laid (v_coder st') (chs ++ ch) -> passed (o + sz) st' (chs ++ ch).
Proof.
  intros (Ho & Hor & Hst & Hpass & Hl & Hb & Hfrom & _) Ht Hfit Hst' Hloop Hl'.
  destruct (turn_done _ _ _ _ _ Ht) as (Hw & Hsz & _).
  assert (on_walk mem 0 (o + sz)) as Ho' by (by eapply on_walk_trans).
  pose proof (loop_grows _ _ _ Ho' ltac:(lia) Hst' Hloop) as Hg.
  destruct (turn_laid _ _ _ _ _ _ Ht Hl Hb ltac:(lia)) as (_ & _ & _ & Hb').
  split; [done|]. split; [lia|]. split; [done|]. split; [eapply passes_next; [done|by eapply tn_insn]|].
  split; [done|]. split; [done|]. pose proof (turn_grows _ _ _ _ _ Ht). split; [lia|by exists fuel].
Qed.

(** What is true at a passed state stays true up to the end. *)
Lemma passed_end o st chs :
  passed o st chs ->
  (exists rest, laid (v_coder stf) (chs ++ rest)) /\
  positions_extend (v_coder st) (v_coder stf) /\ labels_extend (v_labels st) (v_labels stf).
Proof.
  intros Hp. pose proof Hp as (Ho & Hor & Hst & Hpass & Hl & Hb & Hfrom & fuel & Hloop).
  clear Hpass Hfrom. revert o st chs Hp Ho Hor Hst Hl Hb Hloop. induction fuel as [|fuel IH]; intros o st chs Hp Ho Hor Hst Hl Hb Hloop;
    destruct (loop_turn _ _ _ Ho Hor Hst Hloop) as [[_ ->]|(_ & fuel' & st1 & st' & sz & E & Ht & Ho' & Hor' & Hst' & Hl')];
    try done.
  1,2: split; [exists []; by rewrite app_nil_r|done].
  injection E as <-. destruct (turn_done _ _ _ _ _ Ht) as (_ & Hsz & _ & He).
  pose proof (loop_grows _ _ _ Ho' ltac:(lia) Hst' Hl') as Hg.
  destruct (turn_laid _ _ _ _ _ _ Ht Hl Hb ltac:(lia)) as ([ch Hch] & _ & Hx & Hb').
  pose proof (passed_turn _ _ _ _ _ _ _ _ Hp Ht Hor' Hst' Hl' Hch) as Hp'.
  destruct (IH _ _ _ Hp' Ho' ltac:(lia) Hst' Hch Hb' Hl') as ([rest Hr] & Hx' & He').
  split; [exists (ch ++ rest); by rewrite app_assoc|]. split; by etrans.
Qed.

Lemma passed_next o st chs :
  passed o st chs -> o < codeLen ->
  exists st1 st' sz fuel, turn o st st1 st' sz /\ o + sz <= codeLen /\ int_state st' /\
    loop fuel (o + sz) (codeLen - (o + sz)) st' = Ret stf.
Proof.
  intros (Ho & Hor & Hst & Hpass & Hl & Hb & Hfrom & fuel & Hloop) Hlt.
  destruct (loop_turn _ _ _ Ho Hor Hst Hloop) as [[? _]|(_ & fuel' & st1 & st' & sz & E & Ht & Ho' & Hor' & Hst' & Hl')];
    [lia|]. by exists st1, st', sz, fuel'.
Qed.

(** Every jump target in front is passed. *)
Lemma passed_target o st chs q :
  passed o st chs -> on_walk mem o q -> q < codeLen -> IsJumpTarget mask q = Some true ->
  exists stq chsq, passed q stq chsq.
Proof.
  intros Hp. pose proof Hp as (Ho & Hor & Hst & Hpass & Hl & Hb & Hfrom & fuel & Hloop).
  clear Hpass Hfrom. revert o st chs Hp Ho Hor Hst Hl Hb Hloop. induction fuel as [|fuel IH];
    intros o st chs Hp Ho Hor Hst Hl Hb Hloop Hq Hlt Htq; pose proof (on_walk_ge _ _ _ Hbytes Hq) as Hge;
    destruct (loop_turn _ _ _ Ho Hor Hst Hloop) as [[? _]|(_ & fuel' & st1 & st' & sz & E & Ht & Ho' & Hor' & Hst' & Hl')];
    try lia; try done.
  injection E as <-. destruct (turn_passes _ _ _ _ _ _ Ht Hq Htq) as [->|Hq']; [by exists st, chs|].
  destruct (turn_done _ _ _ _ _ Ht) as (_ & Hsz & _ & He).
  pose proof (loop_grows _ _ _ Ho' ltac:(lia) Hst' Hl') as Hg.
  destruct (turn_laid _ _ _ _ _ _ Ht Hl Hb ltac:(lia)) as ([ch Hch] & _ & Hx & Hb').
  pose proof (passed_turn _ _ _ _ _ _ _ _ Hp Ht Hor' Hst' Hl' Hch) as Hp'.
  by apply (IH _ _ _ Hp' Ho' ltac:(lia) Hst' Hch Hb' Hl').
Qed.

(** ** The simulation *)

Hypothesis Hstart : exists chs0, passed 0 st0 chs0.

(** The words that the evaluation stack takes, and one value more. *)
Definition room : Z := CVM_WORDS_PER_LONG * (maxStack + 1).

(** At the instruction [o], whose code is at [pos], with the values [vs]. *)
Definition at_insn (o pos : Z) (vs : list value) : Prop :=
  exists st chs st1 st' sz fuel, passed o st chs /\ o < codeLen /\ turn o st st1 st' sz /\
    o + sz <= codeLen /\ int_state st' /\ loop fuel (o + sz) (codeLen - (o + sz)) st' = Ret stf /\
    typed (v_stack st1) vs /\ pos = CVM_POSN (v_coder st).

Lemma at_insn_passed o st chs :
  passed o st chs -> o < codeLen ->
  exists st1 st' sz, turn o st st1 st' sz /\
    forall vs, typed (v_stack st1) vs -> at_insn o (CVM_POSN (v_coder st)) vs.
Proof.
  intros Hp Hlt. destruct (passed_next _ _ _ Hp Hlt) as (st1 & st' & sz & fuel & Ht & Hfit & Hst' & Hl).
  exists st1, st', sz. split; [done|]. intros vs Hvs. by exists st, chs, st1, st', sz, fuel.
Qed.

(** The code falls through to the next instruction. *)
Lemma at_insn_next o st chs vs :
  passed o st chs -> v_jump st = false -> typed (v_stack st) vs ->
  at_insn o (CVM_POSN (v_coder st)) vs.
Proof.
  intros Hp Hj Hvs. pose proof Hp as (Ho & Hor & Hst & _ & _ & _ & _ & fuel & Hloop).
  assert (o < codeLen) as Hlt.
  { destruct (loop_turn _ _ _ Ho Hor Hst Hloop) as [[_ ->]|[? _]]; [congruence|done]. }
  destruct (at_insn_passed _ _ _ Hp Hlt) as (st1 & st' & sz & Ht & Hat). apply Hat.
  by rewrite (en_stack _ _ _ _ _ _ (tn_entered _ _ _ _ _ Ht) Hj).
Qed.

(** A branch is to an instruction whose recorded stack fits. *)
Lemma at_insn_target o opcode row dest o2 st chs stack labels vs :
  on_walk mem 0 o -> 0 <= o < codeLen -> il_fetch mem o = Some (opcode, row) ->
  branch_opcode opcode = true -> branch_target mem o opcode = Some dest ->
  passed o2 st chs -> label_made maxStack dest stack labels (v_labels st) ->
  typed stack vs ->
  exists pos vs', labelled (v_coder stf) dest = Some pos /\ 0 <= pos < 0x80000000 /\
    at_insn dest pos vs' /\ same_words vs vs'.
Proof.
  intros Ho Hor Hf Hb Hd Hp (_ & _ & l & Hl & Hmeet) Hvs.
  destruct (Htargets o opcode row Ho Hor Hf Hb) as (d & Hd' & Hdr & Ht & Hw).
  rewrite Hd in Hd'. injection Hd' as <-.
  destruct Hstart as [chs0 H0]. destruct (passed_target _ _ _ _ H0 Hw ltac:(lia) Ht) as (stq & chsq & Hq).
  destruct (at_insn_passed _ _ _ Hq ltac:(lia)) as (st1 & st' & sz & Htq & Hat).
  pose proof Hq as (Hoq & Horq & Hstq & _ & Hlq & Hbq & _ & fuel & Hloop).
  pose proof (tn_entered _ _ _ _ _ Htq) as Hen.
  pose proof (loop_grows _ _ _ Hoq Horq Hstq Hloop) as Hg.
  destruct (entered_laid _ _ _ _ Hen Hlq Hbq ltac:(lia)) as (_ & _ & _ & Hpos). specialize (Hpos Ht).
  destruct (passed_next _ _ _ Hq ltac:(lia)) as (st2 & st3 & sz3 & f3 & Ht3 & Hfit3 & Hst3 & Hloop3).
  assert (st3 = st' /\ sz3 = sz) as [-> ->].
  { pose proof (tn_insn _ _ _ _ _ Ht3) as E. rewrite (tn_insn _ _ _ _ _ Htq) in E. by injection E. }
  assert (on_walk mem 0 (dest + sz)) as How' by (eapply on_walk_trans; [exact Hoq|by destruct (turn_done _ _ _ _ _ Htq)]).
  pose proof (loop_grows _ _ _ How' ltac:(destruct (turn_done _ _ _ _ _ Htq) as (_ & ? & _); lia) Hst3 Hloop3) as Hg'.
  destruct (turn_laid _ _ _ _ _ _ Htq Hlq Hbq ltac:(lia)) as ([ch Hch] & Hx & _ & _).
  pose proof (passed_turn _ _ _ _ _ _ _ _ Hq Htq Hfit3 Hst3 Hloop3 Hch) as Hp3.
  destruct (passed_end _ _ _ Hp3) as (_ & Hxf & Hlf).
  destruct (passed_end _ _ _ Hp) as (_ & _ & Hlfb).
  destruct (en_target _ _ _ _ _ _ Hen Ht) as (l' & Hl' & Hmeet').
  assert (labels_extend (v_labels st1) (v_labels st')) as Hle.
  { destruct (tn_done _ _ _ _ _ Htq) as (row' & op' & _ & _ & Hdone).
    destruct (is_stack _ _ _ (en_state _ _ _ _ _ _ Hen)) as [vs0 Hvs0].
    exact (od_extend _ _ _ _ _ _ _ _ _ _ _ (Hdone vs0 Hvs0)). }
  assert (l' = l) as ->.
  { pose proof (Hlf _ _ (Hle _ _ Hl')) as E1. pose proof (Hlfb _ _ Hl) as E2. congruence. }
  destruct (stack_meets_values _ _ _ Hmeet Hvs) as (vs1 & Hvs1 & Hw1).
  destruct (stack_meets_values _ _ _ (stack_meets_sym _ _ Hmeet') Hvs1) as (vs2 & Hvs2 & Hw2).
  exists (CVM_POSN (v_coder stq)), vs2. rewrite (laid_posn _ _ Hlq).
  split; [by apply Hxf, Hx|]. rewrite <-(laid_posn _ _ Hlq).
  split; [pose proof (chunks_len_nonneg chsq); rewrite <-(laid_posn _ _ Hlq) in *; lia|].
  split; [by apply Hat|]. by rewrite Hw1.
Qed.

(** The words under the evaluation stack, in which the frame is: they hold the
    variables [lv] and are those of [base] elsewhere. *)
Definition frame_shows (fr : Z) (base : list Z) (lv : il_vars) (bot : list Z) : Prop :=
  vars_typed sg lv /\ frame_holds sg coder0 fr lv bot /\ same_outside sg coder0 fr base bot.

(** The machine at position [pos] of the method, whose code is at [p0]: the
    values [vs] are on top of the frame in a stack area of [total] words. *)
Definition cvm_shows (p0 fr : Z) (base : list Z) (total : nat) (pos : Z) (lv : il_vars)
    (vs : list value) (st : cvm) : Prop :=
  pc st = p0 + pos /\ frame st = fr /\
  exists ws bot, below st = ws ++ bot /\ holds (cells vs) ws /\
    (length ws + length (above st) = total)%nat /\ frame_shows fr base lv bot.

Lemma same_words_cells vs vs' : same_words vs vs' -> cells vs = cells vs'.
Proof.
  induction 1 as [|v v' vs vs' [E1 E2] _ IH]; [done|]. unfold cells, cell_of in *. simpl. by rewrite E1, E2, IH.
Qed.

Lemma typed_room stack vs :
  typed stack vs -> Z.of_nat (length stack) <= maxStack -> cells_size (cells vs) + CVM_WORDS_PER_LONG <= room.
Proof.
  intros Ht Hl. rewrite (typed_length _ _ Ht) in Hl. unfold room. pose proof (cells_size_bound vs).
  pose proof (words_of_pos W64) as Hw. simpl in Hw. nia.
Qed.

Lemma passed_from o st chs : passed o st chs -> CVM_POSN (v_coder st0) <= chunks_len chs.
Proof. intros (_ & _ & _ & _ & Hl & _ & Hfrom & _). by rewrite <-(laid_posn _ _ Hl). Qed.

(** The code that the main loop has output, behind that of the set-up. *)
Definition body : list Z := drop (length (Coder.code (v_coder st0))) (Coder.code (v_coder stf)).

(** The code of a chunk in the finished method. *)
Lemma chunk_code c p0 o st chs ch :
  code_at c (p0 + CVM_POSN (v_coder st0)) body -> passed o st (chs ++ ch) ->
  CVM_POSN (v_coder st0) <= chunks_len chs ->
  code_at c (p0 + chunks_len chs) (layout (labelled (v_coder stf)) (chunks_len chs) ch).
Proof.
  intros Hc Hp Hle. destruct (passed_end _ _ _ Hp) as ([rest [Hr _]] & _). unfold body, CVM_POSN in *.
  set (L := labelled (v_coder stf)) in *. pose proof (length_layout L 0 chs) as Hlay.
  rewrite Hr, <-app_assoc, !layout_app, drop_app_le in Hc by lia. apply code_at_app in Hc as [_ Hc].
  apply code_at_app in Hc as [Hc _]. rewrite length_drop in Hc.
  replace (p0 + _ + _) with (p0 + chunks_len chs) in Hc by lia. exact Hc.
Qed.

Lemma shows_same p0 fr base total pos lv vs vs' m :
  same_words vs vs' -> cvm_shows p0 fr base total pos lv vs' m -> cvm_shows p0 fr base total pos lv vs m.
Proof.
  intros Hs (? & ? & ws & bot & ? & ? & ?). split; [done|]. split; [done|]. exists ws, bot.
  by rewrite (same_words_cells _ _ Hs).
Qed.

Section Advance.
Variables (c : list Z) (p0 fr : Z) (base : list Z) (total : nat).
Hypothesis Hcode : code_at c (p0 + CVM_POSN (v_coder st0)) body.
Hypothesis Hroom : room <= Z.of_nat total.

Abbreviation shows := (cvm_shows p0 fr base total).

(** What the next instruction of IL, or the next few, lead to. *)
Inductive advance (o : Z) (lv : il_vars) (vs : list value) (st : cvm) : Prop :=
  | advance_goes o' pos' lv' vs' vs'' k st' :
      at_insn o' pos' vs'' -> same_words vs' vs'' ->
      (forall m ev, il_run sg mem m o' lv' vs' ev ->
         exists n, (m < n)%nat /\ il_run sg mem n o lv vs ev) ->
      run k c st = Some (Next st') -> shows pos' lv' vs' st' -> advance o lv vs st
  | advance_returns result k st' pos :
      il_run sg mem 1 o lv vs (Returns result) -> run k c st = Some (Next st') ->
      shows pos lv vs st' -> code_at c (p0 + pos) [return_op result] ->
      (forall v, result = Some v -> exists rest, vs = v :: rest) -> advance o lv vs st
  | advance_raises n e k st' :
      il_run sg mem n o lv vs (Raises e) -> run k c st = Some (Throw (cvm_exn e) st') ->
      advance o lv vs st
  | advance_mixed : il_next sg mem o lv vs = Some Mixed -> advance o lv vs st.

Lemma straight_advances o sz lv vs st chs st1 st' m :
  passed o st chs -> turn o st st1 st' sz -> laid (v_coder st1) chs ->
  step_sound mem o sz vs (v_coder st1) (v_coder st') (v_stack st') ->
  same_labels (v_coder st1) (v_coder st') -> v_jump st' = false ->
  (forall chs', laid (v_coder st') (chs ++ chs') -> passed (o + sz) st' (chs ++ chs')) ->
  int_state st' -> 1 <= sz -> shows (chunks_len chs) lv vs m -> advance o lv vs m.
Proof.
  intros Hp Ht Hl1 (out & (bs & Hc & Hruns) & [Htv _] & Hblock) [Hll _] Hj Hnext Hst' Hsz
    (Hpc & Hfr & ws & bot & Hb & Hw & Htot & Hbot).
  pose proof (laid_bytes _ _ _ _ Hl1 Hc Hll) as Hl'. pose proof (Hnext _ Hl') as Hp'.
  pose proof (chunk_code _ _ _ _ _ _ Hcode Hp' (passed_from _ _ _ Hp)) as Hat. simpl in Hat. rewrite app_nil_r, <-Hpc in Hat.
  destruct (Hblock (o + sz) (Z.le_refl _)) as [Hgo Hraise]. destruct out as [vs1|e]; simpl in Hruns.
  - pose proof (Htv _ eq_refl) as Hvs1.
    destruct (Hruns c m ws bot Hat Hb Hw) as (n & ws' & ab' & Hn & Hw' & Hl).
    { pose proof (typed_room _ _ Hvs1 (is_height _ _ _ Hst')). pose proof (holds_length _ _ Hw).
      pose proof (words_of_pos W64) as Hwl. simpl in Hwl. lia. }
    eapply (advance_goes _ _ _ _ (o + sz) (CVM_POSN (v_coder st')) lv vs1 vs1).
    + by apply (at_insn_next _ _ _ _ Hp').
    + reflexivity.
    + intros k ev Hr. destruct (block_run sg _ _ _ lv _ _ (Hgo _ _ eq_refl (block_end _ _ _)) k ev Hr)
        as (n' & _ & Hlt & Hr'). exists n'. split; [apply Hlt; lia|done].
    + exact Hn.
    + split; [simpl; rewrite (laid_posn _ _ Hl'), chunks_len_app; simpl; lia|]. split; [done|].
      exists ws', bot. split; [done|]. split; [done|]. split; [simpl; lia|done].
  - destruct (Hruns c m ws bot Hat Hb Hw) as (n & m' & Hn).
    destruct (block_run sg _ _ _ lv _ _ (Hraise _ eq_refl)) as [k Hk]. by eapply advance_raises.
Qed.

Lemma return_advances o sz lv vs st chs st1 st' m result :
  passed o st chs -> turn o st st1 st' sz -> laid (v_coder st1) chs ->
  (forall lv, il_next sg mem o lv vs = Some (Returns result)) ->
  Coder.code (v_coder st') = Coder.code (v_coder st1) ++ [return_op result] ->
  same_labels (v_coder st1) (v_coder st') ->
  (forall chs', laid (v_coder st') (chs ++ chs') -> passed (o + sz) st' (chs ++ chs')) ->
  shows (chunks_len chs) lv vs m -> advance o lv vs m.
Proof.
  intros Hp Ht Hl1 Hn Hc [Hll _] Hnext Hm.
  pose proof (laid_bytes _ _ _ _ Hl1 Hc Hll) as Hl'. pose proof (Hnext _ Hl') as Hp'.
  pose proof (chunk_code _ _ _ _ _ _ Hcode Hp' (passed_from _ _ _ Hp)) as Hat. simpl in Hat.
  eapply (advance_returns _ _ _ _ result 0).
  - eapply run_end; [reflexivity|exact (Hn lv)|done].
  - reflexivity.
  - exact Hm.
  - exact Hat.
  - intros v ->. specialize (Hn lv). revert Hn. unfold il_next. destruct (il_fetch mem o) as [[op row]|]; [|done].
    cbn [mbind option_bind]. destruct (branch_opcode op).
    { destruct (il_branch op vs) as [[]|]; [|done]. cbn [mbind option_bind]. destruct (branch_target _ _ _); [|done].
      cbn [mbind option_bind]. by destruct (mixed_branch _ _). }
    destruct (op =? IL_OP_RET).
    { destruct (sig_void sg); [done|]. destruct vs as [|v' rest]; [done|]. intros [= ->]. by exists rest. }
    destruct (il_access mem o op) as [a|]; [by destruct (il_exec_var sg a lv vs) as [[]|]|].
    destruct (il_exec _ _ _) as [[]|]; done.
Qed.

Lemma branch_advances o sz lv vs st chs st1 st' m dest pre taken rest :
  passed o st chs -> o < codeLen -> turn o st st1 st' sz -> laid (v_coder st1) chs ->
  typed (v_stack st1) vs -> vs = pre ++ rest -> typed (v_stack st') rest ->
  (forall lv, il_next sg mem o lv vs = Some (Goes (if taken : bool then dest else o + sz) lv rest) \/
     il_next sg mem o lv vs = Some Mixed) ->
  compiles_branch (v_coder st1) (v_coder st') dest (cells pre) taken ->
  label_made maxStack dest (v_stack st') (v_labels st1) (v_labels st') ->
  (v_jump st' = true -> taken = true) ->
  (exists opcode row, il_fetch mem o = Some (opcode, row) /\ branch_opcode opcode = true /\
     branch_target mem o opcode = Some dest) ->
  CVM_POSN (v_coder st') < 0x80000000 ->
  (forall chs', laid (v_coder st') (chs ++ chs') -> passed (o + sz) st' (chs ++ chs')) ->
  shows (chunks_len chs) lv vs m -> advance o lv vs m.
Proof.
  intros Hp Hlt Ht Hl1 Hvs -> Hrest Hnext0 (c1 & bs & op & operands & Hc1 & Hll & Hop & Hc' & Hl' & Hbr & Hreach)
    Hmade Hjmp (opcode & row & Hf & Hb & Hd) Hpos Hpass
    (Hpc & Hfr & ws & bot & Hbl & Hw & Htot & Hbot).
  destruct (Hnext0 lv) as [Hnext|Hnext]; [|by apply advance_mixed].
  destruct (branch_laid _ _ _ _ _ _ _ Hl1 Hc1 Hll Hc' Hl' Hpos) as [Hlaid _].
  pose proof (Hpass _ Hlaid) as Hp'. pose proof Hp as (Ho & Hor & _ & _ & _ & _ & _).
  destruct (at_insn_target o opcode row dest _ _ _ _ _ rest Ho ltac:(lia) Hf Hb Hd Hp' Hmade Hrest)
    as (d & vs2 & HLd & Hdr & Hat & Hsame).
  pose proof (chunk_code _ _ _ _ _ _ Hcode Hp' (passed_from _ _ _ Hp)) as Hcat. cbn [layout render chunk_len] in Hcat.
  rewrite HLd, app_nil_r, <-Hpc in Hcat. apply code_at_app in Hcat as [Hcbs Hcbr].
  pose proof (laid_posn _ _ Hlaid) as Hend. rewrite chunks_len_app in Hend. simpl in Hend.
  pose proof (chunks_len_nonneg chs) as Hpos0.
  assert (i32 (d - (chunks_len chs + Z.of_nat (length bs))) = d - (chunks_len chs + Z.of_nat (length bs))) as Hrel
    by width_lia.
  rewrite Hrel in Hcbr.
  assert (-0x80000000 <= d - (chunks_len chs + Z.of_nat (length bs)) < 0x80000000) as Hrange by lia.
  pose proof (typed_room _ _ Hvs (is_height _ _ _ (en_state _ _ _ _ _ _ (tn_entered _ _ _ _ _ Ht)))) as Hsz.
  unfold cells in Hw, Hsz. rewrite map_app in Hw, Hsz.
  destruct (Hreach _ room Hsz c m ws bot Hcbs Hbl Hw ltac:(lia)) as (n & ws' & ab' & Hn & Hw' & Hl2).
  apply holds_app in Hw' as (w1 & w2 & -> & Hw1 & Hw2).
  set (m1 := mk_cvm (pc m + Z.of_nat (length bs)) (frame m) ((w1 ++ w2) ++ bot) ab') in *.
  destruct (Hbr c m1 w1 (w2 ++ bot) _ (branch_bytes_at c (pc m1) op _ Hop Hrange Hcbr)
    ltac:(simpl; by rewrite app_assoc) Hw1) as (ab2 & Hab & Hstep).
  assert (forall pos, (if taken then d else chunks_len chs + Z.of_nat (length bs) + 6) = pos ->
    exists k m2, run k c m = Some (Next m2) /\ shows pos lv rest m2) as Hrun.
  { intros pos <-. exists (n + 1)%nat. eexists. split; [rewrite (run_app _ _ _ _ _ Hn); simpl; by rewrite Hstep|].
    split; [|split; [done|]].
    - unfold CVM_LEN_BRANCH. simpl. destruct taken; lia.
    - exists w2, bot. split; [done|]. split; [done|]. split; [|done]. simpl in *. rewrite length_app in *. lia. }
  assert (forall k ev, il_run sg mem k (if taken then dest else o + sz) lv rest ev ->
    exists n, (k < n)%nat /\ il_run sg mem n o lv (pre ++ rest) ev) as Hil.
  { intros k ev Hr. exists (S k). split; [lia|]. by eapply run_next; [reflexivity|..]. }
  destruct taken.
  - destruct (Hrun d eq_refl) as (k & m2 & Hk & Hm2). by eapply (advance_goes _ _ _ _ dest d lv rest vs2).
  - destruct (Hrun _ eq_refl) as (k & m2 & Hk & Hm2).
    eapply (advance_goes _ _ _ _ (o + sz) (CVM_POSN (v_coder st')) lv rest rest); [|reflexivity|done|done|].
    + apply (at_insn_next _ _ _ _ Hp'); [|done]. destruct (v_jump st'); [by specialize (Hjmp eq_refl)|done].
    + rewrite Hend. replace (_ + (_ + (6 + 0))) with (chunks_len chs + Z.of_nat (length bs) + 6) by lia. done.
Qed.

Lemma access_advances o sz op lv vs st chs st1 st' m :
  passed o st chs -> turn o st st1 st' sz -> laid (v_coder st1) chs ->
  (forall a lv, il_access mem o op = Some a -> il_next sg mem o lv vs =
     ('(lv', vs') ← il_exec_var sg a lv vs; Some (Goes (o + sz) lv' vs'))) ->
  access_sound sg coder0 mem o op vs (v_coder st1) (v_coder st') (v_stack st') -> v_jump st' = false ->
  (forall chs', laid (v_coder st') (chs ++ chs') -> passed (o + sz) st' (chs ++ chs')) ->
  int_state st' -> shows (chunks_len chs) lv vs m -> advance o lv vs m.
Proof.
  intros Hp Ht Hl1 Hnext Ha Hj Hpass Hst' (Hpc & Hfr & ws & bot & Hb & Hw & Htot & Hlv & Hholds & Hout).
  assert (forall bs lv' vs' k ws' bot' ab', outputs (v_coder st1) (v_coder st') bs ->
    il_next sg mem o lv vs = Some (Goes (o + sz) lv' vs') -> typed (v_stack st') vs' ->
    run k c m = Some (Next (mk_cvm (pc m + Z.of_nat (length bs)) (frame m) (ws' ++ bot') ab')) ->
    holds (cells vs') ws' -> (length ws' + length ab' = total)%nat -> frame_shows fr base lv' bot' ->
    advance o lv vs m) as Hdone.
  { intros bs lv' vs' k ws' bot' ab' [Hc Hll] Hn Hty Hrun Hw' Htot' Hbot'.
    pose proof (laid_bytes _ _ _ _ Hl1 Hc (proj1 Hll)) as Hl'. pose proof (Hpass _ Hl') as Hp'.
    eapply (advance_goes _ _ _ _ (o + sz) (CVM_POSN (v_coder st')) lv' vs' vs' k).
    - by apply (at_insn_next _ _ _ _ Hp').
    - reflexivity.
    - intros n ev Hr. exists (S n). split; [lia|]. by eapply run_next; [reflexivity|..].
    - exact Hrun.
    - split; [simpl; rewrite (laid_posn _ _ Hl'), chunks_len_app; simpl; lia|]. split; [done|].
      by exists ws', bot'. }
  assert (forall bs, outputs (v_coder st1) (v_coder st') bs -> code_at c (pc m) bs) as Hat.
  { intros bs [Hc Hll]. pose proof (laid_bytes _ _ _ _ Hl1 Hc (proj1 Hll)) as Hl'.
    pose proof (chunk_code _ _ _ _ _ _ Hcode (Hpass _ Hl') (passed_from _ _ _ Hp)) as Hat. simpl in Hat.
    by rewrite app_nil_r, <-Hpc in Hat. }
  destruct Ha as [arg n t off bs Hacc Hplace Hob Hload Hty|arg n t off bs v rest r Hacc -> Hplace Hob Hr Hrt Hstore Hty].
  - destruct (Hholds _ _ _ _ Hplace) as (v & Hv & Hvt & pre & sw & l2 & -> & Hl2 & Hslot).
    specialize (Hty v Hvt).
    assert (vt_words t <= Z.of_nat (length (above m))) as Hfits.
    { pose proof (typed_room _ _ Hty (is_height _ _ _ Hst')) as Hsz.
      pose proof (holds_length _ _ Hw). pose proof (words_of_pos W64) as Hwl. simpl in Hwl.
      assert (cells_size (cells (v :: vs)) = vt_words t + cells_size (cells vs)) as Es.
      { unfold cells. simpl. unfold vt_words. by rewrite <-(var_value_width _ _ Hvt). }
      lia. }
    destruct (Hload v c m (ws ++ pre) sw l2 Hvt (Hat _ Hob)) as (ws' & ab' & Hrun & Hw' & Hnum);
      [by rewrite Hb, <-app_assoc|lia|done|done|].
    rewrite Hb, app_assoc in Hrun.
    eapply (Hdone bs lv (v :: vs)); [done| |done|exact Hrun| | |done].
    + rewrite (Hnext _ lv Hacc). unfold il_exec_var. simpl. by rewrite Hv.
    + apply (holds_app [cell_of v] (cells vs)). by exists ws', ws.
    + rewrite length_app. lia.
  - destruct (Hholds _ _ _ _ Hplace) as (x & Hx & Hxt & pre & sw & l2 & -> & Hl2 & Hslot).
    apply (holds_app [cell_of v] (cells rest)) in Hw as (w1 & w2 & -> & Hw1 & Hw2).
    destruct (Hstore c m w1 (w2 ++ pre) sw l2 (Hat _ Hob)) as (k & sw' & ab' & Hrun & Hsw' & Hnum);
      [by rewrite Hb, <-!app_assoc|exact Hw1|lia|by apply slot_words_length in Hslot|].
    rewrite <-app_assoc in Hrun. pose proof (slot_words_length _ _ _ Hslot) as Hswl.
    destruct (frame_store _ _ _ _ _ _ sw' _ _ _ _ _ r (vf_layout _ _ _ Hvars) Hholds Hplace Hl2 Hswl Hsw' Hrt)
      as [Hh' Ho'].
    eapply (Hdone bs (set_var arg n r lv) rest); [done| |done|exact Hrun|done| |].
    + rewrite (Hnext _ lv Hacc). unfold il_exec_var. simpl. rewrite (proj1 Hplace). cbn [mbind option_bind].
      by rewrite Hr.
    + rewrite length_app in Htot. lia.
    + split; [eapply set_var_typed; [done|exact (proj1 Hplace)|done]|]. split; [done|by etrans].
Qed.

Lemma at_insn_advances o pos lv vs m : at_insn o pos vs -> shows pos lv vs m -> advance o lv vs m.
Proof.
  intros (st & chs & st1 & st' & sz & fuel & Hp & Hlt & Ht & Hfit & Hst' & Hloop & Hvs & ->) Hm.
  pose proof Hp as (Ho & Hor & Hst & _ & Hl & Hb & _). rewrite (laid_posn _ _ Hl) in Hm.
  destruct (turn_done _ _ _ _ _ Ht) as (Hw & Hsz & _).
  assert (on_walk mem 0 (o + sz)) as Ho' by (by eapply on_walk_trans).
  pose proof (loop_grows _ _ _ Ho' ltac:(lia) Hst' Hloop) as Hg. pose proof (turn_grows _ _ _ _ _ Ht) as Hg1.
  pose proof (tn_entered _ _ _ _ _ Ht) as Hen.
  destruct (entered_laid _ _ _ _ Hen Hl Hb ltac:(lia)) as (Hl1 & _).
  assert (forall chs', laid (v_coder st') (chs ++ chs') -> passed (o + sz) st' (chs ++ chs')) as Hpass
    by (intros chs'; by eapply passed_turn).
  destruct (tn_done _ _ _ _ _ Ht) as (row & opcode & Hf & _ & Hdone).
  destruct (od_sound _ _ _ _ _ _ _ _ _ _ _ (Hdone vs Hvs))
    as [Hstep _ Hj Hll|dest pre taken rest -> Hrest Hnext Hc Hmade Hjmp Hfb|result Hnext _ Hc _ _ Hll|op Hnext Ha _ Hj].
  - eapply straight_advances; try done. lia.
  - eapply branch_advances; try done. lia.
  - by eapply return_advances.
  - by eapply access_advances.
Qed.

(** Where a run that starts at [m] is after [k] instructions of IL, when at
    least [n] were asked for. *)
Definition follows (n k : nat) (m : cvm) (ev : il_event) : Prop :=
  match ev with
  | Goes o lv vs => (n <= k)%nat /\ exists st j m', loop_passes st0 o st /\
      Z.of_nat (length vs) <= maxStack /\ run j c m = Some (Next m') /\
      shows (CVM_POSN (v_coder st)) lv vs m'
  | Returns result => exists lv vs pos j m', run j c m = Some (Next m') /\ shows pos lv vs m' /\
      code_at c (p0 + pos) [return_op result] /\
      forall v, result = Some v -> exists rest, vs = v :: rest
  | Raises e => exists j m', run j c m = Some (Throw (cvm_exn e) m')
  | Mixed => exists o lv vs st j m', loop_passes st0 o st /\ run j c m = Some (Next m') /\
      shows (CVM_POSN (v_coder st)) lv vs m' /\ il_next sg mem o lv vs = Some Mixed
  end.

Lemma follows_run n k j m m' ev : run j c m = Some (Next m') -> follows n k m' ev -> follows n k m ev.
Proof.
  intros Hj H. destruct ev as [o lv vs|result|e|]; simpl in *.
  - destruct H as (Hn & st & i & m2 & Hst & Hheight & Hi & Hm2). split; [done|].
    exists st, (j + i)%nat, m2. by rewrite (run_app _ _ _ _ _ Hj).
  - destruct H as (lv & vs & pos & i & m2 & Hi & H). exists lv, vs, pos, (j + i)%nat, m2.
    by rewrite (run_app _ _ _ _ _ Hj).
  - destruct H as (i & m2 & Hi). exists (j + i)%nat, m2.
    by rewrite (run_app _ _ _ _ _ Hj).
  - destruct H as (o & lv & vs & st & i & m2 & Hst & Hi & H). exists o, lv, vs, st, (j + i)%nat, m2.
    by rewrite (run_app _ _ _ _ _ Hj).
Qed.

Lemma follows_later n k k' j m m' ev :
  run j c m = Some (Next m') -> follows n k m' ev -> (k < k')%nat -> follows (S n) k' m ev.
Proof.
  intros Hj H Hk. eapply follows_run; [exact Hj|]. destruct ev; simpl in *; [|done..].
  destruct H as [Hn H]. split; [lia|done].
Qed.

(** A run read under other types. *)
Lemma run_read n k o lv vs vs' m ev :
  same_words vs' vs -> il_run sg mem k o lv vs ev -> follows n k m ev ->
  exists ev', il_run sg mem k o lv vs' ev' /\ follows n k m ev'.
Proof.
  intros Hs Hr Hf. inversion Hr as [|? ? ? ? vs0 o1 lv1 vs1 ? S1 E1 R1|? ? ? vs0 ? S1 E1 D1]; subst.
  - exists (Goes o lv vs'). split; [constructor|]. simpl in *.
    destruct Hf as (Hn & st & j & m' & Hst & Hheight & Hj & Hm).
    split; [done|]. exists st, j, m'. split; [done|]. split; [by rewrite (Forall2_length Hs)|].
    split; [done|by eapply shows_same].
  - exists ev. split; [|done]. eapply run_next; [by etrans|done..].
  - exists ev. split; [|done]. eapply run_end; [by etrans|done..].
Qed.

Lemma runs_on n o pos lv vs m :
  at_insn o pos vs -> shows pos lv vs m -> exists k ev, il_run sg mem k o lv vs ev /\ follows n k m ev.
Proof.
  revert o pos lv vs m. induction n as [|n IH]; intros o pos lv vs m Hat Hm.
  { exists 0%nat, (Goes o lv vs). split; [constructor|]. split; [done|].
    destruct Hat as (st & chs & st1 & st' & sz & fuel & Hp & _ & Ht & _ & _ & _ & Hvs & ->).
    exists st, 0%nat, m. pose proof Hp as (_ & _ & _ & Hpass & _). split; [done|].
    split; [rewrite <-(typed_length _ _ Hvs); by apply (is_height _ _ _ (en_state _ _ _ _ _ _ (tn_entered _ _ _ _ _ Ht)))|].
    done. }
  destruct (at_insn_advances _ _ _ _ _ Hat Hm)
    as [o' pos' lv' vs' vs'' j m' Hat' Hs Hil Hj Hm'|result j m' pos' Hil Hj Hm' Hc Hv|k e j m' Hil Hj|Hil].
  - assert (shows pos' lv' vs'' m') as Hm2 by (by eapply shows_same; [symmetry; exact Hs|]).
    destruct (IH _ _ _ _ _ Hat' Hm2) as (k & ev & Hr & Hf).
    destruct (run_read _ _ _ _ _ _ _ _ Hs Hr Hf) as (ev' & Hr' & Hf').
    destruct (Hil _ _ Hr') as (k' & Hk & Hr2). exists k', ev'. split; [done|].
    by eapply follows_later.
  - exists 1%nat, (Returns result). split; [done|]. by exists lv, vs, pos', j, m'.
  - exists k, (Raises e). split; [done|]. by exists j, m'.
  - exists 1%nat, Mixed. split; [by eapply run_end; [reflexivity|..]|].
    destruct Hat as (st & chs & st1 & st' & sz & fuel & Hp & _ & _ & _ & _ & _ & _ & ->).
    pose proof Hp as (_ & _ & _ & Hpass & _). by exists o, lv, vs, st, 0%nat, m.
Qed.

End Advance.
End Passed.
End Loop.
