(* ===== verification/Method.v ===== *)
(** * Verified methods with branches and variables

    The theorems about a whole method body of integer code, from the verdict
    of [_ILVerify] (both passes, with the CVM coder) to the run of the CVM. *)
From Stdlib Require Import ZArith Lia.
From stdpp Require Import base list option numbers.
From S2P Require Import Prelude Opcodes Cvm Interp JumpMask Scan Coder CoderBranch Types CoderVar CoderSetup Verify VerifyVar VerifyBranch VerifyProps ILSpec CvmProps CvmOps CoderProps Refine RefineBlock ILVars WalkTargets BranchLayout CoderLabels BranchRun Frame FrameVars VarSound SetupFrame MethodFlow MethodLoop Verdict.
Import OpTable.

Local Open Scope Z_scope.

Section Method.
Context {PF : Platform} {TL : TypeLibrary}.
Variable GetTypeSize : Z -> Z.
Variable depth : nat.
Variables (unsafeAllowed : bool) (maxStack returnType : Z) (vars : method_vars) (mem : list Z).
Variables (walk : nat) (sg : il_sig) (coder : ILCVMCoder) (stf : vstate ILCVMCoder).

#[local] Instance CC : ILCoder ILCVMCoder := cvm_coder GetTypeSize.
#[local] Instance CB : ILBranchCoder ILCVMCoder := cvm_branch_coder GetTypeSize.
#[local] Instance CV : ILVarCoder ILCVMCoder := cvm_var_coder GetTypeSize.

Definition codeLen : Z := Z.of_nat (length mem).
Definition st0 : vstate ILCVMCoder := mk_vstate [] [] false coder.

(** The body is integer code below the size at which the mask wraps, with
    variables of integer types that the coder has laid out; its verification
    with a coder that has no labels yet ends in [stf], and the bytecode stays
    below 2^31 bytes. *)
Record verified : Prop := {
  vm_bytes : Forall is_byte mem;
  vm_size : codeLen * 3 <= 0x100000000;
  vm_walk : integer_code walk mem 0 codeLen = true;
  vm_stack : 0 <= maxStack;
  vm_void : sig_void sg = (returnType =? ILType_Void);
  vm_vars : vars_fine vars sg coder;
  vm_fresh : labelList coder = [];
  vm_verify :
    verify_method depth unsafeAllowed maxStack returnType vars mem codeLen coder = Ret stf;
  vm_code : CVM_POSN (v_coder stf) < 0x80000000;
}.

Hypothesis Hv : verified.

(** Both passes and the last check were fine. *)
Lemma verified_passes :
  exists mask h fuel,
    scan (Z.to_nat codeLen) mem codeLen 0 codeLen (new_mask codeLen) false = Ret (mask, h) /\
    targets_fine mem codeLen mask /\
    method_loop depth fuel unsafeAllowed maxStack returnType vars mem mask 0 codeLen st0 = Ret stf /\
    v_jump stf = true.
Proof.
  destruct Hv as [Hb Hs Hw _ _ _ _ Hver _]. unfold verify_method in Hver.
  destruct (scan _ _ _ _ _ _ _) as [[mask h]| | | |] eqn:Hscan; cbn [mbind vres_bind] in Hver; try done.
  destruct (check_targets (Z.to_nat codeLen) mask) as [[]| | | |] eqn:Hcheck; cbn [mbind vres_bind] in Hver; try done.
  destruct (method_loop _ _ _ _ _ _ _ _ _ _ _) as [st| | | |] eqn:Hloop; cbn [mbind vres_bind] in Hver; try done.
  destruct (v_jump st) eqn:Hj; [|done]. injection Hver as ->.
  exists mask, h, (S (length mem)). split; [done|]. split; [|done].
  by eapply (scan_targets_fine mem codeLen Hb eq_refl Hs _ walk).
Qed.

Lemma start_passed mask fuel :
  method_loop depth fuel unsafeAllowed maxStack returnType vars mem mask 0 codeLen st0 = Ret stf ->
  passed GetTypeSize depth unsafeAllowed maxStack returnType vars coder mem mask codeLen st0 stf 0 st0
    [Bytes (Coder.code coder)].
Proof.
  destruct Hv as [_ _ _ Hm _ _ Hfresh _ _]. intros Hloop. split; [constructor|]. split; [unfold codeLen; lia|].
  split; [split; [apply int_stack_nil|done|by intros a l|done]|]. split; [constructor|].
  split; [split; [simpl; by rewrite app_nil_r|]|].
  - intros a _. unfold waiting. simpl. by rewrite Hfresh.
  - split; [intros a p; unfold labelled; simpl; by rewrite Hfresh|]. split; [done|].
    exists fuel. by rewrite Z.sub_0_r.
Qed.

(** From the start of the code with an empty evaluation stack: for any number
    of IL instructions there is a run of as many, or one that ends, and the
    machine follows it. *)
Lemma verified_follows :
  exists mask h,
    scan (Z.to_nat codeLen) mem codeLen 0 codeLen (new_mask codeLen) false = Ret (mask, h) /\
    forall c p0 fr base total lv m n,
      code_at c (p0 + CVM_POSN coder) (body st0 stf) -> room maxStack <= Z.of_nat total ->
      cvm_shows sg coder p0 fr base total (CVM_POSN coder) lv [] m ->
      exists k ev, il_run sg mem k 0 lv [] ev /\
        follows GetTypeSize depth unsafeAllowed maxStack returnType vars sg coder mem mask st0
          c p0 fr base total n k m ev.
Proof.
  destruct verified_passes as (mask & h & fuel & Hscan & Ht & Hloop & Hj). exists mask, h. split; [done|].
  intros c p0 fr base total lv m n Hc Hroom Hm. pose proof (start_passed _ _ Hloop) as Hp.
  destruct Hv as [Hb Hs Hw Hms Hvoid Hvars _ _ Hpos].
  eapply runs_on; try done; [by eexists|].
  eapply (at_insn_next GetTypeSize _ _ _ _ vars sg coder Hms Hvoid Hvars mem mask codeLen walk Hb eq_refl
    Hs Hw Ht st0 stf Hj Hpos 0 st0 [Bytes (Coder.code coder)] [] Hp eq_refl (conj eq_refl (Forall_nil_2 _))).
Qed.

(** The code of the set-up stays in front. *)
Lemma verified_code : Coder.code (v_coder stf) = Coder.code coder ++ body st0 stf.
Proof.
  destruct verified_passes as (mask & h & fuel & _ & Ht & Hloop & Hj). pose proof (start_passed _ _ Hloop) as Hp.
  destruct Hv as [Hb Hs Hw Hms Hvoid Hvars _ _ Hpos].
  assert (exists rest, laid (v_coder stf) ([Bytes (Coder.code coder)] ++ rest)) as [rest [Hr _]]
    by (by eapply passed_end).
  unfold body. cbn [v_coder st0]. rewrite Hr. simpl. by rewrite drop_app_length.
Qed.

(** Runs from the start are related to each other whatever they read. *)
Section Start.
Variable lv : il_vars.
Hypothesis Hlv : vars_typed sg lv.

Lemma start_longest k ev n ev' :
  il_run sg mem k 0 lv [] ev -> ends ev = true -> il_run sg mem n 0 lv [] ev' -> (n <= k)%nat.
Proof. intros Hk He Hn. by apply (il_run_longest _ _ _ _ _ _ _ _ _ _ Hlv (Forall_nil_2 _) (reflexivity _) He Hk Hn). Qed.

Lemma start_same n ev ev' :
  il_run sg mem n 0 lv [] ev -> il_run sg mem n 0 lv [] ev' -> same_event ev ev'.
Proof. apply (il_run_agrees _ _ _ _ _ _ _ _ _ Hlv (Forall_nil_2 _) (reflexivity _)). Qed.

Lemma start_agrees n k lv' vs ev o :
  il_run sg mem n 0 lv [] (Goes o lv' vs) -> il_run sg mem k 0 lv [] ev -> (n < k)%nat ->
  exists vs0 ev', same_words vs vs0 /\ il_next sg mem o lv' vs0 = Some ev'.
Proof.
  intros Hn Hk Hlt. destruct (il_run_prefix _ _ _ _ _ _ _ _ Hk Hlt) as (o' & lv2 & vs' & vs0 & ev' & Hr & Hs & He).
  destruct (start_same _ _ _ Hn Hr) as (<- & <- & Hw).
  exists vs0, ev'. split; [by etrans|done].
Qed.

(** A machine to run the code on. *)
Lemma machine_shows :
  exists base m, cvm_shows sg coder 0 0 base (Z.to_nat (room maxStack)) (CVM_POSN coder) lv [] m.
Proof.
  destruct (frame_exists sg coder lv (vf_layout _ _ _ (vm_vars Hv)) Hlv) as [base Hbase].
  exists base, (mk_cvm (CVM_POSN coder) 0 base (repeat 0 (Z.to_nat (room maxStack)))).
  split; [done|]. split; [done|]. exists [], base. split; [done|]. split; [done|].
  split; [simpl; by rewrite repeat_length|]. split; [done|]. by split.
Qed.

End Start.
End Method.

(** ** Theorems *)


(** C3: Type safety. No run of the reference semantics of IL over a verified
    method of integer code without switch, from any values of its arguments
    and local variables, gets stuck, on an empty stack, operands of wrong
    types, a variable that does not exist or cannot hold the value, an unknown
    opcode or an offset outside the code: whatever configuration a run from
    the start has reached, there is a next step (which may be the return, an
    exception, or [Mixed] at an unsigned branch on operands of two widths).
    The values are integers, and nothing is said of object types
    ([label_generalised_too_late]). *)
Theorem verified_method_safe {PF : Platform} {TL : TypeLibrary} GetTypeSize depth unsafe maxStack
    returnType vars mem walk sg coder stf lv n o lv' vs :
  verified GetTypeSize depth unsafe maxStack returnType vars mem walk sg coder stf ->
  vars_typed sg lv -> il_run sg mem n 0 lv [] (Goes o lv' vs) ->
  exists vs0 ev, same_words vs vs0 /\ il_next sg mem o lv' vs0 = Some ev.
Proof.
  intros Hv Hlv Hn. destruct (verified_follows _ _ _ _ _ _ _ _ _ _ _ Hv) as (mask & h & _ & H).
  destruct (machine_shows _ _ _ _ _ _ _ _ _ _ _ Hv _ Hlv) as (base & m & Hm).
  assert (code_at (Coder.code (v_coder stf)) (0 + CVM_POSN coder) (body (st0 coder) stf)) as Hc.
  { exists (Coder.code coder), []. rewrite app_nil_r. split; [by eapply verified_code|done]. }
  destruct (H (Coder.code (v_coder stf)) _ _ _ (Z.to_nat (room maxStack)) _ _ (S n)
    Hc ltac:(lia) Hm)
    as (k & ev & Hk & Hf).
  destruct (Nat.lt_ge_cases n k) as [Hlt|Hge]; [by eapply start_agrees|].
  destruct ev as [o' lv2 vs'|result|e|]; [destruct Hf as [? _]; lia|..].
  all: pose proof (start_longest _ _ _ Hlv _ _ _ _ Hk eq_refl Hn); assert (n = k) as <- by lia.
  all: exfalso; exact (start_same _ _ _ Hlv _ _ _ Hn Hk).
Qed.


(** ** An example: a loop over an argument and a local variable

    static int sum(int n) { int s = 0; do { s += n; n -= 1; } while(n); return s; }

    0: ldloc.0; ldarg.0; add; stloc.0; 4: ldarg.0; ldc.i4.1; sub; starg.s 0;
    9: ldarg.0; brtrue.s 0; 12: ldloc.0; ret *)
Definition sum_code : list Z :=
  [0x06; 0x02; 0x58; 0x0A; 0x02; 0x17; 0x59; 0x10; 0; 0x02; 0x2D; 0xF4; 0x06; 0x2A].

(** No classes, and no types but those of numbers. *)
Definition no_library : TypeLibrary := {|
  kind__ _ := 0; refType__ _ := 0; modifier_type__ _ := 0; ILTypeGetWithMain t := t;
  enum_type__ t := t; ILTypeGetRank _ := 0; ILTypeGetElemType t := t; ILTypeIdentical := Z.eqb;
  ILTypeAssignCompatibleNonBoxing := Z.eqb; ILTypeIsObjectClass _ := false; ILMethod_Signature _ := 0;
  ILClassFromType t := Some t; ILClassResolve c := c; ILClassToType c := c;
  ILClass_ParentClass _ := None; ILClass_IsInterface _ := false; ILClassInheritsFrom := Z.eqb;
  ILClassImplements := Z.eqb |}.

(** The sizes of the numeric types. *)
Definition int_sizes {PF : Platform} (type : Z) : Z :=
  match vtype_of type with Some t => vt_words t | None => 0 end.
Definition new_coder : ILCVMCoder := mk_coder [] 0 0 0 [] 0 [] [].

Definition sum_signature : MethodSig := mk_sig false [ILType_Int32] false (Some [ILType_Int32]).
Definition sum_vars : method_vars := mk_vars [ILType_Int32] [ILType_Int32] 0.
Definition sum_sig : il_sig := mk_il_sig false [V_I4] [V_I4].

Definition sum_setup : list Z := [COP_SET_NUM_ARGS; 1; COP_CKHEIGHT_N; 0; 0; 0; 0; COP_MK_LOCAL_1].
(** The branch has the offset -9. *)
Definition sum_body : list Z :=
  [COP_ILOAD_0 + 1; COP_ILOAD_0; COP_IADD; COP_ISTORE_0 + 1; COP_ILOAD_0; COP_LDC_I4_1; COP_ISUB;
   COP_ISTORE_0; COP_ILOAD_0; COP_BRTRUE; 0xF7; 0; 0; 0; 0; COP_ILOAD_0 + 1; COP_RETURN_1].
Definition sum_start : ILCVMCoder := mk_coder sum_setup 2 2 2 [] 0 [0] [1].
Definition sum_coder : ILCVMCoder :=
  mk_coder (sum_setup ++ sum_body) 2 2 4 [mk_label 0 (Some 8) []] 0 [0] [1].
Definition sum_end : vstate ILCVMCoder := mk_vstate [] [mk_branch_label 0 []] true sum_coder.

Example sum_set_up :
  CVMCoder_Setup (PF := x86_64) (TL := no_library) (int_sizes (PF := x86_64)) false new_coder sum_signature =
    Some (sum_start, 2).
Proof. vm_compute. reflexivity. Qed.

Example sum_verifies :
  verify_method (PF := x86_64) (TL := no_library)
    (CC := cvm_coder (PF := x86_64) (int_sizes (PF := x86_64)))
    (CB := cvm_branch_coder (PF := x86_64) (int_sizes (PF := x86_64)))
    (CV := cvm_var_coder (PF := x86_64) (TL := no_library) (int_sizes (PF := x86_64)))
    5 false 2 ILType_Int32 sum_vars sum_code 14 sum_start = Ret sum_end.
Proof. vm_compute. reflexivity. Qed.

Lemma int_sizes_fine {PF : Platform} : sizes_fine (PF := PF) (int_sizes (PF := PF)).
Proof. intros type t Ht. unfold int_sizes. by rewrite Ht. Qed.

Lemma sum_sig_fine : sig_fine (PF := x86_64) sum_signature sum_sig.
Proof.
  split; [done|done|by repeat constructor|by repeat constructor|vm_compute; discriminate|].
  intros arg n _. vm_compute. discriminate.
Qed.

Lemma no_library_apart : method_types_apart (TL := no_library).
Proof.
  split.
  - intros m type t [Hp _]%vtype_primitive. apply Z.eqb_neq. intros <-. discriminate Hp.
  - intros mtype type t [Hp _]%vtype_primitive Hm. apply Z.eqb_neq. intros ->.
    destruct (primitive_simple (TL := no_library) _ Hp) as (_ & Hc & _).
    unfold ILType_IsMethod in Hm. by rewrite Hc in Hm.
Qed.

Lemma sum_vars_fine : vars_fine (PF := x86_64) (TL := no_library) sum_vars sum_sig sum_start.
Proof.
  split; [by repeat constructor|by repeat constructor| |apply no_library_apart].
  destruct (setup_sound (PF := x86_64) (TL := no_library) int_sizes new_coder _ _ int_sizes_fine sum_sig_fine)
    as (coder & ck & Hset & Hdone & _).
  rewrite sum_set_up in Hset. injection Hset as <- <-.
  exact (setup_layout _ _ _ _ sum_sig_fine Hdone).
Qed.

Lemma sum_verified :
  verified (PF := x86_64) (TL := no_library) (int_sizes (PF := x86_64)) 5 false 2 ILType_Int32 sum_vars
    sum_code 20 sum_sig sum_start sum_end.
Proof.
  split; [repeat constructor; unfold is_byte; lia|vm_compute; discriminate|reflexivity|lia|reflexivity
    |exact sum_vars_fine|reflexivity|exact sum_verifies|reflexivity].
Qed.

(** The variables for the argument 3, and the end with 6 in the local. *)
Definition sum_entry : il_vars := mk_il_vars [VI4 3] [VI4 0].

Lemma sum_entry_typed : vars_typed (PF := x86_64) sum_sig sum_entry.
Proof. by repeat constructor. Qed.

(** Three turns of ten instructions, and the result 6. *)
Lemma sum_runs :
  il_run (PF := x86_64) sum_sig sum_code 32 0 sum_entry [] (Returns (Some (VI4 6))).
Proof. apply (il_eval_run 40). vm_compute. reflexivity. Qed.

(** The machine behind the entry code: the argument and the zero local are on
    the words of the caller. *)
Definition sum_machine : cvm := mk_cvm 8 1 [0; 3; 7] [0; 0; 0].

Lemma sum_machine_shows :
  cvm_shows (PF := x86_64) sum_sig sum_start 0 1 [0; 3; 7] 3 8 sum_entry [] sum_machine.
Proof.
  split; [reflexivity|]. split; [reflexivity|]. exists [], [0; 3; 7]. split; [reflexivity|]. split; [reflexivity|].
  split; [reflexivity|]. split; [exact sum_entry_typed|]. split; [|reflexivity].
  destruct (setup_sound (PF := x86_64) (TL := no_library) int_sizes new_coder _ _ int_sizes_fine sum_sig_fine)
    as (coder & ck & Hset & Hdone & _).
  rewrite sum_set_up in Hset. injection Hset as <- <-.
  apply (entry_frame (PF := x86_64) sum_sig _ _ [VI4 3] [3] [7] Hdone); [by repeat constructor|].
  exists [3], []. split; [reflexivity|]. split; [by exists 3|reflexivity].
Qed.

Lemma sum_body_there : code_at (sum_setup ++ sum_body) (0 + 8) (body (st0 sum_start) sum_end).
Proof. exists sum_setup, []. split; reflexivity. Qed.


Lemma verified_method_safe_witness :
  exists vs0 ev, same_words (PF := x86_64) [VI4 3; VI4 0] vs0 /\
    il_next (PF := x86_64) sum_sig sum_code 2 sum_entry vs0 = Some ev.
Proof.
  apply (verified_method_safe (PF := x86_64) (TL := no_library) (int_sizes (PF := x86_64)) 5 false 2
    ILType_Int32 sum_vars sum_code 20 sum_sig sum_start sum_end sum_entry 2 2 sum_entry [VI4 3; VI4 0]
    sum_verified sum_entry_typed).
  apply (il_eval_run 2). vm_compute. reflexivity.
Defined.


(** ** Methods from their entry

    The set-up, the verification and the finish of a method together: the
    bytecode of a whole method, with its height check, run on the arguments
    that a caller has left on the stack. *)

Import OpTable.


Section Calls.
Context {PF : Platform} {TL : TypeLibrary}.
Variable GetTypeSize : Z -> Z.

(** The variables of a method with this signature. *)
Definition vars_of (signature : MethodSig) (owner : Z) : method_vars :=
  mk_vars (Params signature) (default [] (localVarSig signature)) owner.

(** The set-up gives [coder] and [ck], and [_ILVerify] accepts the body with it
    and ends in [stf]. *)
Record compiled (depth : nat) (unsafe : bool) (maxStack returnType : Z) (signature : MethodSig) (owner : Z)
    (mem : list Z) (walk : nat) (sg : il_sig) (coder : ILCVMCoder) (ck : Z) (stf : vstate ILCVMCoder)
    : Prop := {
  cm_sizes : sizes_fine GetTypeSize;
  cm_sig : sig_fine signature sg;
  cm_setup : exists coder0, CVMCoder_Setup GetTypeSize false coder0 signature = Some (coder, ck);
  cm_body : verified GetTypeSize depth unsafe maxStack returnType (vars_of signature owner) mem walk sg coder stf;
}.

Lemma compiled_code depth unsafe maxStack returnType signature owner mem walk sg coder ck stf :
  compiled depth unsafe maxStack returnType signature owner mem walk sg coder ck stf ->
  setup_done sg coder ck /\
  Coder.code (CVMCoder_Finish (v_coder stf) ck) =
    entry_bytes sg (check_bytes (maxHeight (v_coder stf))) ++ body (st0 coder) stf /\
  CVM_POSN coder = Z.of_nat (length (entry_bytes sg (check_bytes (maxHeight (v_coder stf))))).
Proof.
  intros [Hs Hsig [coder0 Hset] Hv].
  destruct (setup_sound GetTypeSize coder0 _ _ Hs Hsig) as (coder1 & ck1 & Hset1 & Hdone & _).
  rewrite Hset in Hset1. injection Hset1 as <- <-. split; [done|].
  destruct Hdone as [Hc Hck _ _]. pose proof (verified_code _ _ _ _ _ _ _ _ _ _ _ Hv) as Hcode.
  rewrite Hc in Hcode. unfold entry_bytes in Hcode. split.
  - rewrite (finish_code _ _ (num_args_bytes sg) (mk_local_bytes (slots_size (sig_locals sg)) ++ body (st0 coder) stf));
      [unfold entry_bytes; by rewrite <-!app_assoc|by rewrite Hcode, <-!app_assoc|done].
  - unfold CVM_POSN. rewrite Hc. unfold entry_bytes. rewrite !length_app. f_equal. f_equal. f_equal.
    unfold check_bytes. by case_match.
Qed.

(** The whole of a compiled method is correct.  On a machine that holds
    the finished bytecode anywhere and stands at its start, with the arguments
    on the stack as the caller pushed them, and with room for the local
    variables and maxStack + 1 values: when the height check of the entry
    passes, then for every number [n] there is a run of the reference
    semantics of IL from those arguments and zero local variables, of at least
    [n] instructions or to its end, and the machine follows it to the same
    place with the same values, to the return instruction with the result, or
    to the exception.  When the check does not pass, the machine throws
    StackOverflowException. *)
Theorem compiled_method_correct depth unsafe maxStack returnType signature owner mem walk sg coder ck stf
    c p0 fr args argws rest ab :
  compiled depth unsafe maxStack returnType signature owner mem walk sg coder ck stf ->
  code_at c p0 (Coder.code (CVMCoder_Finish (v_coder stf) ck)) ->
  Forall2 var_value (sig_args sg) args -> slots (sig_args sg) args argws ->
  Z.of_nat (length ab) <= IL_MAX_UINT32 -> maxHeight (v_coder stf) <= IL_MAX_UINT32 ->
  slots_size (sig_locals sg) + CVM_WORDS_PER_LONG * (maxStack + 1) <= Z.of_nat (length ab) ->
  let m := mk_cvm p0 fr (argws ++ rest) ab in
  let locals := Z.to_nat (slots_size (sig_locals sg)) in
  if Z.max 8 (maxHeight (v_coder stf)) <? Z.of_nat (length ab) then
    exists mask h,
      scan (length mem) mem (codeLen mem) 0 (codeLen mem) (new_mask (codeLen mem)) false = Ret (mask, h) /\
      forall n, exists k ev, il_run sg mem k 0 (entry_vars sg args) [] ev /\
        follows GetTypeSize depth unsafe maxStack returnType (vars_of signature owner) sg coder mem mask
          (st0 coder) c p0 (Z.of_nat (length rest)) (repeat 0 locals ++ argws ++ rest)
          (length ab - locals) n k m ev
  else exists m', run 2 c m = Some (Throw StackOverflowException m').
Proof.
  intros Hcm Hc Hargs Hs Hab Hmax Hroom m locals. destruct (compiled_code _ _ _ _ _ _ _ _ _ _ _ _ Hcm) as (Hdone & Hfin & Hpos).
  destruct Hcm as [_ Hsig _ Hv]. rewrite Hfin in Hc. apply code_at_app in Hc as [Hentry Hbody].
  pose proof (words_of_pos W64 : 1 <= CVM_WORDS_PER_LONG <= 2) as Hwl. pose proof (vm_stack _ _ _ _ _ _ _ _ _ _ _ Hv) as Hms.
  pose proof (entry_runs c p0 fr sg args argws rest ab _ Hentry (sf_size _ _ Hsig) Hs Hab Hmax ltac:(nia)) as Hrun.
  cbn zeta in Hrun. fold m in Hrun. destruct (_ <? _); [|done]. destruct Hrun as [j Hj]. rewrite <-Hpos in Hbody, Hj.
  fold locals in Hj. set (base := repeat 0 locals ++ argws ++ rest) in *.
  pose proof (slots_size_nonneg (sig_locals sg)) as Hlocals.
  destruct (verified_follows _ _ _ _ _ _ _ _ _ _ _ Hv) as (mask & h & Hscan & H).
  unfold codeLen at 1 in Hscan. rewrite Nat2Z.id in Hscan.
  exists mask, h. split; [done|]. intros n.
  destruct (H c p0 (Z.of_nat (length rest)) base (length ab - locals)%nat (entry_vars sg args)
    (mk_cvm (p0 + CVM_POSN coder) (Z.of_nat (length rest)) base (drop locals ab)) n Hbody) as (k & ev & Hil & Hf).
  - unfold room. lia.
  - split; [done|]. split; [done|]. exists [], base. split; [done|]. split; [done|].
    split; [simpl; by rewrite length_drop|].
    split; [by apply entry_vars_typed|]. split; [by eapply entry_frame|reflexivity].
  - exists k, ev. split; [done|]. by eapply follows_run.
Qed.

End Calls.

(** The method of the example of Method.v, called with 3. *)
Definition sum_compiled_code : list Z :=
  [COP_SET_NUM_ARGS; 1; COP_CKHEIGHT; 0; 0; 0; 0; COP_MK_LOCAL_1] ++ sum_body.

Lemma sum_compiled :
  compiled (PF := x86_64) (TL := no_library) (int_sizes (PF := x86_64)) 5 false 2 ILType_Int32 sum_signature 0
    sum_code 20 sum_sig sum_start 2 sum_end.
Proof.
  split; [exact int_sizes_fine|exact sum_sig_fine|exists new_coder; exact sum_set_up|exact sum_verified].
Qed.

Lemma compiled_method_correct_witness :
  exists mask h,
    scan (H := x86_64) 14 sum_code 14 0 14 (new_mask (H := x86_64) 14) false = Ret (mask, h) /\
    forall n, exists k ev, il_run (PF := x86_64) sum_sig sum_code k 0 (mk_il_vars [VI4 3] [VI4 0]) [] ev /\
      follows (PF := x86_64) (TL := no_library) (int_sizes (PF := x86_64)) 5 false 2 ILType_Int32
        (vars_of sum_signature 0) sum_sig sum_start sum_code mask (st0 sum_start)
        sum_compiled_code 0 1 [0; 3; 7] 19 n k (mk_cvm 0 0 [3; 7] (repeat 0 20)) ev.
Proof.
  refine (compiled_method_correct (PF := x86_64) (TL := no_library) (int_sizes (PF := x86_64)) 5 false 2
    ILType_Int32 sum_signature 0 sum_code 20 sum_sig sum_start 2 sum_end sum_compiled_code 0 0 [VI4 3] [3] [7]
    (repeat 0 20) sum_compiled _ _ _ _ _ _).
  - exists [], []. split; reflexivity.
  - by repeat constructor.
  - exists [3], []. split; [reflexivity|]. split; [by exists 3|reflexivity].
  - vm_compute. discriminate.
  - vm_compute. discriminate.
  - vm_compute. discriminate.
Defined.
