(* ===== verification/MethodTotal.v ===== *)
(** * The verification of a method ends

    Over any coder: every accepted instruction advances, so the main loop of
    VerifyBranch.v ends within one step for each byte of memory, and the two
    chains that the verifier follows, of type modifiers and of class parents,
    end when they are shorter than the bound [depth]. *)
From Stdlib Require Import ZArith Lia.
From stdpp Require Import base list option numbers.
From S2P Require Import Prelude Opcodes Cvm JumpMask Scan Coder CoderBranch Types CoderVar Verify VerifyVar VerifyBranch ILSpec VerifyProps Refine RefineBlock Verdict ILVars Frame VarSound Method.
Import OpTable.

Local Open Scope Z_scope.

Section Total.
Context {PF : Platform} {TL : TypeLibrary} {C : Type} {CC : ILCoder C} {CB : ILBranchCoder C} {CV : ILVarCoder C}.
Variable depth : nat.

(** Every step along a chain of types goes down in [rank]. *)
Record chains_end (rank : Z -> nat) : Prop := {
  ce_bound type : (rank type < depth)%nat;
  ce_enum type : (rank (ILTypeGetEnumType type) <= rank type)%nat;
  ce_ref type : is_complex type = true -> ILType_Kind type = IL_TYPE_COMPLEX_PINNED ->
    (rank (refType__ type) < rank type)%nat;
  ce_modifier type : is_complex type = true ->
    ILType_Kind type = IL_TYPE_COMPLEX_CMOD_REQD \/ ILType_Kind type = IL_TYPE_COMPLEX_CMOD_OPT ->
    (rank (modifier_type__ type) < rank type)%nat;
  ce_with type : ILType_IsWith type = true -> (rank (ILTypeGetWithMain type) < rank type)%nat;
  ce_parent type c p : ILClassFromType type = Some c -> ILClass_ParentClass c = Some p ->
    (rank (ILClassToType p) < rank type)%nat;
}.

Variable rank : Z -> nat.
Hypothesis Hchains : chains_end rank.

Lemma TypeToEngineType_ends P fuel type : (rank type < fuel)%nat -> settles P (TypeToEngineType fuel type).
Proof.
  revert type. induction fuel as [|fuel IH]; intros type Hr; [lia|]. simpl.
  pose proof (ce_enum _ Hchains type) as He. set (t := ILTypeGetEnumType type) in *.
  destruct (ILType_IsPrimitive t); [done|]. destruct (ILType_IsValueType t); [done|].
  destruct (is_complex t) eqn:Hc; [|done].
  pose proof (ce_ref _ Hchains _ Hc). pose proof (ce_modifier _ Hchains _ Hc).
  repeat match goal with |- settles P (if ?b then _ else _) => destruct b eqn:? end; try exact I; apply IH; lia.
Qed.

Lemma IsObjectRef_ends P fuel type : (rank type < fuel)%nat -> settles P (IsObjectRef fuel type).
Proof.
  revert type. induction fuel as [|fuel IH]; intros type Hr; [lia|]. simpl.
  repeat match goal with |- settles P (if ?b then _ else _) => destruct b eqn:? end; try exact I.
  apply IH. pose proof (ce_with _ Hchains type ltac:(assumption)). lia.
Qed.

Lemma TryCommonType_ends P fuel type1 type2 :
  (rank type2 < fuel)%nat -> settles P (TryCommonType fuel type1 type2).
Proof.
  revert type2. induction fuel as [|fuel IH]; intros type2 Hr; [lia|]. simpl.
  repeat match goal with |- settles P (if ?b then _ else _) => destruct b end; try done.
  destruct (ILClassFromType type2) as [c|] eqn:Ec; [|done]. cbn [access mbind vres_bind].
  destruct (ILClass_ParentClass c) as [p|] eqn:Ep; [|done].
  apply IH. pose proof (ce_parent _ Hchains _ _ _ Ec Ep). lia.
Qed.

(** The operations of the verifier that follow chains. *)
Lemma AssignCompatible_ends P item type unsafe : settles P (AssignCompatible depth item type unsafe).
Proof.
  unfold AssignCompatible. destruct (assign_native_pointer _ _ _); [done|].
  destruct (engineType item); try done.
  apply settles_bind; [apply IsObjectRef_ends, Hchains|intros r].
  destruct (_ =? _); [done|]. destruct (negb r); [done|].
  apply settles_bind; [apply IsObjectRef_ends, Hchains|intros []]; done.
Qed.

Lemma ValidateItem_ends P old new : settles P (ValidateItem depth old new).
Proof.
  unfold ValidateItem, CommonType. destruct (_ && _); [done|]. destruct (negb _); [done|].
  destruct (engineType new); settles_tac; apply TryCommonType_ends, Hchains.
Qed.

Lemma ValidateItems_ends P old new : settles P (ValidateItems depth old new).
Proof.
  revert new. induction old as [|i old IH]; intros [|i' new]; try done. simpl.
  apply settles_bind; [apply IH|intros [o n]]. apply settles_bind; [apply ValidateItem_ends|by intros []].
Qed.

Lemma ValidateStack_ends P label stack : settles P (ValidateStack depth label stack).
Proof. unfold ValidateStack. destruct (negb _); [done|]. apply ValidateItems_ends. Qed.

Lemma branch_stack_ends P dest labels stack : settles P (VALIDATE_BRANCH_STACK depth dest labels stack).
Proof.
  unfold VALIDATE_BRANCH_STACK. destruct (FindLabel _ _); [|done].
  apply settles_bind; [apply ValidateStack_ends|by intros []].
Qed.

Lemma target_stack_ends P o jump labels stack : settles P (VALIDATE_TARGET_STACK depth o jump labels stack).
Proof.
  unfold VALIDATE_TARGET_STACK. destruct (FindLabel _ _); [|done]. destruct jump; [done|].
  apply settles_bind; [apply ValidateStack_ends|by intros []].
Qed.

Lemma enter_insn_ends P mask o (st : vstate C) : settles P (enter_insn depth mask o st).
Proof. unfold enter_insn. repeat first [apply target_stack_ends | progress settles_tac]. Qed.

Lemma verify_branch_ends P unsafe opcode dest (st : vstate C) : settles P (verify_branch depth unsafe opcode dest st).
Proof.
  unfold verify_branch, verify_binary_branch, branch_to, top1, top2, infer1, infer2.
  repeat first [apply branch_stack_ends | progress settles_tac].
Qed.

Lemma switch_entries_ends P n mem o sz k (st : vstate C) : settles P (verify_switch_entries depth n mem o sz k st).
Proof.
  revert k st. induction n as [|n IH]; intros k st; simpl; [done|]. unfold rd_uint32, rd.
  repeat first [apply IH | apply branch_stack_ends | progress settles_tac].
Qed.

(** An instruction that the model leaves out: one of another category, or
    "ldarg.0" on an argument of a class type with "ldfld" behind it. *)
Definition modelled_opcode (opcode : Z) : bool :=
  one_of opcode short_branches || one_of opcode long_branches || one_of opcode [IL_OP_SWITCH; IL_OP_RET]
  || match var_instruction opcode with Some _ => true | None => false end || dispatched_opcode opcode.

Definition left_out (vars : method_vars) (mem mask : list Z) (o opcode : Z) : Prop :=
  modelled_opcode opcode = false \/ this_field vars mem mask o opcode = Ret true.

Lemma this_field_ends P vars mem mask o opcode : settles P (this_field vars mem mask o opcode).
Proof. unfold this_field, not_jumped_to, rd. settles_tac. Qed.

Lemma verify_var_ends unsafe vars mem mask o opcode kind form stack (coder : C) :
  settles (this_field vars mem mask o opcode = Ret true)
    (verify_var depth unsafe vars mem mask o opcode kind form stack coder).
Proof.
  unfold verify_var. pose proof (this_field_ends False vars mem mask o opcode) as Hf.
  destruct (this_field vars mem mask o opcode) as [[]| | | |]; cbn [mbind vres_bind]; try done.
  unfold var_number, rd_uint16, rd, verify_ldarg, verify_starg, verify_ldloc,
    verify_stloc, verify_ldarga, verify_ldloca, var_type, top1.
  repeat first [apply TypeToEngineType_ends, Hchains | apply AssignCompatible_ends | progress settles_tac].
Qed.

Lemma verify_opcode_ends unsafe returnType vars mem mask o opcode n (st : vstate C) :
  settles (left_out vars mem mask o opcode)
    (verify_opcode depth unsafe returnType vars mem mask o opcode n st).
Proof.
  unfold verify_opcode, GET_SHORT_DEST, GET_LONG_DEST, verify_switch, verify_ret, rd_uint32, rd, top1.
  destruct (one_of opcode short_branches) eqn:E1; [|destruct (one_of opcode long_branches) eqn:E2].
  1,2: settles_tac; apply verify_branch_ends.
  destruct (opcode =? IL_OP_SWITCH) eqn:E3;
    [repeat first [apply switch_entries_ends | progress settles_tac]|].
  destruct (opcode =? IL_OP_RET) eqn:E4.
  { apply settles_bind; [|intros; exact I]. destruct (negb _); [|exact I]. destruct (v_stack st); [exact I|].
    apply settles_bind; [apply AssignCompatible_ends|by intros []]. }
  destruct (var_instruction opcode) as [[kind form]|] eqn:E5.
  - apply settles_bind; [|by intros []]. eapply settles_impl; [|apply verify_var_ends]. by right.
  - apply settles_bind; [|by intros [[]]]. eapply settles_impl; [|apply dispatch_ends].
    intros E6. left. unfold modelled_opcode. rewrite E1, E2, E5, E6. unfold one_of. cbn [existsb]. by rewrite E3, E4.
Qed.

(** ** Progress *)

Lemma listed_size mem o opcode row l :
  Forall is_byte mem -> insn_row mem o = Ret (opcode, row) -> listed opcode l = true ->
  forallb (fun op => (op <? 254) && match ILMainOpcodeTable !! Z.to_nat op with
    Some row => 1 <=? size row | None => false end) l = true ->
  1 <= size row.
Proof.
  intros Hb Hf Hl Ht. unfold listed in Hl. apply existsb_exists in Hl as (op & Hin & <-%Z.eqb_eq).
  rewrite forallb_forall in Ht. apply Ht in Hin as [Hlt%Z.ltb_lt Hrow]%andb_true_iff.
  destruct (insn_row_cases _ _ _ _ Hb Hf) as [[_ E]|(op & [H0 _] & -> & _)].
  - rewrite E in Hrow. by apply Z.leb_le.
  - unfold IL_OP_PREFIX in Hlt. lia.
Qed.

Lemma var_size mem o opcode row kind form :
  Forall is_byte mem -> insn_row mem o = Ret (opcode, row) -> var_instruction opcode = Some (kind, form) ->
  1 <= size row.
Proof.
  intros Hb Hf Hv.
  assert ((opcode < 254 \/ 256 <= opcode) /\
    match (if opcode <? 254 then ILMainOpcodeTable !! Z.to_nat opcode
           else ILPrefixOpcodeTable !! Z.to_nat (opcode - IL_OP_PREFIX)) with
    Some row => 1 <=? size row | None => false end = true) as [Hr Hrow].
  { revert Hv. apply (var_instruction_forall (fun opcode _ _ => (opcode < 254 \/ 256 <= opcode) /\
      match (if opcode <? 254 then ILMainOpcodeTable !! Z.to_nat opcode
             else ILPrefixOpcodeTable !! Z.to_nat (opcode - IL_OP_PREFIX)) with
      Some row => 1 <=? size row | None => false end = true)).
    repeat (apply Forall_cons_2; [split; [by (first [left; done | right; done])|vm_compute; reflexivity]|]).
    apply Forall_nil_2. }
  destruct (insn_row_cases _ _ _ _ Hb Hf) as [[[H0 H1] E]|(op & [H0 H1] & -> & E)].
  - rewrite (proj2 (Z.ltb_lt _ _)), E in Hrow by lia. by apply Z.leb_le.
  - unfold IL_OP_PREFIX in *. rewrite (proj2 (Z.ltb_ge _ _)), Z.add_simpl_r, E in Hrow by lia. by apply Z.leb_le.
Qed.

Lemma switch_size mem o (st st' : vstate C) sz : verify_switch depth mem o st = Ret (st', sz) -> 1 <= sz.
Proof.
  unfold verify_switch. destruct (top1 (v_stack st)) as [[i rest]| | | |]; cbn [mbind vres_bind]; try done.
  destruct (is_type _ _); [|done]. destruct (rd_uint32 mem (o + 1)) as [n| | | |]; cbn [mbind vres_bind]; try done.
  destruct (verify_switch_entries _ _ _ _ _ _ _); cbn [mbind vres_bind]; try done. intros [= _ <-].
  unfold u32. Z.div_mod_to_equations. lia.
Qed.

Lemma verify_opcode_advances unsafe returnType vars mem mask o opcode row (st st' : vstate C) sz :
  Forall is_byte mem -> insn_row mem o = Ret (opcode, row) ->
  verify_opcode depth unsafe returnType vars mem mask o opcode (size row) st = Ret (st', sz) -> 1 <= sz.
Proof.
  intros Hb Hf. unfold verify_opcode. change one_of with listed.
  destruct (listed opcode short_branches) eqn:E1.
  { pose proof (listed_size _ _ _ _ _ Hb Hf E1 eq_refl) as Hs.
    destruct (GET_SHORT_DEST mem o); cbn [mbind vres_bind]; try done.
    destruct (verify_branch _ _ _ _ _); cbn [mbind vres_bind]; try done. by intros [= _ <-]. }
  destruct (listed opcode long_branches) eqn:E2.
  { pose proof (listed_size _ _ _ _ _ Hb Hf E2 eq_refl) as Hs.
    destruct (GET_LONG_DEST mem o); cbn [mbind vres_bind]; try done.
    destruct (verify_branch _ _ _ _ _); cbn [mbind vres_bind]; try done. by intros [= _ <-]. }
  destruct (opcode =? IL_OP_SWITCH); [apply switch_size|].
  destruct (opcode =? IL_OP_RET) eqn:E3.
  { assert (listed opcode [IL_OP_RET] = true) as Hl by (unfold listed; simpl; by rewrite E3).
    pose proof (listed_size _ _ _ _ _ Hb Hf Hl eq_refl) as Hs.
    destruct (verify_ret _ _ _ _); cbn [mbind vres_bind]; try done. by intros [= _ <-]. }
  destruct (var_instruction opcode) as [[kind form]|] eqn:Ev.
  { pose proof (var_size _ _ _ _ _ _ Hb Hf Ev).
    destruct (verify_var _ _ _ _ _ _ _ _ _ _ _) as [[s c]| | | |]; cbn [mbind vres_bind]; try done. by intros [= _ <-]. }
  destruct (verify_dispatch _ _ _ _ _ _ _ _) as [[[s c] n]| | | |] eqn:E; cbn [mbind vres_bind]; try done.
  intros [= _ <-]. by eapply dispatch_advances.
Qed.

(** The states that the main loop comes to: an offset, the bytes that are left
    and the state there. *)
Section Visits.
Variables (unsafe : bool) (maxStack returnType : Z) (vars : method_vars) (mem mask : list Z).

Inductive visits : Z -> Z -> vstate C -> Z -> Z -> vstate C -> Prop :=
  | visits_here o len st : len <> 0 -> visits o len st o len st
  | visits_later o len st sz st1 o' len' st' :
      len <> 0 -> method_insn depth unsafe maxStack returnType vars mem mask o st = Ret (st1, sz) ->
      visits (o + sz) (u32 (len - sz)) st1 o' len' st' -> visits o len st o' len' st'.

(** The loop comes to an instruction that is left out. *)
Definition comes_to_left_out (o len : Z) (st : vstate C) : Prop :=
  exists o' len' st' opcode row, visits o len st o' len' st' /\
    insn_row mem o' = Ret (opcode, row) /\ left_out vars mem mask o' opcode.

Lemma method_insn_ends o (st : vstate C) :
  settles (exists opcode row, insn_row mem o = Ret (opcode, row) /\ left_out vars mem mask o opcode)
    (method_insn depth unsafe maxStack returnType vars mem mask o st).
Proof.
  unfold method_insn. pose proof (insn_row_ends False mem o) as Hn.
  destruct (insn_row mem o) as [[opcode row]| | | |]; cbn [mbind vres_bind]; try done.
  apply settles_bind; [apply enter_insn_ends|intros st1]. destruct (height_error _ _ _); [done|].
  eapply settles_impl; [|apply verify_opcode_ends]. intros H. by exists opcode, row.
Qed.

Lemma method_insn_advances o (st st' : vstate C) sz :
  Forall is_byte mem -> method_insn depth unsafe maxStack returnType vars mem mask o st = Ret (st', sz) ->
  0 <= o < Z.of_nat (length mem) /\ 1 <= sz.
Proof.
  intros Hb. unfold method_insn. destruct (insn_row mem o) as [[opcode row]| | | |] eqn:Er; try done.
  cbn [mbind vres_bind].
  destruct (enter_insn depth mask o st) as [st1| | | |]; cbn [mbind vres_bind]; try done.
  destruct (height_error _ _ _); [done|]. intros Hi.
  apply verify_opcode_advances in Hi; [|done..].
  by eapply insn_row_range in Er as [? _].
Qed.

Lemma method_loop_ends fuel o len (st : vstate C) :
  Forall is_byte mem -> Z.of_nat (length mem) < o + Z.of_nat fuel -> (0 < fuel)%nat ->
  settles (comes_to_left_out o len st)
    (method_loop depth fuel unsafe maxStack returnType vars mem mask o len st).
Proof.
  intros Hb. revert o len st. induction fuel as [|fuel IH]; intros o len st Hf Hp; [lia|].
  simpl. destruct (Z.eqb_spec len 0) as [|Hlen]; [done|]. pose proof (method_insn_ends o st) as He.
  destruct (method_insn _ _ _ _ _ _ _ _ _) as [[st' sz]| | | |] eqn:Hi; cbn [mbind vres_bind]; try done.
  - pose proof (method_insn_advances _ _ _ _ Hb Hi) as [Ho Ha].
    destruct fuel as [|fuel]; [lia|]. eapply settles_impl; [|apply IH; lia].
    intros (o' & len' & st2 & op & row & Hv & H). exists o', len', st2, op, row. split; [|done].
    by eapply visits_later.
  - destruct He as (opcode & row & He & Hl). exists o, len, st, opcode, row. by split; [apply visits_here|].
Qed.

End Visits.

Lemma check_targets_ends P n mask : settles P (check_targets n mask).
Proof. induction n as [|n IH]; simpl; [done|]. repeat first [apply IH | progress settles_tac]. Qed.

Lemma verify_method_settles unsafe maxStack returnType vars mem (coder : C) :
  Forall is_byte mem -> Z.of_nat (length mem) * 3 <= 0x100000000 ->
  (forall p, 0 <= p < Z.of_nat (length mem) -> ~ wraps mem p) ->
  let len := Z.of_nat (length mem) in
  settles (exists mask h, scan (length mem) mem len 0 len (new_mask len) false = Ret (mask, h) /\
      comes_to_left_out unsafe maxStack returnType vars mem mask 0 len (mk_vstate [] [] false coder))
    (verify_method depth unsafe maxStack returnType vars mem len coder).
Proof.
  intros Hb Hs Hw len. subst len.
  unfold verify_method. rewrite Nat2Z.id.
  pose proof (scan_fine mem _ Hb eq_refl Hs (length mem) 0 (Z.of_nat (length mem)) (new_mask (Z.of_nat (length mem))) false
    (new_mask_ok mem _ eq_refl) (new_mask_jumps mem _ Hs) ltac:(lia) ltac:(lia) ltac:(lia) Hw ltac:(lia)) as Hscan.
  destruct (scan _ _ _ _ _ _ _) as [[mask h]|e| | |]; cbn in Hscan; try done.
  cbn [mbind vres_bind]. apply settles_bind; [apply check_targets_ends|intros _].
  apply settles_bind; [|intros st; by destruct (v_jump st)].
  eapply settles_impl; [|apply method_loop_ends; [done|lia|lia]]. intros H. by exists mask, h.
Qed.

Lemma verify_method_returns unsafe maxStack returnType vars mem (coder : C) :
  Forall is_byte mem -> Z.of_nat (length mem) * 3 <= 0x100000000 ->
  (forall p, 0 <= p < Z.of_nat (length mem) -> ~ wraps mem p) ->
  verify_method depth unsafe maxStack returnType vars mem (Z.of_nat (length mem)) coder <> NoFuel.
Proof.
  intros Hb Hs Hw E. pose proof (verify_method_settles unsafe maxStack returnType vars mem coder Hb Hs Hw) as H.
  cbv zeta in H. by rewrite E in H.
Qed.

(** C5: the verification of a method ends, and the model loses sight of it only
    at an instruction it leaves out.  For any bytes in a buffer of their own, at
    most 2^32 / 3, without a long data annotation whose size wraps, in any
    program whose chains of type modifiers and of class parents are shorter than
    the bound: with as many turns of either loop as there are bytes, [_ILVerify]
    with any coder accepts, rejects or makes an access outside its buffers or
    through a null pointer, also when the remaining length wraps; or the first
    pass has accepted the code and the main loop has come to an instruction of a
    category that is not modelled, or to "ldarg.0; ldfld" on a class. *)
Theorem verify_method_total unsafe maxStack returnType vars mem (coder : C) :
  Forall is_byte mem -> Z.of_nat (length mem) * 3 <= 0x100000000 ->
  (forall p, 0 <= p < Z.of_nat (length mem) -> ~ wraps mem p) ->
  let len := Z.of_nat (length mem) in
  let result := verify_method depth unsafe maxStack returnType vars mem len coder in
  result <> NoFuel /\
  (result = NotModelled ->
    exists mask h, scan (length mem) mem len 0 len (new_mask len) false = Ret (mask, h) /\
    exists o left st opcode row,
      visits unsafe maxStack returnType vars mem mask 0 len (mk_vstate [] [] false coder) o left st /\
      insn_row mem o = Ret (opcode, row) /\
      (modelled_opcode opcode = false \/ this_field vars mem mask o opcode = Ret true)).
Proof.
  intros Hb Hs Hw len. pose proof (verify_method_settles unsafe maxStack returnType vars mem coder Hb Hs Hw) as H.
  cbv zeta in H. fold len in H. intros result. fold result in H. by destruct result.
Qed.

(** ** The straight-line loop is part of the main loop *)

Definition not_dispatched (opcode : Z) : bool :=
  one_of opcode short_branches || one_of opcode long_branches || (opcode =? IL_OP_SWITCH)
  || (opcode =? IL_OP_RET) || match var_instruction opcode with Some _ => true | None => false end.

Lemma categories_apart opcode :
  0 <= opcode < 510 -> dispatched_opcode opcode = true -> not_dispatched opcode = false.
Proof.
  intros Hr Hd.
  assert (forallb (fun n => negb (dispatched_opcode (Z.of_nat n) && not_dispatched (Z.of_nat n))) (seq 0 510) = true)
    as H by (vm_compute; reflexivity).
  rewrite forallb_forall in H. specialize (H (Z.to_nat opcode) ltac:(apply in_seq; lia)).
  rewrite Z2Nat.id, Hd in H by lia. by apply negb_true_iff in H.
Qed.

Lemma dispatch_dispatched unsafe mem mask o opcode n stack (coder : C) r :
  verify_dispatch unsafe mem mask o opcode n stack coder = Ret r -> dispatched_opcode opcode = true.
Proof.
  intros Hr. apply not_false_iff_true. intros Hd. revert Hr.
  unfold dispatched_opcode, simple_opcode, verify_dispatch, verify_simple in *.
  repeat match goal with H : _ || _ = false |- _ => apply orb_false_iff in H as [? ?] end.
  assert (list_find (fun p => fst p = opcode) conv_table = None) as ->.
  { apply list_find_None, Forall_forall. intros p Hp <-.
    assert (one_of p.1 (map fst conv_table) = true) as E by (apply existsb_exists; exists p.1; split;
      [by apply in_map|apply Z.eqb_refl]). congruence. }
  match goal with H : one_of opcode (map _ _) = false |- _ => clear H end.
  unfold one_of in *. cbn [existsb] in *.
  repeat match goal with H : _ || _ = false |- _ => apply orb_false_iff in H as [? H] end.
  repeat match goal with H : ?b = false |- context [?b] => rewrite H end. done.
Qed.

Lemma block_insn_in_method unsafe maxStack returnType vars mem mask o stack labels (coder : C) stack' coder' sz :
  Forall is_byte mem -> verify_insn unsafe maxStack mem mask o stack coder = Ret (stack', coder', sz) ->
  method_insn depth unsafe maxStack returnType vars mem mask o (mk_vstate stack labels false coder) =
    Ret (mk_vstate stack' labels false coder', sz).
Proof.
  intros Hb. unfold verify_insn, method_insn, enter_insn.
  destruct (insn_row mem o) as [[opcode row]| | | |] eqn:Er; try done. cbn [mbind vres_bind].
  destruct (IsJumpTarget mask o) as [[]|]; cbn [access mbind vres_bind]; try done. cbn [v_jump v_stack v_labels v_coder mbind vres_bind].
  destruct (height_error _ _ _); [done|]. intros Hd.
  assert (0 <= opcode < 510) as Hr.
  { destruct (insn_row_cases _ _ _ _ Hb Er) as [[[H0 H1] _]|(op & [H0 H1] & -> & _)]; unfold IL_OP_PREFIX; lia. }
  pose proof (categories_apart _ Hr (dispatch_dispatched _ _ _ _ _ _ _ _ _ Hd)) as Hn.
  unfold not_dispatched in Hn. apply orb_false_iff in Hn as [[[[E1 E2]%orb_false_iff E3]%orb_false_iff E4]%orb_false_iff Hn].
  unfold verify_opcode. rewrite E1, E2, E3, E4. destruct (var_instruction opcode); [done|].
  cbn [v_stack v_coder v_labels v_jump]. by rewrite Hd.
Qed.

(** Code without jump targets, labels or jumps: the loop of Verify.v is the
    main loop there. *)
Lemma verify_loop_in_method fuel unsafe maxStack returnType vars mem mask o len stack labels (coder : C) stack' coder' :
  Forall is_byte mem ->
  verify_loop fuel unsafe maxStack mem mask o len stack coder = Ret (stack', coder') ->
  method_loop depth fuel unsafe maxStack returnType vars mem mask o len (mk_vstate stack labels false coder) =
    Ret (mk_vstate stack' labels false coder').
Proof.
  intros Hb. revert o len stack coder. induction fuel as [|fuel IH]; intros o len stack coder; simpl.
  { destruct (len =? 0); [|done]. by intros [= -> ->]. }
  destruct (len =? 0); [by intros [= -> ->]|].
  destruct (verify_insn _ _ _ _ _ _ _) as [[[st c] sz]| | | |] eqn:Hi; try done. cbn [mbind vres_bind].
  rewrite (block_insn_in_method _ _ returnType vars _ _ _ _ labels _ _ _ _ Hb Hi). cbn [mbind vres_bind]. apply IH.
Qed.

End Total.

(** In the library without classes no chain has a second link. *)
Lemma no_library_chains : chains_end (TL := no_library) 5 (fun type => if type =? 0 then 0%nat else 1%nat).
Proof.
  split; cbn; try done.
  - intros type. destruct (type =? 0); lia.
  - intros type. unfold ILTypeGetEnumType. cbn. destruct (ILType_IsWith _); repeat case_match; simpl; lia.
  - intros type _ [Hk|Hk]; by vm_compute in Hk.
  - intros type. unfold ILType_IsWith, ILType_Kind. cbn. by rewrite andb_false_r.
Qed.

Lemma verify_method_total_witness :
  verify_method (PF := x86_64) (TL := no_library) 5 false 2 ILType_Int32 (mk_vars [] [] 0) scan_example
    (Z.of_nat (length scan_example)) tt <> NoFuel.
Proof.
  exact (proj1 (verify_method_total (PF := x86_64) (TL := no_library) 5 _ no_library_chains false 2 ILType_Int32
    (mk_vars [] [] 0) scan_example tt scan_example_bytes ltac:(vm_compute; discriminate) scan_example_wraps)).
Defined.
