(* ===== verification/MetadataLibrary.v ===== *)
(** * The metadata image as the verifier's type library

    Types.v asks a [TypeLibrary] about types and classes; here the functions
    of Metadata.v answer.  Where the pointers of the heap have no cycles every
    answer is there, signatures of methods are not types of variables, and the
    chains that the verifier follows are those of the heap, which end. *)
From Stdlib Require Import ZArith Lia String.
From stdpp Require Import base list option numbers.
From S2P Require Import Prelude Opcodes Cvm JumpMask Scan Coder CoderBranch Types Metadata MetadataProps CoderVar Verify VerifyVar VerifyBranch ILVars VarSound MethodTotal.

Local Open Scope Z_scope.

(** The library over a heap.  A method points to its signature. *)
Definition metadata_library (h : Heap) (depth : nat) (signature : Z -> Z) : TypeLibrary := {|
  Types.kind__ type := o_kind (type_at h type);
  Types.refType__ type := o_ref (type_at h type);
  Types.modifier_type__ type := o_mod_type (type_at h type);
  Types.ILTypeGetWithMain type := default 0 (Metadata.ILTypeGetWithMain h depth type);
  Types.enum_type__ type := default type (Metadata.ILTypeGetEnumType h depth type);
  Types.ILTypeGetRank type := default 0 (Metadata.ILTypeGetRank h depth type);
  Types.ILTypeGetElemType type := default 0 (Metadata.ILTypeGetElemType h depth type);
  Types.ILTypeIdentical t1 t2 := default false (Metadata.ILTypeIdentical h depth depth t1 t2);
  Types.ILTypeAssignCompatibleNonBoxing src dest :=
    default false (Metadata.ILTypeAssignCompatibleNonBoxing h depth src dest);
  Types.ILTypeIsObjectClass type := default false (Metadata.ILTypeIsObjectClass h depth type);
  Types.ILMethod_Signature := signature;
  Types.ILClassFromType type := Metadata.ILClassFromType h type;
  Types.ILClassResolve info := default info (Metadata.ILClassResolve h depth info);
  Types.ILClassToType info := default 0 (Metadata.ILClassToType h depth info);
  Types.ILClass_ParentClass info := default None (Metadata.GetParentClass h depth info);
  Types.ILClass_IsInterface info := Metadata.ILClass_IsInterface h info;
  Types.ILClassInheritsFrom info ancestor := default false (Metadata.ILClassInheritsFrom h depth info (Some ancestor));
  Types.ILClassImplements info interface := default false (Metadata.ILClassImplements h depth info interface);
|}.

(** ** Types of variables are not signatures *)

Section Apart.
Variables (h : Heap) (depth : nat).

Lemma primitive_stripped fuel type : ILType_IsPrimitive type = true -> ILTypeStripPrefixes h fuel type = Some type.
Proof.
  unfold ILType_IsPrimitive. intros Hp%Z.eqb_eq. destruct fuel; simpl; unfold complex_type, ILType_IsComplex;
    by rewrite Hp, andb_false_r.
Qed.

Lemma signature_stripped fuel type :
  complex_type type = true -> method_kind (t_kind h type) = true -> ILTypeStripPrefixes h fuel type = Some type.
Proof.
  intros Hc Hm. assert (prefix_kind (t_kind h type) = false) as Hp.
  { unfold prefix_kind, method_kind in *. destruct (_ =? IL_TYPE_COMPLEX_CMOD_REQD) eqn:E1; [apply Z.eqb_eq in E1; by rewrite E1 in Hm|].
    destruct (_ =? IL_TYPE_COMPLEX_CMOD_OPT) eqn:E2; [apply Z.eqb_eq in E2; by rewrite E2 in Hm|].
    destruct (_ =? IL_TYPE_COMPLEX_PINNED) eqn:E3; [apply Z.eqb_eq in E3; by rewrite E3 in Hm|done]. }
  destruct fuel; simpl; by rewrite Hc, Hp.
Qed.

Lemma signature_not_primitive fuel mtype type :
  complex_type mtype = true -> method_kind (t_kind h mtype) = true -> ILType_IsPrimitive type = true ->
  Metadata.ILTypeIdentical h depth fuel mtype type = Some false.
Proof.
  intros Hc Hm Hp. pose proof Hc as Hc'. unfold complex_type in Hc'. apply andb_true_iff in Hc' as [Hz Hx].
  destruct (complex_flags _ Hx) as (Hmp & Hmc & Hmv).
  assert (mtype <> type) as Hne by congruence. apply Z.eqb_neq in Hne.
  assert (ILType_IsComplex type = false) as Htc.
  { destruct (ILType_IsComplex type) eqn:E; [|done]. apply complex_flags in E. intuition congruence. }
  apply negb_true_iff in Hz. assert (type <> 0) as Ht by (by intros ->). apply Z.eqb_neq in Ht.
  destruct fuel; simpl; rewrite Hne, (signature_stripped _ _ Hc Hm); cbn [mbind option_bind];
    rewrite (primitive_stripped _ _ Hp); cbn [mbind option_bind];
    by rewrite Hne, Hz, Ht, Hmp, Hmc, Hmv, Hx, Htc.
Qed.

End Apart.

Section Library.
Variables (h : Heap) (depth : nat) (signature : Z -> Z).

(** Methods have signatures of methods. *)
Hypothesis Hsig : forall m, complex_type (signature m) = true /\ method_kind (t_kind h (signature m)) = true.

Lemma metadata_types_apart : method_types_apart (TL := metadata_library h depth signature).
Proof.
  split.
  - intros m type t [Hp _]%vtype_primitive. destruct (Hsig m) as [Hc Hm]. cbn.
    by rewrite signature_not_primitive.
  - intros mtype type t [Hp _]%vtype_primitive. cbn. unfold ILType_IsMethod, is_complex. cbn.
    intros [Hc Hm]%andb_true_iff. by rewrite signature_not_primitive.
Qed.

(** One rank for the types of the heap, that also the types of value fields
    and of parents respect; and the kinds of types that are not methods have no
    calling convention. *)
Record library_ranks (link_rank class_rank rank : Z -> nat) : Prop := {
  lr_acyclic : acyclic h depth link_rank class_rank rank;
  lr_plain type : complex_type type = true -> method_kind (t_kind h type) = false -> with_kind (t_kind h type) = false ->
    Z.land (t_kind h type) 0xFF = t_kind h type;
  lr_enum type u : Metadata.ILTypeGetEnumType h depth type = Some u -> (rank u <= rank type)%nat;
  lr_parent type c p : Metadata.ILClassFromType h type = Some c -> GetParentClass h depth c = Some (Some p) ->
    (rank (default 0%Z (Metadata.ILClassToType h depth p)) < rank type)%nat;
}.

(** What a kind under the mask tells of the kind. *)
Lemma low_kind (k n : Z) :
  (method_kind k = false -> with_kind k = false -> Z.land k 0xFF = k) -> Z.land k 0xFF = n ->
  Z.land n IL_TYPE_COMPLEX_METHOD = 0 -> n <> IL_TYPE_COMPLEX_WITH -> k = n.
Proof.
  intros Hp E Hn Hw. rewrite <-Hp; [done| |].
  - unfold method_kind. apply negb_false_iff, Z.eqb_eq. rewrite <-Hn, <-E.
    rewrite <-Z.land_assoc. f_equal.
  - unfold with_kind. rewrite E. by apply Z.eqb_neq.
Qed.

Lemma with_not_other k :
  Z.land k 0xFF = IL_TYPE_COMPLEX_WITH -> prefix_kind k = false /\ ref_kind k = false /\ array_kind k = false.
Proof.
  intros Hk. assert (forall n, Z.land n 0xFF <> IL_TYPE_COMPLEX_WITH -> (k =? n) = false) as H.
  { intros n Hn. apply Z.eqb_neq. congruence. }
  unfold prefix_kind, ref_kind, array_kind. by rewrite !H.
Qed.

Lemma metadata_chains_end link_rank class_rank rank :
  library_ranks link_rank class_rank rank -> chains_end (TL := metadata_library h depth signature) depth rank.
Proof.
  intros Hr. pose proof (lr_acyclic _ _ _ Hr) as Hac. split; cbn.
  - apply (ac_type_depth _ _ _ _ _ Hac).
  - intros type. unfold Types.ILTypeGetEnumType. cbn.
    assert (rank (default type (Metadata.ILTypeGetEnumType h depth type)) <= rank type)%nat.
    { destruct (Metadata.ILTypeGetEnumType h depth type) eqn:E; [by apply (lr_enum _ _ _ Hr)|done]. }
    repeat case_match; done.
  - intros type Hc Hk. apply (low_kind _ _ (lr_plain _ _ _ Hr type Hc)) in Hk; [|done..].
    apply (ac_type _ _ _ _ _ Hac). split; [done|]. cbn. unfold t_kind in Hk. rewrite Hk. cbn.
    unfold prefixed. by rewrite Hk.
  - intros type Hc [Hk|Hk]; apply (low_kind _ _ (lr_plain _ _ _ Hr type Hc)) in Hk; try done.
    all: apply (ac_type _ _ _ _ _ Hac); split; [done|]; cbn; unfold t_kind in Hk; rewrite Hk; cbn.
    all: unfold prefixed; by rewrite Hk.
  - intros type [Hc Hk%Z.eqb_eq]%andb_true_iff. change (Z.land (t_kind h type) 0xFF = IL_TYPE_COMPLEX_WITH) in Hk.
    unfold Metadata.ILTypeGetWithMain, ILTypeGetReturn, complex_type. unfold is_complex in Hc. rewrite Hc.
    assert (signature_kind (t_kind h type) = true) as Hs.
    { unfold signature_kind, with_kind. by rewrite Hk, orb_true_r. }
    rewrite Hs. cbn [andb]. rewrite (strip_eq h depth Hac). apply (Nat.le_lt_trans _ (rank (o_ret (type_at h type)))); [apply (stripped_rank h depth Hac)|].
    apply (ac_type _ _ _ _ _ Hac). split; [done|]. cbn. fold (t_kind h type). rewrite Hs.
    destruct (with_not_other _ Hk) as (-> & -> & ->). auto.
  - intros type c p Hc Hp. apply (lr_parent _ _ _ Hr type c p Hc).
    destruct (GetParentClass h depth c) as [o|] eqn:E; [|done]. cbn in Hp. by rewrite Hp.
Qed.

End Library.

(** ** The theorems *)

(** An instance of a generic class has no underlying class: where the main
    type of the instance is a class, [ILProgramItemToUnderlyingClass] asks for
    the main type of this class once more and finds none. *)
Theorem underlying_of_instance h depth info main :
  c_synthetic (class_at h info) <> 0 -> Metadata.ILTypeGetWithMain h depth (c_synthetic (class_at h info)) = Some main ->
  ILType_IsClass main = true -> ILProgramItemToUnderlyingClass h depth info = Some None.
Proof.
  intros Hs%Z.eqb_neq Hm Hc. unfold ILProgramItemToUnderlyingClass. rewrite Hs, Hm. cbn [negb mbind option_bind].
  destruct (main =? 0); [done|]. unfold underlying_of_main, Metadata.ILTypeGetWithMain, ILTypeGetReturn, complex_type.
  assert (ILType_IsComplex main = false) as ->; [|by rewrite andb_false_r].
  unfold ILType_IsClass, ILType_IsComplex in *. apply Z.eqb_eq in Hc. by rewrite Hc.
Qed.

(** The classes that the system library has for primitive types. *)
Definition system_classes_named (h : Heap) : Prop :=
  forall name c, system_class h name = Some c ->
    c_name (class_at h c) = name /\ c_namespace (class_at h c) = Some "System"%string /\
    c_scope (class_at h c) = None /\ c_synthetic (class_at h c) = 0.

(** Primitive types and their classes in System are two names of the same
    thing: the class that [ILClassFromType] finds for a primitive type is
    translated back to this type by [ILClassToType], for every primitive type
    but those of strings and objects, which have no primitive form. *)
Theorem primitive_class_roundtrip h depth type info :
  system_classes_named h -> ILType_IsPrimitive type = true ->
  type <> ILType_FromElement IL_META_ELEMTYPE_STRING -> type <> ILType_FromElement IL_META_ELEMTYPE_OBJECT ->
  ILClassFromType h type = Some info -> ILClassToType h depth info = Some type.
Proof.
  intros Hn Hp Hs Ho. unfold ILClassFromType. rewrite Hp. pose proof (from_to_element _ Hp) as Ht.
  destruct (list_find _ system_names) as [[i [e name]]|] eqn:Ef; [|done].
  apply list_find_Some in Ef as (Ei & He & _). simpl in He. intros (Hname & Hns & Hsc & Hsyn)%Hn.
  rewrite <-He in Ht. rewrite Ht in Hs, Ho |- *.
  unfold ILClassToType, ILClassToPrimitiveType, ILClassGetNestedParent. rewrite Hname, Hns, Hsc, Hsyn.
  repeat (destruct i as [|i]; [simpl in Ei; injection Ei as <- <-; first [reflexivity|by destruct (Hs eq_refl)|by destruct (Ho eq_refl)]|]).
  done.
Qed.

(** ** The small image *)

Definition small_signature (m : Z) : Z := 0x200.
Definition method_heap : Heap :=
  mk_heap (fun t => if t =? 0x200 then mk_type_object IL_TYPE_COMPLEX_METHOD 0 0 0 0 0 ILType_Void [] 0 0 0 0 else small_type t)
    small_class 0 (Some 1) (fun name => if String.eqb name "Int32" then Some 0x60 else None)
    (fun _ => None) (fun _ => None).

Lemma primitive_class_roundtrip_witness :
  ILClassFromType method_heap ILType_Int32 = Some 0x60 /\ ILClassToType method_heap 3 0x60 = Some ILType_Int32.
Proof.
  split; [reflexivity|]. apply (primitive_class_roundtrip method_heap 3 ILType_Int32 0x60); try done.
  intros name c. cbn. destruct (String.eqb_spec name "Int32") as [->|]; [|done]. by intros [= <-].
Defined.

(** Ranks of its types: a class type is above the class. *)
Definition small_rank (t : Z) : nat :=
  if (t =? 0x100) || (t =? 0x110) then 4
  else if t =? 0x200 then 2
  else if ILType_IsClass t || ILType_IsValueType t then small_class_rank (ILType_ToClass t)
  else if ILType_IsPrimitive t then 1 else 0.

Lemma small_rank_bound t : (small_rank t <= 4)%nat.
Proof. unfold small_rank, small_class_rank. repeat case_match; lia. Qed.

Lemma method_heap_edge c d : class_edge method_heap 6 c d -> class_edge small_heap 3 c d.
Proof.
  assert (forall q, resolved method_heap 6 q = resolved small_heap 3 q) as E.
  { intros q. unfold resolved, ILClassResolve. cbn. unfold small_class. by small_cases q. }
  intros [(q & Hq & <-)|(q & Hq & <-)]; [left|right]; exists q; by rewrite E.
Qed.

Lemma method_heap_acyclic : acyclic method_heap 6 small_link_rank small_class_rank small_rank.
Proof.
  pose proof small_acyclic as Ha. split.
  - exact (ac_link _ _ _ _ _ Ha).
  - intros c. pose proof (ac_link_depth _ _ _ _ _ Ha c). lia.
  - intros c d Hd%method_heap_edge. by apply (ac_class _ _ _ _ _ Ha).
  - intros c. pose proof (ac_class_depth _ _ _ _ _ Ha c). lia.
  - intros t u. unfold component. cbn. unfold small_type.
    destruct (Z.eqb_spec t 0x200) as [->|H1].
    { cbn. intros (_ & _ & [->|(arg & Harg & _)]); [vm_compute; lia|by apply elem_of_nil in Harg]. }
    destruct (Z.eqb_spec t 0x100) as [->|H2]; [vm_compute; intros [_ ->]; lia|].
    destruct (Z.eqb_spec t 0x110) as [->|H3]; [vm_compute; intros [_ ->]; lia|]. cbn. by intros (_ & ? & _).
  - intros t. pose proof (small_rank_bound t). lia.
Qed.

Lemma method_heap_enum t u : Metadata.ILTypeGetEnumType method_heap 6 t = Some u -> u = t.
Proof.
  unfold Metadata.ILTypeGetEnumType, enum_type.
  assert (with_kind (t_kind method_heap t) = false) as ->.
  { unfold t_kind. cbn. unfold small_type. by repeat case_match. }
  rewrite andb_false_r. destruct (ILType_IsValueType t); [|by intros [= ->]].
  rewrite (resolve_eq _ _ method_heap_acyclic). cbn [mbind option_bind].
  rewrite (parent_eq _ _ method_heap_acyclic). cbn [mbind option_bind].
  destruct (_ <$> _) as [p|]; [|by intros [= ->]].
  assert (in_system method_heap p "Enum" = false) as ->; [|by intros [= ->]].
  unfold in_system. cbn. unfold small_class. by small_cases p.
Qed.

(** A type whose class has a parent is at the rank of the class. *)
Lemma small_rank_class t c : c <> 0x10 -> c <> 0x20 -> c <> 0x50 ->
  ILClassFromType method_heap t = Some c -> (small_class_rank c <= small_rank t)%nat.
Proof.
  intros H1 H2 H3. unfold ILClassFromType, small_rank.
  destruct (Z.eqb_spec t 0x100) as [->|]; [done|]. destruct (Z.eqb_spec t 0x110) as [->|]; [done|].
  destruct (Z.eqb_spec t 0x200) as [->|]; [done|]. cbn [orb].
  destruct (ILType_IsPrimitive t) eqn:Ep.
  - destruct (list_find _ _) as [[? [? name]]|]; [|done]. cbn. destruct (String.eqb _ _); [|done]. intros [= <-].
    assert (ILType_IsClass t || ILType_IsValueType t = false) as ->; [|vm_compute; lia].
    unfold ILType_IsPrimitive, ILType_IsClass, ILType_IsValueType in *. apply Z.eqb_eq in Ep. by rewrite Ep.
  - destruct (ILType_IsValueType t); [rewrite orb_true_r; by intros [= <-]|].
    destruct (ILType_IsClass t); [by intros [= <-]|]. by destruct (negb _).
Qed.

Lemma method_heap_ranks : library_ranks method_heap 6 small_link_rank small_class_rank small_rank.
Proof.
  split; [exact method_heap_acyclic|..].
  - intros t _ _ _. unfold t_kind. cbn. unfold small_type. by repeat case_match.
  - intros t u ->%method_heap_enum. done.
  - intros t c p Hc. rewrite (parent_eq _ _ method_heap_acyclic). intros [= Hp].
    destruct (c_parent (small_class c)) as [q|] eqn:Eq; [|done]. injection Hp as Hp.
    assert (class_edge method_heap 6 c p) as He by (left; by exists q).
    apply method_heap_edge, small_edge in He as [(-> & H1 & H2 & H3)|[[-> ->]|[-> ->]]].
    + apply (small_rank_class t c H1 H2 H3) in Hc. revert Hc. unfold small_class_rank.
      apply Z.eqb_neq in H1, H2, H3. rewrite H1, H2, H3. cbn [orb]. vm_compute (small_rank _). case_match; lia.
    + injection Eq as <-. by vm_compute in Hp.
    + apply small_rank_class in Hc; [|done..]. revert Hc. vm_compute (small_class_rank _). vm_compute (small_rank (default _ _)). lia.
Qed.
