(* ===== verification/Layout.v ===== *)
(** * Layout of types and classes (engine/layout.c)

    [LayoutType] and [LayoutClass] for the interpreter (no JIT, no typed
    allocation, no interface method tables of fixed size, as the source is
    configured): sizes and alignments of types, offsets of fields, virtual
    method tables and interface tables, and what the engine records of them.

    A class that has a record is laid out or being laid out; the record of a
    class whose layout fails is taken away again.  Functions of the source that
    return zero for an error return [Failed] with the state they leave;
    [Crashed] is that a null pointer is followed, or that a chain of pointers
    in the heap does not end, and [None] that fuel has run out.  Memory is never
    exhausted. *)
From Stdlib Require Import ZArith Lia String.
From stdpp Require Import base list option numbers gmap strings.
From S2P Require Import Prelude Opcodes Cvm JumpMask Scan Coder Types Metadata.

Local Open Scope Z_scope.

(** ** Sizes of the platform's types: the size and the alignment of each *)

Class LayoutSizes := {
  ffi_type_uint64 : Z * Z;
  ffi_type_float : Z * Z;
  ffi_type_double : Z * Z;
  native_float : Z * Z;
  ffi_type_pointer : Z * Z;
  sizeof_ILTypedRef : Z;
}.

(** ** What is read of the members of a class (image/program.h) *)

Record ILField := mk_field {
  f_id : Z;
  f_attributes : Z;
  f_signature : Z;
  (** The offset of its [ILFieldLayout]. *)
  f_layout : option Z;
  (** It has an [ILFieldRVA]. *)
  f_rva : bool;
  (** It has the thread-static attribute. *)
  f_thread_static : bool;
}.

Record ILMethod := mk_method {
  m_attributes : Z;
  m_name : string;
  m_signature : Z;
  (** The code of the method, if it has IL code. *)
  m_code : option (list Z);
  m_virtual_generic : bool;
}.

(** A declaration, resolved, and the body that overrides it. *)
Record ILOverride := mk_override { over_decl : Z; over_body : Z }.

Record Members := mk_members {
  fields : list ILField;
  methods : list Z;
  overrides : list ILOverride;
  (** Packing and class size of the [ILClassLayout]. *)
  class_layout : option (Z * Z);
}.

(** ** State *)

(** [ILClassPrivate]. *)
Record ClassPrivate := mk_private {
  p_size : Z; p_alignment : Z; p_nativeSize : Z; p_nativeAlignment : Z;
  p_vtableSize : Z; p_vtable : list Z;
  p_staticSize : Z;
  p_hasFinalizer : bool; p_managedInstance : bool; p_managedStatic : bool;
  p_inLayout : bool;
  (** Interfaces and their tables of slots. *)
  p_implements : list (Z * list Z);
}.

(** [LayoutInfo]. *)
Record LayoutInfo := mk_layout {
  l_size : Z; l_alignment : Z; l_nativeSize : Z; l_nativeAlignment : Z;
  l_vtableSize : Z; l_vtable : list Z;
  l_staticSize : Z;
  l_hasFinalizer : bool; l_managedInstance : bool; l_managedStatic : bool;
}.

Record Engine := mk_engine {
  heap : Heap;
  (** The records attached to classes. *)
  userData : gmap Z ClassPrivate;
  (** Offset and native offset of fields. *)
  field_offset : gmap Z (Z * Z);
  (** Index of methods in the vtable. *)
  method_index : gmap Z Z;
  (** Methods that were given a new slot, fields whose RVA was taken away. *)
  new_slot : gset Z;
  rva_removed : gset Z;
  virtual_ancestor : gmap Z (option Z);
  numThreadStaticSlots : Z;
  (** The list from [firstClassPrivate], by class. *)
  class_list : list Z;
}.

Inductive outcome (A : Type) :=
  | Done (a : A) (st : Engine)
  | Failed (st : Engine)
  | Crashed.
Arguments Done {A}.
Arguments Failed {A}.
Arguments Crashed {A}.

(** Functions that return zero for an error. *)
Definition lay (A : Type) : Type := Engine -> option (outcome A).
#[export] Instance lay_ret : MRet lay := fun _ a st => Some (Done a st).
#[export] Instance lay_bind : MBind lay := fun _ _ f m st =>
  match m st with
  | Some (Done a st') => f a st'
  | Some (Failed st') => Some (Failed st')
  | Some Crashed => Some Crashed
  | None => None
  end.

Definition fail {A} : lay A := fun st => Some (Failed st).
Definition stuck {A} : lay A := fun _ => None.
Definition get : lay Engine := fun st => Some (Done st st).
Definition modify (f : Engine -> Engine) : lay unit := fun st => Some (Done tt (f st)).
(** A value that the heap has. *)
Definition lift {A} (o : option A) : lay A := fun st =>
  match o with Some a => Some (Done a st) | None => Some Crashed end.

Fixpoint fold_lay {A B} (f : B -> A -> lay B) (b : B) (l : list A) : lay B :=
  match l with
  | [] => mret b
  | a :: l => b' ← f b a; fold_lay f b' l
  end.

Definition set_heap (h : Heap) (st : Engine) : Engine :=
  mk_engine h (userData st) (field_offset st) (method_index st) (new_slot st) (rva_removed st)
    (virtual_ancestor st) (numThreadStaticSlots st) (class_list st).
Definition set_userData (u : gmap Z ClassPrivate) (st : Engine) : Engine :=
  mk_engine (heap st) u (field_offset st) (method_index st) (new_slot st) (rva_removed st)
    (virtual_ancestor st) (numThreadStaticSlots st) (class_list st).
Definition set_offset (f : Z) (offsets : Z * Z) (st : Engine) : Engine :=
  mk_engine (heap st) (userData st) (<[f := offsets]> (field_offset st)) (method_index st) (new_slot st)
    (rva_removed st) (virtual_ancestor st) (numThreadStaticSlots st) (class_list st).
Definition set_index (m i : Z) (st : Engine) : Engine :=
  mk_engine (heap st) (userData st) (field_offset st) (<[m := i]> (method_index st)) (new_slot st)
    (rva_removed st) (virtual_ancestor st) (numThreadStaticSlots st) (class_list st).
Definition add_new_slot (m : Z) (st : Engine) : Engine :=
  mk_engine (heap st) (userData st) (field_offset st) (method_index st) ({[m]} ∪ new_slot st)
    (rva_removed st) (virtual_ancestor st) (numThreadStaticSlots st) (class_list st).
Definition remove_rva (f : Z) (st : Engine) : Engine :=
  mk_engine (heap st) (userData st) (field_offset st) (method_index st) (new_slot st)
    ({[f]} ∪ rva_removed st) (virtual_ancestor st) (numThreadStaticSlots st) (class_list st).
Definition set_ancestor (m : Z) (a : option Z) (st : Engine) : Engine :=
  mk_engine (heap st) (userData st) (field_offset st) (method_index st) (new_slot st) (rva_removed st)
    (<[m := a]> (virtual_ancestor st)) (numThreadStaticSlots st) (class_list st).
Definition set_slots (n : Z) (st : Engine) : Engine :=
  mk_engine (heap st) (userData st) (field_offset st) (method_index st) (new_slot st) (rva_removed st)
    (virtual_ancestor st) n (class_list st).
Definition add_class (info : Z) (st : Engine) : Engine :=
  mk_engine (heap st) (userData st) (field_offset st) (method_index st) (new_slot st) (rva_removed st)
    (virtual_ancestor st) (numThreadStaticSlots st) (info :: class_list st).

Definition update_private (info : Z) (f : ClassPrivate -> ClassPrivate) (st : Engine) : Engine :=
  set_userData (alter f info (userData st)) st.

(** [info->parent = ILToProgramItem(parent)]. *)
Definition with_parent (c : ILClass_object) (parent : Z) : ILClass_object :=
  mk_class_object (c_linked c) (c_attributes c) (c_name c) (c_namespace c) (c_scope c) (c_image c)
    (Some parent) None (c_implements c) (c_synthetic c) (c_enum_field c).
Definition set_parent (info parent : Z) (st : Engine) : Engine :=
  let h := heap st in
  set_heap (mk_heap (type_at h) (fun c => if c =? info then with_parent (class_at h c) parent else class_at h c)
    (numRedoItems h) (systemImage h) (system_class h) (synthetic_class h) (instance_class h)) st.

(** ** The layout algorithm *)

Section Layout.
Context {PF : Platform} {LS : LayoutSizes}.
(** Fuel for chains of the heap, the members of classes, and what a method
    pointer points to. *)
Variables (depth : nat) (members : Z -> Members) (method_at : Z -> ILMethod).
(** The images that may use explicit layouts and RVA fields. *)
Variable ILImageIsSecure : Z -> bool.

(** *** Types *)

Definition memb (elem : Z) (l : list Z) : bool := existsb (Z.eqb elem) l.

(** Size and alignment of a primitive type. *)
Definition primitive_size (elem : Z) : option (Z * Z) :=
  if memb elem [IL_META_ELEMTYPE_BOOLEAN; IL_META_ELEMTYPE_I1; IL_META_ELEMTYPE_U1] then Some (1, 1)
  else if memb elem [IL_META_ELEMTYPE_CHAR; IL_META_ELEMTYPE_I2; IL_META_ELEMTYPE_U2] then Some (2, 2)
  else if memb elem [IL_META_ELEMTYPE_I4; IL_META_ELEMTYPE_U4] ||
          negb IL_NATIVE_INT64 && memb elem [IL_META_ELEMTYPE_I; IL_META_ELEMTYPE_U] then Some (4, 4)
  else if memb elem [IL_META_ELEMTYPE_I8; IL_META_ELEMTYPE_U8] ||
          IL_NATIVE_INT64 && memb elem [IL_META_ELEMTYPE_I; IL_META_ELEMTYPE_U] then Some ffi_type_uint64
  else if elem =? IL_META_ELEMTYPE_R4 then Some ffi_type_float
  else if elem =? IL_META_ELEMTYPE_R8 then Some ffi_type_double
  else if elem =? IL_META_ELEMTYPE_R then Some native_float
  else if elem =? IL_META_ELEMTYPE_TYPEDBYREF then Some (sizeof_ILTypedRef, snd ffi_type_pointer)
  else None.

Definition simple_layout (sa : Z * Z) (managed : bool) : LayoutInfo :=
  mk_layout (fst sa) (snd sa) (fst sa) (snd sa) 0 [] 0 false managed false.

(** *** Fields *)

(** [if((size % alignment) != 0) size += alignment - (size % alignment);] *)
Definition align_up (size alignment : Z) : Z :=
  if size mod alignment =? 0 then size else u32 (size + (alignment - size mod alignment)).

Definition IL_META_FIELDDEF_STATIC : Z := 0x10.
Definition IL_META_FIELDDEF_LITERAL : Z := 0x40.
Definition is_static (field : ILField) : bool := negb (Z.land (f_attributes field) IL_META_FIELDDEF_STATIC =? 0).
Definition is_literal (field : ILField) : bool := negb (Z.land (f_attributes field) IL_META_FIELDDEF_LITERAL =? 0).

(** What the loop over instance fields works on: the layout of the class so
    far and the greatest alignments. *)
Record FieldState := mk_field_state { fs_layout : LayoutInfo; maxAlignment : Z; maxNativeAlignment : Z }.

Definition with_sizes (l : LayoutInfo) (size nativeSize : Z) : LayoutInfo :=
  mk_layout size (l_alignment l) nativeSize (l_nativeAlignment l) (l_vtableSize l) (l_vtable l) (l_staticSize l)
    (l_hasFinalizer l) (l_managedInstance l) (l_managedStatic l).
Definition with_alignments (l : LayoutInfo) (alignment nativeAlignment : Z) : LayoutInfo :=
  mk_layout (l_size l) alignment (l_nativeSize l) nativeAlignment (l_vtableSize l) (l_vtable l) (l_staticSize l)
    (l_hasFinalizer l) (l_managedInstance l) (l_managedStatic l).
Definition set_managed_instance (l : LayoutInfo) : LayoutInfo :=
  mk_layout (l_size l) (l_alignment l) (l_nativeSize l) (l_nativeAlignment l) (l_vtableSize l) (l_vtable l)
    (l_staticSize l) (l_hasFinalizer l) true (l_managedStatic l).
Definition with_statics (l : LayoutInfo) (staticSize : Z) (managedStatic : bool) : LayoutInfo :=
  mk_layout (l_size l) (l_alignment l) (l_nativeSize l) (l_nativeAlignment l) (l_vtableSize l) (l_vtable l)
    staticSize (l_hasFinalizer l) (l_managedInstance l) managedStatic.
Definition with_vtable_size (l : LayoutInfo) (vtableSize : Z) : LayoutInfo :=
  mk_layout (l_size l) (l_alignment l) (l_nativeSize l) (l_nativeAlignment l) vtableSize (l_vtable l)
    (l_staticSize l) (l_hasFinalizer l) (l_managedInstance l) (l_managedStatic l).
Definition with_vtable (l : LayoutInfo) (vtable : list Z) : LayoutInfo :=
  mk_layout (l_size l) (l_alignment l) (l_nativeSize l) (l_nativeAlignment l) (l_vtableSize l) vtable
    (l_staticSize l) (l_hasFinalizer l) (l_managedInstance l) (l_managedStatic l).
Definition set_finalizer (l : LayoutInfo) : LayoutInfo :=
  mk_layout (l_size l) (l_alignment l) (l_nativeSize l) (l_nativeAlignment l) (l_vtableSize l) (l_vtable l)
    (l_staticSize l) true (l_managedInstance l) (l_managedStatic l).

(** The alignment of a field under a packing size. *)
Definition packed (packingSize alignment : Z) : Z :=
  if negb (packingSize =? 0) && (packingSize <? alignment) then packingSize else alignment.

Definition place_explicit (l t : LayoutInfo) (offset : Z) : LayoutInfo :=
  let size := u32 (offset + l_size t) in
  let nativeSize := u32 (offset + l_nativeSize t) in
  with_sizes l (if l_size l <? size then size else l_size l)
    (if l_nativeSize l <? nativeSize then nativeSize else l_nativeSize l).

(** Offsets of the next field. *)
Definition next_offsets (l t : LayoutInfo) : Z * Z :=
  (align_up (l_size l) (l_alignment t), align_up (l_nativeSize l) (l_nativeAlignment t)).

(** A field with the layout of its type is placed: the layout so far with the
    field, and the offsets of the field. *)
Definition place_field (packingSize : Z) (allowFieldLayout : bool) (s : FieldState) (field : ILField)
    (t : LayoutInfo) : FieldState * (Z * Z) :=
  let t := with_alignments t (packed packingSize (l_alignment t)) (packed packingSize (l_nativeAlignment t)) in
  let l := fs_layout s in
  let '(l, offsets) :=
    match (if allowFieldLayout then f_layout field else None) with
    | Some offset => (place_explicit l t offset, (offset, offset))
    | None =>
      let offsets := next_offsets l t in
      (with_sizes l (u32 (fst offsets + l_size t)) (u32 (snd offsets + l_nativeSize t)), offsets)
    end in
  (mk_field_state (if l_managedInstance t then set_managed_instance l else l)
     (Z.max (maxAlignment s) (l_alignment t)) (Z.max (maxNativeAlignment s) (l_nativeAlignment t)), offsets).

Definition instance_field (LayoutType : Z -> lay LayoutInfo) (packingSize : Z) (allowFieldLayout : bool)
    (s : FieldState) (field : ILField) : lay FieldState :=
  if is_static field then mret s
  else
    t ← LayoutType (f_signature field);
    let '(s, offsets) := place_field packingSize allowFieldLayout s field t in
    modify (set_offset (f_id field) offsets);;
    mret s.

(** The final size: explicit, or rounded up to the alignment. *)
Definition final_size (explicitSize size alignment : Z) : Z :=
  if size <? explicitSize then explicitSize else align_up size alignment.

Definition final_layout (explicitSize : Z) (s : FieldState) : LayoutInfo :=
  let l := fs_layout s in
  let alignment := Z.max (l_alignment l) (maxAlignment s) in
  let nativeAlignment := Z.max (l_nativeAlignment l) (maxNativeAlignment s) in
  with_alignments
    (with_sizes l (final_size explicitSize (l_size l) alignment) (final_size explicitSize (l_nativeSize l) nativeAlignment))
    alignment nativeAlignment.

(** [ILUInt32 alignment : 6]. *)
Definition bits6 (z : Z) : Z := Z.land z 0x3F.

(** The instance sizes are recorded, and the class is no longer in layout. *)
Definition record_instance (l : LayoutInfo) (p : ClassPrivate) : ClassPrivate :=
  mk_private (l_size l) (bits6 (l_alignment l)) (l_nativeSize l) (bits6 (l_nativeAlignment l)) (p_vtableSize p)
    (p_vtable p) (p_staticSize p) (p_hasFinalizer p) (l_managedInstance l) (p_managedStatic p) false
    (p_implements p).

(** *** Explicit layouts *)

Definition IL_META_TYPEDEF_LAYOUT_MASK : Z := 0x18.
Definition IL_META_TYPEDEF_EXPLICIT_LAYOUT : Z := 0x10.

(** Packing size, explicit size, and whether field layouts are allowed; [None]
    for a packing size that is not valid. *)
Definition explicit_of (h : Heap) (info : Z) : option (Z * Z * bool) :=
  let c := class_at h info in
  if (Z.land (c_attributes c) IL_META_TYPEDEF_LAYOUT_MASK =? IL_META_TYPEDEF_EXPLICIT_LAYOUT) &&
     ILImageIsSecure (c_image c)
  then match class_layout (members info) with
       | Some (packingSize, classSize) =>
         if memb packingSize [0; 1; 2; 4; 8] then Some (packingSize, classSize, true) else None
       | None => Some (0, 0, true)
       end
  else Some (0, 0, false).

Definition explicit_layout (info : Z) : lay (Z * Z * bool) :=
  st ← get; match explicit_of (heap st) info with Some e => mret e | None => fail end.

(** *** Virtual methods *)

Definition IL_META_METHODDEF_MEMBER_ACCESS_MASK : Z := 7.
Definition IL_META_METHODDEF_PUBLIC : Z := 6.
Definition IL_META_METHODDEF_VIRTUAL : Z := 0x40.
Definition IL_META_METHODDEF_NEW_SLOT : Z := 0x100.

Definition is_virtual (m : Z) : bool :=
  negb (Z.land (m_attributes (method_at m)) IL_META_METHODDEF_VIRTUAL =? 0).
(** The attributes, with the slots that the layout has given. *)
Definition method_attributes (st : Engine) (m : Z) : Z :=
  if bool_decide (m ∈ new_slot st) then Z.lor (m_attributes (method_at m)) IL_META_METHODDEF_NEW_SLOT
  else m_attributes (method_at m).
(** A field of a method object that was never written is zero. *)
Definition index_of (st : Engine) (m : Z) : Z := default 0 (method_index st !! m).

Fixpoint find_opt {A} (f : A -> option bool) (l : list A) : option (option A) :=
  match l with
  | [] => Some None
  | x :: l => r ← f x; if (r : bool) then Some (Some x) else find_opt f l
  end.

(** [method2] has the name and the signature of [method]. *)
Definition same_method (h : Heap) (method method2 : Z) : option bool :=
  if String.eqb (m_name (method_at method2)) (m_name (method_at method))
  then ILTypeIdentical h depth depth (m_signature (method_at method2)) (m_signature (method_at method))
  else Some false.

Fixpoint FindVirtualAncestor (fuel : nat) (h : Heap) (scope info testMethod : Z) : option (option Z) :=
  method ← find_opt (fun m => if is_virtual m then same_method h testMethod m else Some false)
             (methods (members info));
  match method with
  | Some method =>
    r ← ILMemberAccessible h depth info (m_attributes (method_at method)) scope;
    Some (if (r : bool) then Some method else None)
  | None =>
    parent ← GetParentClass h depth info;
    match parent with
    | None => Some None
    | Some parent => match fuel with O => None | S fuel => FindVirtualAncestor fuel h scope parent testMethod end
    end
  end.

(** A finalizer that does more than return. *)
Definition is_finalizer (h : Heap) (m : Z) : bool :=
  let method := method_at m in
  let signature := type_at h (m_signature method) in
  String.eqb (m_name method) "Finalize" && (o_ret signature =? ILType_Void) && (o_num signature =? 0) &&
  match m_code method with
  | None => true
  | Some code => negb (Z.of_nat (length code) =? 1) || negb (default 0 (code !! 0%nat) =? IL_OP_RET)
  end.

Definition ILMethodSetVirtualAncestor (m : Z) (ancestor : option Z) : lay unit :=
  if m_virtual_generic (method_at m) then modify (set_ancestor m ancestor) else mret tt.

Definition method_slot (info : Z) (parent : option Z) (l : LayoutInfo) (m : Z) : lay LayoutInfo :=
  if negb (is_virtual m) then mret l
  else
    st ← get;
    let l := if is_finalizer (heap st) m then set_finalizer l else l in
    if negb (Z.land (method_attributes st m) IL_META_METHODDEF_NEW_SLOT =? 0) then
      modify (set_index m (l_vtableSize l));;
      ILMethodSetVirtualAncestor m None;;
      mret (with_vtable_size l (u32 (l_vtableSize l + 1)))
    else
      ancestor ← lift match parent with
        | Some parent => FindVirtualAncestor depth (heap st) info parent m
        | None => Some None
        end;
      ILMethodSetVirtualAncestor m ancestor;;
      match ancestor with
      | Some ancestor => modify (set_index m (index_of st ancestor));; mret l
      | None =>
        modify (add_new_slot m);;
        modify (set_index m (l_vtableSize l));;
        mret (with_vtable_size l (u32 (l_vtableSize l + 1)))
      end.

(** The parent's vtable, with room for the new slots, and over it the virtual
    methods of the class. *)
Definition new_vtable (explicitSize : Z) (l : LayoutInfo) : list Z :=
  take (Z.to_nat explicitSize) (l_vtable l) ++ repeat 0 (Z.to_nat (l_vtableSize l - explicitSize)).
Definition override_slots (st : Engine) (ms : list Z) (vtable : list Z) : list Z :=
  foldl (fun vtable m => if is_virtual m then <[Z.to_nat (index_of st m) := m]> vtable else vtable) vtable ms.

Definition record_vtable (l : LayoutInfo) (vtable : list Z) (p : ClassPrivate) : ClassPrivate :=
  mk_private (p_size p) (p_alignment p) (p_nativeSize p) (p_nativeAlignment p) (u16 (l_vtableSize l)) vtable
    (p_staticSize p) (l_hasFinalizer l) (p_managedInstance p) (p_managedStatic p) (p_inLayout p) (p_implements p).

(** All of it: slots, the bound, the table and its record. *)
Definition layout_vtable (info : Z) (parent : option Z) (l : LayoutInfo) : lay LayoutInfo :=
  let ms := methods (members info) in
  let explicitSize := l_vtableSize l in
  l ← fold_lay (method_slot info parent) l ms;
  if 65535 <? l_vtableSize l then fail
  else
    st ← get;
    let vtable := override_slots st ms (new_vtable explicitSize l) in
    modify (update_private info (record_vtable l vtable));;
    mret (with_vtable l vtable).

(** *** Static fields *)

Definition record_statics (l : LayoutInfo) (p : ClassPrivate) : ClassPrivate :=
  mk_private (p_size p) (p_alignment p) (p_nativeSize p) (p_nativeAlignment p) (p_vtableSize p) (p_vtable p)
    (l_staticSize l) (p_hasFinalizer p) (p_managedInstance p) (l_managedStatic l) (p_inLayout p) (p_implements p).

Definition static_field (LayoutType : Z -> lay LayoutInfo) (secure : bool) (l : LayoutInfo) (field : ILField)
    : lay LayoutInfo :=
  if is_static field && negb (is_literal field) then
    (if f_rva field && negb secure then modify (remove_rva (f_id field)) else mret tt);;
    if f_rva field && secure then mret l
    else
      t ← LayoutType (f_signature field);
      st ← get;
      if f_thread_static field then
        modify (set_offset (f_id field) (numThreadStaticSlots st, l_size t));;
        modify (set_slots (u32 (numThreadStaticSlots st + 1)));;
        mret l
      else
        let offset := align_up (l_staticSize l) (l_alignment t) in
        modify (set_offset (f_id field) (offset, offset));;
        mret (with_statics l (u32 (offset + l_size t)) (l_managedStatic l || l_managedInstance t))
  else mret l.

(** *** Interface tables *)

Definition no_slot : Z := 0xFFFF.

(** The table that a parent has for the interface. *)
Fixpoint parent_table (fuel : nat) (st : Engine) (info interface : Z) : option (option (list Z)) :=
  parent ← GetParentClass (heap st) depth info;
  match parent with
  | None => Some None
  | Some parent =>
    p ← userData st !! parent;
    match list_find (fun impl => fst impl = interface) (p_implements p) with
    | Some (_, (_, table)) => Some (Some table)
    | None => match fuel with O => None | S fuel => parent_table fuel st parent interface end
    end
  end.

(** A public virtual method of the name and signature of [method]; the mask
    says whether it must have a new slot. *)
Definition implementing (st : Engine) (mask : Z) (method method2 : Z) : option bool :=
  if Z.land (method_attributes st method2) (Z.lor IL_META_METHODDEF_MEMBER_ACCESS_MASK mask) =?
     Z.lor IL_META_METHODDEF_PUBLIC mask
  then same_method (heap st) method method2 else Some false.
Definition new_slot_mask : Z := Z.lor IL_META_METHODDEF_VIRTUAL IL_META_METHODDEF_NEW_SLOT.

Fixpoint hierarchy_method (fuel : nat) (st : Engine) (info method : Z) : option (option Z) :=
  m ← find_opt (implementing st IL_META_METHODDEF_VIRTUAL method) (methods (members info));
  match m with
  | Some m => Some (Some m)
  | None =>
    parent ← GetParentClass (heap st) depth info;
    match parent with
    | None => Some None
    | Some parent => match fuel with O => None | S fuel => hierarchy_method fuel st parent method end
    end
  end.

(** The entry of one slot: the inherited one, replaced by a new method of the
    class, filled from the class and its parents when it is empty, and
    overridden explicitly. *)
Definition interface_slot (st : Engine) (info : Z) (inherited method : Z) : option Z :=
  if method =? 0 then Some inherited
  else
    m ← find_opt (implementing st new_slot_mask method) (methods (members info));
    let slot := match m with Some m => u16 (index_of st m) | None => inherited end in
    m ← (if slot =? no_slot then hierarchy_method depth st info method else Some None);
    let slot := match m with Some m => u16 (index_of st m) | None => slot end in
    Some match list_find (fun over => over_decl over = method) (overrides (members info)) with
         | Some (_, over) => u16 (index_of st (over_body over))
         | None => slot
         end.

(** The loop over the slots, that fails at a method without implementation. *)
Fixpoint interface_slots (st : Engine) (info : Z) (inherited vtable : list Z) : lay (list Z) :=
  match inherited, vtable with
  | entry :: inherited, method :: vtable =>
    slot ← lift (interface_slot st info entry method);
    if negb (method =? 0) && (slot =? no_slot) then fail
    else slots ← interface_slots st info inherited vtable; mret (slot :: slots)
  | _, _ => mret []
  end.

Definition add_table (interface : Z) (table : list Z) (p : ClassPrivate) : ClassPrivate :=
  mk_private (p_size p) (p_alignment p) (p_nativeSize p) (p_nativeAlignment p) (p_vtableSize p) (p_vtable p)
    (p_staticSize p) (p_hasFinalizer p) (p_managedInstance p) (p_managedStatic p) (p_inLayout p)
    ((interface, table) :: p_implements p).

Definition interface_classes (h : Heap) (info : Z) : option (list Z) :=
  mapM (ILClassResolve h depth) (c_implements (class_at h info)).

Fixpoint ComputeInterfaceTable (fuel : nat) (info interface : Z) : lay unit :=
  st ← get;
  p ← lift (userData st !! info);
  if bool_decide (interface ∈ (p_implements p).*1) then mret tt
  else
    ip ← lift (userData st !! interface);
    inherited ← lift (parent_table depth st info interface);
    let table := default (repeat no_slot (Z.to_nat (p_vtableSize ip))) inherited in
    table ← interface_slots st info table (p_vtable ip);
    modify (update_private info (add_table interface table));;
    interfaces ← lift (interface_classes (heap st) interface);
    match fuel with
    | O => stuck
    | S fuel => fold_lay (fun _ i => ComputeInterfaceTable fuel info i) tt interfaces
    end.

(** The tables of the interfaces that are laid out, for a class that is no
    interface itself. *)
Definition interface_tables (info : Z) : lay unit :=
  st ← get;
  if ILClass_IsInterface (heap st) info then mret tt
  else
    interfaces ← lift (interface_classes (heap st) info);
    fold_lay (fun _ i =>
      st ← get;
      match userData st !! i with
      | Some _ => ComputeInterfaceTable depth info i
      | None => mret tt
      end) tt interfaces.

(** *** Classes *)

Definition info_of (p : ClassPrivate) : LayoutInfo :=
  mk_layout (p_size p) (p_alignment p) (p_nativeSize p) (p_nativeAlignment p) (p_vtableSize p) (p_vtable p)
    (p_staticSize p) (p_hasFinalizer p) (p_managedInstance p) (p_managedStatic p).

Definition new_private : ClassPrivate := mk_private 0 0 0 0 0 [] 0 false false false true [].
Definition top_layout : LayoutInfo := mk_layout 0 1 0 1 0 [] 0 false false false.

(** [ILClassNeedsExpansion], [ILClassExpand]. *)
Definition ILClassNeedsExpansion (h : Heap) (info : Z) : bool :=
  let type := c_synthetic (class_at h info) in
  complex_type type && with_kind (t_kind h type) && negb (ILClassIsExpanded h info).
Definition ILClassExpand (h : Heap) (classInfo : Z) : option (option Z) :=
  type ← ILClassToType h depth classInfo; Some (instance_class h type).

(** The class to lay out for a parent or an interface; [record] stores an
    instance of a generic class where the class was. *)
Definition expanded (record : Z -> Engine -> Engine) (c : Z) : lay Z :=
  st ← get;
  if ILClassNeedsExpansion (heap st) c then
    o ← lift (ILClassExpand (heap st) c);
    match o with
    | None => fail
    | Some instance => modify (record instance);; mret instance
    end
  else mret c.

Definition set_interface (info : Z) (k : nat) (interface : Z) (st : Engine) : Engine :=
  let h := heap st in
  let replace c := mk_class_object (c_linked c) (c_attributes c) (c_name c) (c_namespace c) (c_scope c) (c_image c)
    (c_parent c) (c_parent_spec c) (<[k := interface]> (c_implements c)) (c_synthetic c) (c_enum_field c) in
  set_heap (mk_heap (type_at h) (fun c => if c =? info then replace (class_at h c) else class_at h c)
    (numRedoItems h) (systemImage h) (system_class h) (synthetic_class h) (instance_class h)) st.

Section Class.
Variables (LayoutType LayoutClass : Z -> lay LayoutInfo).

(** The layout of the parent, which the class starts from. *)
Definition layout_parent (info : Z) : lay (option Z * LayoutInfo) :=
  st ← get;
  parent ← lift (GetParentClass (heap st) depth info);
  match parent with
  | Some parent =>
    parent ← expanded (set_parent info) parent;
    l ← LayoutClass parent;
    mret (Some parent, with_statics l 0 (l_managedStatic l))
  | None => mret (None, top_layout)
  end.

Definition layout_interfaces (info : Z) : lay unit :=
  st ← get;
  interfaces ← lift (interface_classes (heap st) info);
  fold_lay (fun _ ki => i ← expanded (set_interface info (fst ki)) (snd ki); LayoutClass i;; mret tt) tt
    (imap pair interfaces).

(** The body of [LayoutClass], for a class that has a new record. *)
Definition layout_body (info : Z) : lay LayoutInfo :=
  '(parent, l) ← layout_parent info;
  layout_interfaces info;;
  '(packingSize, explicitSize, allowFieldLayout) ← explicit_layout info;
  s ← fold_lay (instance_field LayoutType packingSize allowFieldLayout) (mk_field_state l 1 1) (fields (members info));
  let l := final_layout explicitSize s in
  modify (update_private info (record_instance l));;
  l ← layout_vtable info parent l;
  st ← get;
  l ← fold_lay (static_field LayoutType (ILImageIsSecure (c_image (class_at (heap st) info)))) l (fields (members info));
  modify (update_private info (record_statics l));;
  interface_tables info;;
  modify (add_class info);;
  mret l.

End Class.

(** [info->userData = 0; return 0;] at every failure of the body. *)
Definition undo (info : Z) (m : lay LayoutInfo) : lay LayoutInfo := fun st =>
  match m st with
  | Some (Failed st') => Some (Failed (set_userData (delete info (userData st')) st'))
  | r => r
  end.

Fixpoint LayoutType (fuel : nat) (type : Z) : lay LayoutInfo :=
  st ← get;
  type ← lift (ILTypeStripPrefixes (heap st) depth type);
  if ILType_IsPrimitive type then
    let elem := ILType_ToElement type in
    match primitive_size elem with
    | Some sa => mret (simple_layout sa (elem =? IL_META_ELEMTYPE_TYPEDBYREF))
    | None => fail
    end
  else if ILType_IsValueType type then
    match fuel with
    | O => stuck
    | S fuel =>
      classInfo ← lift (ILClassResolve (heap st) depth (ILType_ToValueType type));
      let synType := c_synthetic (class_at (heap st) classInfo) in
      if synType =? 0 then LayoutClass fuel classInfo
      else
        synType ← lift (ILTypeStripPrefixes (heap st) depth synType);
        LayoutType fuel synType
    end
  else mret (simple_layout ffi_type_pointer (ILTypeIsReference (heap st) type))
with LayoutClass (fuel : nat) (info : Z) : lay LayoutInfo :=
  st ← get;
  match userData st !! info with
  | Some p => if p_inLayout p then fail else mret (info_of p)
  | None =>
    match fuel with
    | O => stuck
    | S fuel =>
      modify (set_userData (<[info := new_private]> (userData st)));;
      undo info (layout_body (LayoutType fuel) (LayoutClass fuel) info)
    end
  end.

Definition _ILLayoutClass (fuel : nat) (info : Z) : lay LayoutInfo := LayoutClass fuel info.

(** Size and alignment, zeros when the layout fails. *)
Definition _ILLayoutClassReturn (fuel : nat) (info : Z) : lay (Z * Z) := fun st =>
  match LayoutClass fuel info st with
  | Some (Done l st') => Some (Done (l_size l, l_alignment l) st')
  | Some (Failed st') => Some (Done (0, 0) st')
  | Some Crashed => Some Crashed
  | None => None
  end.

Definition _ILLayoutAlreadyDone (st : Engine) (info : Z) : bool :=
  match userData st !! info with Some p => negb (p_inLayout p) | None => false end.

Definition _ILSizeOfTypeLocked (fuel : nat) (type : Z) : lay Z := fun st =>
  match LayoutType fuel type st with
  | Some (Done l st') => Some (Done (l_size l) st')
  | Some (Failed st') => Some (Done 0 st')
  | Some Crashed => Some Crashed
  | None => None
  end.

(** *** The coder's sizes (cvmc.c) *)

Definition words (size : Z) : Z :=
  u32 ((if IL_NATIVE_INT64 then u64 else u32) (size + sizeof_CVMWord - 1) / sizeof_CVMWord).

Definition GetTypeSize (fuel : nat) (type : Z) : lay Z :=
  size ← _ILSizeOfTypeLocked fuel type; mret (words size).

Definition GetStackTypeSize (fuel : nat) (type : Z) : lay Z :=
  if (type =? ILType_Float32) || (type =? ILType_Float64) then mret CVM_WORDS_PER_NATIVE_FLOAT
  else size ← _ILSizeOfTypeLocked fuel type; mret (words size).

End Layout.
