(* ===== verification/LayoutSpec.v ===== *)
(** * The reference layout

    The layout of a type or a class as a function of the metadata alone: no
    records, no order of layouts, no interfaces and no statics.  A class starts
    from the size of its parent and places one instance field after the other.
    Where no size wraps around, the fields of a class are aligned, disjoint, and
    between the end of the parent and the end of the class. *)
From Stdlib Require Import ZArith Lia String.
From stdpp Require Import base list option numbers gmap strings.
From S2P Require Import Prelude Opcodes Cvm JumpMask Scan Coder Types Metadata MetadataProps Layout.

Local Open Scope Z_scope.

(** ** What the platform's sizes are like *)

Definition good_alignment (a : Z) : Prop := a ∈ [1; 2; 4; 8; 16; 32].
Definition good_size (sa : Z * Z) : Prop := 0 < fst sa < 2 ^ 16 /\ good_alignment (snd sa) /\ (snd sa | fst sa).

Record sizes_ok {PF : Platform} {LS : LayoutSizes} : Prop := {
  so_uint64 : good_size ffi_type_uint64;
  so_float : good_size ffi_type_float;
  so_double : good_size ffi_type_double;
  so_native_float : good_size native_float;
  so_pointer : good_size ffi_type_pointer;
  so_typed_ref : good_size (sizeof_ILTypedRef, snd ffi_type_pointer);
}.

(** The part of a layout that instance fields make. *)
Definition instance_part (l : LayoutInfo) : LayoutInfo :=
  mk_layout (l_size l) (l_alignment l) (l_nativeSize l) (l_nativeAlignment l) 0 [] 0 false (l_managedInstance l) false.

(** The fields of a class with their offsets, and native offsets. *)
Definition offsets : Type := list (Z * (Z * Z)).

Section Ref.
Context {PF : Platform} {LS : LayoutSizes}.
Variables (h : Heap) (depth : nat) (members : Z -> Members) (ILImageIsSecure : Z -> bool).

(** The loop over the fields, over the layouts of types. *)
Definition ref_field (layout : Z -> option LayoutInfo) (packingSize : Z) (allow : bool) (so : FieldState * offsets)
    (field : ILField) : option (FieldState * offsets) :=
  if is_static field then Some so
  else
    t ← layout (f_signature field);
    let '(s, o) := place_field packingSize allow (fst so) field t in
    Some (s, snd so ++ [(f_id field, o)]).

Fixpoint ref_fields (layout : Z -> option LayoutInfo) (packingSize : Z) (allow : bool) (so : FieldState * offsets)
    (fields : list ILField) : option (FieldState * offsets) :=
  match fields with
  | [] => Some so
  | field :: fields => so ← ref_field layout packingSize allow so field; ref_fields layout packingSize allow so fields
  end.

Fixpoint ref_type (fuel : nat) (type : Z) : option LayoutInfo :=
  type ← ILTypeStripPrefixes h depth type;
  if ILType_IsPrimitive type then
    let elem := ILType_ToElement type in
    sa ← primitive_size elem; Some (simple_layout sa (elem =? IL_META_ELEMTYPE_TYPEDBYREF))
  else if ILType_IsValueType type then
    match fuel with
    | O => None
    | S fuel =>
      classInfo ← ILClassResolve h depth (ILType_ToValueType type);
      let synType := c_synthetic (class_at h classInfo) in
      if synType =? 0 then fst <$> ref_class fuel classInfo
      else synType ← ILTypeStripPrefixes h depth synType; ref_type fuel synType
    end
  else Some (simple_layout ffi_type_pointer (ILTypeIsReference h type))
with ref_class (fuel : nat) (info : Z) : option (LayoutInfo * offsets) :=
  match fuel with
  | O => None
  | S fuel =>
    parent ← GetParentClass h depth info;
    base ← match parent with Some parent => fst <$> ref_class fuel parent | None => Some top_layout end;
    '(packingSize, explicitSize, allow) ← explicit_of members ILImageIsSecure h info;
    '(s, o) ← ref_fields (ref_type fuel) packingSize allow (mk_field_state base 1 1, []) (fields (members info));
    Some (instance_part (final_layout explicitSize s), o)
  end.

(** ** More fuel gives the same layout *)

Lemma ref_fields_mono (f g : Z -> option LayoutInfo) p a so fs r :
  (forall t l, f t = Some l -> g t = Some l) -> ref_fields f p a so fs = Some r -> ref_fields g p a so fs = Some r.
Proof.
  intros Hfg. revert so. induction fs as [|field fs IH]; intros so; simpl; [done|].
  unfold ref_field. destruct (is_static field); cbn [mbind option_bind]; [apply IH|].
  destruct (f (f_signature field)) as [l|] eqn:E; [|done]. rewrite (Hfg _ _ E). cbn [mbind option_bind].
  destruct (place_field _ _ _ _ _). cbn [mbind option_bind]. apply IH.
Qed.

Lemma ref_type_S n type :
  ref_type (S n) type =
    type ← ILTypeStripPrefixes h depth type;
    if ILType_IsPrimitive type then
      sa ← primitive_size (ILType_ToElement type);
      Some (simple_layout sa (ILType_ToElement type =? IL_META_ELEMTYPE_TYPEDBYREF))
    else if ILType_IsValueType type then
      classInfo ← ILClassResolve h depth (ILType_ToValueType type);
      let synType := c_synthetic (class_at h classInfo) in
      if synType =? 0 then fst <$> ref_class n classInfo
      else synType ← ILTypeStripPrefixes h depth synType; ref_type n synType
    else Some (simple_layout ffi_type_pointer (ILTypeIsReference h type)).
Proof. reflexivity. Qed.

Lemma ref_class_S n info :
  ref_class (S n) info =
    parent ← GetParentClass h depth info;
    base ← match parent with Some parent => fst <$> ref_class n parent | None => Some top_layout end;
    '(packingSize, explicitSize, allow) ← explicit_of members ILImageIsSecure h info;
    '(s, o) ← ref_fields (ref_type n) packingSize allow (mk_field_state base 1 1, []) (fields (members info));
    Some (instance_part (final_layout explicitSize s), o).
Proof. reflexivity. Qed.

Lemma ref_mono_S n :
  (forall t l, ref_type n t = Some l -> ref_type (S n) t = Some l) /\
  (forall c r, ref_class n c = Some r -> ref_class (S n) c = Some r).
Proof.
  induction n as [|n [IHt IHc]]; split.
  - intros t l. rewrite ref_type_S. simpl. destruct (ILTypeStripPrefixes h depth t) as [s|]; [|done]. cbn [mbind option_bind].
    by destruct (ILType_IsPrimitive s), (ILType_IsValueType s).
  - done.
  - intros t l. rewrite (ref_type_S (S n)), (ref_type_S n).
    destruct (ILTypeStripPrefixes h depth t) as [s|]; [|done]. cbn [mbind option_bind].
    destruct (ILType_IsPrimitive s), (ILType_IsValueType s); try done.
    destruct (ILClassResolve _ _ _) as [c|]; [|done]. cbn [mbind option_bind]. cbv zeta.
    destruct (_ =? 0).
    + destruct (ref_class n c) as [r|] eqn:E; [|done]. by rewrite (IHc _ _ E).
    + destruct (ILTypeStripPrefixes _ _ _); [|done]. apply IHt.
  - intros c r. rewrite (ref_class_S (S n)), (ref_class_S n).
    destruct (GetParentClass h depth c) as [parent|]; [|done]. cbn [mbind option_bind].
    assert (forall base, match parent with Some parent => fst <$> ref_class n parent | None => Some top_layout end = Some base ->
      match parent with Some parent => fst <$> ref_class (S n) parent | None => Some top_layout end = Some base) as Hbase.
    { intros base. destruct parent as [p|]; [|done]. destruct (ref_class n p) as [rp|] eqn:E; [|done]. by rewrite (IHc _ _ E). }
    destruct (match parent with Some _ => _ | None => _ end) as [base|]; [|done]. rewrite (Hbase _ eq_refl).
    cbn [mbind option_bind]. destruct (explicit_of _ _ _ _) as [[[p e] a]|]; [|done]. cbn [mbind option_bind].
    destruct (ref_fields (ref_type n) _ _ _ _) as [[s o]|] eqn:E; [|done].
    by rewrite (ref_fields_mono _ _ _ _ _ _ _ IHt E).
Qed.

Lemma ref_type_mono n n' t l : (n <= n')%nat -> ref_type n t = Some l -> ref_type n' t = Some l.
Proof. induction 1 as [|n' _ IH]; [done|]. intros H. by apply ref_mono_S, IH. Qed.

Lemma ref_class_mono n n' c r : (n <= n')%nat -> ref_class n c = Some r -> ref_class n' c = Some r.
Proof. induction 1 as [|n' _ IH]; [done|]. intros H. by apply ref_mono_S, IH. Qed.

(** The layout of a type, of a class. *)
Definition type_layout (t : Z) (l : LayoutInfo) : Prop := exists n, ref_type n t = Some l.
Definition class_layout_is (c : Z) (l : LayoutInfo) (o : offsets) : Prop := exists n, ref_class n c = Some (l, o).

Lemma class_layout_fun c l o l' o' : class_layout_is c l o -> class_layout_is c l' o' -> l = l' /\ o = o'.
Proof.
  intros [n Hn] [n' Hn']. apply (ref_class_mono _ (n `max` n')) in Hn; [|lia].
  apply (ref_class_mono _ (n `max` n')) in Hn'; [|lia]. rewrite Hn in Hn'. by injection Hn' as <- <-.
Qed.

(** ** One field after the other *)

(** Offsets for sizes and alignments, and the end. *)
Fixpoint place_all (pos : Z) (l : list (Z * Z)) : list Z * Z :=
  match l with
  | [] => ([], pos)
  | (size, alignment) :: l =>
    let o := align_up pos alignment in
    let '(os, last) := place_all (u32 (o + size)) l in (o :: os, last)
  end.

(** The room that is enough: each field may need its alignment as padding. *)
Definition room (l : list (Z * Z)) : Z := foldr (fun sa n => fst sa + snd sa + n) 0 l.

Lemma align_up_bounds pos a : 0 <= pos -> 0 < a -> pos + a <= 2 ^ 32 ->
  pos <= align_up pos a <= pos + a /\ (a | align_up pos a).
Proof.
  intros Hp Ha Hb. unfold align_up. pose proof (Z.mod_pos_bound pos a Ha).
  destruct (Z.eqb_spec (pos mod a) 0) as [E|E]; [split; [lia|by apply Z.mod_divide; lia]|].
  unfold u32. rewrite Z.mod_small by lia. split; [lia|].
  exists (pos / a + 1). pose proof (Z.div_mod pos a). nia.
Qed.

Lemma room_nonneg l : Forall (fun sa => 0 <= fst sa /\ 0 < snd sa) l -> 0 <= room l.
Proof. induction 1; simpl; lia. Qed.

Lemma place_all_ok pos l :
  0 <= pos -> Forall (fun sa => 0 <= fst sa /\ 0 < snd sa) l -> pos + room l < 2 ^ 32 ->
  let '(os, last) := place_all pos l in
  pos <= last <= pos + room l /\ length os = length l /\
  (forall k o s a, os !! k = Some o -> l !! k = Some (s, a) -> pos <= o /\ (a | o) /\ o + s <= last) /\
  (forall j k o s a o', (j < k)%nat -> os !! j = Some o -> l !! j = Some (s, a) -> os !! k = Some o' -> o + s <= o').
Proof.
  revert pos. induction l as [|[s a] l IH]; intros pos Hp Hl Hb; cbn [place_all].
  { split; [simpl; lia|]. split; [done|]. split; intros *; by rewrite lookup_nil. }
  apply Forall_cons in Hl as [[Hs Ha] Hl]. simpl in Hs, Ha, Hb. pose proof (room_nonneg l Hl).
  destruct (align_up_bounds pos a Hp Ha ltac:(lia)) as [Ho Hd]. set (o := align_up pos a) in *.
  assert (u32 (o + s) = o + s) as E by (unfold u32; apply Z.mod_small; lia). rewrite E.
  specialize (IH (o + s) ltac:(lia) Hl ltac:(lia)). destruct (place_all (o + s) l) as [os last].
  destruct IH as (Hlast & Hlen & Hin & Hord). simpl room. split; [lia|]. split; [simpl; lia|]. split.
  - intros [|k] o' s' a' Hk Hk'; [injection Hk as <-; injection Hk' as <- <-; split; [lia|]; split; [done|lia]|].
    destruct (Hin k o' s' a' Hk Hk') as (? & ? & ?). split; [lia|done].
  - intros [|j] [|k] o1 s1 a1 o2 Hlt Hj Hj' Hk; try lia.
    + injection Hj as <-. injection Hj' as <- <-. simpl in Hk. destruct (l !! k) as [[s2 a2]|] eqn:Ek.
      * destruct (Hin k o2 s2 a2 Hk Ek). lia.
      * apply lookup_ge_None in Ek. apply lookup_lt_Some in Hk. lia.
    + eapply (Hord j k); [lia|done..].
Qed.

(** The loop over the fields of a class without explicit layout. *)
Definition instance_fields (fs : list ILField) : list ILField := filter (fun f => is_static f = false) fs.
Definition size_align (t : LayoutInfo) : Z * Z := (l_size t, l_alignment t).
Definition native_size_align (t : LayoutInfo) : Z * Z := (l_nativeSize t, l_nativeAlignment t).

Lemma instance_fields_cons f fs :
  instance_fields (f :: fs) = if is_static f then instance_fields fs else f :: instance_fields fs.
Proof. unfold instance_fields. rewrite filter_cons. by destruct (is_static f). Qed.

Lemma place_field_next s f t s' o :
  place_field 0 false s f t = (s', o) ->
  o = (align_up (l_size (fs_layout s)) (l_alignment t), align_up (l_nativeSize (fs_layout s)) (l_nativeAlignment t)) /\
  l_size (fs_layout s') = u32 (fst o + l_size t) /\ l_nativeSize (fs_layout s') = u32 (snd o + l_nativeSize t) /\
  maxAlignment s' = Z.max (maxAlignment s) (l_alignment t) /\
  maxNativeAlignment s' = Z.max (maxNativeAlignment s) (l_nativeAlignment t) /\
  l_alignment (fs_layout s') = l_alignment (fs_layout s) /\
  l_nativeAlignment (fs_layout s') = l_nativeAlignment (fs_layout s).
Proof.
  unfold place_field, packed. intros [= <- <-]. cbn. by destruct (l_managedInstance t).
Qed.

Lemma ref_fields_place layout s0 o0 fs s o :
  ref_fields layout 0 false (s0, o0) fs = Some (s, o) ->
  exists ts, Forall2 (fun f t => layout (f_signature f) = Some t) (instance_fields fs) ts /\
    let '(os, last) := place_all (l_size (fs_layout s0)) (map size_align ts) in
    let '(ns, nlast) := place_all (l_nativeSize (fs_layout s0)) (map native_size_align ts) in
    o = o0 ++ zip (map f_id (instance_fields fs)) (zip os ns) /\
    l_size (fs_layout s) = last /\ l_nativeSize (fs_layout s) = nlast /\
    maxAlignment s = foldl Z.max (maxAlignment s0) (map l_alignment ts) /\
    maxNativeAlignment s = foldl Z.max (maxNativeAlignment s0) (map l_nativeAlignment ts) /\
    l_alignment (fs_layout s) = l_alignment (fs_layout s0) /\
    l_nativeAlignment (fs_layout s) = l_nativeAlignment (fs_layout s0).
Proof.
  revert s0 o0. induction fs as [|f fs IH]; intros s0 o0; simpl.
  { intros [= <- <-]. exists []. simpl. split; [constructor|]. by rewrite app_nil_r. }
  unfold ref_field. rewrite instance_fields_cons. destruct (is_static f); cbn [mbind option_bind]; [apply IH|].
  destruct (layout (f_signature f)) as [t|] eqn:Et; [|done]. cbn [mbind option_bind fst snd].
  destruct (place_field _ _ _ _ _) as [s1 o1] eqn:Ep.
  apply place_field_next in Ep as (-> & Hs & Hn & Hm & Hmn & Ha & Han). simpl fst in *. simpl snd in *.
  cbn [mbind option_bind]. intros (ts & Hts & Hp)%IH. exists (t :: ts). split; [by constructor|].
  cbn [map place_all size_align native_size_align]. rewrite Hs, Hn, Hm, Hmn, Ha, Han in Hp.
  unfold size_align at 1, native_size_align at 1. cbv beta iota.
  destruct (place_all (u32 (_ + l_size t)) _) as [os last]. destruct (place_all (u32 (_ + l_nativeSize t)) _) as [ns nlast].
  cbn. destruct Hp as (-> & H). split; [by rewrite <-app_assoc|exact H].
Qed.

(** ** Alignments and sizes of what is laid out *)

Hypothesis Hsizes : sizes_ok.

Record sized (l : LayoutInfo) : Prop := {
  sz_size : 0 <= l_size l;
  sz_native : 0 <= l_nativeSize l;
  sz_align : good_alignment (l_alignment l);
  sz_native_align : good_alignment (l_nativeAlignment l);
}.

Lemma good_alignment_cases a : good_alignment a -> a = 1 \/ a = 2 \/ a = 4 \/ a = 8 \/ a = 16 \/ a = 32.
Proof. unfold good_alignment. rewrite !elem_of_cons, elem_of_nil. tauto. Qed.

Lemma good_alignment_max a b : good_alignment a -> good_alignment b -> good_alignment (Z.max a b).
Proof. intros Ha Hb. destruct (Z.max_spec a b) as [[_ ->]|[_ ->]]; done. Qed.

(** One alignment divides the greater one. *)
Lemma good_alignment_divides a b : good_alignment a -> good_alignment b -> a <= b -> (a | b).
Proof.
  intros [-> | [-> | [-> | [-> | [-> | -> ]]]]]%good_alignment_cases [-> | [-> | [-> | [-> | [-> | -> ]]]]]%good_alignment_cases Hle;
    first [lia|by apply Z.mod_divide].
Qed.

Lemma good_alignment_packed p a : memb p [0; 1; 2; 4; 8] = true -> good_alignment a -> good_alignment (packed p a).
Proof.
  intros Hp Ha. unfold packed. destruct (negb _ && _) eqn:E; [|done]. apply andb_true_iff in E as [E%negb_true_iff%Z.eqb_neq _].
  unfold memb in Hp. cbn in Hp. rewrite !orb_true_iff, !Z.eqb_eq in Hp.
  destruct Hp as [?|[->|[->|[->|[->|?]]]]]; [done|..|done]; unfold good_alignment; by repeat constructor.
Qed.

Lemma sized_simple sa b : good_size sa -> sized (simple_layout sa b).
Proof. intros (? & ? & _). split; simpl; [lia..|done|done]. Qed.

Lemma sized_primitive elem sa b : primitive_size elem = Some sa -> sized (simple_layout sa b).
Proof.
  unfold primitive_size. pose proof Hsizes as [].
  repeat match goal with |- context [if ?c then _ else _] => destruct c end; intros [= <-]; apply sized_simple; try done.
  all: split; [by vm_compute|]; split; [unfold good_alignment; by repeat constructor|by exists 1].
Qed.

Lemma u32_nonneg z : 0 <= u32 z.
Proof. unfold u32. apply Z.mod_pos_bound. lia. Qed.

Lemma align_up_nonneg pos a : 0 <= pos -> 0 <= align_up pos a.
Proof. unfold align_up. case_match; [done|]. intros _. apply u32_nonneg. Qed.

Record field_state_ok (s : FieldState) : Prop := {
  fo_layout : sized (fs_layout s);
  fo_max : good_alignment (maxAlignment s);
  fo_native_max : good_alignment (maxNativeAlignment s);
}.

Lemma place_field_sized p a s f t s' o :
  memb p [0; 1; 2; 4; 8] = true -> field_state_ok s -> sized t -> place_field p a s f t = (s', o) -> field_state_ok s'.
Proof.
  intros Hp [[Hs Hn Ha Hna] Hm Hnm] [Hts Htn Hta Htna]. unfold place_field.
  set (t' := with_alignments _ _ _).
  assert (good_alignment (l_alignment t') /\ good_alignment (l_nativeAlignment t')) as [H1 H2] by (split; by apply good_alignment_packed).
  destruct (if a then f_layout f else None) as [off|]; intros [= <- <-].
  all: split; simpl; [|by apply good_alignment_max..].
  - destruct (l_managedInstance t); split; simpl; try done; case_match; try done; apply u32_nonneg.
  - destruct (l_managedInstance t); split; simpl; try done; apply u32_nonneg.
Qed.

Lemma explicit_memb c p e a : explicit_of members ILImageIsSecure h c = Some (p, e, a) -> memb p [0; 1; 2; 4; 8] = true.
Proof.
  unfold explicit_of. repeat (case_match; try done); intros [= <- <- <-]; done.
Qed.

Lemma ref_fields_sized layout p a s o fs s' o' :
  memb p [0; 1; 2; 4; 8] = true -> field_state_ok s -> (forall t l, layout t = Some l -> sized l) ->
  ref_fields layout p a (s, o) fs = Some (s', o') -> field_state_ok s'.
Proof.
  intros Hp Hs Hl. revert s o Hs. induction fs as [|f fs IH]; intros s o Hs; simpl; [by intros [= <- <-]|].
  unfold ref_field. destruct (is_static f); cbn [mbind option_bind]; [by apply IH|].
  destruct (layout (f_signature f)) as [t|] eqn:Et; [|done]. cbn [mbind option_bind fst snd].
  destruct (place_field _ _ _ _ _) as [s1 o1] eqn:Ep. cbn [mbind option_bind]. apply IH.
  eapply place_field_sized; [done..|by eapply Hl|done].
Qed.

Lemma final_sized e s : field_state_ok s -> sized (final_layout e s).
Proof.
  intros [[Hs Hn Ha Hna] Hm Hnm]. split; simpl; try by apply good_alignment_max.
  all: unfold final_size; case_match; [lia|by apply align_up_nonneg].
Qed.

Lemma sized_part l : sized (instance_part l) <-> sized l.
Proof. split; intros []; by split. Qed.

Lemma ref_sized n :
  (forall t l, ref_type n t = Some l -> sized l) /\ (forall c l o, ref_class n c = Some (l, o) -> sized l).
Proof.
  induction n as [|n [IHt IHc]]; split.
  - intros t l. simpl. destruct (ILTypeStripPrefixes h depth t) as [s|]; [|done]. cbn [mbind option_bind].
    destruct (ILType_IsPrimitive s).
    { destruct (primitive_size _) as [sa|] eqn:E; [|done]. intros [= <-]. by eapply sized_primitive. }
    destruct (ILType_IsValueType s); [done|]. intros [= <-]. apply sized_simple, Hsizes.
  - done.
  - intros t l. rewrite ref_type_S. destruct (ILTypeStripPrefixes h depth t) as [s|]; [|done]. cbn [mbind option_bind].
    destruct (ILType_IsPrimitive s).
    { destruct (primitive_size _) as [sa|] eqn:E; [|done]. intros [= <-]. by eapply sized_primitive. }
    destruct (ILType_IsValueType s); [|intros [= <-]; apply sized_simple, Hsizes].
    destruct (ILClassResolve _ _ _) as [c|]; [|done]. cbn [mbind option_bind]. cbv zeta. destruct (_ =? 0).
    + destruct (ref_class n c) as [[l' o]|] eqn:E; [|done]. intros [= <-]. by eapply IHc.
    + destruct (ILTypeStripPrefixes _ _ _); [|done]. apply IHt.
  - intros c l o. rewrite ref_class_S. destruct (GetParentClass h depth c) as [parent|]; [|done]. cbn [mbind option_bind].
    destruct (match parent with Some _ => _ | None => _ end) as [base|] eqn:Eb; [|done]. cbn [mbind option_bind].
    destruct (explicit_of _ _ _ _) as [[[p e] a]|] eqn:Ee; [|done]. cbn [mbind option_bind].
    destruct (ref_fields _ _ _ _ _) as [[s o']|] eqn:Ef; [|done]. intros [= <- <-].
    apply sized_part, final_sized. eapply ref_fields_sized; [by eapply explicit_memb| |exact IHt|exact Ef].
    split; simpl; [|by repeat constructor..]. destruct parent as [q|].
    + destruct (ref_class n q) as [[l' o'']|] eqn:Eq; [|done]. injection Eb as <-. by eapply IHc.
    + injection Eb as <-. by split; simpl; repeat constructor.
Qed.

Lemma type_layout_sized t l : type_layout t l -> sized l.
Proof. intros [n H]. destruct (ref_sized n) as [Ht _]. by eapply Ht. Qed.

Lemma class_layout_sized c l o : class_layout_is c l o -> sized l.
Proof. intros [n H]. destruct (ref_sized n) as [_ Hc]. by eapply Hc. Qed.

(** ** Fields of a class *)

(** What a class starts from. *)
Definition class_base (c : Z) (b : LayoutInfo) : Prop :=
  GetParentClass h depth c = Some None /\ b = top_layout \/
  exists p o, GetParentClass h depth c = Some (Some p) /\ class_layout_is p b o.

Lemma class_layout_inv c l o e :
  class_layout_is c l o -> explicit_of members ILImageIsSecure h c = Some e ->
  exists b n s, class_base c b /\
    ref_fields (ref_type n) e.1.1 e.2 (mk_field_state b 1 1, []) (fields (members c)) = Some (s, o) /\
    l = instance_part (final_layout e.1.2 s).
Proof.
  intros [[|n] Hn] He; [done|]. rewrite ref_class_S in Hn. destruct (GetParentClass h depth c) as [parent|] eqn:Ep; [|done].
  cbn [mbind option_bind] in Hn.
  destruct (match parent with Some _ => _ | None => _ end) as [b|] eqn:Eb; [|done]. cbn [mbind option_bind] in Hn.
  rewrite He in Hn. destruct e as [[pk es] a]. cbn [mbind option_bind] in Hn.
  destruct (ref_fields _ _ _ _ _) as [[s o']|] eqn:Ef; [|done]. injection Hn as <- <-.
  exists b, n, s. split; [|done]. destruct parent as [p|].
  - right. destruct (ref_class n p) as [[l' o'']|] eqn:Eq; [|done]. injection Eb as <-. exists p, o''. split; [done|by exists n].
  - left. by injection Eb as <-.
Qed.

Lemma class_base_fun c b b' : class_base c b -> class_base c b' -> b = b'.
Proof.
  intros [[E ->]|(p & o & E & H)] [[E' ->]|(p' & o' & E' & H')]; [done|congruence..|].
  rewrite E in E'. injection E' as <-. by eapply class_layout_fun.
Qed.

Lemma class_base_sized c b : class_base c b -> sized b.
Proof.
  intros [[_ ->]|(p & o & _ & H)]; [|by eapply class_layout_sized]. by split; simpl; repeat constructor.
Qed.

(** Fields of sizes and alignments [sa] at offsets [os]: aligned, one after the
    other, between [base] and [size]. *)
Definition well_placed (base size alignment : Z) (sa : list (Z * Z)) (os : list Z) : Prop :=
  (alignment | size) /\ base <= size /\ length os = length sa /\
  (forall k o s a, os !! k = Some o -> sa !! k = Some (s, a) -> base <= o /\ (a | o) /\ (a | alignment) /\ o + s <= size) /\
  (forall j k o s a o', (j < k)%nat -> os !! j = Some o -> sa !! j = Some (s, a) -> os !! k = Some o' -> o + s <= o').

Lemma foldl_max_le a l : a <= foldl Z.max a l /\ Forall (fun x => x <= foldl Z.max a l) l.
Proof.
  revert a. induction l as [|x l IH]; intros a; simpl; [split; [lia|constructor]|].
  destruct (IH (Z.max a x)) as [H1 H2]. split; [lia|]. constructor; [lia|done].
Qed.

Lemma foldl_max_good a l : good_alignment a -> Forall good_alignment l -> good_alignment (foldl Z.max a l).
Proof.
  revert a. induction l as [|x l IH]; intros a Ha Hl; simpl; [done|]. apply Forall_cons in Hl as [Hx Hl].
  apply IH; [by apply good_alignment_max|done].
Qed.

Lemma place_well base balign (sa : list (Z * Z)) :
  0 <= base -> good_alignment balign -> Forall (fun x => 0 <= fst x /\ good_alignment (snd x)) sa ->
  let alignment := Z.max balign (foldl Z.max 1 (map snd sa)) in
  base + room sa + alignment < 2 ^ 32 ->
  well_placed base (final_size 0 (snd (place_all base sa)) alignment) alignment sa (fst (place_all base sa)).
Proof.
  intros Hb Hba Hsa alignment Hroom.
  assert (Forall (fun x => 0 <= fst x /\ 0 < snd x) sa) as Hpos.
  { eapply Forall_impl; [exact Hsa|]. intros [s a] [? Ha%good_alignment_cases]. simpl in *. lia. }
  assert (Forall good_alignment (map snd sa)) as Hal.
  { change (map snd sa) with (snd <$> sa). apply Forall_fmap. eapply Forall_impl; [exact Hsa|]. by intros x [_ ?]. }
  assert (good_alignment 1) as H1 by (unfold good_alignment; by repeat constructor).
  pose proof (foldl_max_good 1 (map snd sa) H1 Hal) as Hm.
  assert (good_alignment alignment) as Hga by (by apply good_alignment_max).
  pose proof (room_nonneg _ Hpos). pose proof (good_alignment_cases _ Hga).
  pose proof (place_all_ok base sa Hb Hpos ltac:(lia)) as Hp. destruct (place_all base sa) as [os last].
  destruct Hp as (Hlast & Hlen & Hin & Hord). simpl. unfold final_size.
  destruct (Z.ltb_spec last 0); [lia|]. destruct (align_up_bounds last alignment) as [Hu Hd]; [lia..|].
  split; [done|]. split; [lia|]. split; [done|]. split; [|exact Hord].
  intros k o s a Hk Hk'. destruct (Hin k o s a Hk Hk') as (? & ? & ?). split; [lia|]. split; [done|]. split; [|lia].
  pose proof (proj1 (Forall_lookup _ _) Hsa k (s, a) Hk') as [_ Ha]. simpl in Ha.
  apply good_alignment_divides; [done..|]. pose proof (foldl_max_le 1 (map snd sa)) as [_ Hle].
  rewrite Forall_lookup in Hle. specialize (Hle k a). rewrite list_lookup_fmap, Hk' in Hle. specialize (Hle eq_refl). lia.
Qed.

Lemma zip_parts {A B C} (l : list A) (os : list B) (ns : list C) :
  length os = length l -> length ns = length l ->
  map fst (zip l (zip os ns)) = l /\ map fst (map snd (zip l (zip os ns))) = os /\ map snd (map snd (zip l (zip os ns))) = ns.
Proof.
  revert os ns. induction l as [|x l IH]; intros [|o os] [|n ns]; try done. intros [= Ho] [= Hn].
  destruct (IH os ns Ho Hn) as (E1 & E2 & E3). cbn [zip_with map fst snd]. by rewrite E1, E2, E3.
Qed.

Lemma place_all_length pos l : length (fst (place_all pos l)) = length l.
Proof.
  revert pos. induction l as [|[s a] l IH]; intros pos; [done|]. simpl. specialize (IH (u32 (align_up pos a + s))).
  destruct (place_all _ l). simpl in *. congruence.
Qed.

(** The layouts of the types of the instance fields. *)
Definition field_types (c : Z) (ts : list LayoutInfo) : Prop :=
  Forall2 (fun f t => type_layout (f_signature f) t) (instance_fields (fields (members c))) ts.

Lemma type_layout_fun t l l' : type_layout t l -> type_layout t l' -> l = l'.
Proof.
  intros [n Hn] [n' Hn']. apply (ref_type_mono _ (n `max` n')) in Hn; [|lia].
  apply (ref_type_mono _ (n `max` n')) in Hn'; [|lia]. congruence.
Qed.

Lemma field_types_fun c ts ts' : field_types c ts -> field_types c ts' -> ts = ts'.
Proof.
  unfold field_types. intros H. revert ts'. induction H as [|f t fs ts Hft _ IH]; intros ts' H'; inversion H'; subst; [done|].
  f_equal; [by eapply type_layout_fun|by apply IH].
Qed.

Lemma final_part s l :
  l = instance_part (final_layout 0 s) ->
  l_alignment l = Z.max (l_alignment (fs_layout s)) (maxAlignment s) /\
  l_nativeAlignment l = Z.max (l_nativeAlignment (fs_layout s)) (maxNativeAlignment s) /\
  l_size l = final_size 0 (l_size (fs_layout s)) (l_alignment l) /\
  l_nativeSize l = final_size 0 (l_nativeSize (fs_layout s)) (l_nativeAlignment l).
Proof. by intros ->. Qed.

Lemma sized_pairs ts :
  Forall sized ts ->
  Forall (fun x => 0 <= fst x /\ good_alignment (snd x)) (map size_align ts) /\
  Forall (fun x => 0 <= fst x /\ good_alignment (snd x)) (map native_size_align ts).
Proof.
  intros H. split; apply List.Forall_map; (eapply Forall_impl; [exact H|]); by intros t [].
Qed.

Lemma map_alignments ts : map l_alignment ts = map snd (map size_align ts) /\
  map l_nativeAlignment ts = map snd (map native_size_align ts).
Proof. by rewrite !map_map. Qed.

Lemma class_fields_placed c l o b ts :
  class_layout_is c l o -> explicit_of members ILImageIsSecure h c = Some (0, 0, false) -> class_base c b ->
  field_types c ts ->
  map fst o = map f_id (instance_fields (fields (members c))) /\
  (l_size b + room (map size_align ts) + l_alignment l < 2 ^ 32 ->
   well_placed (l_size b) (l_size l) (l_alignment l) (map size_align ts) (map fst (map snd o))) /\
  (l_nativeSize b + room (map native_size_align ts) + l_nativeAlignment l < 2 ^ 32 ->
   well_placed (l_nativeSize b) (l_nativeSize l) (l_nativeAlignment l) (map native_size_align ts) (map snd (map snd o))).
Proof.
  intros Hc He Hb Hts. destruct (class_layout_inv c l o _ Hc He) as (b' & n & s & Hb' & Hf & Hl). simpl in Hf.
  pose proof (class_base_fun c b b' Hb Hb') as <-. pose proof (class_base_sized c b Hb) as [Hs0 Hn0 Ha0 Hna0].
  apply ref_fields_place in Hf as (ts' & Hts' & Hf). assert (field_types c ts') as Hts''.
  { eapply Forall2_impl; [exact Hts'|]. intros f t Hft. by exists n. }
  pose proof (field_types_fun _ _ _ Hts Hts'') as <-. clear Hts' Hts''.
  assert (Forall sized ts) as Hsz.
  { clear -Hts Hsizes. induction Hts; constructor; [by eapply type_layout_sized|done]. }
  apply sized_pairs in Hsz as [Hsz Hnsz]. simpl in Hf. pose proof (Forall2_length _ _ _ Hts) as Hlen.
  pose proof (place_all_length (l_size b) (map size_align ts)) as Hl1.
  pose proof (place_all_length (l_nativeSize b) (map native_size_align ts)) as Hl2. rewrite length_map in Hl1, Hl2.
  pose proof (place_well (l_size b) (l_alignment b) _ Hs0 Ha0 Hsz) as Hw1.
  pose proof (place_well (l_nativeSize b) (l_nativeAlignment b) _ Hn0 Hna0 Hnsz) as Hw2. cbv zeta in Hw1, Hw2.
  destruct (place_all (l_size b) _) as [os last], (place_all (l_nativeSize b) _) as [ns nlast]. simpl in *.
  destruct Hf as (-> & Hlast & Hnlast & Hm & Hnm & Ha & Hna).
  destruct (map_alignments ts) as [E1 E2]. rewrite E1 in Hm. rewrite E2 in Hnm.
  destruct (zip_parts (map f_id (instance_fields (fields (members c)))) os ns) as (P1 & P2 & P3);
    [rewrite length_map; congruence..|].
  destruct (final_part s l Hl) as (F1 & F2 & F3 & F4). rewrite Ha, Hm in F1. rewrite Hna, Hnm in F2.
  rewrite Hlast in F3. rewrite Hnlast in F4. rewrite P1, P2, P3.
  split; [done|]. rewrite F3, F4, F1, F2. split; [exact Hw1|exact Hw2].
Qed.

End Ref.
