(* ===== verification/LayoutRun.v ===== *)
(** * Reasoning about runs of the layout functions

    A weakest precondition for the functions of Layout.v: what holds when they
    return, and when they return zero.  The frame of a run is what it leaves
    alone: the instance part of the records and the field offsets of the
    classes that have a record before. *)
From Stdlib Require Import ZArith Lia String.
From stdpp Require Import base list option numbers gmap strings.
From S2P Require Import Prelude Opcodes Cvm JumpMask Scan Coder Types Metadata MetadataProps Layout LayoutSpec.

Local Open Scope Z_scope.

(** ** Weakest preconditions

    [wp N m Q F st]: [m] from [st] returns with [Q], or returns zero with [F],
    or crashes; [N] is what it means that fuel runs out.  Partial correctness
    takes [True] for it, termination [False]. *)
Definition wp (N : Prop) {A} (m : lay A) (Q : A -> Engine -> Prop) (F : Engine -> Prop) (st : Engine) : Prop :=
  match m st with
  | Some (Done a st') => Q a st'
  | Some (Failed st') => F st'
  | Some Crashed => True
  | None => N
  end.

Abbreviation wlp := (wp True).

Section Rules.
Context {N : Prop}.

Lemma wp_ret {A} (a : A) Q F st : Q a st -> wp N (mret a) Q F st.
Proof. done. Qed.

Lemma wp_fail {A} (Q : A -> Engine -> Prop) (F : Engine -> Prop) st : F st -> wp N fail Q F st.
Proof. done. Qed.

Lemma wp_stuck {A} (Q : A -> Engine -> Prop) F st : N -> wp N stuck Q F st.
Proof. done. Qed.

Lemma wp_bind {A B} (m : lay A) (f : A -> lay B) Q F st :
  wp N m (fun a st' => wp N (f a) Q F st') F st -> wp N (m ≫= f) Q F st.
Proof. unfold wp, mbind, lay_bind. by destruct (m st) as [[a st'|st'|]|]. Qed.

Lemma wp_get (Q : Engine -> Engine -> Prop) F st : Q st st -> wp N get Q F st.
Proof. done. Qed.

Lemma wp_modify f (Q : unit -> Engine -> Prop) F st : Q tt (f st) -> wp N (modify f) Q F st.
Proof. done. Qed.

Lemma wp_lift {A} (o : option A) (Q : A -> Engine -> Prop) F st :
  (forall a, o = Some a -> Q a st) -> wp N (lift o) Q F st.
Proof. unfold wp, lift. destruct o; [|done]. intros H. by apply H. Qed.

Lemma wp_mono {A} (m : lay A) (Q Q' : A -> Engine -> Prop) (F F' : Engine -> Prop) st :
  (forall a st', Q a st' -> Q' a st') -> (forall st', F st' -> F' st') -> wp N m Q F st -> wp N m Q' F' st.
Proof. unfold wp. intros HQ HF. destruct (m st) as [[a st'|st'|]|]; auto. Qed.

Lemma wp_and {A} (m : lay A) (Q Q' : A -> Engine -> Prop) (F F' : Engine -> Prop) st :
  wp N m Q F st -> wp N m Q' F' st -> wp N m (fun a st' => Q a st' /\ Q' a st') (fun st' => F st' /\ F' st') st.
Proof. unfold wp. destruct (m st) as [[a st'|st'|]|]; auto. Qed.

(** A loop, with an invariant on the elements that are done. *)
Lemma wp_fold {A B} (f : B -> A -> lay B) (I : list A -> B -> Engine -> Prop) F l b st :
  I [] b st ->
  (forall done a rest b st, l = done ++ a :: rest -> I done b st -> wp N (f b a) (I (done ++ [a])) F st) ->
  wp N (fold_lay f b l) (I l) F st.
Proof.
  intros H0 Hstep.
  assert (forall done rest b st, l = done ++ rest -> I done b st -> wp N (fold_lay f b rest) (I l) F st) as H;
    [|by apply (H [] l)].
  intros done rest. revert done. induction rest as [|a rest IH]; intros done b' st' El HI; simpl.
  - rewrite app_nil_r in El. by rewrite El.
  - apply wp_bind. eapply wp_mono; [|done|by eapply Hstep].
    intros b'' st'' HI'. eapply IH; [|exact HI']. by rewrite <-app_assoc.
Qed.

Lemma wp_undo info m Q (F : Engine -> Prop) st :
  wp N m Q (fun st' => F (set_userData (delete info (userData st')) st')) st -> wp N (undo info m) Q F st.
Proof. unfold wp, undo. by destruct (m st) as [[a st'|st'|]|]. Qed.

End Rules.

(** The steps of a body. *)
Ltac lay_step :=
  lazymatch goal with
  | |- wp _ (mbind _ _) _ _ _ => apply wp_bind
  | |- wp _ (mret _) _ _ _ => apply wp_ret
  | |- wp _ fail _ _ _ => apply wp_fail
  | |- wp _ stuck _ _ _ => apply wp_stuck; try exact I
  | |- wp _ get _ _ _ => apply wp_get
  | |- wp _ (modify _) _ _ _ => apply wp_modify
  | |- wp _ (lift _) _ _ _ => apply wp_lift
  end.

(** ** What sizes and offsets are in a state *)

Definition size_part (p : ClassPrivate) : Z * Z * Z * Z * bool * bool :=
  (p_size p, p_alignment p, p_nativeSize p, p_nativeAlignment p, p_managedInstance p, p_inLayout p).

Definition size_of_class (st : Engine) (c : Z) := size_part <$> userData st !! c.

(** A run that leaves all of it. *)
Record quiet (st st' : Engine) : Prop := {
  q_heap : heap st' = heap st;
  q_sizes c : size_of_class st' c = size_of_class st c;
  q_offsets : field_offset st' = field_offset st;
}.

#[export] Instance quiet_refl : Reflexive quiet.
Proof. by split. Qed.
#[export] Instance quiet_trans : Transitive quiet.
Proof. intros ??? [] []. split; [congruence| |congruence]. intros c. by transitivity (size_of_class y c). Qed.

Lemma quiet_update info f st : (forall p, size_part (f p) = size_part p) -> quiet st (update_private info f st).
Proof.
  intros Hf. split; [done| |done]. intros c. unfold size_of_class. simpl. rewrite lookup_alter.
  case_decide as E; [subst c|done]. destruct (userData st !! info); simpl; [|done]. by rewrite Hf.
Qed.

(** ** Runs that only change the state along a relation *)

Definition leaves (R : relation Engine) {A} (m : lay A) : Prop := forall st, wlp m (fun _ st' => R st st') (fun st' => R st st') st.

Section Leaves.
Context {R : relation Engine} `{!Reflexive R, !Transitive R}.

Lemma leaves_bind {A B} (m : lay A) (f : A -> lay B) : leaves R m -> (forall a, leaves R (f a)) -> leaves R (m ≫= f).
Proof.
  intros Hm Hf st. apply wp_bind. eapply wp_mono; [|done|apply Hm]. intros a st' Hq.
  eapply wp_mono; [| |apply Hf]; intros *; [intros H|intros H]; by transitivity st'.
Qed.

Lemma leaves_ret {A} (a : A) : leaves R (mret a).
Proof. intros st. by apply wp_ret. Qed.
Lemma leaves_fail {A} : leaves R (@fail A).
Proof. intros st. by apply wp_fail. Qed.
Lemma leaves_stuck {A} : leaves R (@stuck A).
Proof. intros st. by apply wp_stuck. Qed.
Lemma leaves_get : leaves R get.
Proof. intros st. by apply wp_get. Qed.
Lemma leaves_lift {A} (o : option A) : leaves R (lift o).
Proof. intros st. by apply wp_lift. Qed.
Lemma leaves_modify f : (forall st, R st (f st)) -> leaves R (modify f).
Proof. intros H st. by apply wp_modify. Qed.
Lemma leaves_fold {A B} (f : B -> A -> lay B) b l : (forall b a, leaves R (f b a)) -> leaves R (fold_lay f b l).
Proof.
  intros Hf. revert b. induction l as [|a l IH]; intros b; simpl; [apply leaves_ret|].
  apply leaves_bind; [apply Hf|apply IH].
Qed.

End Leaves.

(** The structure of a function, down to its changes of the state. *)
Ltac leaves_step :=
  repeat lazymatch goal with
  | |- leaves _ (mret _) => apply leaves_ret
  | |- leaves _ fail => apply leaves_fail
  | |- leaves _ stuck => apply leaves_stuck
  | |- leaves _ get => apply leaves_get
  | |- leaves _ (lift _) => apply leaves_lift
  | |- leaves _ (modify _) => apply leaves_modify; intros ?
  | |- leaves _ (mbind _ _) => apply leaves_bind; [|intros ?]
  | |- leaves _ (fold_lay _ _ _) => apply leaves_fold; intros ? ?
  | |- leaves _ (match ?x with _ => _ end) => destruct x
  | |- leaves _ (let _ := _ in _) => cbv zeta
  end.

Section Tables.
Variables (depth : nat) (members : Z -> Members) (method_at : Z -> ILMethod).
Context {R : relation Engine} `{!Reflexive R, !Transitive R}.

Lemma leaves_interface_slots st info inherited vtable :
  leaves R (interface_slots depth members method_at st info inherited vtable).
Proof. revert vtable. induction inherited as [|e inherited IH]; intros [|m vtable]; simpl; leaves_step. apply IH. Qed.

Hypothesis Hadd : forall info i table st, R st (update_private info (add_table i table) st).

Lemma leaves_interface_table fuel info interface :
  leaves R (ComputeInterfaceTable depth members method_at fuel info interface).
Proof.
  revert interface. induction fuel as [|fuel IH]; intros interface; simpl; leaves_step;
    first [apply leaves_interface_slots|apply Hadd|apply IH].
Qed.

Lemma leaves_interface_tables info : leaves R (interface_tables depth members method_at info).
Proof. unfold interface_tables. leaves_step. apply leaves_interface_table. Qed.

End Tables.

Section Quiet.
Variables (depth : nat) (members : Z -> Members) (method_at : Z -> ILMethod).

Lemma quiet_slot info parent l m : leaves quiet (method_slot depth members method_at info parent l m).
Proof. unfold method_slot, ILMethodSetVirtualAncestor. leaves_step; done. Qed.

Lemma quiet_vtable info parent l : leaves quiet (layout_vtable depth members method_at info parent l).
Proof. unfold layout_vtable. leaves_step; [apply quiet_slot|by apply quiet_update]. Qed.

Lemma quiet_interface_tables info : leaves quiet (interface_tables depth members method_at info).
Proof. apply leaves_interface_tables; [apply _..|]. intros. by apply quiet_update. Qed.

(** *** The instance part of the layout that goes through *)

Definition keeps (m : lay LayoutInfo) (l : LayoutInfo) : Prop :=
  forall st, wlp m (fun l' _ => instance_part l' = instance_part l) (fun _ => True) st.

Lemma slot_keeps info parent l m : keeps (method_slot depth members method_at info parent l m) l.
Proof.
  intros st. unfold method_slot. case_match; [done|]. do 2 lay_step.
  assert (forall l', l' = (if is_finalizer method_at (heap st) m then set_finalizer l else l) ->
    instance_part l' = instance_part l) as Hl by (intros l' ->; by case_match).
  set (l' := if is_finalizer _ _ _ then _ else l) in *. specialize (Hl l' eq_refl). clearbody l'.
  unfold ILMethodSetVirtualAncestor. case_match; [by case_match|]. lay_step. lay_step. intros a _. lay_step.
  by case_match; destruct a.
Qed.

Lemma vtable_keeps info parent l : keeps (layout_vtable depth members method_at info parent l) l.
Proof.
  intros st. unfold layout_vtable. lay_step.
  eapply wp_mono; [| |apply (wp_fold _ (fun _ l' _ => instance_part l' = instance_part l) (fun _ => True))]; [|done|done|].
  - intros l' st' E. case_match; [done|]. by do 5 lay_step.
  - intros pre m rest l' st' _ E. eapply wp_mono; [| |apply slot_keeps]; [|done]. intros l'' st'' E'. congruence.
Qed.

End Quiet.
