(* ===== verification/LayoutRefine.v ===== *)
(** * The layout functions compute the reference layout

    In every state that layouts leave, also failed ones, the record of a class
    that is laid out has the sizes of the reference layout (LayoutSpec.v) and
    its fields have the offsets of it; and a layout that succeeds returns the
    reference layout.  A class that contains itself has no reference layout, so
    its layout fails. *)
From Stdlib Require Import ZArith Lia String.
From stdpp Require Import base list option numbers gmap strings relations.
From S2P Require Import Prelude Opcodes Cvm JumpMask Scan Coder Types Metadata MetadataProps Layout LayoutSpec LayoutRun.

Local Open Scope Z_scope.

Section Refine.
Context {PF : Platform} {LS : LayoutSizes}.
Variables (h : Heap) (depth : nat) (members : Z -> Members) (method_at : Z -> ILMethod).
Variable ILImageIsSecure : Z -> bool.

(** The metadata: every field belongs to one class, and no class needs to be
    expanded from a generic one. *)
Record metadata_ok (field_owner : Z -> Z) : Prop := {
  mo_owner c f : f ∈ fields (members c) -> field_owner (f_id f) = c;
  mo_fields c : NoDup (map f_id (fields (members c)));
  mo_plain c : ILClassNeedsExpansion h c = false;
}.

Context {field_owner : Z -> Z}.
Hypothesis Hmeta : metadata_ok field_owner.
Hypothesis Hsizes : sizes_ok.

(** ** The invariant *)

(** The fields have these offsets. *)
Definition offsets_set (st : Engine) (o : offsets) : Prop := forall f os, (f, os) ∈ o -> field_offset st !! f = Some os.

Definition recorded (st : Engine) (c : Z) (p : ClassPrivate) : Prop :=
  exists o, class_layout_is h depth members ILImageIsSecure c (instance_part (info_of p)) o /\ offsets_set st o.

Record layouts_ok (st : Engine) : Prop := {
  lo_heap : heap st = h;
  lo_recorded c p : userData st !! c = Some p -> p_inLayout p = false -> recorded st c p;
}.

(** What a run leaves of the classes in [D]. *)
Record frame (D : gset Z) (st st' : Engine) : Prop := {
  fr_sizes c : c ∈ D -> size_of_class st' c = size_of_class st c;
  fr_offsets f : field_owner f ∈ D -> field_offset st' !! f = field_offset st !! f;
}.

#[local] Instance frame_refl D : Reflexive (frame D).
Proof. by split. Qed.
#[local] Instance frame_trans D : Transitive (frame D).
Proof.
  intros x y z [H1 H2] [H3 H4]. split; intros i Hi; [by rewrite H3, H1|by rewrite H4, H2].
Qed.

Lemma frame_mono D D' st st' : D ⊆ D' -> frame D' st st' -> frame D st st'.
Proof. intros Hs [H1 H2]. split; intros i Hi; [apply H1|apply H2]; set_solver. Qed.

Definition classes (st : Engine) : gset Z := dom (userData st).

Lemma frame_classes st st' : frame (classes st) st st' -> classes st ⊆ classes st'.
Proof.
  intros [H _] c Hc. specialize (H c Hc). unfold classes in *. rewrite elem_of_dom in Hc |- *.
  destruct Hc as [p Hp]. unfold size_of_class in H. rewrite Hp in H. destruct (userData st' !! c); [by eexists|done].
Qed.

Lemma quiet_frame D st st' : quiet st st' -> frame D st st'.
Proof. intros [_ Hs Ho]. split; intros i _; [apply Hs|by rewrite Ho]. Qed.

Lemma size_of_class_inv st c p s : userData st !! c = Some p -> size_of_class st c = s -> s = Some (size_part p).
Proof. unfold size_of_class. by intros -> <-. Qed.

Lemma same_size_part p p' : size_part p = size_part p' -> instance_part (info_of p) = instance_part (info_of p') /\
  p_inLayout p = p_inLayout p'.
Proof. unfold size_part. intros [= E1 E2 E3 E4 E5 E6]. unfold instance_part, info_of. simpl. by rewrite E1, E2, E3, E4, E5. Qed.

Lemma recorded_same st st' c p p' :
  size_part p = size_part p' -> (forall o, offsets_set st o -> class_layout_is h depth members ILImageIsSecure c (instance_part (info_of p)) o -> offsets_set st' o) ->
  recorded st c p -> recorded st' c p'.
Proof. intros [E _]%same_size_part Ho (o & Hc & Hs). exists o. rewrite <-E. auto. Qed.

Lemma quiet_ok st st' : quiet st st' -> layouts_ok st -> layouts_ok st'.
Proof.
  intros [Hh Hs Ho] [Hheap Hrec]. split; [congruence|]. intros c p Hp Hl. specialize (Hs c). unfold size_of_class in Hs.
  rewrite Hp in Hs. destruct (userData st !! c) as [p0|] eqn:E; [|done]. apply (inj Some) in Hs.
  pose proof (same_size_part _ _ Hs) as [_ El]. eapply recorded_same; [symmetry; exact Hs| |by apply Hrec; [|congruence]].
  intros o Hset _ f os Hin. rewrite Ho. by apply Hset.
Qed.

(** Offsets are of fields of the class. *)
Lemma ref_fields_ids layout p a s0 o0 fs s o :
  ref_fields layout p a (s0, o0) fs = Some (s, o) -> map fst o = map fst o0 ++ map f_id (LayoutSpec.instance_fields fs).
Proof.
  revert s0 o0. induction fs as [|f fs IH]; intros s0 o0; simpl; [intros [= _ <-]; by rewrite app_nil_r|].
  unfold ref_field. rewrite instance_fields_cons. destruct (is_static f); cbn [mbind option_bind]; [apply IH|].
  destruct (layout (f_signature f)) as [t|]; [|done]. cbn [mbind option_bind fst snd].
  destruct (place_field _ _ _ _ _) as [s1 o1]. cbn [mbind option_bind]. intros ->%IH. rewrite map_app. simpl.
  by rewrite <-app_assoc.
Qed.

Lemma layout_ids c l o f os : class_layout_is h depth members ILImageIsSecure c l o -> (f, os) ∈ o ->
  exists fl, fl ∈ fields (members c) /\ is_static fl = false /\ f_id fl = f.
Proof.
  intros [[|n] Hn] Hin; [done|]. rewrite ref_class_S in Hn.
  destruct (GetParentClass h depth c); [|done]. cbn [mbind option_bind] in Hn.
  destruct (match o0 with Some _ => _ | None => _ end); [|done]. cbn [mbind option_bind] in Hn.
  destruct (explicit_of _ _ _ _) as [[[p e] a]|]; [|done]. cbn [mbind option_bind] in Hn.
  destruct (ref_fields _ _ _ _ _) as [[s o']|] eqn:Ef; [|done]. injection Hn as <- <-.
  apply ref_fields_ids in Ef. simpl in Ef. assert (f ∈ map fst o') as Hf.
  { apply list_elem_of_In, in_map_iff. exists (f, os). split; [done|]. by apply list_elem_of_In. }
  rewrite Ef in Hf. apply list_elem_of_In, in_map_iff in Hf as (fl & <- & Hfl). exists fl.
  apply list_elem_of_In in Hfl. unfold LayoutSpec.instance_fields in Hfl. by apply list_elem_of_filter in Hfl as [? ?].
Qed.

Lemma layout_owner c l o f os : class_layout_is h depth members ILImageIsSecure c l o -> (f, os) ∈ o -> field_owner f = c.
Proof. intros H1 H2. destruct (layout_ids c l o f os H1 H2) as (fl & Hfl & _ & <-). by apply (mo_owner _ Hmeta). Qed.

(** Records outside of what a run touches stay. *)
Lemma frame_recorded D st st' c p p' :
  frame D st st' -> c ∈ D -> size_part p = size_part p' -> recorded st c p -> recorded st' c p'.
Proof.
  intros [_ Ho] Hc Hs. apply recorded_same; [done|]. intros o Hset Hl f os Hin.
  rewrite Ho; [by apply Hset|]. by rewrite (layout_owner _ _ _ _ _ Hl Hin).
Qed.

(** ** What a call promises *)

Definition call_ok (st : Engine) (st' : Engine) : Prop := layouts_ok st' /\ frame (classes st) st st'.

Definition type_spec (m : Z -> lay LayoutInfo) : Prop := forall t st, layouts_ok st ->
  wlp (m t) (fun l st' => call_ok st st' /\ type_layout h depth members ILImageIsSecure t (instance_part l))
    (call_ok st) st.
Definition class_spec (m : Z -> lay LayoutInfo) : Prop := forall c st, layouts_ok st ->
  wlp (m c) (fun l st' => call_ok st st' /\ exists o, class_layout_is h depth members ILImageIsSecure c (instance_part l) o)
    (call_ok st) st.

Section Body.
Variables (LT LC : Z -> lay LayoutInfo).
Hypothesis HLT : type_spec LT.
Hypothesis HLC : class_spec LC.
Variables (info : Z) (st0 : Engine).

(** Inside of the body of [info]: the classes from before are framed, and
    [info] has a record. *)
Record inside (in_layout : bool) (st : Engine) : Prop := {
  in_ok : layouts_ok st;
  in_frame : frame (classes st0) st0 st;
  in_record : exists p, userData st !! info = Some p /\ p_inLayout p = in_layout;
}.

(** A call from inside. *)
Lemma inside_call b st st' : inside b st -> call_ok st st' -> inside b st'.
Proof.
  intros [Hok Hf (p & Hp & Hl)] [Hok' Hf']. split; [done| |].
  - transitivity st; [done|]. eapply frame_mono; [by apply frame_classes|done].
  - assert (info ∈ classes st) as Hin by (apply elem_of_dom; by exists p).
    pose proof (fr_sizes _ _ _ Hf' info Hin) as Hs. unfold size_of_class in Hs. rewrite Hp in Hs.
    destruct (userData st' !! info) as [p'|]; [|done]. apply (inj Some), same_size_part in Hs as [_ E].
    exists p'. split; [done|congruence].
Qed.

Lemma inside_quiet b st st' : inside b st -> quiet st st' -> inside b st'.
Proof.
  intros Hin Hq. apply (inside_call b st); [done|]. split; [by eapply quiet_ok; [|apply Hin]|by apply quiet_frame].
Qed.

(** A step that is quiet keeps what holds inside. *)
Lemma wlp_quiet {A} (m : lay A) b (Q : A -> Engine -> Prop) F st :
  inside b st -> leaves quiet m ->
  (forall a st', inside b st' -> quiet st st' -> Q a st') -> (forall st', inside b st' -> F st') -> wlp m Q F st.
Proof.
  intros Hin Hm HQ HF. eapply wp_mono; [| |apply (Hm st)]; intros *; intros Hq; [apply HQ; [|done]|apply HF]; by eapply inside_quiet.
Qed.

Lemma expanded_plain record c Q F st : heap st = h -> Q c st -> wlp (expanded depth record c) Q F st.
Proof. intros Hh HQ. unfold expanded. lay_step. lay_step. by rewrite Hh, (mo_plain _ Hmeta). Qed.

Lemma class_call c b (Q : LayoutInfo -> Engine -> Prop) F st :
  inside b st ->
  (forall l o st', inside b st' -> class_layout_is h depth members ILImageIsSecure c (instance_part l) o -> Q l st') ->
  (forall st', inside b st' -> F st') -> wlp (LC c) Q F st.
Proof.
  intros Hin HQ HF. eapply wp_mono; [| |apply HLC, Hin].
  - intros l st' (Hcall & o & Ho). eapply HQ; [by eapply inside_call|done].
  - intros st' Hcall. apply HF. by eapply inside_call.
Qed.

(** *** The parts of the body *)

Lemma parent_part (Q : option Z * LayoutInfo -> Engine -> Prop) F st :
  inside true st ->
  (forall parent l st', inside true st' -> class_base h depth members ILImageIsSecure info (instance_part l) -> Q (parent, l) st') ->
  (forall st', inside true st' -> F st') -> wlp (layout_parent depth LC info) Q F st.
Proof.
  intros Hin HQ HF. unfold layout_parent. do 4 lay_step. rewrite (lo_heap _ (in_ok _ _ Hin)).
  intros [parent|] Hp; [|apply wp_ret, HQ; [done|by left]].
  lay_step. apply expanded_plain; [apply Hin|]. lay_step. eapply class_call; [done| |done].
  intros l o st' Hin' Ho. apply wp_ret, HQ; [done|]. right. by exists parent, o.
Qed.

Lemma interfaces_part (Q : unit -> Engine -> Prop) F st :
  inside true st -> (forall st', inside true st' -> Q tt st') -> (forall st', inside true st' -> F st') ->
  wlp (layout_interfaces depth LC info) Q F st.
Proof.
  intros Hin HQ HF. unfold layout_interfaces. do 4 lay_step. intros interfaces _.
  eapply wp_mono with (Q := fun _ st' => inside true st') (F := F); [intros []; apply HQ|done|].
  apply (wp_fold _ (fun _ _ => inside true)); [done|].
  intros done [k i] rest [] st' _ Hin'. lay_step. apply expanded_plain; [apply Hin'|]. lay_step.
  by eapply class_call.
Qed.

Hypothesis Hnew : info ∉ classes st0.

(** The offset of a field of the class, that is not one of a layout that is
    recorded. *)
Lemma inside_set_offset b f os st :
  inside b st -> field_owner f = info ->
  (b = false -> forall l o os', class_layout_is h depth members ILImageIsSecure info l o -> (f, os') ∉ o) ->
  inside b (set_offset f os st).
Proof.
  intros [[Hh Hrec] [Hfs Hfo] (p & Hp & Hl)] Hf Hno. split.
  - split; [done|]. intros c q Hq Hql. specialize (Hrec c q Hq Hql). simpl in Hq. eapply recorded_same; [done| |exact Hrec].
    intros o Hset Hlay g og Hg. simpl. rewrite lookup_insert. case_decide as E; [subst g|by apply Hset].
    pose proof (layout_owner _ _ _ _ _ Hlay Hg) as Hc. rewrite Hf in Hc. subst c.
    rewrite Hp in Hq. injection Hq as <-. destruct (Hno ltac:(congruence) _ _ _ Hlay Hg).
  - split; [exact Hfs|]. intros g Hg. simpl. rewrite lookup_insert. case_decide as E; [subst g|by apply Hfo].
    rewrite Hf in Hg. done.
  - by exists p.
Qed.

Definition part_state (s : FieldState) : FieldState :=
  mk_field_state (instance_part (fs_layout s)) (maxAlignment s) (maxNativeAlignment s).

Lemma place_part p a s f t s' o :
  place_field p a s f t = (s', o) -> place_field p a (part_state s) f (instance_part t) = (part_state s', o).
Proof.
  unfold place_field. simpl. destruct (if a then f_layout f else None) as [off|]; intros [= <- <-]; unfold part_state; simpl;
    by destruct (l_managedInstance t).
Qed.

Lemma ref_fields_snoc layout p a so done f so' so'' :
  ref_fields layout p a so done = Some so' -> ref_field layout p a so' f = Some so'' ->
  ref_fields layout p a so (done ++ [f]) = Some so''.
Proof.
  revert so. induction done as [|g done IH]; intros so; simpl; [intros [= ->] ->; done|].
  destruct (ref_field layout p a so g); [|done]. cbn [mbind option_bind]. apply IH.
Qed.

(** A field has no offset before its turn. *)
Lemma fresh_field pre f rest (o : offsets) os :
  fields (members info) = pre ++ f :: rest -> map fst o = map f_id (LayoutSpec.instance_fields pre) -> (f_id f, os) ∉ o.
Proof.
  intros Hfs Hids Hin. pose proof (mo_fields _ Hmeta info) as Hnd. rewrite Hfs, map_app in Hnd. simpl in Hnd.
  apply stdpp.list_relations.list.NoDup_app in Hnd as (_ & Hdis & _). apply (Hdis (f_id f)); [|left].
  assert (f_id f ∈ map fst o) as Hm.
  { apply list_elem_of_In, in_map_iff. exists (f_id f, os). split; [done|]. by apply list_elem_of_In. }
  rewrite Hids in Hm. apply list_elem_of_In, in_map_iff in Hm as (x & <- & Hx). apply list_elem_of_In, in_map_iff.
  exists x. split; [done|]. apply list_elem_of_In. apply list_elem_of_In in Hx.
  by apply list_elem_of_filter in Hx as [_ ?].
Qed.

(** What the loop has done after some fields. *)
Definition fields_done p a l (pre : list ILField) (s : FieldState) (st : Engine) : Prop :=
  inside true st /\ exists n o, offsets_set st o /\
    ref_fields (ref_type h depth members ILImageIsSecure n) p a (mk_field_state (instance_part l) 1 1, []) pre =
      Some (part_state s, o).

Lemma fields_step p a l pre f rest s t st st' :
  fields (members info) = pre ++ f :: rest -> is_static f = false ->
  fields_done p a l pre s st -> call_ok st st' ->
  type_layout h depth members ILImageIsSecure (f_signature f) (instance_part t) ->
  let '(s', off) := place_field p a s f t in fields_done p a l (pre ++ [f]) s' (set_offset (f_id f) off st').
Proof.
  intros Hfs Est (Hin & n & o & Ho & Hr) Hcall [n' Ht]. destruct (place_field p a s f t) as [s' off] eqn:Epl.
  pose proof (mo_owner _ Hmeta info f ltac:(rewrite Hfs; set_solver)) as Hown.
  pose proof (inside_call _ _ _ Hin Hcall) as Hin'. pose proof (ref_fields_ids _ _ _ _ _ _ _ _ Hr) as Hids.
  split; [by apply inside_set_offset|]. exists (n `max` n')%nat, (o ++ [(f_id f, off)]). split.
  - intros g og [Hg|Hg]%elem_of_app; simpl; rewrite lookup_insert.
    + case_decide as E; [subst g; by destruct (fresh_field _ _ _ _ _ Hfs Hids Hg)|].
      destruct Hcall as [_ Hfr]. rewrite (fr_offsets _ _ _ Hfr); [by apply Ho|].
      assert (g ∈ map fst o) as Hgo.
      { apply list_elem_of_In, in_map_iff. exists (g, og). split; [done|]. by apply list_elem_of_In. }
      rewrite Hids in Hgo. apply list_elem_of_In, in_map_iff in Hgo as (x & <- & Hx). apply list_elem_of_In in Hx.
      apply list_elem_of_filter in Hx as [_ Hx]. rewrite (mo_owner _ Hmeta info x) by (rewrite Hfs; set_solver).
      destruct (in_record _ _ Hin) as (q & Hq & _). apply elem_of_dom. by exists q.
    + apply list_elem_of_singleton in Hg as [= -> ->]. by rewrite decide_True.
  - eapply ref_fields_snoc; [eapply ref_fields_mono; [|exact Hr]; intros x lx; apply ref_type_mono; lia|].
    unfold ref_field. rewrite Est. rewrite (ref_type_mono _ _ _ _ n' (n `max` n') _ _ ltac:(lia) Ht).
    cbn [mbind option_bind fst snd]. by rewrite (place_part _ _ _ _ _ _ _ Epl).
Qed.

Lemma fields_part p a l (Q : FieldState -> Engine -> Prop) F st :
  inside true st ->
  (forall s st', fields_done p a l (fields (members info)) s st' -> Q s st') -> (forall st', inside true st' -> F st') ->
  wlp (fold_lay (instance_field LT p a) (mk_field_state l 1 1) (fields (members info))) Q F st.
Proof.
  intros Hin HQ HF. eapply wp_mono; [|done|apply (wp_fold _ (fields_done p a l))]; [exact HQ| |].
  - split; [done|]. exists 0%nat, []. split; [by intros f os ?%elem_of_nil|done].
  - intros pre f rest s st' Hfs Hd. unfold instance_field. destruct (is_static f) eqn:Est.
    + apply wp_ret. destruct Hd as (Hin' & n & o & Ho & Hr). split; [done|]. exists n, o. split; [done|].
      eapply ref_fields_snoc; [done|]. unfold ref_field. by rewrite Est.
    + lay_step. eapply wp_mono; [| |apply HLT, Hd]; cycle 1.
      { intros st'' Hcall. eapply inside_call; [apply Hd|done]. }
      intros t st'' (Hcall & Ht). pose proof (fields_step _ _ _ _ _ _ _ _ _ _ Hfs Est Hd Hcall Ht) as Hd'. cbv beta.
      destruct (place_field p a s f t) as [s' off]. do 2 lay_step. by apply wp_ret.
Qed.

Lemma final_same e s : instance_part (final_layout e (part_state s)) = instance_part (final_layout e s).
Proof. done. Qed.

Lemma fields_done_layout p e a l s st :
  class_base h depth members ILImageIsSecure info (instance_part l) ->
  explicit_of members ILImageIsSecure h info = Some (p, e, a) -> fields_done p a l (fields (members info)) s st ->
  exists o, class_layout_is h depth members ILImageIsSecure info (instance_part (final_layout e s)) o /\ offsets_set st o.
Proof.
  intros Hb He (_ & n & o & Ho & Hr). exists o. split; [|done].
  destruct Hb as [[Ep Eb]|(q & ob & Ep & [nb Hq])].
  - exists (S n). rewrite ref_class_S, Ep. cbn [mbind option_bind]. rewrite He. cbn [mbind option_bind].
    rewrite Eb in Hr. by rewrite Hr.
  - exists (S (n `max` nb)). rewrite ref_class_S, Ep. cbn [mbind option_bind].
    rewrite (ref_class_mono _ _ _ _ nb (n `max` nb) _ _ ltac:(lia) Hq). cbn [mbind option_bind fmap option_fmap option_map fst].
    rewrite He. cbn [mbind option_bind].
    erewrite ref_fields_mono; [|intros t lt; apply (ref_type_mono _ _ _ _ n (n `max` nb)); lia|exact Hr]. done.
Qed.

Lemma bits6_good a : good_alignment a -> bits6 a = a.
Proof. intros [-> | [-> | [-> | [-> | [-> | -> ]]]]]%good_alignment_cases; done. Qed.

(** The record of the instance part. *)
Lemma record_part p e a l s st :
  class_base h depth members ILImageIsSecure info (instance_part l) ->
  explicit_of members ILImageIsSecure h info = Some (p, e, a) -> fields_done p a l (fields (members info)) s st ->
  inside false (update_private info (record_instance (final_layout e s)) st).
Proof.
  intros Hb He Hd. destruct (fields_done_layout _ _ _ _ _ _ Hb He Hd) as (o & Hlay & Ho).
  destruct Hd as ([[Hh Hrec] [Hfs Hfo] (q & Hq & Hql)] & _). set (lf := final_layout e s) in *.
  assert (instance_part (info_of (record_instance lf q)) = instance_part lf) as Epart.
  { apply class_layout_sized in Hlay as [_ _ Ha Hna]; [|done].
    pose proof (bits6_good _ Ha : bits6 (l_alignment lf) = l_alignment lf) as E1.
    pose proof (bits6_good _ Hna : bits6 (l_nativeAlignment lf) = l_nativeAlignment lf) as E2.
    unfold instance_part, info_of. cbn [record_instance p_size p_alignment p_nativeSize p_nativeAlignment p_managedInstance
      l_size l_alignment l_nativeSize l_nativeAlignment l_managedInstance].
    by rewrite E1, E2. }
  split.
  - split; [done|]. intros c r Hr Hrl. simpl in Hr. rewrite lookup_alter in Hr. case_decide as E.
    + subst c. rewrite Hq in Hr. injection Hr as <-. exists o. rewrite Epart. done.
    + specialize (Hrec c r Hr Hrl). exact Hrec.
  - split; [|exact Hfo]. intros c Hc. rewrite <-Hfs by done. unfold size_of_class. simpl.
    rewrite lookup_alter_ne; [done|]. intros <-. done.
  - exists (record_instance lf q). split; [|done]. simpl. by rewrite lookup_alter_eq, Hq.
Qed.

(** *** Static fields *)

Lemma static_fresh f l o os :
  f ∈ fields (members info) -> is_static f = true -> class_layout_is h depth members ILImageIsSecure info l o ->
  (f_id f, os) ∉ o.
Proof.
  intros Hf Hst Hlay Hin. destruct (layout_ids _ _ _ _ _ Hlay Hin) as (g & Hg & Hgs & Eg).
  assert (f = g) as <-; [|congruence]. pose proof (mo_fields _ Hmeta info) as Hnd.
  apply list_elem_of_lookup in Hf as [i Hi]. apply list_elem_of_lookup in Hg as [j Hj].
  assert (map f_id (fields (members info)) !! i = Some (f_id f)) as E1 by (by rewrite list_lookup_fmap, Hi).
  assert (map f_id (fields (members info)) !! j = Some (f_id f)) as E2 by (by rewrite list_lookup_fmap, Hj; simpl; rewrite Eg).
  pose proof (NoDup_lookup _ _ _ _ Hnd E1 E2) as <-. congruence.
Qed.

Lemma inside_same_data b st st' :
  inside b st -> heap st' = heap st -> userData st' = userData st -> field_offset st' = field_offset st -> inside b st'.
Proof. intros Hin Eh Eu Eo. eapply inside_quiet; [done|]. split; [done| |done]. intros c. unfold size_of_class. by rewrite Eu. Qed.

Lemma static_part secure l f st :
  f ∈ fields (members info) -> inside false st ->
  wlp (static_field LT secure l f) (fun l' st' => inside false st' /\ instance_part l' = instance_part l) (inside false) st.
Proof.
  intros Hf Hin. unfold static_field. destruct (is_static f && _) eqn:Est; [|done]. apply andb_true_iff in Est as [Est _].
  lay_step. eapply wp_mono with (Q := fun _ => inside false) (F := inside false); [|done|].
  2: { destruct (_ && _); [lay_step|lay_step; done]. by eapply inside_same_data. }
  intros [] st1 Hin1. destruct (_ && _); [by apply wp_ret|]. lay_step.
  eapply wp_mono; [| |apply HLT, Hin1]; cycle 1.
  { intros st'' Hcall. by eapply inside_call. }
  intros t st2 (Hcall & _). pose proof (inside_call _ _ _ Hin1 Hcall) as Hin2. cbv beta. do 2 lay_step.
  assert (forall os, inside false (set_offset (f_id f) os st2)) as Hset.
  { intros os. apply inside_set_offset; [done|by apply (mo_owner _ Hmeta)|]. intros _ l' o os'. by apply static_fresh. }
  destruct (f_thread_static f).
  - do 5 lay_step. split; [|done]. by eapply inside_same_data; [apply Hset|..].
  - do 3 lay_step. split; [by apply Hset|done].
Qed.

(** What is left when the body fails. *)
Definition left_over (st : Engine) : Prop := exists b, inside b st.

Lemma statics_part secure l fs st :
  (forall f, f ∈ fs -> f ∈ fields (members info)) -> inside false st ->
  wlp (fold_lay (static_field LT secure) l fs) (fun l' st' => inside false st' /\ instance_part l' = instance_part l)
    (inside false) st.
Proof.
  intros Hfs Hin.
  apply (wp_fold _ (fun _ l' st' => inside false st' /\ instance_part l' = instance_part l)); [done|].
  intros pre f rest l' st' -> [Hin' E]. eapply wp_mono; [|done|apply static_part; [apply Hfs; set_solver|done]].
  intros l'' st'' [? E']. split; [done|congruence].
Qed.

(** After the instance part. *)
Lemma rest_part parent l st :
  inside false st ->
  wlp (l ← layout_vtable depth members method_at info parent l;
       st ← get;
       l ← fold_lay (static_field LT (ILImageIsSecure (c_image (class_at (heap st) info)))) l (fields (members info));
       modify (update_private info (record_statics l));;
       interface_tables depth members method_at info;;
       modify (add_class info);;
       mret l)
    (fun l' st' => inside false st' /\ instance_part l' = instance_part l) left_over st.
Proof.
  intros Hin. lay_step.
  eapply wp_mono; [| |apply wp_and; [apply (quiet_vtable depth members method_at info parent l st)
    |apply (vtable_keeps depth members method_at info parent l st)]]; cycle 1.
  { intros st' [Hq _]. exists false. by eapply inside_quiet. }
  intros l1 st1 [Hq E1]. pose proof (inside_quiet _ _ _ Hin Hq) as Hin1. cbv beta. do 3 lay_step.
  eapply wp_mono; [| |apply statics_part; [done|exact Hin1]]; [|by exists false].
  intros l2 st2 [Hin2 E2]. cbv beta. do 3 lay_step.
  assert (inside false (update_private info (record_statics l2) st2)) as Hin3.
  { eapply inside_quiet; [exact Hin2|]. by apply quiet_update. }
  eapply wlp_quiet; [exact Hin3|apply quiet_interface_tables| |by exists false].
  intros [] st4 Hin4 _. do 3 lay_step. split; [by eapply inside_same_data|congruence].
Qed.

Lemma body_ok st :
  inside true st ->
  wlp (layout_body depth members method_at ILImageIsSecure LT LC info)
    (fun l st' => inside false st' /\ exists o, class_layout_is h depth members ILImageIsSecure info (instance_part l) o)
    left_over st.
Proof.
  intros Hin. unfold layout_body. lay_step. apply parent_part; [done| |by exists true].
  intros parent l st1 Hin1 Hbase. lay_step. apply interfaces_part; [done| |by exists true].
  intros st2 Hin2. lay_step. unfold explicit_layout. do 2 lay_step. rewrite (lo_heap _ (in_ok _ _ Hin2)).
  destruct (explicit_of members ILImageIsSecure h info) as [[[p e] a]|] eqn:He; [|by exists true].
  lay_step. lay_step. apply fields_part; [done| |by exists true].
  intros s st3 Hd. cbv zeta. do 2 lay_step.
  destruct (fields_done_layout _ _ _ _ _ _ Hbase He Hd) as (o & Hlay & _).
  eapply wp_mono; [| |apply rest_part; by eapply record_part]; [|done].
  intros l' st' [Hin' E]. split; [done|]. exists o. by rewrite E.
Qed.

(** A failed body takes its record away. *)
Lemma undo_ok st : left_over st -> call_ok st0 (set_userData (delete info (userData st)) st).
Proof.
  intros (b & [[Hh Hrec] [Hfs Hfo] _]). split.
  - split; [done|]. intros c p Hp Hl. simpl in Hp. apply lookup_delete_Some in Hp as [_ Hp]. exact (Hrec c p Hp Hl).
  - split; [|done]. intros c Hc. rewrite <-Hfs by done. unfold size_of_class. simpl.
    rewrite lookup_delete_ne; [done|]. by intros <-.
Qed.

End Body.

(** ** Layouts *)

Lemma new_record_inside st info :
  layouts_ok st -> info ∉ classes st ->
  inside info st true (set_userData (<[info := new_private]> (userData st)) st).
Proof.
  intros [Hh Hrec] Hnew. split.
  - split; [done|]. intros c p Hp Hl. simpl in Hp. rewrite lookup_insert in Hp. case_decide; [by simplify_eq|].
    exact (Hrec c p Hp Hl).
  - split; [|done]. intros c Hc. unfold size_of_class. simpl. rewrite lookup_insert_ne; [done|]. by intros <-.
  - exists new_private. simpl. by rewrite lookup_insert_eq.
Qed.

Lemma primitive_sized_part sa b : instance_part (simple_layout sa b) = simple_layout sa b.
Proof. done. Qed.

Lemma call_ok_refl st : layouts_ok st -> call_ok st st.
Proof. done. Qed.

(** A class that has a record, and a class that has none. *)
Lemma class_with_record c st (m : lay LayoutInfo) Q F :
  layouts_ok st ->
  (forall p, userData st !! c = Some p -> p_inLayout p = false -> Q (info_of p) st) -> F st ->
  (userData st !! c = None -> wlp m Q F st) ->
  wlp (match userData st !! c with
       | Some p => if p_inLayout p then fail else mret (info_of p)
       | None => m
       end) Q F st.
Proof.
  intros Hok HQ HF Hm. destruct (userData st !! c) as [p|]; [|by apply Hm].
  destruct (p_inLayout p) eqn:E; [done|]. by apply (HQ p).
Qed.

Lemma class_step LT LC :
  type_spec LT -> class_spec LC -> forall c st, layouts_ok st -> userData st !! c = None ->
  wlp (modify (set_userData (<[c := new_private]> (userData st)));;
       undo c (layout_body depth members method_at ILImageIsSecure LT LC c))
    (fun l st' => call_ok st st' /\ exists o, class_layout_is h depth members ILImageIsSecure c (instance_part l) o)
    (call_ok st) st.
Proof.
  intros HLT HLC c st Hok Hnone. do 2 lay_step. apply wp_undo.
  assert (c ∉ classes st) as Hnew by (by apply not_elem_of_dom).
  eapply wp_mono; [| |apply (body_ok LT LC HLT HLC c st Hnew), new_record_inside; done].
  - intros l st' [[Hok' Hfr _] Ho]. done.
  - intros st' Hleft. by eapply undo_ok.
Qed.

Lemma class_spec_O : class_spec (LayoutClass depth members method_at ILImageIsSecure 0).
Proof.
  intros c st Hok. cbn [LayoutClass]. do 2 lay_step. apply class_with_record; [done| |by apply call_ok_refl|done].
  intros p Hp Hl. split; [by apply call_ok_refl|]. destruct (lo_recorded _ Hok _ _ Hp Hl) as (o & Ho & _). by exists o.
Qed.

Lemma class_spec_S n :
  type_spec (LayoutType depth members method_at ILImageIsSecure n) ->
  class_spec (LayoutClass depth members method_at ILImageIsSecure n) ->
  class_spec (LayoutClass depth members method_at ILImageIsSecure (S n)).
Proof.
  intros HLT HLC c st Hok. cbn [LayoutClass]. do 2 lay_step.
  apply class_with_record; [done| |by apply call_ok_refl|by intros; apply class_step].
  intros p Hp Hl. split; [by apply call_ok_refl|]. destruct (lo_recorded _ Hok _ _ Hp Hl) as (o & Ho & _). by exists o.
Qed.

(** The types that are not value types. *)
Lemma leaf_type t s st (m : lay LayoutInfo) :
  layouts_ok st -> ILTypeStripPrefixes h depth t = Some s ->
  (ILType_IsValueType s = true -> wlp m
     (fun l st' => call_ok st st' /\ type_layout h depth members ILImageIsSecure t (instance_part l)) (call_ok st) st) ->
  wlp (if ILType_IsPrimitive s then
         match primitive_size (ILType_ToElement s) with
         | Some sa => mret (simple_layout sa (ILType_ToElement s =? IL_META_ELEMTYPE_TYPEDBYREF))
         | None => fail
         end
       else if ILType_IsValueType s then m
       else mret (simple_layout ffi_type_pointer (ILTypeIsReference h s)))
    (fun l st' => call_ok st st' /\ type_layout h depth members ILImageIsSecure t (instance_part l)) (call_ok st) st.
Proof.
  intros Hok Es Hm. destruct (ILType_IsPrimitive s) eqn:Ep.
  - destruct (primitive_size _) as [sa|] eqn:E; [|by apply wp_fail, call_ok_refl].
    lay_step. split; [by apply call_ok_refl|]. exists 1%nat. rewrite ref_type_S, Es. cbn [mbind option_bind].
    by rewrite Ep, E.
  - destruct (ILType_IsValueType s) eqn:Ev; [by apply Hm|]. lay_step. split; [by apply call_ok_refl|].
    exists 1%nat. rewrite ref_type_S, Es. cbn [mbind option_bind]. by rewrite Ep, Ev.
Qed.

Lemma type_spec_S n :
  type_spec (LayoutType depth members method_at ILImageIsSecure n) ->
  class_spec (LayoutClass depth members method_at ILImageIsSecure n) ->
  type_spec (LayoutType depth members method_at ILImageIsSecure (S n)).
Proof.
  intros HLT HLC t st Hok. cbn [LayoutType]. do 4 lay_step. rewrite (lo_heap _ Hok). intros s Es. cbv zeta.
  apply leaf_type; [done..|]. intros Ev.
  assert (ILType_IsPrimitive s = false) as Ep by (by destruct (value_flags _ Ev)).
  do 2 lay_step. intros c Ec. destruct (_ =? 0) eqn:E0.
  - eapply wp_mono; [|done|by apply HLC]. intros l st' (Hcall & o & k & Hk). split; [done|].
    exists (S k). rewrite ref_type_S, Es. cbn [mbind option_bind]. rewrite Ep, Ev, Ec. cbn [mbind option_bind]. cbv zeta.
    by rewrite E0, Hk.
  - do 2 lay_step. intros syn Esyn. eapply wp_mono; [|done|by apply HLT]. intros l st' (Hcall & k & Hk). split; [done|].
    exists (S k). rewrite ref_type_S, Es. cbn [mbind option_bind]. rewrite Ep, Ev, Ec. cbn [mbind option_bind]. cbv zeta.
    by rewrite E0, Esyn.
Qed.

Lemma layouts_spec fuel :
  type_spec (LayoutType depth members method_at ILImageIsSecure fuel) /\
  class_spec (LayoutClass depth members method_at ILImageIsSecure fuel).
Proof.
  induction fuel as [|n [IHt IHc]]; [|by split; [apply type_spec_S|apply class_spec_S]].
  split; [|exact class_spec_O]. intros t st Hok. cbn [LayoutType]. do 4 lay_step. rewrite (lo_heap _ Hok). intros s Es.
  cbv zeta. by apply leaf_type.
Qed.

End Refine.
