(* ===== verification/LayoutEnds.v ===== *)
(** * Layouts end

    A class gets its record before anything of it is laid out, so the
    recursion never enters a class twice: in a finite set of classes that is
    closed under parents, interfaces and value types of fields, two units of
    fuel for each class that has no record are enough. *)
From Stdlib Require Import ZArith Lia String.
From stdpp Require Import base list option numbers gmap strings.
From S2P Require Import Prelude Opcodes Cvm JumpMask Scan Coder Types Metadata MetadataProps Layout LayoutSpec LayoutRun LayoutRefine.

Local Open Scope Z_scope.

Section Ends.
Context {PF : Platform} {LS : LayoutSizes}.
Variables (h : Heap) (depth : nat) (members : Z -> Members) (method_at : Z -> ILMethod).
Variable ILImageIsSecure : Z -> bool.

(** A value type whose class is in [U]. *)
Definition type_in (U : gset Z) (t : Z) : Prop :=
  forall s c, ILTypeStripPrefixes h depth t = Some s -> ILType_IsValueType s = true ->
    ILClassResolve h depth (ILType_ToValueType s) = Some c -> c ∈ U.

(** A set of classes that refer to each other only; types that stand for
    themselves by a synthetic type are no value types. *)
Record closed (U : gset Z) : Prop := {
  cl_parent c p : c ∈ U -> GetParentClass h depth c = Some (Some p) -> p ∈ U;
  cl_interface c l i : c ∈ U -> interface_classes depth h c = Some l -> i ∈ l -> i ∈ U;
  cl_field c f : c ∈ U -> f ∈ fields (members c) -> type_in U (f_signature f);
  cl_synthetic c s : c_synthetic (class_at h c) <> 0 ->
    ILTypeStripPrefixes h depth (c_synthetic (class_at h c)) = Some s -> ILType_IsValueType s = false;
  cl_plain c : ILClassNeedsExpansion h c = false;
}.

Context {U : gset Z}.
Hypothesis HU : closed U.

(** Interfaces do not inherit from themselves. *)
Record interfaces_end (rank : Z -> nat) : Prop := {
  ie_edge c i : interface_edge h depth c i -> (rank i < rank c)%nat;
  ie_depth c : (rank c <= depth)%nat;
}.

Context {class_rank : Z -> nat}.
Hypothesis Hac : interfaces_end class_rank.

(** The heap is as it was and the classes in [D] have records. *)
Definition alive (D : gset Z) (st : Engine) : Prop := heap st = h /\ D ⊆ classes st.

Definition ends {A} (D : gset Z) (m : lay A) : Prop :=
  forall st, alive D st -> wp False m (fun _ st' => alive D st') (fun _ => True) st.

Lemma ends_bind {A B} D (m : lay A) (f : A -> lay B) : ends D m -> (forall a, ends D (f a)) -> ends D (m ≫= f).
Proof. intros Hm Hf st Hst. apply wp_bind. eapply wp_mono; [|done|by apply Hm]. intros a st' Hst'. by apply Hf. Qed.

Lemma ends_ret {A} D (a : A) : ends D (mret a).
Proof. by intros st. Qed.
Lemma ends_fail {A} D : ends D (@fail A).
Proof. by intros st. Qed.
Lemma ends_lift {A} D (o : option A) : ends D (lift o).
Proof. intros st Hst. by apply wp_lift. Qed.
Lemma ends_modify D f : (forall st, alive D st -> alive D (f st)) -> ends D (modify f).
Proof. intros H st Hst. by apply H. Qed.
Lemma ends_fold {A B} D (f : B -> A -> lay B) b l : (forall b a, a ∈ l -> ends D (f b a)) -> ends D (fold_lay f b l).
Proof.
  intros Hf. revert b. induction l as [|a l IH]; intros b; simpl; [apply ends_ret|].
  apply ends_bind; [apply Hf; left|]. intros b'. apply IH. intros b'' a' Ha'. apply Hf. by right.
Qed.
(** What is read of the state is the heap [h] and records. *)
Lemma ends_get {A} D (f : Engine -> lay A) : (forall st, alive D st -> ends D (f st)) -> ends D (st ← get; f st).
Proof. intros H st Hst. apply wp_bind, wp_get. by apply H. Qed.

Lemma ends_lift_bind {A B} D (o : option A) (f : A -> lay B) :
  (forall a, o = Some a -> ends D (f a)) -> ends D (a ← lift o; f a).
Proof. intros H st Hst. apply wp_bind, wp_lift. intros a E. by apply H. Qed.

Lemma alive_same D st st' : heap st' = heap st -> userData st' = userData st -> alive D st -> alive D st'.
Proof. unfold alive, classes. by intros -> ->. Qed.

Lemma alive_update D info f st : alive D st -> alive D (update_private info f st).
Proof. intros [Hh HD]. split; [done|]. intros c Hc. specialize (HD c Hc). unfold classes in *. simpl. by rewrite dom_alter_L. Qed.

Ltac ends_step :=
  repeat lazymatch goal with
  | |- ends _ (mret _) => apply ends_ret
  | |- ends _ fail => apply ends_fail
  | |- ends _ (lift _) => apply ends_lift
  | |- ends _ (modify _) => apply ends_modify; intros ? Hst;
      first [exact (alive_same _ _ _ eq_refl eq_refl Hst)|exact (alive_update _ _ _ _ Hst)]
  | |- ends _ (mbind _ get) => apply ends_get; intros ? ?
  | |- ends _ (mbind _ _) => apply ends_bind; [|intros ?]
  | |- ends _ (match ?x with _ => _ end) => destruct x
  | |- ends _ (let _ := _ in _) => cbv zeta
  end.

(** ** The parts without recursion into other classes *)

Lemma ancestor_ends D m a : ends D (ILMethodSetVirtualAncestor method_at m a).
Proof. unfold ILMethodSetVirtualAncestor. ends_step. Qed.

Lemma vtable_ends D info parent l : ends D (layout_vtable depth members method_at info parent l).
Proof.
  unfold layout_vtable. cbv zeta. apply ends_bind.
  - apply ends_fold. intros b m _. unfold method_slot. ends_step; apply ancestor_ends.
  - intros l'. ends_step.
Qed.

Lemma interface_slots_ends D st info inherited vtable :
  ends D (interface_slots depth members method_at st info inherited vtable).
Proof. revert vtable. induction inherited as [|e inherited IH]; intros [|m vtable]; simpl; ends_step. apply IH. Qed.

Lemma interface_classes_edge c l i : interface_classes depth h c = Some l -> i ∈ l -> interface_edge h depth c i.
Proof.
  unfold interface_classes. intros Hl%mapM_Some Hi. apply list_elem_of_lookup in Hi as [k Hk].
  destruct (Forall2_lookup_r _ _ _ _ _ Hl Hk) as (q & Hq & E). exists q. split; [by eapply list_elem_of_lookup_2|].
  unfold resolved. by rewrite E.
Qed.

Lemma interface_table_ends D fuel info i :
  (class_rank i < fuel)%nat -> ends D (ComputeInterfaceTable depth members method_at fuel info i).
Proof.
  revert i. induction fuel as [|fuel IH]; intros i Hi; [lia|]. simpl. apply ends_get. intros st [Hh _].
  apply ends_bind; [apply ends_lift|intros p]. case_bool_decide; [apply ends_ret|].
  do 2 (apply ends_bind; [apply ends_lift|intros ?]). cbv zeta.
  apply ends_bind; [apply interface_slots_ends|intros table]. apply ends_bind; [ends_step|intros _].
  rewrite Hh. apply ends_lift_bind. intros l Hl. apply ends_fold. intros _ j Hj. apply IH.
  pose proof (ie_edge _ Hac _ _ (interface_classes_edge _ _ _ Hl Hj)). lia.
Qed.

Lemma interface_tables_ends D info : ends D (interface_tables depth members method_at info).
Proof.
  unfold interface_tables. apply ends_get. intros st [Hh _]. rewrite Hh. destruct (ILClass_IsInterface h info); [apply ends_ret|].
  apply ends_lift_bind. intros l Hl. apply ends_fold. intros _ i Hi. apply ends_get. intros st' _.
  destruct (userData st' !! i); [|apply ends_ret]. apply interface_table_ends.
  pose proof (ie_edge _ Hac _ _ (interface_classes_edge _ _ _ Hl Hi)). pose proof (ie_depth _ Hac info). lia.
Qed.

Lemma expanded_ends D record c : ends D (expanded depth record c).
Proof.
  unfold expanded. apply ends_get. intros st [Hh _]. rewrite Hh, (cl_plain _ HU). apply ends_ret.
Qed.

Lemma expanded_is D record c st Q : alive D st -> Q c st -> wp False (expanded depth record c) Q (fun _ => True) st.
Proof. intros [Hh _] HQ. unfold expanded. lay_step. lay_step. by rewrite Hh, (cl_plain _ HU). Qed.

(** ** The body *)

Section Body.
Variables (LT LC : Z -> lay LayoutInfo) (D : gset Z) (info : Z).
Hypothesis HLT : forall t, type_in U t -> ends D (LT t).
Hypothesis HLC : forall c, c ∈ U -> ends D (LC c).
Hypothesis Hinfo : info ∈ U.

Lemma parent_ends : ends D (layout_parent depth LC info).
Proof.
  unfold layout_parent. apply ends_get. intros st [Hh _]. rewrite Hh. apply ends_lift_bind.
  intros [p|] Hp; [|apply ends_ret]. intros st' Hst'. lay_step. eapply expanded_is; [done|].
  apply ends_bind; [apply HLC; by eapply (cl_parent _ HU)|intros l; apply ends_ret|done].
Qed.

Lemma interfaces_ends : ends D (layout_interfaces depth LC info).
Proof.
  unfold layout_interfaces. apply ends_get. intros st [Hh _]. rewrite Hh. apply ends_lift_bind. intros l Hl.
  apply ends_fold. intros _ [k i] Hki st' Hst'. lay_step. eapply expanded_is; [done|]. simpl.
  assert (i ∈ l) as Hi.
  { apply elem_of_lookup_imap in Hki as (j & y & [= -> ->] & Hy). by eapply list_elem_of_lookup_2. }
  apply ends_bind; [apply HLC; by eapply (cl_interface _ HU)|intros ?; apply ends_ret|done].
Qed.

Lemma body_ends : ends D (layout_body depth members method_at ILImageIsSecure LT LC info).
Proof.
  unfold layout_body. apply ends_bind; [apply parent_ends|intros [parent l]].
  apply ends_bind; [apply interfaces_ends|intros _].
  apply ends_bind; [unfold explicit_layout; ends_step|intros [[p e] a]].
  apply ends_bind.
  { apply ends_fold. intros s f Hf. unfold instance_field. destruct (is_static f); [apply ends_ret|].
    apply ends_bind; [apply HLT; by eapply (cl_field _ HU)|intros t]. destruct (place_field _ _ _ _ _). ends_step. }
  intros s. cbv zeta. apply ends_bind; [ends_step|intros _]. apply ends_bind; [apply vtable_ends|intros l1].
  apply ends_get. intros st _. apply ends_bind.
  { apply ends_fold. intros l2 f Hf. unfold static_field. destruct (_ && _); [|apply ends_ret].
    apply ends_bind; [ends_step|intros _]. destruct (_ && _); [apply ends_ret|].
    apply ends_bind; [apply HLT; by eapply (cl_field _ HU)|intros t]. ends_step. }
  intros l2. apply ends_bind; [ends_step|intros _]. apply ends_bind; [apply interface_tables_ends|intros _]. ends_step.
Qed.

End Body.

(** ** The recursion *)

Definition without_record (D : gset Z) : nat := size (U ∖ D).

Lemma without_record_less D c : c ∈ U -> c ∉ D -> (without_record ({[c]} ∪ D) < without_record D)%nat.
Proof. intros Hc Hn. unfold without_record. apply subset_size. set_solver. Qed.

Lemma strip_again fuel t s : ILTypeStripPrefixes h fuel t = Some s -> forall fuel', ILTypeStripPrefixes h fuel' s = Some s.
Proof.
  revert t. induction fuel as [|fuel IH]; intros t; simpl.
  - destruct (complex_type t && _) eqn:E; [done|]. intros [= <-] [|n]; simpl; by rewrite E.
  - destruct (complex_type t && _) eqn:E; [apply IH|]. intros [= <-] [|n]; simpl; by rewrite E.
Qed.

(** A type whose layout does not enter a class. *)
Lemma leaf_ends D fuel t s :
  ILTypeStripPrefixes h depth t = Some s -> ILType_IsValueType s = false ->
  ends D (LayoutType depth members method_at ILImageIsSecure fuel t).
Proof.
  intros Es Ev. destruct fuel; cbn [LayoutType]; apply ends_get; intros st [Hh _]; rewrite Hh; apply ends_lift_bind;
    rewrite Es; intros ? [= <-]; cbv zeta; rewrite Ev; ends_step.
Qed.

Lemma class_ends D n c :
  (forall t, type_in U t -> ends ({[c]} ∪ D) (LayoutType depth members method_at ILImageIsSecure n t)) ->
  (forall d, d ∈ U -> ends ({[c]} ∪ D) (LayoutClass depth members method_at ILImageIsSecure n d)) ->
  c ∈ U -> forall st, alive D st ->
  wp False (modify (set_userData (<[c := new_private]> (userData st)));;
            undo c (layout_body depth members method_at ILImageIsSecure
              (LayoutType depth members method_at ILImageIsSecure n)
              (LayoutClass depth members method_at ILImageIsSecure n) c))
    (fun _ st' => alive D st') (fun _ => True) st.
Proof.
  intros HLT HLC Hc st [Hh HD]. do 2 lay_step. apply wp_undo.
  eapply wp_mono; [| |eapply (body_ends _ _ _ c HLT HLC Hc)]; [|done|].
  - intros l st' [Hh' HD']. split; [done|set_solver].
  - split; [done|]. unfold classes in *. simpl. rewrite dom_insert_L. set_solver.
Qed.

Lemma layouts_end fuel D :
  (forall t, type_in U t -> (2 * without_record D + 1 <= fuel)%nat ->
     ends D (LayoutType depth members method_at ILImageIsSecure fuel t)) /\
  (forall c, c ∈ U -> (2 * without_record D <= fuel)%nat ->
     ends D (LayoutClass depth members method_at ILImageIsSecure fuel c)).
Proof.
  revert D. induction fuel as [|n IH]; intros D; (split; [intros t Ht Hf|intros c Hc Hf]); [lia|..].
  - intros st [Hh HD]. cbn [LayoutClass]. do 2 lay_step.
    destruct (userData st !! c) as [p|] eqn:E; [by destruct (p_inLayout p); lay_step|].
    exfalso. apply not_elem_of_dom in E. pose proof (without_record_less D c Hc). unfold classes in HD.
    assert (c ∉ D) as Hn by set_solver. specialize (H Hn). lia.
  - destruct (ILTypeStripPrefixes h depth t) as [s|] eqn:Es.
    2: { intros st [Hh HD]. cbn [LayoutType]. do 4 lay_step. rewrite Hh, Es. done. }
    destruct (ILType_IsValueType s) eqn:Ev; [|by eapply leaf_ends].
    cbn [LayoutType]. apply ends_get. intros st [Hh _]. rewrite Hh. apply ends_lift_bind. rewrite Es. intros ? [= <-].
    cbv zeta. rewrite Ev. destruct (ILType_IsPrimitive s); [ends_step|]. apply ends_lift_bind. intros c Ec.
    destruct (Z.eqb_spec (c_synthetic (class_at h c)) 0) as [E0|E0].
    + apply IH; [by eapply Ht|lia].
    + apply ends_lift_bind. intros syn Esyn. eapply leaf_ends; [by eapply strip_again|by eapply (cl_synthetic _ HU)].
  - intros st [Hh HD]. cbn [LayoutClass]. do 2 lay_step.
    destruct (userData st !! c) as [p|] eqn:E; [by destruct (p_inLayout p); lay_step|].
    apply not_elem_of_dom in E. pose proof (without_record_less D c Hc) as Hless. unfold classes in HD.
    assert (c ∉ D) as Hn by set_solver. specialize (Hless Hn).
    apply (class_ends D n c); [intros t Ht; apply IH; [done|lia]|intros d Hd; apply IH; [done|lia]|done|by split].
Qed.

Lemma wp_ends {A} (m : lay A) Q F st : wp False m Q F st -> m st <> None.
Proof. unfold wp. by destruct (m st). Qed.

Lemma LayoutClass_total fuel c st :
  heap st = h -> c ∈ U -> (2 * without_record (classes st) <= fuel)%nat ->
  LayoutClass depth members method_at ILImageIsSecure fuel c st <> None.
Proof. intros Hh Hc Hf. eapply wp_ends, layouts_end; [done..|by split]. Qed.

Lemma LayoutType_total fuel t st :
  heap st = h -> type_in U t -> (2 * without_record (classes st) + 1 <= fuel)%nat ->
  LayoutType depth members method_at ILImageIsSecure fuel t st <> None.
Proof. intros Hh Hc Hf. eapply wp_ends, layouts_end; [done..|by split]. Qed.

End Ends.
