(* ===== verification/LayoutVtable.v ===== *)
(** * Virtual method tables

    While layouts succeed: in the table of a class that is laid out the slot of
    each virtual method holds a method of its name and signature, and a slot of
    the parent's table holds a method of the name and signature that the parent
    has there.  So a virtual call through a slot of an ancestor reaches a method
    that it may call. *)
From Stdlib Require Import ZArith Lia String.
From stdpp Require Import base list option numbers gmap strings relations.
From S2P Require Import Prelude Opcodes Cvm JumpMask Scan Coder Types Metadata MetadataProps Layout LayoutSpec LayoutRun.

Local Open Scope Z_scope.

Section Vtable.
Context {PF : Platform} {LS : LayoutSizes}.
Variables (h : Heap) (depth : nat) (members : Z -> Members) (method_at : Z -> ILMethod).

(** Every method belongs to one class, no class has too many of them, no class
    needs to be expanded, and no class is still being loaded. *)
Record methods_ok (method_owner : Z -> Z) : Prop := {
  vo_owner c m : m ∈ methods (members c) -> method_owner m = c;
  vo_methods c : NoDup (methods (members c));
  vo_count c : Z.of_nat (length (methods (members c))) < 2 ^ 24;
  vo_plain c : ILClassNeedsExpansion h c = false;
  vo_redo : numRedoItems h = 0;
}.

Context {method_owner : Z -> Z} {link_rank class_rank type_rank : Z -> nat}.
Hypothesis Hmeta : methods_ok method_owner.
Hypothesis Hac : acyclic h depth link_rank class_rank type_rank.

(** ** Methods that may stand for each other *)

Definition method_matches (a b : Z) : Prop :=
  m_name (method_at a) = m_name (method_at b) /\
  type_tree_of h depth (m_signature (method_at a)) = type_tree_of h depth (m_signature (method_at b)).

#[export] Instance method_matches_equiv : Equivalence method_matches.
Proof.
  split.
  - by split.
  - intros a b [E1 E2]. by split.
  - intros a b c [E1 E2] [E3 E4]. split; congruence.
Qed.

Lemma same_method_matches a b : same_method depth method_at h a b = Some true -> method_matches b a.
Proof.
  unfold same_method. destruct (String.eqb_spec (m_name (method_at b)) (m_name (method_at a))) as [E|]; [|done].
  intros Hi. split; [done|].
  destruct (ILTypeIdentical_decides h depth Hac (vo_redo _ Hmeta) depth (m_signature (method_at b)) (m_signature (method_at a))
    (ac_type_depth _ _ _ _ _ Hac _)) as (r & Er & Hr). rewrite Hi in Er. injection Er as <-. by apply Hr.
Qed.

Lemma find_opt_some {A} (f : A -> option bool) l x : find_opt f l = Some (Some x) -> x ∈ l /\ f x = Some true.
Proof.
  induction l as [|y l IH]; simpl; [done|]. destruct (f y) as [[]|] eqn:E; cbn [mbind option_bind]; [..|done].
  - intros [= <-]. split; [left|done].
  - intros [? ?]%IH. split; [by right|done].
Qed.

(** An ancestor method is a virtual method of a class above, that matches. *)
Lemma FindVirtualAncestor_some fuel scope q m a :
  FindVirtualAncestor depth members method_at fuel h scope q m = Some (Some a) ->
  exists q', rtc (parent_edge h depth) q q' /\ a ∈ methods (members q') /\ is_virtual method_at a = true /\ method_matches a m.
Proof.
  revert q. induction fuel as [|fuel IH]; intros q; simpl; destruct (find_opt _ _) as [[b|]|] eqn:Ef; try done;
    cbn [mbind option_bind].
  1, 3: apply find_opt_some in Ef as [Hb Hm]; destruct (is_virtual method_at b) eqn:Ev; [|done];
    destruct (ILMemberAccessible _ _ _ _ _) as [[]|]; [|done..]; cbn [mbind option_bind]; intros [= <-];
    exists q; split; [apply rtc_refl|]; split; [done|]; split; [done|by apply same_method_matches].
  all: rewrite (parent_eq h depth Hac); cbn [mbind option_bind]; destruct (c_parent (class_at h q)) as [p|] eqn:Ep; [|done].
  - done.
  - cbn [fmap option_fmap option_map]. intros (q' & Hr & H)%IH. exists q'. split; [|done].
    eapply rtc_l; [|exact Hr]. by exists p.
Qed.

(** ** The invariant *)

Record table_ok (st : Engine) (c : Z) (p : ClassPrivate) : Prop := {
  to_size : p_vtableSize p = Z.of_nat (length (p_vtable p)) /\ p_vtableSize p <= 65535;
  (** Its own virtual methods are in their slots. *)
  to_own m : m ∈ methods (members c) -> is_virtual method_at m = true ->
    0 <= index_of st m /\ exists b, p_vtable p !! Z.to_nat (index_of st m) = Some b /\ method_matches b m;
  (** The slots of the parent are kept. *)
  to_parent q : parent_edge h depth c q -> exists pq, userData st !! q = Some pq /\ p_inLayout pq = false /\
    forall i b, p_vtable pq !! i = Some b -> exists b', p_vtable p !! i = Some b' /\ method_matches b' b;
}.

(** All tables, but that of [x]. *)
Record tables_ok (x : option Z) (st : Engine) : Prop := {
  ts_heap : heap st = h;
  ts_table c p : Some c <> x -> userData st !! c = Some p -> p_inLayout p = false -> table_ok st c p;
}.

(** Below [x] in the hierarchy, or anywhere. *)
Definition below (x : option Z) (c : Z) : Prop :=
  match x with Some i => (class_rank c < class_rank i)%nat | None => True end.

Lemma below_ne x c : below x c -> Some c <> x.
Proof. destruct x as [i|]; simpl; [|done]. intros H [= ->]. lia. Qed.

Lemma below_parent x c d : below x c -> parent_edge h depth c d -> below x d.
Proof.
  destruct x as [i|]; simpl; [|done]. intros H He. pose proof (ac_class _ _ _ _ _ Hac c d (or_introl He)). lia.
Qed.

(** Slots of an ancestor. *)
Lemma ancestor_slots x st c q p :
  tables_ok x st -> below x c -> rtc (parent_edge h depth) c q -> userData st !! c = Some p -> p_inLayout p = false ->
  below x q /\ exists pq, userData st !! q = Some pq /\ p_inLayout pq = false /\
    forall i b, p_vtable pq !! i = Some b -> exists b', p_vtable p !! i = Some b' /\ method_matches b' b.
Proof.
  intros Hok Hb Hr. revert Hb p. induction Hr as [c|c d q Hcd _ IH]; intros Hb p Hp Hl.
  - split; [done|]. exists p. split; [done|]. split; [done|]. intros i b Hi. by exists b.
  - destruct (to_parent _ _ _ (ts_table _ _ Hok _ _ (below_ne _ _ Hb) Hp Hl) _ Hcd) as (pd & Hpd & Hld & Hslots).
    destruct (IH (below_parent _ _ _ Hb Hcd) pd Hpd Hld) as (Hbq & pq & Hpq & Hlq & Hup). split; [done|].
    exists pq. split; [done|]. split; [done|].
    intros i b (b1 & Hb1 & Hm1)%Hup. destruct (Hslots i b1 Hb1) as (b2 & Hb2 & Hm2). exists b2. split; [done|].
    by transitivity b1.
Qed.

(** A matching ancestor has its slot in the parent's table. *)
Lemma ancestor_index x st fuel scope p pp m a :
  tables_ok x st -> below x p -> userData st !! p = Some pp -> p_inLayout pp = false ->
  FindVirtualAncestor depth members method_at fuel h scope p m = Some (Some a) ->
  0 <= index_of st a /\ exists b, p_vtable pp !! Z.to_nat (index_of st a) = Some b /\ method_matches b m.
Proof.
  intros Hok Hbp Hp Hl (q & Hr & Ha & Hv & Hm)%FindVirtualAncestor_some.
  destruct (ancestor_slots _ _ _ _ _ Hok Hbp Hr Hp Hl) as (Hbq & pq & Hpq & Hlq & Hup).
  destruct (to_own _ _ _ (ts_table _ _ Hok _ _ (below_ne _ _ Hbq) Hpq Hlq) a Ha Hv) as (H0 & b & Hb & Hmb).
  split; [done|]. destruct (Hup _ _ Hb) as (b' & Hb' & Hmb'). exists b'. split; [done|].
  transitivity b; [done|]. by transitivity a.
Qed.

(** ** The slots of a class *)

Section Slots.
Variables (info : Z) (vt : list Z).

(** The parent has the table [vt], or there is no parent and no table. *)
Definition parent_has (parent : option Z) (st : Engine) : Prop :=
  match parent with
  | Some p => below (Some info) p /\ exists pp, userData st !! p = Some pp /\ p_inLayout pp = false /\ p_vtable pp = vt
  | None => vt = []
  end.

Abbreviation n0 := (Z.of_nat (length vt)).

(** The index of a method after its turn: a new one of its own, or one of the
    parent's slots that matches. *)
Definition slot_given (st : Engine) (size : Z) (pre : list Z) (m : Z) : Prop :=
  let i := index_of st m in
  n0 <= i < size /\ (forall m', m' ∈ pre -> is_virtual method_at m' = true -> index_of st m' = i -> m' = m) \/
  0 <= i /\ exists b, vt !! Z.to_nat i = Some b /\ method_matches b m.

Record slots_done (parent : option Z) (pre : list Z) (l : LayoutInfo) (st : Engine) : Prop := {
  sd_tables : tables_ok (Some info) st;
  sd_parent : parent_has parent st;
  sd_size : n0 <= l_vtableSize l <= n0 + Z.of_nat (length pre);
  sd_vtable : l_vtable l = vt;
  sd_slots m : m ∈ pre -> is_virtual method_at m = true -> slot_given st (l_vtableSize l) pre m;
}.

Lemma index_of_set m i st m' : index_of (set_index m i st) m' = if decide (m = m') then i else index_of st m'.
Proof. unfold index_of. simpl. rewrite lookup_insert. by case_decide. Qed.

(** An index of a method of the class does not touch other tables. *)
Lemma tables_set_index m i st :
  method_owner m = info -> tables_ok (Some info) st -> tables_ok (Some info) (set_index m i st).
Proof.
  intros Hm [Hh Ht]. split; [done|]. intros c p Hc Hp Hl. specialize (Ht c p Hc Hp Hl). destruct Ht as [Hs Ho Hpar].
  split; [done| |done]. intros m' Hm' Hv. rewrite index_of_set, decide_False; [by apply Ho|].
  intros <-. apply Hc. rewrite <-(vo_owner _ Hmeta _ _ Hm'). by rewrite Hm.
Qed.

Lemma tables_same x st st' :
  heap st' = heap st -> userData st' = userData st -> method_index st' = method_index st -> tables_ok x st -> tables_ok x st'.
Proof.
  intros Eh Eu Ei [Hh Ht]. split; [congruence|]. intros c p Hc Hp Hl. rewrite Eu in Hp. destruct (Ht c p Hc Hp Hl) as [Hs Ho Hpar].
  split; [done| |]; unfold index_of; rewrite ?Ei, ?Eu; done.
Qed.

(** A method gets a new slot. *)
Lemma new_slot_done parent pre m l st :
  method_owner m = info -> m ∉ pre -> l_vtableSize l < 2 ^ 30 -> slots_done parent pre l st ->
  slots_done parent (pre ++ [m]) (with_vtable_size l (u32 (l_vtableSize l + 1))) (set_index m (l_vtableSize l) st).
Proof.
  intros Hm Hfresh Hsz [Ht Hp Hs Hv Hg].
  assert (u32 (l_vtableSize l + 1) = l_vtableSize l + 1) as E by (unfold u32; apply Z.mod_small; lia).
  split; simpl; rewrite ?E; [by apply tables_set_index|exact Hp|rewrite length_app; simpl; lia|done|].
  intros m' [Hm'|Hm']%elem_of_app Hv'.
  - destruct (decide (m = m')) as [<-|Hne]; [done|]. destruct (Hg m' Hm' Hv') as [[Hi Hu]|[Hi Hb]].
    + left. rewrite index_of_set, decide_False by done. split; [lia|].
      intros m2 [Hm2|Hm2]%elem_of_app Hv2; rewrite index_of_set.
      * case_decide as Ed; [by subst m2|]. intros Ei. by apply Hu.
      * apply list_elem_of_singleton in Hm2 as ->. rewrite decide_True by done. lia.
    + right. by rewrite index_of_set, decide_False.
  - apply list_elem_of_singleton in Hm' as ->. left. rewrite index_of_set, decide_True by done. split; [lia|].
    intros m2 [Hm2|Hm2]%elem_of_app Hv2; rewrite index_of_set; [|by apply list_elem_of_singleton in Hm2].
    case_decide as Ed; [done|]. intros Ei. exfalso. destruct (Hg m2 Hm2 Hv2) as [[Hi _]|[Hi (b & Hb & _)]]; [lia|].
    apply lookup_lt_Some in Hb. lia.
Qed.

(** A method takes the slot of an ancestor. *)
Lemma ancestor_slot_done p pre m a l st :
  method_owner m = info -> m ∉ pre -> slots_done (Some p) pre l st ->
  FindVirtualAncestor depth members method_at depth h info p m = Some (Some a) ->
  slots_done (Some p) (pre ++ [m]) l (set_index m (index_of st a) st).
Proof.
  intros Hm Hfresh [Ht (Hbelow & pp & Hp & Hl & Evt) Hs Hv Hg] Ha.
  destruct (ancestor_index _ _ _ _ _ _ _ _ Ht Hbelow Hp Hl Ha) as (Hi0 & b & Hb & Hmb). rewrite Evt in Hb.
  split; [by apply tables_set_index|split; [done|by exists pp]|rewrite length_app; lia|done|].
  intros m' [Hm'|Hm']%elem_of_app Hv'.
  - destruct (decide (m = m')) as [<-|Hne]; [done|]. destruct (Hg m' Hm' Hv') as [[Hi Hu]|[Hi Hbm]].
    + left. rewrite index_of_set, decide_False by done. split; [lia|].
      intros m2 [Hm2|Hm2]%elem_of_app Hv2; rewrite index_of_set.
      * case_decide as Ed; [by subst m2|]. intros Ei. by apply Hu.
      * apply list_elem_of_singleton in Hm2 as ->. rewrite decide_True by done. apply lookup_lt_Some in Hb. lia.
    + right. by rewrite index_of_set, decide_False.
  - apply list_elem_of_singleton in Hm' as ->. right. rewrite index_of_set, decide_True by done. split; [done|by exists b].
Qed.

Lemma slots_same parent pre l l' st st' :
  l_vtableSize l' = l_vtableSize l -> l_vtable l' = l_vtable l ->
  heap st' = heap st -> userData st' = userData st -> method_index st' = method_index st ->
  slots_done parent pre l st -> slots_done parent pre l' st'.
Proof.
  intros Es Ev Eh Eu Ei [Ht Hp Hs Hv Hg]. split.
  - by apply (tables_same _ st).
  - unfold parent_has in *. by rewrite Eu.
  - by rewrite Es.
  - by rewrite Ev.
  - intros m Hm Hvm. specialize (Hg m Hm Hvm). unfold slot_given, index_of in *. by rewrite Es, Ei.
Qed.

Lemma slots_skip parent pre m l st :
  is_virtual method_at m = false -> slots_done parent pre l st -> slots_done parent (pre ++ [m]) l st.
Proof.
  intros Hnv [Ht Hp Hs Hv Hg]. split; [done..|rewrite length_app; lia|done|].
  intros m' [Hm'|Hm']%elem_of_app Hv'; [|apply list_elem_of_singleton in Hm' as ->; congruence].
  destruct (Hg m' Hm' Hv') as [[Hi Hu]|?]; [left|by right]. split; [done|].
  intros m2 [Hm2|Hm2]%elem_of_app Hv2; [by apply Hu|]. apply list_elem_of_singleton in Hm2 as ->. congruence.
Qed.

Lemma slot_step parent pre m l st :
  method_owner m = info -> m ∉ pre -> l_vtableSize l < 2 ^ 30 -> slots_done parent pre l st ->
  wlp (method_slot depth members method_at info parent l m) (slots_done parent (pre ++ [m])) (fun _ => True) st.
Proof.
  intros Hm Hfresh Hsz Hd. unfold method_slot. destruct (is_virtual method_at m) eqn:Ev; cbn [negb].
  2: { apply wp_ret. by apply slots_skip. }
  do 2 lay_step. rewrite (ts_heap _ _ (sd_tables _ _ _ _ Hd)).
  set (l' := if is_finalizer method_at h m then set_finalizer l else l).
  assert (l_vtableSize l' = l_vtableSize l /\ l_vtable l' = l_vtable l) as [E1 E2] by (unfold l'; by case_match).
  assert (slots_done parent pre l' st) as Hd' by (by eapply slots_same; [..|exact Hd]). rewrite <-E1 in Hsz. clearbody l'. clear Hd E1 E2.
  unfold ILMethodSetVirtualAncestor. destruct (negb _).
  { do 3 lay_step. case_match; do 2 lay_step; (eapply slots_same; [..|apply new_slot_done; [exact Hm|exact Hfresh|exact Hsz|exact Hd']]; done). }
  do 2 lay_step. intros a Ha. lay_step.
  apply wp_mono with (Q := fun _ st' => slots_done parent pre l' st' /\ method_index st' = method_index st)
    (F := fun _ => True); [|done|].
  2: { destruct (m_virtual_generic _); [apply wp_modify|by apply wp_ret]. split; [|done]. eapply slots_same; [..|exact Hd']; done. }
  intros [] st' [Hd1 Ei]. destruct a as [a|].
  - destruct parent as [p|]; [|done]. do 3 lay_step. unfold index_of at 1. rewrite <-Ei. by apply ancestor_slot_done.
  - do 5 lay_step. apply new_slot_done; try done. eapply slots_same; [..|exact Hd1]; done.
Qed.

Lemma slots_loop parent l st :
  l_vtable l = vt -> l_vtableSize l = n0 -> n0 <= 65535 -> tables_ok (Some info) st -> parent_has parent st ->
  wlp (fold_lay (method_slot depth members method_at info parent) l (methods (members info)))
    (slots_done parent (methods (members info))) (fun _ => True) st.
Proof.
  intros Ev Es Hn Ht Hp. apply (wp_fold _ (slots_done parent)).
  - split; [done|done|simpl; lia|done|]. by intros m ?%elem_of_nil.
  - intros pre m rest l' st' Hms Hd. pose proof (vo_count _ Hmeta info) as Hc. pose proof (vo_methods _ Hmeta info) as Hnd.
    rewrite Hms in Hc, Hnd. rewrite length_app in Hc. simpl in Hc. apply slot_step; [| | |done].
    + apply (vo_owner _ Hmeta). rewrite Hms. set_solver.
    + apply stdpp.list_relations.list.NoDup_app in Hnd as (_ & Hdis & _). intros Hin. apply (Hdis _ Hin). left.
    + pose proof (sd_size _ _ _ _ Hd). lia.
Qed.

(** *** Filling the table *)

Lemma override_slots_lookup st ms V :
  length (override_slots method_at st ms V) = length V /\
  forall i, (i < length V)%nat ->
    (exists m, m ∈ ms /\ is_virtual method_at m = true /\ Z.to_nat (index_of st m) = i /\
       override_slots method_at st ms V !! i = Some m) \/
    (override_slots method_at st ms V !! i = V !! i /\
     forall m, m ∈ ms -> is_virtual method_at m = true -> Z.to_nat (index_of st m) <> i).
Proof.
  unfold override_slots. induction ms as [|m ms [IHl IH]] using rev_ind.
  { split; [done|]. intros i _. right. split; [done|]. by intros m ?%elem_of_nil. }
  rewrite foldl_app. cbn [foldl]. destruct (is_virtual method_at m) eqn:Ev.
  - split; [by rewrite length_insert|]. intros i Hi. destruct (decide (Z.to_nat (index_of st m) = i)) as [E|Hne].
    + left. exists m. split; [set_solver|]. split; [done|]. split; [done|]. rewrite E. apply list_lookup_insert_eq. lia.
    + rewrite list_lookup_insert_ne by done. destruct (IH i Hi) as [(m' & Hm' & ? & ? & ?)|[HV Hno]].
      * left. exists m'. split; [set_solver|done].
      * right. split; [done|]. intros m' [Hm'|Hm']%elem_of_app Hv'; [by apply Hno|].
        by apply list_elem_of_singleton in Hm' as ->.
  - split; [done|]. intros i Hi. destruct (IH i Hi) as [(m' & Hm' & ? & ? & ?)|[HV Hno]].
    + left. exists m'. split; [set_solver|done].
    + right. split; [done|]. intros m' [Hm'|Hm']%elem_of_app Hv'; [by apply Hno|].
      apply list_elem_of_singleton in Hm' as ->. congruence.
Qed.

(** The slots of the finished table. *)
Lemma filled_slots parent l st :
  slots_done parent (methods (members info)) l st ->
  let F := override_slots method_at st (methods (members info)) (new_vtable n0 l) in
  Z.of_nat (length F) = l_vtableSize l /\
  (forall m, m ∈ methods (members info) -> is_virtual method_at m = true ->
    0 <= index_of st m /\ exists b, F !! Z.to_nat (index_of st m) = Some b /\ method_matches b m) /\
  (forall i b, vt !! i = Some b -> exists b', F !! i = Some b' /\ method_matches b' b).
Proof.
  intros [_ _ Hs Hv Hg] F. set (V := new_vtable n0 l) in *.
  assert (length V = Z.to_nat (l_vtableSize l)) as HlV.
  { unfold V, new_vtable. rewrite length_app, length_take, repeat_length, Hv. lia. }
  destruct (override_slots_lookup st (methods (members info)) V) as [HlF HF]. fold F in HlF, HF.
  split; [lia|]. split.
  - intros m Hm Hvm. specialize (Hg m Hm Hvm) as Hgm.
    assert (0 <= index_of st m < l_vtableSize l) as Hi.
    { destruct Hgm as [[? _]|[? (b & Hb & _)]]; [lia|]. apply lookup_lt_Some in Hb. lia. }
    split; [lia|]. destruct (HF (Z.to_nat (index_of st m)) ltac:(lia)) as [(m' & Hm' & Hv' & Ei & HFm)|[_ Hno]].
    2: { by destruct (Hno m Hm Hvm). }
    exists m'. split; [done|]. specialize (Hg m' Hm' Hv') as Hgm'.
    assert (index_of st m' = index_of st m) as E.
    { destruct Hgm' as [[? _]|[? _]]; lia. }
    destruct Hgm as [[? Hu]|[? (b & Hb & Hmb)]]; [by rewrite (Hu m' Hm' Hv' E)|].
    destruct Hgm' as [[? _]|[? (b' & Hb' & Hmb')]]; [apply lookup_lt_Some in Hb; lia|].
    rewrite E, Hb in Hb'. injection Hb' as <-. by transitivity b.
  - intros i b Hb. pose proof (lookup_lt_Some _ _ _ Hb) as Hi.
    destruct (HF i ltac:(lia)) as [(m' & Hm' & Hv' & Ei & HFm)|[HFV _]].
    + exists m'. split; [done|]. destruct (Hg m' Hm' Hv') as [[? _]|[? (b' & Hb' & Hmb')]]; [lia|].
      rewrite Ei, Hb in Hb'. injection Hb' as <-. done.
    + exists b. split; [|done]. rewrite HFV. unfold V, new_vtable. rewrite Hv, lookup_app_l.
      * rewrite lookup_take_lt by lia. done.
      * rewrite length_take. lia.
Qed.

End Slots.
End Vtable.
