(* ===== verification/LayoutTables.v ===== *)
(** * Layouts keep the virtual method tables in order

    The induction over the recursion of layout.c for the invariant of
    LayoutVtable.v: a layout that succeeds leaves the tables of the classes that
    were laid out before, and adds tables that are in order. *)
From Stdlib Require Import ZArith Lia String.
From stdpp Require Import base list option numbers gmap strings relations.
From S2P Require Import Prelude Opcodes Cvm JumpMask Scan Coder Types Metadata MetadataProps Layout LayoutSpec LayoutRun LayoutRefine LayoutVtable.

Local Open Scope Z_scope.

Section Tables.
Context {PF : Platform} {LS : LayoutSizes}.
Variables (h : Heap) (depth : nat) (members : Z -> Members) (method_at : Z -> ILMethod).
Variable ILImageIsSecure : Z -> bool.
Context {method_owner : Z -> Z} {link_rank class_rank type_rank : Z -> nat}.
Hypothesis Hmeta : methods_ok h members method_owner.
Hypothesis Hac : acyclic h depth link_rank class_rank type_rank.

Abbreviation tables_ok := (LayoutVtable.tables_ok h depth members method_at).

(** ** What runs leave *)

Definition table_part (p : ClassPrivate) : Z * list Z * bool := (p_vtableSize p, p_vtable p, p_inLayout p).
Definition table_of_class (st : Engine) (c : Z) := table_part <$> userData st !! c.

Record table_frame (D : gset Z) (st st' : Engine) : Prop := {
  tf_tables c : c ∈ D -> table_of_class st' c = table_of_class st c;
  tf_index m : method_owner m ∈ D -> index_of st' m = index_of st m;
}.

#[local] Instance table_frame_refl D : Reflexive (table_frame D).
Proof. by split. Qed.
#[local] Instance table_frame_trans D : Transitive (table_frame D).
Proof. intros x y z [H1 H2] [H3 H4]. split; intros i Hi; [by rewrite H3, H1|by rewrite H4, H2]. Qed.

Lemma table_frame_mono D D' st st' : D ⊆ D' -> table_frame D' st st' -> table_frame D st st'.
Proof. intros Hs [H1 H2]. split; intros i Hi; [apply H1|apply H2]; set_solver. Qed.

(** Everything of the tables stays. *)
Record still (st st' : Engine) : Prop := {
  sl_heap : heap st' = heap st;
  sl_tables c : table_of_class st' c = table_of_class st c;
  sl_index m : index_of st' m = index_of st m;
}.

#[local] Instance still_refl : Reflexive still.
Proof. by split. Qed.
#[local] Instance still_trans : Transitive still.
Proof. intros x y z [A1 A2 A3] [B1 B2 B3]. split; [congruence|intros c; by rewrite B2, A2|intros m; by rewrite B3, A3]. Qed.

Lemma still_update info f st : (forall p, table_part (f p) = table_part p) -> still st (update_private info f st).
Proof.
  intros Hf. split; [done| |done]. intros c. unfold table_of_class. simpl. rewrite lookup_alter.
  case_decide as E; [subst c|done]. destruct (userData st !! info); simpl; [|done]. by rewrite Hf.
Qed.

Lemma still_frame D st st' : still st st' -> table_frame D st st'.
Proof. intros [_ H1 H2]. split; intros i _; [apply H1|apply H2]. Qed.

Lemma table_of_class_some st st' c p :
  table_of_class st' c = table_of_class st c -> userData st !! c = Some p ->
  exists p', userData st' !! c = Some p' /\ table_part p' = table_part p.
Proof.
  unfold table_of_class. intros E Hp. rewrite Hp in E. destruct (userData st' !! c) as [p'|]; [|done].
  exists p'. split; [done|]. by apply (inj Some) in E.
Qed.

Lemma table_parts p p' : table_part p = table_part p' ->
  p_vtableSize p = p_vtableSize p' /\ p_vtable p = p_vtable p' /\ p_inLayout p = p_inLayout p'.
Proof. by intros [= -> -> ->]. Qed.

(** A table that is in order stays in order where the classes and methods that
    it speaks of stay. *)
Lemma table_ok_frame D st st' c p p' :
  table_frame D st st' -> classes st ⊆ D -> userData st !! c = Some p -> table_part p' = table_part p ->
  table_ok h depth members method_at st c p -> table_ok h depth members method_at st' c p'.
Proof.
  intros [Hft Hfi] HD Hp (Es & Ev & El)%table_parts [Hs Ho Hpar].
  assert (c ∈ D) as Hc by (apply HD, elem_of_dom; by exists p). split.
  - by rewrite Es, Ev.
  - intros m Hm Hv. rewrite Hfi, Ev; [by apply Ho|]. by rewrite (vo_owner _ _ _ Hmeta _ _ Hm).
  - intros q Hq. destruct (Hpar q Hq) as (pq & Hpq & Hlq & Hslots).
    assert (q ∈ D) as Hqd by (apply HD, elem_of_dom; by exists pq).
    destruct (table_of_class_some _ _ _ _ (Hft q Hqd) Hpq) as (pq' & Hpq' & (_ & Evq & Elq)%table_parts).
    exists pq'. split; [done|]. split; [congruence|]. rewrite Evq, Ev. exact Hslots.
Qed.

Lemma still_ok x st st' : still st st' -> tables_ok x st -> tables_ok x st'.
Proof.
  intros Hst [Hh Ht]. split; [rewrite (sl_heap _ _ Hst); done|]. intros c p' Hc Hp' Hl.
  destruct (table_of_class_some st' st c p' (eq_sym (sl_tables _ _ Hst c)) Hp') as (p & Hp & E).
  pose proof (table_parts _ _ E) as (_ & _ & El).
  eapply (table_ok_frame (classes st) st st' c p p'); [by apply still_frame|done|done|done|]. apply Ht; [done..|congruence].
Qed.

(** ** What a call promises *)

Definition table_call (st st' : Engine) : Prop := tables_ok None st' /\ table_frame (classes st) st st'.

Definition type_tables (m : Z -> lay LayoutInfo) : Prop := forall t st, tables_ok None st ->
  wlp (m t) (fun _ st' => table_call st st') (fun _ => True) st.
Definition class_tables (m : Z -> lay LayoutInfo) : Prop := forall c st, tables_ok None st ->
  wlp (m c) (fun l st' => table_call st st' /\ exists p, userData st' !! c = Some p /\
    table_part p = (l_vtableSize l, l_vtable l, false)) (fun _ => True) st.

Section Body.
Variables (LT LC : Z -> lay LayoutInfo).
Hypothesis HLT : type_tables LT.
Hypothesis HLC : class_tables LC.
Variables (info : Z) (st0 : Engine).
Hypothesis Hnew : info ∉ classes st0.

(** Inside of the body of [info], whose record has this table. *)
Record within (r : Z * list Z * bool) (st : Engine) : Prop := {
  wi_ok : tables_ok None st;
  wi_frame : table_frame (classes st0) st0 st;
  wi_record : table_of_class st info = Some r;
}.

Lemma within_class r st : within r st -> info ∈ classes st.
Proof.
  intros [_ _ Hr]. unfold table_of_class in Hr. apply elem_of_dom. destruct (userData st !! info); [by eexists|done].
Qed.

Lemma frame_grows st st' : table_frame (classes st) st st' -> classes st ⊆ classes st'.
Proof.
  intros [H _] c Hc. specialize (H c Hc). unfold classes in *. rewrite elem_of_dom in Hc |- *. destruct Hc as [p Hp].
  destruct (table_of_class_some _ _ _ _ H Hp) as (p' & ? & _). by exists p'.
Qed.

Lemma within_call r st st' : within r st -> table_call st st' -> within r st'.
Proof.
  intros Hin [Hok' Hf']. pose proof (within_class _ _ Hin) as Hc. destruct Hin as [Hok Hf Hr]. split; [done| |].
  - transitivity st; [done|]. eapply table_frame_mono; [by apply frame_grows|done].
  - by rewrite (tf_tables _ _ _ Hf').
Qed.

Lemma within_still r st st' : within r st -> still st st' -> within r st'.
Proof.
  intros Hin Hs. apply (within_call r st); [done|]. split; [eapply still_ok; [done|apply Hin]|by apply still_frame].
Qed.

Lemma expanded_same record c Q F st : heap st = h -> Q c st -> wlp (expanded depth record c) Q F st.
Proof. intros Hh HQ. unfold expanded. lay_step. lay_step. by rewrite Hh, (vo_plain _ _ _ Hmeta). Qed.

(** *** The parent *)

Lemma parent_class_edge c p : GetParentClass h depth c = Some (Some p) <-> parent_edge h depth c p.
Proof.
  rewrite (parent_eq h depth Hac). unfold parent_edge. destruct (c_parent (class_at h c)) as [q|]; simpl; split.
  - intros [= <-]. by exists q.
  - by intros (q' & [= <-] & <-).
  - done.
  - by intros (q' & ? & _).
Qed.

(** The table of the parent, which the class starts from. *)
Definition starts_from (parent : option Z) (l : LayoutInfo) (st : Engine) : Prop :=
  parent_has (class_rank := class_rank) info (l_vtable l) parent st /\
  l_vtableSize l = Z.of_nat (length (l_vtable l)) /\ l_vtableSize l <= 65535 /\ GetParentClass h depth info = Some parent.

Lemma starts_from_call parent l st st' : starts_from parent l st -> table_call st st' -> starts_from parent l st'.
Proof.
  intros (Hp & H) [_ Hf]. split; [|exact H]. destruct parent as [p|]; [|done]. simpl in *.
  destruct Hp as (Hb & pp & Hpp & Hl & Hv). split; [done|].
  assert (p ∈ classes st) as Hpc by (apply elem_of_dom; by exists pp).
  destruct (table_of_class_some _ _ _ _ (tf_tables _ _ _ Hf p Hpc) Hpp) as (pp' & Hpp' & (_ & Ev & El)%table_parts).
  exists pp'. split; [done|]. split; congruence.
Qed.

Lemma tables_parent r st :
  within r st ->
  wlp (layout_parent depth LC info) (fun pl st' => within r st' /\ starts_from pl.1 pl.2 st') (fun _ => True) st.
Proof.
  intros Hin. unfold layout_parent. do 4 lay_step. rewrite (ts_heap _ _ _ _ _ _ (wi_ok _ _ Hin)).
  intros [p|] Hp; [|by lay_step]. lay_step. apply expanded_same; [apply Hin|]. lay_step.
  eapply wp_mono; [| |apply HLC, Hin]; [|done]. intros l st' (Hcall & pp & Hpp & Et).
  lay_step. split; [by eapply within_call|]. pose proof Et as [= Es Ev El].
  destruct (ts_table _ _ _ _ _ _ (proj1 Hcall) p pp) as [[Hs1 Hs2] _ _]; [done..|].
  split; simpl; [|split; [congruence|split; [lia|done]]].
  apply parent_class_edge in Hp. split; [exact (ac_class _ _ _ _ _ Hac _ _ (or_introl Hp))|by exists pp].
Qed.

Lemma tables_interfaces r parent l st :
  within r st -> starts_from parent l st ->
  wlp (layout_interfaces depth LC info) (fun _ st' => within r st' /\ starts_from parent l st') (fun _ => True) st.
Proof.
  intros Hin Hst. unfold layout_interfaces. do 4 lay_step. intros interfaces _.
  apply (wp_fold _ (fun _ _ st' => within r st' /\ starts_from parent l st')); [done|].
  intros pre [k i] rest [] st' _ [Hin' Hst']. lay_step. apply expanded_same; [apply Hin'|]. lay_step.
  eapply wp_mono; [| |apply HLC, Hin']; [|done]. intros l' st'' (Hcall & _). lay_step.
  split; [by eapply within_call|by eapply starts_from_call].
Qed.

Lemma starts_from_still parent l l' st st' :
  l_vtable l' = l_vtable l -> l_vtableSize l' = l_vtableSize l -> still st st' -> tables_ok None st ->
  starts_from parent l st -> starts_from parent l' st'.
Proof.
  intros Ev Es Hs Hok H. unfold starts_from. rewrite Ev, Es. apply (starts_from_call _ _ st); [done|].
  split; [by eapply still_ok|by apply still_frame].
Qed.

Lemma place_field_table p a s f t s' o :
  place_field p a s f t = (s', o) ->
  l_vtable (fs_layout s') = l_vtable (fs_layout s) /\ l_vtableSize (fs_layout s') = l_vtableSize (fs_layout s).
Proof. unfold place_field. destruct (if a then f_layout f else None); intros [= <- _]; simpl; by case_match. Qed.

Lemma tables_fields r parent p a s st :
  within r st -> starts_from parent (fs_layout s) st ->
  wlp (fold_lay (instance_field LT p a) s (fields (members info)))
    (fun s' st' => within r st' /\ starts_from parent (fs_layout s') st') (fun _ => True) st.
Proof.
  intros Hin Hst. apply (wp_fold _ (fun _ s' st' => within r st' /\ starts_from parent (fs_layout s') st')); [done|].
  intros pre f rest s1 st1 _ [Hin1 Hst1]. unfold instance_field. destruct (is_static f); [by lay_step|]. lay_step.
  eapply wp_mono; [| |apply HLT, Hin1]; [|done]. intros t st2 Hcall. cbv beta.
  destruct (place_field p a s1 f t) as [s2 o] eqn:Ep. apply place_field_table in Ep as [Ev Es]. do 3 lay_step.
  pose proof (within_call _ _ _ Hin1 Hcall) as Hin2. assert (still st2 (set_offset (f_id f) o st2)) as Hs by done.
  split; [by eapply within_still|]. eapply starts_from_still; [exact Ev|exact Es|exact Hs|apply Hin2|].
  by eapply starts_from_call.
Qed.

(** *** The table of the class *)

Lemma no_child r st c p :
  within (r, true) st -> userData st !! c = Some p -> p_inLayout p = false -> ~ parent_edge h depth c info.
Proof.
  intros [Hok _ Hr] Hp Hl He. destruct (to_parent _ _ _ _ _ _ _ (ts_table _ _ _ _ _ _ Hok c p ltac:(done) Hp Hl) _ He) as (pq & Hpq & Hlq & _).
  unfold table_of_class in Hr. rewrite Hpq in Hr. apply (inj Some) in Hr. unfold table_part in Hr. congruence.
Qed.

(** The records stay, and the indexes of other classes' methods. *)
Record slots_only (st st' : Engine) : Prop := {
  so_user : userData st' = userData st;
  so_index m : method_owner m <> info -> index_of st' m = index_of st m;
}.

#[local] Instance slots_only_refl : Reflexive slots_only.
Proof. by split. Qed.
#[local] Instance slots_only_trans : Transitive slots_only.
Proof. intros x y z [A1 A2] [B1 B2]. split; [congruence|]. intros m Hm. by rewrite B2, A2. Qed.

Lemma slots_only_set m i st : method_owner m = info -> slots_only st (set_index m i st).
Proof. intros Hm. split; [done|]. intros m' Hm'. rewrite index_of_set, decide_False; [done|]. by intros <-. Qed.

Lemma slots_only_loop parent l :
  leaves slots_only (fold_lay (method_slot depth members method_at info parent) l (methods (members info))).
Proof.
  assert (forall ms, (forall m, m ∈ ms -> method_owner m = info) ->
    forall l, leaves slots_only (fold_lay (method_slot depth members method_at info parent) l ms)) as H.
  { induction ms as [|m ms IH]; intros Hms l0; simpl; [apply leaves_ret|].
    apply leaves_bind; [|intros b; apply IH; intros m' Hm'; apply Hms; by right].
    assert (method_owner m = info) by (apply Hms; left).
    unfold method_slot, ILMethodSetVirtualAncestor. leaves_step; first [by apply slots_only_set|by split]. }
  apply H. intros m. apply (vo_owner _ _ _ Hmeta).
Qed.

(** Its record when the slots are given out. *)
Lemma tables_for_slots r lf st :
  within (r, true) st -> tables_ok (Some info) (update_private info (record_instance lf) st).
Proof.
  intros Hin. pose proof (wi_ok _ _ Hin) as [Hh Ht]. split; [done|]. intros c p Hc Hp Hl. simpl in Hp.
  rewrite lookup_alter_ne in Hp by congruence.
  pose proof (no_child _ _ _ _ Hin Hp Hl) as Hno. destruct (Ht c p ltac:(done) Hp Hl) as [Hs Ho Hpar]. split; [done|done|].
  intros q Hq. destruct (Hpar q Hq) as (pq & Hpq & Hlq & Hslots). exists pq. split; [|done].
  simpl. rewrite lookup_alter_ne; [done|]. by intros <-.
Qed.

Lemma parent_has_update parent vt f st :
  parent_has (class_rank := class_rank) info vt parent st -> parent_has (class_rank := class_rank) info vt parent (update_private info f st).
Proof.
  destruct parent as [p|]; [|done]. intros (Hb & pp & Hpp & H). split; [done|]. exists pp. split; [|done].
  simpl. rewrite lookup_alter_ne; [done|]. intros <-. simpl in Hb. lia.
Qed.

(** The table is filled and recorded. *)
Lemma table_recorded r lf st st2 parent l2 :
  within (r, true) st -> GetParentClass h depth info = Some parent -> l_vtableSize l2 <= 65535 ->
  slots_only (update_private info (record_instance lf) st) st2 ->
  slots_done h depth members method_at (class_rank := class_rank) info (l_vtable l2) parent (methods (members info)) l2 st2 ->
  let F := override_slots method_at st2 (methods (members info)) (new_vtable (Z.of_nat (length (l_vtable l2))) l2) in
  within (l_vtableSize l2, F, false) (update_private info (record_vtable l2 F) st2).
Proof.
  intros Hin Hpar Hsize [Hu Hidx] Hd F. destruct (filled_slots h depth members method_at Hmeta Hac info _ _ _ _ Hd) as (HlF & Hown & Hinh). fold F in HlF, Hown, Hinh.
  pose proof (sd_tables _ _ _ _ _ _ _ _ _ _ Hd) as [Hh Ht].
  pose proof (wi_record _ _ Hin) as Hr. unfold table_of_class in Hr. destruct (userData st !! info) as [p0|] eqn:Ep0; [|done].
  assert (u16 (l_vtableSize l2) = l_vtableSize l2) as Eu by (unfold u16; apply Z.mod_small; lia).
  assert (forall c, c <> info -> userData st2 !! c = userData st !! c) as Hother.
  { intros c Hc. rewrite Hu. simpl. by rewrite lookup_alter_ne by congruence. }
  split.
  - split; [done|]. intros c p _ Hp Hl. destruct (decide (c = info)) as [->|Hc].
    + simpl in Hp. rewrite lookup_alter_eq, Hu in Hp. simpl in Hp. rewrite lookup_alter_eq, Ep0 in Hp. injection Hp as <-.
      split; simpl; [rewrite Eu; lia|exact Hown|]. intros q Hq. pose proof (proj2 (parent_class_edge _ _) Hq) as Eq.
      rewrite Hpar in Eq. injection Eq as ->. destruct (sd_parent _ _ _ _ _ _ _ _ _ _ Hd) as (Hb & pq & Hpq & Hlq & Evq).
      simpl in Hb. exists pq. split; [rewrite lookup_alter_ne; [done|intros <-; lia]|]. split; [done|]. rewrite Evq. exact Hinh.
    + simpl in Hp. rewrite lookup_alter_ne in Hp by congruence. destruct (Ht c p ltac:(congruence) Hp Hl) as [Hs Ho Hpp].
      rewrite Hother in Hp by done. pose proof (no_child _ _ _ _ Hin Hp Hl) as Hno.
      split; [done|done|]. intros q Hq. destruct (Hpp q Hq) as (pq & Hpq & H). exists pq. split; [|done].
      simpl. rewrite lookup_alter_ne; [done|]. by intros <-.
  - destruct (wi_frame _ _ Hin) as [Hft Hfi]. split.
    + intros c Hc. rewrite <-Hft by done. assert (c <> info) by (by intros ->). unfold table_of_class. simpl.
      rewrite lookup_alter_ne, Hother by congruence. done.
    + intros m Hm. rewrite <-Hfi by done. change (index_of st2 m = index_of st m). rewrite Hidx; [done|]. by intros E; rewrite E in Hm.
  - unfold table_of_class. simpl. rewrite lookup_alter_eq, Hu. simpl. rewrite lookup_alter_eq, Ep0. simpl.
    unfold table_part. simpl. by rewrite Eu.
Qed.

Lemma vtable_part r parent lf st :
  within (r, true) st -> starts_from parent lf st ->
  wlp (layout_vtable depth members method_at info parent lf)
    (fun l' st' => within (l_vtableSize l', l_vtable l', false) st') (fun _ => True)
    (update_private info (record_instance lf) st).
Proof.
  intros Hin (Hp & Es & Hsz & Hpar). unfold layout_vtable. cbv zeta. lay_step.
  eapply wp_mono; [| |apply wp_and; [apply (slots_only_loop parent lf)|
    apply (slots_loop h depth members method_at Hmeta Hac info (l_vtable lf) parent lf)]]; [|done|done|done|lia| |].
  2: by eapply tables_for_slots.
  2: by apply parent_has_update.
  intros l2 st2 [Hso Hd]. pose proof (sd_vtable _ _ _ _ _ _ _ _ _ _ Hd) as Ev. destruct (Z.ltb_spec 65535 (l_vtableSize l2)); [done|].
  do 5 lay_step. rewrite <-Ev in Hd. rewrite Es, <-Ev. simpl.
  by eapply (table_recorded r lf st st2 parent l2).
Qed.

(** *** Static fields and interface tables *)

Definition same_vtable (l l' : LayoutInfo) : Prop := l_vtable l' = l_vtable l /\ l_vtableSize l' = l_vtableSize l.

Lemma tables_statics r secure l st :
  within r st ->
  wlp (fold_lay (static_field LT secure) l (fields (members info))) (fun l' st' => within r st' /\ same_vtable l l')
    (fun _ => True) st.
Proof.
  intros Hin. apply (wp_fold _ (fun _ l' st' => within r st' /\ same_vtable l l')); [done|].
  intros pre f rest l1 st1 _ [Hin1 [E1 E2]]. unfold static_field. destruct (_ && negb _); [|by lay_step]. lay_step.
  apply wp_mono with (Q := fun _ => within r) (F := fun _ => True); [|done|].
  2: { destruct (_ && _); [apply wp_modify; by eapply within_still|by apply wp_ret]. }
  intros [] st2 Hin2. destruct (_ && _); [by lay_step|]. lay_step.
  eapply wp_mono; [| |apply HLT, Hin2]; [|done]. intros t st3 Hcall. pose proof (within_call _ _ _ Hin2 Hcall) as Hin3.
  cbv beta. do 2 lay_step. destruct (f_thread_static f).
  - do 5 lay_step. split; [by eapply within_still|done].
  - do 3 lay_step. split; [by eapply within_still|done].
Qed.

Lemma interface_tables_still : leaves still (interface_tables depth members method_at info).
Proof. apply leaves_interface_tables; [apply _..|]. intros. by apply still_update. Qed.

Lemma body_part st :
  within (0, [], true) st ->
  wlp (layout_body depth members method_at ILImageIsSecure LT LC info)
    (fun l st' => within (l_vtableSize l, l_vtable l, false) st') (fun _ => True) st.
Proof.
  intros Hin. unfold layout_body. lay_step. eapply wp_mono; [| |by apply tables_parent]; [|done].
  intros [parent l] st1 [Hin1 Hst1]. simpl in Hst1. lay_step. eapply wp_mono; [| |by apply tables_interfaces]; [|done].
  intros [] st2 [Hin2 Hst2]. lay_step. unfold explicit_layout. do 2 lay_step. destruct (explicit_of _ _ _ _) as [[[p e] a]|]; [|done].
  lay_step. lay_step. eapply wp_mono; [| |apply (tables_fields (0, [], true) parent p a (mk_field_state l 1 1)); done]; [|done].
  intros s st3 [Hin3 Hst3]. cbv zeta. do 3 lay_step. eapply wp_mono; [| |eapply vtable_part; [exact Hin3|exact Hst3]]; [|done].
  intros l1 st4 Hin4. cbv beta. do 3 lay_step. eapply wp_mono; [| |apply tables_statics, Hin4]; [|done].
  intros l2 st5 [Hin5 [E1 E2]]. cbv beta. do 3 lay_step.
  eapply wp_mono; [| |apply interface_tables_still]; [|done]. intros [] st6 Hs6. do 3 lay_step. rewrite E1, E2.
  apply (within_still _ st6); [|by split]. eapply within_still; [|exact Hs6]. eapply within_still; [exact Hin5|]. by apply still_update.
Qed.

End Body.

(** ** Layouts *)

Lemma new_record_within st info :
  tables_ok None st -> info ∉ classes st ->
  within info st (0, [], true) (set_userData (<[info := new_private]> (userData st)) st).
Proof.
  intros [Hh Ht] Hnew. split.
  - split; [done|]. intros c p _ Hp Hl. simpl in Hp. rewrite lookup_insert in Hp. case_decide as E; [by simplify_eq|].
    destruct (Ht c p ltac:(done) Hp Hl) as [Hs Ho Hpar]. split; [done|done|]. intros q Hq.
    destruct (Hpar q Hq) as (pq & Hpq & H). exists pq. split; [|done]. simpl. rewrite lookup_insert_ne; [done|].
    intros <-. apply Hnew, elem_of_dom. by exists pq.
  - split; [|done]. intros c Hc. unfold table_of_class. simpl. rewrite lookup_insert_ne; [done|]. by intros <-.
  - unfold table_of_class. simpl. by rewrite lookup_insert_eq.
Qed.

Lemma class_tables_step LT LC :
  type_tables LT -> class_tables LC -> forall c st, tables_ok None st -> userData st !! c = None ->
  wlp (modify (set_userData (<[c := new_private]> (userData st)));;
       undo c (layout_body depth members method_at ILImageIsSecure LT LC c))
    (fun l st' => table_call st st' /\ exists p, userData st' !! c = Some p /\
      table_part p = (l_vtableSize l, l_vtable l, false)) (fun _ => True) st.
Proof.
  intros HLT HLC c st Hok Hnone. do 2 lay_step. apply wp_undo.
  assert (c ∉ classes st) as Hnew by (by apply not_elem_of_dom).
  eapply wp_mono; [| |apply (body_part LT LC HLT HLC c st Hnew), new_record_within; done]; [|done].
  intros l st' [Hok' Hf Hr]. split; [done|]. unfold table_of_class in Hr. destruct (userData st' !! c) as [p|]; [|done].
  exists p. split; [done|]. by apply (inj Some) in Hr.
Qed.

Lemma class_tables_spec fuel :
  (forall n, fuel = S n -> type_tables (LayoutType depth members method_at ILImageIsSecure n) /\
     class_tables (LayoutClass depth members method_at ILImageIsSecure n)) ->
  class_tables (LayoutClass depth members method_at ILImageIsSecure fuel).
Proof.
  intros IH c st Hok. assert (forall p, userData st !! c = Some p -> p_inLayout p = false ->
    wlp (mret (info_of p)) (fun l st' => table_call st st' /\ exists p', userData st' !! c = Some p' /\
      table_part p' = (l_vtableSize l, l_vtable l, false)) (fun _ => True) st) as Hrec.
  { intros p Hp Hl. apply wp_ret. split; [done|]. exists p. split; [done|]. unfold table_part. by rewrite Hl. }
  destruct fuel as [|n]; cbn [LayoutClass]; do 2 lay_step; specialize (Hrec (default new_private (userData st !! c)));
    (destruct (userData st !! c) as [p|] eqn:Ep; [destruct (p_inLayout p) eqn:El; [done|by apply Hrec]|]); [done|].
  destruct (IH n eq_refl) as [HLT HLC]. by apply class_tables_step.
Qed.

Lemma layouts_tables fuel :
  type_tables (LayoutType depth members method_at ILImageIsSecure fuel) /\
  class_tables (LayoutClass depth members method_at ILImageIsSecure fuel).
Proof.
  induction fuel as [|n [IHt IHc]].
  - split; [|by apply class_tables_spec]. intros t st Hok. cbn [LayoutType]. do 4 lay_step. intros s Es. cbv zeta.
    destruct (ILType_IsPrimitive s); [by destruct (primitive_size _)|]. by destruct (ILType_IsValueType s).
  - split; [|apply class_tables_spec; intros ? [= <-]; done]. intros t st Hok. cbn [LayoutType]. do 4 lay_step. intros s Es.
    cbv zeta. destruct (ILType_IsPrimitive s); [by destruct (primitive_size _)|].
    destruct (ILType_IsValueType s); [|done]. do 2 lay_step. intros c Ec. destruct (_ =? 0).
    + eapply wp_mono; [|done|by apply IHc]. by intros l st' [? _].
    + do 2 lay_step. intros syn Esyn. by apply IHt.
Qed.

End Tables.
