(* ===== verification/LayoutTheorems.v ===== *)
(** * Theorems on layouts

    What LayoutSpec.v .. LayoutTables.v show, put together: objects whose
    fields do not overlap, virtual slots that keep their methods, layouts that
    end and layouts that are refused; and two limits, sizes that wrap around and
    a class whose parent is gone. *)
From Stdlib Require Import ZArith Lia String.
From stdpp Require Import base list option numbers gmap strings relations.
From S2P Require Import Prelude Opcodes Cvm JumpMask Scan Coder CoderBranch Types Metadata MetadataProps CoderVar Verify VerifyVar VerifyBranch ILSpec CvmProps Refine ILVars Frame SetupFrame MetadataLibrary Layout LayoutSpec LayoutRun LayoutRefine LayoutEnds LayoutVtable LayoutTables.

Local Open Scope Z_scope.

Section Helpers.
Context {PF : Platform} {LS : LayoutSizes}.
Variables (h : Heap) (depth : nat) (members : Z -> Members) (method_at : Z -> ILMethod).
Variable ILImageIsSecure : Z -> bool.
Context {field_owner : Z -> Z}.
Hypothesis Hmeta : metadata_ok h members field_owner.
Hypothesis Hsizes : sizes_ok.

Lemma layout_done fuel c st l st' :
  layouts_ok h depth members ILImageIsSecure st ->
  LayoutClass depth members method_at ILImageIsSecure fuel c st = Some (Done l st') ->
  layouts_ok h depth members ILImageIsSecure st' /\
  exists o, class_layout_is h depth members ILImageIsSecure c (instance_part l) o.
Proof.
  intros Hok E. destruct (layouts_spec h depth members method_at ILImageIsSecure Hmeta Hsizes fuel) as [_ HC].
  specialize (HC c st Hok). unfold wp in HC. rewrite E in HC. destruct HC as [[? _] ?]. done.
Qed.

Lemma layout_failed fuel c st st' :
  layouts_ok h depth members ILImageIsSecure st ->
  LayoutClass depth members method_at ILImageIsSecure fuel c st = Some (Failed st') ->
  layouts_ok h depth members ILImageIsSecure st'.
Proof.
  intros Hok E. destruct (layouts_spec h depth members method_at ILImageIsSecure Hmeta Hsizes fuel) as [_ HC].
  specialize (HC c st Hok). unfold wp in HC. rewrite E in HC. by destruct HC.
Qed.

(** ** Classes that contain themselves *)

(** The layout of [c] needs that of [d]: its parent, or the class of a value
    type of an instance field. *)
Definition needs (c d : Z) : Prop :=
  GetParentClass h depth c = Some (Some d) \/
  exists f s, f ∈ LayoutSpec.instance_fields (fields (members c)) /\
    ILTypeStripPrefixes h depth (f_signature f) = Some s /\ ILType_IsValueType s = true /\
    ILClassResolve h depth (ILType_ToValueType s) = Some d /\ c_synthetic (class_at h d) = 0.

Lemma ref_fields_all layout p a so fs r f :
  ref_fields layout p a so fs = Some r -> f ∈ LayoutSpec.instance_fields fs -> is_Some (layout (f_signature f)).
Proof.
  revert so. induction fs as [|g fs IH]; intros so; [by intros _ ?%elem_of_nil|]. simpl. rewrite instance_fields_cons.
  unfold ref_field. destruct (is_static g); cbn [mbind option_bind]; [apply IH|].
  destruct (layout (f_signature g)) as [t|] eqn:Et; [|done]. cbn [mbind option_bind].
  destruct (place_field _ _ _ _ _). cbn [mbind option_bind]. intros Hr [->|Hf]%elem_of_cons; [by exists t|by eapply IH].
Qed.

(** A reference layout needs less fuel for what the class needs. *)
Lemma needs_less n c d :
  is_Some (ref_class h depth members ILImageIsSecure (S n) c) -> needs c d ->
  is_Some (ref_class h depth members ILImageIsSecure n d).
Proof.
  intros [r Hr] Hn. rewrite ref_class_S in Hr. destruct (GetParentClass h depth c) as [parent|] eqn:Ep; [|done].
  cbn [mbind option_bind] in Hr. destruct (match parent with Some _ => _ | None => _ end) as [b|] eqn:Eb; [|done].
  cbn [mbind option_bind] in Hr. destruct (explicit_of _ _ _ _) as [[[p e] a]|]; [|done]. cbn [mbind option_bind] in Hr.
  destruct (ref_fields _ _ _ _ _) as [[s o]|] eqn:Ef; [|done].
  destruct Hn as [Hp|(f & t & Hf & Es & Ev & Ec & E0)].
  - rewrite Ep in Hp. injection Hp as ->. by destruct (ref_class h depth members ILImageIsSecure n d).
  - destruct (ref_fields_all _ _ _ _ _ _ _ Ef Hf) as [l Hl]. destruct (value_flags _ Ev) as [Epr _]. destruct n as [|n].
    + simpl in Hl. rewrite Es in Hl. cbn [mbind option_bind] in Hl. by rewrite Epr, Ev in Hl.
    + rewrite ref_type_S, Es in Hl. cbn [mbind option_bind] in Hl. rewrite Epr, Ev, Ec in Hl. cbn [mbind option_bind] in Hl.
      rewrite E0 in Hl. cbn [Z.eqb] in Hl. destruct (ref_class h depth members ILImageIsSecure n d) as [r'|] eqn:E; [|done].
      rewrite (ref_class_mono _ _ _ _ n (S n) _ _ ltac:(lia) E). by eexists.
Qed.

Lemma needs_path n c d : tc needs c d -> is_Some (ref_class h depth members ILImageIsSecure (S n) c) ->
  is_Some (ref_class h depth members ILImageIsSecure n d).
Proof.
  intros Ht. revert n. induction Ht as [c d Hcd|c e d Hce _ IH]; intros n Hc; [by eapply needs_less|].
  pose proof (needs_less _ _ _ Hc Hce) as He. destruct n as [|n]; [by destruct He|].
  apply IH in He as [r Hr]. exists r. by apply ref_mono_S.
Qed.

Lemma no_layout_of_loop c l o : tc needs c c -> ~ class_layout_is h depth members ILImageIsSecure c l o.
Proof.
  intros Ht [n Hn]. assert (is_Some (ref_class h depth members ILImageIsSecure n c)) as H by (by eexists).
  clear Hn. induction n as [|n IH]; [by destruct H|]. apply IH. by apply (needs_path n c c).
Qed.

End Helpers.

(** ** Instances *)

(** C6: Laid out classes have objects whose fields do not overlap, as long as
    sizes stay below 2^32. In any state that layouts leave, also those that
    failed, take a class that is laid out without an explicit layout, its
    parent and the types of its instance fields. When the size of the parent
    and those of all fields, with the room to align them, sum up to less than
    2^32 (beyond, sizes wrap: [layout_size_wraps]), the offsets that the
    engine has stored for the fields are aligned for their types, one after
    the other, after the end of the parent and before the end of the object,
    and the size of the object is a multiple of its alignment; and the same of
    the native offsets under the same condition. *)
Theorem laid_out_fields_placed {PF : Platform} {LS : LayoutSizes} h depth members ILImageIsSecure field_owner st c p b ts :
  metadata_ok h members field_owner -> sizes_ok -> layouts_ok h depth members ILImageIsSecure st ->
  userData st !! c = Some p -> p_inLayout p = false ->
  explicit_of members ILImageIsSecure h c = Some (0, 0, false) ->
  class_base h depth members ILImageIsSecure c b -> field_types h depth members ILImageIsSecure c ts ->
  exists o, Forall (fun fo => field_offset st !! fst fo = Some (snd fo)) o /\
    map fst o = map f_id (LayoutSpec.instance_fields (fields (members c))) /\
    (l_size b + room (map size_align ts) + p_alignment p < 2 ^ 32 ->
     well_placed (l_size b) (p_size p) (p_alignment p) (map size_align ts) (map fst (map snd o))) /\
    (l_nativeSize b + room (map native_size_align ts) + p_nativeAlignment p < 2 ^ 32 ->
     well_placed (l_nativeSize b) (p_nativeSize p) (p_nativeAlignment p) (map native_size_align ts) (map snd (map snd o))).
Proof.
  intros Hm Hs Hok Hp Hl He Hb Hts. destruct (lo_recorded _ _ _ _ _ Hok c p Hp Hl) as (o & Hc & Ho). exists o. split.
  - apply Forall_forall. intros [f os] Hin. by apply Ho.
  - exact (class_fields_placed h depth members ILImageIsSecure Hs c _ o b ts Hc He Hb Hts).
Qed.

(** C7: The layout of a class is the reference layout.  From any state that
    layouts leave, a layout that succeeds returns the sizes and alignments of
    the reference layout, which knows neither the order of layouts nor
    interfaces nor statics, and records them with the offsets of the fields; and
    whether it succeeds or fails, the records of all classes that are laid out
    are those of their reference layouts. *)
Theorem LayoutClass_refines {PF : Platform} {LS : LayoutSizes} h depth members method_at ILImageIsSecure field_owner
    fuel c st r :
  metadata_ok h members field_owner -> sizes_ok -> layouts_ok h depth members ILImageIsSecure st ->
  LayoutClass depth members method_at ILImageIsSecure fuel c st = Some r ->
  match r with
  | Done l st' => layouts_ok h depth members ILImageIsSecure st' /\
      exists o, class_layout_is h depth members ILImageIsSecure c (instance_part l) o
  | Failed st' => layouts_ok h depth members ILImageIsSecure st'
  | Crashed => True
  end.
Proof.
  intros Hm Hs Hok E. destruct r as [l st'|st'|]; [by eapply layout_done|by eapply layout_failed|done].
Qed.

(** C10: A class that contains itself is refused.  When the layout of a class
    needs the layout of the class again, through parents and through instance
    fields of value types, it never succeeds. *)
Theorem layout_loop_refused {PF : Platform} {LS : LayoutSizes} h depth members method_at ILImageIsSecure field_owner
    fuel c st l st' :
  metadata_ok h members field_owner -> sizes_ok -> layouts_ok h depth members ILImageIsSecure st ->
  tc (needs h depth members) c c ->
  LayoutClass depth members method_at ILImageIsSecure fuel c st <> Some (Done l st').
Proof.
  intros Hm Hs Hok Ht E. destruct (layout_done _ _ _ _ _ Hm Hs _ _ _ _ _ Hok E) as [_ [o Ho]].
  by eapply no_layout_of_loop.
Qed.

(** C9: Every layout ends.  In a finite set of classes that refer to each other
    only, two units of fuel for each class that has no record yet are enough,
    whatever loops there are among parents and fields: the run returns, fails,
    or follows a null pointer. *)
Theorem LayoutClass_ends {PF : Platform} {LS : LayoutSizes} h depth members method_at ILImageIsSecure U
    rank fuel c st :
  closed h depth members U -> interfaces_end h depth rank ->
  heap st = h -> c ∈ U -> (2 * size (U ∖ classes st) <= fuel)%nat ->
  LayoutClass depth members method_at ILImageIsSecure fuel c st <> None.
Proof. intros HU Hac Hh Hc Hf. by eapply LayoutClass_total. Qed.

(** C8: Virtual calls reach methods of the right name and signature.  A layout
    that succeeds leaves the tables in order: for every class that is laid out,
    every ancestor of it, itself included, and every virtual method of the
    ancestor, the slot of the method in the table of the class holds a method
    of the same name and of an identical signature. *)
Theorem virtual_slots_match {PF : Platform} {LS : LayoutSizes} h depth members method_at ILImageIsSecure method_owner
    link_rank class_rank type_rank fuel info st l st' :
  methods_ok h members method_owner -> acyclic h depth link_rank class_rank type_rank ->
  tables_ok h depth members method_at None st ->
  LayoutClass depth members method_at ILImageIsSecure fuel info st = Some (Done l st') ->
  tables_ok h depth members method_at None st' /\
  forall c p q m, userData st' !! c = Some p -> p_inLayout p = false -> rtc (parent_edge h depth) c q ->
    m ∈ methods (members q) -> is_virtual method_at m = true ->
    exists m', p_vtable p !! Z.to_nat (index_of st' m) = Some m' /\ method_matches h depth method_at m' m.
Proof.
  intros Hm Hac Hok E. destruct (layouts_tables h depth members method_at ILImageIsSecure Hm Hac fuel) as [_ HC].
  specialize (HC info st Hok). unfold wp in HC. rewrite E in HC. destruct HC as [[Hok' _] _]. split; [done|].
  intros c p q m Hp Hl Hr Hin Hv.
  destruct (ancestor_slots h depth members method_at Hac None st' c q p Hok' I Hr Hp Hl) as (_ & pq & Hpq & Hlq & Hup).
  destruct (to_own _ _ _ _ _ _ _ (ts_table _ _ _ _ _ _ Hok' q pq ltac:(done) Hpq Hlq) m Hin Hv) as (_ & b & Hb & Hmb).
  destruct (Hup _ _ Hb) as (b' & Hb' & Hmb'). exists b'. split; [done|]. by transitivity b.
Qed.

(** ** The sizes of the coder *)

Section Sizes.
Context {PF : Platform} {LS : LayoutSizes}.
Variables (depth : nat) (members : Z -> Members) (method_at : Z -> ILMethod).
Variable ILImageIsSecure : Z -> bool.

Lemma primitive_layout fuel type sa st :
  ILType_IsPrimitive type = true -> primitive_size (ILType_ToElement type) = Some sa ->
  LayoutType depth members method_at ILImageIsSecure fuel type st =
    Some (Done (simple_layout sa (ILType_ToElement type =? IL_META_ELEMTYPE_TYPEDBYREF)) st).
Proof.
  intros Hp Hs. destruct fuel; cbn [LayoutType]; unfold mbind, lay_bind, get, lift; rewrite (primitive_stripped _ _ _ Hp), Hp;
    by rewrite Hs.
Qed.

(** The size of the type of an integer variable, in bytes. *)
Definition vt_size (t : vtype) : Z :=
  match t with V_U1 => 1 | V_I4 => 4 | V_I8 => 8 | V_I => if IL_NATIVE_INT64 then 8 else 4 end.

Lemma vtype_size elem t :
  fst ffi_type_uint64 = 8 -> elem_vtype elem = Some t -> exists sa, primitive_size elem = Some sa /\ fst sa = vt_size t.
Proof.
  intros H8 He. unfold primitive_size, memb.
  destruct (elem_vtype_cases _ _ He) as [[-> E]|[[-> E]|[[-> E]|[-> E]]]]; destruct E as [-> | ->]; unfold vt_size; cbn;
    destruct IL_NATIVE_INT64; cbn; by eexists.
Qed.

Lemma words_vt_size t : words (vt_size t) = vt_words t.
Proof.
  unfold words, vt_words, vt_width, words_of, native.
  destruct sizeof_CVMWord_ok as [[E N]|[E|E]]; unfold CVM_WORDS_PER_LONG; rewrite ?N, E;
    destruct t; unfold vt_size; rewrite ?N; try reflexivity; destruct IL_NATIVE_INT64; reflexivity.
Qed.

Lemma integer_type_size fuel type t st :
  fst ffi_type_uint64 = 8 -> vtype_of type = Some t ->
  GetTypeSize depth members method_at ILImageIsSecure fuel type st = Some (Done (vt_words t) st).
Proof.
  intros H8 [Hp He]%VarSound.vtype_primitive. destruct (vtype_size _ _ H8 He) as (sa & Es & Esz).
  unfold GetTypeSize, _ILSizeOfTypeLocked, mbind, lay_bind. rewrite (primitive_layout _ _ sa) by done.
  cbn. by rewrite Esz, words_vt_size.
Qed.

End Sizes.

(** C11: The sizes that the coder asks for are those of the slots.  For the
    types of integer variables [GetTypeSize], over the layout of the type,
    returns the number of words of a slot and leaves the engine as it was: what
    the set-up of methods assumes of it holds. *)
Theorem GetTypeSize_fits {PF : Platform} {LS : LayoutSizes} depth members method_at ILImageIsSecure fuel st :
  fst ffi_type_uint64 = 8 ->
  (forall type t, vtype_of type = Some t ->
     GetTypeSize depth members method_at ILImageIsSecure fuel type st = Some (Done (vt_words t) st)) /\
  sizes_fine (fun type =>
    match GetTypeSize depth members method_at ILImageIsSecure fuel type st with Some (Done n _) => n | _ => 0 end).
Proof.
  intros H8. split; [intros type t Ht; by apply integer_type_size|].
  intros type t Ht. by rewrite (integer_type_size _ _ _ _ _ _ _ _ H8 Ht).
Qed.

(** ** An example

    The classes of the small image with members: Object with ToString, the
    interface with Foo, a class with five fields, two of them static, that
    overrides ToString and has Foo, a class with the value type of it as a
    field; and a class with itself as a field. *)
#[local] Instance sizes_x86_64 : LayoutSizes := {|
  ffi_type_uint64 := (8, 8); ffi_type_float := (4, 4); ffi_type_double := (8, 8); native_float := (16, 16);
  ffi_type_pointer := (8, 8); sizeof_ILTypedRef := 16 |}.

Definition instance_of (id type : Z) : ILField := mk_field id 1 type None false false.
Definition static_of (id type : Z) : ILField := mk_field id 0x11 type None false false.

Definition small_members (c : Z) : Members :=
  if c =? 0x10 then mk_members [] [1] [] None
  else if c =? 0x20 then mk_members [] [3] [] None
  else if c =? 0x30 then
    mk_members [instance_of 1 ILType_Int32; instance_of 2 ILType_UInt8; static_of 3 ILType_UInt8;
      instance_of 4 ILType_Int64; static_of 5 ILType_Int32] [2; 4] [] None
  else if c =? 0x40 then mk_members [instance_of 6 ILType_UInt8; instance_of 7 (0x30 + 3)] [] [] None
  else if c =? 0x70 then mk_members [instance_of 8 (0x70 + 3)] [] [] None
  else mk_members [] [] [] None.

Definition small_method (m : Z) : ILMethod :=
  if m =? 1 then mk_method 0x146 "ToString" ILType_Void None false
  else if m =? 2 then mk_method 0x46 "ToString" ILType_Void None false
  else mk_method 0x146 "Foo" ILType_Void None false.

Definition small_field_owner (f : Z) : Z := if f <=? 5 then 0x30 else if f <=? 7 then 0x40 else 0x70.
Definition small_method_owner (m : Z) : Z := if m =? 1 then 0x10 else if m =? 3 then 0x20 else 0x30.

Abbreviation small_layout := (LayoutClass (PF := x86_64) (LS := sizes_x86_64) 3 small_members small_method (fun _ => false)).

Definition new_engine (h : Heap) : Engine := mk_engine h ∅ ∅ ∅ ∅ ∅ ∅ 0 [].

Lemma new_layouts_ok {PF : Platform} {LS : LayoutSizes} h depth members secure : layouts_ok h depth members secure (new_engine h).
Proof. split; [done|]. intros c p Hp. simpl in Hp. by rewrite lookup_empty in Hp. Qed.

Lemma new_tables_ok h depth members method_at : tables_ok h depth members method_at None (new_engine h).
Proof. split; [done|]. intros c p _ Hp. simpl in Hp. by rewrite lookup_empty in Hp. Qed.

Lemma sizes_x86_64_ok : sizes_ok (PF := x86_64) (LS := sizes_x86_64).
Proof.
  split; (split; [by vm_compute|split; [unfold good_alignment; by repeat constructor|by apply Z.mod_divide]]).
Qed.

Lemma small_metadata_ok : metadata_ok small_heap small_members small_field_owner.
Proof.
  split.
  - intros c f. unfold small_members. small_cases c; simpl; rewrite ?elem_of_cons, elem_of_nil; intros Hf;
      repeat (destruct Hf as [->|Hf]; [done|]); done.
  - intros c. unfold small_members. small_cases c; simpl; repeat constructor; rewrite ?elem_of_cons, elem_of_nil; lia.
  - intros c. unfold ILClassNeedsExpansion. cbn. unfold small_class. by small_cases c.
Qed.

Lemma small_methods_ok : methods_ok small_heap small_members small_method_owner.
Proof.
  split; [..|done].
  - intros c m. unfold small_members. small_cases c; simpl; rewrite ?elem_of_cons, elem_of_nil; intros Hm;
      repeat (destruct Hm as [->|Hm]; [done|]); done.
  - intros c. unfold small_members. small_cases c; simpl; repeat constructor; rewrite ?elem_of_cons, elem_of_nil; lia.
  - intros c. unfold small_members. by small_cases c.
  - intros c. unfold ILClassNeedsExpansion. cbn. unfold small_class. by small_cases c.
Qed.

(** The state after the layout of the class 0x40. *)
Definition laid_out : option (LayoutInfo * Engine) :=
  match small_layout 8 0x40 (new_engine small_heap) with Some (Done l st) => Some (l, st) | _ => None end.
Definition laid_out_state : Engine := default (new_engine small_heap) (snd <$> laid_out).
Definition laid_out_layout : LayoutInfo := default top_layout (fst <$> laid_out).

Lemma laid_out_eq : small_layout 8 0x40 (new_engine small_heap) = Some (Done laid_out_layout laid_out_state).
Proof. vm_compute. reflexivity. Qed.

Lemma LayoutClass_refines_witness :
  layouts_ok (PF := x86_64) (LS := sizes_x86_64) small_heap 3 small_members (fun _ => false) laid_out_state /\
  exists o, class_layout_is (PF := x86_64) (LS := sizes_x86_64) small_heap 3 small_members (fun _ => false) 0x40
    (instance_part laid_out_layout) o.
Proof.
  exact (LayoutClass_refines (PF := x86_64) (LS := sizes_x86_64) small_heap 3 small_members small_method (fun _ => false)
    small_field_owner 8 0x40 (new_engine small_heap) _ small_metadata_ok sizes_x86_64_ok (new_layouts_ok _ _ _ _) laid_out_eq).
Defined.

Lemma layout_loop_refused_witness : ~ exists l st', small_layout 8 0x70 (new_engine small_heap) = Some (Done l st').
Proof.
  intros (l & st' & E). revert E.
  apply (layout_loop_refused (PF := x86_64) (LS := sizes_x86_64) small_heap 3 small_members small_method (fun _ => false)
    small_field_owner 8 0x70 _ l st' small_metadata_ok sizes_x86_64_ok (new_layouts_ok _ _ _ _)).
  apply tc_once. right. exists (instance_of 8 (0x70 + 3)), (0x70 + 3). split; [by left|done].
Defined.

Lemma laid_out_layouts_ok :
  layouts_ok (PF := x86_64) (LS := sizes_x86_64) small_heap 3 small_members (fun _ => false) laid_out_state.
Proof.
  eapply (layout_done (PF := x86_64) (LS := sizes_x86_64) small_heap 3 small_members small_method (fun _ => false)
    small_metadata_ok sizes_x86_64_ok 8 0x40 (new_engine small_heap)); [apply new_layouts_ok|exact laid_out_eq].
Qed.

(** The record of the class 0x30 and the layouts that it starts from. *)
Definition record_0x30 : ClassPrivate := default new_private (userData laid_out_state !! 0x30).

Lemma base_0x30 :
  class_base (PF := x86_64) (LS := sizes_x86_64) small_heap 3 small_members (fun _ => false) 0x30 top_layout.
Proof. right. exists 0x10, []. split; [by vm_compute|]. exists 3%nat. by vm_compute. Qed.

Lemma types_0x30 :
  field_types (PF := x86_64) (LS := sizes_x86_64) small_heap 3 small_members (fun _ => false) 0x30
    [simple_layout (4, 4) false; simple_layout (1, 1) false; simple_layout (8, 8) false].
Proof. repeat constructor; exists 1%nat; by vm_compute. Qed.

Lemma laid_out_fields_placed_witness :
  exists o, Forall (fun fo => field_offset laid_out_state !! fst fo = Some (snd fo)) o /\ map fst o = [1; 2; 4] /\
    well_placed 0 16 8 [(4, 4); (1, 1); (8, 8)] (map fst (map snd o)).
Proof.
  destruct (laid_out_fields_placed (PF := x86_64) (LS := sizes_x86_64) small_heap 3 small_members (fun _ => false)
    small_field_owner laid_out_state 0x30 record_0x30 top_layout _ small_metadata_ok sizes_x86_64_ok laid_out_layouts_ok
    ltac:(vm_compute; reflexivity) ltac:(vm_compute; reflexivity) eq_refl base_0x30 types_0x30) as (o & H1 & H2 & H3 & _).
  exists o. split; [exact H1|split; [exact H2|]]. apply H3. vm_compute. reflexivity.
Defined.

Definition small_classes : gset Z := {[0x10; 0x20; 0x30; 0x40; 0x50]}.

Lemma small_closed : closed small_heap 3 small_members small_classes.
Proof.
  split.
  - intros c p Hc. revert Hc. unfold small_classes. rewrite !elem_of_union, !elem_of_singleton.
    intros [[[[-> | ->] | ->] | ->] | ->]; vm_compute GetParentClass; intros [= <-]; set_solver.
  - intros c l i Hc. revert Hc. unfold small_classes. rewrite !elem_of_union, !elem_of_singleton.
    intros [[[[-> | ->] | ->] | ->] | ->]; vm_compute interface_classes; intros E Hi; simplify_eq; rewrite ?elem_of_cons, elem_of_nil in Hi; try (by destruct Hi); destruct Hi as [-> | []]; set_solver.
  - intros c f Hc. revert Hc. unfold small_classes. rewrite !elem_of_union, !elem_of_singleton.
    intros [[[[-> | ->] | ->] | ->] | ->]; cbn; rewrite ?elem_of_cons, elem_of_nil; intros Hf;
      repeat (destruct Hf as [->|Hf]; [|]); try done; intros s k; vm_compute ILTypeStripPrefixes; intros [= <-];
      vm_compute; try discriminate; intros _ [= <-]; reflexivity.
  - intros c s. cbn. unfold small_class. by small_cases c.
  - intros c. unfold ILClassNeedsExpansion. cbn. unfold small_class. by small_cases c.
Qed.

Lemma small_interfaces_end : interfaces_end small_heap 3 small_class_rank.
Proof. split; [intros c i Hi; eapply (ac_class _ _ _ _ _ small_acyclic); by right|apply (ac_class_depth _ _ _ _ _ small_acyclic)]. Qed.

Lemma LayoutClass_ends_witness : small_layout 10 0x40 (new_engine small_heap) <> None.
Proof.
  apply (LayoutClass_ends (PF := x86_64) (LS := sizes_x86_64) small_heap 3 small_members small_method (fun _ => false)
    small_classes small_class_rank 10 0x40 (new_engine small_heap) small_closed small_interfaces_end eq_refl).
  - set_solver.
  - vm_compute. lia.
Defined.

(** The virtual method 1 of Object, ToString, is overridden in 0x30 by method 2. *)
Lemma virtual_slots_match_witness :
  exists m', p_vtable record_0x30 !! Z.to_nat (index_of laid_out_state 1) = Some m' /\
    method_matches small_heap 3 small_method m' 1.
Proof.
  destruct (virtual_slots_match (PF := x86_64) (LS := sizes_x86_64) small_heap 3 small_members small_method (fun _ => false)
    small_method_owner _ _ _ 8 0x40 (new_engine small_heap) laid_out_layout laid_out_state small_methods_ok small_acyclic
    (new_tables_ok _ _ _ _) laid_out_eq) as [_ H].
  apply (H 0x30 record_0x30 0x10 1); [vm_compute; reflexivity..| |left|reflexivity].
  apply rtc_once. exists 0x10. split; vm_compute; reflexivity.
Defined.

Lemma GetTypeSize_fits_witness :
  GetTypeSize (PF := x86_64) (LS := sizes_x86_64) 3 small_members small_method (fun _ => false) 0 ILType_Int64
    (new_engine small_heap) = Some (Done 1 (new_engine small_heap)).
Proof.
  destruct (GetTypeSize_fits (PF := x86_64) (LS := sizes_x86_64) 3 small_members small_method (fun _ => false) 0
    (new_engine small_heap) eq_refl) as [H _].
  exact (H ILType_Int64 V_I8 eq_refl).
Defined.

(** ** Limits of layouts

    Two behaviours of layout.c at its limits, computed on small images: the
    size of an object wraps around in 32 bits, and a class stays laid out when
    the layout of its parent, which had called for it, fails. *)

(** An engine without records for an image without linked classes, type
    specifications and signatures of other kinds. *)
Definition plain_heap (class : Z -> ILClass_object) : Heap :=
  mk_heap (fun _ => mk_type_object 0 0 0 0 0 0 0 [] 0 0 0 0) class 0 (Some 1) (fun _ => None) (fun _ => None) (fun _ => None).

Abbreviation plain_layout members :=
  (LayoutClass (PF := x86_64) (LS := sizes_x86_64) 3 members small_method (fun _ => false)).

(** ** Sizes *)

(** The value types 0x1000, 0x1010, 0x1020, ...: the first has two fields of
    type Int64 and each of the others two fields of the one before. *)
Definition nested_class (c : Z) : ILClass_object := some_class None 0x101 "Nested" None [].
Definition nested_members (c : Z) : Members :=
  let type := if c =? 0x1000 then ILType_Int64 else c - 0x10 + 3 in
  mk_members [instance_of c type; instance_of (c + 1) type] [] [] None.

Definition nested_layout (k : nat) : option (Z * Z) :=
  match plain_layout nested_members 100 (0x1000 + 0x10 * Z.of_nat k) (new_engine (plain_heap nested_class)) with
  | Some (Done l _) => Some (l_size l, l_alignment l)
  | _ => None
  end.

(** Sizes of objects wrap around in 32 bits.  Value types with two fields
    of the value type before them double in size from 16 bytes; the layout of
    the one with 2 ^ 31 bytes is right, and the one of the next, with 2 ^ 32
    bytes, succeeds with the size zero, where no field fits. *)
Theorem layout_size_wraps :
  Forall (fun k => nested_layout k = Some (2 ^ (4 + Z.of_nat k), 8)) (seq 0 28) /\
  nested_layout 28 = Some (0, 8).
Proof. split; [repeat constructor|]; vm_compute; reflexivity. Qed.

(** ** A parent whose layout has failed *)

(** Base 0x10 with two static fields, one of the value type Derived 0x20, whose
    parent is Base, and one of the value type Loop 0x30, which contains itself;
    D2 0x40, whose parent is Derived and which implements the interface 0x50. *)
Definition orphan_class (c : Z) : ILClass_object :=
  if c =? 0x20 then some_class None 1 "Derived" (Some 0x10) []
  else if c =? 0x40 then some_class None 1 "D2" (Some 0x20) [0x50]
  else if c =? 0x50 then some_class None 0x21 "I" None []
  else some_class None 1 "C" None [].
Definition orphan_members (c : Z) : Members :=
  if c =? 0x10 then mk_members [static_of 1 (0x20 + 3); static_of 2 (0x30 + 3)] [] [] None
  else if c =? 0x30 then mk_members [instance_of 3 (0x30 + 3)] [] [] None
  else mk_members [] [] [] None.

Abbreviation orphan_layout := (plain_layout orphan_members 20).

(** A class can outlive its parent's record.  The layout of Base lays out
    Derived for a static field and then fails at another static field, so that
    Base has no record and Derived keeps its own; a later layout of a class
    that inherits from Derived and implements an interface follows the null
    pointer that Base has in place of a record. *)
Theorem orphan_crashes :
  exists st, orphan_layout 0x10 (new_engine (plain_heap orphan_class)) = Some (Failed st) /\
    userData st !! 0x10 = None /\ _ILLayoutAlreadyDone st 0x20 = true /\
    orphan_layout 0x40 st = Some Crashed.
Proof.
  eexists. split; [vm_compute; reflexivity|]. repeat split; vm_compute; reflexivity.
Qed.
