(* ===== verification/ImageMethods.v ===== *)
(** * Methods of an image

    The verifier and the CVM coder over the metadata image (Metadata.v) and over
    the layouts of the engine (Layout.v), with nothing left to a parameter but
    the sizes of the platform: a method of integer code is verified to a verdict,
    and when it is accepted, its bytecode does what the code says. *)
From Stdlib Require Import ZArith Lia String.
From stdpp Require Import base list option numbers gmap strings.
From S2P Require Import Prelude Opcodes Cvm Interp JumpMask Scan Coder CoderBranch Types Metadata MetadataProps CoderVar CoderSetup Verify VerifyVar VerifyBranch ILSpec CvmProps CvmOps CoderProps Refine RefineBlock ILVars CoderLabels Frame VarSound SetupFrame MethodFlow MethodLoop Method MethodTotal MetadataLibrary Layout LayoutTheorems Verdict.
Import OpTable.

Local Open Scope Z_scope.

Section Image.
Context {PF : Platform} {LS : LayoutSizes}.
Variables (h : Heap) (depth : nat) (signature_of : Z -> Z).
Variables (members : Z -> Members) (method_at : Z -> ILMethod) (ILImageIsSecure : Z -> bool).
Variables (fuel : nat) (engine : Engine).

#[local] Instance TL : TypeLibrary := metadata_library h depth signature_of.

(** The sizes that the coder gets from the layout of types.  For the types of
    integer variables a layout leaves the engine as it was, so that the coder
    asks the same engine every time. *)
Definition image_size (type : Z) : Z :=
  match Layout.GetTypeSize depth members method_at ILImageIsSecure fuel type engine with
  | Some (Done n _) => n
  | _ => 0
  end.

#[local] Instance CC : ILCoder ILCVMCoder := cvm_coder image_size.
#[local] Instance CB : ILBranchCoder ILCVMCoder := cvm_branch_coder image_size.
#[local] Instance CV : ILVarCoder ILCVMCoder := cvm_var_coder image_size.

(** An image that loading has left in order, on a platform where long integers
    have eight bytes. *)
Record image_fine (link_rank class_rank rank : Z -> nat) : Prop := {
  if_ranks : library_ranks h depth link_rank class_rank rank;
  if_methods m : complex_type (signature_of m) = true /\ method_kind (t_kind h (signature_of m)) = true;
  if_long : fst ffi_type_uint64 = 8;
}.

Lemma image_sizes_fine : fst ffi_type_uint64 = 8 -> sizes_fine image_size.
Proof. intros H8 type t Ht. unfold image_size. by rewrite (integer_type_size _ _ _ _ _ _ _ _ H8 Ht). Qed.

(** A method with integer variables and integer code. *)
Record integer_method (signature : MethodSig) (returnType : Z) (mem : list Z) (walk : nat) (sg : il_sig) : Prop := {
  im_sig : sig_fine signature sg;
  im_void : sig_void sg = (returnType =? ILType_Void);
  im_bytes : Forall is_byte mem;
  im_size : Z.of_nat (length mem) * 3 <= 0x100000000;
  im_code : integer_code walk mem 0 (Z.of_nat (length mem)) = true;
  im_annotations p : 0 <= p < Z.of_nat (length mem) -> ~ wraps mem p;
}.

Context {link_rank class_rank rank : Z -> nat}.
Hypothesis Himage : image_fine link_rank class_rank rank.

Lemma image_types_apart : method_types_apart.
Proof. apply metadata_types_apart. exact (if_methods _ _ _ Himage). Qed.

(** The set-up and an accepting verdict make a compiled method. *)
Lemma image_compiled signature returnType mem walk sg unsafe maxStack owner coder0 coder ck stf :
  integer_method signature returnType mem walk sg -> 0 <= maxStack -> labelList coder0 = [] ->
  CVMCoder_Setup image_size false coder0 signature = Some (coder, ck) ->
  verify_method depth unsafe maxStack returnType (vars_of signature owner) mem (Z.of_nat (length mem)) coder = Ret stf ->
  CVM_POSN (v_coder stf) < 0x80000000 ->
  compiled image_size depth unsafe maxStack returnType signature owner mem walk sg coder ck stf.
Proof.
  intros [Hsig Hvoid Hb Hs Hcode _] Hms Hl Hset Hver Hpos. pose proof (image_sizes_fine (if_long _ _ _ Himage)) as Hsz.
  destruct (setup_sound image_size coder0 _ _ Hsz Hsig) as (coder1 & ck1 & Hset1 & Hdone & Hl1).
  rewrite Hset in Hset1. injection Hset1 as <- <-. split; [done|done|by exists coder0|]. split; try done; [|by rewrite Hl1].
  split; [apply (sf_params _ _ Hsig)|apply (sf_locals _ _ Hsig)|by eapply setup_layout|apply image_types_apart].
Qed.

End Image.


(** The method of the example of Method.v in the small image, called with 3. *)
Abbreviation small_engine := (new_engine method_heap).
Abbreviation small_size :=
  (image_size (PF := x86_64) (LS := sizes_x86_64) 6 small_members small_method (fun _ => false) 0 small_engine).
#[local] Instance small_library : TypeLibrary := metadata_library method_heap 6 small_signature.

Lemma small_image_fine :
  image_fine (LS := sizes_x86_64) method_heap 6 small_signature small_link_rank small_class_rank small_rank.
Proof. split; [exact method_heap_ranks|by intros m|reflexivity]. Qed.

Lemma sum_integer_method : integer_method (PF := x86_64) sum_signature ILType_Int32 sum_code 20 sum_sig.
Proof.
  split; [exact sum_sig_fine|reflexivity|repeat constructor; unfold is_byte; lia|vm_compute; discriminate|reflexivity|].
  intros p Hp [Hw _]. revert Hw. cbn in Hp.
  assert (exists k, p = Z.of_nat k /\ (k < 14)%nat) as (k & -> & Hk) by (exists (Z.to_nat p); lia).
  do 14 (destruct k as [|k]; [by vm_compute|]). lia.
Qed.

