(* ===== verification/CoderTheorems.v ===== *)
(** * The coder, one operation at a time

    What CVMCoder_Branch, CVMCoder_Label, CVMCoder_Setup and the loads and
    stores of variables output, stated without the verifier: the code of a
    branch, the patching of all branches of a method against the code that an
    assembler with two passes gives, the round trip of a variable through its
    slot, and the frame that the entry code builds. *)
From Stdlib Require Import ZArith Lia.
From stdpp Require Import base list option numbers.
From S2P Require Import Prelude Opcodes Cvm Interp JumpMask Scan Coder CoderBranch Types CoderVar CoderSetup Verify VerifyBranch ILSpec CvmProps CvmOps CoderProps Refine RefineBlock ILVars BranchLayout CoderLabels BranchRun Frame FrameVars VarSound SetupFrame Method WalkTargets Verdict.

Local Open Scope Z_scope.

(** ** Branches *)

Section Branches.
Context {PF : Platform}.

(** The engine types that the verifier passes for these operands. *)
Definition operand_types (popped : list value) : ILEngineType * ILEngineType :=
  match popped with
  | [] => (ILEngineType_I4, ILEngineType_I4)
  | [v] => (type_of v, type_of v)
  | v2 :: v1 :: _ => (type_of v1, type_of v2)
  end.

Lemma il_branch_compiles coder opcode dest vs taken rest :
  Forall wf_value vs -> mixed_branch opcode vs = false -> il_branch opcode vs = Some (taken, rest) ->
  exists popped, vs = popped ++ rest /\
    compiles_branch coder
      (CVMCoder_Branch coder opcode dest (fst (operand_types popped)) (snd (operand_types popped)))
      dest (cells popped) taken.
Proof.
  intros W Hm. unfold il_branch. destruct (listed opcode goto_opcodes) eqn:Hg.
  { intros [= <- <-]. exists []. split; [done|]. rewrite goto_branch by done. apply goto_compiles. }
  destruct (listed opcode true_opcodes) eqn:Ht.
  { destruct vs as [|v vs]; [done|]. intros [= <- <-]. exists [v]. split; [done|].
    rewrite (proj1 (unary_branch_cases _ _ _ _ _) Ht).
    by apply (unary_branch_compiles coder COP_BRTRUE COP_BRNONNULL dest v true). }
  destruct (listed opcode false_opcodes) eqn:Hf.
  { destruct vs as [|v vs]; [done|]. intros [= <- <-]. exists [v]. split; [done|].
    rewrite (proj2 (unary_branch_cases _ _ _ _ _) Hf), <-(xorb_false_l (number v =? 0)).
    by apply (unary_branch_compiles coder COP_BRFALSE COP_BRNULL dest v false). }
  destruct vs as [|v2 [|v1 vs]]; try done.
  destruct (widen _ _ _) as [[[[w t] a] b]|] eqn:Hw; cbn [mbind option_bind]; [|done].
  destruct (int_branch _ _ _ _) as [tk|] eqn:Hb; cbn [mbind option_bind]; [|done].
  intros [= <- <-]. exists [v2; v1]. split; [done|].
  apply Forall_cons_iff in W as [W2 [W1 _]%Forall_cons_iff].
  eapply binary_branch_compiles; [by eapply widen_unmixed|done].
Qed.

(** C26: CVMCoder_Branch. For a branch of IL that is defined on the values
    [vs], which is no unsigned branch on operands of two widths
    ([mixed_branch]; there the coder is wrong, [equal_and_not_equal]), with
    the types of its operands: the coder outputs some code and one branch to
    [dest]; once the branch carries the distance to any position [d], a
    machine with the operands on the stack and a long to spare runs the code,
    pops exactly the operands and stands at [d] when the branch of IL is
    taken, and behind the code otherwise. *)
Theorem CVMCoder_Branch_correct coder chs opcode dest vs taken rest :
  laid coder chs -> Forall wf_value vs -> mixed_branch opcode vs = false ->
  il_branch opcode vs = Some (taken, rest) ->
  exists popped bs op, vs = popped ++ rest /\
    let coder' := CVMCoder_Branch coder opcode dest (fst (operand_types popped)) (snd (operand_types popped)) in
    (CVM_POSN coder' < 0x80000000 -> laid coder' (chs ++ [Bytes bs; Br op dest])) /\
    forall c st ws base d,
      let from := pc st + Z.of_nat (length bs) in
      code_at c (pc st) (bs ++ branch_bytes op (d - from)) -> -0x80000000 <= d - from < 0x80000000 ->
      below st = ws ++ base -> holds (cells popped) ws ->
      cells_size (cells popped) + CVM_WORDS_PER_LONG <= Z.of_nat (length ws) + Z.of_nat (length (above st)) ->
      exists n ab',
        run n c st = Some (Next (mk_cvm (if taken then d else from + CVM_LEN_BRANCH) (frame st) base ab')).
Proof.
  intros Hl Hwf Hm Hb. destruct (il_branch_compiles coder _ dest _ _ _ Hwf Hm Hb) as (popped & -> & Hc).
  destruct Hc as (c1 & bs & op & operands & Hc1 & Hll & Hop & Hc' & Hl' & Hbr & Hreach).
  exists popped, bs, op. split; [done|]. split.
  { intros Hpos. by destruct (branch_laid _ _ _ _ _ _ _ Hl Hc1 Hll Hc' Hl' Hpos). }
  intros c st ws base d from [Hcb Hcd]%code_at_app Hd Hbl Hw Hroom.
  destruct (Hreach [] (cells_size (cells popped) + CVM_WORDS_PER_LONG) ltac:(rewrite app_nil_r; lia) c st ws base
    Hcb Hbl ltac:(by rewrite app_nil_r) Hroom) as (n & ws' & ab' & Hn & Hw' & Hlen). rewrite app_nil_r in Hw'.
  set (m1 := mk_cvm _ _ (ws' ++ base) ab') in Hn.
  destruct (Hbr c m1 ws' base _ (branch_bytes_at c (pc m1) op _ Hop Hd Hcd) eq_refl Hw') as (ab2 & _ & Hstep).
  exists (n + 1)%nat, ab2. rewrite (run_app _ _ _ _ _ Hn). simpl run. rewrite Hstep. unfold m1, from. simpl pc.
  do 3 f_equal. destruct taken; unfold from; lia.
Qed.

End Branches.

(** ** The patching of branches *)

Section Assembler.
Context {PF : Platform}.

(** What is output for a method: bytes, labels and branches. *)
Inductive asm_item := Emit (bs : list Z) | Mark (a : Z) | Jump (op dest : Z).

Definition asm_step (coder : ILCVMCoder) (item : asm_item) : ILCVMCoder :=
  match item with
  | Emit bs => foldl CVM_BYTE coder bs
  | Mark a => CVMCoder_Label coder a
  | Jump op dest => OutputBranch coder op dest
  end.

Definition asm_chunk (item : asm_item) : list chunk :=
  match item with Emit bs => [Bytes (map u8 bs)] | Mark _ => [] | Jump op dest => [Br op dest] end.
Definition asm_chunks (items : list asm_item) : list chunk := concat (map asm_chunk items).
Definition asm_size (items : list asm_item) : Z := chunks_len (asm_chunks items).

(** The first pass of an assembler: the position of each label. *)
Fixpoint label_position (pos : Z) (items : list asm_item) (a : Z) : option Z :=
  match items with
  | [] => None
  | Mark b :: items => if b =? a then Some pos else label_position pos items a
  | item :: items => label_position (pos + asm_size [item]) items a
  end.

Definition asm_marks (items : list asm_item) : list Z :=
  concat (map (fun item => match item with Mark a => [a] | _ => [] end) items).

Lemma asm_chunks_app items items' : asm_chunks (items ++ items') = asm_chunks items ++ asm_chunks items'.
Proof. unfold asm_chunks. by rewrite map_app, concat_app. Qed.

Lemma asm_size_app items items' : asm_size (items ++ items') = asm_size items + asm_size items'.
Proof. unfold asm_size. by rewrite asm_chunks_app, chunks_len_app. Qed.

Lemma label_position_app pos items items' a :
  label_position pos (items ++ items') a =
    match label_position pos items a with
    | Some p => Some p | None => label_position (pos + asm_size items) items' a end.
Proof.
  revert pos. induction items as [|item items IH]; intros pos; simpl; [by rewrite Z.add_0_r|].
  pose proof (asm_size_app [item] items) as Hs. simpl in Hs.
  destruct item; rewrite ?IH; [|destruct (_ =? a); [done|]|]; rewrite Hs, ?Z.add_assoc; try done.
  change (asm_size [Mark a0]) with 0. by rewrite Z.add_0_r.
Qed.

Lemma label_position_unmarked pos items a : a ∉ asm_marks items -> label_position pos items a = None.
Proof.
  revert pos. induction items as [|[bs|b|op dest] items IH]; intros pos Ha; simpl in *; auto.
  apply not_elem_of_cons in Ha as [Hne Ha]. destruct (Z.eqb_spec b a); [congruence|auto].
Qed.

Lemma emit_bytes coder bs :
  Coder.code (foldl CVM_BYTE coder bs) = Coder.code coder ++ map u8 bs /\
  labelList (foldl CVM_BYTE coder bs) = labelList coder.
Proof.
  revert coder. induction bs as [|b bs IH]; intros coder; simpl; [by rewrite app_nil_r|].
  destruct (IH (CVM_BYTE coder b)) as [-> ->]. simpl. by rewrite <-app_assoc.
Qed.

Lemma assembled items coder :
  laid coder [] -> (forall a, labelled coder a = None) -> NoDup (asm_marks items) ->
  asm_size items < 0x80000000 ->
  laid (foldl asm_step coder items) (asm_chunks items) /\
  forall a, labelled (foldl asm_step coder items) a = label_position 0 items a.
Proof.
  intros Hl0 Hn0. induction items as [|item items IH] using rev_ind; [done|]. intros Hnd Hsize.
  rewrite asm_size_app in Hsize. pose proof (chunks_len_nonneg (asm_chunks [item])) as Hpos.
  assert (asm_marks (items ++ [item]) = asm_marks items ++ asm_marks [item]) as Em
    by (unfold asm_marks; by rewrite map_app, concat_app).
  rewrite Em in Hnd. apply stdpp.list_relations.list.NoDup_app in Hnd as (Hnd & Hout & _).
  fold (asm_size [item]) in Hpos. destruct (IH Hnd ltac:(lia)) as [Hl HL]. clear IH. rewrite foldl_app. simpl.
  set (c := foldl asm_step coder items) in *. rewrite asm_chunks_app.
  pose proof (laid_posn _ _ Hl) as Hposn. fold (asm_size items) in Hposn.
  assert (forall a, label_position 0 (items ++ [item]) a = match label_position 0 items a with
    Some p => Some p | None => label_position (asm_size items) [item] a end) as HP
    by (intros a; by rewrite label_position_app, Z.add_0_l).
  destruct item as [bs|b|op dest]; cbn [asm_step].
  - destruct (emit_bytes c bs) as [Hc Hll]. split; [by eapply laid_bytes|].
    intros a. rewrite HP. unfold labelled. rewrite Hll. fold (labelled c a). rewrite HL. by case_match.
  - assert (labelled c b = None) as Hb.
    { rewrite HL. apply label_position_unmarked. intros Hin. by eapply (Hout _ Hin), list_elem_of_here. }
    destruct (CVMCoder_Label_laid _ _ b Hl Hb ltac:(lia)) as [Hl1 HL1]. split; [unfold asm_chunks at 2; simpl; by rewrite app_nil_r|].
    intros a. rewrite HP, HL1. unfold with_label. rewrite Hposn, HL. simpl. rewrite (Z.eqb_sym b a).
    destruct (Z.eqb_spec a b) as [->|]; [|by case_match]. by rewrite <-HL, Hb.
  - destruct (OutputBranch_laid _ _ op dest Hl ltac:(lia)) as [Hl1 HL1]. split; [done|].
    intros a. rewrite HP, HL1, HL. by case_match.
Qed.

(** C25: the one-pass coder is equivalent to an assembler with two passes.
    Whatever bytes, labels (each at most once) and branches are output, in any
    order, below 2^31 bytes: the code of the coder, with its placeholders, its
    lists of references and its patches of short and long branches, is the
    layout in which every branch carries the distance from itself to the
    position of its label, forwards and backwards, and only branches to a label
    that is never defined stay placeholders. *)
Theorem branches_assembled items :
  NoDup (asm_marks items) -> asm_size items < 0x80000000 ->
  Coder.code (foldl asm_step new_coder items) = layout (label_position 0 items) 0 (asm_chunks items).
Proof.
  intros Hnd Hs. destruct (assembled items new_coder) as [[Hc _] HL]; try done.
  rewrite Hc. by apply layout_ext.
Qed.

End Assembler.

(** A forward and a backward branch, one of them long, and one to no label. *)
Definition example_items : list asm_item :=
  [Mark 0; Jump COP_BR 5; Emit (repeat COP_NOP 200); Mark 5; Jump COP_BRTRUE 0; Jump COP_BR 9].

Lemma branches_assembled_witness :
  Coder.code (foldl asm_step new_coder example_items) =
    [COP_BR_LONG; COP_BR; 206; 0; 0; 0] ++ repeat COP_NOP 200 ++
    [COP_BR_LONG; COP_BRTRUE; 0x32; 0xFF; 0xFF; 0xFF] ++ [COP_BR; COP_BR; 0; 0; 0; 0].
Proof.
  refine (eq_trans (branches_assembled example_items _ _) _).
  - apply NoDup_ListNoDup. repeat constructor; simpl; intuition discriminate.
  - vm_compute. reflexivity.
  - vm_compute. reflexivity.
Defined.

(** brtrue on a native int, to the start of the code that stands at 7. *)
Definition branch_operand : list value := [VI 5; VI4 1].

Lemma branch_operand_wf : Forall (wf_value (PF := x86_64)) branch_operand.
Proof. by repeat constructor. Qed.

Lemma CVMCoder_Branch_correct_witness :
  il_branch (PF := x86_64) IL_OP_BRTRUE branch_operand = Some (true, [VI4 1]) /\
  exists popped bs op, branch_operand = popped ++ [VI4 1] /\
    let coder' := CVMCoder_Branch (PF := x86_64) new_coder IL_OP_BRTRUE 0
      (fst (operand_types popped)) (snd (operand_types popped)) in
    (CVM_POSN coder' < 0x80000000 -> laid coder' ([] ++ [Bytes bs; Br op 0])) /\
    forall c st ws base d,
      let from := pc st + Z.of_nat (length bs) in
      code_at c (pc st) (bs ++ branch_bytes op (d - from)) -> -0x80000000 <= d - from < 0x80000000 ->
      below st = ws ++ base -> holds (PF := x86_64) (cells (PF := x86_64) popped) ws ->
      cells_size (PF := x86_64) (cells (PF := x86_64) popped) + CVM_WORDS_PER_LONG (H := x86_64) <=
        Z.of_nat (length ws) + Z.of_nat (length (above st)) ->
      exists n ab',
        run (H := x86_64) n c st = Some (Next (mk_cvm d (frame st) base ab')).
Proof.
  split; [reflexivity|].
  exact (CVMCoder_Branch_correct (PF := x86_64) new_coder [] IL_OP_BRTRUE 0 branch_operand true [VI4 1]
    (Build_laid new_coder [] eq_refl (fun _ _ => eq_refl)) branch_operand_wf eq_refl eq_refl).
Defined.

(** ** Variables *)

Section Variables.
Context {PF : Platform} {TL : TypeLibrary}.
Variable GetTypeSize : Z -> Z.

(** C27: A store to a variable and a load from it. In a frame that holds the
    values of all variables at the offsets of the coder, the code that
    StoreLocal and LoadLocal output for a variable that is a byte or bool, a
    32-bit, a 64-bit or a native integer (the types of [vtype_of]; not int8,
    int16, uint16 and char), run with a value [v] on top of the evaluation
    stack, ends with the value [r] that [v] becomes in the variable on top;
    the frame holds [r] in this variable and what it held in all others; and
    no word outside the variables has changed. *)
Theorem variable_roundtrip sg coder arg n type t off v r c st ws base vars :
  frame_layout sg coder -> placed sg coder arg n t off ->
  vtype_of type = Some t -> wf_value v -> store_value t v = Some r ->
  frame_holds sg coder (frame st) vars base -> below st = ws ++ base -> holds [cell_of v] ws ->
  vt_words t <= Z.of_nat (length ws) + Z.of_nat (length (above st)) ->
  let stored := StoreLocal GetTypeSize coder off (type_of v) type in
  exists bs, Coder.code (LoadLocal GetTypeSize stored off type) = Coder.code coder ++ bs /\
    (code_at c (pc st) bs ->
     exists k ws' base' ab',
       run k c st = Some (Next (mk_cvm (pc st + Z.of_nat (length bs)) (frame st) (ws' ++ base') ab')) /\
       holds [cell_of r] ws' /\ frame_holds sg coder (frame st) (set_var arg n r vars) base' /\
       same_outside sg coder (frame st) base base').
Proof.
  intros Hlay Hp Ht Wv Hr Hframe Hb Hw Hroom stored.
  destruct (fl_place _ _ Hlay _ _ _ (proj1 Hp)) as (off' & Ho & Hs).
  rewrite (proj2 Hp) in Ho. injection Ho as <-.
  pose proof (store_value_var _ _ _ Wv Hr) as Hrt.
  destruct (StoreLocal_stores GetTypeSize coder off _ _ _ _ Ht Hs Wv Hr) as (bs1 & [E1 _] & Hst).
  destruct (LoadLocal_loads GetTypeSize stored off _ _ Ht Hs) as (bs2 & [E2 _] & Hld).
  exists (bs1 ++ bs2). split; [unfold stored in *; by rewrite E2, E1, app_assoc|]. intros [Hc1 Hc2]%code_at_app.
  destruct (Hframe _ _ _ _ Hp) as (x & _ & _ & pre & sw & l2 & -> & Hl2 & Hslot).
  pose proof (slot_words_length _ _ _ Hslot) as Hsw.
  destruct (Hst c st ws pre sw l2 Hc1 Hb Hw ltac:(lia) Hsw) as (k & sw' & ab1 & Hk & Hs' & Hab).
  destruct (frame_store sg coder _ vars pre sw sw' l2 arg n t off r Hlay Hframe Hp ltac:(lia) Hsw Hs' Hrt) as [Hh Hout].
  set (m1 := mk_cvm _ _ (pre ++ sw' ++ l2) ab1) in Hk.
  destruct (Hld r c m1 pre sw' l2 Hrt Hc2 eq_refl ltac:(simpl; lia) Hs' ltac:(simpl; lia))
    as (ws' & ab' & Hrun & Hw' & _).
  exists (k + 1)%nat, ws', (pre ++ sw' ++ l2), ab'. rewrite (run_app _ _ _ _ _ Hk), Hrun. unfold m1. simpl.
  rewrite length_app, Nat2Z.inj_add, Z.add_assoc. done.
Qed.

(** ** The set-up *)

(** C28: CVMCoder_Setup on a static signature without varargs whose arguments
    and local variables are bytes or bools, 32-bit, 64-bit or native integers
    ([sig_fine]). It succeeds, and the slot of every argument and local
    variable lies within the frame, has room for its value and overlaps no
    other; the arguments come first, in order, then the local variables; the
    heights of the coder start above all of them. *)
Theorem CVMCoder_Setup_frame signature sg coder0 :
  sizes_fine GetTypeSize -> sig_fine signature sg ->
  exists coder ck, CVMCoder_Setup GetTypeSize false coder0 signature = Some (coder, ck) /\
    frame_layout sg coder /\
    (forall arg n t, il_type sg arg n = Some t ->
       placed sg coder arg n t (place sg arg n) /\
       0 <= place sg arg n /\ place sg arg n + vt_words t <= frame_size sg) /\
    height coder = frame_size sg /\ minHeight coder = frame_size sg /\ maxHeight coder = frame_size sg.
Proof.
  intros Hs Hsig. destruct (setup_sound GetTypeSize coder0 _ _ Hs Hsig) as (coder & ck & Hset & Hdone & _).
  exists coder, ck. split; [done|]. split; [by eapply setup_layout|].
  destruct Hdone as [_ _ Hh Hoff]. split; [|done]. intros arg n t Ht. split; [|by apply place_in_frame].
  split; [done|]. by eapply Hoff.
Qed.

(** C29: The entry code of a method with a signature as in [sig_fine] (static,
    no varargs, bytes or bools, 32-bit, 64-bit and native integers). What
    CVMCoder_Setup and CVMCoder_Finish output, run on the arguments that the
    caller has pushed where the local variables fit, makes a frame that holds
    each argument and zero in every local variable, on an empty evaluation
    stack, when more words are left than the larger of 8 and the maximum
    height; otherwise it throws StackOverflowException. *)
Theorem CVMCoder_entry_correct signature sg coder0 coder ck body stf c p fr args argws rest ab :
  sizes_fine GetTypeSize -> sig_fine signature sg ->
  CVMCoder_Setup GetTypeSize false coder0 signature = Some (coder, ck) ->
  Coder.code stf = Coder.code coder ++ body ->
  code_at c p (Coder.code (CVMCoder_Finish stf ck)) ->
  Forall2 var_value (sig_args sg) args -> slots (sig_args sg) args argws ->
  slots_size (sig_locals sg) <= Z.of_nat (length ab) <= IL_MAX_UINT32 -> maxHeight stf <= IL_MAX_UINT32 ->
  let m := mk_cvm p fr (argws ++ rest) ab in
  let base := repeat 0 (Z.to_nat (slots_size (sig_locals sg))) ++ argws ++ rest in
  if Z.max 8 (maxHeight stf) <? Z.of_nat (length ab) then
    exists k ab', run k c m = Some (Next (mk_cvm (p + CVM_POSN coder) (Z.of_nat (length rest)) base ab')) /\
      code_at c (p + CVM_POSN coder) body /\
      frame_holds sg coder (Z.of_nat (length rest)) (entry_vars sg args) base
  else exists m', run 2 c m = Some (Throw StackOverflowException m').
Proof.
  intros Hs Hsig Hset Hcode Hc Hargs Hsl [Hroom Hab] Hmax m base.
  destruct (setup_sound GetTypeSize coder0 _ _ Hs Hsig) as (coder1 & ck1 & Hset1 & Hdone & _).
  rewrite Hset in Hset1. injection Hset1 as <- <-. pose proof Hdone as [Hcd Hck _ _].
  rewrite Hcd in Hcode. unfold entry_bytes in Hcode. rewrite <-!app_assoc in Hcode.
  rewrite (finish_code _ _ _ _ Hcode Hck) in Hc.
  rewrite (app_assoc (check_bytes _)), app_assoc in Hc. apply code_at_app in Hc as [Hentry Hbody].
  assert (CVM_POSN coder = Z.of_nat (length (entry_bytes sg (check_bytes (maxHeight stf))))) as Hpos.
  { unfold CVM_POSN. rewrite Hcd. unfold entry_bytes. rewrite !length_app. unfold check_bytes. by case_match. }
  pose proof (entry_runs c p fr sg args argws rest ab _ Hentry (sf_size _ _ Hsig) Hsl Hab Hmax Hroom) as Hrun.
  cbn zeta in Hrun. fold m base in Hrun. destruct (_ <? _); [|done]. destruct Hrun as [k Hk].
  eexists k, _. rewrite Hpos. split; [exact Hk|]. split; [exact Hbody|]. by eapply entry_frame.
Qed.

(** ** Labels of the verifier *)

(** The stack of a label is fixed when the label is made.  When the stack
    and the stacks of all labels are integers, at most maxStack of them, an
    accepted validation of a branch (to [a]) or of a jump target (at [a]) keeps
    that so, keeps the stack of every label there was, and leaves a label at
    [a] whose stack holds the same words as the stack that goes on: the types
    are equal up to int and native int of one width. *)
Theorem label_stacks_fixed depth maxStack (jumped branch : bool) a labels stack labels' stack' :
  0 <= maxStack -> int_labels maxStack labels -> int_stack stack -> Z.of_nat (length stack) <= maxStack ->
  (if branch then VALIDATE_BRANCH_STACK depth a labels stack
   else VALIDATE_TARGET_STACK depth a jumped labels stack) = Ret (labels', stack') ->
  int_labels maxStack labels' /\ labels_extend labels labels' /\
  int_stack stack' /\ Z.of_nat (length stack') <= maxStack /\
  (branch = true \/ jumped = false -> stack' = stack) /\
  exists l, FindLabel labels' a = Some l /\ stack_meets stack' (bl_stack l).
Proof.
  intros H0 Hl Hs Hm. destruct branch; intros Hv.
  - destruct (VALIDATE_BRANCH_STACK_int _ _ _ _ _ _ _ Hl Hs Hm Hv) as (-> & He & Hi & Hx).
    by repeat (split; [done|]).
  - destruct (VALIDATE_TARGET_STACK_int _ _ _ _ _ _ _ _ H0 Hl Hs Hm Hv) as ((He & Hi & Hx) & Hs' & Hm' & Hj).
    repeat (split; [done|]). split; [|done]. intros [?|Hjf]; [done|by apply Hj].
Qed.

End Variables.

(** ** Examples: the method of Method.v, called with 3 above the word 7 *)

Lemma sum_layout : frame_layout (PF := x86_64) sum_sig sum_start.
Proof. exact (vf_layout _ _ _ sum_vars_fine). Qed.

Lemma sum_frame : frame_holds (PF := x86_64) sum_sig sum_start 1 sum_entry [0; 3; 7].
Proof.
  destruct sum_machine_shows as (_ & _ & ws & bot & Hb & Hw & _ & Hbot). destruct ws as [|w ws]; [|done].
  simpl in Hb. subst bot. exact (proj1 (proj2 Hbot)).
Qed.

(** A native int is stored in the local variable and comes back as an int. *)
Lemma variable_roundtrip_witness :
  let bytes := [COP_L2I; COP_ISTORE_0 + 1; COP_ILOAD_0 + 1] in
  Coder.code (LoadLocal (PF := x86_64) (TL := no_library) int_sizes (StoreLocal (PF := x86_64) (TL := no_library)
    int_sizes sum_start 1 T_I ILType_Int32) 1 ILType_Int32) = sum_setup ++ bytes /\
  exists k ws' base' ab',
    run (H := x86_64) k bytes (mk_cvm 0 1 ([0x100000005] ++ [0; 3; 7]) [9]) =
      Some (Next (mk_cvm 3 1 (ws' ++ base') ab')) /\
    holds (PF := x86_64) [cell_of (PF := x86_64) (VI4 5)] ws' /\
    frame_holds (PF := x86_64) sum_sig sum_start 1 (mk_il_vars [VI4 3] [VI4 5]) base' /\
    same_outside (PF := x86_64) sum_sig sum_start 1 [0; 3; 7] base'.
Proof.
  destruct (variable_roundtrip (PF := x86_64) (TL := no_library) int_sizes sum_sig sum_start false 0 ILType_Int32
    V_I4 1 (VI 0x100000005) (VI4 5) [COP_L2I; COP_ISTORE_0 + 1; COP_ILOAD_0 + 1]
    (mk_cvm 0 1 ([0x100000005] ++ [0; 3; 7]) [9]) [0x100000005] [0; 3; 7] sum_entry sum_layout)
    as (bs & Hbs & H).
  - by split.
  - reflexivity.
  - vm_compute. done.
  - reflexivity.
  - exact sum_frame.
  - reflexivity.
  - exists [0x100000005], []. split; [reflexivity|]. split; [|reflexivity]. by exists 0x100000005.
  - vm_compute. discriminate.
  - assert (bs = [COP_L2I; COP_ISTORE_0 + 1; COP_ILOAD_0 + 1]) as -> by (apply (app_inv_head sum_setup); exact (eq_trans (eq_sym Hbs) eq_refl)).
    split; [exact Hbs|]. apply H. exists [], []. split; reflexivity.
Defined.

(** A byte, a long and an int in one frame. *)
Definition mixed_signature : MethodSig :=
  mk_sig false [ILType_UInt8; ILType_Int64] false (Some [ILType_Int32]).
Definition mixed_sig : il_sig := mk_il_sig true [V_U1; V_I8] [V_I4].

Lemma mixed_sig_fine : sig_fine (PF := i386) mixed_signature mixed_sig.
Proof.
  split; [done|done|by repeat constructor|by repeat constructor|vm_compute; discriminate|].
  intros arg n _. vm_compute. discriminate.
Qed.

Lemma CVMCoder_Setup_frame_witness :
  exists coder ck,
    CVMCoder_Setup (PF := i386) (TL := no_library) (int_sizes (PF := i386)) false new_coder mixed_signature = Some (coder, ck) /\
    frame_layout (PF := i386) mixed_sig coder /\ placed mixed_sig coder true 1 V_I8 1 /\
    placed mixed_sig coder false 0 V_I4 3 /\ height coder = 4.
Proof.
  destruct (CVMCoder_Setup_frame (PF := i386) (TL := no_library) (int_sizes (PF := i386)) mixed_signature mixed_sig new_coder
    int_sizes_fine mixed_sig_fine) as (coder & ck & Hset & Hlay & Hp & Hh & _).
  exists coder, ck. split; [exact Hset|]. split; [exact Hlay|].
  split; [exact (proj1 (Hp true 1 V_I8 eq_refl))|]. split; [exact (proj1 (Hp false 0 V_I4 eq_refl))|exact Hh].
Defined.

Lemma CVMCoder_entry_correct_witness :
  exists k ab', run (H := x86_64) k
      (Coder.code (CVMCoder_Finish sum_coder 2)) (mk_cvm 0 0 [3; 7] (repeat 0 20)) =
      Some (Next (mk_cvm 8 1 [0; 3; 7] ab')) /\
    code_at (Coder.code (CVMCoder_Finish sum_coder 2)) 8 sum_body /\
    frame_holds (PF := x86_64) sum_sig sum_start 1 (mk_il_vars [VI4 3] [VI4 0]) [0; 3; 7].
Proof.
  refine (CVMCoder_entry_correct (PF := x86_64) (TL := no_library) int_sizes sum_signature sum_sig new_coder
    sum_start 2 sum_body sum_coder (Coder.code (CVMCoder_Finish sum_coder 2)) 0 0 [VI4 3] [3] [7] (repeat 0 20)
    int_sizes_fine sum_sig_fine sum_set_up eq_refl _ _ _ _ _).
  - exists [], []. split; [by rewrite app_nil_r|reflexivity].
  - by repeat constructor.
  - exists [3], []. split; [reflexivity|]. split; [by exists 3|reflexivity].
  - split; vm_compute; discriminate.
  - vm_compute. discriminate.
Defined.

(** A native int arrives at a label that was made with a long. *)
Lemma label_stacks_fixed_witness :
  let label := mk_branch_label 4 [mk_item T_I8 0] in
  exists l, FindLabel [label] 4 = Some l /\ stack_meets (PF := x86_64) [mk_item T_I 0] (bl_stack l).
Proof.
  intros label.
  refine (proj2 (proj2 (proj2 (proj2 (proj2 (label_stacks_fixed (PF := x86_64) (TL := no_library) 5 2 false true 4
    [label] [mk_item T_I 0] [label] [mk_item T_I 0] _ _ _ _ _)))))).
  - lia.
  - intros a l Hl. unfold label in Hl. rewrite FindLabel_new in Hl. destruct (4 =? a); [injection Hl as <-|discriminate Hl].
    split; [exists [VI8 0]; by repeat constructor|simpl; lia].
  - exists [VI 0]. by repeat constructor.
  - simpl. lia.
  - vm_compute. reflexivity.
Defined.
