(* ===== verification/BranchLimits.v ===== *)
(** * What branches, labels, returns and loads do not promise

    Places where the coder and the verifier do not do what they mean to: the
    switch to an address that is behind it, the operands of bne.un and beq,
    the object types at a label that a backward branch generalises, the return
    of an int32 as a native int, and the height behind the load of a byte. *)
From Stdlib Require Import ZArith Lia.
From stdpp Require Import base list option numbers.
From S2P Require Import Prelude Opcodes Cvm Interp JumpMask Scan Coder CoderBranch Types CoderVar CoderSetup Verify VerifyVar VerifyBranch ILSpec CvmProps CvmOps CoderProps ILVars BranchLayout BranchRun Frame VarSound Method.
Import OpTable.

Local Open Scope Z_scope.

(** ** Backward switches *)

(** The word of a switch entry for a label that has a position. *)
Lemma switch_entry_known {PF : Platform} coder dest posn :
  labelled coder dest = Some posn ->
  Coder.code (CVMCoder_SwitchEntry coder dest) =
    Coder.code (CVM_WORD coder (i32 (posn - switchStart coder + CVM_POSN coder))).
Proof.
  unfold CVMCoder_SwitchEntry, labelled. intros H. destruct (GetLabel coder dest) as [coder1 label] eqn:E.
  destruct (GetLabel_spec _ _ _ _ E) as (Hc & _ & Ho & _). rewrite Ho. unfold labelled. rewrite H.
  assert (switchStart coder1 = switchStart coder) as Hs
    by (unfold GetLabel in E; destruct (find_label _ _); by injection E as <- _).
  assert (CVM_POSN coder1 = CVM_POSN coder) as -> by (unfold CVM_POSN; by rewrite Hc).
  rewrite Hs. replace (posn - (switchStart coder - CVM_POSN coder)) with (posn - switchStart coder + CVM_POSN coder) by lia.
  unfold CVM_OUT_SWENTRY, CVM_WORD, CVM_BYTE. cbn [Coder.code]. by rewrite Hc.
Qed.

(** br.s 2; 2: ldc.i4.0; 3: switch (2); 12: ret *)
Definition switch_code : list Z := [0x2B; 0; 0x16; 0x45; 1; 0; 0; 0; 0xF6; 0xFF; 0xFF; 0xFF; 0x2A].

(** The entry for IL offset 2, whose code is at 6, is 15 at the switch at 7. *)
Definition switch_bytecode : list Z :=
  [COP_BR; 6; 0; 0; 0; 0; COP_LDC_I4_0; COP_SWITCH; 1; 0; 0; 0; 13; 0; 0; 0; 15; 0; 0; 0; COP_RETURN].
Definition switch_end : vstate ILCVMCoder :=
  mk_vstate [] [mk_branch_label 2 []] true
    (mk_coder switch_bytecode 0 0 1 [mk_label 2 (Some 6) []] 7 [] []).

(** A switch to an address behind it is accepted, and the CVM does not get to
    the code of that address, at 6, but leaves the code. *)
Theorem backward_switch_leaves_code :
  verify_method (PF := x86_64) (TL := no_library)
    (CC := cvm_coder (PF := x86_64) (int_sizes (PF := x86_64)))
    (CB := cvm_branch_coder (PF := x86_64) (int_sizes (PF := x86_64)))
    (CV := cvm_var_coder (PF := x86_64) (TL := no_library) (int_sizes (PF := x86_64)))
    5 false 2 ILType_Void (mk_vars [] [] 0) switch_code (codeLen switch_code) new_coder = Ret switch_end /\
  run (H := x86_64) 3 switch_bytecode (mk_cvm 0 0 [] [0; 0]) = Some (Next (mk_cvm 22 0 [] [0; 0])) /\
  length switch_bytecode = 21%nat.
Proof. split; [|split]; vm_compute; reflexivity. Qed.

(** ** Equality and inequality *)

(** The native int -1 and the int -1 are equal to beq, which extends the int
    with its sign, and not equal to bne.un, which extends it with zeros: both
    branches are taken. *)
Theorem equal_and_not_equal coder dest :
  compiles_branch (PF := x86_64) coder
    (CVMCoder_Branch (PF := x86_64) coder IL_OP_BEQ dest ILEngineType_I ILEngineType_I4) dest
    (cells [VI4 (-1); VI (-1)]) true /\
  compiles_branch (PF := x86_64) coder
    (CVMCoder_Branch (PF := x86_64) coder IL_OP_BNE_UN dest ILEngineType_I ILEngineType_I4) dest
    (cells [VI4 (-1); VI (-1)]) true.
Proof.
  split; (eapply (binary_branch_compiles (PF := x86_64) coder _ dest (VI (-1)) (VI4 (-1))));
    [vm_compute; reflexivity..].
Qed.

(** ** Object types at labels *)

(** A class and one that inherits from it. *)
Definition base_class : Z := 6.
Definition derived_class : Z := 10.
Definition two_classes : TypeLibrary := {|
  kind__ _ := 0; refType__ _ := 0; modifier_type__ _ := 0; ILTypeGetWithMain t := t;
  enum_type__ t := t; ILTypeGetRank _ := 0; ILTypeGetElemType t := t; ILTypeIdentical := Z.eqb;
  ILTypeAssignCompatibleNonBoxing t1 t2 := (t1 =? t2) || (t1 =? derived_class) && (t2 =? base_class);
  ILTypeIsObjectClass _ := false; ILMethod_Signature _ := 0;
  ILClassFromType t := Some t; ILClassResolve c := c; ILClassToType c := c;
  ILClass_ParentClass c := if c =? derived_class then Some base_class else None;
  ILClass_IsInterface _ := false;
  ILClassInheritsFrom c1 c2 := (c1 =? c2) || (c1 =? derived_class) && (c2 =? base_class);
  ILClassImplements := Z.eqb |}.

(** The stack of a label is generalised after the code at the label was
    verified.  Code at [o] is entered with an object of the derived class on
    the stack and verified with it, where it may be returned as one; a later
    branch to [o] with an object of the base class is accepted all the same,
    though what it brings may not be returned. *)
Theorem label_generalised_too_late o :
  let derived := mk_item ILEngineType_O derived_class in
  let base := mk_item ILEngineType_O base_class in
  VALIDATE_TARGET_STACK (PF := x86_64) (TL := two_classes) 5 o false [] [derived] =
    Ret ([mk_branch_label o [derived]], [derived]) /\
  AssignCompatible (TL := two_classes) 5 derived derived_class false = Ret true /\
  VALIDATE_BRANCH_STACK (PF := x86_64) (TL := two_classes) 5 o [mk_branch_label o [derived]] [base] =
    Ret ([mk_branch_label o [base]], [base]) /\
  AssignCompatible (TL := two_classes) 5 base derived_class false = Ret false.
Proof.
  intros derived base. split; [done|]. split; [done|]. split; [|done].
  unfold VALIDATE_BRANCH_STACK, FindLabel, set_label_stack. cbn [bl_address].
  rewrite Z.eqb_refl. reflexivity.
Qed.

(** ** Returns *)

(** An int32 may be returned from a method whose result is a native int, but
    nothing is output to widen it, and one word is returned. *)
Theorem native_return_not_widened {PF : Platform} {TL : TypeLibrary} depth GetTypeSize ti rest labels coder :
  exists coder',
    verify_ret (CB := cvm_branch_coder GetTypeSize) depth false ILType_Int
      (mk_vstate (mk_item T_I4 ti :: rest) labels false coder) =
      Ret (mk_vstate rest labels true coder') /\
    Coder.code coder' = Coder.code coder ++ [COP_RETURN_1].
Proof.
  exists (CVM_ADJUST (CVM_OUT_RETURN coder 1) (-1)). split; [|reflexivity].
  unfold verify_ret, AssignCompatible, assign_native_pointer. cbn [engineType v_stack].
  by destruct (primitive_simple ILType_Int eq_refl) as (-> & _).
Qed.

(** ** Loads of bytes *)

(** A bool or a byte in the first 256 words of the frame is loaded by one
    instruction that pushes a word, but the coder counts no word: its height
    and maximum height stay as they were, and what the height check of the
    method asks for is one word short for every byte on the stack. *)
Theorem byte_load_not_counted {PF : Platform} {TL : TypeLibrary} GetTypeSize coder n type :
  type = ILType_Boolean \/ type = ILType_UInt8 -> 0 <= n < 256 ->
  let coder' := LoadLocal GetTypeSize coder n type in
  height coder' = height coder /\ maxHeight coder' = maxHeight coder /\
  exists bs, Coder.code coder' = Coder.code coder ++ bs /\ loads bs n V_U1.
Proof.
  intros Ht Hn coder'. assert (coder' = CVM_OUT_BYTE coder COP_BLOAD n) as ->.
  { unfold coder', LoadLocal, load_other, load_element. destruct Ht as [-> | ->]; simpl;
      by rewrite (proj2 (Z.ltb_lt n 256)) by lia. }
  split; [done|]. split; [done|]. exists [COP_BLOAD; n]. split; [|by apply loads_byte].
  cbn -[u8]. rewrite <-app_assoc. by assert (u8 n = n) as -> by width_lia.
Qed.

Lemma byte_load_not_counted_witness :
  let coder' := LoadLocal (PF := x86_64) (TL := no_library) (int_sizes (PF := x86_64)) new_coder 1 ILType_UInt8 in
  height coder' = 0 /\ maxHeight coder' = 0 /\
  exists bs, Coder.code coder' = [] ++ bs /\ loads (PF := x86_64) bs 1 V_U1.
Proof.
  apply (byte_load_not_counted (PF := x86_64) (TL := no_library) (int_sizes (PF := x86_64)) new_coder 1
    ILType_UInt8 (or_intror eq_refl)). lia.
Defined.
