(* ===== verification/Theorems.v ===== *)
(** * The verifier, the CVM coder and the interpreter together

    The main theorems: code that the verifier accepts runs on the CVM the way
    the reference semantics of IL says, each operation of the coder is right by
    itself, the tracked height covers the words that the code needs, and the
    limits of all this that the source has. *)
From Stdlib Require Import ZArith Lia String.
From stdpp Require Import base list option numbers.
From S2P Require Import Prelude Opcodes Cvm CvmArith CvmConv CvmCompare CvmStack CvmVar CvmBranch Interp JumpMask Scan Coder Verify ILSpec CvmProps CvmOps CvmConvOps CoderProps CoderConv VerifyProps Refine RefineBlock CoderHeight Verdict.
Import OpTable.

Local Open Scope Z_scope.

(** No class has a size in the examples. *)
Definition no_classes : Z -> Z := fun _ => 0.
#[local] Instance example_coder {PF : Platform} : ILCoder ILCVMCoder := cvm_coder no_classes.
Definition fresh : ILCVMCoder := mk_coder [] 0 0 0 [] 0 [] [].
Definition no_jumps (n : nat) : list Z := repeat 0 n.

(** ldc.i4.2; ldc.i4.3; mul; conv.i8; ldc.i4.1; conv.i8; ceq; ldc.i4.0; ceq *)
Definition example_code : list Z :=
  [0x18; 0x19; 0x5A; 0x6A; 0x17; 0x6A; 0xFE; 0x01; 0x16; 0xFE; 0x01].

Example example_accepted :
  exists coder', verify_loop (PF := x86_64) 20 false 2 example_code (no_jumps 2) 0 11 [] fresh =
    Ret ([mk_item T_I4 0], coder') /\
  Coder.code coder' = [COP_LDC_I4_2; COP_LDC_I4_3; COP_IMUL; COP_I2L; COP_LDC_I4_1; COP_I2L;
    COP_PREFIX; COP_PREFIX_LCMP; COP_PREFIX; COP_PREFIX_SETNE].
Proof. eexists. split; vm_compute; reflexivity. Qed.

Definition example_coder' : ILCVMCoder :=
  mk_coder [COP_LDC_I4_2; COP_LDC_I4_3; COP_IMUL; COP_I2L; COP_LDC_I4_1; COP_I2L;
    COP_PREFIX; COP_PREFIX_LCMP; COP_PREFIX; COP_PREFIX_SETNE] 1 0 2 [] 0 [] [].

(** ** Verified blocks *)





(** ** The operations of the coder *)



(** CVMCoder_Shift is a correct compiler of the shifts, the count taken
    modulo the width and a native count narrowed first. *)
Theorem CVMCoder_Shift_correct {PF : Platform} coder opcode v1 v2 out :
  wf_value v1 -> il_shift opcode v1 v2 = Some out ->
  compiles coder (CVMCoder_Shift coder opcode (type_of v1) (type_of v2)) [v2; v1] out.
Proof. apply CVMCoder_Shift_compiles. Qed.

Lemma CVMCoder_Shift_correct_witness :
  compiles (PF := i386) fresh
    (CVMCoder_Shift (PF := i386) fresh IL_OP_SHR ILEngineType_I8 ILEngineType_I)
    [VI 65; VI8 (-5)] (Values [VI8 (-3)]).
Proof.
  apply (CVMCoder_Shift_correct (PF := i386) fresh IL_OP_SHR (VI8 (-5)) (VI 65));
    vm_compute; reflexivity.
Defined.

(** CVMCoder_Unary is a correct compiler of neg and not. *)
Theorem CVMCoder_Unary_correct {PF : Platform} coder opcode v out :
  il_unary opcode v = Some out ->
  compiles coder (CVMCoder_Unary coder opcode (type_of v)) [v] out.
Proof. apply CVMCoder_Unary_compiles. Qed.

Lemma CVMCoder_Unary_correct_witness :
  compiles (PF := i386) fresh (CVMCoder_Unary (PF := i386) fresh IL_OP_NEG ILEngineType_I4)
    [VI4 (-0x80000000)] (Values [VI4 (-0x80000000)]).
Proof.
  apply (CVMCoder_Unary_correct (PF := i386) fresh IL_OP_NEG (VI4 (-0x80000000))).
  vm_compute. reflexivity.
Defined.

(** C22: CVMCoder_Conv is a correct compiler of every conversion between
    integer types, the checked ones with their ranges. *)
Theorem CVMCoder_Conv_correct {PF : Platform} coder opcode v out :
  il_conv opcode v = Some out ->
  compiles coder (CVMCoder_Conv coder opcode (type_of v)) [v] out.
Proof. apply CVMCoder_Conv_compiles. Qed.

Lemma CVMCoder_Conv_correct_witness :
  compiles (PF := i386) fresh (CVMCoder_Conv (PF := i386) fresh IL_OP_CONV_OVF_U2 ILEngineType_I8)
    [VI8 70000] (Raise Overflow).
Proof.
  apply (CVMCoder_Conv_correct (PF := i386) fresh IL_OP_CONV_OVF_U2 (VI8 70000)).
  vm_compute. reflexivity.
Defined.

(** CVMCoder_Compare is a correct compiler of ceq, cgt, clt and their
    unsigned forms, and of their negations. *)
Theorem CVMCoder_Compare_correct {PF : Platform} coder opcode v1 v2 r inv :
  il_compare opcode v1 v2 = Some r ->
  compiles coder (CVMCoder_Compare coder opcode (type_of v1) (type_of v2) inv) [v2; v1]
    (Values [VI4 (b2z (xorb inv r))]).
Proof. apply CVMCoder_Compare_compiles. Qed.

Lemma CVMCoder_Compare_correct_witness :
  compiles (PF := i386) fresh
    (CVMCoder_Compare (PF := i386) fresh (IL_OP_PREFIX + IL_PREFIX_OP_CLT_UN)
      ILEngineType_I8 ILEngineType_I8 true)
    [VI8 1; VI8 (-1)] (Values [VI4 1]).
Proof.
  apply (CVMCoder_Compare_correct (PF := i386) fresh (IL_OP_PREFIX + IL_PREFIX_OP_CLT_UN)
    (VI8 (-1)) (VI8 1) false true).
  vm_compute. reflexivity.
Defined.

(** CVMCoder_Constant is a correct compiler of the integer constants, for
    every argument in the code. *)
Theorem CVMCoder_Constant_correct {PF : Platform} coder opcode arg v :
  Forall is_byte arg -> il_const opcode arg = Some v ->
  exists coder', CVMCoder_Constant coder opcode arg = Some coder' /\
    compiles coder coder' [] (Values [v]).
Proof. apply CVMCoder_Constant_compiles. Qed.

Lemma CVMCoder_Constant_correct_witness :
  exists coder', CVMCoder_Constant (PF := i386) fresh IL_OP_LDC_I8
    [0xFE; 0xFF; 0xFF; 0xFF; 0xFF; 0xFF; 0xFF; 0xFF] = Some coder' /\
    compiles (PF := i386) fresh coder' [] (Values [VI8 (-2)]).
Proof.
  apply (CVMCoder_Constant_correct (PF := i386) fresh IL_OP_LDC_I8);
    [repeat constructor; unfold is_byte; lia|vm_compute; reflexivity].
Defined.

(** CVMCoder_Dup and CVMCoder_Pop duplicate and remove a value of any
    integer type, whatever its number of words. *)
Theorem CVMCoder_Dup_Pop_correct {PF : Platform} GetTypeSize coder v ti :
  compiles coder (CVMCoder_Dup GetTypeSize coder (type_of v) ti) [v] (Values [v; v]) /\
  compiles coder (CVMCoder_Pop GetTypeSize coder (type_of v) ti) [v] (Values []).
Proof. split; [apply CVMCoder_Dup_compiles|apply CVMCoder_Pop_compiles]. Qed.

(** ** The verifier by itself *)

(** An accepted instruction pops and pushes the numbers of items that its
    row in the opcode table gives, had the ones to pop, and leaves at most
    maxStack items. *)
Theorem stack_effect {PF : Platform} {C} {CC : ILCoder C} unsafe maxStack mem mask o opcode row
    stack (coder : C) stack' coder' sz :
  Forall is_byte mem -> il_fetch mem o = Some (opcode, row) ->
  verify_insn unsafe maxStack mem mask o stack coder = Ret (stack', coder', sz) ->
  popped row <= Z.of_nat (length stack) /\
  Z.of_nat (length stack') = Z.of_nat (length stack) - popped row + pushed row /\
  Z.of_nat (length stack') <= maxStack.
Proof. apply verify_insn_effect. Qed.

Lemma stack_effect_witness :
  2 <= 3 /\ 2 = 3 - 2 + 1 /\ 2 <= 3.
Proof.
  apply (stack_effect false 3 [0x58; 0x00] (no_jumps 1) 0 IL_OP_ADD
    (OPDEF "add"%string 2 1 IL_OPCODE_ARGS_NONE 1) [mk_item T_I4 0; mk_item T_I4 0; mk_item T_F 0] tt
    [mk_item T_I4 0; mk_item T_F 0] tt 1);
    [repeat constructor; unfold is_byte; lia|vm_compute; reflexivity|vm_compute; reflexivity].
Defined.

(** The main loop ends: every accepted instruction advances, so one unit
    of fuel for each byte of memory from the start on is always enough. *)
Theorem verify_loop_total {PF : Platform} {C} {CC : ILCoder C} fuel unsafe maxStack mem mask o len
    stack (coder : C) :
  Forall is_byte mem -> Z.of_nat (length mem) < o + Z.of_nat fuel -> (0 < fuel)%nat ->
  verify_loop fuel unsafe maxStack mem mask o len stack coder <> NoFuel.
Proof. apply verify_loop_fuel. Qed.

Lemma verify_loop_total_witness :
  verify_loop 3 false 8 [0x17; 0x26] (no_jumps 1) 0 2 [] tt <> NoFuel.
Proof.
  apply (verify_loop_total 3 false 8 [0x17; 0x26]);
    [repeat constructor; unfold is_byte; lia|simpl; lia|lia].
Defined.

Definition ends_with_compare : list Z := [0x17; 0x17; 0xFE; 0x01].

Lemma ends_with_compare_steps {PF : Platform} {C} {CC : ILCoder C} tail (coder : C) o n r :
  o = 0 /\ n = 0%nat \/ o = 1 /\ n = 1%nat ->
  verify_insn false 8 (ends_with_compare ++ tail) (no_jumps 1) o (repeat (mk_item T_I4 0) n) coder =
    Ret r ->
  exists coder', r = (repeat (mk_item T_I4 0) (S n), coder', 1).
Proof.
  intros Hon.
  assert (verify_insn false 8 (ends_with_compare ++ tail) (no_jumps 1) o (repeat (mk_item T_I4 0) n) coder =
    ('(stack, coder) ← push_constant T_I4 IL_OP_LDC_I4_1
        (drop (Z.to_nat (o + 1)) (ends_with_compare ++ tail)) (repeat (mk_item T_I4 0) n) coder;
      Ret (stack, coder, 1))) as ->
    by (destruct PF as [[] ? ? ? ?]; destruct Hon as [[-> ->]|[-> ->]]; reflexivity).
  unfold push_constant. destruct (ILCoderConstant _ _ _) as [c|]; [|done].
  intros [= <-]. by exists c.
Qed.

(** The look-ahead of a comparison reads past the end of the code.  The
    method "ldc.i4.1; ldc.i4.1; ceq" is accepted when a ret is what follows it
    in memory, but when "ldc.i4.1; xor" follows it, no run of the verifier
    accepts it, with any coder and however the memory goes on. *)
Theorem look_ahead_beyond_code {PF : Platform} {C} {CC : ILCoder C} (coder : C) fuel tail r :
  Z.of_nat (length tail) < 0x10000000 ->
  verify_loop 5 false 8 (ends_with_compare ++ [0x2A]) (no_jumps 1) 0 4 [] tt =
    Ret ([mk_item T_I4 0], tt) /\
  verify_loop fuel false 8 (ends_with_compare ++ [0x17; 0x61] ++ tail) (no_jumps 1) 0 4 [] coder <>
    Ret r.
Proof.
  intros Ht. split; [destruct PF as [[] ? ? ? ?]; vm_compute; reflexivity|]. intros H.
  assert (Z.of_nat (length (ends_with_compare ++ [0x17; 0x61] ++ tail)) + 12 < 0x100000000) as Hm
    by (unfold ends_with_compare; cbn [app Datatypes.length]; lia).
  apply verify_loop_step in H as (f1 & s1 & c1 & z1 & _ & H1 & _ & H); [|exact Hm|lia].
  destruct (ends_with_compare_steps _ _ 0 0 _ (or_introl (conj eq_refl eq_refl)) H1) as [c1' [= -> -> ->]].
  apply verify_loop_step in H as (f2 & s2 & c2 & z2 & _ & H2 & _ & H); [|exact Hm|lia].
  destruct (ends_with_compare_steps _ _ 1 1 _ (or_intror (conj eq_refl eq_refl)) H2) as [c2' [= -> -> ->]].
  apply verify_loop_step in H as (f3 & s3 & c3 & z3 & _ & H3 & Hz & _); [|exact Hm|lia].
  assert (verify_insn false 8 (ends_with_compare ++ [0x17; 0x61] ++ tail) (no_jumps 1) (0 + 1 + 1)
    (repeat (mk_item T_I4 0) 2) c2' = Ret ([mk_item T_I4 0],
      ILCoderCompare c2' (IL_OP_PREFIX + IL_PREFIX_OP_CEQ) T_I4 T_I4 true, 4)) as E
    by (destruct PF as [[] ? ? ? ?]; reflexivity).
  pose proof (eq_trans (eq_sym E) H3) as [= _ _ <-]. lia.
Qed.

Lemma look_ahead_beyond_code_witness :
  verify_loop 5 false 8 (ends_with_compare ++ [0x2A]) (no_jumps 1) 0 4 [] tt =
    Ret ([mk_item T_I4 0], tt) /\
  verify_loop 100 false 8 (ends_with_compare ++ [0x17; 0x61] ++ [0x2A; 0x2A]) (no_jumps 1) 0 4 [] tt <>
    Ret ([mk_item T_I4 0], tt).
Proof. apply (look_ahead_beyond_code tt 100 [0x2A; 0x2A]). simpl. lia. Defined.

(** The matrices have no rows for typed references.  An arithmetic,
    comparison or shift instruction under which mkrefany has left a typed
    reference makes the verifier read outside its matrix. *)
Theorem typed_reference_operand {PF : Platform} {C} {CC : ILCoder C} unsafe opcode
    mem mask o n ti i2 rest (coder : C) :
  let stack := i2 :: mk_item ILEngineType_TypedRef ti :: rest in
  verify_add unsafe opcode stack coder = Wild /\ verify_sub unsafe opcode stack coder = Wild /\
  verify_numeric opcode stack coder = Wild /\ verify_integer opcode stack coder = Wild /\
  verify_shift opcode stack coder = Wild /\
  verify_ceq unsafe mem mask o opcode n stack coder = Wild /\
  verify_compare mem mask o opcode n stack coder = Wild.
Proof.
  intros stack. unfold stack.
  repeat split; try (by destruct unsafe). unfold verify_compare. cbn [top2 mbind vres_bind engineType].
  by rewrite andb_false_r.
Qed.

(** ** The height that the coder tracks *)

(** In safe code without conv.ovf.i8 and conv.ovf.u8 (or where a long is
    one word) and without controlled-mutability pointers, the height moves by
    exactly the difference of ComputeStackSize on the verifier's stacks,
    whatever the types on it, and the maximum stays above the height. *)
Theorem coder_height_tracks {PF : Platform} GetTypeSize fuel maxStack mem mask o len
    stack coder stack' coder' :
  Forall is_byte mem -> CVM_WORDS_PER_LONG = 1 \/ without_ovf_i8 mem = true -> no_cm stack ->
  verify_loop (CC := cvm_coder GetTypeSize) fuel false maxStack mem mask o len stack coder =
    Ret (stack', coder') ->
  height coder' - height coder =
    ComputeStackSize GetTypeSize stack' - ComputeStackSize GetTypeSize stack /\
  minHeight coder' = minHeight coder /\ maxHeight coder <= maxHeight coder' /\
  (height coder <= maxHeight coder -> height coder' <= maxHeight coder').
Proof.
  intros Hb Hx Hc Hv. destruct (verify_loop_tracked _ _ _ _ _ _ _ _ _ _ _ Hb Hx Hc Hv) as [_ H].
  unfold moves in H. lia.
Qed.

(** conv.r8; dup; conv.i8; pop *)
Lemma coder_height_tracks_witness :
  let coder' := mk_coder [COP_L2F; COP_F2D; COP_DUP_N; 3; COP_F2L; COP_POP2] 3 0 6 [] 0 [] [] in
  height coder' - 2 =
    ComputeStackSize (PF := i386) no_classes [mk_item T_F 0] -
    ComputeStackSize (PF := i386) no_classes [mk_item T_I8 0] /\
  minHeight coder' = 0 /\ 2 <= maxHeight coder' /\ (2 <= 2 -> height coder' <= maxHeight coder').
Proof.
  apply (coder_height_tracks (PF := i386) no_classes 9 2 [0x6C; 0x25; 0x6A; 0x26] (no_jumps 1) 0 4
    [mk_item T_I8 0] (mk_coder [] 2 0 2 [] 0 [] []) [mk_item T_F 0]);
    [repeat constructor; unfold is_byte; lia|right; reflexivity|repeat constructor; done
    |vm_compute; reflexivity].
Defined.

(** Conv.ovf.i8 loses a word.  On i386, where a long takes two words, the
    conversion of an int outputs i2l, which needs one more word, but the
    height and the recorded maximum stay as they were. *)
Theorem conv_ovf_i8_height :
  let coder := mk_coder [] 1 0 1 [] 0 [] [] in
  let stack := [mk_item T_I4 0] in
  exists stack' coder',
    verify_insn (PF := i386) (CC := cvm_coder (PF := i386) no_classes) false 8 [IL_OP_CONV_OVF_I8; 0x2A]
      (no_jumps 1) 0 stack coder = Ret (stack', coder', 1) /\
    Coder.code coder' = [COP_I2L] /\
    ComputeStackSize (PF := i386) no_classes stack' =
      ComputeStackSize (PF := i386) no_classes stack + 1 /\
    height coder' = height coder /\ maxHeight coder' = maxHeight coder.
Proof.
  intros coder stack. exists [mk_item T_I8 0], (mk_coder [COP_I2L] 1 0 1 [] 0 [] []).
  repeat split; vm_compute; reflexivity.
Qed.

(** A controlled-mutability pointer is not duplicated.  The verifier
    accepts dup on it and counts one more word, but the coder outputs nothing
    and keeps its height; in the same way it does not pop one. *)
Theorem dup_controlled_pointer {PF : Platform} GetTypeSize ti rest coder :
  let item := mk_item ILEngineType_CM ti in
  verify_dup (CC := cvm_coder GetTypeSize) (item :: rest) coder = Ret (item :: item :: rest, coder) /\
  verify_pop (CC := cvm_coder GetTypeSize) (item :: rest) coder = Ret (rest, coder) /\
  ComputeStackSize GetTypeSize (item :: item :: rest) =
    ComputeStackSize GetTypeSize (item :: rest) + 1.
Proof.
  intros item. split; [done|]. split; [done|].
  change (1 + (1 + ComputeStackSize GetTypeSize rest) = 1 + ComputeStackSize GetTypeSize rest + 1). lia.
Qed.

(** ** Unsafe code *)

(** In unsafe code the difference of two pointers is accepted as a native
    int, and what is output for it is the subtraction of floats. *)
Theorem pointer_difference {PF : Platform} GetTypeSize t1 t2 ti1 ti2 rest coder :
  is_pointer t1 = true -> is_pointer t2 = true ->
  exists coder',
    verify_sub (CC := cvm_coder GetTypeSize) true IL_OP_SUB
      (mk_item t2 ti2 :: mk_item t1 ti1 :: rest) coder = Ret (mk_item T_I 0 :: rest, coder') /\
    Coder.code coder' = Coder.code coder ++ [COP_FSUB].
Proof.
  destruct PF as [[] ? ? ? ?], t1, t2; try done; intros _ _; (eexists; split; [reflexivity|]); reflexivity.
Qed.

Lemma pointer_difference_witness :
  exists coder',
    verify_sub (CC := cvm_coder (PF := i386) no_classes) true IL_OP_SUB
      [mk_item T_M 1; mk_item T_T 2] fresh = Ret ([mk_item T_I 0], coder') /\
    Coder.code coder' = [] ++ [COP_FSUB].
Proof. apply (pointer_difference (PF := i386) no_classes T_T T_M 2 1 [] fresh); reflexivity. Defined.

(** In unsafe code the conversion of a pointer or an object reference to
    a 64-bit integer is accepted with the result type I8, but nothing is
    output for it, also where a pointer is one word and a long two. *)
Theorem unsafe_pointer_to_long {PF : Platform} GetTypeSize t ti rest coder :
  t = T_M \/ t = T_O \/ t = T_T ->
  verify_conv (CC := cvm_coder GetTypeSize) true IL_OP_CONV_I8 T_I8 (mk_item t ti :: rest) coder =
    Ret (mk_item T_I8 0 :: rest, coder).
Proof.
  destruct PF as [[] ? ? ? ?]; intros [->|[->| ->]]; reflexivity.
Qed.

Lemma unsafe_pointer_to_long_witness :
  verify_conv (CC := cvm_coder (PF := i386) no_classes) true IL_OP_CONV_I8 T_I8
    [mk_item T_O 5] fresh = Ret ([mk_item T_I8 0], fresh).
Proof. apply (unsafe_pointer_to_long (PF := i386) no_classes T_O 5 [] fresh). auto. Defined.

(** ** The interpreter *)

(** The instruction of each operator at each width. *)
Definition arithmetic_instructions : list (Z * (width * Z)) :=
  [(COP_IADD, (W32, IL_OP_ADD)); (COP_LADD, (W64, IL_OP_ADD));
   (COP_IADD_OVF, (W32, IL_OP_ADD_OVF)); (COP_LADD_OVF, (W64, IL_OP_ADD_OVF));
   (COP_IADD_OVF_UN, (W32, IL_OP_ADD_OVF_UN)); (COP_LADD_OVF_UN, (W64, IL_OP_ADD_OVF_UN));
   (COP_ISUB, (W32, IL_OP_SUB)); (COP_LSUB, (W64, IL_OP_SUB));
   (COP_ISUB_OVF, (W32, IL_OP_SUB_OVF)); (COP_LSUB_OVF, (W64, IL_OP_SUB_OVF));
   (COP_ISUB_OVF_UN, (W32, IL_OP_SUB_OVF_UN)); (COP_LSUB_OVF_UN, (W64, IL_OP_SUB_OVF_UN));
   (COP_IMUL, (W32, IL_OP_MUL)); (COP_LMUL, (W64, IL_OP_MUL));
   (COP_IMUL_OVF, (W32, IL_OP_MUL_OVF)); (COP_LMUL_OVF, (W64, IL_OP_MUL_OVF));
   (COP_IMUL_OVF_UN, (W32, IL_OP_MUL_OVF_UN)); (COP_LMUL_OVF_UN, (W64, IL_OP_MUL_OVF_UN));
   (COP_IDIV, (W32, IL_OP_DIV)); (COP_LDIV, (W64, IL_OP_DIV));
   (COP_IDIV_UN, (W32, IL_OP_DIV_UN)); (COP_LDIV_UN, (W64, IL_OP_DIV_UN));
   (COP_IREM, (W32, IL_OP_REM)); (COP_LREM, (W64, IL_OP_REM));
   (COP_IREM_UN, (W32, IL_OP_REM_UN)); (COP_LREM_UN, (W64, IL_OP_REM_UN));
   (COP_IAND, (W32, IL_OP_AND)); (COP_LAND, (W64, IL_OP_AND));
   (COP_IOR, (W32, IL_OP_OR)); (COP_LOR, (W64, IL_OP_OR));
   (COP_IXOR, (W32, IL_OP_XOR)); (COP_LXOR, (W64, IL_OP_XOR))].

(** What an instruction should leave on the stack, or the class of exception
    that the documentation of the instructions in cvm_arith.c gives. *)
Definition documented_result (w : width) (r : il_exn + Z) : exn + list cell :=
  match r with inr z => inr [(w, z)] | inl e => inl (documented_exn e) end.



(** The checked narrowing instructions on ints raise OverflowException
    exactly outside the range of their result type, and leave a number in
    range as it is. *)
Theorem int_tests_correct {PF : Platform} op lo hi a :
  (op, (lo, hi)) ∈ int_tests ->
  performs [COP_PREFIX; op] [(W32, a)]
    (if (lo <=? a) && (a <=? hi) then inr [(W32, a)] else inl OverflowException).
Proof. apply performs_int_test. Qed.

Lemma int_tests_correct_witness :
  (COP_PREFIX_I2B_OVF, (-128, 127)) ∈ int_tests /\
  performs (PF := i386) [COP_PREFIX; COP_PREFIX_I2B_OVF] [(W32, 128)] (inl OverflowException).
Proof.
  assert ((COP_PREFIX_I2B_OVF, (-128, 127)) ∈ int_tests) as H by apply list_elem_of_here.
  split; [exact H|]. apply (int_tests_correct (PF := i386) _ _ _ 128 H).
Defined.

(** A zero divisor gives two different exceptions: ArithmeticException
    from the 32-bit divisions and remainders, DivideByZeroException from the
    64-bit ones. *)
Theorem zero_divisor_exceptions {PF : Platform} a :
  Forall (fun op => performs [op] [(W32, 0); (W32, a)] (inl ArithmeticException))
    [COP_IDIV; COP_IDIV_UN; COP_IREM; COP_IREM_UN] /\
  Forall (fun op => performs [op] [(W64, 0); (W64, a)] (inl DivideByZeroException))
    [COP_LDIV; COP_LDIV_UN; COP_LREM; COP_LREM_UN].
Proof.
  split; repeat (apply Forall_cons; [|]); try apply Forall_nil.
  - by apply (performs_IDIV a 0 (inl (DivideByZero W32))).
  - by apply (performs_IDIV_UN a 0 (inl (DivideByZero W32))).
  - by apply (performs_IREM a 0 (inl (DivideByZero W32))).
  - by apply (performs_IREM_UN a 0 (inl (DivideByZero W32))).
  - by apply (performs_LDIV a 0 (inl (DivideByZero W64))).
  - by apply (performs_LDIV_UN a 0 (inl (DivideByZero W64))).
  - by apply (performs_LREM a 0 (inl (DivideByZero W64))).
  - by apply (performs_LREM_UN a 0 (inl (DivideByZero W64))).
Qed.

(** No run of the interpreter, whatever the code, changes the size of the
    stack area: every step that does not reach outside it moves stacktop
    within it and overwrites words in place. *)
Theorem run_keeps_stack_area {PF : Platform} n code st o :
  run n code st = Some o -> total (state_of o) = total st.
Proof. apply run_keeps. Qed.

Lemma run_keeps_stack_area_witness :
  total (mk_cvm 2 0 [7; 7] [7]) = total (mk_cvm 0 0 [7; 6] [5]).
Proof.
  apply (run_keeps_stack_area (PF := x86_64) 2 [COP_POP; COP_DUP] (mk_cvm 0 0 [7; 6] [5])
    (Next (mk_cvm 2 0 [6; 6] [5]))).
  vm_compute. reflexivity.
Defined.

(** The conditional branches on ints, short or long, take the branch
    exactly when their comparison of the operands holds, signed or unsigned,
    and pop the two operands either way; a branch not taken goes on behind
    the 6 bytes of the instruction. *)
Theorem int_branches_correct {PF : Platform} op test code st d x y l :
  (op, test) ∈ int_branches -> below st = y :: x :: l ->
  pc_at code (pc st) 0 = Some op /\ CVM_ARG_BRANCH_SHORT code (pc st) = Some d \/
  pc_at code (pc st) 0 = Some COP_BR_LONG /\ pc_at code (pc st) 1 = Some op /\
    CVM_ARG_BRANCH_LONG code (pc st) = Some d ->
  step code st = Some (Next (branched test (pc st) d (frame st) x y l (above st))).
Proof. apply step_int_branch. Qed.

Lemma int_branches_correct_witness :
  (COP_BEQ, (true, Z.eqb)) ∈ int_branches /\
  step (H := i386) [COP_BR_LONG; COP_BEQ; 20; 0; 0; 0] (mk_cvm 0 0 [5; 5; 9] []) =
    Some (Next (mk_cvm 20 0 [9] [5; 5])).
Proof.
  assert ((COP_BEQ, (true, Z.eqb)) ∈ int_branches) as H by apply list_elem_of_here.
  split; [exact H|].
  apply (int_branches_correct (PF := i386) COP_BEQ (true, Z.eqb) _ (mk_cvm 0 0 [5; 5; 9] []) 20 5 5 [9]);
    [exact H|reflexivity|right; repeat split; vm_compute; reflexivity].
Defined.

(** A local variable keeps what is stored in it.  A store to local [n]
    and a load from it, each in the form for the size of [n], put the int back
    on the stack, and no other word of the stack below changes. *)
Theorem local_roundtrip {PF : Platform} c st n v l :
  code_at c (pc st)
    (local_bytes COP_ISTORE_0 COP_ISTORE n ++ local_bytes COP_ILOAD_0 COP_ILOAD n) ->
  below st = v :: l -> 0 <= n <= IL_MAX_UINT32 -> 0 <= frame st + n < Z.of_nat (length l) ->
  exists st', run 2 c st = Some (Next st') /\ frame st' = frame st /\
    exists y l', below st' = y :: l' /\ i32 y = i32 v /\ length l' = length l /\
      forall j, 0 <= j < Z.of_nat (length l) ->
        if j =? frame st + n then exists x, rev l' !! Z.to_nat j = Some x /\ i32 x = i32 v
        else rev l' !! Z.to_nat j = rev l !! Z.to_nat j.
Proof. apply run_store_load. Qed.

Lemma local_roundtrip_witness :
  exists st', run (H := i386) 2 [COP_ISTORE; 4; COP_ILOAD; 4] (mk_cvm 0 0 [99; 5; 4; 3; 2; 1] []) =
      Some (Next st') /\ frame st' = 0 /\
    exists y l', below st' = y :: l' /\ i32 y = i32 99 /\ length l' = 5%nat /\
      forall j, 0 <= j < 5 ->
        if j =? 4 then exists x, rev l' !! Z.to_nat j = Some x /\ i32 x = i32 99
        else rev l' !! Z.to_nat j = rev [5; 4; 3; 2; 1] !! Z.to_nat j.
Proof.
  apply (local_roundtrip (PF := i386) [COP_ISTORE; 4; COP_ILOAD; 4]
    (mk_cvm 0 0 [99; 5; 4; 3; 2; 1] []) 4 99 [5; 4; 3; 2; 1]);
    [exists [], []; split; reflexivity|reflexivity|unfold IL_MAX_UINT32; lia|simpl; lia].
Defined.
