(* ===== verification/Bignum.v ===== *)
(** * Big numbers (support/bignum.c): the model

    A number is a sign and its 32-bit words, the least significant first;
    [size] is the length of the words.  The loops over words are recursions
    over the lists, a pointer into the words ([normx->words + j]) is the list
    without its first [j] elements, and every operation of the C code on
    [ILUInt32] and [ILUInt64] has its wrap-around.  An allocation is taken to
    succeed; a write or read outside the words of a number is [Overrun], and
    [OutOfFuel] a loop that has not ended.  The sizes, an ILInt32 in the source,
    and the counts of bytes are unbounded here: the model is of numbers with
    fewer than 2^31 words. *)
From Stdlib Require Import ZArith Lia.
From stdpp Require Import base list option numbers.
From S2P Require Import Prelude.

Local Open Scope Z_scope.

(** ** Results *)

(** What a function does: it returns a value, returns 0, touches words it
    does not have, or needs more fuel. *)
Inductive result (A : Type) : Type :=
  | Returns (a : A)
  | Fails
  | Overrun
  | OutOfFuel.
Arguments Returns {A} a.
Arguments Fails {A}.
Arguments Overrun {A}.
Arguments OutOfFuel {A}.

#[global] Instance result_ret : MRet result := @Returns.
#[global] Instance result_bind : MBind result := fun A B f r =>
  match r with
  | Returns a => f a
  | Fails => Fails
  | Overrun => Overrun
  | OutOfFuel => OutOfFuel
  end.

(** ** Numbers *)

Record ILBigNum := { neg : bool; words : list Z }.

Definition size (num : ILBigNum) : nat := length (words num).

(** [words[size - 1]] *)
Definition top_word (ws : list Z) : Z := default 0 (list.last ws).

(** The words without the zeros at their end. *)
Fixpoint trim (ws : list Z) : list Z :=
  match ws with
  | [] => []
  | w :: ws' =>
      match trim ws' with
      | [] => if w =? 0 then [] else [w]
      | t => w :: t
      end
  end.

Definition NormalizeBigNum (num : ILBigNum) : ILBigNum :=
  match trim (words num) with
  | [] => {| neg := false; words := [] |}
  | ws => {| neg := neg num; words := ws |}
  end.

Definition ILBigNumFromInt (num : Z) : ILBigNum :=
  if negb (num =? 0) then {| neg := false; words := [num] |}
  else {| neg := false; words := [] |}.

Definition ILBigNumIsZero (num : ILBigNum) : bool :=
  match words num with [] => true | _ => false end.

Definition ILBigNumCopy (num : ILBigNum) : ILBigNum :=
  match words num with
  | [] => ILBigNumFromInt 0
  | ws => {| neg := neg num; words := ws |}
  end.

(** ** Bytes *)

(** Four bytes a word; the first bytes are the most significant. *)
Fixpoint words_of_bytes (bytes : list Z) : list Z :=
  match bytes with
  | b0 :: b1 :: b2 :: b3 :: bytes' =>
      words_of_bytes bytes' ++
      [Z.lor (Z.lor (Z.lor (u32 (Z.shiftl b0 24)) (Z.shiftl b1 16)) (Z.shiftl b2 8)) b3]
  | _ => []
  end.

Definition ILBigNumFromBytes (bytes : list Z) : ILBigNum :=
  if (Z.of_nat (length bytes) + 3) / 4 <=? 0 then ILBigNumFromInt 0
  else
    let rest := (length bytes mod 4)%nat in
    let low := words_of_bytes (drop rest bytes) in
    let ws :=
      match rest, bytes with
      | 1%nat, b0 :: _ => low ++ [b0]
      | 2%nat, b0 :: b1 :: _ => low ++ [Z.lor (Z.shiftl b0 8) b1]
      | 3%nat, b0 :: b1 :: b2 :: _ =>
          low ++ [Z.lor (Z.lor (Z.shiftl b0 16) (Z.shiftl b1 8)) b2]
      | _, _ => low
      end in
    NormalizeBigNum {| neg := false; words := ws |}.

Definition ILBigNumByteCount (num : ILBigNum) : Z :=
  let numBytes := Z.of_nat (size num) * 4 in
  if (0 <? size num)%nat then
    let top := top_word (words num) in
    if Z.land top 0xFF000000 =? 0 then
      if negb (Z.land top 0x00FF0000 =? 0) then numBytes - 1
      else if negb (Z.land top 0x0000FF00 =? 0) then numBytes - 2
      else numBytes - 3
    else numBytes
  else 1.

(** The last loop: the words from the most significant. *)
Fixpoint bytes_of_words (ws : list Z) : list Z :=
  match ws with
  | [] => []
  | w :: ws' =>
      bytes_of_words ws' ++
      [u8 (Z.shiftr w 24); u8 (Z.shiftr w 16); u8 (Z.shiftr w 8); u8 w]
  end.

(** The bytes that are stored. *)
Definition ILBigNumToBytes (num : ILBigNum) : list Z :=
  if (size num =? 0)%nat then [0]
  else
    let top := top_word (words num) in
    let low := take (size num - 1) (words num) in
    if Z.land top 0xFF000000 =? 0 then
      if negb (Z.land top 0x00FF0000 =? 0) then
        [u8 (Z.shiftr top 16); u8 (Z.shiftr top 8); u8 top] ++ bytes_of_words low
      else if negb (Z.land top 0x0000FF00 =? 0) then
        [u8 (Z.shiftr top 8); u8 top] ++ bytes_of_words low
      else [u8 top] ++ bytes_of_words low
    else bytes_of_words (words num).

(** ** Comparison *)

(** The words from the most significant to the least. *)
Fixpoint compare_down (xs ys : list Z) : Z :=
  match xs, ys with
  | x :: xs', y :: ys' =>
      if x <? y then -1 else if x >? y then 1 else compare_down xs' ys'
  | _, _ => 0
  end.

Definition ILBigNumCompareAbs (numx numy : ILBigNum) : Z :=
  if (size numx <? size numy)%nat then -1
  else if (size numy <? size numx)%nat then 1
  else if (size numx =? 0)%nat then 0
  else compare_down (reverse (words numx)) (reverse (words numy)).

Definition ILBigNumCompare (numx numy : ILBigNum) : Z :=
  if neg numx && negb (neg numy) then -1
  else if negb (neg numx) && neg numy then 1
  else if neg numx then - ILBigNumCompareAbs numx numy
  else ILBigNumCompareAbs numx numy.

(** ** Addition and subtraction *)

(** The second and third loop: one number has no more words. *)
Fixpoint add_rest (carry : bool) (xs : list Z) : list Z :=
  match xs with
  | [] => if carry then [1] else []
  | x :: xs' =>
      if carry then
        let sum := u32 (x + 1) in
        sum :: add_rest (if negb (sum =? 0) then false else true) xs'
      else x :: add_rest false xs'
  end.

Fixpoint add_words (carry : bool) (xs ys : list Z) : list Z :=
  match xs, ys with
  | x :: xs', y :: ys' =>
      if carry then
        let sum := u32 (x + y + 1) in
        sum :: add_words (if sum >? x then false else true) xs' ys'
      else
        let sum := u32 (x + y) in
        sum :: add_words (if sum <? x then true else false) xs' ys'
  | [], _ => add_rest carry ys
  | _, [] => add_rest carry xs
  end.

(** The words that [BigNumAdd] allocates for the sum. *)
Definition add_size (numx numy : ILBigNum) : nat :=
  if (size numy <? size numx)%nat then
    if top_word (words numx) =? IL_MAX_UINT32 then S (size numx) else size numx
  else if (size numx <? size numy)%nat then
    if top_word (words numy) =? IL_MAX_UINT32 then S (size numy) else size numy
  else if (0 <? size numx)%nat then
    if u64 (top_word (words numx) + top_word (words numy) + 1) >? IL_MAX_UINT32
    then S (size numx) else size numx
  else 1.

(** The subtraction of the modulus in [BigNumAdd], which compares the
    difference with the word of the modulus. *)
Fixpoint reduce_rest (carry : bool) (ss : list Z) : list Z :=
  match ss with
  | [] => []
  | s :: ss' =>
      if carry then
        let diff := u32 (s - 1) in
        diff :: reduce_rest (if negb (diff =? IL_MAX_UINT32) then false else true) ss'
      else ss
  end.

Fixpoint reduce_words (carry : bool) (ms ss : list Z) : result (list Z) :=
  match ms, ss with
  | m :: ms', s :: ss' =>
      let diff := if carry then u32 (s - u32 (m + 1)) else u32 (s - m) in
      let carry' :=
        if carry then if diff <? m then false else true
        else if diff >? m then true else false in
      rest ← reduce_words carry' ms' ss'; mret (diff :: rest)
  | [], _ => mret (reduce_rest carry ss)
  | _ :: _, [] => Overrun
  end.

Fixpoint reduce (fuel : nat) (sum modulus : ILBigNum) : result ILBigNum :=
  match fuel with
  | O => OutOfFuel
  | S fuel' =>
      if ILBigNumCompareAbs sum modulus >=? 0 then
        ws ← reduce_words false (words modulus) (words sum);
        reduce fuel' (NormalizeBigNum {| neg := neg sum; words := ws |}) modulus
      else mret sum
  end.

Definition BigNumAdd (fuel : nat) (numx numy : ILBigNum) (modulus : option ILBigNum)
    (resultNeg : bool) : result ILBigNum :=
  let ws := add_words false (words numx) (words numy) in
  if (add_size numx numy <? length ws)%nat then Overrun
  else
    let sum := NormalizeBigNum {| neg := resultNeg; words := ws |} in
    match modulus with
    | Some m => reduce fuel sum m
    | None => mret sum
    end.

(** A word less another and a borrow, and the next borrow. *)
Definition sub_borrow (borrow : bool) (x y : Z) : Z * bool :=
  if borrow then
    let diff := u32 (x - y - 1) in (diff, if diff <? x then false else true)
  else
    let diff := u32 (x - y) in (diff, if diff >? x then true else false).

Fixpoint sub_rest (borrow : bool) (xs : list Z) : list Z :=
  match xs with
  | [] => []
  | x :: xs' =>
      if borrow then
        let diff := u32 (x - 1) in
        diff :: sub_rest (if negb (diff =? IL_MAX_UINT32) then false else true) xs'
      else x :: sub_rest false xs'
  end.

Fixpoint sub_words (borrow : bool) (xs ys : list Z) : result (list Z) :=
  match xs, ys with
  | x :: xs', y :: ys' =>
      let '(diff, borrow') := sub_borrow borrow x y in
      rest ← sub_words borrow' xs' ys'; mret (diff :: rest)
  | _, [] => mret (sub_rest borrow xs)
  | [], _ :: _ => Overrun
  end.

(** [BigNumSub] without the part for a modulus. *)
Definition BigNumDiff (numx numy : ILBigNum) (resultNeg : bool) : result ILBigNum :=
  if (size numx =? 0)%nat then mret (ILBigNumFromInt 0)
  else
    ws ← sub_words false (words numx) (words numy);
    mret (NormalizeBigNum {| neg := resultNeg; words := ws |}).

Definition BigNumSub (numx numy : ILBigNum) (modulus : option ILBigNum) (resultNeg : bool)
  : result ILBigNum :=
  diff ← BigNumDiff numx numy resultNeg;
  match modulus with
  | Some m => if neg diff then BigNumDiff m diff false else mret diff
  | None => mret diff
  end.

Definition ILBigNumAdd (fuel : nat) (numx numy : ILBigNum) (modulus : option ILBigNum)
  : result ILBigNum :=
  if Bool.eqb (neg numx) (neg numy) then BigNumAdd fuel numx numy modulus (neg numx)
  else if neg numx then
    if ILBigNumCompareAbs numx numy >=? 0 then BigNumSub numx numy modulus true
    else BigNumSub numy numx modulus false
  else
    if ILBigNumCompareAbs numx numy >=? 0 then BigNumSub numx numy modulus false
    else BigNumSub numy numx modulus true.

Definition ILBigNumSub (fuel : nat) (numx numy : ILBigNum) (modulus : option ILBigNum)
  : result ILBigNum :=
  if neg numx && negb (neg numy) then BigNumAdd fuel numx numy modulus true
  else if negb (neg numx) && neg numy then BigNumAdd fuel numx numy modulus false
  else if neg numx then
    if ILBigNumCompareAbs numx numy >=? 0 then BigNumSub numx numy modulus true
    else BigNumSub numy numx modulus false
  else
    if ILBigNumCompareAbs numx numy >=? 0 then BigNumSub numx numy modulus false
    else BigNumSub numy numx modulus true.

(** ** Division *)

(** The first [size] words of each, from the most significant. *)
Fixpoint range_ge_down (xs ys : list Z) : bool :=
  match xs, ys with
  | x :: xs', y :: ys' =>
      if x >? y then true else if x <? y then false else range_ge_down xs' ys'
  | _, _ => true
  end.

Definition BigRangeGe (words1 words2 : list Z) (size : nat) : bool :=
  range_ge_down (reverse (take size words1)) (reverse (take size words2)).

(** Division by one word: the quotient and the last [temp]. *)
Fixpoint short_div (divtemp : Z) (xs : list Z) : list Z * Z :=
  match xs with
  | [] => ([], 0)
  | x :: xs' =>
      let '(quot, temp) := short_div divtemp xs' in
      let temp := Z.lor (u64 (Z.shiftl temp 32)) x in
      (u32 (temp / divtemp) :: quot, temp mod divtemp)
  end.

(** The number of bits above the highest bit of the word. *)
Fixpoint find_shift (fuel : nat) (top shift : Z) : result Z :=
  match fuel with
  | O => OutOfFuel
  | S fuel' =>
      if Z.land top (Z.shiftr 0x80000000 shift) =? 0 then find_shift fuel' top (shift + 1)
      else mret shift
  end.

(** The words shifted, and what is left of [temp]. *)
Fixpoint shift_words (shift temp : Z) (xs : list Z) : list Z * Z :=
  match xs with
  | [] => ([], temp)
  | x :: xs' =>
      let temp := Z.lor temp (u64 (Z.shiftl x shift)) in
      let '(ws, last) := shift_words shift (Z.shiftr temp 32) xs' in
      (u32 temp :: ws, last)
  end.

(** The words shifted back, from the most significant; with [temp]. *)
Fixpoint unshift_words (shift : Z) (ws : list Z) : list Z * Z :=
  match ws with
  | [] => ([], 0)
  | w :: ws' =>
      let '(xs, temp) := unshift_words shift ws' in
      let temp := Z.lor (u64 (Z.shiftl temp 32)) w in
      (u32 (Z.shiftr temp shift) :: xs, temp)
  end.

(** An underestimate of a digit of the quotient. *)
Definition estimate (topy high low : Z) : Z :=
  if topy =? IL_MAX_UINT32 then high
  else u32 (Z.lor (u64 (Z.shiftl high 32)) low / u32 (topy + 1)).

(** [normy * divtemp] subtracted from the words of [normx] from [j] on. *)
Fixpoint sub_product (divtemp : Z) (ys ws : list Z) (temp : Z) (carry : bool)
  : result (list Z) :=
  match ys, ws with
  | y :: ys', w :: ws' =>
      let temp := u64 (temp + u64 (y * divtemp)) in
      let '(diff, carry') := sub_borrow carry w (u32 temp) in
      rest ← sub_product divtemp ys' ws' (Z.shiftr temp 32) carry';
      mret (diff :: rest)
  | [], w :: ws' => mret (u32 (w - u32 (u32 temp + b2z carry)) :: ws')
  | _, [] => Overrun
  end.

(** [normy] subtracted from the words of [normx] from [j] on. *)
Fixpoint sub_once (ys ws : list Z) (carry : bool) : result (list Z) :=
  match ys, ws with
  | y :: ys', w :: ws' =>
      let '(diff, carry') := sub_borrow carry w y in
      rest ← sub_once ys' ws' carry'; mret (diff :: rest)
  | [], w :: ws' => mret ((if carry then u32 (w - 1) else w) :: ws')
  | _, [] => Overrun
  end.

(** Correct the estimate. *)
Fixpoint correct (fuel : nat) (normy ws : list Z) (divtemp : Z) : result (list Z * Z) :=
  match fuel with
  | O => OutOfFuel
  | S fuel' =>
      if negb (nth (length normy) ws 0 =? 0) || BigRangeGe ws normy (length normy) then
        ws' ← sub_once normy ws false;
        correct fuel' normy ws' (u32 (divtemp + 1))
      else mret (ws, divtemp)
  end.

(** Two corrections and the test that ends the loop. *)
Definition correct_fuel : nat := 3.

Definition div_digit (normy ws : list Z) : result (list Z * Z) :=
  let n := length normy in
  let divtemp := estimate (top_word normy) (nth n ws 0) (nth (n - 1) ws 0) in
  ws' ← sub_product divtemp normy ws 0 false;
  correct correct_fuel normy ws' divtemp.

(** The digits below [k], with [normx] and the digits found so far. *)
Fixpoint div_loop (normy : list Z) (k : nat) (normx quotWords : list Z)
  : result (list Z * list Z) :=
  match k with
  | O => mret (normx, quotWords)
  | S j =>
      '(ws, divtemp) ← div_digit normy (drop j normx);
      div_loop normy j (take j normx ++ ws) (divtemp :: quotWords)
  end.

(** The division by a number of one word. *)
Definition divide_short (numx : ILBigNum) (divtemp : Z) : ILBigNum * ILBigNum :=
  let '(quotWords, temp) := short_div divtemp (words numx) in
  (NormalizeBigNum {| neg := false; words := quotWords |}, ILBigNumFromInt (u32 temp)).

(** The division of shifted copies, digit by digit. *)
Definition divide_long (numx numy : ILBigNum) : result (ILBigNum * ILBigNum) :=
  shift ← find_shift 32 (top_word (words numy)) 0;
  let '(lowx, temp) := shift_words shift 0 (words numx) in
  let normx := lowx ++ [u32 temp] in
  let normy := fst (shift_words shift 0 (words numy)) in
  '(normx, quotWords) ← div_loop normy (S (size numx - size numy)) normx [];
  let remWords := fst (unshift_words shift (take (length normy) normx)) in
  mret (NormalizeBigNum {| neg := false; words := quotWords |},
        NormalizeBigNum {| neg := false; words := remWords |}).

(** The quotient and the remainder; a caller that passes a null pointer
    for one of them uses the other only. *)
Definition DivRem (numx numy : ILBigNum) : result (ILBigNum * ILBigNum) :=
  if (size numy =? 0)%nat then Fails
  else if (size numx =? 0)%nat then mret (ILBigNumFromInt 0, ILBigNumFromInt 0)
  else
    match words numy with
    | [divtemp] => mret (divide_short numx divtemp)
    | _ =>
        if ILBigNumCompare numx numy <? 0 then mret (ILBigNumFromInt 0, ILBigNumCopy numx)
        else divide_long numx numy
    end.

(** ** Multiplication *)

(** Propagate the carry. *)
Fixpoint mul_carry (temp : Z) (ps : list Z) : result (list Z) :=
  if temp =? 0 then mret ps
  else
    match ps with
    | p :: ps' =>
        let temp := u64 (temp + p) in
        rest ← mul_carry (Z.shiftr temp 32) ps'; mret (u32 temp :: rest)
    | [] => Overrun
    end.

(** One word of [numx], with the words of the product from [posn] on. *)
Fixpoint mul_row (x : Z) (ys ps : list Z) (temp : Z) : result (list Z) :=
  match ys, ps with
  | y :: ys', p :: ps' =>
      let temp := u64 (temp + (u64 (x * y) + p)) in
      rest ← mul_row x ys' ps' (Z.shiftr temp 32); mret (u32 temp :: rest)
  | [], _ => mul_carry temp ps
  | _ :: _, [] => Overrun
  end.

(** The words of [numx], with the words of the product from [xposn] on. *)
Fixpoint mul_words (xs ys ps : list Z) : result (list Z) :=
  match xs with
  | [] => mret ps
  | x :: xs' =>
      ps' ← mul_row x ys ps 0;
      match ps' with
      | [] => Overrun
      | p :: ps'' => rest ← mul_words xs' ys ps''; mret (p :: rest)
      end
  end.

Definition ILBigNumMul (numx numy : ILBigNum) (modulus : option ILBigNum) : result ILBigNum :=
  if (size numx + size numy =? 0)%nat then mret (ILBigNumFromInt 0)
  else
    ws ← mul_words (words numx) (words numy) (replicate (size numx + size numy) 0);
    let product := NormalizeBigNum {| neg := xorb (neg numx) (neg numy); words := ws |} in
    match modulus with
    | Some m =>
        if ILBigNumCompare product m >=? 0 then
          '(_, modProduct) ← DivRem product m; mret modProduct
        else mret product
    | None => mret product
    end.

Definition ILBigNumMod (num modulus : ILBigNum) : result ILBigNum :=
  '(_, remainder) ← DivRem num modulus; mret remainder.

(** ** Inverses and powers *)

(** [u - v * q]; nothing is reduced, so the addition needs no fuel. *)
Definition GCDSubtract (u v q : ILBigNum) : result ILBigNum :=
  temp ← ILBigNumMul v q None;
  ILBigNumSub 0 u temp None.

Fixpoint inv_loop (fuel : nat) (u1 u2 u3 v1 v2 v3 : ILBigNum) : result ILBigNum :=
  match fuel with
  | O => OutOfFuel
  | S fuel' =>
      if ILBigNumIsZero v3 then mret u1
      else
        '(q, _) ← DivRem u3 v3;
        t1 ← GCDSubtract u1 v1 q;
        t2 ← GCDSubtract u2 v2 q;
        t3 ← GCDSubtract u3 v3 q;
        inv_loop fuel' v1 v2 v3 t1 t2 t3
  end.

(** Two steps halve [v3]. *)
Definition inv_fuel (modulus : ILBigNum) : nat := 64 * size modulus + 2.

Definition ILBigNumInv (num modulus : ILBigNum) : result ILBigNum :=
  u1 ← inv_loop (inv_fuel modulus) (ILBigNumFromInt 1) (ILBigNumFromInt 0) (ILBigNumCopy num)
         (ILBigNumFromInt 0) (ILBigNumFromInt 1) (ILBigNumCopy modulus);
  if neg u1 then ILBigNumAdd 0 modulus u1 None else mret u1.

(** The loop over the bits of a word; [top] says that the word is the last. *)
Fixpoint pow_bits (modulus : option ILBigNum) (top : bool) (w : Z) (bits : nat) (mask : Z)
    (power res : ILBigNum) : result (ILBigNum * ILBigNum) :=
  match bits with
  | O => mret (power, res)
  | S bits' =>
      res ← (if negb (Z.land w mask =? 0) then ILBigNumMul res power modulus else mret res);
      if top && (Z.land w (u32 (mask - 1)) =? w) then mret (power, res)
      else
        power ← ILBigNumMul power power modulus;
        pow_bits modulus top w bits' (u32 (Z.shiftl mask 1)) power res
  end.

Fixpoint pow_words (modulus : option ILBigNum) (ws : list Z) (power res : ILBigNum)
  : result ILBigNum :=
  match ws with
  | [] => mret res
  | w :: ws' =>
      '(power, res) ←
        pow_bits modulus (match ws' with [] => true | _ => false end) w 32 1 power res;
      pow_words modulus ws' power res
  end.

Definition ILBigNumPow (numx numy : ILBigNum) (modulus : option ILBigNum) : result ILBigNum :=
  res ← pow_words modulus (words numy) (ILBigNumCopy numx) (ILBigNumFromInt 1);
  match modulus with
  | Some m => if neg numy then ILBigNumInv res m else mret res
  | None => mret res
  end.
