(* ===== verification/BignumProps.v ===== *)
(** * Big numbers: values, addition, subtraction, products and bytes

    A normalised number is determined by its value ([big_inj]), so the
    operations are described by the values of their results.  The loops over
    words are related to the values of the lists; powers of the base are
    [weight]s, whose unfolding leaves linear arithmetic. *)
From Stdlib Require Import ZArith Lia.
From stdpp Require Import base list option numbers.
From S2P Require Import Prelude Bignum.

Local Open Scope Z_scope.

(** ** Values *)

Definition base : Z := 0x100000000.

(** The value of the words, and the weight of the word after them. *)
Fixpoint wval (ws : list Z) : Z :=
  match ws with [] => 0 | w :: ws' => w + base * wval ws' end.

Definition weight {A} (ws : list A) : Z := base ^ Z.of_nat (length ws).

Definition digit (w : Z) : Prop := 0 <= w < base.

Definition value (n : ILBigNum) : Z := if neg n then - wval (words n) else wval (words n).

(** Words in range, no zero at the end, and no negative zero. *)
Definition big (n : ILBigNum) : Prop :=
  Forall digit (words n) /\ trim (words n) = words n /\ (words n = [] -> neg n = false).

(** Numbers that are not negative. *)
Definition nat_big (n : ILBigNum) : Prop := big n /\ neg n = false.

(** A function that returns a number of a value. *)
Definition yields (r : result ILBigNum) (v : Z) : Prop :=
  exists n, r = Returns n /\ big n /\ value n = v.

Lemma weight_nil {A} : weight (@nil A) = 1.
Proof. done. Qed.

Lemma weight_cons {A} (w : A) ws : weight (w :: ws) = base * weight ws.
Proof. unfold weight. simpl length. rewrite Nat2Z.inj_succ, Z.pow_succ_r by lia. done. Qed.

Lemma weight_app {A} (xs ys : list A) : weight (xs ++ ys) = weight xs * weight ys.
Proof. unfold weight. rewrite length_app, Nat2Z.inj_add, Z.pow_add_r by lia. done. Qed.

Lemma weight_pos {A} (ws : list A) : 0 < weight ws.
Proof. unfold weight, base. lia. Qed.

Lemma weight_length {A B} (xs : list A) (ys : list B) :
  length xs = length ys -> weight xs = weight ys.
Proof. unfold weight. by intros ->. Qed.

Lemma weight_mono {A B} (xs : list A) (ys : list B) :
  (length xs <= length ys)%nat -> weight xs <= weight ys.
Proof. intros H. apply Z.pow_le_mono_r; unfold base; lia. Qed.

Lemma u32_base z : u32 z = z mod base.
Proof. done. Qed.

Lemma word_u32 z : digit (u32 z).
Proof. unfold digit, u32, base. apply Z.mod_pos_bound. lia. Qed.

Lemma wval_app xs ys : wval (xs ++ ys) = wval xs + weight xs * wval ys.
Proof.
  induction xs as [|x xs IH]; cbn [wval app]; [rewrite weight_nil; lia|].
  rewrite weight_cons, IH. lia.
Qed.

Lemma wval_range ws : Forall digit ws -> 0 <= wval ws < weight ws.
Proof.
  induction 1 as [|w ws Hw _ IH]; cbn [wval]; [rewrite weight_nil; lia|].
  rewrite weight_cons. unfold digit, base in *. lia.
Qed.

Lemma wval_zeros n : wval (replicate n 0) = 0.
Proof. induction n as [|n IH]; cbn [wval replicate]; [done|]. rewrite IH. unfold base. lia. Qed.

(** ** Normal form *)

Lemma trim_cons w ws : trim (w :: ws) = match trim ws with [] => if w =? 0 then [] else [w] | t => w :: t end.
Proof. done. Qed.

Lemma trim_wval ws : wval (trim ws) = wval ws.
Proof.
  induction ws as [|w ws IH]; [done|]. rewrite trim_cons. destruct (trim ws) as [|t ts].
  - cbn [wval] in *. rewrite <-IH. destruct (Z.eqb_spec w 0) as [->|]; cbn [wval]; lia.
  - cbn [wval] in *. rewrite IH. done.
Qed.

Lemma trim_words ws : Forall digit ws -> Forall digit (trim ws).
Proof.
  induction 1 as [|w ws Hw _ IH]; [constructor|]. rewrite trim_cons.
  destruct (trim ws) as [|t ts]; [destruct (w =? 0)|]; auto using Forall_cons_2, Forall_nil_2.
Qed.

Lemma trim_trim ws : trim (trim ws) = trim ws.
Proof.
  induction ws as [|w ws IH]; [done|]. rewrite trim_cons. destruct (trim ws) as [|t ts].
  - destruct (w =? 0) eqn:E; [done|]. rewrite trim_cons. simpl. by rewrite E.
  - rewrite (trim_cons w (t :: ts)), IH. done.
Qed.

Lemma trim_length ws : (length (trim ws) <= length ws)%nat.
Proof.
  induction ws as [|w ws IH]; [done|]. rewrite trim_cons.
  destruct (trim ws); [destruct (w =? 0)|]; simpl in *; lia.
Qed.

Lemma trim_zero ws : Forall digit ws -> wval ws = 0 -> trim ws = [].
Proof.
  induction 1 as [|w ws Hw Hws IH]; [done|]. cbn [wval]. intros H. apply wval_range in Hws as Hr.
  unfold digit, base in *. rewrite trim_cons, IH by lia. by replace w with 0 by lia.
Qed.

Lemma trim_eq xs ys : Forall digit xs -> Forall digit ys -> wval xs = wval ys -> trim xs = trim ys.
Proof.
  intros Hx. revert ys. induction Hx as [|x xs Hx Hxs IH]; intros ys Hys H.
  - symmetry. by apply trim_zero.
  - destruct Hys as [|y ys Hy Hys]; [apply trim_zero; [by constructor|done]|].
    cbn [wval] in H. apply wval_range in Hxs as ?, Hys as ?.
    assert (x = y /\ wval xs = wval ys) as [-> Hv] by (unfold digit, base in *; lia).
    by rewrite !trim_cons, (IH ys).
Qed.

Lemma trimmed_zero ws : Forall digit ws -> trim ws = ws -> wval ws = 0 -> ws = [].
Proof. intros Hw Ht Hv. by rewrite <-Ht, trim_zero. Qed.

Lemma trimmed_cons w ws : trim (w :: ws) = w :: ws -> trim ws = ws.
Proof.
  rewrite trim_cons. destruct (trim ws) as [|t ts]; [|congruence].
  destruct (w =? 0); congruence.
Qed.

(** The last word of a normalised number is not 0. *)
Lemma trimmed_app xs ys : trim (xs ++ ys) = xs ++ ys -> trim ys = ys.
Proof. induction xs as [|x xs IH]; [done|]. intros H. apply IH. by apply trimmed_cons in H. Qed.

Lemma trimmed_snoc xs w : trim (xs ++ [w]) = xs ++ [w] -> w <> 0.
Proof. intros H%trimmed_app [= ->]. done. Qed.

Lemma trimmed_weight ws : Forall digit ws -> trim ws = ws -> ws <> [] -> weight ws <= base * wval ws.
Proof.
  intros Hw Ht Hn. destruct ws as [|w xs _] using rev_ind; [done|].
  apply Forall_app in Hw as [Hxs Hw]. inversion_clear Hw as [|? ? H _].
  apply trimmed_snoc in Ht. rewrite weight_app, wval_app. apply wval_range in Hxs.
  rewrite weight_cons, weight_nil. cbn [wval]. unfold digit, base in *. nia.
Qed.

Lemma normalize_words num : words (NormalizeBigNum num) = trim (words num).
Proof. unfold NormalizeBigNum. by destruct (trim (words num)). Qed.

Lemma normalize_big num : Forall digit (words num) -> big (NormalizeBigNum num).
Proof.
  intros H. split; [|split].
  - rewrite normalize_words. by apply trim_words.
  - rewrite !normalize_words. apply trim_trim.
  - unfold NormalizeBigNum. by destruct (trim (words num)).
Qed.

Lemma normalize_value b ws :
  value (NormalizeBigNum {| neg := b; words := ws |}) = if b then - wval ws else wval ws.
Proof.
  unfold NormalizeBigNum, value. simpl words. rewrite <-(trim_wval ws).
  destruct (trim ws); simpl; [by destruct b|done].
Qed.

Lemma normalize_yields (b : bool) ws v :
  Forall digit ws -> v = (if b then - wval ws else wval ws) ->
  yields (Returns (NormalizeBigNum {| neg := b; words := ws |})) v.
Proof.
  intros Hw ->. eexists. split; [done|]. split; [by apply normalize_big|]. apply normalize_value.
Qed.

Lemma big_wval_pos n : big n -> words n <> [] -> 0 < wval (words n).
Proof.
  intros (Hw & Ht & _) Hn. apply wval_range in Hw as Hr.
  destruct (Z.eq_dec (wval (words n)) 0); [|lia]. destruct Hn. by apply trimmed_zero.
Qed.

(** Normalised numbers of the same value are the same. *)
Lemma big_inj n k : big n -> big k -> value n = value k -> n = k.
Proof.
  intros (Hn & Htn & Hsn) (Hk & Htk & Hsk) H.
  apply wval_range in Hn as Hrn, Hk as Hrk.
  assert (words n = words k) as Hwords.
  { rewrite <-Htn, <-Htk. apply trim_eq; [done..|]. unfold value in H. destruct (neg n), (neg k); lia. }
  destruct n as [bn ws], k as [bk ks]; simpl in *; subst ks. f_equal. unfold value in H. simpl in H.
  destruct (decide (ws = [])) as [E|E]; [by rewrite Hsn, Hsk|].
  destruct bn, bk; try done; exfalso; apply E, trimmed_zero; try done; lia.
Qed.

Lemma nat_big_value n : nat_big n -> value n = wval (words n).
Proof. intros [_ H]. unfold value. by rewrite H. Qed.

Lemma nat_big_nonneg n : nat_big n -> 0 <= value n.
Proof. intros H. rewrite nat_big_value by done. by apply wval_range, H. Qed.

Lemma big_nonneg n : big n -> 0 <= value n -> nat_big n.
Proof.
  intros Hb Hv. split; [done|]. unfold value in Hv. destruct (neg n) eqn:E; [|done].
  destruct (decide (words n = [])) as [H|H]; [destruct Hb as (_ & _ & H'); rewrite H' in E; done|].
  apply big_wval_pos in H; [lia|done].
Qed.

Lemma big_zero n : big n -> value n = 0 <-> words n = [].
Proof.
  intros Hb. split.
  - intros H. destruct (decide (words n = [])) as [|E]; [done|]. apply big_wval_pos in E; [|done].
    unfold value in H. destruct (neg n); lia.
  - intros H. unfold value. rewrite H. simpl. by destruct (neg n).
Qed.

Lemma from_int_big w : digit w -> big (ILBigNumFromInt w).
Proof.
  unfold ILBigNumFromInt. intros H. destruct (Z.eqb_spec w 0); simpl; split; simpl; try done.
  - by constructor.
  - split; [|done]. apply Z.eqb_neq in n. by rewrite n.
Qed.

Lemma from_int_value w : value (ILBigNumFromInt w) = w.
Proof. unfold ILBigNumFromInt, value. destruct (Z.eqb_spec w 0); simpl; lia. Qed.

Lemma from_int_yields w : digit w -> yields (Returns (ILBigNumFromInt w)) w.
Proof. eexists. split; [done|]. split; [by apply from_int_big|apply from_int_value]. Qed.

Lemma copy_id n : big n -> ILBigNumCopy n = n.
Proof.
  destruct n as [b ws]. intros (_ & _ & H). unfold ILBigNumCopy. simpl in *.
  destruct ws; [|done]. unfold ILBigNumFromInt. simpl. by rewrite H.
Qed.

Lemma is_zero_value n : big n -> ILBigNumIsZero n = (value n =? 0).
Proof.
  intros H. apply eq_true_iff_eq. rewrite Z.eqb_eq, (big_zero n H).
  unfold ILBigNumIsZero. by destruct (words n).
Qed.

(** ** Comparison *)

Lemma word_snoc xs w : Forall digit (xs ++ [w]) -> Forall digit xs /\ digit w.
Proof. intros [H H']%Forall_app. split; [done|]. by inversion H'. Qed.

(** Numbers of the same length are compared by the top words first. *)
Lemma compare_down_sgn xs ys :
  length xs = length ys -> Forall digit xs -> Forall digit ys ->
  compare_down (reverse xs) (reverse ys) = Z.sgn (wval xs - wval ys).
Proof.
  revert ys. induction xs as [|x xs IH] using rev_ind; intros ys; destruct ys as [|y ys _] using rev_ind;
    rewrite ?length_app; simpl; try lia.
  intros Hl [Hxs Hx]%word_snoc [Hys Hy]%word_snoc. rewrite !reverse_snoc. cbn [compare_down].
  rewrite IH by (done || lia). rewrite !wval_app, (weight_length xs ys) by lia. cbn [wval].
  apply wval_range in Hxs, Hys. rewrite (weight_length xs ys) in Hxs by lia.
  rewrite Z.gtb_ltb. destruct (Z.ltb_spec x y); [|destruct (Z.ltb_spec y x)].
  - symmetry. apply Z.sgn_neg. nia.
  - symmetry. apply Z.sgn_pos. nia.
  - replace x with y by lia. f_equal. lia.
Qed.

Lemma shorter_smaller n k : big n -> big k -> (size n < size k)%nat -> wval (words n) < wval (words k).
Proof.
  intros (Hn & _) (Hk & Ht & _) Hs. unfold size in Hs. apply wval_range in Hn.
  destruct (words k) as [|w ws] eqn:E; [simpl in Hs; lia|]. rewrite <-E in *.
  apply trimmed_weight in Ht; [|done|congruence]. rewrite E, weight_cons in Ht. rewrite E in *. simpl in Hs.
  pose proof (weight_mono (words n) ws ltac:(lia)). unfold base in *. lia.
Qed.

Lemma compare_abs n k :
  big n -> big k -> ILBigNumCompareAbs n k = Z.sgn (wval (words n) - wval (words k)).
Proof.
  intros Hn Hk. unfold ILBigNumCompareAbs.
  destruct (Nat.ltb_spec (size n) (size k)) as [H|H].
  { pose proof (shorter_smaller n k Hn Hk H). symmetry. apply Z.sgn_neg. lia. }
  destruct (Nat.ltb_spec (size k) (size n)) as [H'|H'].
  { pose proof (shorter_smaller k n Hk Hn H'). symmetry. apply Z.sgn_pos. lia. }
  assert (length (words n) = length (words k)) as E by (unfold size in *; lia).
  destruct (Nat.eqb_spec (size n) 0) as [Hz|Hz].
  - unfold size in Hz. rewrite E in *. apply length_zero_iff_nil in Hz. rewrite Hz.
    destruct (words n); [done|simpl in *; rewrite Hz in E; done].
  - apply compare_down_sgn; [done|apply Hn|apply Hk].
Qed.

Lemma compare_value n k :
  big n -> big k -> ILBigNumCompare n k = Z.sgn (value n - value k).
Proof.
  intros Hn Hk. unfold ILBigNumCompare, value. rewrite (compare_abs n k) by done.
  pose proof (wval_range _ (proj1 Hn)). pose proof (wval_range _ (proj1 Hk)).
  destruct (neg n) eqn:En, (neg k) eqn:Ek; simpl; try lia.
  - assert (words n <> []) as P by (intros E; destruct Hn as (_ & _ & Hn); rewrite (Hn E) in En; done).
    apply big_wval_pos in P; [lia|done].
  - assert (words k <> []) as P by (intros E; destruct Hk as (_ & _ & Hk); rewrite (Hk E) in Ek; done).
    apply big_wval_pos in P; [lia|done].
Qed.

(** ** Addition *)

Lemma add_rest_spec carry xs :
  Forall digit xs ->
  Forall digit (add_rest carry xs) /\ wval (add_rest carry xs) = wval xs + b2z carry /\
  (length (add_rest carry xs) <= S (length xs))%nat.
Proof.
  intros H. revert carry. induction H as [|x xs Hx _ IH]; intros carry; cbn [add_rest].
  - destruct carry; simpl; repeat split; auto using Forall_nil_2; try (repeat constructor; done); lia.
  - destruct carry.
    + destruct (IH (if negb (u32 (x + 1) =? 0) then false else true)) as (Hw & Hv & Hl).
      cbn [wval length]. split; [constructor; [apply word_u32|done]|]. split; [|lia]. rewrite Hv.
      unfold digit, base, u32 in *. destruct (Z.eqb_spec ((x + 1) mod 4294967296) 0); simpl;
        Z.div_mod_to_equations; lia.
    + destruct (IH false) as (Hw & Hv & Hl). cbn [wval length]. rewrite Hv. simpl.
      split; [by constructor|]. lia.
Qed.

Lemma add_words_spec carry xs ys :
  Forall digit xs -> Forall digit ys ->
  Forall digit (add_words carry xs ys) /\ wval (add_words carry xs ys) = wval xs + wval ys + b2z carry /\
  (length (add_words carry xs ys) <= S (Nat.max (length xs) (length ys)))%nat.
Proof.
  intros Hx. revert carry ys. induction Hx as [|x xs Hx Hxs IH]; intros carry ys Hys.
  - destruct (add_rest_spec carry ys Hys) as (? & Hv & Hl). destruct ys; cbn [add_words wval length] in *; auto.
  - destruct Hys as [|y ys Hy Hys].
    { destruct (add_rest_spec carry (x :: xs)) as (? & Hv & Hl); [by constructor|].
      cbn [add_words]. rewrite Hv. split; [done|]. cbn [wval length] in *. lia. }
    cbn [add_words]. destruct carry.
    + destruct (IH (if u32 (x + y + 1) >? x then false else true) ys Hys) as (Hw & Hv & Hl).
      cbn [wval length]. split; [constructor; [apply word_u32|done]|]. split; [|lia]. rewrite Hv.
      rewrite Z.gtb_ltb. unfold digit, base, u32 in *.
      destruct (Z.ltb_spec x ((x + y + 1) mod 4294967296)); simpl; Z.div_mod_to_equations; lia.
    + destruct (IH (if u32 (x + y) <? x then true else false) ys Hys) as (Hw & Hv & Hl).
      cbn [wval length]. split; [constructor; [apply word_u32|done]|]. split; [|lia]. rewrite Hv.
      unfold digit, base, u32 in *.
      destruct (Z.ltb_spec ((x + y) mod 4294967296) x); simpl; Z.div_mod_to_equations; lia.
Qed.

(** A number lies between the multiples of the weight of its top word. *)
Lemma top_word_bounds xs :
  Forall digit xs -> xs <> [] ->
  digit (top_word xs) /\ weight xs = base * weight (tail xs) /\
  top_word xs * weight (tail xs) <= wval xs < (top_word xs + 1) * weight (tail xs).
Proof.
  intros H Hn. destruct xs as [|t us _] using rev_ind; [done|].
  apply word_snoc in H as [Hus Ht]. unfold top_word. rewrite last_snoc. cbn [default from_option id]. unfold id.
  rewrite (weight_length (tail (us ++ [t])) us) by (rewrite length_tl, length_app; simpl; lia).
  rewrite wval_app, weight_app, weight_cons, weight_nil. cbn [wval]. apply wval_range in Hus. split; [done|]. nia.
Qed.

Lemma add_rest_long carry xs :
  Forall digit xs -> (length xs < length (add_rest carry xs))%nat -> weight xs <= wval (add_rest carry xs).
Proof.
  intros H. revert carry. induction H as [|x xs Hx _ IH]; intros carry.
  - destruct carry; simpl; [intros _; done|lia].
  - assert (exists d c, add_rest carry (x :: xs) = d :: add_rest c xs /\ digit d) as (d & c & -> & Hd).
    { cbn [add_rest]. destruct carry; eauto using word_u32. }
    cbn [wval length]. intros Hl. specialize (IH c ltac:(lia)). rewrite weight_cons.
    unfold digit, base in *. lia.
Qed.

Lemma add_words_long carry xs ys :
  Forall digit xs -> Forall digit ys ->
  (Nat.max (length xs) (length ys) < length (add_words carry xs ys))%nat ->
  Z.max (weight xs) (weight ys) <= wval (add_words carry xs ys).
Proof.
  intros Hx. revert carry ys. induction Hx as [|x xs Hx Hxs IH]; intros carry ys Hys.
  - assert (add_words carry [] ys = add_rest carry ys) as -> by (by destruct ys).
    intros Hl. pose proof (add_rest_long carry ys Hys ltac:(simpl in Hl; lia)).
    pose proof (weight_pos ys). rewrite weight_nil. lia.
  - destruct Hys as [|y ys Hy Hys].
    { intros Hl. pose proof (add_rest_long carry (x :: xs) ltac:(by constructor) ltac:(simpl in *; lia)).
      cbn [add_words]. pose proof (weight_pos (x :: xs)). rewrite weight_nil. lia. }
    assert (exists s c, add_words carry (x :: xs) (y :: ys) = u32 s :: add_words c xs ys) as (s & c & ->)
      by (cbn [add_words]; destruct carry; eauto).
    cbn [wval length]. rewrite !weight_cons. intros Hl. specialize (IH c ys Hys ltac:(lia)).
    pose proof (word_u32 s) as Hu. unfold digit, base in *. lia.
Qed.

(** The words that are allocated are enough for the carry. *)
Lemma add_size_enough n k :
  big n -> big k -> (length (add_words false (words n) (words k)) <= add_size n k)%nat.
Proof.
  intros (Hn & _) (Hk & _). destruct (add_words_spec false _ _ Hn Hk) as (_ & Hv & Hl).
  pose proof (add_words_long false _ _ Hn Hk) as Hlong. rewrite Hv in Hlong. simpl b2z in Hlong.
  unfold add_size, size. set (L := length (add_words false (words n) (words k))) in *.
  apply wval_range in Hn as Rn, Hk as Rk.
  pose proof (top_word_bounds _ Hn) as Tn. pose proof (top_word_bounds _ Hk) as Tk.
  destruct (Nat.ltb_spec (length (words k)) (length (words n))) as [H|H].
  - destruct (Z.eqb_spec (top_word (words n)) IL_MAX_UINT32) as [|E]; [lia|].
    destruct Tn as (Wt & Wn & Bn); [intros N; rewrite N in H; simpl in H; lia|].
    pose proof (weight_mono (words k) (tail (words n)) ltac:(destruct (words n); simpl in *; lia)).
    destruct (le_lt_dec L (length (words n))); [lia|]. specialize (Hlong ltac:(lia)).
    unfold digit, IL_MAX_UINT32, base in *. nia.
  - destruct (Nat.ltb_spec (length (words n)) (length (words k))) as [H'|H'].
    + destruct (Z.eqb_spec (top_word (words k)) IL_MAX_UINT32) as [|E]; [lia|].
      destruct Tk as (Wt & Wk & Bk); [intros N; rewrite N in H'; simpl in H'; lia|].
      pose proof (weight_mono (words n) (tail (words k)) ltac:(destruct (words k); simpl in *; lia)).
      destruct (le_lt_dec L (length (words k))); [lia|]. specialize (Hlong ltac:(lia)).
      unfold digit, IL_MAX_UINT32, base in *. nia.
    + destruct (Nat.ltb_spec 0 (length (words n))) as [P|P]; [|lia].
      rewrite Z.gtb_ltb.
      destruct Tk as (Wk & _ & Bk); [intros N; rewrite N in *; simpl in *; lia|].
      destruct Tn as (Wt & Wn & Bn); [intros N; rewrite N in *; simpl in *; lia|].
      rewrite u64_id by (unfold digit, IL_MAX_UINT64, base in *; lia).
      destruct (Z.ltb_spec IL_MAX_UINT32 (top_word (words n) + top_word (words k) + 1)); [lia|].
      rewrite (weight_length (tail (words k)) (tail (words n))) in Bk by (rewrite !length_tl; lia).
      destruct (le_lt_dec L (length (words n))); [lia|]. specialize (Hlong ltac:(lia)).
      pose proof (weight_pos (tail (words n))). unfold digit, IL_MAX_UINT32, base in *. nia.
Qed.

Lemma bignum_add fuel n k b :
  big n -> big k ->
  yields (BigNumAdd fuel n k None b)
    (if b then - (wval (words n) + wval (words k)) else wval (words n) + wval (words k)).
Proof.
  intros Hn Hk. unfold BigNumAdd. pose proof (add_size_enough n k Hn Hk).
  destruct (add_words_spec false _ _ (proj1 Hn) (proj1 Hk)) as (Hw & Hv & _).
  rewrite (proj2 (Nat.ltb_ge _ _)) by lia. apply normalize_yields; [done|].
  rewrite Hv. simpl b2z. destruct b; lia.
Qed.

(** ** Subtraction *)

Lemma sub_borrow_spec borrow x y :
  digit x -> digit y ->
  digit (sub_borrow borrow x y).1 /\
  x - y - b2z borrow = (sub_borrow borrow x y).1 - base * b2z (sub_borrow borrow x y).2.
Proof.
  unfold digit, base, sub_borrow. intros Hx Hy. rewrite Z.gtb_ltb.
  destruct borrow; simpl; unfold u32 in *; case_cmp; simpl; Z.div_mod_to_equations; lia.
Qed.

Lemma sub_rest_spec borrow xs :
  Forall digit xs -> b2z borrow <= wval xs ->
  Forall digit (sub_rest borrow xs) /\ wval (sub_rest borrow xs) = wval xs - b2z borrow.
Proof.
  intros H. revert borrow. induction H as [|x xs Hx _ IH]; intros borrow; cbn [sub_rest wval].
  - intros Hb. split; [done|]. destruct borrow; simpl in *; lia.
  - destruct borrow; cbn [wval]; intros Hb.
    + destruct (IH (if negb (u32 (x - 1) =? IL_MAX_UINT32) then false else true)) as (Hw & Hv);
        [|rewrite Hv; split; [constructor; [apply word_u32|done]|]];
        unfold digit, base, u32, IL_MAX_UINT32 in *; simpl in Hb; case_cmp; simpl; Z.div_mod_to_equations; lia.
    + destruct (IH false) as (Hw & Hv); [|rewrite Hv]; simpl in *.
      * unfold digit, base in *. lia.
      * split; [by constructor|]. lia.
Qed.

Lemma sub_words_spec borrow xs ys :
  Forall digit xs -> Forall digit ys -> (length ys <= length xs)%nat -> wval ys + b2z borrow <= wval xs ->
  exists ws, sub_words borrow xs ys = Returns ws /\ Forall digit ws /\ wval ws = wval xs - wval ys - b2z borrow.
Proof.
  intros Hx Hy. revert borrow xs Hx. induction Hy as [|y ys Hy _ IH]; intros borrow xs Hx Hl Hv.
  - destruct (sub_rest_spec borrow xs) as (Hw & Hval); [done|simpl in Hv; lia|].
    exists (sub_rest borrow xs). destruct xs; (split; [done|]; split; [done|]); rewrite Hval; simpl; lia.
  - destruct Hx as [|x xs Hx Hxs]; [simpl in Hl; lia|]. cbn [sub_words wval length] in *.
    destruct (sub_borrow_spec borrow x y Hx Hy) as (Hd & He).
    destruct (sub_borrow borrow x y) as [d c]. cbn [fst snd] in *.
    destruct (IH c xs Hxs) as (ws & -> & Hw & Hval); [lia|unfold digit, base in *; destruct c; simpl in *; lia|].
    exists (d :: ws). split; [done|]. split; [by constructor|]. cbn [wval]. rewrite Hval. lia.
Qed.

Lemma not_smaller_length n k :
  big n -> big k -> wval (words k) <= wval (words n) -> (size k <= size n)%nat.
Proof.
  intros Hn Hk H. destruct (le_lt_dec (size k) (size n)) as [|L]; [done|].
  pose proof (shorter_smaller n k Hn Hk L). lia.
Qed.

Lemma bignum_diff n k b :
  big n -> big k -> wval (words k) <= wval (words n) ->
  yields (BigNumDiff n k b)
    (if b then wval (words k) - wval (words n) else wval (words n) - wval (words k)).
Proof.
  intros Hn Hk H. pose proof (not_smaller_length n k Hn Hk H) as Hl. unfold BigNumDiff, size in *.
  destruct (Nat.eqb_spec (length (words n)) 0) as [E|_].
  - pose proof (wval_range _ (proj1 Hk)). apply length_zero_iff_nil in E. rewrite E in *. simpl in *.
    replace (if b then _ else _) with 0 by (destruct b; lia). by apply from_int_yields.
  - destruct (sub_words_spec false (words n) (words k)) as (ws & -> & Hw & Hv);
      [apply Hn|apply Hk|done|simpl; lia|].
    apply normalize_yields; [done|]. rewrite Hv. simpl b2z. destruct b; lia.
Qed.

Lemma bignum_sub n k b :
  big n -> big k -> wval (words k) <= wval (words n) ->
  yields (BigNumSub n k None b)
    (if b then wval (words k) - wval (words n) else wval (words n) - wval (words k)).
Proof.
  intros Hn Hk H. destruct (bignum_diff n k b Hn Hk H) as (d & E & Hd). unfold BigNumSub. rewrite E.
  exists d. done.
Qed.

Lemma yields_eq r v v' : yields r v -> v = v' -> yields r v'.
Proof. by intros ? <-. Qed.

Lemma compare_abs_ge n k :
  big n -> big k -> (ILBigNumCompareAbs n k >=? 0) = (wval (words k) <=? wval (words n)).
Proof.
  intros Hn Hk. rewrite compare_abs by done. rewrite Z.geb_leb. apply eq_true_iff_eq.
  rewrite !Z.leb_le. lia.
Qed.

Lemma add_exact fuel n k : big n -> big k -> yields (ILBigNumAdd fuel n k None) (value n + value k).
Proof.
  intros Hn Hk. unfold ILBigNumAdd. rewrite compare_abs_ge by done. unfold value.
  destruct (neg n) eqn:En, (neg k) eqn:Ek; simpl Bool.eqb; cbn iota.
  1, 4: eapply yields_eq; [by apply bignum_add|]; simpl; lia.
  all: case_cmp; (eapply yields_eq; [apply bignum_sub; first [done|lia]|]); simpl; lia.
Qed.

Lemma sub_exact fuel n k : big n -> big k -> yields (ILBigNumSub fuel n k None) (value n - value k).
Proof.
  intros Hn Hk. unfold ILBigNumSub. rewrite compare_abs_ge by done. unfold value.
  destruct (neg n) eqn:En, (neg k) eqn:Ek; simpl andb; cbn iota.
  2, 3: eapply yields_eq; [by apply bignum_add|]; simpl; lia.
  all: case_cmp; (eapply yields_eq; [apply bignum_sub; first [done|lia]|]); simpl; lia.
Qed.

(** A negative difference is made positive by the modulus. *)
Lemma bignum_sub_mod n k b m :
  big n -> big k -> nat_big m -> wval (words k) <= wval (words n) ->
  (b = true -> wval (words n) - wval (words k) <= value m) ->
  yields (BigNumSub n k (Some m) b)
    (if b && negb (wval (words n) =? wval (words k))
     then value m - (wval (words n) - wval (words k))
     else wval (words n) - wval (words k)).
Proof.
  intros Hn Hk Hm H Hle. destruct (bignum_diff n k b Hn Hk H) as (d & E & Hd & Hv). unfold BigNumSub. rewrite E.
  cbn [mbind result_bind]. rewrite nat_big_value in * by done.
  destruct b; cbn [andb].
  - destruct (Z.eqb_spec (wval (words n)) (wval (words k))) as [Ez|Ez]; cbn [negb].
    + assert (nat_big d) as Hd' by (apply big_nonneg; [done|lia]).
      rewrite (proj2 Hd'). exists d. split; [done|]. split; [done|lia].
    + unfold value in Hv. pose proof (wval_range _ (proj1 Hd)).
      destruct (neg d); [|lia]. specialize (Hle eq_refl).
      eapply yields_eq; [apply (bignum_diff m d false)|]; [apply Hm|done|lia|]. simpl. lia.
  - assert (nat_big d) as Hd' by (apply big_nonneg; [done|lia]).
    rewrite (proj2 Hd'). exists d. done.
Qed.

Lemma sub_modular fuel n k m :
  nat_big n -> nat_big k -> nat_big m -> value n < value m -> value k < value m ->
  yields (ILBigNumSub fuel n k (Some m)) ((value n - value k) mod value m).
Proof.
  intros Hn Hk Hm Hnm Hkm. unfold ILBigNumSub. rewrite (proj2 Hn), (proj2 Hk). cbn [andb negb].
  rewrite compare_abs_ge by (apply Hn || apply Hk).
  pose proof (nat_big_nonneg n Hn). pose proof (nat_big_nonneg k Hk).
  rewrite !(nat_big_value n), !(nat_big_value k) in * by done.
  case_cmp; (eapply yields_eq; [apply bignum_sub_mod|]); try (by apply Hn); try (by apply Hk); try done; try lia.
  - cbn [andb]. by rewrite Z.mod_small by lia.
  - cbn [andb]. rewrite (proj2 (Z.eqb_neq _ _)) by lia. cbn [negb].
    apply Z.mod_unique with (-1); lia.
Qed.

(** ** Multiplication *)

Lemma shiftr_32 z : Z.shiftr z 32 = z / base.
Proof. apply shiftr_div. lia. Qed.

Lemma mul_carry_spec temp ps :
  digit temp -> Forall digit ps -> wval ps + temp < weight ps ->
  exists qs, mul_carry temp ps = Returns qs /\ Forall digit qs /\ length qs = length ps /\
    wval qs = wval ps + temp.
Proof.
  intros Ht Hp. revert temp Ht. induction Hp as [|p ps Hp Hps IH]; intros temp Ht; cbn [mul_carry];
    (destruct (Z.eqb_spec temp 0) as [->|Hz]; [intros _; eexists; split; [done|]; split;
      [by auto using Forall_cons_2, Forall_nil_2|]; split; [done|lia]|]).
  - cbn [wval]. rewrite weight_nil. unfold digit in Ht. lia.
  - cbn [wval]. rewrite weight_cons. intros H.
    rewrite u64_id, shiftr_32 by (unfold digit, IL_MAX_UINT64, base in *; lia).
    pose proof (wval_range ps Hps). set (t := temp + p) in *.
    assert (t = base * (t / base) + u32 t) as Hdm by (rewrite u32_base; apply Z.div_mod; done).
    pose proof (word_u32 t) as Hu.
    destruct (IH (t / base)) as (qs & -> & Hq & Hl & Hv).
    { subst t. unfold digit, base in *. Z.div_mod_to_equations; lia. }
    { unfold digit, base in *. lia. }
    eexists. split; [done|]. split; [by constructor|]. cbn [length wval]. rewrite Hl, Hv. split; [done|lia].
Qed.

Lemma mul_row_spec x ys ps temp :
  digit x -> Forall digit ys -> digit temp -> Forall digit ps -> (length ys <= length ps)%nat ->
  wval ps + x * wval ys + temp < weight ps ->
  exists qs, mul_row x ys ps temp = Returns qs /\ Forall digit qs /\ length qs = length ps /\
    wval qs = wval ps + x * wval ys + temp.
Proof.
  intros Hx Hy. revert ps temp. induction Hy as [|y ys Hy Hys IH]; intros ps temp Ht Hp Hl H.
  - destruct (mul_carry_spec temp ps) as (qs & E & ? & ? & ?); [done|done|simpl in H; lia|].
    exists qs. cbn [mul_row]. rewrite E. simpl. repeat split; auto; lia.
  - destruct Hp as [|p ps Hp Hps]; [simpl in Hl; lia|]. cbn [mul_row wval] in *. rewrite weight_cons in H.
    assert (0 <= x * y <= (base - 1) * (base - 1)) as Hxy by (unfold digit in *; nia).
    rewrite (u64_id (x * y)), u64_id, shiftr_32 by (unfold digit, IL_MAX_UINT64, base in *; lia).
    set (t := temp + (x * y + p)) in *.
    assert (t = base * (t / base) + u32 t) as Hdm by (rewrite u32_base; apply Z.div_mod; done).
    pose proof (word_u32 t) as Hu.
    destruct (IH ps (t / base)) as (qs & -> & Hq & Hlq & Hv).
    { subst t. unfold digit, base in *. Z.div_mod_to_equations; lia. }
    { done. }
    { simpl in Hl. lia. }
    { unfold digit, base in *. nia. }
    eexists. split; [done|]. split; [by constructor|]. cbn [length wval]. rewrite Hlq, Hv. split; [done|nia].
Qed.

Lemma mul_words_spec xs ys ps :
  Forall digit xs -> Forall digit ys -> Forall digit ps -> (length xs + length ys <= length ps)%nat ->
  wval ps + wval xs * wval ys < weight ps ->
  exists qs, mul_words xs ys ps = Returns qs /\ Forall digit qs /\ wval qs = wval ps + wval xs * wval ys.
Proof.
  intros Hx Hy. revert ps. induction Hx as [|x xs Hx Hxs IH]; intros ps Hp Hl H; cbn [mul_words wval length] in *.
  - exists ps. repeat split; auto. lia.
  - pose proof (wval_range xs Hxs). pose proof (wval_range ys Hy).
    assert (0 <= wval xs * wval ys) by nia.
    destruct (mul_row_spec x ys ps 0) as (qs & -> & Hq & Hlq & Hv); [done..|lia|unfold base in *; lia|].
    cbn [mbind result_bind]. destruct Hq as [|q qs Hq Hqs]; [simpl in Hlq; lia|].
    rewrite (weight_length ps (q :: qs)), weight_cons in H by done. cbn [wval length] in *.
    destruct (IH qs Hqs) as (rs & -> & Hr & Hvr); [lia|unfold digit, base in *; lia|].
    eexists. split; [done|]. split; [by constructor|]. cbn [wval]. rewrite Hvr. lia.
Qed.

Lemma words_zeros n : Forall digit (replicate n 0).
Proof. apply Forall_replicate. unfold digit, base. lia. Qed.

Lemma mul_exact n k : big n -> big k -> yields (ILBigNumMul n k None) (value n * value k).
Proof.
  intros Hn Hk. unfold ILBigNumMul. destruct (Nat.eqb_spec (size n + size k) 0) as [E|E].
  - apply (yields_eq _ 0); [by apply from_int_yields|]. rewrite (proj2 (big_zero n Hn)); [lia|].
    apply length_zero_iff_nil. unfold size in E. lia.
  - pose proof (wval_range _ (proj1 Hn)) as Rn. pose proof (wval_range _ (proj1 Hk)) as Rk.
    set (zs := replicate (size n + size k) 0).
    assert (length zs = (size n + size k)%nat) as Hlz by apply length_replicate.
    destruct (mul_words_spec (words n) (words k) zs) as (ws & -> & Hw & Hv).
    { apply Hn. } { apply Hk. } { apply words_zeros. } { rewrite Hlz. done. }
    { unfold zs at 1. rewrite wval_zeros.
      rewrite (weight_length zs (words n ++ words k)), weight_app by (rewrite Hlz, length_app; done). nia. }
    apply normalize_yields; [done|]. rewrite Hv. unfold zs. rewrite wval_zeros. unfold value.
    destruct (neg n), (neg k); simpl; lia.
Qed.

(** ** Bytes *)

(** The value of bytes with the most significant first. *)
Definition be_value (bytes : list Z) : Z := foldl (fun v b => 256 * v + b) 0 bytes.

Lemma be_value_snoc bytes b : be_value (bytes ++ [b]) = 256 * be_value bytes + b.
Proof. unfold be_value. by rewrite foldl_app. Qed.

Lemma be_value_app xs ys : be_value (xs ++ ys) = 256 ^ Z.of_nat (length ys) * be_value xs + be_value ys.
Proof.
  induction ys as [|y ys IH] using rev_ind; [rewrite app_nil_r; unfold be_value; simpl; lia|].
  rewrite app_assoc, !be_value_snoc, IH, length_app, Nat2Z.inj_add, Z.pow_add_r by lia. simpl. lia.
Qed.

Lemma be_word b0 b1 b2 b3 :
  is_byte b0 -> is_byte b1 -> is_byte b2 -> is_byte b3 ->
  Z.lor (Z.lor (Z.lor (u32 (Z.shiftl b0 24)) (Z.shiftl b1 16)) (Z.shiftl b2 8)) b3 =
  be_value [b0; b1; b2; b3].
Proof.
  unfold is_byte, be_value. intros. simpl foldl.
  rewrite !Z.shiftl_mul_pow2 by lia. rewrite u32_id by (unfold IL_MAX_UINT32; lia).
  rewrite (lor_add (b0 * 2 ^ 24) _ 24), (lor_add _ (b2 * 2 ^ 8) 16), (lor_add _ b3 8); try lia.
  all: Z.div_mod_to_equations; lia.
Qed.

Lemma words_of_bytes_spec k bytes :
  length bytes = (4 * k)%nat -> Forall is_byte bytes ->
  Forall digit (words_of_bytes bytes) /\ wval (words_of_bytes bytes) = be_value bytes /\
  length (words_of_bytes bytes) = k.
Proof.
  revert bytes. induction k as [|k IH]; intros bytes Hl Hb.
  - destruct bytes; [|simpl in Hl; lia]. by repeat split; try constructor.
  - destruct bytes as [|b0 [|b1 [|b2 [|b3 bytes]]]]; try (simpl in Hl; lia).
    repeat match goal with H : Forall _ (_ :: _) |- _ => inversion_clear H end.
    destruct (IH bytes) as (Hw & Hv & Hk); [simpl in Hl; lia|done|]. cbn [words_of_bytes].
    rewrite be_word by done. rewrite length_app, wval_app. split.
    + apply Forall_app. split; [done|]. constructor; [|done].
      unfold be_value, digit, base, is_byte in *. simpl. lia.
    + change (b0 :: b1 :: b2 :: b3 :: bytes) with ([b0; b1; b2; b3] ++ bytes).
      rewrite be_value_app, Hv. unfold weight. rewrite Hk. cbn [wval length]. split; [|lia].
      replace (length bytes) with (4 * k)%nat by (simpl in Hl; lia).
      rewrite Nat2Z.inj_mul, Z.pow_mul_r by lia. change (256 ^ Z.of_nat 4) with base. lia.
Qed.


Lemma be_value_top hd :
  Forall is_byte hd -> (0 < length hd < 4)%nat ->
  digit (be_value hd) /\
  match hd with
  | [b0] => b0
  | [b0; b1] => Z.lor (Z.shiftl b0 8) b1
  | [b0; b1; b2] => Z.lor (Z.lor (Z.shiftl b0 16) (Z.shiftl b1 8)) b2
  | _ => 0
  end = be_value hd.
Proof.
  intros Hb Hl. destruct hd as [|b0 [|b1 [|b2 [|]]]]; simpl in Hl; try lia;
    repeat match goal with H : Forall _ (_ :: _) |- _ => inversion_clear H end;
    unfold be_value, digit, base, is_byte in *; simpl foldl; (split; [lia|]).
  - lia.
  - rewrite Z.shiftl_mul_pow2 by lia. rewrite (lor_add _ b1 8); try lia. Z.div_mod_to_equations; lia.
  - rewrite !Z.shiftl_mul_pow2 by lia. rewrite (lor_add _ (b1 * 2 ^ 8) 16), (lor_add _ b2 8); try lia.
    all: Z.div_mod_to_equations; lia.
Qed.

Lemma from_bytes_words bytes :
  Forall is_byte bytes ->
  exists ws, ILBigNumFromBytes bytes = NormalizeBigNum {| neg := false; words := ws |} /\
    Forall digit ws /\ wval ws = be_value bytes.
Proof.
  intros Hb. unfold ILBigNumFromBytes. destruct (decide (bytes = [])) as [->|Hne].
  { exists []. by repeat split. }
  destruct (Z.leb_spec ((Z.of_nat (length bytes) + 3) / 4) 0) as [H|_].
  { exfalso. apply Hne, length_zero_iff_nil. Z.div_mod_to_equations; lia. }
  clear Hne. set (rest := (length bytes mod 4)%nat).
  pose proof (Nat.div_mod_eq (length bytes) 4) as Hdm. fold rest in Hdm.
  assert (rest < 4)%nat as Hr by (apply Nat.mod_upper_bound; lia).
  assert (length (take rest bytes) = rest) as Hhd by (rewrite length_take; lia).
  pose proof (length_drop bytes rest) as Htl. pose proof (take_drop rest bytes) as Hsplit.
  clearbody rest. revert Hhd Htl Hsplit. generalize (take rest bytes) (drop rest bytes). intros hd tl Hhd Htl <-.
  apply Forall_app in Hb as [Hbh Hbt].
  destruct (words_of_bytes_spec (length (hd ++ tl) / 4) tl) as (Hw & Hv & Hk); [lia|done|].
  rewrite be_value_app. rewrite <-Hv.
  replace (256 ^ Z.of_nat (length tl)) with (weight (words_of_bytes tl)).
  2: { unfold weight. rewrite Hk. replace (length tl) with (4 * (length (hd ++ tl) / 4))%nat by lia.
       rewrite Nat2Z.inj_mul, Z.pow_mul_r by lia. done. }
  destruct (decide (rest = 0)%nat) as [->|Hn].
  { destruct hd; [|done]. exists (words_of_bytes tl). unfold be_value at 1. simpl foldl. split; [done|]. split; [done|lia]. }
  destruct (be_value_top hd Hbh) as (Hword & Ht); [lia|].
  exists (words_of_bytes tl ++ [be_value hd]). split.
  - f_equal. f_equal. rewrite <-Ht. clear -Hhd Hr Hn.
    destruct hd as [|b0 [|b1 [|b2 [|]]]]; simpl in Hhd; subst rest; try done; lia.
  - rewrite wval_app. cbn [wval]. split; [|lia]. apply Forall_app. split; [done|]. by constructor.
Qed.

Lemma from_bytes_value bytes :
  Forall is_byte bytes ->
  nat_big (ILBigNumFromBytes bytes) /\ value (ILBigNumFromBytes bytes) = be_value bytes.
Proof.
  intros H. destruct (from_bytes_words bytes H) as (ws & -> & Hw & Hv). rewrite normalize_value, Hv.
  split; [|done]. apply big_nonneg; [by apply normalize_big|]. rewrite normalize_value.
  apply wval_range in Hw. lia.
Qed.

Lemma byte_u8 z : is_byte (u8 z).
Proof. apply u8_range. Qed.

Lemma bytes_of_words_spec ws :
  Forall digit ws ->
  Forall is_byte (bytes_of_words ws) /\ be_value (bytes_of_words ws) = wval ws /\
  length (bytes_of_words ws) = (4 * length ws)%nat.
Proof.
  induction 1 as [|w ws Hw _ (Hb & Hv & Hl)]; [by repeat split; try constructor|].
  cbn [bytes_of_words wval length]. split.
  - apply Forall_app. split; [done|]. repeat (constructor; [apply byte_u8|]). constructor.
  - rewrite be_value_app, Hv, length_app, Hl. split; [|simpl; lia]. unfold be_value. simpl foldl.
    change (256 ^ _) with base. rewrite !shiftr_div by lia. change (2 ^ 8) with 0x100. change (2 ^ 16) with 0x10000.
    change (2 ^ 24) with 0x1000000. unfold digit, base, u8 in *. Z.div_mod_to_equations; lia.
Qed.

(** A mask of eight bits tells whether a byte of a word is 0. *)
Lemma land_byte top k :
  0 <= k -> Z.land top (Z.shiftl 255 k) = 0 -> (top / 2 ^ k) mod 256 = 0.
Proof.
  intros Hk H. rewrite <-land_FF, <-shiftr_div by done.
  apply (f_equal (fun z => Z.shiftr z k)) in H. rewrite Z.shiftr_land, Z.shiftr_shiftl_l in H by done.
  rewrite Z.sub_diag, Z.shiftl_0_r, Z.shiftr_0_l in H. done.
Qed.

Lemma to_bytes_spec n :
  nat_big n ->
  Forall is_byte (ILBigNumToBytes n) /\ be_value (ILBigNumToBytes n) = value n /\
  Z.of_nat (length (ILBigNumToBytes n)) = ILBigNumByteCount n.
Proof.
  intros Hn. rewrite nat_big_value by done. destruct Hn as [(Hw & _) _].
  unfold ILBigNumToBytes, ILBigNumByteCount, size. destruct (words n) as [|t ls _] using rev_ind.
  { simpl. by repeat (split || constructor). }
  rewrite length_app. simpl length. rewrite (proj2 (Nat.eqb_neq _ _)), (proj2 (Nat.ltb_lt _ _)) by lia.
  unfold top_word. rewrite last_snoc. cbn [default from_option]. unfold id.
  replace (length ls + 1 - 1)%nat with (length ls) by lia. rewrite take_app_length.
  destruct (bytes_of_words_spec _ Hw) as (Hb & Hv & Hl).
  apply word_snoc in Hw as [Hls Ht]. destruct (bytes_of_words_spec _ Hls) as (Hbl & Hvl & Hll).
  destruct (Z.eqb_spec (Z.land t 0xFF000000) 0) as [H1|H1]; cbn [negb].
  2: { split; [done|]. split; [done|]. rewrite Hl, length_app. simpl. lia. }
  apply (land_byte t 24) in H1; [|done].
  assert (256 ^ Z.of_nat (length (bytes_of_words ls)) = weight ls) as E.
  { unfold weight. rewrite Hll, Nat2Z.inj_mul, Z.pow_mul_r by lia. done. }
  rewrite wval_app. cbn [wval].
  destruct (Z.eqb_spec (Z.land t 0x00FF0000) 0) as [H2|H2]; cbn [negb];
    [apply (land_byte t 16) in H2; [|done];
     destruct (Z.eqb_spec (Z.land t 0x0000FF00) 0) as [H3|H3]; cbn [negb];
     [apply (land_byte t 8) in H3; [|done]|]|].
  all: (split; [apply Forall_app; split; [by repeat (constructor; [apply byte_u8|])|done]|]).
  all: rewrite be_value_app, E, Hvl; (split; [|simpl length; rewrite ?length_app, Hll; simpl; lia]).
  all: replace (be_value _) with t; [lia|]; unfold be_value; simpl foldl; rewrite ?shiftr_div by lia.
  all: change (2 ^ 8) with 0x100 in *; change (2 ^ 16) with 0x10000 in *; change (2 ^ 24) with 0x1000000 in *.
  all: unfold digit, base, u8 in *; Z.div_mod_to_equations; lia.
Qed.
