(* ===== verification/BignumDiv.v ===== *)
(** * Big numbers: division, inverses and powers

    The estimate of a digit of the quotient is never too large and at most two
    too small, so the correction ends ([div_digit_spec]); the loop of the
    extended algorithm of Euclid halves its last number in two steps and keeps
    a continuant that bounds the coefficients ([egcd]).  The theorems give the
    values of all operations; two examples show what the reduction of a sum by
    a modulus does instead of reducing. *)
From Stdlib Require Import ZArith Lia.
From stdpp Require Import base list option numbers.
From S2P Require Import Prelude Bignum BignumProps.

Local Open Scope Z_scope.

(** ** Division by one word *)

Lemma join_words high low :
  digit high -> digit low -> Z.lor (u64 (Z.shiftl high 32)) low = base * high + low.
Proof.
  unfold digit, base. intros. rewrite Z.shiftl_mul_pow2 by lia. rewrite u64_id by (unfold IL_MAX_UINT64; lia).
  rewrite (lor_add _ low 32); try lia. apply Z.mod_mul. lia.
Qed.

Lemma short_div_spec d xs :
  digit d -> 0 < d -> Forall digit xs ->
  Forall digit (short_div d xs).1 /\ 0 <= (short_div d xs).2 < d /\
  wval xs = d * wval (short_div d xs).1 + (short_div d xs).2.
Proof.
  intros Hd Hp. induction 1 as [|x xs Hx _ (Hw & Ht & Hv)]; cbn [short_div].
  - simpl. repeat split; try done; lia.
  - destruct (short_div d xs) as [q t]. cbn [fst snd] in *.
    rewrite join_words by (done || (unfold digit in *; lia)). cbn [wval].
    pose proof (Z.div_mod (base * t + x) d ltac:(lia)) as Hdm.
    pose proof (Z.mod_pos_bound (base * t + x) d Hp) as Hb.
    assert (digit ((base * t + x) / d)) as Hq.
    { unfold digit in *. split; [apply Z.div_pos; unfold base; lia|]. apply Z.div_lt_upper_bound; nia. }
    rewrite u32_id by (unfold digit, base, IL_MAX_UINT32 in *; lia).
    split; [by constructor|]. split; [done|]. lia.
Qed.

(** ** Shifts *)

Lemma land_pow2 w i : 0 <= i -> (Z.land w (2 ^ i) =? 0) = negb (Z.testbit w i).
Proof.
  intros Hi. destruct (Z.testbit w i) eqn:E; simpl.
  - apply Z.eqb_neq. intros H. apply (f_equal (fun z => Z.testbit z i)) in H.
    rewrite Z.land_spec, Z.pow2_bits_true, E, Z.bits_0 in H by done. done.
  - apply Z.eqb_eq. apply Z.bits_inj'. intros j Hj. rewrite Z.land_spec, Z.pow2_bits_eqb, Z.bits_0 by done.
    destruct (Z.eqb_spec i j) as [<-|]; [by rewrite E|apply andb_false_r].
Qed.

Lemma find_shift_spec fuel top s :
  0 < top -> 0 <= s -> top * 2 ^ s < base -> 32 - s <= Z.of_nat fuel ->
  exists s', find_shift fuel top s = Returns s' /\ 0 <= s' < 32 /\ base <= 2 * (top * 2 ^ s') /\ top * 2 ^ s' < base.
Proof.
  intros Ht. revert s. induction fuel as [|fuel IH]; intros s Hs Hb Hf.
  all: assert (s < 32) as Hs32 by (apply (Z.pow_lt_mono_r_iff 2); unfold base in *; nia).
  { lia. }
  cbn [find_shift]. rewrite shiftr_div by done.
  assert (2 ^ 31 = 2 ^ (31 - s) * 2 ^ s) as E by (rewrite <-Z.pow_add_r by lia; f_equal; lia).
  change 0x80000000 with (2 ^ 31). rewrite E, Z.div_mul by lia.
  rewrite land_pow2 by lia. rewrite Z.testbit_eqb by lia.
  assert (0 < 2 ^ (31 - s)) by lia. assert (0 < 2 ^ s) by lia.
  change base with (2 * 2 ^ 31) in *. rewrite E in *.
  destruct (Z.ltb_spec top (2 ^ (31 - s))) as [H1|H1].
  - rewrite Z.div_small by lia. simpl. apply IH; [lia| |lia].
    rewrite Z.pow_add_r by lia. nia.
  - assert (top / 2 ^ (31 - s) = 1) as ->; [|simpl; exists s; split; [done|nia]].
    symmetry. apply Z.div_unique with (top - 2 ^ (31 - s)); [|lia]. nia.
Qed.

Lemma shift_words_spec s temp xs :
  0 <= s < 32 -> 0 <= temp < 2 ^ s -> Forall digit xs ->
  Forall digit (shift_words s temp xs).1 /\ length (shift_words s temp xs).1 = length xs /\
  0 <= (shift_words s temp xs).2 < 2 ^ s /\
  wval xs * 2 ^ s + temp = wval (shift_words s temp xs).1 + weight xs * (shift_words s temp xs).2.
Proof.
  intros Hs Ht Hx. revert temp Ht. induction Hx as [|x xs Hx _ IH]; intros temp Ht; cbn [shift_words].
  - simpl. rewrite weight_nil. repeat split; try done; lia.
  - assert (2 ^ s <= 2 ^ 31) as Hs31 by (apply Z.pow_le_mono_r; lia).
    assert (x * 2 ^ s <= (base - 1) * 2 ^ s) by (unfold digit in *; nia).
    assert (0 <= x * 2 ^ s) by (unfold digit in *; nia).
    rewrite Z.shiftl_mul_pow2, u64_id by (unfold IL_MAX_UINT64, base in *; lia).
    rewrite Z.lor_comm, (lor_add _ temp s) by (lia || apply Z.mod_mul; lia).
    rewrite shiftr_32. set (t := x * 2 ^ s + temp) in *.
    assert (t = base * (t / base) + u32 t) as Hdm by (rewrite u32_base; apply Z.div_mod; done).
    destruct (IH (t / base)) as (Hw & Hl & Hlast & Hv).
    { split; [apply Z.div_pos; unfold base; lia|apply Z.div_lt_upper_bound; unfold base in *; lia]. }
    destruct (shift_words s (t / base) xs) as [ws last]. cbn [fst snd wval length] in *.
    split; [constructor; [apply word_u32|done]|]. split; [by rewrite Hl|]. split; [done|].
    rewrite weight_cons. unfold t in Hdm at 1. nia.
Qed.

Lemma unshift_words_spec s ws :
  0 <= s <= 32 -> Forall digit ws ->
  Forall digit (unshift_words s ws).1 /\ (unshift_words s ws).2 = wval ws mod (base * base) /\
  wval (unshift_words s ws).1 = wval ws / 2 ^ s.
Proof.
  intros Hs. induction 1 as [|w ws Hw Hws (Hx & Ht & Hv)]; cbn [unshift_words].
  - simpl. done.
  - destruct (unshift_words s ws) as [xs temp]. cbn [fst snd wval] in *. set (V := wval ws) in *.
    assert (Z.lor (u64 (Z.shiftl temp 32)) w = (w + base * V) mod (base * base)) as ->.
    { replace (u64 (Z.shiftl temp 32)) with (u64 (Z.shiftl (u32 temp) 32)).
      2: { rewrite !Z.shiftl_mul_pow2 by lia. unfold u32, u64. Z.div_mod_to_equations; lia. }
      rewrite join_words by (done || apply word_u32). rewrite u32_base, Ht.
      assert (V mod (base * base) mod base = V mod base) as ->.
      { apply Z.mod_mod_divide. by exists base. }
      apply Z.mod_unique with (V / base).
      - left. pose proof (Z.mod_pos_bound V base ltac:(done)). unfold digit, base in *. lia.
      - pose proof (Z.div_mod V base ltac:(done)). lia. }
    split; [constructor; [apply word_u32|done]|]. split; [done|].
    rewrite u32_base, shiftr_div, Hv by lia. set (U := w + base * V).
    assert (base * base = base * 2 ^ (32 - s) * 2 ^ s) as E.
    { rewrite <-Z.mul_assoc, <-Z.pow_add_r by lia. f_equal. by replace (32 - s + s) with 32 by lia. }
    assert ((U mod (base * base)) / 2 ^ s mod base = (U / 2 ^ s) mod base) as ->.
    { pose proof (Z.div_mod U (base * base) ltac:(done)) as HU. revert HU.
      generalize (U / (base * base)) (U mod (base * base)). intros q r HU. rewrite HU.
      replace (base * base * q + r) with (r + (q * 2 ^ (32 - s) * base) * 2 ^ s) by (rewrite E; ring).
      rewrite Z.div_add, Z.mod_add by (unfold base; lia). done. }
    assert (V / 2 ^ s = U / 2 ^ s / base) as ->.
    { rewrite Z.div_div, (Z.mul_comm (2 ^ s)), <-Z.div_div by (unfold base; lia). f_equal.
      apply Z.div_unique with w; [unfold digit, base in *; lia|unfold U; lia]. }
    rewrite (Z.div_mod (U / 2 ^ s) base) at 3 by done. lia.
Qed.

(** ** A digit of the quotient *)

(** [ws'] is the words [ws] of [normx] less [v], up to a multiple of the
    weight of all of them; the words beyond are kept. *)
Definition window (us : list Z) (w : Z) (rest : list Z) (v : Z) (r : result (list Z)) : Prop :=
  exists us' w' k, r = Returns (us' ++ w' :: rest) /\ Forall digit us' /\ length us' = length us /\ digit w' /\
    wval us' + weight us * w' = wval us + weight us * w - v + k * (weight us * base).

Lemma window_exact us w rest v r :
  Forall digit us -> digit w -> window us w rest v r -> 0 <= v <= wval us + weight us * w ->
  exists us' w', r = Returns (us' ++ w' :: rest) /\ Forall digit us' /\ length us' = length us /\ digit w' /\
    wval us' + weight us * w' = wval us + weight us * w - v.
Proof.
  intros Hus Hw (us' & w' & k & -> & Hus' & Hl & Hw' & Hv) Hr.
  exists us', w'. repeat (split; [done|]). apply wval_range in Hus, Hus'.
  rewrite (weight_length us' us) in Hus' by done. unfold digit in *.
  assert (0 <= weight us * w <= weight us * base - weight us) by nia.
  assert (0 <= weight us * w' <= weight us * base - weight us) by nia.
  assert (k = 0) by nia. subst k. lia.
Qed.

Lemma sub_product_spec d ys us w rest temp carry :
  digit d -> Forall digit ys -> Forall digit us -> length us = length ys -> digit temp ->
  window us w rest (d * wval ys + temp + b2z carry) (sub_product d ys (us ++ w :: rest) temp carry).
Proof.
  intros Hd Hy. revert us temp carry. induction Hy as [|y ys Hy Hys IH]; intros us temp carry Hus Hl Ht.
  - destruct us; [|done]. cbn [app sub_product wval].
    exists [], (u32 (w - u32 (u32 temp + b2z carry))), (- ((w - (temp + b2z carry)) / base)).
    split; [done|]. split; [done|]. split; [done|]. split; [apply word_u32|]. rewrite weight_nil. cbn [wval].
    unfold u32, base. Z.div_mod_to_equations; lia.
  - destruct Hus as [|u us Hu Hus]; [done|]. cbn [app sub_product].
    assert (0 <= y * d <= (base - 1) * (base - 1)) as Hyd by (unfold digit in *; nia).
    rewrite (u64_id (y * d)), u64_id, shiftr_32 by (unfold digit, IL_MAX_UINT64, base in *; lia).
    set (t := temp + y * d) in *.
    assert (t = base * (t / base) + u32 t) as Hdm by (rewrite u32_base; apply Z.div_mod; done).
    destruct (sub_borrow_spec carry u (u32 t) Hu (word_u32 t)) as (Hdiff & He).
    destruct (sub_borrow carry u (u32 t)) as [diff c]. cbn [fst snd] in *.
    destruct (IH us (t / base) c) as (us' & w' & k & -> & Hus' & Hl' & Hw' & Hv); [done|by simpl in Hl; lia| |].
    { subst t. unfold digit, base in *. Z.div_mod_to_equations; lia. }
    exists (diff :: us'), w', k. split; [done|]. split; [by constructor|]. split; [simpl; lia|]. split; [done|].
    cbn [wval]. rewrite weight_cons. unfold t in Hdm at 1. nia.
Qed.

Lemma sub_once_spec ys us w rest carry :
  digit w -> Forall digit ys -> Forall digit us -> length us = length ys ->
  window us w rest (wval ys + b2z carry) (sub_once ys (us ++ w :: rest) carry).
Proof.
  intros Hw Hy. revert us carry. induction Hy as [|y ys Hy Hys IH]; intros us carry Hus Hl.
  - destruct us; [|done]. cbn [app sub_once wval].
    exists [], (if carry then u32 (w - 1) else w), (- ((w - b2z carry) / base)).
    split; [done|]. split; [done|]. split; [done|].
    split; [destruct carry; [apply word_u32|done]|]. rewrite weight_nil. cbn [wval].
    destruct carry; simpl; unfold digit, u32, base in *; Z.div_mod_to_equations; lia.
  - destruct Hus as [|u us Hu Hus]; [done|]. cbn [app sub_once].
    destruct (sub_borrow_spec carry u y Hu Hy) as (Hdiff & He).
    destruct (sub_borrow carry u y) as [diff c]. cbn [fst snd] in *.
    destruct (IH us c) as (us' & w' & k & -> & Hus' & Hl' & Hw' & Hv); [done|by simpl in Hl; lia|].
    exists (diff :: us'), w', k. split; [done|]. split; [by constructor|]. split; [simpl; lia|]. split; [done|].
    cbn [wval]. rewrite weight_cons. nia.
Qed.

Lemma range_ge_compare xs ys : range_ge_down xs ys = (0 <=? compare_down xs ys).
Proof.
  revert ys. induction xs as [|x xs IH]; intros [|y ys]; simpl; try done.
  rewrite Z.gtb_ltb, IH. destruct (Z.ltb_spec x y), (Z.ltb_spec y x); done || lia.
Qed.

Lemma big_range_ge ys us w rest :
  Forall digit ys -> Forall digit us -> length us = length ys ->
  BigRangeGe (us ++ w :: rest) ys (length ys) = (wval ys <=? wval us).
Proof.
  intros Hy Hu Hl. unfold BigRangeGe. rewrite range_ge_compare, (take_ge ys) by lia.
  rewrite (take_app_length' us) by done. rewrite compare_down_sgn by done.
  apply eq_true_iff_eq. rewrite !Z.leb_le. lia.
Qed.

Lemma nth_middle (us : list Z) w rest n : length us = n -> nth n (us ++ w :: rest) 0 = w.
Proof. intros <-. rewrite app_nth2, Nat.sub_diag by lia. done. Qed.

(** The corrections: as many as the divisor is in the words. *)
Lemma correct_spec fuel ys us w rest d :
  Forall digit ys -> Forall digit us -> digit w -> length us = length ys -> 0 < wval ys ->
  let V := wval us + weight us * w in
  V < Z.of_nat fuel * wval ys -> 0 <= d -> d + V / wval ys < base ->
  exists us', correct fuel ys (us ++ w :: rest) d = Returns (us' ++ 0 :: rest, d + V / wval ys) /\
    Forall digit us' /\ length us' = length us /\ wval us' = V mod wval ys.
Proof.
  intros Hy. revert us w d. induction fuel as [|fuel IH]; intros us w d Hus Hw Hl HD V HV Hd Hq.
  all: pose proof (wval_range us Hus) as Ru; pose proof (wval_range ys Hy) as Ry;
    rewrite (weight_length ys us) in Ry by done; assert (0 <= V) by (unfold V, digit in *; nia).
  { lia. }
  cbn [correct]. rewrite nth_middle, big_range_ge by done.
  assert (negb (w =? 0) || (wval ys <=? wval us) = (wval ys <=? V)) as ->.
  { destruct (Z.eqb_spec w 0) as [->|Hn]; simpl; [unfold V; f_equal; lia|].
    symmetry. apply Z.leb_le. unfold V, digit in *. nia. }
  destruct (Z.leb_spec (wval ys) V) as [Hge|Hlt].
  - destruct (window_exact us w rest (wval ys + b2z false) (sub_once ys (us ++ w :: rest) false))
      as (us' & w' & -> & Hus' & Hl' & Hw' & Hv); [done..|by apply sub_once_spec|simpl; unfold V in *; lia|].
    cbn [mbind result_bind]. assert (weight us' = weight us) as Ew by (by apply weight_length).
    rewrite <-Ew in Hv at 1. simpl b2z in Hv. fold V in Hv.
    assert (V / wval ys = 1 + (V - wval ys) / wval ys) as Eq.
    { replace V with (V - wval ys + 1 * wval ys) at 1 by lia. rewrite Z.div_add by lia. lia. }
    assert (0 <= (V - wval ys) / wval ys) by (apply Z.div_pos; lia).
    rewrite u32_id by (unfold IL_MAX_UINT32, base in *; lia).
    replace (V - wval ys) with (wval us' + weight us' * w') in * by lia.
    destruct (IH us' w' (d + 1)) as (us'' & -> & Hw'' & Hl'' & Hv''); [done|done|lia|done|nia|lia|lia|].
    exists us''. rewrite Eq, Hl'', Hl', Hv''. split; [do 2 f_equal; lia|]. repeat (split; [done|]).
    replace V with (wval us' + weight us' * w' + 1 * wval ys) by lia. by rewrite Z.mod_add by lia.
  - exists us. rewrite Z.div_small, Z.mod_small by lia.
    assert (w = 0) as -> by (unfold V, digit in *; nia). unfold V. split; [do 2 f_equal; lia|]. repeat split; auto. lia.
Qed.

(** The estimate is at most the digit, and less than three away. *)
Lemma estimate_bounds t u w D V W :
  digit t -> base <= 2 * t -> digit u -> digit w -> 0 < W ->
  W * t <= D < W * (t + 1) -> W * (base * w + u) <= V < W * (base * w + u + 1) -> V < D * base ->
  digit (estimate t w u) /\ 0 <= estimate t w u * D <= V /\ V - estimate t w u * D < 3 * D.
Proof.
  intros Ht Ht2 Hu Hw HW HD HV Hlt. set (X := base * w + u) in *.
  assert (estimate t w u = X / (t + 1) /\ digit (X / (t + 1))) as [-> Hq].
  { assert (0 <= X / (t + 1) < base) as Hq.
    { split; [apply Z.div_pos; unfold X, digit, base in *; lia|].
      apply Z.div_lt_upper_bound; [unfold digit in *; lia|]. unfold digit, base in *. nia. }
    split; [|done]. unfold estimate. destruct (Z.eqb_spec t IL_MAX_UINT32) as [->|].
    - change (IL_MAX_UINT32 + 1) with base. unfold X. symmetry. rewrite Z.mul_comm, Z.div_add_l by done.
      rewrite Z.div_small by done. lia.
    - rewrite join_words by done. fold X. rewrite (u32_id (t + 1)) by (unfold digit, IL_MAX_UINT32, base in *; lia).
      apply u32_id. unfold IL_MAX_UINT32, base in *. lia. }
  split; [done|]. pose proof (Z.div_mod X (t + 1) ltac:(unfold digit in *; lia)) as Hdm.
  pose proof (Z.mod_pos_bound X (t + 1) ltac:(unfold digit in *; lia)) as Hm.
  set (q := X / (t + 1)) in *. set (r := X mod (t + 1)) in *. unfold digit in *. split; [split; nia|].
  assert (V < W * ((t + 1) * (q + 1))) by nia.
  assert (W * (t + 1) - D <= W) by nia.
  assert (q * (W * (t + 1) - D) <= (base - 1) * W) by nia.
  nia.
Qed.

Lemma div_digit_spec ys us w rest :
  Forall digit ys -> base <= 2 * top_word ys -> ys <> [] ->
  Forall digit us -> digit w -> length us = length ys ->
  let V := wval us + weight us * w in V < wval ys * base ->
  exists us', div_digit ys (us ++ w :: rest) = Returns (us' ++ 0 :: rest, V / wval ys) /\
    digit (V / wval ys) /\ Forall digit us' /\ length us' = length us /\ wval us' = V mod wval ys.
Proof.
  intros Hy Htop Hne Hus Hw Hl V HV.
  destruct (top_word_bounds ys Hy Hne) as (Ht & Wy & By).
  destruct us as [|u us0 _] using rev_ind; [destruct ys; done|].
  apply word_snoc in Hus as Hu. destruct Hu as [Hus0 Hu]. rewrite length_app in Hl. simpl in Hl.
  rewrite (weight_length (tail ys) us0) in By by (rewrite length_tl; lia).
  pose proof (weight_pos us0). pose proof (wval_range us0 Hus0) as R0.
  assert (0 < wval ys) as HD by (unfold base in *; nia).
  destruct (estimate_bounds (top_word ys) u w (wval ys) V (weight us0)) as (Hq & Hle & Hlt); try done.
  { lia. }
  { unfold V. rewrite wval_app, weight_app, weight_cons, weight_nil. cbn [wval]. nia. }
  unfold div_digit. rewrite nth_middle by (rewrite length_app; simpl; lia).
  assert (nth (length ys - 1) ((us0 ++ [u]) ++ w :: rest) 0 = u) as ->.
  { rewrite <-app_assoc. apply nth_middle. lia. }
  set (q := estimate (top_word ys) w u) in *.
  assert (length (us0 ++ [u]) = length ys) as Hl' by (rewrite length_app; simpl; lia).
  destruct (window_exact (us0 ++ [u]) w rest (q * wval ys + 0 + b2z false)
    (sub_product q ys ((us0 ++ [u]) ++ w :: rest) 0 false)) as (us' & w' & -> & Hus' & Hlu & Hw' & Hv); try done.
  { by apply sub_product_spec. }
  { simpl. fold V. lia. }
  cbn [mbind result_bind]. rewrite <-(weight_length us' (us0 ++ [u])) in Hv at 1 by done.
  fold V in Hv. simpl b2z in Hv.
  assert (V / wval ys = q + (V - q * wval ys) / wval ys) as Eq.
  { replace V with (V - q * wval ys + q * wval ys) at 1 by lia. rewrite Z.div_add by lia. lia. }
  assert (digit (V / wval ys)) as HV'.
  { split; [apply Z.div_pos; lia|]. apply Z.div_lt_upper_bound; lia. }
  replace (V - q * wval ys) with (wval us' + weight us' * w') in * by lia.
  unfold correct_fuel. destruct (correct_spec 3 ys us' w' rest q) as (us'' & -> & Hw'' & Hl'' & Hv''); try done.
  { lia. } { apply Hq. } { rewrite <-Eq. apply HV'. }
  exists us''. rewrite Eq. split; [done|]. rewrite <-Eq. split; [done|]. split; [done|]. split; [lia|].
  rewrite Hv''. replace V with (wval us' + weight us' * w' + q * wval ys) by lia. by rewrite Z.mod_add by lia.
Qed.

(** ** Division *)

Lemma div_loop_spec ys k normx quot :
  Forall digit ys -> base <= 2 * top_word ys -> ys <> [] -> Forall digit normx ->
  (k + length ys <= length normx)%nat -> wval normx < wval ys * base ^ Z.of_nat k ->
  exists r qs, div_loop ys k normx quot = Returns (r, qs ++ quot) /\ Forall digit qs /\ Forall digit r /\
    length qs = k /\ length r = length normx /\ 0 <= wval r < wval ys /\
    wval normx = wval ys * wval qs + wval r.
Proof.
  intros Hy Htop Hne. revert normx quot. induction k as [|k IH]; intros normx quot Hx Hl Hv.
  { exists normx, []. cbn [div_loop wval]. apply wval_range in Hx as ?. repeat (split; [done|]).
    simpl Z.of_nat in Hv. lia. }
  cbn [div_loop]. rewrite Nat2Z.inj_succ, Z.pow_succ_r in Hv by lia.
  pose proof (take_drop k normx) as Hsplit. assert (length (take k normx) = k) as Hlt by (rewrite length_take; lia).
  assert (length (drop k normx) = (length normx - k)%nat) as Hld by apply length_drop.
  revert Hsplit Hlt Hld. generalize (take k normx) (drop k normx). intros lo hi <- Hlt Hld.
  rewrite length_app in *. apply Forall_app in Hx as [Hlo Hhi].
  pose proof (take_drop (length ys) hi) as Hsplit.
  assert (length (take (length ys) hi) = length ys) as Hlu by (rewrite length_take; lia).
  pose proof (length_drop hi (length ys)) as Hlr.
  revert Hsplit Hlu Hlr. generalize (take (length ys) hi) (drop (length ys) hi). intros us tl <- Hlu Hlr.
  rewrite length_app in *. destruct tl as [|w rest]; [simpl in *; lia|].
  apply Forall_app in Hhi as [Hus Hwr]. inversion Hwr as [|? ? Hw Hrest]; subst.
  assert (weight lo = base ^ Z.of_nat (length lo)) as Elo by done. rewrite <-Elo in *.
  rewrite !wval_app in *. cbn [wval] in *. set (V := wval us + weight us * w).
  apply wval_range in Hlo as Rlo, Hus as Rus, Hrest as Rrest, Hy as Ry.
  rewrite (weight_length ys us) in Ry by done.
  assert (V + weight us * base * wval rest < wval ys * base) as HV0.
  { apply (Z.mul_lt_mono_pos_l (weight lo)); unfold V; lia. }
  assert (0 <= V) as HV1 by (unfold V, digit in *; nia).
  assert (wval rest = 0) as Hz by (destruct (Z.eq_dec (wval rest) 0); [done|unfold base in *; nia]).
  assert (V < wval ys * base) as HV by (rewrite Hz in HV0; lia).
  destruct (div_digit_spec ys us w rest) as (us' & -> & Hq & Hus' & Hlus & Hv'); try done.
  cbn [mbind result_bind]. fold V. fold V in Hv', Hq.
  assert (0 < wval ys) as HD by (unfold V, digit, base in *; nia).
  pose proof (Z.mod_pos_bound V (wval ys) HD) as HM. pose proof (Z.div_mod V (wval ys) ltac:(lia)) as HDM.
  destruct (IH (lo ++ us' ++ 0 :: rest) (V / wval ys :: quot)) as (r & qs & -> & Hqs & Hr & Hlq & Hlr' & Hvr & He).
  { repeat (apply Forall_app; split); try done. constructor; [unfold digit, base; lia|done]. }
  { rewrite !length_app in *. simpl in *. lia. }
  { rewrite !wval_app. cbn [wval]. rewrite Hz, Hv', Elo. rewrite Elo in Rlo. nia. }
  exists r, (qs ++ [V / wval ys]). rewrite <-app_assoc. split; [done|].
  split; [apply Forall_app; split; [done|by constructor]|]. split; [done|].
  split; [rewrite length_app; simpl; lia|].
  split; [rewrite Hlr', !length_app; simpl; rewrite Hlus; lia|]. split; [done|].
  rewrite !wval_app in He. rewrite wval_app, (weight_length qs lo) by done. cbn [wval] in *.
  rewrite Hz, Hv' in He. rewrite Hz. unfold V in HDM at 1. nia.
Qed.

Lemma big_top n : big n -> words n <> [] -> 0 < top_word (words n).
Proof.
  intros (Hw & Ht & _) Hne. destruct (top_word_bounds _ Hw Hne) as ((H & _) & _).
  destruct (words n) as [|t us _] using rev_ind; [done|]. apply trimmed_snoc in Ht.
  unfold top_word in *. rewrite last_snoc in *. cbn [default from_option id] in *. unfold id in *. lia.
Qed.

(** The normalised divisor: its highest bit is set. *)
Lemma shifted_divisor ys s :
  Forall digit ys -> ys <> [] -> 0 <= s < 32 -> base <= 2 * (top_word ys * 2 ^ s) -> top_word ys * 2 ^ s < base ->
  let zs := (shift_words s 0 ys).1 in
  Forall digit zs /\ zs <> [] /\ length zs = length ys /\ wval zs = wval ys * 2 ^ s /\ base <= 2 * top_word zs.
Proof.
  intros Hy Hne Hs H1 H2 zs.
  destruct (shift_words_spec s 0 ys Hs ltac:(lia) Hy) as (Hw & Hl & Hlast & Hv). fold zs in Hw, Hl, Hv.
  assert (zs <> []) as Hnz by (intros E; rewrite E in Hl; destruct ys; done).
  destruct (top_word_bounds ys Hy Hne) as (Wy & Ey & By). destruct (top_word_bounds zs Hw Hnz) as (Wz & Ez & Bz).
  rewrite (weight_length (tail zs) (tail ys)) in * by (rewrite !length_tl; lia).
  pose proof (weight_pos (tail ys)). pose proof (wval_range zs Hw) as Rz. rewrite (weight_length zs ys) in Rz by done.
  assert (0 < 2 ^ s) by lia.
  assert (wval ys * 2 ^ s < (top_word ys + 1) * 2 ^ s * weight (tail ys)) by nia.
  assert ((top_word ys + 1) * 2 ^ s <= base).
  { assert (exists k, base = k * 2 ^ s) as [k Hk].
    { exists (2 ^ (32 - s)). rewrite <-Z.pow_add_r by lia. by replace (32 - s + s) with 32 by lia. }
    assert (top_word ys < k) by (apply (Z.mul_lt_mono_pos_r (2 ^ s)); lia).
    rewrite Hk. apply Z.mul_le_mono_nonneg_r; lia. }
  assert (wval ys * 2 ^ s < weight ys) by nia.
  assert ((shift_words s 0 ys).2 = 0) as Hz by nia. rewrite Hz in Hv.
  split; [done|]. split; [done|]. split; [done|]. split; [lia|].
  assert (top_word ys * 2 ^ s <= top_word zs) by nia. lia.
Qed.

(** Quotient and remainder of normalised numbers that are not negative. *)
Definition divides_as (r : result (ILBigNum * ILBigNum)) (x y : Z) : Prop :=
  exists q m, r = Returns (q, m) /\ nat_big q /\ nat_big m /\ value q = x / y /\ value m = x mod y.

Lemma divides_as_eq r x y q m :
  r = Returns (q, m) -> big q -> big m -> 0 <= x -> 0 <= value m < y -> x = y * value q + value m ->
  divides_as r x y.
Proof.
  intros -> Hq Hm Hx Hv He. exists q, m. split; [done|].
  assert (value q = x / y) as Hqv by (apply Z.div_unique with (value m); lia).
  assert (0 <= x / y) by (apply Z.div_pos; lia).
  split; [apply big_nonneg; [done|lia]|]. split; [apply big_nonneg; [done|lia]|]. split; [done|].
  apply Z.mod_unique with (value q); lia.
Qed.

Lemma div_rem_long x y :
  nat_big x -> nat_big y -> (2 <= size y)%nat -> value y <= value x ->
  divides_as (divide_long x y) (value x) (value y).
Proof.
  intros Hx Hy Hs Hle. unfold divide_long. assert (words y <> []) as Hne by (intros E; unfold size in Hs; rewrite E in Hs; simpl in Hs; lia).
  pose proof (big_top y (proj1 Hy) Hne) as Htop. destruct (top_word_bounds _ (proj1 (proj1 Hy)) Hne) as (Wt & Ew & Bt).
  destruct (find_shift_spec 32 (top_word (words y)) 0) as (s & -> & Hs32 & H1 & H2); [done|done| |done|].
  { unfold digit in Wt. lia. }
  cbn [mbind result_bind].
  destruct (shifted_divisor (words y) s (proj1 (proj1 Hy)) Hne Hs32 H1 H2) as (Hz & Hnz & Hlz & Hvz & Htz).
  destruct (shift_words_spec s 0 (words x) Hs32 ltac:(lia) (proj1 (proj1 Hx))) as (Hlow & Hll & Hlast & Hvl).
  destruct (shift_words s 0 (words x)) as [lowx temp]. cbn [fst snd] in *.
  set (zs := (shift_words s 0 (words y)).1) in *. rewrite !nat_big_value in * by done.
  pose proof (not_smaller_length x y (proj1 Hx) (proj1 Hy) Hle) as Hsize.
  pose proof (wval_range _ (proj1 (proj1 Hx))) as Rx. unfold size in *.
  assert (2 ^ s <= 2 ^ 31) by (apply Z.pow_le_mono_r; lia).
  rewrite u32_id by (unfold IL_MAX_UINT32; lia).
  assert (wval (lowx ++ [temp]) = wval (words x) * 2 ^ s) as Hvn.
  { rewrite wval_app, (weight_length lowx (words x)) by done. cbn [wval]. lia. }
  destruct (div_loop_spec zs (S (length (words x) - length (words y))) (lowx ++ [temp]) [])
    as (r & qs & -> & Hqs & Hr & Hlq & Hlr & Hvr & He); try done.
  { apply Forall_app. split; [done|]. constructor; [unfold digit, base in *; lia|done]. }
  { rewrite length_app, Hll, Hlz. simpl. lia. }
  { rewrite Hvn, Hvz.
    assert (weight (words x) = weight (tail (words y)) * base ^ Z.of_nat (S (length (words x) - length (words y)))) as Ewx.
    { unfold weight. rewrite <-Z.pow_add_r, length_tl by lia. f_equal. lia. }
    set (P := base ^ Z.of_nat _) in *. assert (0 < P) by (unfold P, base; lia).
    pose proof (weight_pos (tail (words y))). assert (weight (tail (words y)) <= wval (words y)) by nia.
    assert (wval (words x) < wval (words y) * P) by (rewrite Ewx in Rx; nia).
    assert (0 < 2 ^ s) by lia. nia. }
  cbn [mbind result_bind]. rewrite app_nil_r.
  assert (wval (take (length zs) r) = wval r /\ Forall digit (take (length zs) r)) as [Hvt Hwt].
  { pose proof (take_drop (length zs) r) as Hsplit.
    assert (length (take (length zs) r) = length zs) as Hlt.
    { rewrite length_take, Hlr, length_app, Hll. simpl. lia. }
    clear Hlr He. revert Hsplit Hlt Hvr Hr. generalize (take (length zs) r) (drop (length zs) r). intros lo hi <- Hlt Hvr Hr.
    apply Forall_app in Hr as [Ha Hb]. split; [|done].
    rewrite wval_app in *. apply wval_range in Ha as Ra, Hb as Rb, Hz as Rz.
    rewrite (weight_length lo zs) in * by done. pose proof (weight_pos zs).
    destruct (Z.eq_dec (wval hi) 0) as [->|]; [lia|]. nia. }
  destruct (unshift_words_spec s (take (length zs) r) ltac:(lia) Hwt) as (Hwu & _ & Hvu).
  rewrite Hvt in Hvu.
  eapply divides_as_eq; [done|by apply normalize_big|by apply normalize_big|lia|..]; rewrite !normalize_value.
  - rewrite Hvu. split; [apply Z.div_pos; lia|]. apply Z.div_lt_upper_bound; [lia|]. rewrite Hvz in Hvr. lia.
  - rewrite Hvu. assert (wval r = 2 ^ s * (wval (words x) - wval (words y) * wval qs)) as E
      by (rewrite Hvn, Hvz in He; lia).
    rewrite E, (Z.mul_comm (2 ^ s)), Z.div_mul by lia. lia.
Qed.

Lemma div_rem_correct x y :
  nat_big x -> nat_big y -> 0 < value y -> divides_as (DivRem x y) (value x) (value y).
Proof.
  intros Hx Hy Hp. pose proof (nat_big_nonneg x Hx) as Hx0. unfold DivRem.
  pose proof (proj1 (proj1 Hy)) as Wy. rewrite (nat_big_value y Hy) in Hp.
  destruct (Nat.eqb_spec (size y) 0) as [E|_].
  { apply length_zero_iff_nil in E. rewrite E in Hp. simpl in Hp. lia. }
  destruct (Nat.eqb_spec (size x) 0) as [E|_].
  { rewrite (nat_big_value y Hy). apply length_zero_iff_nil in E.
    assert (value x = 0) as -> by (apply big_zero; [apply Hx|done]).
    eapply divides_as_eq; [done|by apply from_int_big|by apply from_int_big|done|..]; rewrite !from_int_value; lia. }
  assert ((2 <= size y)%nat -> divides_as
    (if ILBigNumCompare x y <? 0 then mret (ILBigNumFromInt 0, ILBigNumCopy x) else divide_long x y)
    (value x) (value y)) as Hlong.
  { intros Hs. rewrite compare_value by (apply Hx || apply Hy).
    destruct (Z.ltb_spec (Z.sgn (value x - value y)) 0) as [Hlt|Hge]; [|apply div_rem_long; [done..|lia]].
    rewrite copy_id by apply Hx.
    eapply divides_as_eq; [done|by apply from_int_big|apply Hx|done|..]; rewrite ?from_int_value; lia. }
  unfold size in Hlong. destruct (words y) as [|d [|y1 ys]] eqn:Ey; [simpl in Hp; lia| |apply Hlong; simpl; lia].
  inversion_clear Wy as [|? ? Hd _]. rewrite (nat_big_value y Hy), Ey in *. cbn [wval] in *.
  replace (d + base * 0) with d in * by lia. unfold divide_short.
  destruct (short_div_spec d (words x) Hd Hp (proj1 (proj1 Hx))) as (Hw & Ht & Hv).
  destruct (short_div d (words x)) as [q t]. cbn [fst snd] in *.
  rewrite u32_id by (unfold digit, base, IL_MAX_UINT32 in *; lia).
  eapply divides_as_eq; [done|by apply normalize_big|apply from_int_big; unfold digit in *; lia|done|..];
    rewrite ?normalize_value, from_int_value; [done|]. rewrite (nat_big_value x Hx). lia.
Qed.

(** ** Products by a modulus *)

(** A function that returns a number that is not negative, of a value. *)
Definition nat_yields (r : result ILBigNum) (v : Z) : Prop :=
  exists n, r = Returns n /\ nat_big n /\ value n = v.

Lemma mod_correct n m :
  nat_big n -> nat_big m -> 0 < value m -> nat_yields (ILBigNumMod n m) (value n mod value m).
Proof.
  intros Hn Hm Hp. destruct (div_rem_correct n m Hn Hm Hp) as (q & r & E & _ & Hr & _ & Hv).
  unfold ILBigNumMod. rewrite E. by exists r.
Qed.

Lemma mul_modular n k m :
  nat_big n -> nat_big k -> nat_big m -> 0 < value m ->
  nat_yields (ILBigNumMul n k (Some m)) ((value n * value k) mod value m).
Proof.
  intros Hn Hk Hm Hp. pose proof (mul_exact n k (proj1 Hn) (proj1 Hk)) as (p & E & Hb & Hv).
  pose proof (nat_big_nonneg n Hn). pose proof (nat_big_nonneg k Hk).
  assert (nat_big p) as Hpn by (apply big_nonneg; [done|rewrite Hv; nia]).
  unfold ILBigNumMul in *. destruct (size n + size k =? 0)%nat.
  - injection E as <-. exists (ILBigNumFromInt 0). split; [done|]. split; [done|].
    rewrite <-Hv, from_int_value. symmetry. apply Z.mod_small. lia.
  - destruct (mul_words _ _ _) as [ws| | |]; cbn [mbind result_bind] in *; try done.
    injection E as E. rewrite E, compare_value by (done || apply Hm). rewrite Hv, Z.geb_leb.
    destruct (Z.leb_spec 0 (Z.sgn (value n * value k - value m))) as [H1|H1].
    + destruct (div_rem_correct p m Hpn Hm Hp) as (q & r & -> & _ & Hr & _ & Hvr).
      exists r. split; [done|]. by rewrite Hvr, Hv.
    + exists p. split; [done|]. split; [done|]. rewrite Hv. symmetry. apply Z.mod_small. nia.
Qed.

(** ** The extended algorithm of Euclid *)

(** What holds before every test of the loop: the equations of Bezout, the
    divisors, the signs of the coefficients and the continuant. *)
Record egcd (a m : Z) (u1 u2 u3 v1 v2 v3 : ILBigNum) : Prop := {
  egcd_big : big u1 /\ big u2 /\ nat_big u3 /\ big v1 /\ big v2 /\ nat_big v3;
  egcd_u : value u1 * a + value u2 * m = value u3;
  egcd_v : value v1 * a + value v2 * m = value v3;
  egcd_gcd : Z.gcd (value u3) (value v3) = Z.gcd a m;
  egcd_signs : value u1 * value v1 <= 0;
  egcd_continuant : Z.abs (value v1) * value u3 + Z.abs (value u1) * value v3 = m;
  egcd_u1 : Z.abs (value u1) <= m;
  egcd_v1 : Z.abs (value v1) <= m
}.

Lemma gcd_subtract u v q :
  big u -> big v -> big q -> yields (GCDSubtract u v q) (value u - value v * value q).
Proof.
  intros Hu Hv Hq. unfold GCDSubtract. destruct (mul_exact v q Hv Hq) as (p & -> & Hp & Hvp).
  cbn [mbind result_bind]. rewrite <-Hvp. by apply sub_exact.
Qed.

Lemma inv_step a m fuel u1 u2 u3 v1 v2 v3 :
  egcd a m u1 u2 u3 v1 v2 v3 -> 0 < value v3 ->
  exists t1 t2 t3, inv_loop (S fuel) u1 u2 u3 v1 v2 v3 = inv_loop fuel v1 v2 v3 t1 t2 t3 /\
    egcd a m v1 v2 v3 t1 t2 t3 /\ value t3 = value u3 mod value v3.
Proof.
  intros [(B1 & B2 & B3 & B4 & B5 & B6) Eu Ev Eg Es Ec E1 E2] Hp. cbn [inv_loop].
  rewrite is_zero_value by apply B6. rewrite (proj2 (Z.eqb_neq _ _)) by lia.
  destruct (div_rem_correct u3 v3 B3 B6 Hp) as (q & r & -> & Hq & _ & Hvq & _). cbn [mbind result_bind].
  destruct (gcd_subtract u1 v1 q B1 B4 (proj1 Hq)) as (t1 & -> & H1 & V1). cbn [mbind result_bind].
  destruct (gcd_subtract u2 v2 q B2 B5 (proj1 Hq)) as (t2 & -> & H2 & V2). cbn [mbind result_bind].
  destruct (gcd_subtract u3 v3 q (proj1 B3) (proj1 B6) (proj1 Hq)) as (t3 & -> & H3 & V3). cbn [mbind result_bind].
  exists t1, t2, t3. split; [done|].
  pose proof (Z.div_mod (value u3) (value v3) ltac:(lia)) as Hdm.
  pose proof (Z.mod_pos_bound (value u3) (value v3) Hp) as Hm.
  pose proof (nat_big_nonneg q Hq) as Hq0. rewrite <-Hvq in Hdm.
  assert (value t3 = value u3 mod value v3) as Ht3 by lia. split; [|done].
  assert (Z.abs (value t1) = Z.abs (value u1) + value q * Z.abs (value v1)) as Habs by (rewrite V1; nia).
  assert (Z.abs (value t1) * value v3 + Z.abs (value v1) * value t3 = m) as Hc by (rewrite Habs, V3; nia).
  split; try done.
  - repeat (split; [done|]). apply big_nonneg; [done|lia].
  - rewrite V1, V2, V3, <-Eu, <-Ev. ring.
  - rewrite Ht3, Z.gcd_comm, Z.gcd_mod by lia. by rewrite Z.gcd_comm.
  - rewrite V1. pose proof (Z.mul_nonneg_nonneg _ _ Hq0 (Z.square_nonneg (value v1))). lia.
  - pose proof (Z.mul_nonneg_nonneg (Z.abs (value v1)) (value t3) ltac:(lia) ltac:(lia)).
    pose proof (Z.mul_le_mono_nonneg_l 1 (value v3) (Z.abs (value t1)) ltac:(lia) ltac:(lia)). lia.
Qed.

(** Two steps halve the last number. *)
Lemma inv_loop_ends a m k fuel u1 u2 u3 v1 v2 v3 :
  egcd a m u1 u2 u3 v1 v2 v3 -> value v3 < 2 ^ Z.of_nat k -> (2 * k + 1 <= fuel)%nat ->
  exists u c, inv_loop fuel u1 u2 u3 v1 v2 v3 = Returns u /\ big u /\ Z.abs (value u) <= m /\
    value u * a = Z.gcd a m + c * m.
Proof.
  revert fuel u1 u2 u3 v1 v2 v3. induction k as [|k IH]; intros fuel u1 u2 u3 v1 v2 v3 I Hk Hf.
  all: pose proof (nat_big_nonneg v3 ltac:(apply I)) as Hv3.
  all: assert (forall fuel u1 u2 u3 v1 v2 v3, egcd a m u1 u2 u3 v1 v2 v3 -> value v3 = 0 -> (0 < fuel)%nat ->
    exists u c, inv_loop fuel u1 u2 u3 v1 v2 v3 = Returns u /\ big u /\ Z.abs (value u) <= m /\
      value u * a = Z.gcd a m + c * m) as Hend.
  1, 3: clear; intros fuel u1 u2 u3 v1 v2 v3 [(B1 & B2 & B3 & B4 & B5 & B6) Eu Ev Eg Es Ec E1 E2] Hz Hf;
    destruct fuel as [|fuel]; [lia|]; cbn [inv_loop]; rewrite is_zero_value, Hz by apply B6;
    exists u1, (- value u2); repeat (split; [done|]); rewrite <-Eg, Hz, Z.gcd_0_r;
    pose proof (nat_big_nonneg u3 B3); lia.
  { apply Hend; [done|simpl in Hk; lia|lia]. }
  destruct (Z.eq_dec (value v3) 0) as [Hz|Hz]; [apply Hend; [done..|lia]|].
  destruct fuel as [|[|fuel]]; [lia|lia|].
  destruct (inv_step a m (S fuel) _ _ _ _ _ _ I ltac:(lia)) as (t1 & t2 & t3 & -> & I' & Ht3).
  pose proof (Z.mod_pos_bound (value u3) (value v3) ltac:(lia)) as Hm3.
  destruct (Z.eq_dec (value t3) 0) as [Hz3|Hz3]; [apply Hend; [done..|lia]|].
  destruct (inv_step a m fuel _ _ _ _ _ _ I' ltac:(lia)) as (s1 & s2 & s3 & -> & I'' & Hs3).
  apply IH; [done| |lia].
  pose proof (Z.div_mod (value v3) (value t3) ltac:(lia)) as Hdm.
  pose proof (Z.mod_pos_bound (value v3) (value t3) ltac:(lia)) as Hm.
  assert (1 <= value v3 / value t3) by (apply Z.div_le_lower_bound; lia).
  rewrite Nat2Z.inj_succ, Z.pow_succ_r in Hk by lia. nia.
Qed.

Lemma egcd_start n m :
  nat_big n -> nat_big m -> 0 < value m ->
  egcd (value n) (value m) (ILBigNumFromInt 1) (ILBigNumFromInt 0) (ILBigNumCopy n)
    (ILBigNumFromInt 0) (ILBigNumFromInt 1) (ILBigNumCopy m).
Proof.
  intros Hn Hm Hp. rewrite !copy_id by (apply Hn || apply Hm).
  assert (forall z, z = 0 \/ z = 1 -> big (ILBigNumFromInt z)) as Hb
    by (intros z H; apply from_int_big; unfold digit, base; lia).
  split; rewrite ?from_int_value; try done; try lia. repeat (split; [by auto|]). done.
Qed.

Lemma modulus_bound m : nat_big m -> value m < 2 ^ Z.of_nat (32 * size m).
Proof.
  intros Hm. rewrite nat_big_value by done. pose proof (wval_range _ (proj1 (proj1 Hm))) as [_ H].
  rewrite Nat2Z.inj_mul, Z.pow_mul_r by lia. exact H.
Qed.

(** The result is an inverse up to the greatest common divisor. *)
Lemma inv_correct n m :
  nat_big n -> nat_big m -> 0 < value m ->
  exists i c, ILBigNumInv n m = Returns i /\ nat_big i /\ value i <= value m /\
    value i * value n = Z.gcd (value n) (value m) + c * value m.
Proof.
  intros Hn Hm Hp. unfold ILBigNumInv.
  destruct (inv_loop_ends (value n) (value m) (32 * size m) (inv_fuel m) _ _ _ _ _ _ (egcd_start n m Hn Hm Hp))
    as (u & c & -> & Hu & Ha & Hc); [|unfold inv_fuel; lia|].
  { rewrite copy_id by apply Hm. by apply modulus_bound. }
  cbn [mbind result_bind]. pose proof (wval_range _ (proj1 Hu)) as Ru. destruct (neg u) eqn:E.
  - destruct (add_exact 0 m u (proj1 Hm) Hu) as (i & -> & Hi & Hv).
    assert (value u <= 0) by (unfold value; rewrite E; lia).
    exists i, (c + value n). split; [done|]. split; [apply big_nonneg; [done|lia]|]. split; [lia|]. rewrite Hv. lia.
  - exists u, c. split; [done|]. split; [done|]. split; [lia|done].
Qed.

(** ** Powers *)

Lemma pow_split r p a b c : 0 <= a -> 0 <= b -> 0 <= c -> r * p ^ a * (p ^ b) ^ c = r * p ^ (a + b * c).
Proof. intros. rewrite <-Z.pow_mul_r, <-Z.mul_assoc, <-Z.pow_add_r by lia. done. Qed.

Section Powers.

(** What the power and the result are, for the operation on them. *)
Context (modulus : option ILBigNum) (P R : Z -> ILBigNum -> Prop).
Context (mul_res : forall r p res power, R r res -> P p power ->
  exists n, ILBigNumMul res power modulus = Returns n /\ R (r * p) n).
Context (mul_power : forall p power, P p power ->
  exists n, ILBigNumMul power power modulus = Returns n /\ P (p * p) n).

Lemma land_mask w i : 0 <= i < 32 -> digit w ->
  (Z.land w (u32 (2 ^ i - 1)) =? w) = (w / 2 ^ i =? 0).
Proof.
  intros Hi Hw. assert (0 < 2 ^ i <= 2 ^ 31) by (split; [lia|apply Z.pow_le_mono_r; lia]).
  rewrite u32_id, land_low by (unfold IL_MAX_UINT32; lia).
  pose proof (Z.div_mod w (2 ^ i) ltac:(lia)). pose proof (Z.mod_pos_bound w (2 ^ i) ltac:(lia)).
  apply eq_true_iff_eq. rewrite !Z.eqb_eq. nia.
Qed.

Lemma pow_bits_spec top w bits p r power res :
  digit w -> (bits <= 32)%nat -> P p power -> R r res ->
  let i := 32 - Z.of_nat bits in
  exists power' res', pow_bits modulus top w bits (u32 (2 ^ i)) power res = Returns (power', res') /\
    R (r * p ^ (w / 2 ^ i)) res' /\ (top = false -> P (p ^ (2 ^ Z.of_nat bits)) power').
Proof.
  intros Hw. revert p r power res. induction bits as [|bits IH]; intros p r power res Hb Hp Hr i.
  - exists power, res. split; [done|]. unfold i. rewrite Z.div_small by apply Hw.
    rewrite Z.pow_0_r, Z.mul_1_r. split; [done|]. intros _. by rewrite Z.pow_1_r.
  - cbn [pow_bits]. assert (0 <= i < 32) as Hi by lia.
    assert (0 < 2 ^ i <= 2 ^ 31) by (split; [lia|apply Z.pow_le_mono_r; lia]).
    rewrite (u32_id (2 ^ i)), land_mask, land_pow2, negb_involutive by (unfold IL_MAX_UINT32; lia || done).
    set (e := w / 2 ^ i). assert (0 <= e) by (apply Z.div_pos; unfold digit in Hw; lia).
    assert (exists r1 res1, (if Z.testbit w i then ILBigNumMul res power modulus else mret res) = Returns res1 /\
      R r1 res1 /\ r1 = r * p ^ (e mod 2)) as (r1 & res1 & -> & Hr1 & Er1).
    { replace (e mod 2) with (Z.b2z (Z.testbit w i)) by (apply Z.testbit_spec'; lia). destruct (Z.testbit w i); simpl Z.b2z.
      - destruct (mul_res r p res power Hr Hp) as (n & -> & Hn). exists (r * p), n. by rewrite Z.pow_1_r.
      - exists r, res. by rewrite Z.pow_0_r, Z.mul_1_r. }
    cbn [mbind result_bind].
    destruct (top && (e =? 0)) eqn:Htop.
    { apply andb_true_iff in Htop as [-> He%Z.eqb_eq]. exists power, res1. rewrite Er1, He in *. done. }
    destruct (mul_power p power Hp) as (power1 & -> & Hp1). cbn [mbind result_bind].
    assert (i + 1 = 32 - Z.of_nat bits) as Ei by lia.
    rewrite Z.shiftl_mul_pow2 by lia. replace (2 ^ i * 2 ^ 1) with (2 ^ (i + 1)) by (by rewrite Z.pow_add_r by lia).
    rewrite Ei. destruct (IH (p * p) r1 power1 res1) as (power' & res' & -> & Hr' & Hp'); [lia|done..|].
    exists power', res'. split; [done|]. rewrite <-Ei in Hr'.
    assert (w / 2 ^ (i + 1) = e / 2) as E2 by (unfold e; rewrite Z.pow_add_r, Z.div_div by lia; done).
    rewrite E2, Er1, <-Z.pow_2_r, <-Z.pow_mul_r in Hr' by (lia || apply Z.div_pos; lia).
    rewrite <-Z.mul_assoc, <-Z.pow_add_r in Hr' by (apply Z.mod_pos_bound; lia) || (pose proof (Z.div_pos e 2); lia).
    replace (e mod 2 + 2 * (e / 2)) with e in Hr' by (pose proof (Z.div_mod e 2); lia).
    split; [done|]. intros ->. specialize (Hp' eq_refl).
    rewrite <-Z.pow_2_r, <-Z.pow_mul_r in Hp' by lia. rewrite Nat2Z.inj_succ, Z.pow_succ_r by lia. done.
Qed.

Lemma pow_words_spec ws p r power res :
  Forall digit ws -> P p power -> R r res ->
  exists res', pow_words modulus ws power res = Returns res' /\ R (r * p ^ wval ws) res'.
Proof.
  intros Hw. revert p r power res. induction Hw as [|w ws Hw Hws IH]; intros p r power res Hp Hr.
  - exists res. cbn [pow_words wval]. by rewrite Z.pow_0_r, Z.mul_1_r.
  - cbn [pow_words wval].
    destruct (pow_bits_spec (match ws with [] => true | _ => false end) w 32 p r power res Hw ltac:(lia) Hp Hr)
      as (power' & res' & E & Hr' & Hp'). change (u32 (2 ^ (32 - Z.of_nat 32))) with 1 in E. rewrite E.
    cbn [mbind result_bind]. change (2 ^ (32 - Z.of_nat 32)) with 1 in Hr'. rewrite Z.div_1_r in Hr'.
    pose proof (wval_range ws Hws). destruct ws as [|w1 ws1] eqn:Ews.
    + exists res'. cbn [pow_words wval]. by rewrite Z.mul_0_r, Z.add_0_r.
    + rewrite <-Ews in *. destruct (IH _ _ power' res' (Hp' eq_refl) Hr') as (res'' & -> & Hr'').
      exists res''. split; [done|].
      rewrite (pow_split r p w (2 ^ Z.of_nat 32)) in Hr'' by (unfold digit in Hw; lia). exact Hr''.
Qed.

End Powers.

Lemma from_int_1 : nat_big (ILBigNumFromInt 1).
Proof. split; [apply from_int_big; done|done]. Qed.

(** A power without a modulus; the sign of the exponent is not looked at. *)
Lemma pow_exact x y :
  big x -> big y -> yields (ILBigNumPow x y None) (value x ^ Z.abs (value y)).
Proof.
  intros Hx Hy. unfold ILBigNumPow. rewrite copy_id by done.
  destruct (pow_words_spec None (fun v n => big n /\ value n = v) (fun v n => big n /\ value n = v)) with
    (ws := words y) (p := value x) (r := 1) (power := x) (res := ILBigNumFromInt 1)
    as (res & -> & Hr & Hv).
  - intros r p n k [Hn <-] [Hk <-]. by apply mul_exact.
  - intros p n [Hn <-]. by apply mul_exact.
  - apply Hy.
  - done.
  - split; [apply from_int_1|apply from_int_value].
  - exists res. split; [done|]. split; [done|]. rewrite Hv, Z.mul_1_l. f_equal.
    pose proof (wval_range _ (proj1 Hy)). unfold value. destruct (neg y); lia.
Qed.

Lemma pow_words_modular x y m :
  nat_big x -> big y -> nat_big m -> 1 < value m ->
  nat_yields (pow_words (Some m) (words y) x (ILBigNumFromInt 1)) (value x ^ Z.abs (value y) mod value m).
Proof.
  intros Hx Hy Hm Hp.
  destruct (pow_words_spec (Some m) (fun v n => nat_big n /\ value n mod value m = v mod value m)
    (fun v n => nat_big n /\ value n = v mod value m)) with
    (ws := words y) (p := value x) (r := 1) (power := x) (res := ILBigNumFromInt 1)
    as (res & E & Hr & Hv).
  - intros r p n k [Hn En] [Hk Ek]. destruct (mul_modular n k m Hn Hk Hm ltac:(lia)) as (t & -> & Ht & Hv).
    exists t. split; [done|]. split; [done|]. rewrite Hv, En, (Z.mul_mod r p), <-Ek, Z.mul_mod_idemp_r by lia. done.
  - intros p n [Hn En]. destruct (mul_modular n n m Hn Hn Hm ltac:(lia)) as (t & -> & Ht & Hv).
    exists t. split; [done|]. split; [done|]. rewrite Hv, Z.mod_mod, Z.mul_mod, En, <-Z.mul_mod by lia. done.
  - apply Hy.
  - done.
  - split; [apply from_int_1|]. rewrite from_int_value. symmetry. apply Z.mod_small. lia.
  - exists res. split; [done|]. split; [done|]. rewrite Hv, Z.mul_1_l. do 2 f_equal.
    pose proof (wval_range _ (proj1 Hy)). unfold value. destruct (neg y); lia.
Qed.

(** ** The theorems *)

(** C32: Sums, differences and products of normalised numbers of any sign are
    exact without a modulus, and stay within the words that are allocated; the
    comparison gives the sign of the difference. By a modulus, a difference
    and a product are reduced when both numbers are below it and none is
    negative. The numbers of words are unbounded (the source keeps them in an
    ILInt32). *)
Theorem arithmetic_exact fuel n k :
  big n -> big k ->
  yields (ILBigNumAdd fuel n k None) (value n + value k) /\
  yields (ILBigNumSub fuel n k None) (value n - value k) /\
  yields (ILBigNumMul n k None) (value n * value k) /\
  ILBigNumCompare n k = Z.sgn (value n - value k) /\
  forall m, nat_big n -> nat_big k -> nat_big m -> value n < value m -> value k < value m ->
    yields (ILBigNumSub fuel n k (Some m)) ((value n - value k) mod value m) /\
    nat_yields (ILBigNumMul n k (Some m)) ((value n * value k) mod value m).
Proof.
  intros Hn Hk. split; [by apply add_exact|]. split; [by apply sub_exact|]. split; [by apply mul_exact|].
  split; [by apply compare_value|]. intros m Hn' Hk' Hm Hnm Hkm. split; [by apply sub_modular|].
  apply mul_modular; try done. pose proof (nat_big_nonneg n Hn'). lia.
Qed.

(** C30: The division ends and returns the quotient and the remainder of the
    values: the estimate of a digit is never above it, two corrections are
    enough, and no word outside the numbers is touched.  A division by 0 fails. *)
Theorem DivRem_correct x y :
  nat_big x -> nat_big y ->
  if value y =? 0 then DivRem x y = Fails
  else exists q r, DivRem x y = Returns (q, r) /\ nat_big q /\ nat_big r /\
    value q = value x / value y /\ value r = value x mod value y.
Proof.
  intros Hx Hy. pose proof (nat_big_nonneg y Hy). destruct (Z.eqb_spec (value y) 0) as [E|E].
  - apply big_zero in E; [|apply Hy]. unfold DivRem, size. by rewrite E.
  - apply div_rem_correct; [done..|lia].
Qed.

(** C31: By a modulus above 1, [ILBigNumPow] ends and returns the power of the
    values when the exponent is not negative; when it is, and the number has no
    divisor in common with the modulus, the inverse of the power. *)
Theorem ILBigNumPow_correct x y m :
  nat_big x -> big y -> nat_big m -> 1 < value m ->
  (0 <= value y -> nat_yields (ILBigNumPow x y (Some m)) (value x ^ value y mod value m)) /\
  (value y < 0 -> Z.gcd (value x) (value m) = 1 ->
   exists i, ILBigNumPow x y (Some m) = Returns i /\ nat_big i /\ 0 < value i < value m /\
     (value i * value x ^ (- value y)) mod value m = 1).
Proof.
  intros Hx Hy Hm Hp. destruct (pow_words_modular x y m Hx Hy Hm Hp) as (r & E & Hr & Hv).
  unfold ILBigNumPow. rewrite copy_id by apply Hx. rewrite E. cbn [mbind result_bind]. split.
  - intros H. rewrite (proj2 (big_nonneg y Hy H)). exists r. split; [done|]. split; [done|].
    by rewrite Hv, Z.abs_eq.
  - intros H Hg. assert (neg y = true) as ->.
    { destruct (neg y) eqn:En; [done|]. pose proof (nat_big_nonneg y (conj Hy En)). lia. }
    rewrite Z.abs_neq in Hv by lia.
    destruct (inv_correct r m Hr Hm ltac:(lia)) as (i & c & -> & Hi & Hle & He).
    assert (Z.gcd (value r) (value m) = 1) as Hgr.
    { rewrite Hv, Z.gcd_mod, Z.gcd_comm by lia. apply Z.coprime_pow_l; [lia|done]. }
    assert ((value i * value r) mod value m = 1) as H1.
    { rewrite He, Hgr, Z.mod_add by lia. apply Z.mod_small. lia. }
    exists i. split; [done|]. split; [done|]. split.
    + pose proof (nat_big_nonneg i Hi).
      destruct (Z.eq_dec (value i) 0) as [Ez|]; [rewrite Ez in H1; simpl in H1; rewrite Z.mod_0_l in H1; lia|].
      destruct (Z.eq_dec (value i) (value m)) as [Ez|]; [|lia].
      rewrite Ez, Z.mul_comm, Z.mod_mul in H1; lia.
    + rewrite <-Z.mul_mod_idemp_r, <-Hv by lia. done.
Qed.

(** C33: The bytes of a number that is not negative give the number back; they are as many as
    [ILBigNumByteCount] says, and their value, from the most significant byte on, is that of the
    number.  Any bytes make a normalised number of their value. *)
Theorem bignum_bytes_roundtrip n bytes :
  nat_big n -> Forall is_byte bytes ->
  ILBigNumFromBytes (ILBigNumToBytes n) = n /\
  Z.of_nat (length (ILBigNumToBytes n)) = ILBigNumByteCount n /\
  be_value (ILBigNumToBytes n) = value n /\
  nat_big (ILBigNumFromBytes bytes) /\ value (ILBigNumFromBytes bytes) = be_value bytes.
Proof.
  intros Hn Hb. destruct (to_bytes_spec n Hn) as (Hbs & Hv & Hl).
  destruct (from_bytes_value _ Hbs) as (Hf & Hfv). split; [|by auto using from_bytes_value].
  apply big_inj; [apply Hf|apply Hn|]. by rewrite Hfv.
Qed.

(** ** The reduction of a sum *)

(** Numbers of given words. *)
Definition of_words (ws : list Z) : ILBigNum := {| neg := false; words := ws |}.

Lemma reduce_top_stays w fuel :
  0 <= w < base -> reduce fuel (of_words [w; 1]) (of_words [0xFFFFFFFF]) = OutOfFuel.
Proof.
  revert w. induction fuel as [|fuel IH]; intros w Hw; [done|].
  cbn [reduce]. change (ILBigNumCompareAbs (of_words [w; 1]) (of_words [0xFFFFFFFF])) with 1.
  change (1 >=? 0) with true. cbn [words of_words reduce_words].
  set (d := u32 (w - 4294967295)). pose proof (word_u32 (w - 4294967295)) as Hd. fold d in Hd.
  rewrite Z.gtb_ltb, (proj2 (Z.ltb_ge _ _)) by (unfold digit, base in Hd; lia).
  cbn [mbind result_bind mret result_ret reduce_rest].
  assert (NormalizeBigNum {| neg := false; words := [d; 1] |} = of_words [d; 1]) as E by done.
  cbn [neg of_words]. rewrite E. apply IH. exact Hd.
Qed.

(** The reduction of a sum compares the difference of two words with the word
    of the modulus instead of the word of the sum, so it loses borrows.
    2^32 + 5 and 2^32 are below the modulus 2^33 - 1; their sum becomes 2^32 + 6, and not
    6.  Twice 2^32 - 2 by the modulus 2^32 - 1 is never reduced: the loop does not end. *)
Theorem modular_sum_wrong :
  ILBigNumAdd 2 (of_words [5; 1]) (of_words [0; 1]) (Some (of_words [0xFFFFFFFF; 1])) =
    Returns (of_words [6; 1]) /\
  (value (of_words [5; 1]) + value (of_words [0; 1])) mod value (of_words [0xFFFFFFFF; 1]) = 6 /\
  forall fuel,
    ILBigNumAdd fuel (of_words [0xFFFFFFFE]) (of_words [0xFFFFFFFE]) (Some (of_words [0xFFFFFFFF])) =
    OutOfFuel.
Proof.
  split; [reflexivity|]. split; [reflexivity|]. intros fuel.
  change (ILBigNumAdd fuel _ _ _) with (reduce fuel (of_words [0xFFFFFFFC; 1]) (of_words [0xFFFFFFFF])).
  apply reduce_top_stays. unfold base. lia.
Qed.

(** ** Witnesses *)

(** Two to the 64th plus 3, and two to the 33rd plus one. *)
Definition num_a : ILBigNum := of_words [3; 0; 1].
Definition num_b : ILBigNum := of_words [1; 2].
Definition num_minus : ILBigNum := {| neg := true; words := [5] |}.

Lemma words_ok ws : forallb (fun w => (0 <=? w) && (w <? base)) ws = true -> Forall digit ws.
Proof.
  intros H. rewrite forallb_forall in H. apply list.Forall_forall. intros w Hin%list_elem_of_In%H.
  bool_to_prop. done.
Qed.

Lemma num_big b ws :
  forallb (fun w => (0 <=? w) && (w <? base)) ws = true -> trim ws = ws -> ws <> [] ->
  big {| neg := b; words := ws |}.
Proof. intros H Ht Hn. split; [by apply words_ok|]. split; [done|]. intros E. by destruct Hn. Qed.

Ltac concrete_big := first [apply num_big | split; [apply num_big|]]; vm_compute; done.

Lemma num_a_ok : nat_big num_a.
Proof. concrete_big. Qed.

Lemma num_b_ok : nat_big num_b.
Proof. concrete_big. Qed.

Lemma num_minus_ok : big num_minus.
Proof. concrete_big. Qed.

Lemma arithmetic_exact_witness :
  yields (ILBigNumSub 0 num_b num_minus None) 8589934598 /\
  nat_yields (ILBigNumMul num_b num_b (Some num_a)) 17179869173.
Proof.
  split.
  - exact (proj1 (proj2 (arithmetic_exact 0 num_b num_minus (proj1 num_b_ok) num_minus_ok))).
  - exact (proj2 (proj2 (proj2 (proj2 (proj2 (arithmetic_exact 0 num_b num_b (proj1 num_b_ok) (proj1 num_b_ok)))))
      num_a num_b_ok num_b_ok num_a_ok eq_refl eq_refl)).
Defined.

Lemma DivRem_correct_witness :
  exists q r, DivRem num_a num_b = Returns (q, r) /\ nat_big q /\ nat_big r /\
    value q = 2147483647 /\ value r = 6442450948.
Proof. exact (DivRem_correct num_a num_b num_a_ok num_b_ok). Defined.

Lemma ILBigNumPow_correct_witness :
  exists i, ILBigNumPow num_b num_minus (Some num_a) = Returns i /\ nat_big i /\ 0 < value i < value num_a /\
    (value i * value num_b ^ 5) mod value num_a = 1.
Proof.
  exact (proj2 (ILBigNumPow_correct num_b num_minus num_a num_b_ok num_minus_ok num_a_ok eq_refl) eq_refl eq_refl).
Defined.

Lemma bignum_bytes_roundtrip_witness :
  ILBigNumFromBytes (ILBigNumToBytes num_b) = num_b /\ ILBigNumToBytes num_b = [2; 0; 0; 0; 1] /\
  value (ILBigNumFromBytes [1; 2]) = 258.
Proof.
  assert (Forall is_byte [1; 2]) as H by (repeat constructor; done).
  destruct (bignum_bytes_roundtrip num_b [1; 2] num_b_ok H) as (E & _ & _ & _ & Ev).
  exact (conj E (conj eq_refl Ev)).
Defined.
